(* ===== verification/_CoqProject ===== *)
-Q . S2P
Prelude.v
Crypto.v
AclModels.v
AclState.v
AclValidator.v
AclApply.v
AclSpec.v
AclRefine.v
AclExample.v
AclHistory.v
AclRotation.v
AclMain.v
AclStorage.v
AclKeep.v
AclList.v
AclListInv.v
AclListMain.v
AclListSync.v
Ldiff.v
LdiffRanges.v
LdiffExchange.v
LdiffMain.v
LdiffShape.v
LdiffBuild.v
LdiffCompare.v
HeadDiff.v
KeyValue.v
KeyValueInv.v
KeyValueMain.v
KeyValueDiff.v
TreeModels.v
Tree.v
TreeOrder.v
TreeAdd.v
TreeStable.v
TreeHeads.v
TreeCalls.v
TreeMerged.v
TreeMain.v
TreeExample.v
TreeDfs.v
ChangeBuilder.v
ToyCodec.v
ChangeMain.v
TreeStorage.v
TreeSnapshots.v
TreeLoad.v
TreeLoadMain.v
TreeBuild.v
ObjectTree.v
ObjectTreeContent.v
ObjectTreeAgree.v
ObjectTreeRead.v
ObjectTreeExample.v
KeyValueStore.v
KeyValueRaw.v
KeyValuePull.v
KeyValueExample.v
AclBuild.v
AclBuildMain.v
AclBuildExample.v
SpacePayload.v
SpacePayloadMain.v
SyncTree.v
SyncTreeMain.v
SyncQueues.v
SyncQueuesMain.v
HeadStorage.v
HeadSync.v
HeadSyncMain.v
HeadSyncExample.v
Topics.v
StreamPool.v
StrKey.v
PubSub.v
PubSubMain.v
PubSubExample.v
Settings.v
SettingsMain.v
