(* ===== verification/Prelude.v ===== *)
(** * Verification of any-sync

    any-sync is the protocol of spaces that are kept on many devices: an access-control
    list that says who may do what, objects that are trees of changes, key-value stores,
    and diffs that find out what two peers hold in different versions.  This development
    models the core of it and proves what makes it correct.  The Go sources are under
    src/; names of definitions follow the names of the Go functions.

    ** The parts and how they interact

    - The access-control list (src/commonspace/object/acl/list).  Records arrive as raw
      bytes; the record builder decodes and authenticates them (aclrecordbuilder.go,
      keepidentity.go, recordverifier) and builds new ones; the list (list.go) applies
      each to a copy of the state and keeps it when the state (aclstate.go) and its
      validator (validator.go) accept it; the storage (storage.go, inmemorystorage.go)
      keeps the log; a list is rebuilt from the log by one of two loaders and replayed
      (aclstatebuilder.go).
    - The head diff (src/app/ldiff).  A container of (id, head) pairs with a tree of
      hashed ranges; two peers exchange hashes of ranges until they know which ids
      differ.
    - The object tree (src/commonspace/object/tree/objecttree).  Changes name their
      predecessors, are attached once these are attached, and are iterated in an order
      that all replicas compute alike (tree.go).  The object tree around it (objecttree.go)
      builds, signs and encrypts changes (changebuilder.go), checks them against the
      access-control list (objecttreevalidator.go), stores them and rebuilds from the
      storage (treebuilder.go), and serves what a peer lacks (loaditerator.go).
    - The sync tree (src/commonspace/object/tree/synctree): an object tree that tells its
      peers about new heads, answers their requests and adds what they send.
    - The key-value store (src/commonspace/object/keyvalue): signed rows and watermarks,
      each with a head in a diff, exchanged between peers.
    - Space payloads (src/commonspace/spacepayloads): the header, ACL root and settings
      root of a new space, and their validation.
    - Head sync (src/commonspace/headsync, deletionstate, deletionmanager): the heads of all
      objects of a space in a storage, followed by a diff that peers compare; deleted
      objects leave it.
    - The settings object (src/commonspace/settings): an object tree whose changes say
      which objects of the space are deleted, folded into one state, with snapshots.
    - Publish/subscribe (src/commonspace/pubsub): topics with patterns, an engine that
      relays messages between the peers of a space, a client that signs, encrypts and
      deduplicates them; it sends over the stream pool (src/net/streampool).
    - Queues (src/util/syncqueues): how many requests are open, and which of several
      requests for one object is sent.
    - Keys (src/util/crypto), addresses (src/util/strkey) and content ids
      (src/util/cidutil), used by all of these.

    ** How the code is modelled

    A Go function that can fail returns [res] ([Ok] or [Err]); a method that changes its
    receiver is a state function [ST S A], which returns the state also when it fails,
    so that a partial write stays visible.  A panic is the error [GoPanic].  Structs are
    records; enums and tagged unions are inductive types; a map is a [gmap]; a map whose
    iteration order is observable is ranged over by the class [MapRange], for any order.
    64-bit hashes are [Z] with the wrap-around written out ([u64]).  Bytes and strings
    are [string].  Contexts and logging have no counterpart.  An operation is one step,
    its locks taken for granted; where threads share state beyond one lock (the
    replaceable queue, the updater of head sync, the streams and handlers of
    publish/subscribe) they are interleaved step by step.  Code
    outside the repository is a class of operations with the laws it documents, and every
    theorem that assumes laws is applied to a concrete instance:
    [CryptoPrims], [SharedKeyPrims], [SealPrims], [BoxPrims], [HmacPrims] (ed25519, nacl
    box, AES-GCM, X25519, HKDF, SLIP-21; how a shared key is made of them is modelled); [AclCodec], [ListCodec], [ProtoWire], [BuildCodec],
    [TreeCodec], [KvCodec], [KvStoreCodec], [SpaceCodec], [SyncCodec] (generated protobuf
    code); [SettingsCodec] and [PeerMessage] (the same, of the settings and of a stream);
    [SkipList], [DiffHashes], [LexId], [SortFunc], [Base58], [Limiter], [MsgQueue]
    (libraries); [KvDb] and [HeadsDb] (collections of the database).  Classes are also the interfaces between components:
    [AclStorage] and [TreeStorage] between a list or tree and its storage, [HeadDiff]
    between the key-value store and its diff, [MessageBatch] between a queue and what it
    feeds, [MsgQueue] between a stream or a subscription and its reader.

    ** Files

    - Prelude: results, state functions, loops, the tactics [go_step] and [go_inv] that
      take a successful run apart, and the hint database [go_db].
    - Crypto: keys and the key cache.
    - AclModels (models.go and the record messages), AclState (the state and its
      queries), AclValidator (validator.go), AclApply (the apply functions, the root,
      one-to-one spaces, [Build]).
    - AclSpec: the abstract role machine [acl_step]; AclRefine: the simulation, the
      reachable states; AclHistory, AclRotation: permission histories, the rotation of the
      read key and the chain of old keys; AclExample: a concrete space; AclMain: the
      theorems.
    - AclStorage (the storage interface, its laws, the in-memory storage), AclKeep (the
      identity-keeping decoder), AclList (list.go and the decoding half of the record
      builder), AclListInv (the invariant of a list), AclListMain and AclListSync (the
      theorems, and a concrete list).
    - AclBuild (the building half of the record builder), AclBuildMain, AclBuildExample.
    - Ldiff (diff.go, hashrange.go), LdiffRanges (the cutting of ranges), LdiffExchange
      (the exchange, against any faithful answers), LdiffMain (the containers answer
      faithfully; the theorems), LdiffShape, LdiffBuild (the tree of ranges
      stays usable as elements are set: [grown_container]), LdiffCompare ([CompareDiff]), HeadDiff (what its users rely on).
    - TreeModels (change.go, the messages), Tree (tree.go, treeiterator.go, treereduce.go),
      TreeOrder (the topological sort; the links of a tree), TreeAdd (attaching and the
      wait list), TreeStable (the order depends only on the changes and is stable),
      TreeHeads (order ids and heads), TreeCalls (one call of [Add]), TreeMerged
      ([AddMergedHead]), TreeDfs, TreeMain (the theorems), TreeExample.
    - ChangeBuilder (changebuilder.go), ChangeMain; ToyCodec (a concrete codec and toy
      cryptography for evaluation).
    - TreeStorage (storage.go), TreeSnapshots (snapshot paths and common snapshots of
      treebuilder.go), TreeLoad, TreeLoadMain (loaditerator.go), TreeBuild
      (keys, objecttreevalidator.go, treebuilder.go), ObjectTree (objecttree.go and what
      is around it), ObjectTreeContent (roll-back, adding content), ObjectTreeAgree (tree
      and storage agree), ObjectTreeRead (reading and decrypting), ObjectTreeExample.
    - KeyValue (innerstorage), KeyValueInv, KeyValueMain, KeyValueDiff (its invariant and
      theorems), KeyValueStore, KeyValueRaw (keyvaluestorage/storage.go), KeyValuePull
      (keyvalue.go, remotediff.go), KeyValueExample.
    - SpacePayload (payloads.go), SpacePayloadMain.
    - SyncTree (the synctree package), SyncTreeMain.
    - SyncQueues (guard.go, limit.go, replaceablequeue.go), SyncQueuesMain (the invariant
      of the interleaved threads; the theorems).
    - HeadStorage (headstorage.go, deletionstate.go, deleter.go), HeadSync (diffmanager.go,
      diffsyncer.go, headupdater.go, remotediff.go), HeadSyncMain, HeadSyncExample.
    - Settings (the settings package), SettingsMain (the theorems, and a concrete object).
    - Topics (topic.go and the tries of patterns), StreamPool (streampool.go, stream.go, sendpool.go),
      PubSub (service.go, sign.go, dedup.go, ratelimit.go, deps.go), PubSubMain,
      PubSubExample; StrKey (strkey.go).

    ** What the theorems show

    - Authority.  [acl_refines_roles]: applying a validated record makes only steps of
      the abstract machine, for its author.  From it: [acl_one_owner],
      [acl_admins_from_owner], [acl_owner_kept], [acl_members_isolated].  Error
      behaviour: [acl_record_sequence].
    - Keys.  [acl_remove_rotates]: after a removal the current key is new and encrypted
      for exactly the remaining members; [acl_unpack_all_keys]: one read key opens the
      past; [keystorage_transparent].
    - History.  [acl_history_current], [acl_permissions_at_head], [acl_history_stable].
    - The list.  [acl_list_rebuild]: memory and storage agree; [acl_list_add_atomic],
      [acl_list_add_found], [acl_list_authentic]; [acl_load_scan_is_walk] and
      [acl_keep_identity_safe]: the two optimisations are equivalent to the plain code;
      [acl_sync_catches_up] and [acl_records_served_raw]: peers catch up.
    - The diff.  [ldiff_diff_correct]: the exchange ends and finds exactly the new and
      changed ids, and only removed ids, when both containers answer from up-to-date ranges
      (which they do however elements were set, and do not always once some were removed:
      [ldiff_stale_range_hides_change]); [ldiff_ranges_partition],
      [ldiff_set_contents], [ldiff_remove_contents].
    - The change tree.  [tree_add_total]: [Add] ends without a panic; [tree_add_attaches]:
      it attaches exactly the changes whose ancestors are there; [tree_iteration],
      [tree_order_stable], [tree_append_mode]: the order is topological, complete, never
      rearranged, and appended to when [Add] says so; [tree_converges] and
      [tree_delivery_order]: replicas agree.
    - The object tree.  [object_tree_agrees]: tree and storage hold the same changes;
      [object_tree_authorised]: every change was allowed by the list; [object_tree_rollback]:
      changes that do not validate leave no trace; [object_tree_add_content],
      [object_tree_content_decrypts] (content reads back from its bytes on every replica with
      the key), [change_authentic], [change_build_roundtrip].
    - The sync tree.  [sync_head_update_settles]: a head update is applied or asked after;
      [sync_stream_serves], [tree_load_complete]: a peer is sent everything it lacks.
    - The key-value store.  [kv_converges]: stores that got the same rows hold the same
      rows, in whatever order and batches; [kv_set_atomic], [kv_raw_vouched],
      [kv_pull_complete].
    - Building.  [acl_build_faithful], [acl_build_root], [acl_build_remove]: what the record
      builder makes is accepted and read back; [space_payload_valid],
      [space_v1_id_commits], [space_one_to_one_agree]: payloads of spaces.
    - Head sync.  [head_sync_tracks]: the diff follows the storage in every interleaving;
      [head_sync_finds]: a round finds the objects that differ.
    - Queues.  [limit_respected], [queue_serves_all].
    - Settings.  [settings_build_exact]: the incremental state is the fold of the changes
      of the tree that can be read, up to the first that cannot; [settings_delete_exact]: a deletion call deletes exactly what it may.
    - Publish/subscribe.  [trie_matches] and [pubsub_fanout]: the engine offers a
      message, once, to exactly the streams whose patterns match, whatever happens between
      looking them up and writing; [pubsub_relay_guarded],
      [pubsub_interest_bounded], [pubsub_revalidate]: what it checks before, how much it
      keeps, and that it forgets peers that lose access; [pubsub_sign_unambiguous],
      [pubsub_receive_authentic], [pubsub_dedup_refines]: what a subscriber is given was
      signed by its author for that topic, once.
    - Addresses.  [strkey_safe]: decoding inverts encoding and detects one wrong byte.

    Some theorems show where the code does not do what it means to:
    [acl_owner_can_be_lost], [acl_admin_demotes_admin], [acl_batch_invites_collide],
    [acl_readd_forgets_history], [acl_memory_root_unserved], [acl_batch_add_panics],
    [acl_batch_stale_invite], [space_v0_foreign_acl], [ldiff_misses_removed],
    [ldiff_hash_depends_on_history], [ldiff_bottom_range_misses],
    [ldiff_stale_range_hides_change], [tree_orphan_unvisited],
    [tree_common_snapshot_sibling], [tree_common_snapshot_hangs], [kv_diff_loses_row],
    [kv_watermark_forgotten], [kv_late_row_reapplied], [kv_negative_time_diverges],
    [kv_stranger_writes], [kv_iterate_skips_empty_key], [limit_steps_too_far],
    [queue_full_loses_request], [pool_dial_hangs], [pubsub_double_unsubscribe],
    [settings_nil_snapshot_panics], and [settings_build_exact] with the validator that takes
    what it cannot decode.  The hypotheses of the other theorems are what these leave
    to assume.

    ** Bounds and fuel

    Recursion that is not structural takes fuel, and the theorems show that it is
    enough.  The exchange of the diff gets 66 rounds: each round at least halves the
    ranges, which span at most 2^64 hashes.  Ranges are divided to a depth of at most
    [maxDepth] = 70 for the same reason.  [attach] gets one step per waiting change, and
    each attaches one; [topSort] and the markings one step per push ([edges]).  The
    walk over previous ids of the list loader takes the fuel from its caller, and
    [acl_load_scan_is_walk] says how much is enough.  Snapshot paths and the iterators
    that serve a peer take the length of the log; a call of the replaceable queue is at
    most nine steps; [FormatUint36] has 13 digits, which 64 bits do not exceed.

    ** What is not modelled

    The storages backed by the database are its interface and laws, not the calls to it.
    The networking, the pools of peers, the object cache and the application
    container are concurrent I/O and glue; node configuration and the clients of remote
    services call third-party code and other nodes.  Of the change tree,
    [RemoveInvalidChange], [LeaveOnlyBefore] and [reduceTree] are defined but the theorems
    cover [Add] and the iteration. *)

From stdpp Require Import base option list gmap sets strings.

(** * Go values *)

(** A Go byte slice or string: a sequence of 8-bit characters.  A slice whose
    nil-ness the code tests is an [option bytes], [None] being nil. *)
Abbreviation bytes := string.

(** A Go [error] value, named by its message; [GoPanic] is a run-time panic
    (nil dereference, failed type assertion, index out of range). *)
Inductive error : Type :=
| GoError (msg : string)
| GoPanic (msg : string).

#[global] Instance error_eq_dec : EqDecision error.
Proof. solve_decision. Defined.

(** ** Results: the pair [(value, error)] of a Go function *)

Inductive res (A : Type) : Type :=
| Ok (a : A)
| Err (e : error).
Arguments Ok {A} a.
Arguments Err {A} e.

#[global] Instance res_eq_dec `{EqDecision A} : EqDecision (res A).
Proof. solve_decision. Defined.

#[global] Instance res_ret : MRet res := fun A a => Ok a.
#[global] Instance res_bind : MBind res := fun A B f m =>
  match m with Ok a => f a | Err e => Err e end.

(** [if c { return err }] *)
Definition fail_if (c : bool) (e : error) : res unit :=
  if c then Err e else Ok tt.

(** [v, ok := m[k]; if !ok { return err }] *)
Definition opt_or {A} (o : option A) (e : error) : res A :=
  match o with Some a => Ok a | None => Err e end.

(** [for _, x := range l { if err := f(x); err != nil { return err } }] *)
Fixpoint res_each {A} (f : A -> res unit) (l : list A) : res unit :=
  match l with
  | [] => Ok tt
  | x :: l => f x ;; res_each f l
  end.

(** [for _, x := range l { y, err := f(x); ...; out = append(out, y) }] *)
Fixpoint res_map {A B} (f : A -> res B) (l : list A) : res (list B) :=
  match l with
  | [] => Ok []
  | x :: l => y ← f x; ys ← res_map f l; Ok (y :: ys)
  end.

(** ** Methods that mutate their receiver

    A method reads and writes its receiver [S] and returns a value or an error;
    the writes made before an error stay. *)
Definition ST (S A : Type) : Type := S -> S * res A.

#[global] Instance st_ret {S} : MRet (ST S) := fun A a s => (s, Ok a).
#[global] Instance st_bind {S} : MBind (ST S) := fun A B f m s =>
  match m s with
  | (s', Ok a) => f a s'
  | (s', Err e) => (s', Err e)
  end.

(** Evaluate a read-only expression of the receiver. *)
Definition reads {S A} (f : S -> A) : ST S A := fun s => (s, Ok (f s)).

(** Call a read-only method that may fail. *)
Definition calls {S A} (f : S -> res A) : ST S A := fun s => (s, f s).

(** Assign to the receiver's fields. *)
Definition assigns {S} (f : S -> S) : ST S unit := fun s => (f s, Ok tt).

(** A computation that does not touch the receiver. *)
Definition lifts {S A} (r : res A) : ST S A := fun s => (s, r).

(** [for _, x := range l { if err := f(x); err != nil { return err } }] *)
Fixpoint st_each {S A} (f : A -> ST S unit) (l : list A) : ST S unit :=
  match l with
  | [] => mret tt
  | x :: l => f x ;; st_each f l
  end.

(** Run a method on a value the caller owns: the value after it, or the error. *)
Definition runs {S A} (m : ST S A) (s : S) : res S :=
  match m s with (s', Ok _) => Ok s' | (_, Err e) => Err e end.

(** ** Iteration over a Go map

    [for k, v := range m] visits the entries of [m] in an unspecified order.
    The order is a parameter of the model: theorems hold for every one. *)
Class MapRange := {
  map_range : forall {K} `{Countable K} {V}, gmap K V -> list (K * V);
  map_range_perm : forall {K} `{Countable K} {V} (m : gmap K V),
    map_range m ≡ₚ map_to_list m;
}.

(** The order of stdpp's canonical enumeration, for evaluation. *)
#[export] Instance map_range_canonical : MapRange | 100.
Proof.
  refine {| map_range := fun K _ _ V m => map_to_list m |}. reflexivity.
Defined.

(** * Lemmas on results and stateful methods *)

Lemma res_bind_Ok {A B} (m : res A) (f : A -> res B) b :
  m ≫= f = Ok b <-> exists a, m = Ok a /\ f a = Ok b.
Proof. unfold mbind, res_bind. destruct m; naive_solver. Qed.

Section res_lemmas.
Context {A B : Type}.

Lemma fail_if_Ok c e u : fail_if c e = Ok u <-> c = false.
Proof. destruct c, u; naive_solver. Qed.

Lemma opt_or_Ok (o : option A) e a : opt_or o e = Ok a <-> o = Some a.
Proof. destruct o; naive_solver. Qed.

Lemma res_each_Ok (f : A -> res unit) l u :
  res_each f l = Ok u <-> Forall (fun x => f x = Ok tt) l.
Proof.
  destruct u. induction l as [|x l IH]; simpl.
  - split; [constructor|done].
  - rewrite res_bind_Ok, Forall_cons. split.
    + intros ([] & ? & ?). naive_solver.
    + intros []. exists tt. naive_solver.
Qed.

Lemma res_map_Ok (f : A -> res B) l ys :
  res_map f l = Ok ys <-> Forall2 (fun x y => f x = Ok y) l ys.
Proof.
  revert ys. induction l as [|x l IH]; intros ys; simpl.
  - split; [intros [= <-]; constructor | by inversion 1].
  - rewrite res_bind_Ok. split.
    + intros (y & Hy & H). apply res_bind_Ok in H as (ys' & Hys & [= <-]).
      constructor; [done|]. by apply IH.
    + inversion 1 as [|? y ? ys' Hy Hys]; subst. exists y. split; [done|].
      apply res_bind_Ok. exists ys'. split; [by apply IH|done].
Qed.

Lemma res_map_rel (P : A -> B -> Prop) (f : A -> res B) l ys :
  res_map f l = Ok ys -> (forall x y, x ∈ l -> f x = Ok y -> P x y) -> Forall2 P l ys.
Proof.
  intros Hys%res_map_Ok HP. induction Hys as [|x y l ys Hxy _ IH]; constructor.
  - apply HP; [by left|done].
  - apply IH. intros x' y' Hx'. apply HP. by right.
Qed.

Lemma res_map_total (f : A -> res B) l :
  (forall x, x ∈ l -> exists y, f x = Ok y) -> exists ys, res_map f l = Ok ys.
Proof.
  induction l as [|x l IH]; intros Hf; [by exists []|]. destruct (Hf x) as [y Hy]; [by left|].
  destruct IH as [ys Hys]; [intros z Hz; apply Hf; by right|].
  exists (y :: ys). simpl. by rewrite Hy, Hys.
Qed.
End res_lemmas.

Lemma st_bind_Ok {S A B} (m : ST S A) (f : A -> ST S B) s s' b :
  (m ≫= f) s = (s', Ok b) <->
  exists s1 a, m s = (s1, Ok a) /\ f a s1 = (s', Ok b).
Proof.
  unfold mbind, st_bind. destruct (m s) as [s1 [a|e]]; naive_solver.
Qed.

(** A run ends at the first error. *)
Lemma st_bind_cases {S A B} (m : ST S A) (f : A -> ST S B) s s' r :
  (m ≫= f) s = (s', r) ->
  (exists e, m s = (s', Err e) /\ r = Err e) \/ (exists s1 a, m s = (s1, Ok a) /\ f a s1 = (s', r)).
Proof.
  unfold mbind, st_bind. destruct (m s) as [s1 [a|e]]; [|intros [= <- <-]]; eauto.
Qed.

(** A first step that succeeds. *)
Lemma st_bind_run {S A B} (f : A -> ST S B) (g : ST S A) s s' a :
  g s = (s', Ok a) -> (g ≫= f) s = f a s'.
Proof. unfold mbind, st_bind. by intros ->. Qed.

Lemma lifts_bind {S A B} (a : A) (f : A -> ST S B) s : (lifts (Ok a) ≫= f) s = f a s.
Proof. done. Qed.

Lemma runs_Ok {S A} (m : ST S A) s s' : runs m s = Ok s' <-> exists a, m s = (s', Ok a).
Proof. unfold runs. destruct (m s) as [s1 [a|e]]; naive_solver. Qed.

Lemma st_each_app {S A} (f : A -> ST S unit) l1 l2 s :
  st_each f (l1 ++ l2) s = (st_each f l1 ;; st_each f l2) s.
Proof.
  revert s. induction l1 as [|x l1 IH]; intros s; simpl; [done|].
  unfold mbind, st_bind in *. destruct (f x s) as [s' [[]|e]]; [apply IH|done].
Qed.

(** Replace the parts of a successful run. *)
Lemma st_bind_mono {S A B} (m m' : ST S A) (f f' : A -> ST S B) s0 s1 b :
  (forall s a, m s0 = (s, Ok a) -> m' s0 = (s, Ok a)) ->
  (forall s a, m s0 = (s, Ok a) -> f a s = (s1, Ok b) -> f' a s = (s1, Ok b)) ->
  (m ≫= f) s0 = (s1, Ok b) -> (m' ≫= f') s0 = (s1, Ok b).
Proof. intros Hm Hf (s & a & H1 & H2)%st_bind_Ok. apply st_bind_Ok. exists s, a. auto. Qed.

(** A loop over rewritten elements, under an invariant of the state. *)
Lemma st_each_mono {S A B} (P : S -> Prop) (f : A -> ST S unit) (f' : B -> ST S unit) g l s s' :
  (forall x s s', P s -> f x s = (s', Ok tt) -> f' (g x) s = (s', Ok tt) /\ P s') ->
  P s -> st_each f l s = (s', Ok tt) -> st_each f' (g <$> l) s = (s', Ok tt).
Proof.
  intros Hf. revert s. induction l as [|x l IH]; intros s HP; simpl; [done|].
  intros (s1 & [] & H1 & H2)%st_bind_Ok. destruct (Hf _ _ _ HP H1) as [H1' HP'].
  apply st_bind_Ok. exists s1, tt. auto.
Qed.

Section st_lemmas.
Context {S A : Type}.

Lemma reads_Ok (f : S -> A) s s' a :
  reads f s = (s', Ok a) <-> s' = s /\ a = f s.
Proof. unfold reads. split; [by intros [= <- <-] | by intros [-> ->]]. Qed.

Lemma calls_Ok (f : S -> res A) s s' a :
  calls f s = (s', Ok a) <-> s' = s /\ f s = Ok a.
Proof. unfold calls. split; [by intros [= <- ->] | by intros [-> ->]]. Qed.

Lemma lifts_Ok (r : res A) (s s' : S) a :
  lifts r s = (s', Ok a) <-> s' = s /\ r = Ok a.
Proof. unfold lifts. split; [by intros [= <- ->] | by intros [-> ->]]. Qed.

Lemma assigns_Ok (f : S -> S) s s' u :
  assigns f s = (s', Ok u) <-> s' = f s.
Proof. unfold assigns. destruct u. split; [by intros [= <-] | by intros ->]. Qed.

Lemma ret_Ok (a a' : A) (s s' : S) :
  mret (M:=ST S) a s = (s', Ok a') <-> s' = s /\ a' = a.
Proof. split; [by intros [= <- <-] | by intros [-> ->]]. Qed.

(** Loop rule: an invariant of one iteration holds of the whole loop. *)
Lemma st_each_ind (P : S -> Prop) (f : A -> ST S unit) l s s' u :
  (forall x s s', x ∈ l -> f x s = (s', Ok tt) -> P s -> P s') ->
  st_each f l s = (s', Ok u) -> P s -> P s'.
Proof.
  revert s. induction l as [|x l IH]; intros s Hf; simpl.
  - by intros [= <-].
  - rewrite st_bind_Ok. intros (s1 & [] & H1 & H2) HP.
    eapply IH; [|done|].
    + intros y t t' Hy. apply Hf. by right.
    + eapply Hf; [by left|done..].
Qed.
End st_lemmas.

(** ** Frames: what a run may change, whether it fails or not *)

Definition frames {S A} (R : S -> S -> Prop) (m : ST S A) : Prop := forall s, R s (m s).1.

Section frames.
Context {S : Type} (R : S -> S -> Prop) `{!PreOrder R}.

Lemma frames_ret {A} (a : A) : frames R (mret (M:=ST S) a).
Proof. by intros s. Qed.
Lemma frames_reads {A} (f : S -> A) : frames R (reads f).
Proof. by intros s. Qed.
Lemma frames_calls {A} (f : S -> res A) : frames R (calls f).
Proof. by intros s. Qed.
Lemma frames_lifts {A} (r : res A) : frames R (lifts r).
Proof. by intros s. Qed.
Lemma frames_assigns (f : S -> S) : (forall s, R s (f s)) -> frames R (assigns f).
Proof. by intros Hf s. Qed.
Lemma frames_bind {A B} (m : ST S A) (f : A -> ST S B) :
  frames R m -> (forall a, frames R (f a)) -> frames R (m ≫= f).
Proof.
  intros Hm Hf s. unfold mbind, st_bind. specialize (Hm s). destruct (m s) as [s' [a|e]]; [|done].
  simpl in Hm. etrans; [exact Hm|apply Hf].
Qed.
Lemma frames_each {A} (f : A -> ST S unit) l : (forall x, x ∈ l -> frames R (f x)) -> frames R (st_each f l).
Proof.
  induction l as [|x l IH]; intros Hf; [apply frames_ret|]. simpl. apply frames_bind; [apply Hf; by left|].
  intros _. apply IH. intros y Hy. apply Hf. by right.
Qed.
Lemma frames_run {A} (m : ST S A) s s' r : frames R m -> m s = (s', r) -> R s s'.
Proof. intros Hm Hr. specialize (Hm s). by rewrite Hr in Hm. Qed.
End frames.

(** [frame] walks through a method. *)
Ltac frame :=
  repeat match goal with
  | |- forall _, _ => intro
  | |- frames _ (_ ≫= _) => apply frames_bind
  | |- frames _ (mret _) => apply frames_ret
  | |- frames _ (reads _) => apply frames_reads
  | |- frames _ (calls _) => apply frames_calls
  | |- frames _ (lifts _) => apply frames_lifts
  | |- frames _ (assigns _) => apply frames_assigns
  | |- frames _ (st_each _ _) => apply frames_each
  | |- frames _ (match _ with _ => _ end) => case_match
  | |- PreOrder _ => exact _
  | |- frames _ (let _ := _ in _) => cbv zeta
  end.

(** ** Methods that return no error: they can only panic *)

Definition res_panics {A} (r : res A) : Prop := forall s, r <> Err (GoError s).
Definition panics {S A} (m : ST S A) : Prop := forall s, res_panics (m s).2.

Section panics.
Context {S : Type}.

Lemma res_panics_Ok {A} (a : A) : res_panics (Ok a).
Proof. by intros s. Qed.
Lemma res_panics_Err {A} p : res_panics (A:=A) (Err (GoPanic p)).
Proof. by intros s. Qed.
Lemma res_panics_opt {A} (o : option A) p : res_panics (opt_or o (GoPanic p)).
Proof. by destruct o. Qed.
Lemma res_panics_bind {A B} (m : res A) (f : A -> res B) :
  res_panics m -> (forall a, res_panics (f a)) -> res_panics (m ≫= f).
Proof. intros Hm Hf. destruct m as [a|[s|s]]; [apply Hf|by destruct (Hm s)|by intros s']. Qed.
Lemma res_panics_map {A B} (f : A -> res B) l : (forall a, res_panics (f a)) -> res_panics (res_map f l).
Proof.
  intros Hf. induction l as [|x l IH]; [by intros s|]. simpl. apply res_panics_bind; [done|]. intros b.
  apply res_panics_bind; [done|]. by intros bs s.
Qed.
Lemma panics_ret {A} (a : A) : panics (mret (M:=ST S) a).
Proof. by intros s s'. Qed.
Lemma panics_reads {A} (f : S -> A) : panics (reads f).
Proof. by intros s s'. Qed.
Lemma panics_calls {A} (f : S -> res A) : (forall s, res_panics (f s)) -> panics (calls f).
Proof. intros Hf s. apply Hf. Qed.
Lemma panics_lifts {A} (r : res A) : res_panics r -> panics (S:=S) (lifts r).
Proof. by intros Hr s. Qed.
Lemma panics_assigns (f : S -> S) : panics (assigns f).
Proof. by intros s s'. Qed.
Lemma panics_bind {A B} (m : ST S A) (f : A -> ST S B) : panics m -> (forall a, panics (f a)) -> panics (m ≫= f).
Proof.
  intros Hm Hf s. unfold mbind, st_bind. specialize (Hm s). destruct (m s) as [s' [a|e]]; [apply Hf|].
  intros s1 [= ->]. by destruct (Hm s1).
Qed.
Lemma panics_each {A} (f : A -> ST S unit) l : (forall x, panics (f x)) -> panics (st_each f l).
Proof. intros Hf. induction l as [|x l IH]; [apply panics_ret|]. simpl. apply panics_bind; auto. Qed.
End panics.

(** [panicky] walks through a method. *)
Ltac panicky :=
  repeat match goal with
  | |- forall _, _ => intro
  | |- panics (_ ≫= _) => apply panics_bind
  | |- panics (mret _) => apply panics_ret
  | |- panics (reads _) => apply panics_reads
  | |- panics (calls _) => apply panics_calls
  | |- panics (lifts _) => apply panics_lifts
  | |- panics (assigns _) => apply panics_assigns
  | |- panics (st_each _ _) => apply panics_each
  | |- panics (match _ with _ => _ end) => case_match
  | |- panics (let _ := _ in _) => cbv zeta
  | |- res_panics (Ok _) => apply res_panics_Ok
  | |- res_panics (Err (GoPanic _)) => apply res_panics_Err
  | |- res_panics (opt_or _ (GoPanic _)) => apply res_panics_opt
  | |- res_panics (_ ≫= _) => apply res_panics_bind
  | |- res_panics (res_map _ _) => apply res_panics_map
  | |- res_panics (match _ with _ => _ end) => case_match
  end.

(** * Automation *)

Create HintDb go_db discriminated.
#[export] Hint Rewrite @res_bind_Ok @fail_if_Ok @opt_or_Ok @st_bind_Ok @reads_Ok
  @calls_Ok @lifts_Ok @assigns_Ok @ret_Ok : go_db.

(** [go_step H] decomposes one step of a successful run [H]. *)
Ltac go_step H :=
  first
    [ apply st_bind_Ok in H;
      let s := fresh "s" in let a := fresh "a" in
      let H1 := fresh H in
      destruct H as (s & a & H1 & H)
    | apply res_bind_Ok in H;
      let a := fresh "a" in let H1 := fresh H in
      destruct H as (a & H1 & H)
    | apply fail_if_Ok in H
    | apply opt_or_Ok in H
    | apply reads_Ok in H; destruct H as [-> ->]
    | apply calls_Ok in H; destruct H as [-> H]
    | apply lifts_Ok in H; destruct H as [-> H]
    | apply assigns_Ok in H; subst
    | apply ret_Ok in H; destruct H as [-> ->] ].

(** [go_inv] decomposes every successful run in the context down to its tests. *)
Ltac go_inv :=
  repeat match goal with
  | H : (let _ := _ in _) = Ok _ |- _ => cbv zeta in H
  | H : (_ ≫= _) _ = (_, Ok _) |- _ => go_step H
  | H : _ ≫= _ = Ok _ |- _ => go_step H
  | H : fail_if _ _ = Ok _ |- _ => go_step H
  | H : opt_or _ _ = Ok _ |- _ => go_step H
  | H : reads _ _ = (_, Ok _) |- _ => go_step H
  | H : calls _ _ = (_, Ok _) |- _ => go_step H
  | H : lifts _ _ = (_, Ok _) |- _ => go_step H
  | H : assigns _ _ = (_, Ok _) |- _ => go_step H
  | H : mret _ _ = (_, Ok _) |- _ => go_step H
  | H : Ok _ = Ok _ |- _ => injection H as H; try subst
  | H : Err _ = Ok _ |- _ => discriminate H
  | H : (_, _) = (_, Ok _) |- _ => injection H as ??; try subst
  | H : (_, Err _) = (_, Ok _) |- _ => discriminate H
  | u : unit |- _ => destruct u
  end.

(** * Lists *)

(** [slices.Contains] *)
Definition slices_Contains `{EqDecision A} (l : list A) (x : A) : bool :=
  bool_decide (x ∈ l).

Lemma filter_none {A} (P : A -> Prop) `{forall x, Decision (P x)} (l : list A) :
  Forall (fun x => ~ P x) l -> filter P l = [].
Proof. induction 1 as [|x l Hx _ IH]; [done|]. by rewrite filter_cons_False. Qed.

Lemma filter_all {A} (P : A -> Prop) `{forall x, Decision (P x)} (l : list A) :
  Forall P l -> filter P l = l.
Proof. induction 1 as [|x l Hx _ IH]; [done|]. by rewrite filter_cons_True, IH. Qed.

Lemma filter_ext_in {A} (P Q : A -> Prop) `{forall x, Decision (P x)} `{forall x, Decision (Q x)}
    (l : list A) :
  (forall x, x ∈ l -> P x <-> Q x) -> filter P l = filter Q l.
Proof.
  induction l as [|x l IH]; intros Hl; [done|]. rewrite !filter_cons, IH by set_solver.
  specialize (Hl x ltac:(set_solver)). repeat case_decide; naive_solver.
Qed.

(** * Strings *)

Lemma substring_prefix (a b : string) : String.substring 0 (String.length a) (a +:+ b) = a.
Proof. induction a as [|x a IH]; simpl; [by destruct b|]. by rewrite IH. Qed.

Lemma substring_all (b : string) : String.substring 0 (String.length b) b = b.
Proof. induction b as [|x b IH]; simpl; [done|]. by rewrite IH. Qed.

Lemma substring_suffix (a b : string) : String.substring (String.length a) (String.length b) (a +:+ b) = b.
Proof. induction a as [|x a IH]; simpl; [apply substring_all|]. done. Qed.

Lemma length_append (a b : string) : String.length (a +:+ b) = String.length a + String.length b.
Proof. induction a as [|x a IH]; simpl; [done|]. by rewrite IH. Qed.

(** Two strings cut at the same place. *)
Lemma append_inj_length (a b a' b' : string) :
  String.length a = String.length a' -> a +:+ b = a' +:+ b' -> a = a' /\ b = b'.
Proof.
  revert a'. induction a as [|x a IH]; intros [|x' a'] Hl; try done.
  intros [= -> Heq]. destruct (IH a' ltac:(by injection Hl) Heq) as [-> ->]. done.
Qed.

Lemma append_assoc (a b c : string) : (a +:+ b) +:+ c = a +:+ (b +:+ c).
Proof. induction a as [|x a IH]; [done|]. exact (f_equal (String x) IH). Qed.

Lemma string_cut (s : string) n : n <= String.length s -> exists a b, s = a +:+ b /\ String.length a = n.
Proof.
  revert n. induction s as [|x s IH]; intros [|n] Hn; simpl in Hn.
  - by exists "", "".
  - lia.
  - by exists "", (String x s).
  - destruct (IH n) as (a & b & -> & <-); [lia|]. by exists (String x a), b.
Qed.
