(* ===== verification/Crypto.v ===== *)
(** Keys (src/util/crypto): the Ed25519 and AES key wrappers, their protobuf
    envelopes and the public-key cache the ACL uses.  The primitives themselves
    (curve arithmetic, GCM, the generated protobuf codec, key derivation) are
    third-party or generated code: parameters of the class [CryptoPrims]. *)

From Stdlib Require Import String.
From stdpp Require Import base option list gmap strings.
From S2P Require Import Prelude.

(** ** Primitives *)

Class CryptoPrims := {
  (** cryptoproto.Key: [UnmarshalVT] / [MarshalVT] of the pair (Type, Data). *)
  Key_UnmarshalVT : bytes -> res (Z * bytes);
  Key_MarshalVT : Z -> bytes -> bytes;
  (** filippo.io/edwards25519 [Point.SetBytes] *)
  Point_SetBytes : bytes -> res unit;
  (** crypto/ed25519 [Verify(publicKey, message, sig)] *)
  ed25519_Verify : bytes -> bytes -> bytes -> bool;
  (** anonymous box over the curve25519 form of an ed25519 private key *)
  x25519_Decrypt : bytes -> bytes -> res bytes;
  (** AES-256-GCM [Open(nonce, ciphertext)] under a 32-byte key *)
  gcm_Open : bytes -> bytes -> bytes -> res bytes;
  (** slip21 derivation of a symmetric key from a seed and a path *)
  slip21_Derive : bytes -> string -> res bytes;
}.

(** cryptoproto.KeyType *)
Definition KeyType_Ed25519Public : Z := 0.
Definition KeyType_Ed25519Private : Z := 1.
Definition KeyType_AES : Z := 2.

Definition ErrIncorrectKeyType := GoError "incorrect key type".

Record PubKey := mkPubKey { pubKey : bytes }.
Record PrivKey := mkPrivKey { privKey : bytes }.
Record SymKey := mkSymKey { symRaw : bytes }.

#[global] Instance PubKey_eq_dec : EqDecision PubKey.
Proof. solve_decision. Defined.
#[global] Instance PrivKey_eq_dec : EqDecision PrivKey.
Proof. solve_decision. Defined.
#[global] Instance SymKey_eq_dec : EqDecision SymKey.
Proof. solve_decision. Defined.

Section keys.
Context `{CryptoPrims}.

(** ** Ed25519 public keys *)

Definition PubKey_Storage (k : PubKey) : bytes := pubKey k.
Definition PubKey_Raw (k : PubKey) : res bytes := Ok (pubKey k).
Definition PubKey_Equals (k o : PubKey) : bool := bool_decide (pubKey k = pubKey o).
Definition PubKey_Verify (k : PubKey) (data sig : bytes) : res bool :=
  Ok (ed25519_Verify (pubKey k) data sig).
Definition PubKey_Marshall (k : PubKey) : res bytes :=
  Ok (Key_MarshalVT KeyType_Ed25519Public (pubKey k)).

Definition UnmarshalEd25519PublicKey (data : bytes) : res PubKey :=
  fail_if (bool_decide (String.length data <> 32))
    (GoError "expect ed25519 public key data size to be 32") ;;
  Point_SetBytes data ;;
  Ok (mkPubKey data).

Definition UnmarshalEd25519PublicKeyProto (b : bytes) : res PubKey :=
  '(ty, data) ← Key_UnmarshalVT b;
  fail_if (bool_decide (ty <> KeyType_Ed25519Public)) ErrIncorrectKeyType ;;
  UnmarshalEd25519PublicKey data.

(** ** Ed25519 private keys *)

(** [privKey[PrivateKeySize-PublicKeySize:]] with sizes 64 and 32 *)
Definition pubKeyBytes (k : PrivKey) : bytes := String.substring 32 32 (privKey k).
Definition GetPublic (k : PrivKey) : PubKey := mkPubKey (pubKeyBytes k).
Definition PrivKey_Raw (k : PrivKey) : res bytes := Ok (privKey k).
Definition PrivKey_Decrypt (k : PrivKey) (msg : bytes) : res bytes :=
  x25519_Decrypt (privKey k) msg.

Definition UnmarshalEd25519PrivateKey (data : bytes) : res PrivKey :=
  if decide (String.length data = 96) then
    let redundantPk := String.substring 64 32 data in
    let pk := String.substring 32 32 data in
    fail_if (bool_decide (pk <> redundantPk))
      (GoError "expected redundant ed25519 public key to be redundant") ;;
    Ok (mkPrivKey (String.substring 0 64 data))
  else if decide (String.length data = 64) then Ok (mkPrivKey data)
  else Err (GoError "expected ed25519 data size to be 64 or 96").

Definition UnmarshalEd25519PrivateKeyProto (b : bytes) : res PrivKey :=
  '(ty, data) ← Key_UnmarshalVT b;
  fail_if (bool_decide (ty <> KeyType_Ed25519Private)) ErrIncorrectKeyType ;;
  UnmarshalEd25519PrivateKey data.

(** ** AES keys *)

Definition KeyBytes : nat := 32.
Definition NonceBytes : nat := 12.

Definition UnmarshallAESKey (k : bytes) : res SymKey :=
  fail_if (bool_decide (String.length k <> KeyBytes)) (GoError "invalid key") ;;
  Ok (mkSymKey k).

Definition UnmarshallAESKeyProto (b : bytes) : res SymKey :=
  '(ty, data) ← Key_UnmarshalVT b;
  fail_if (bool_decide (ty <> KeyType_AES)) ErrIncorrectKeyType ;;
  UnmarshallAESKey data.

Definition SymKey_Decrypt (k : SymKey) (ciphertext : bytes) : res bytes :=
  fail_if (bool_decide (String.length ciphertext < NonceBytes))
    (GoError "ciphertext too short") ;;
  let nonce := String.substring 0 NonceBytes ciphertext in
  gcm_Open (String.substring 0 KeyBytes (symRaw k)) nonce
    (String.substring NonceBytes (String.length ciphertext - NonceBytes) ciphertext).

Definition SymKey_Marshall (k : SymKey) : res bytes :=
  Ok (Key_MarshalVT KeyType_AES (symRaw k)).

Definition DeriveSymmetricKey (seed : bytes) (path : string) : res SymKey :=
  raw ← slip21_Derive seed path;
  UnmarshallAESKey raw.

(** ** The key cache (keystorage.go) *)

Record keyStorage := mkKeyStorage { ks_keys : list (bytes * PubKey) }.
Definition NewKeyStorage : keyStorage := mkKeyStorage [].

(** The first entry whose encoding equals the argument. *)
Fixpoint ks_find (keys : list (bytes * PubKey)) (protoBytes : bytes) : option PubKey :=
  match keys with
  | [] => None
  | (pb, key) :: keys =>
      if decide (protoBytes = pb) then Some key else ks_find keys protoBytes
  end.

Definition PubKeyFromProto (protoBytes : bytes) : ST keyStorage PubKey :=
  cached ← reads (fun k => ks_find (ks_keys k) protoBytes);
  match cached with
  | Some key => mret key
  | None =>
      key ← lifts (UnmarshalEd25519PublicKeyProto protoBytes);
      assigns (fun k => mkKeyStorage (ks_keys k ++ [(protoBytes, key)])) ;;
      mret key
  end.

(** Every cached key is the decoding of its encoding. *)
Definition ks_ok (k : keyStorage) : Prop :=
  forall pb key, ks_find (ks_keys k) pb = Some key ->
    UnmarshalEd25519PublicKeyProto pb = Ok key.

Lemma ks_find_app keys keys' pb :
  ks_find (keys ++ keys') pb =
  match ks_find keys pb with Some k => Some k | None => ks_find keys' pb end.
Proof. induction keys as [|[] keys IH]; simpl; [done|]. by case_decide. Qed.

Lemma NewKeyStorage_ok : ks_ok NewKeyStorage.
Proof. intros pb key. done. Qed.

(** The cache is transparent: whatever it holds, looking a key up gives
    exactly what decoding gives (the same key or the same error), and leaves
    a cache of which that is still true. *)
Lemma PubKeyFromProto_refines k pb :
  ks_ok k ->
  exists k', PubKeyFromProto pb k = (k', UnmarshalEd25519PublicKeyProto pb) /\ ks_ok k'.
Proof.
  intros Hok. unfold PubKeyFromProto, mbind, st_bind, reads, lifts, assigns, mret, st_ret.
  destruct (ks_find (ks_keys k) pb) as [key|] eqn:Hf.
  - exists k. by rewrite (Hok _ _ Hf).
  - destruct (UnmarshalEd25519PublicKeyProto pb) as [key|e] eqn:Hd; [|by exists k].
    eexists. split; [done|]. intros pb' key'. simpl. rewrite ks_find_app.
    destruct (ks_find (ks_keys k) pb') eqn:Hf'; [naive_solver|].
    simpl. case_decide; naive_solver.
Qed.

Lemma UnmarshalEd25519PublicKey_length data k :
  UnmarshalEd25519PublicKey data = Ok k -> String.length (pubKey k) = 32.
Proof.
  unfold UnmarshalEd25519PublicKey. intros. go_inv.
  by apply bool_decide_eq_false, dec_stable in H1.
Qed.
End keys.

(** [mapKeyFromPubKey] of aclstate.go: the account maps are keyed by it. *)
Definition mapKeyFromPubKey (k : PubKey) : string := PubKey_Storage k.

Lemma mapKeyFromPubKey_inj k1 k2 : mapKeyFromPubKey k1 = mapKeyFromPubKey k2 -> k1 = k2.
Proof. destruct k1, k2. unfold mapKeyFromPubKey. simpl. by intros ->. Qed.

Lemma PubKey_Equals_true k1 k2 : PubKey_Equals k1 k2 = true <-> k1 = k2.
Proof.
  unfold PubKey_Equals. rewrite bool_decide_eq_true. destruct k1, k2; simpl. naive_solver.
Qed.

Lemma PubKey_Equals_false k1 k2 : PubKey_Equals k1 k2 = false <-> k1 <> k2.
Proof. rewrite <- (PubKey_Equals_true k1 k2). by destruct (PubKey_Equals k1 k2). Qed.
