(* ===== verification/AclModels.v ===== *)
(** ACL data (src/commonspace/object/acl/list/models.go, the structs at the top of
    aclstate.go, and the protobuf messages of aclrecordproto): permissions,
    account and request states, records and their content. *)

From Stdlib Require Import ZArith Lia.
From stdpp Require Import base option list gmap strings.
From S2P Require Import Prelude Crypto.

Open Scope Z_scope.

(** ** Permissions

    A proto3 enum is open: any int32 may arrive, so a permission is an integer. *)
Definition AclPermissions : Type := Z.

Definition AclPermissionsNone : AclPermissions := 0.
Definition AclPermissionsOwner : AclPermissions := 1.
Definition AclPermissionsAdmin : AclPermissions := 2.
Definition AclPermissionsWriter : AclPermissions := 3.
Definition AclPermissionsReader : AclPermissions := 4.
Definition AclPermissionsGuest : AclPermissions := 5.

Definition NoPermissions (p : AclPermissions) : bool := p =? AclPermissionsNone.
Definition IsOwner (p : AclPermissions) : bool := p =? AclPermissionsOwner.
Definition IsGuest (p : AclPermissions) : bool := p =? AclPermissionsGuest.
Definition IsAdmin (p : AclPermissions) : bool := p =? AclPermissionsAdmin.

Definition CanWrite (p : AclPermissions) : bool :=
  (p =? AclPermissionsAdmin) || (p =? AclPermissionsWriter) || (p =? AclPermissionsOwner).

Definition CanManageAccounts (p : AclPermissions) : bool :=
  (p =? AclPermissionsAdmin) || (p =? AclPermissionsOwner).

Definition CanRequestRemove (p : AclPermissions) : bool := negb (p =? AclPermissionsGuest).

Definition IsLessOrEqual (p q : AclPermissions) : bool :=
  if p =? AclPermissionsNone then true
  else if p =? AclPermissionsReader then negb (q =? AclPermissionsNone)
  else if p =? AclPermissionsWriter then (q =? AclPermissionsWriter) || (q =? AclPermissionsAdmin)
  else if p =? AclPermissionsAdmin then p =? q
  else false.

(** ** Statuses and request types *)

Inductive AclStatus :=
| StatusNone | StatusJoining | StatusActive | StatusRemoved
| StatusDeclined | StatusRemoving | StatusCanceled.

Inductive RequestType := RequestTypeRemove | RequestTypeJoin.

#[global] Instance AclStatus_eq_dec : EqDecision AclStatus.
Proof. solve_decision. Defined.
#[global] Instance RequestType_eq_dec : EqDecision RequestType.
Proof. solve_decision. Defined.

(** AclInviteType, an open enum too *)
Definition AclInviteType_RequestToJoin : Z := 0.
Definition AclInviteType_AnyoneCanJoin : Z := 1.

Definition MaxMetadataLen : nat := 1024.

(** ** State entries *)

Record PermissionChange := mkPermissionChange {
  pc_RecordId : string;
  pc_Permission : AclPermissions;
}.

(** The space options message has one field; [None] is a nil pointer. *)
Definition AclSpaceOptions : Type := bool.

Record OptionChange := mkOptionChange {
  oc_RecordId : string;
  oc_Options : option AclSpaceOptions;
}.

(** [as_PubKey] is [None] for the zero struct a missing map entry yields. *)
Record AccountState := mkAccountState {
  as_PubKey : option PubKey;
  as_Permissions : AclPermissions;
  as_Status : AclStatus;
  as_RequestMetadata : bytes;
  as_KeyRecordId : string;
  as_PermissionChanges : list PermissionChange;
}.

Definition zeroAccountState : AccountState :=
  mkAccountState None AclPermissionsNone StatusNone "" "" [].

Record RequestRecord := mkRequestRecord {
  rr_RequestIdentity : PubKey;
  rr_RequestMetadata : bytes;
  rr_KeyRecordId : string;
  rr_RecordId : string;
  rr_Type : RequestType;
}.

Record AclKeys := mkAclKeys {
  ReadKey : option SymKey;
  MetadataPrivKey : option PrivKey;
  MetadataPubKey : option PubKey;
  encryptedPreviousReadKey : option bytes;
  encryptedMetadataKey : bytes;
}.

Definition zeroAclKeys : AclKeys := mkAclKeys None None None None "".

Record Invite := mkInvite {
  inv_Key : PubKey;
  inv_Type : Z;
  inv_Permissions : AclPermissions;
  inv_Id : string;
  inv_encryptedReadKey : bytes;
}.

(** A possibly nil slice, read as bytes. *)
Definition slice (o : option bytes) : bytes := default "" o.

(** ** Content messages (aclrecordproto) *)

Record AclEncryptedReadKey := mkAclEncryptedReadKey {
  erk_Identity : bytes;
  erk_EncryptedReadKey : bytes;
}.

Record AclReadKeyChange := mkAclReadKeyChange {
  rkc_AccountKeys : list AclEncryptedReadKey;
  rkc_MetadataPubKey : bytes;
  rkc_EncryptedMetadataPrivKey : option bytes;
  rkc_EncryptedOldReadKey : option bytes;
  rkc_InviteKeys : list AclEncryptedReadKey;
}.

Record AclAccountInvite := mkAclAccountInvite {
  ai_InviteKey : bytes;
  ai_InviteType : Z;
  ai_Permissions : AclPermissions;
  ai_EncryptedReadKey : option bytes;
}.

Record AclAccountInviteChange := mkAclAccountInviteChange {
  aic_InviteRecordId : string;
  aic_Permissions : AclPermissions;
}.

Record AclOwnershipChange := mkAclOwnershipChange {
  owc_NewOwnerIdentity : bytes;
  owc_OldOwnerPermissions : AclPermissions;
}.

Record AclAccountRequestJoin := mkAclAccountRequestJoin {
  arj_InviteIdentity : bytes;
  arj_InviteRecordId : string;
  arj_InviteIdentitySignature : bytes;
  arj_Metadata : bytes;
}.

Record AclAccountInviteJoin := mkAclAccountInviteJoin {
  aij_Identity : bytes;
  aij_InviteRecordId : string;
  aij_InviteIdentitySignature : bytes;
  aij_Metadata : bytes;
  aij_EncryptedReadKey : option bytes;
  aij_Permissions : AclPermissions;
}.

Record AclAccountRequestAccept := mkAclAccountRequestAccept {
  ara_Identity : bytes;
  ara_RequestRecordId : string;
  ara_EncryptedReadKey : bytes;
  ara_Permissions : AclPermissions;
}.

Record AclAccountPermissionChange := mkAclAccountPermissionChange {
  apc_Identity : bytes;
  apc_Permissions : AclPermissions;
}.

Record AclAccountAdd := mkAclAccountAdd {
  aa_Identity : bytes;
  aa_Permissions : AclPermissions;
  aa_Metadata : bytes;
  aa_EncryptedReadKey : bytes;
}.

Record AclAccountRemove := mkAclAccountRemove {
  arm_Identities : list bytes;
  arm_ReadKeyChange : option AclReadKeyChange;
}.

(** The oneof of AclContentValue; [CUnset] is an unset or unknown value. *)
Inductive AclContentValue :=
| CInvite (ch : AclAccountInvite)
| CInviteRevoke (inviteRecordId : string)
| CRequestJoin (ch : AclAccountRequestJoin)
| CRequestAccept (ch : AclAccountRequestAccept)
| CPermissionChange (ch : AclAccountPermissionChange)
| CAccountRemove (ch : AclAccountRemove)
| CReadKeyChange (ch : AclReadKeyChange)
| CRequestDecline (requestRecordId : string)
| CAccountRequestRemove
| CPermissionChanges (changes : list AclAccountPermissionChange)
| CAccountsAdd (additions : list AclAccountAdd)
| CRequestCancel (recordId : string)
| CInviteJoin (ch : AclAccountInviteJoin)
| CInviteChange (ch : AclAccountInviteChange)
| COwnershipChange (ch : AclOwnershipChange)
| CSpaceOptionsChange (options : option AclSpaceOptions)
| CUnset.

Definition AclData : Type := list AclContentValue.

Record AclOneToOneInfo := mkAclOneToOneInfo {
  oto_Owner : option bytes;
  oto_Writers : list bytes;
}.

Record AclRoot := mkAclRoot {
  root_Identity : bytes;
  root_EncryptedReadKey : option bytes;
  root_MetadataPubKey : bytes;
  root_EncryptedMetadataPrivKey : bytes;
  root_EncryptedOwnerMetadata : bytes;
  root_OneToOneInfo : option AclOneToOneInfo;
  root_Options : option AclSpaceOptions;
  root_Timestamp : Z;
  root_SpaceId : string;
  root_MasterKey : bytes;
  root_IdentitySignature : bytes;
}.

(** The [Model interface{}] of a record. *)
Inductive RecordModel :=
| ModelNil
| ModelRoot (root : AclRoot)
| ModelData (data : AclData).

(** [AcceptorIdentity] and [AcceptorSignature], which no code writes, are left out. *)
Record AclRecord := mkAclRecord {
  rec_Id : string;
  rec_PrevId : string;
  rec_Timestamp : Z;
  rec_AcceptorTimestamp : Z;
  rec_Data : bytes;
  rec_Identity : PubKey;
  rec_Model : RecordModel;
  rec_Signature : bytes;
}.

(** The generated decoders of the ACL messages. *)
Class AclCodec := {
  AclData_UnmarshalVT : bytes -> res AclData;
  AclRoot_UnmarshalVT : bytes -> res AclRoot;
}.

(** ** Errors (aclstate.go, list.go) *)

Definition ErrNoSuchAccount := GoError "no such account".
Definition ErrPendingRequest := GoError "already exists pending request".
Definition ErrUnexpectedContentType := GoError "unexpected content type".
Definition ErrIncorrectIdentity := GoError "incorrect identity".
Definition ErrFailedToDecrypt := GoError "failed to decrypt key".
Definition ErrNoMetadataKey := GoError "no metadata key".
Definition ErrNoSuchRecord := GoError "no such record".
Definition ErrNoSuchRequest := GoError "no such request".
Definition ErrNoSuchInvite := GoError "no such invite".
Definition ErrInsufficientPermissions := GoError "insufficient permissions".
Definition ErrIsOwner := GoError "can't be made by owner".
Definition ErrIncorrectNumberOfAccounts := GoError "incorrect number of accounts".
Definition ErrDuplicateAccounts := GoError "duplicate accounts".
Definition ErrNoReadKey := GoError "no read key".
Definition ErrIncorrectReadKey := GoError "incorrect read key".
Definition ErrInvalidSignature := GoError "signature is invalid".
Definition ErrIncorrectRoot := GoError "incorrect root".
Definition ErrIncorrectRecordSequence := GoError "incorrect prev id of a record".
Definition ErrMetadataTooLarge := GoError "metadata size too large".
Definition ErrOwnerNotFound := GoError "owner not found".
Definition ErrAddRecordOneToOne := GoError "adding a record to one-to-one space is forbidden".
Definition ErrEmptyAclRecordData := GoError "acl record has neither model nor data".
Definition ErrNoAclContent := GoError "acl record has no content".
Definition ErrIncorrectCID := GoError "incorrect CID".
Definition ErrRecordAlreadyExists := GoError "record already exists".
Definition ErrEmptyRecordId := GoError "acl record has no id".

(** ** The permission lattice *)

(** Reflect the boolean tests on permissions in every hypothesis. *)
Ltac perm_unfold :=
  unfold IsLessOrEqual, CanManageAccounts, CanWrite, CanRequestRemove, NoPermissions,
    IsOwner, IsAdmin, IsGuest, AclPermissionsNone, AclPermissionsOwner,
    AclPermissionsAdmin, AclPermissionsWriter, AclPermissionsReader,
    AclPermissionsGuest in *.

Ltac perm_solve := perm_unfold;
  repeat match goal with
  | H : context [if ?b then _ else _] |- _ => destruct b eqn:?
  | |- context [if ?b then _ else _] => destruct b eqn:?
  end; try done; try lia.

(** A permission below another is one of None, Reader, Writer, Admin: an owner
    or guest grant never passes the comparison. *)
Lemma IsLessOrEqual_grantable p q :
  IsLessOrEqual p q = true -> IsOwner p = false /\ IsGuest p = false.
Proof. intros. perm_solve. Qed.

Lemma IsLessOrEqual_admin p q :
  IsLessOrEqual p q = true -> IsAdmin p = true -> IsAdmin q = true.
Proof. intros. perm_solve. Qed.

Lemma IsLessOrEqual_trans p q r :
  IsLessOrEqual p q = true -> IsLessOrEqual q r = true -> IsLessOrEqual p r = true.
Proof. intros. perm_solve. Qed.
