(* ===== verification/AclState.v ===== *)
(** The ACL state of a space and its queries
    (src/commonspace/object/acl/list/aclstate.go).  The operations that change it
    are in AclApply. *)

From Stdlib Require Import ZArith Lia.
From stdpp Require Import base option list gmap strings.
From S2P Require Import Prelude Crypto AclModels.

Open Scope Z_scope.

(** What [AclState.contentValidator] keeps beside the state it points to: the
    verifier's [ShouldValidate()] and the admission flag. *)
Record contentValidator := mkContentValidator {
  cv_shouldValidate : bool;
  cv_admission : bool;
}.

Definition newContentValidator (shouldValidate : bool) : contentValidator :=
  mkContentValidator shouldValidate false.

(** recordverifier.NewValidateFull() validates. *)
Definition newAdmissionValidator : contentValidator := mkContentValidator true true.

Record AclState := mkAclState {
  st_id : string;
  st_keys : gmap string AclKeys;
  st_accountStates : gmap string AccountState;
  st_invites : gmap string Invite;
  st_requestRecords : gmap string RequestRecord;
  st_pendingRequests : gmap string string;
  st_readKeyChanges : list string;
  st_key : PrivKey;
  st_pubKey : PubKey;
  st_lastRecordId : string;
  st_contentValidator : contentValidator;
  st_optionChanges : list OptionChange;
  st_isOneToOne : bool;
}.

(** ** Field assignments *)

Definition set_keys v st := mkAclState (st_id st) v (st_accountStates st) (st_invites st)
  (st_requestRecords st) (st_pendingRequests st) (st_readKeyChanges st) (st_key st)
  (st_pubKey st) (st_lastRecordId st) (st_contentValidator st) (st_optionChanges st)
  (st_isOneToOne st).
Definition set_accountStates v st := mkAclState (st_id st) (st_keys st) v (st_invites st)
  (st_requestRecords st) (st_pendingRequests st) (st_readKeyChanges st) (st_key st)
  (st_pubKey st) (st_lastRecordId st) (st_contentValidator st) (st_optionChanges st)
  (st_isOneToOne st).
Definition set_invites v st := mkAclState (st_id st) (st_keys st) (st_accountStates st) v
  (st_requestRecords st) (st_pendingRequests st) (st_readKeyChanges st) (st_key st)
  (st_pubKey st) (st_lastRecordId st) (st_contentValidator st) (st_optionChanges st)
  (st_isOneToOne st).
Definition set_requestRecords v st := mkAclState (st_id st) (st_keys st) (st_accountStates st)
  (st_invites st) v (st_pendingRequests st) (st_readKeyChanges st) (st_key st)
  (st_pubKey st) (st_lastRecordId st) (st_contentValidator st) (st_optionChanges st)
  (st_isOneToOne st).
Definition set_pendingRequests v st := mkAclState (st_id st) (st_keys st) (st_accountStates st)
  (st_invites st) (st_requestRecords st) v (st_readKeyChanges st) (st_key st)
  (st_pubKey st) (st_lastRecordId st) (st_contentValidator st) (st_optionChanges st)
  (st_isOneToOne st).
Definition set_readKeyChanges v st := mkAclState (st_id st) (st_keys st) (st_accountStates st)
  (st_invites st) (st_requestRecords st) (st_pendingRequests st) v (st_key st)
  (st_pubKey st) (st_lastRecordId st) (st_contentValidator st) (st_optionChanges st)
  (st_isOneToOne st).
Definition set_lastRecordId v st := mkAclState (st_id st) (st_keys st) (st_accountStates st)
  (st_invites st) (st_requestRecords st) (st_pendingRequests st) (st_readKeyChanges st)
  (st_key st) (st_pubKey st) v (st_contentValidator st) (st_optionChanges st)
  (st_isOneToOne st).
Definition set_contentValidator v st := mkAclState (st_id st) (st_keys st)
  (st_accountStates st) (st_invites st) (st_requestRecords st) (st_pendingRequests st)
  (st_readKeyChanges st) (st_key st) (st_pubKey st) (st_lastRecordId st) v
  (st_optionChanges st) (st_isOneToOne st).
Definition set_optionChanges v st := mkAclState (st_id st) (st_keys st) (st_accountStates st)
  (st_invites st) (st_requestRecords st) (st_pendingRequests st) (st_readKeyChanges st)
  (st_key st) (st_pubKey st) (st_lastRecordId st) (st_contentValidator st) v
  (st_isOneToOne st).
Definition set_isOneToOne v st := mkAclState (st_id st) (st_keys st) (st_accountStates st)
  (st_invites st) (st_requestRecords st) (st_pendingRequests st) (st_readKeyChanges st)
  (st_key st) (st_pubKey st) (st_lastRecordId st) (st_contentValidator st)
  (st_optionChanges st) v.

(** Assignments to one map entry. *)
Definition put_keys k v st := set_keys (<[k := v]> (st_keys st)) st.
Definition put_account k v st := set_accountStates (<[k := v]> (st_accountStates st)) st.
Definition put_invite k v st := set_invites (<[k := v]> (st_invites st)) st.
Definition del_invite k st := set_invites (delete k (st_invites st)) st.
Definition put_request k v st := set_requestRecords (<[k := v]> (st_requestRecords st)) st.
Definition del_request k st := set_requestRecords (delete k (st_requestRecords st)) st.
Definition put_pending k v st := set_pendingRequests (<[k := v]> (st_pendingRequests st)) st.
Definition del_pending k st := set_pendingRequests (delete k (st_pendingRequests st)) st.

(** Field updates of the entry records. *)
Definition with_Permissions p a := mkAccountState (as_PubKey a) p (as_Status a)
  (as_RequestMetadata a) (as_KeyRecordId a) (as_PermissionChanges a).
Definition with_Status s a := mkAccountState (as_PubKey a) (as_Permissions a) s
  (as_RequestMetadata a) (as_KeyRecordId a) (as_PermissionChanges a).
Definition with_PermissionChanges l a := mkAccountState (as_PubKey a) (as_Permissions a)
  (as_Status a) (as_RequestMetadata a) (as_KeyRecordId a) l.
Definition with_invPermissions p i := mkInvite (inv_Key i) (inv_Type i) p (inv_Id i)
  (inv_encryptedReadKey i).
Definition with_invReadKey b i := mkInvite (inv_Key i) (inv_Type i) (inv_Permissions i)
  (inv_Id i) b.
Definition with_ReadKey k a := mkAclKeys k (MetadataPrivKey a) (MetadataPubKey a)
  (encryptedPreviousReadKey a) (encryptedMetadataKey a).
Definition with_MetadataPrivKey k a := mkAclKeys (ReadKey a) k (MetadataPubKey a)
  (encryptedPreviousReadKey a) (encryptedMetadataKey a).

(** ** Record order

    [aclList.indexes] maps a record id to its position; a missing id reads as 0. *)
Abbreviation recordIndexes := (gmap string nat).

Definition isAfterNoCheck (indexes : recordIndexes) (first second : string) : bool :=
  (default 0%nat (indexes !! second) <=? default 0%nat (indexes !! first))%nat.

(** ** Queries *)

Section queries.
Context `{CryptoPrims} `{MapRange}.
Implicit Types st : AclState.

(** Panics on an empty list of key changes. *)
Definition CurrentReadKeyId st : res string :=
  opt_or (last (st_readKeyChanges st)) (GoPanic "index out of range").

(** The latest read key change at or before the record. *)
Definition ReadKeyForAclId (indexes : recordIndexes) st (id : string) : res string :=
  recIdx ← opt_or (indexes !! id) ErrNoSuchRecord;
  opt_or (list_find (fun recId => (default 0 (indexes !! recId) <= recIdx)%nat)
            (rev (st_readKeyChanges st)) ≫= fun x => Some x.2) ErrNoSuchRecord.

Definition CurrentReadKey st : res (option SymKey) :=
  id ← CurrentReadKeyId st;
  curKeys ← opt_or (st_keys st !! id) ErrNoReadKey;
  Ok (ReadKey curKeys).

Definition CurrentMetadataKey st : res (option PubKey) :=
  id ← CurrentReadKeyId st;
  curKeys ← opt_or (st_keys st !! id) ErrNoMetadataKey;
  Ok (MetadataPubKey curKeys).

Definition FirstMetadataKey st : res PrivKey :=
  match st_keys st !! st_id st with
  | Some firstKey => opt_or (MetadataPrivKey firstKey) ErrNoMetadataKey
  | None => Err ErrNoMetadataKey
  end.

(** Walk the changes backwards to the first at or before the record. *)
Fixpoint closestChange (isAfter : string -> string -> bool) (recordId : string)
    (revChanges : list PermissionChange) : AclPermissions :=
  match revChanges with
  | [] => AclPermissionsNone
  | ch :: rest =>
      if isAfter recordId (pc_RecordId ch) then pc_Permission ch
      else closestChange isAfter recordId rest
  end.

Definition closestPermissions (accountState : AccountState) (recordId : string)
    (isAfter : string -> string -> bool) : AclPermissions :=
  closestChange isAfter recordId (rev (as_PermissionChanges accountState)).

Definition PermissionsAtRecord (indexes : recordIndexes) st (id : string) (pk : PubKey)
    : res AclPermissions :=
  fail_if (negb (bool_decide (is_Some (indexes !! id)))) ErrNoSuchRecord ;;
  accountState ← opt_or (st_accountStates st !! mapKeyFromPubKey pk) ErrNoSuchAccount;
  Ok (closestPermissions accountState id (isAfterNoCheck indexes)).

Definition Permissions st (identity : PubKey) : AclPermissions :=
  match st_accountStates st !! mapKeyFromPubKey identity with
  | None => AclPermissionsNone
  | Some state => as_Permissions state
  end.

Definition CurrentAccounts st : list AccountState :=
  (map_range (st_accountStates st)).*2.

Definition HadReadPermissions st (identity : PubKey) : bool :=
  match st_accountStates st !! mapKeyFromPubKey identity with
  | None => false
  | Some state =>
      existsb (fun perm => negb (NoPermissions (pc_Permission perm)))
        (as_PermissionChanges state)
  end.

Definition Invites st (inviteType : list Z) : list Invite :=
  List.filter (fun inv => negb (bool_decide (inviteType <> []) &&
                           negb (slices_Contains inviteType (inv_Type inv))))
    (map_range (st_invites st)).*2.

Definition IsEmpty st : bool :=
  let users := length (List.filter (fun acc => negb (NoPermissions (as_Permissions acc)))
                         (CurrentAccounts st)) in
  bool_decide (users = 1%nat) && bool_decide (Invites st [] = []) &&
  bool_decide (st_pendingRequests st = ∅).

Definition unmarshallDecryptReadKey (msg : bytes) (decryptor : bytes -> res bytes)
    : res SymKey :=
  match decryptor msg with
  | Err _ => Err ErrFailedToDecrypt
  | Ok decrypted =>
      match UnmarshallAESKeyProto decrypted with
      | Err _ => Err ErrFailedToDecrypt
      | Ok key => Ok key
      end
  end.

Definition unmarshallDecryptPrivKey (msg : bytes) (decryptor : bytes -> res bytes)
    : res PrivKey :=
  match decryptor msg with
  | Err _ => Err ErrFailedToDecrypt
  | Ok decrypted =>
      match UnmarshalEd25519PrivateKeyProto decrypted with
      | Err _ => Err ErrFailedToDecrypt
      | Ok key => Ok key
      end
  end.

(** The first invite, in range order, whose key is the argument's. *)
Definition findInviteByKey st (pk : PubKey) : option (string * Invite) :=
  snd <$> list_find (fun x => PubKey_Equals (inv_Key x.2) pk = true)
            (map_range (st_invites st)).

Definition decryptReadKeyFromInviteWithoutApprove st (invitePk : option PrivKey)
    : res SymKey :=
  invitePk ← opt_or invitePk ErrNoReadKey;
  match findInviteByKey st (GetPublic invitePk) with
  | Some (_, invite) =>
      unmarshallDecryptReadKey (inv_encryptedReadKey invite) (PrivKey_Decrypt invitePk)
  | None => Err ErrNoSuchInvite
  end.

Definition GetInviteIdByPrivKey st (inviteKey : PrivKey) : res string :=
  match findInviteByKey st (GetPublic inviteKey) with
  | Some (id, _) => Ok id
  | None => Err ErrNoSuchRecord
  end.

Definition GetMetadata st (identity : PubKey) (decrypt : bool) : res bytes :=
  state ← opt_or (st_accountStates st !! mapKeyFromPubKey identity) ErrNoSuchAccount;
  if negb decrypt then Ok (as_RequestMetadata state)
  else
    let aclKeys := default zeroAclKeys (st_keys st !! as_KeyRecordId state) in
    k ← opt_or (MetadataPrivKey aclKeys) ErrFailedToDecrypt;
    PrivKey_Decrypt k (as_RequestMetadata state).

(** The pending request of an identity; [None] is the zero record. *)
Definition Record_ st (identity : PubKey) : res (option RequestRecord) :=
  recId ← opt_or (st_pendingRequests st !! mapKeyFromPubKey identity) ErrNoSuchRecord;
  Ok (st_requestRecords st !! recId).

Definition with_RequestMetadata m r := mkRequestRecord (rr_RequestIdentity r) m
  (rr_KeyRecordId r) (rr_RecordId r) (rr_Type r).

(** A request with its metadata decrypted under the key it was made for. *)
Definition decryptRequest st (rec : RequestRecord) : res RequestRecord :=
  let aclKeys := default zeroAclKeys (st_keys st !! rr_KeyRecordId rec) in
  k ← opt_or (MetadataPrivKey aclKeys) ErrFailedToDecrypt;
  m ← PrivKey_Decrypt k (rr_RequestMetadata rec);
  Ok (with_RequestMetadata m rec).

(** The pending requests of one type, in range order. *)
Definition pendingOfType st (ty : RequestType) : list RequestRecord :=
  omap (fun kv => rec ← st_requestRecords st !! kv.2;
                  if decide (rr_Type rec = ty) then Some rec else None)
    (map_range (st_pendingRequests st)).

Definition JoinRecords st (decrypt : bool) : res (list RequestRecord) :=
  if decrypt then res_map (decryptRequest st) (pendingOfType st RequestTypeJoin)
  else Ok (pendingOfType st RequestTypeJoin).

Definition RemoveRecords st : list RequestRecord := pendingOfType st RequestTypeRemove.

(** The owner and the record that last made it the owner. *)
Definition ownerRecordId (aState : AccountState) : string :=
  let recordId := foldl (fun r pc => if IsOwner (pc_Permission pc) then pc_RecordId pc else r)
                    "" (as_PermissionChanges aState) in
  if decide (recordId = "") then as_KeyRecordId aState else recordId.

Definition OwnerPubKeyWithRecordId st : res (option PubKey * string) :=
  match list_find (fun x => IsOwner (as_Permissions x.2) = true)
          (map_range (st_accountStates st)) with
  | Some (_, (_, aState)) => Ok (as_PubKey aState, ownerRecordId aState)
  | None => Err ErrOwnerNotFound
  end.

Definition OwnerPubKey st : res (option PubKey) :=
  '(ownerIdentity, _) ← OwnerPubKeyWithRecordId st;
  Ok ownerIdentity.

Fixpoint closestOptions (isAfter : string -> string -> bool) (recordId : string)
    (revChanges : list OptionChange) : option AclSpaceOptions :=
  match revChanges with
  | [] => None
  | ch :: rest =>
      if isAfter recordId (oc_RecordId ch) then oc_Options ch
      else closestOptions isAfter recordId rest
  end.

Definition OptionsAtRecord (indexes : recordIndexes) st (recordId : string)
    : option AclSpaceOptions :=
  closestOptions (isAfterNoCheck indexes) recordId (rev (st_optionChanges st)).

Definition CurrentOptions st : option AclSpaceOptions :=
  last (st_optionChanges st) ≫= oc_Options.

(** [deriveKey]: the read key of a derived space. *)
Definition AnysyncSpacePath : string := "m/SLIP-0021/anysync/space".
Definition deriveKey st : res SymKey :=
  keyBytes ← PrivKey_Raw (st_key st);
  DeriveSymmetricKey keyBytes AnysyncSpacePath.

(** A copy shares nothing mutable with the original; the validator is rebuilt
    from the list's verifier. *)
Definition Copy (listVerifierShouldValidate : bool) st : AclState :=
  mkAclState (st_id st) (st_keys st) (st_accountStates st) (st_invites st)
    (st_requestRecords st) (st_pendingRequests st) (st_readKeyChanges st) (st_key st)
    (GetPublic (st_key st)) (st_lastRecordId st)
    (newContentValidator listVerifierShouldValidate) (st_optionChanges st)
    (st_isOneToOne st).
End queries.
