(* ===== verification/AclValidator.v ===== *)
(** Validation of ACL content against a state
    (src/commonspace/object/acl/list/validator.go), one definition per
    [contentValidator] method.  A validator that does not validate
    ([verifier.ShouldValidate()] false) accepts everything. *)

From Stdlib Require Import ZArith Lia.
From stdpp Require Import base option list gmap strings sorting.
From S2P Require Import Prelude Crypto AclModels AclState.

Open Scope Z_scope.

Section validator.
Context `{CryptoPrims} `{MapRange}.
Implicit Types (st : AclState) (authorIdentity : PubKey).

(** [keyStore.PubKeyFromProto]: the cache is transparent
    ([Crypto.PubKeyFromProto_refines]). *)
Definition pubKeyFromProto (b : bytes) : res PubKey := UnmarshalEd25519PublicKeyProto b.

Definition ShouldValidate st : bool := cv_shouldValidate (st_contentValidator st).

(** [if !c.verifier.ShouldValidate() { return nil }] *)
Definition when_validating st (r : res unit) : res unit :=
  if ShouldValidate st then r else Ok tt.

Definition ValidatePermissionChange st (ch : AclAccountPermissionChange) authorIdentity
    : res unit :=
  when_validating st (
    let authorPerms := Permissions st authorIdentity in
    fail_if (negb (CanManageAccounts authorPerms)) ErrInsufficientPermissions ;;
    chIdentity ← pubKeyFromProto (apc_Identity ch);
    currentState ← opt_or (st_accountStates st !! mapKeyFromPubKey chIdentity)
                     ErrNoSuchAccount;
    let cur := as_Permissions currentState in
    fail_if (cur =? AclPermissionsGuest) ErrInsufficientPermissions ;;
    fail_if (cur =? AclPermissionsOwner) ErrInsufficientPermissions ;;
    fail_if (IsAdmin cur && negb (IsOwner authorPerms)) ErrInsufficientPermissions ;;
    fail_if (apc_Permissions ch =? AclPermissionsOwner) ErrInsufficientPermissions ;;
    fail_if ((apc_Permissions ch =? AclPermissionsAdmin) && negb (IsOwner authorPerms))
      ErrInsufficientPermissions ;;
    fail_if ((apc_Permissions ch =? AclPermissionsGuest) && negb (cur =? AclPermissionsReader))
      ErrInsufficientPermissions).

Definition ValidatePermissionChanges st (changes : list AclAccountPermissionChange)
    authorIdentity : res unit :=
  when_validating st
    (res_each (fun ch => ValidatePermissionChange st ch authorIdentity) changes).

Definition ValidateOwnershipChange st (ch : AclOwnershipChange) authorIdentity : res unit :=
  when_validating st (
    fail_if (negb (IsOwner (Permissions st authorIdentity))) ErrInsufficientPermissions ;;
    identity ← pubKeyFromProto (owc_NewOwnerIdentity ch);
    let oldOwnerPerms := owc_OldOwnerPermissions ch in
    let newOwnerPerms := Permissions st identity in
    fail_if (NoPermissions newOwnerPerms) ErrNoSuchAccount ;;
    let newOwnerStatus :=
      default zeroAccountState (st_accountStates st !! mapKeyFromPubKey identity) in
    fail_if (negb (bool_decide (as_Status newOwnerStatus = StatusActive)) ||
             IsOwner newOwnerPerms || IsOwner oldOwnerPerms || NoPermissions oldOwnerPerms)
      ErrInsufficientPermissions).

Definition validateAddition st (authorPerms : AclPermissions) (ch : AclAccountAdd)
    : res unit :=
  identity ← pubKeyFromProto (aa_Identity ch);
  fail_if (negb (NoPermissions (Permissions st identity))) ErrDuplicateAccounts ;;
  let perm := aa_Permissions ch in
  fail_if (IsOwner perm) ErrIsOwner ;;
  fail_if (NoPermissions perm) ErrInsufficientPermissions ;;
  fail_if (IsAdmin perm && negb (IsOwner authorPerms)) ErrInsufficientPermissions.

Definition ValidateAccountsAdd st (additions : list AclAccountAdd) authorIdentity
    : res unit :=
  when_validating st (
    let authorPerms := Permissions st authorIdentity in
    fail_if (negb (CanManageAccounts authorPerms)) ErrInsufficientPermissions ;;
    res_each (validateAddition st authorPerms) additions).

(** [ok, err := key.Verify(...)]: an error and a wrong signature are one error. *)
Definition checkSignature (key : PubKey) (data sig : bytes) : res unit :=
  match PubKey_Verify key data sig with
  | Err _ => Err ErrInvalidSignature
  | Ok ok => fail_if (negb ok) ErrInvalidSignature
  end.

Definition ValidateInviteJoin st (ch : AclAccountInviteJoin) authorIdentity : res unit :=
  when_validating st (
    fail_if (negb (NoPermissions (Permissions st authorIdentity)))
      ErrInsufficientPermissions ;;
    invite ← opt_or (st_invites st !! aij_InviteRecordId ch) ErrNoSuchInvite;
    fail_if (negb (inv_Type invite =? AclInviteType_AnyoneCanJoin)) ErrNoSuchInvite ;;
    fail_if (negb (IsLessOrEqual (aij_Permissions ch) (inv_Permissions invite)))
      ErrInsufficientPermissions ;;
    fail_if (negb (NoPermissions (Permissions st authorIdentity)))
      ErrInsufficientPermissions ;;
    inviteIdentity ← pubKeyFromProto (aij_Identity ch);
    fail_if (negb (PubKey_Equals authorIdentity inviteIdentity)) ErrIncorrectIdentity ;;
    rawInviteIdentity ← PubKey_Raw inviteIdentity;
    checkSignature (inv_Key invite) rawInviteIdentity (aij_InviteIdentitySignature ch) ;;
    fail_if (bool_decide (MaxMetadataLen < String.length (aij_Metadata ch))%nat)
      ErrMetadataTooLarge ;;
    fail_if (bool_decide (aij_EncryptedReadKey ch = None)) ErrIncorrectReadKey).

(** Rejects a new record that carries no content. *)
Definition ValidateAclData st (data : AclData) : res unit :=
  if negb (cv_admission (st_contentValidator st)) then Ok tt
  else
    fail_if (bool_decide (length data = 0%nat)) ErrNoAclContent ;;
    res_each (fun content =>
      match content with
      | CPermissionChanges [] => Err ErrNoAclContent
      | _ => Ok tt
      end) data.

Definition ValidateUnexpectedContent st : res unit :=
  fail_if (cv_admission (st_contentValidator st)) ErrUnexpectedContentType.

(** The permissions an anyone-can-join invite may carry, given its author's. *)
Definition checkInvitePermissions (permissions authorPerms : AclPermissions) : res unit :=
  fail_if (IsOwner permissions || NoPermissions permissions || IsGuest permissions)
    ErrInsufficientPermissions ;;
  fail_if (IsAdmin permissions && negb (IsOwner authorPerms)) ErrInsufficientPermissions.

Definition ValidateInvite st (ch : AclAccountInvite) authorIdentity : res unit :=
  when_validating st (
    let authorPerms := Permissions st authorIdentity in
    fail_if (negb (CanManageAccounts authorPerms)) ErrInsufficientPermissions ;;
    (if ai_InviteType ch =? AclInviteType_AnyoneCanJoin then
       checkInvitePermissions (ai_Permissions ch) authorPerms ;;
       fail_if (bool_decide (ai_EncryptedReadKey ch = None)) ErrIncorrectReadKey
     else Ok tt) ;;
    pubKeyFromProto (ai_InviteKey ch) ;;
    Ok tt).

Definition ValidateInviteChange st (ch : AclAccountInviteChange) authorIdentity : res unit :=
  when_validating st (
    let authorPerms := Permissions st authorIdentity in
    fail_if (negb (CanManageAccounts authorPerms)) ErrInsufficientPermissions ;;
    invite ← opt_or (st_invites st !! aic_InviteRecordId ch) ErrNoSuchInvite;
    fail_if (negb (inv_Type invite =? AclInviteType_AnyoneCanJoin)) ErrNoSuchInvite ;;
    fail_if (inv_Permissions invite =? aic_Permissions ch) ErrInsufficientPermissions ;;
    checkInvitePermissions (aic_Permissions ch) authorPerms).

Definition ValidateInviteRevoke st (inviteRecordId : string) authorIdentity : res unit :=
  when_validating st (
    fail_if (negb (CanManageAccounts (Permissions st authorIdentity)))
      ErrInsufficientPermissions ;;
    opt_or (st_invites st !! inviteRecordId) ErrNoSuchInvite ;;
    Ok tt).

Definition ValidateRequestJoin st (ch : AclAccountRequestJoin) authorIdentity : res unit :=
  when_validating st (
    invite ← opt_or (st_invites st !! arj_InviteRecordId ch) ErrNoSuchInvite;
    fail_if (negb (NoPermissions (Permissions st authorIdentity)))
      ErrInsufficientPermissions ;;
    fail_if (negb (inv_Type invite =? AclInviteType_RequestToJoin)) ErrNoSuchInvite ;;
    inviteIdentity ← pubKeyFromProto (arj_InviteIdentity ch);
    fail_if (bool_decide (is_Some (st_pendingRequests st !! mapKeyFromPubKey inviteIdentity)))
      ErrPendingRequest ;;
    fail_if (negb (PubKey_Equals authorIdentity inviteIdentity)) ErrIncorrectIdentity ;;
    rawInviteIdentity ← PubKey_Raw inviteIdentity;
    checkSignature (inv_Key invite) rawInviteIdentity (arj_InviteIdentitySignature ch) ;;
    fail_if (bool_decide (MaxMetadataLen < String.length (arj_Metadata ch))%nat)
      ErrMetadataTooLarge).

Definition ValidateRequestAccept st (ch : AclAccountRequestAccept) authorIdentity
    : res unit :=
  when_validating st (
    let authorPerms := Permissions st authorIdentity in
    fail_if (negb (CanManageAccounts authorPerms)) ErrInsufficientPermissions ;;
    record ← opt_or (st_requestRecords st !! ara_RequestRecordId ch) ErrNoSuchRequest;
    acceptIdentity ← pubKeyFromProto (ara_Identity ch);
    fail_if (negb (PubKey_Equals acceptIdentity (rr_RequestIdentity record)))
      ErrIncorrectIdentity ;;
    fail_if (ara_Permissions ch =? AclPermissionsOwner) ErrInsufficientPermissions ;;
    fail_if ((ara_Permissions ch =? AclPermissionsAdmin) && negb (IsOwner authorPerms))
      ErrInsufficientPermissions).

Definition ValidateRequestDecline st (requestRecordId : string) authorIdentity : res unit :=
  when_validating st (
    fail_if (negb (CanManageAccounts (Permissions st authorIdentity)))
      ErrInsufficientPermissions ;;
    rec ← opt_or (st_requestRecords st !! requestRecordId) ErrNoSuchRequest;
    fail_if (negb (bool_decide (rr_Type rec = RequestTypeJoin))) ErrNoSuchRequest).

Definition ValidateRequestCancel st (recordId : string) authorIdentity : res unit :=
  when_validating st (
    rec ← opt_or (st_requestRecords st !! recordId) ErrNoSuchRequest;
    fail_if (negb (PubKey_Equals (rr_RequestIdentity rec) authorIdentity))
      ErrInsufficientPermissions).

(** The accounts a new read key must cover: those with permissions that are not
    being removed.  [mapKeyFromPubKey] of a nil key panics. *)
Fixpoint activeUsersOf (removedUsers : gset string) (accs : list AccountState)
    : res (list string) :=
  match accs with
  | [] => Ok []
  | acc :: accs =>
      if NoPermissions (as_Permissions acc) then activeUsersOf removedUsers accs
      else
        pk ← opt_or (as_PubKey acc) (GoPanic "nil public key");
        rest ← activeUsersOf removedUsers accs;
        Ok (if decide (mapKeyFromPubKey pk ∈ removedUsers) then rest
            else mapKeyFromPubKey pk :: rest)
  end.

Definition activeInvitesOf st : list string :=
  omap (fun inv => if inv_Type inv =? AclInviteType_AnyoneCanJoin
                   then Some (mapKeyFromPubKey (inv_Key inv)) else None)
    (map_range (st_invites st)).*2.

(** [slices.Sort] of both sides and [slices.Equal]: the same elements with the
    same multiplicities. *)
Definition sortedEqual (l1 l2 : list string) : bool :=
  bool_decide (merge_sort String.le l1 = merge_sort String.le l2).

Definition keyOfEncrypted (k : AclEncryptedReadKey) : res string :=
  identity ← pubKeyFromProto (erk_Identity k);
  Ok (mapKeyFromPubKey identity).

(** A nil message panics on its first field access. *)
Definition validateReadKeyChange st (ch : option AclReadKeyChange)
    (removedUsers : gset string) : res unit :=
  when_validating st (
    ch ← opt_or ch (GoPanic "nil AclReadKeyChange");
    match pubKeyFromProto (rkc_MetadataPubKey ch) with
    | Err _ => Err ErrNoMetadataKey
    | Ok _ =>
        fail_if (bool_decide (rkc_EncryptedMetadataPrivKey ch = None) ||
                 bool_decide (rkc_EncryptedOldReadKey ch = None)) ErrIncorrectReadKey ;;
        activeUsers ← activeUsersOf removedUsers (map_range (st_accountStates st)).*2;
        let activeInvites := activeInvitesOf st in
        updatedUsers ← res_map keyOfEncrypted (rkc_AccountKeys ch);
        updatedInvites ← res_map keyOfEncrypted (rkc_InviteKeys ch);
        fail_if (negb (bool_decide (length activeUsers = length updatedUsers)))
          ErrIncorrectNumberOfAccounts ;;
        fail_if (negb (bool_decide (length activeInvites = length updatedInvites)))
          ErrIncorrectNumberOfAccounts ;;
        fail_if (negb (sortedEqual activeUsers updatedUsers) ||
                 negb (sortedEqual activeInvites updatedInvites))
          ErrIncorrectNumberOfAccounts
    end).

(** The loop over the removed identities, collecting the ones seen. *)
Fixpoint validateRemovals st authorIdentity (authorPerms : AclPermissions)
    (seen : gset string) (ids : list bytes) : res (gset string) :=
  match ids with
  | [] => Ok seen
  | rawIdentity :: ids =>
      identity ← pubKeyFromProto rawIdentity;
      fail_if (PubKey_Equals identity authorIdentity) ErrInsufficientPermissions ;;
      let permissions := Permissions st identity in
      fail_if (NoPermissions permissions) ErrNoSuchAccount ;;
      fail_if (IsOwner permissions) ErrInsufficientPermissions ;;
      fail_if (IsAdmin permissions && negb (IsOwner authorPerms))
        ErrInsufficientPermissions ;;
      let idKey := mapKeyFromPubKey identity in
      fail_if (bool_decide (idKey ∈ seen)) ErrDuplicateAccounts ;;
      validateRemovals st authorIdentity authorPerms ({[idKey]} ∪ seen) ids
  end.

Definition ValidateAccountRemove st (ch : AclAccountRemove) authorIdentity : res unit :=
  when_validating st (
    let authorPerms := Permissions st authorIdentity in
    fail_if (negb (CanManageAccounts authorPerms)) ErrInsufficientPermissions ;;
    seenIdentities ← validateRemovals st authorIdentity authorPerms ∅ (arm_Identities ch);
    validateReadKeyChange st (arm_ReadKeyChange ch) seenIdentities).

Definition ValidateRequestRemove st authorIdentity : res unit :=
  when_validating st (
    fail_if (NoPermissions (Permissions st authorIdentity)) ErrInsufficientPermissions ;;
    fail_if (IsOwner (Permissions st authorIdentity)) ErrIsOwner ;;
    fail_if (bool_decide (is_Some (st_pendingRequests st !! mapKeyFromPubKey authorIdentity)))
      ErrPendingRequest).

Definition ValidateReadKeyChange st (ch : option AclReadKeyChange) authorIdentity : res unit :=
  when_validating st (
    fail_if (negb (CanManageAccounts (Permissions st authorIdentity)))
      ErrInsufficientPermissions ;;
    validateReadKeyChange st ch ∅).

Definition ValidateSpaceOptionsChange st authorIdentity : res unit :=
  when_validating st
    (fail_if (negb (IsOwner (Permissions st authorIdentity))) ErrInsufficientPermissions).

(** The standalone content check: three types reach only [applyChangeContent]. *)
Definition validateAclRecordContent st (ch : AclContentValue) authorIdentity : res unit :=
  match ch with
  | CPermissionChange ch => ValidatePermissionChange st ch authorIdentity
  | CInvite ch => ValidateInvite st ch authorIdentity
  | CInviteRevoke id => ValidateInviteRevoke st id authorIdentity
  | CRequestJoin ch => ValidateRequestJoin st ch authorIdentity
  | CInviteJoin ch => ValidateInviteJoin st ch authorIdentity
  | CRequestAccept ch => ValidateRequestAccept st ch authorIdentity
  | CRequestDecline id => ValidateRequestDecline st id authorIdentity
  | CAccountRemove ch => ValidateAccountRemove st ch authorIdentity
  | CAccountRequestRemove => ValidateRequestRemove st authorIdentity
  | CReadKeyChange ch => ValidateReadKeyChange st (Some ch) authorIdentity
  | CPermissionChanges chs => ValidatePermissionChanges st chs authorIdentity
  | CAccountsAdd adds => ValidateAccountsAdd st adds authorIdentity
  | CSpaceOptionsChange _ => ValidateSpaceOptionsChange st authorIdentity
  | CRequestCancel _ | CInviteChange _ | COwnershipChange _ | CUnset =>
      Err ErrUnexpectedContentType
  end.

Definition ValidateAclRecordContents st (ch : AclRecord) : res unit :=
  when_validating st (
    fail_if (negb (bool_decide (rec_PrevId ch = st_lastRecordId st)))
      ErrIncorrectRecordSequence ;;
    match rec_Model ch with
    | ModelData data =>
        res_each (fun content => validateAclRecordContent st content (rec_Identity ch)) data
    | _ => Err (GoPanic "interface conversion")
    end).
End validator.

(** ** Inversion of successful runs *)

Lemma when_validating_Ok st r u :
  ShouldValidate st = true -> when_validating st r = Ok u -> r = Ok u.
Proof. unfold when_validating. by intros ->. Qed.

(** [run_inv] opens every successful run in the context, with the validation it
    starts with, down to the tests and lookups that succeeded. *)
Ltac run_inv :=
  go_inv;
  repeat match goal with
  | Hv : ?f ?st _ _ = Ok _, HV : ShouldValidate ?st = true |- _ =>
      first [apply (when_validating_Ok _ _ _ HV) in Hv]
  | Hv : ?f ?st _ = Ok _, HV : ShouldValidate ?st = true |- _ =>
      first [apply (when_validating_Ok _ _ _ HV) in Hv]
  end;
  go_inv;
  repeat match goal with
  | H1 : pubKeyFromProto ?b = Ok ?x, H2 : pubKeyFromProto ?b = Ok ?y |- _ =>
      rewrite H1 in H2; injection H2 as H2; subst
  | Hn : negb _ = false |- _ => apply negb_false_iff in Hn
  | Hn : PubKey_Equals _ _ = true |- _ => apply PubKey_Equals_true in Hn; subst
  | Hn : bool_decide _ = true |- _ => apply bool_decide_eq_true in Hn
  | Hn : bool_decide _ = false |- _ => apply bool_decide_eq_false in Hn
  | Hn : _ && _ = false |- _ => apply andb_false_iff in Hn
  | Hn : _ || _ = false |- _ => apply orb_false_iff in Hn; destruct Hn
  end.
