(* ===== verification/AclApply.v ===== *)
(** Application of ACL records to the state
    (src/commonspace/object/acl/list/aclstate.go, onetoone.go): one definition per
    [apply...] method, each with its validation call, its guards and every write,
    in the order of the source.  Writes made before an error are kept, as in the
    code; [AclList] shows why no caller sees them.  At the end, what no record changes. *)

From Stdlib Require Import ZArith Lia.
From stdpp Require Import base option list gmap strings.
From S2P Require Import Prelude Crypto AclModels AclState AclValidator.

Open Scope Z_scope.

(** ** Key agreement of one-to-one spaces (x25519.go, derived.go) *)

(** The primitives it is made of *)
Class SharedKeyPrims := {
  (** crypto/sha512 *)
  sha512_Sum : bytes -> bytes;
  (** filippo.io/edwards25519 [Point.BytesMontgomery], of a point given by its bytes *)
  Point_BytesMontgomery : bytes -> bytes;
  (** golang.org/x/crypto/curve25519 [X25519(scalar, point)] *)
  curve25519_X25519 : bytes -> bytes -> res bytes;
  (** golang.org/x/crypto/hkdf: the first 32 bytes for a secret and an info, with SHA-256
      and no salt *)
  hkdf_Read32 : bytes -> bytes -> res bytes;
  (** go-slip21 *)
  slip21_IsValidPath : string -> bool;
  (** crypto/ed25519 [NewKeyFromSeed] *)
  ed25519_NewKeyFromSeed : bytes -> bytes;
  (** AES-GCM *)
  SymKey_Encrypt : SymKey -> bytes -> res bytes;
}.

(** Change the byte at an index. *)
Fixpoint updByte (n : nat) (f : Z -> Z) (s : bytes) : bytes :=
  match s, n with
  | EmptyString, _ => EmptyString
  | String c s, O => String (Ascii.ascii_of_nat (Z.to_nat (f (Z.of_nat (Ascii.nat_of_ascii c))))) s
  | String c s, S n => String c (updByte n f s)
  end.

(** [copy(dst, src)] *)
Definition go_copy (dst src : bytes) : bytes :=
  String.substring 0 (String.length dst) src +:+
  String.substring (String.length src) (String.length dst - String.length src) dst.

Section shared_key.
Context `{CryptoPrims} `{SharedKeyPrims}.

Definition Ed25519PublicKeyToCurve25519 (pk : bytes) : res bytes :=
  Point_SetBytes pk ;; Ok (Point_BytesMontgomery pk).

Definition Ed25519PrivateKeyToCurve25519 (pk : bytes) : bytes :=
  let out := sha512_Sum (String.substring 0 32 pk) in
  let out := updByte 0 (fun b => Z.land b 248) out in
  let out := updByte 31 (fun b => Z.lor (Z.land b 127) 64) out in
  String.substring 0 32 out.

Definition buildSortedContext (a b : bytes) : bytes :=
  "joined-identity-v1" +:+ match String.compare a b with Gt => b +:+ a | _ => a +:+ b end.

Definition GenerateSharedKey (aPrivKey : PrivKey) (bPubKey : PubKey) (derivePath : string) : res PrivKey :=
  fail_if (bool_decide (derivePath = ""%string)) (GoError "GenerateSharedKey: derivePath must be not empty") ;;
  fail_if (negb (slip21_IsValidPath derivePath)) (GoError "GenerateSharedKey: derivePath must be valid slip21 path") ;;
  aPrivKeyRaw ← PrivKey_Raw aPrivKey;
  let aPrivKeyCurve := Ed25519PrivateKeyToCurve25519 aPrivKeyRaw in
  bPubKeyRaw ← PubKey_Raw bPubKey;
  bPubKeyCurve ← Ed25519PublicKeyToCurve25519 bPubKeyRaw;
  shared ← curve25519_X25519 aPrivKeyCurve bPubKeyCurve;
  aPubKeyRaw ← PubKey_Raw (GetPublic aPrivKey);
  let ctx := buildSortedContext aPubKeyRaw bPubKeyRaw in
  seed ← hkdf_Read32 shared ctx;
  child ← slip21_Derive seed derivePath;
  let seed := go_copy seed child in
  Ok (mkPrivKey (ed25519_NewKeyFromSeed seed)).
End shared_key.

Definition AnysyncOneToOneSpacePath : string := "m/SLIP-0021/anysync/onetoone/0".
Definition AnysyncReadOneToOneSpacePath : string := "m/SLIP-0021/anysync/onetooneread".
Definition AnysyncMetadataOneToOnePath : string := "m/SLIP-0021/anysync/onetoonemeta".

Section apply.
Context `{CryptoPrims} `{AclCodec} `{SharedKeyPrims} `{MapRange}.
Implicit Types record : AclRecord.

Abbreviation M := (ST AclState).

Definition updatePermissions (identityKey : string) (permissions : AclPermissions) record
    : M unit :=
  assigns (fun st =>
    let state := default zeroAccountState (st_accountStates st !! identityKey) in
    put_account identityKey
      (with_PermissionChanges
         (as_PermissionChanges state ++ [mkPermissionChange (rec_Id record) permissions])
         (with_Permissions permissions state)) st).

Definition applyOwnershipChange (ch : AclOwnershipChange) record : M unit :=
  calls (fun st => ValidateOwnershipChange st ch (rec_Identity record)) ;;
  newOwnerIdentity ← lifts (pubKeyFromProto (owc_NewOwnerIdentity ch));
  let oldOwnerKey := mapKeyFromPubKey (rec_Identity record) in
  let newOwnerKey := mapKeyFromPubKey newOwnerIdentity in
  updatePermissions oldOwnerKey (owc_OldOwnerPermissions ch) record ;;
  updatePermissions newOwnerKey AclPermissionsOwner record.

Definition applyPermissionChange (ch : AclAccountPermissionChange) record : M unit :=
  chIdentity ← lifts (pubKeyFromProto (apc_Identity ch));
  calls (fun st => ValidatePermissionChange st ch (rec_Identity record)) ;;
  updatePermissions (mapKeyFromPubKey chIdentity) (apc_Permissions ch) record.

Definition applyPermissionChanges (changes : list AclAccountPermissionChange) record
    : M unit :=
  st_each (fun ch => applyPermissionChange ch record) changes.

Definition applyInviteChange (ch : AclAccountInviteChange) record : M unit :=
  calls (fun st => ValidateInviteChange st ch (rec_Identity record)) ;;
  assigns (fun st =>
    match st_invites st !! aic_InviteRecordId ch with
    | None => st
    | Some invite =>
        put_invite (aic_InviteRecordId ch) (with_invPermissions (aic_Permissions ch) invite) st
    end).

Definition applyInvite (ch : AclAccountInvite) record : M unit :=
  inviteKey ← lifts (pubKeyFromProto (ai_InviteKey ch));
  calls (fun st => ValidateInvite st ch (rec_Identity record)) ;;
  assigns (put_invite (rec_Id record)
    (mkInvite inviteKey (ai_InviteType ch) (ai_Permissions ch) (rec_Id record)
       (slice (ai_EncryptedReadKey ch)))).

Definition applyInviteRevoke (inviteRecordId : string) record : M unit :=
  calls (fun st => ValidateInviteRevoke st inviteRecordId (rec_Identity record)) ;;
  assigns (del_invite inviteRecordId).

Definition applyRequestJoin (ch : AclAccountRequestJoin) record : M unit :=
  calls (fun st => ValidateRequestJoin st ch (rec_Identity record)) ;;
  let pKeyString := mapKeyFromPubKey (rec_Identity record) in
  assigns (put_pending pKeyString (rec_Id record)) ;;
  keyId ← calls CurrentReadKeyId;
  assigns (put_request (rec_Id record)
    (mkRequestRecord (rec_Identity record) (arj_Metadata ch) keyId (rec_Id record)
       RequestTypeJoin)) ;;
  state ← reads (fun st => st_accountStates st !! pKeyString);
  assigns (put_account pKeyString
    (mkAccountState (Some (rec_Identity record)) AclPermissionsNone StatusJoining
       (arj_Metadata ch) keyId
       (match state with None => [] | Some state => as_PermissionChanges state end))).

(** ** Unpacking the chain of read keys *)

(** One iteration of the loop of [unpackAllKeys], from the newest change to the
    oldest: the metadata key and, but for the first change, the previous read
    key are decrypted with the current one. *)
Fixpoint unpackKeys (revChanges : list string) (iterReadKey : SymKey) : M unit :=
  match revChanges with
  | [] => mret tt
  | recId :: older =>
      keys ← reads (fun st => default zeroAclKeys (st_keys st !! recId));
      metadataKey ← lifts (unmarshallDecryptPrivKey (encryptedMetadataKey keys)
                             (SymKey_Decrypt iterReadKey));
      assigns (put_keys recId
        (with_MetadataPrivKey (Some metadataKey) (with_ReadKey (Some iterReadKey) keys))) ;;
      match older with
      | [] => mret tt
      | _ =>
          enc ← lifts (opt_or (encryptedPreviousReadKey keys) ErrIncorrectReadKey);
          oldReadKey ← lifts (unmarshallDecryptReadKey enc (SymKey_Decrypt iterReadKey));
          unpackKeys older oldReadKey
      end
  end.

Definition unpackAllKeys (encryptedReadKey : bytes) : M unit :=
  iterReadKey ← calls (fun st =>
    unmarshallDecryptReadKey encryptedReadKey (PrivKey_Decrypt (st_key st)));
  changes ← reads st_readKeyChanges;
  unpackKeys (rev changes) iterReadKey.

(** [if st.pubKey.Equals(identity) { st.unpackAllKeys(...) }] *)
Definition unpackIfOurs (identity : PubKey) (encryptedReadKey : bytes) : M unit :=
  ours ← reads (fun st => PubKey_Equals (st_pubKey st) identity);
  if (ours : bool) then unpackAllKeys encryptedReadKey else mret tt.

(** ** Accounts *)

Definition applyAddition (acc : AclAccountAdd) record : M unit :=
  identity ← lifts (pubKeyFromProto (aa_Identity acc));
  keyId ← calls CurrentReadKeyId;
  assigns (put_account (mapKeyFromPubKey identity)
    (mkAccountState (Some identity) (aa_Permissions acc) StatusActive (aa_Metadata acc) keyId
       [mkPermissionChange (rec_Id record) (aa_Permissions acc)])) ;;
  unpackIfOurs identity (aa_EncryptedReadKey acc).

Definition applyAccountsAdd (additions : list AclAccountAdd) record : M unit :=
  calls (fun st => ValidateAccountsAdd st additions (rec_Identity record)) ;;
  st_each (fun acc => applyAddition acc record) additions.

(** [permissionChanges] of an account that gets permissions back: its history, if
    it has an entry, and the new change. *)
Definition appendChange (state : option AccountState) (permissions : AclPermissions) record
    : list PermissionChange :=
  match state with
  | None => [mkPermissionChange (rec_Id record) permissions]
  | Some state =>
      as_PermissionChanges state ++ [mkPermissionChange (rec_Id record) permissions]
  end.

Definition applyRequestAccept (ch : AclAccountRequestAccept) record : M unit :=
  calls (fun st => ValidateRequestAccept st ch (rec_Identity record)) ;;
  acceptIdentity ← lifts (pubKeyFromProto (ara_Identity ch));
  request ← reads (fun st => st_requestRecords st !! ara_RequestRecordId ch);
  match request with
  | None => mret tt
  | Some requestRecord =>
      let pKeyString := mapKeyFromPubKey acceptIdentity in
      state ← reads (fun st => st_accountStates st !! pKeyString);
      assigns (put_account pKeyString
        (mkAccountState (Some acceptIdentity) (ara_Permissions ch) StatusActive
           (rr_RequestMetadata requestRecord) (rr_KeyRecordId requestRecord)
           (appendChange state (ara_Permissions ch) record))) ;;
      assigns (del_pending (mapKeyFromPubKey (rr_RequestIdentity requestRecord))) ;;
      assigns (del_request (ara_RequestRecordId ch)) ;;
      unpackIfOurs acceptIdentity (ara_EncryptedReadKey ch)
  end.

(** Forget the first request, in range order, of an identity. *)
Definition dropRequestOf (identity : PubKey) : M unit :=
  assigns (fun st =>
    match list_find (fun x => PubKey_Equals (rr_RequestIdentity x.2) identity = true)
            (map_range (st_requestRecords st)) with
    | None => st
    | Some (_, (_, rec)) =>
        del_request (rr_RecordId rec)
          (del_pending (mapKeyFromPubKey (rr_RequestIdentity rec)) st)
    end).

Definition applyInviteJoinWithoutApprove (ch : AclAccountInviteJoin) record : M unit :=
  calls (fun st => ValidateInviteJoin st ch (rec_Identity record)) ;;
  identity ← lifts (pubKeyFromProto (aij_Identity ch));
  invite ← reads (fun st => st_invites st !! aij_InviteRecordId ch);
  match invite with
  | None => mret tt
  | Some inviteRecord =>
      let permissions := if NoPermissions (aij_Permissions ch)
                         then inv_Permissions inviteRecord else aij_Permissions ch in
      let pKeyString := mapKeyFromPubKey identity in
      state ← reads (fun st => st_accountStates st !! pKeyString);
      keyId ← calls CurrentReadKeyId;
      assigns (put_account pKeyString
        (mkAccountState (Some identity) permissions StatusActive (aij_Metadata ch) keyId
           (appendChange state permissions record))) ;;
      dropRequestOf identity ;;
      unpackIfOurs identity (slice (aij_EncryptedReadKey ch))
  end.

Definition applyRequestDecline (requestRecordId : string) record : M unit :=
  calls (fun st => ValidateRequestDecline st requestRecordId (rec_Identity record)) ;;
  request ← reads (fun st => st_requestRecords st !! requestRecordId);
  match request with
  | None => mret tt
  | Some requestRecord =>
      let pk := mapKeyFromPubKey (rr_RequestIdentity requestRecord) in
      accSt ← calls (fun st => opt_or (st_accountStates st !! pk) ErrNoSuchAccount);
      assigns (put_account pk (with_Status StatusDeclined accSt)) ;;
      assigns (del_pending pk) ;;
      assigns (del_request requestRecordId)
  end.

Definition applyRequestCancel (recordId : string) record : M unit :=
  calls (fun st => ValidateRequestCancel st recordId (rec_Identity record)) ;;
  request ← reads (fun st => st_requestRecords st !! recordId);
  match request with
  | None => mret tt
  | Some rec =>
      let pk := mapKeyFromPubKey (rr_RequestIdentity rec) in
      accSt ← calls (fun st => opt_or (st_accountStates st !! pk) ErrNoSuchAccount);
      assigns (put_account pk
        (with_Status (match rr_Type rec with
                      | RequestTypeJoin => StatusCanceled
                      | RequestTypeRemove => StatusActive
                      end) accSt)) ;;
      assigns (del_pending pk) ;;
      assigns (del_request recordId)
  end.

(** The request is stored before the permission and the account are checked. *)
Definition applyRequestRemove record : M unit :=
  calls (fun st => ValidateRequestRemove st (rec_Identity record)) ;;
  let pk := mapKeyFromPubKey (rec_Identity record) in
  assigns (put_request (rec_Id record)
    (mkRequestRecord (rec_Identity record) "" "" (rec_Id record) RequestTypeRemove)) ;;
  assigns (put_pending pk (rec_Id record)) ;;
  found ← reads (fun st => st_accountStates st !! pk);
  let accSt := default zeroAccountState found in
  lifts (fail_if (negb (CanRequestRemove (as_Permissions accSt)))
           ErrInsufficientPermissions) ;;
  accSt ← lifts (opt_or found ErrNoSuchAccount);
  assigns (put_account pk (with_Status StatusRemoving accSt)).

(** ** Read key rotation *)

(** The new key of this account, if the change has an entry for it.  An identity
    that does not decode is a nil key, and comparing with it panics. *)
Fixpoint ownReadKey (key : PrivKey) (pub : PubKey) (acc : option SymKey)
    (ks : list AclEncryptedReadKey) : res (option SymKey) :=
  match ks with
  | [] => Ok acc
  | k :: ks =>
      match pubKeyFromProto (erk_Identity k) with
      | Err _ => Err (GoPanic "nil public key")
      | Ok identity =>
          if PubKey_Equals pub identity then
            r ← unmarshallDecryptReadKey (erk_EncryptedReadKey k) (PrivKey_Decrypt key);
            ownReadKey key pub (Some r) ks
          else ownReadKey key pub acc ks
      end
  end.

(** Hand the new key to the first invite, in range order, with the entry's key. *)
Definition updateInviteKey (encKey : AclEncryptedReadKey) : M unit :=
  invKey ← lifts (pubKeyFromProto (erk_Identity encKey));
  assigns (fun st =>
    match findInviteByKey st invKey with
    | None => st
    | Some (key, invite) =>
        put_invite key (with_invReadKey (erk_EncryptedReadKey encKey) invite) st
    end).

Definition applyReadKeyChange (ch : option AclReadKeyChange) record (validate : bool)
    : M unit :=
  (if validate
   then calls (fun st => ValidateReadKeyChange st ch (rec_Identity record))
   else mret tt) ;;
  assigns (fun st => set_readKeyChanges (st_readKeyChanges st ++ [rec_Id record]) st) ;;
  ch ← lifts (opt_or ch (GoPanic "nil AclReadKeyChange"));
  mkPub ← lifts (pubKeyFromProto (rkc_MetadataPubKey ch));
  rk ← calls (fun st => ownReadKey (st_key st) (st_pubKey st) None (rkc_AccountKeys ch));
  st_each updateInviteKey (rkc_InviteKeys ch) ;;
  mpriv ← lifts (match rk with
                 | None => Ok None
                 | Some readKey =>
                     k ← unmarshallDecryptPrivKey (slice (rkc_EncryptedMetadataPrivKey ch))
                           (SymKey_Decrypt readKey);
                     Ok (Some k)
                 end);
  assigns (put_keys (rec_Id record)
    (mkAclKeys rk mpriv (Some mkPub) (rkc_EncryptedOldReadKey ch)
       (slice (rkc_EncryptedMetadataPrivKey ch)))).

Definition applyRemoval (rawIdentity : bytes) record : M unit :=
  identity ← lifts (pubKeyFromProto rawIdentity);
  let idKey := mapKeyFromPubKey identity in
  accSt ← calls (fun st => opt_or (st_accountStates st !! idKey) ErrNoSuchAccount);
  assigns (put_account idKey
    (with_PermissionChanges
       (as_PermissionChanges accSt ++ [mkPermissionChange (rec_Id record) AclPermissionsNone])
       (with_Permissions AclPermissionsNone (with_Status StatusRemoved accSt)))) ;;
  pending ← reads (fun st => st_pendingRequests st !! idKey);
  match pending with
  | None => mret tt
  | Some recId => assigns (del_pending idKey) ;; assigns (del_request recId)
  end.

Definition applyAccountRemove (ch : AclAccountRemove) record : M unit :=
  calls (fun st => ValidateAccountRemove st ch (rec_Identity record)) ;;
  st_each (fun rawIdentity => applyRemoval rawIdentity record) (arm_Identities ch) ;;
  applyReadKeyChange (arm_ReadKeyChange ch) record false.

Definition applySpaceOptionsChange (options : option AclSpaceOptions) record : M unit :=
  calls (fun st => ValidateSpaceOptionsChange st (rec_Identity record)) ;;
  assigns (fun st =>
    set_optionChanges (st_optionChanges st ++ [mkOptionChange (rec_Id record) options]) st).

(** ** Records *)

Definition applyChangeContent (ch : AclContentValue) record : M unit :=
  match ch with
  | COwnershipChange ch => applyOwnershipChange ch record
  | CInviteChange ch => applyInviteChange ch record
  | CInviteJoin ch => applyInviteJoinWithoutApprove ch record
  | CPermissionChange ch => applyPermissionChange ch record
  | CInvite ch => applyInvite ch record
  | CInviteRevoke id => applyInviteRevoke id record
  | CRequestJoin ch => applyRequestJoin ch record
  | CRequestAccept ch => applyRequestAccept ch record
  | CRequestDecline id => applyRequestDecline id record
  | CRequestCancel id => applyRequestCancel id record
  | CAccountRemove ch => applyAccountRemove ch record
  | CReadKeyChange ch => applyReadKeyChange (Some ch) record true
  | CAccountRequestRemove => applyRequestRemove record
  | CAccountsAdd adds => applyAccountsAdd adds record
  | CPermissionChanges chs => applyPermissionChanges chs record
  | CSpaceOptionsChange o => applySpaceOptionsChange o record
  | CUnset => calls ValidateUnexpectedContent
  end.

Definition applyChangeData (data : AclData) record : M unit :=
  calls (fun st => ValidateAclData st data) ;;
  st_each (fun ch => applyChangeContent ch record) data.

(** The decoded content of a record that is not a root. *)
Definition recordData record : res AclData :=
  match rec_Model record with
  | ModelData data => Ok data
  | ModelRoot _ => Err (GoPanic "interface conversion")
  | ModelNil =>
      fail_if (bool_decide (String.length (rec_Data record) = 0%nat))
        ErrEmptyAclRecordData ;;
      AclData_UnmarshalVT (rec_Data record)
  end.

Definition ApplyRecord record : M unit :=
  calls (fun st => fail_if (st_isOneToOne st) ErrAddRecordOneToOne) ;;
  calls (fun st => fail_if (negb (bool_decide (st_lastRecordId st = rec_PrevId record)))
                     ErrIncorrectRecordSequence) ;;
  lifts (fail_if (bool_decide (rec_Id record = "")) ErrEmptyRecordId) ;;
  data ← lifts (recordData record);
  applyChangeData data record ;;
  assigns (set_lastRecordId (rec_Id record)).

(** ** The root record *)

(** [findMeAndValidateOneToOne] *)
Definition findMeAndValidateOneToOne (info : AclOneToOneInfo) (st : AclState) : res bool :=
  fail_if (negb (bool_decide (length (oto_Writers info) = 2%nat)))
    (GoError "AclRoot should have exactly two Writers") ;;
  fail_if (bool_decide (oto_Owner info = None)) (GoError "AclRoot Owner is empty") ;;
  myPubKeyBytes ← PubKey_Marshall (GetPublic (st_key st));
  Ok (bool_decide (myPubKeyBytes ∈ oto_Writers info)).

Definition deriveOneToOneKeys (rootId : string) (info : AclOneToOneInfo) : M unit :=
  st ← reads id;
  myPubKeyBytes ← lifts (PubKey_Marshall (GetPublic (st_key st)));
  let w0 := nth 0 (oto_Writers info) "" in
  let w1 := nth 1 (oto_Writers info) "" in
  let bobPubKeyBytes := if decide (myPubKeyBytes = w0) then w1 else w0 in
  bobPubKey ← lifts (UnmarshalEd25519PublicKeyProto bobPubKeyBytes);
  sharedKey ← lifts (GenerateSharedKey (st_key st) bobPubKey AnysyncOneToOneSpacePath);
  sharedPkBytes ← lifts (PubKey_Marshall (GetPublic sharedKey));
  lifts (fail_if (negb (bool_decide (slice (oto_Owner info) = sharedPkBytes)))
           (GoError "Owner pubkey != derived pubkey")) ;;
  sharedKeyBytes ← lifts (PrivKey_Raw sharedKey);
  readKey ← lifts (DeriveSymmetricKey sharedKeyBytes AnysyncReadOneToOneSpacePath);
  metadataSharedKey ← lifts (GenerateSharedKey (st_key st) bobPubKey
                               AnysyncMetadataOneToOnePath);
  metadataSharedKeyBytes ← lifts (PrivKey_Raw metadataSharedKey);
  encMetadataKey ← lifts (SymKey_Encrypt readKey metadataSharedKeyBytes);
  assigns (put_keys rootId
    (mkAclKeys (Some readKey) (Some metadataSharedKey) (Some (GetPublic metadataSharedKey))
       None encMetadataKey)).

Definition rootAccount (rootId : string) (pk : PubKey) (p : AclPermissions) (meta : bytes)
    : AccountState :=
  mkAccountState (Some pk) p StatusActive meta rootId [mkPermissionChange rootId p].

Definition addWriter (rootId : string) (writer : bytes) : M unit :=
  writerPk ← lifts (UnmarshalEd25519PublicKeyProto writer);
  assigns (put_account (mapKeyFromPubKey writerPk)
             (rootAccount rootId writerPk AclPermissionsWriter "")).

Definition setOneToOneAcl (rootId : string) (info : AclOneToOneInfo) : M unit :=
  foundMe ← calls (findMeAndValidateOneToOne info);
  (if (foundMe : bool) then deriveOneToOneKeys rootId info else mret tt) ;;
  sharedPk ← lifts (UnmarshalEd25519PublicKeyProto (slice (oto_Owner info)));
  assigns (put_account (mapKeyFromPubKey sharedPk)
             (rootAccount rootId sharedPk AclPermissionsOwner "")) ;;
  st_each (addWriter rootId) (oto_Writers info) ;;
  assigns (set_readKeyChanges [rootId]) ;;
  assigns (set_lastRecordId rootId) ;;
  assigns (set_isOneToOne true).

Definition saveKeysFromRoot (id : string) (root : AclRoot) : M unit :=
  aclKeys ← reads (fun st => default zeroAclKeys (st_keys st !! id));
  match root_EncryptedReadKey root with
  | None =>
      readKey ← calls deriveKey;
      assigns (put_keys id (with_ReadKey (Some readKey) aclKeys))
  | Some enc =>
      readKey ← calls (fun st => unmarshallDecryptReadKey enc (PrivKey_Decrypt (st_key st)));
      metadataKey ← lifts (unmarshallDecryptPrivKey (root_EncryptedMetadataPrivKey root)
                             (SymKey_Decrypt readKey));
      assigns (put_keys id
        (with_MetadataPrivKey (Some metadataKey) (with_ReadKey (Some readKey) aclKeys)))
  end.

Definition applyRoot record : M unit :=
  match rec_Model record with
  | ModelRoot root =>
      match root_OneToOneInfo root with
      | Some info => setOneToOneAcl (rec_Id record) info
      | None =>
          match root_EncryptedReadKey root with
          | Some _ =>
              mkPub ← lifts (pubKeyFromProto (root_MetadataPubKey root));
              assigns (put_keys (rec_Id record)
                (mkAclKeys None None (Some mkPub) None (root_EncryptedMetadataPrivKey root)))
          | None => assigns (put_keys (rec_Id record) zeroAclKeys)
          end ;;
          ours ← reads (fun st => PubKey_Equals (st_pubKey st) (rec_Identity record));
          (if (ours : bool) then saveKeysFromRoot (rec_Id record) root else mret tt) ;;
          assigns (set_readKeyChanges [rec_Id record]) ;;
          assigns (put_account (mapKeyFromPubKey (rec_Identity record))
            (rootAccount (rec_Id record) (rec_Identity record) AclPermissionsOwner
               (root_EncryptedOwnerMetadata root))) ;;
          assigns (set_lastRecordId (rec_Id record)) ;;
          match root_Options root with
          | None => mret tt
          | Some o => assigns (set_optionChanges [mkOptionChange (rec_Id record) (Some o)])
          end
      end
  | _ => lifts (Err ErrIncorrectRoot)
  end.

(** [newAclStateWithKeys]: an empty state and the root applied to it. *)
Definition emptyAclState (rootId : string) (key : PrivKey) (shouldValidate : bool) : AclState :=
  mkAclState rootId ∅ ∅ ∅ ∅ ∅ [] key (GetPublic key) "" (newContentValidator shouldValidate)
    [] false.

Definition newAclStateWithKeys (rootRecord : AclRecord) (key : PrivKey)
    (shouldValidate : bool) : res AclState :=
  match applyRoot rootRecord (emptyAclState (rec_Id rootRecord) key shouldValidate) with
  | (st, Ok _) => Ok st
  | (_, Err e) => Err e
  end.

(** [aclStateBuilder.Build]: the root, then every record in order. *)
Definition Build (records : list AclRecord) (key : PrivKey) (shouldValidate : bool)
    : res AclState :=
  match records with
  | [] => Err ErrIncorrectRecordSequence
  | root :: rest =>
      state ← newAclStateWithKeys root key shouldValidate;
      match st_each ApplyRecord rest state with
      | (st, Ok _) => Ok st
      | (_, Err e) => Err e
      end
  end.
End apply.

(** * What no record changes: the account keys a state was built for, its id, its
    validator and its one-to-one flag.  [keeps] is closed under the combinators of
    the state monad, and a hint database finds the proof for every operation. *)

(** Two states of the same account, list and verifier. *)
Definition same_setup (st st' : AclState) : Prop :=
  st_id st' = st_id st /\ st_key st' = st_key st /\ st_pubKey st' = st_pubKey st /\
  st_contentValidator st' = st_contentValidator st /\ st_isOneToOne st' = st_isOneToOne st.

#[global] Instance same_setup_preorder : PreOrder same_setup.
Proof. unfold same_setup. split; [done|]. intros x y z. naive_solver congruence. Qed.

(** An operation keeps the setup whether it succeeds or fails. *)
Definition keeps {A} (m : ST AclState A) : Prop := forall st, same_setup st (fst (m st)).

Lemma keeps_run {A} (m : ST AclState A) st st' r : keeps m -> m st = (st', r) -> same_setup st st'.
Proof. intros Hm Hrun. specialize (Hm st). by rewrite Hrun in Hm. Qed.

Lemma keeps_ret {A} (a : A) : keeps (mret a).
Proof. intros st. reflexivity. Qed.
Lemma keeps_reads {A} (f : AclState -> A) : keeps (reads f).
Proof. intros st. reflexivity. Qed.
Lemma keeps_calls {A} (f : AclState -> res A) : keeps (calls f).
Proof. intros st. reflexivity. Qed.
Lemma keeps_lifts {A} (r : res A) : keeps (lifts r).
Proof. intros st. reflexivity. Qed.
Lemma keeps_assigns f : (forall st, same_setup st (f st)) -> keeps (assigns f).
Proof. intros Hf st. apply Hf. Qed.

Lemma keeps_bind {A B} (m : ST AclState A) (f : A -> ST AclState B) :
  keeps m -> (forall a, keeps (f a)) -> keeps (m ≫= f).
Proof.
  intros Hm Hf st. unfold mbind, st_bind. specialize (Hm st).
  destruct (m st) as [s [a|e]]; simpl in *; [|done]. etrans; [done|]. apply Hf.
Qed.

Lemma keeps_each {A} (f : A -> ST AclState unit) l : (forall x, keeps (f x)) -> keeps (st_each f l).
Proof.
  intros Hf. induction l as [|x l IH]; simpl; [apply keeps_ret|]. apply keeps_bind; auto.
Qed.

Create HintDb acl_frame discriminated.
#[export] Hint Resolve keeps_ret keeps_reads keeps_calls keeps_lifts : acl_frame.

(** Decompose an operation down to assignments, each of which leaves the setup. *)
Ltac keeps_solve :=
  repeat first
    [ solve [auto with acl_frame]
    | match goal with
      | |- keeps (_ ≫= _) => apply keeps_bind; [|intros ?]
      | |- keeps (st_each _ _) => apply keeps_each; intros ?
      | |- keeps (assigns _) => apply keeps_assigns; intros ?
      end
    | done
    | case_match ].

Section frame.
Context `{CryptoPrims} `{AclCodec} `{SharedKeyPrims} `{MapRange}.

Lemma unpackKeys_keeps l k : keeps (unpackKeys l k).
Proof. revert k. induction l as [|id l IH]; intros k; simpl; keeps_solve. Qed.

Hint Resolve unpackKeys_keeps : acl_frame.

Lemma unpackIfOurs_keeps pk enc : keeps (unpackIfOurs pk enc).
Proof. unfold unpackIfOurs, unpackAllKeys. keeps_solve. Qed.

Lemma updatePermissions_keeps k p record : keeps (updatePermissions k p record).
Proof. unfold updatePermissions. keeps_solve. Qed.

Lemma applyReadKeyChange_keeps ch record v : keeps (applyReadKeyChange ch record v).
Proof. unfold applyReadKeyChange, updateInviteKey. keeps_solve. Qed.

Hint Resolve unpackIfOurs_keeps updatePermissions_keeps applyReadKeyChange_keeps : acl_frame.

Lemma applyChangeContent_keeps ch record : keeps (applyChangeContent ch record).
Proof.
  destruct ch; simpl;
    unfold applyInvite, applyInviteRevoke, applyRequestJoin, applyRequestAccept,
      applyAccountRemove, applyRemoval, applyRequestDecline, applyRequestRemove,
      applyPermissionChanges, applyPermissionChange, applyAccountsAdd, applyAddition,
      applyRequestCancel, applyInviteJoinWithoutApprove, dropRequestOf, applyInviteChange,
      applyOwnershipChange, applySpaceOptionsChange; keeps_solve.
Qed.

Lemma ApplyRecord_keeps record : keeps (ApplyRecord record).
Proof.
  pose proof applyChangeContent_keeps. unfold ApplyRecord, applyChangeData. keeps_solve.
Qed.
End frame.
