(* ===== verification/AclSpec.v ===== *)
(** What the ACL promises: an abstract machine over roles, open invites and
    pending requests, with one rule per kind of authorised change, and the
    properties of its runs.  [AclRefine] shows that applying validated records
    only makes steps of this machine. *)

From Stdlib Require Import ZArith Lia.
From stdpp Require Import base option list gmap strings relations.
From S2P Require Import Prelude AclModels.

Open Scope Z_scope.

(** Accounts are named by their map key; a missing account has no permissions. *)
Record Roles := mkRoles {
  roles : gmap string AclPermissions;
  (** anyone-can-join invites: record id -> granted permissions *)
  joinable : gmap string AclPermissions;
  (** pending requests: record id -> the account that asked *)
  requests : gmap string string;
}.

Definition role (r : Roles) (k : string) : AclPermissions :=
  default AclPermissionsNone (roles r !! k).

Definition set_roles (f : gmap string AclPermissions) (r : Roles) : Roles :=
  mkRoles f (joinable r) (requests r).

(** Assign a list of roles, left to right. *)
Definition assign_roles (l : list (string * AclPermissions))
    (m : gmap string AclPermissions) : gmap string AclPermissions :=
  foldl (fun m kp => <[kp.1 := kp.2]> m) m l.

(** A role an author may hand out: never owner, admin only by the owner. *)
Definition grantable (authorRole p : AclPermissions) : Prop :=
  IsOwner p = false /\ (IsAdmin p = true -> IsOwner authorRole = true).

(** A role an author may take away. *)
Definition revocable (authorRole p : AclPermissions) : Prop :=
  IsOwner p = false /\ (IsAdmin p = true -> IsOwner authorRole = true).

Inductive acl_step (author : string) (r : Roles) : Roles -> Prop :=
(** an admin changes the role of a member that is neither owner nor guest *)
| step_set k p :
    CanManageAccounts (role r author) = true ->
    revocable (role r author) (role r k) -> IsGuest (role r k) = false ->
    grantable (role r author) p ->
    acl_step author r (set_roles (<[k := p]> (roles r)) r)
(** the owner hands the space to a member and keeps a lesser role *)
| step_transfer k p :
    IsOwner (role r author) = true -> k <> author ->
    NoPermissions (role r k) = false -> IsOwner (role r k) = false ->
    IsOwner p = false -> NoPermissions p = false ->
    acl_step author r
      (set_roles (<[k := AclPermissionsOwner]> (<[author := p]> (roles r))) r)
(** an admin adds accounts that have no permissions *)
| step_add l :
    CanManageAccounts (role r author) = true ->
    Forall (fun kp => NoPermissions (role r kp.1) = true /\ NoPermissions kp.2 = false /\
                      grantable (role r author) kp.2) l ->
    acl_step author r (set_roles (assign_roles l (roles r)) r)
(** the author joins through an open invite, with at most what it grants *)
| step_join id q p reqs :
    joinable r !! id = Some q ->
    NoPermissions (role r author) = true ->
    (p = q \/ IsLessOrEqual p q = true /\ NoPermissions p = false) ->
    reqs ⊆ requests r ->
    acl_step author r (mkRoles (<[author := p]> (roles r)) (joinable r) reqs)
(** an admin answers a request of [k] *)
| step_accept id k p :
    CanManageAccounts (role r author) = true ->
    requests r !! id = Some k ->
    grantable (role r author) p ->
    acl_step author r (mkRoles (<[k := p]> (roles r)) (joinable r) (delete id (requests r)))
(** an admin removes other members *)
| step_remove ks reqs :
    CanManageAccounts (role r author) = true ->
    Forall (fun k => k <> author /\ NoPermissions (role r k) = false /\
                     revocable (role r author) (role r k)) ks ->
    reqs ⊆ requests r ->
    acl_step author r
      (mkRoles (assign_roles ((fun k => (k, AclPermissionsNone)) <$> ks) (roles r))
         (joinable r) reqs)
(** the author asks to join: it has no permissions and still has none *)
| step_request_join id :
    NoPermissions (role r author) = true ->
    acl_step author r
      (mkRoles (<[author := AclPermissionsNone]> (roles r)) (joinable r)
         (<[id := author]> (requests r)))
(** the author, a member but not the owner, asks to be removed *)
| step_request_remove id :
    NoPermissions (role r author) = false -> IsOwner (role r author) = false ->
    acl_step author r (mkRoles (roles r) (joinable r) (<[id := author]> (requests r)))
(** requests are withdrawn or declined *)
| step_forget reqs :
    reqs ⊆ requests r ->
    acl_step author r (mkRoles (roles r) (joinable r) reqs)
(** an admin opens an invite *)
| step_invite id p :
    CanManageAccounts (role r author) = true ->
    grantable (role r author) p -> NoPermissions p = false -> IsGuest p = false ->
    acl_step author r (mkRoles (roles r) (<[id := p]> (joinable r)) (requests r))
(** an admin closes an invite *)
| step_uninvite id :
    CanManageAccounts (role r author) = true ->
    acl_step author r (mkRoles (roles r) (delete id (joinable r)) (requests r)).

(** Runs: steps by any authors. *)
Definition acl_any_step (r r' : Roles) : Prop := exists author, acl_step author r r'.

(** ** Invariants *)

Definition one_owner (r : Roles) : Prop :=
  forall k1 k2, IsOwner (role r k1) = true -> IsOwner (role r k2) = true -> k1 = k2.

(** No open invite makes an owner or a guest, and every one grants something. *)
Definition invites_ok (r : Roles) : Prop :=
  forall id p, joinable r !! id = Some p ->
    IsOwner p = false /\ IsGuest p = false /\ NoPermissions p = false.

Definition acl_inv (r : Roles) : Prop := one_owner r /\ invites_ok r.

(** ** Helper lemmas *)

Lemma role_set f r k : role (set_roles f r) k = default AclPermissionsNone (f !! k).
Proof. done. Qed.

Lemma role_insert k p f k' j q :
  role (mkRoles (<[k := p]> f) j q) k' =
  if decide (k = k') then p else default AclPermissionsNone (f !! k').
Proof. unfold role. simpl. rewrite lookup_insert. by case_decide. Qed.

Lemma assign_roles_lookup l m k :
  assign_roles l m !! k = m !! k \/ exists p, (k, p) ∈ l /\ assign_roles l m !! k = Some p.
Proof.
  revert m. induction l as [|[k1 p1] l IH] using rev_ind; intros m; [by left|].
  replace (assign_roles (l ++ [(k1, p1)]) m) with (<[k1 := p1]> (assign_roles l m))
    by (unfold assign_roles; by rewrite foldl_app).
  destruct (decide (k1 = k)) as [->|Hne].
  - right. exists p1. rewrite lookup_insert_eq. split; [|done].
    apply elem_of_app. right. by apply list_elem_of_singleton.
  - rewrite lookup_insert_ne by done. destruct (IH m) as [->|(p & Hp & ->)].
    + by left.
    + right. exists p. split; [|done]. apply elem_of_app. by left.
Qed.

(** Assigning roles of which none is owner creates no owner. *)
Lemma assign_roles_owner l r j q k :
  Forall (fun kp => IsOwner kp.2 = false) l ->
  IsOwner (role (mkRoles (assign_roles l (roles r)) j q) k) = true ->
  IsOwner (role r k) = true.
Proof.
  intros Hl Hk. unfold role in *. simpl in *.
  destruct (assign_roles_lookup l (roles r) k) as [Heq|(p & Hp & Heq)]; rewrite Heq in Hk; [done|].
  rewrite Forall_forall in Hl. apply Hl in Hp. simpl in *. congruence.
Qed.

Lemma invites_ok_sub r j :
  invites_ok r -> j ⊆ joinable r -> forall f q, invites_ok (mkRoles f j q).
Proof. intros Hok Hj f q id p Hp. apply (Hok id). by eapply lookup_weaken. Qed.

(** ** Preservation *)

(** A grant of a non-owner role creates no owner. *)
Lemma one_owner_insert r k p j q :
  one_owner r -> IsOwner p = false -> one_owner (mkRoles (<[k := p]> (roles r)) j q).
Proof.
  intros Hone Hp k1 k2. rewrite !role_insert. intros H1 H2. apply Hone; unfold role;
    repeat case_decide; congruence.
Qed.

Lemma join_not_owner (p q : AclPermissions) :
  IsOwner q = false -> p = q \/ IsLessOrEqual p q = true /\ NoPermissions p = false ->
  IsOwner p = false.
Proof. intros Hq [->|[Hle _]]; [done|]. by apply IsLessOrEqual_grantable in Hle as []. Qed.

Lemma transfer_owner author k p r x :
  one_owner r -> IsOwner (role r author) = true -> IsOwner p = false ->
  IsOwner (role (set_roles (<[k := AclPermissionsOwner]> (<[author := p]> (roles r))) r) x) = true ->
  x = k.
Proof.
  intros Hone Ha Hp. rewrite role_set, !lookup_insert.
  case_decide; [done|]. case_decide as Hx; simpl; [congruence|].
  intros Hown. destruct Hx. by apply Hone.
Qed.

Lemma acl_step_one_owner author r r' : acl_inv r -> acl_step author r r' -> one_owner r'.
Proof.
  intros [Hone Hinv] Hstep. destruct Hstep as [k p ? Hrev ? [Hp _]|k p Ha Hne ? Hk Hp ?|l ? Hl
    |id q p reqs Hj ? Hpq ?|id k p ? ? [Hp _]|ks reqs ? Hks ?|id Hn|id ? ?|reqs ?|id p ? ? ? ?|id ?].
  - by apply one_owner_insert.
  - intros k1 k2 Hk1 Hk2. by rewrite (transfer_owner author k p r k1), (transfer_owner author k p r k2).
  - intros k1 k2 Hk1 Hk2. apply Hone; [revert Hk1|revert Hk2];
      apply assign_roles_owner; eapply Forall_impl; try done; simpl; unfold grantable; naive_solver.
  - apply one_owner_insert; [done|]. apply (join_not_owner p q); [|done].
    by apply Hinv in Hj as [].
  - by apply one_owner_insert.
  - intros k1 k2 Hk1 Hk2. apply Hone; [revert Hk1|revert Hk2];
      apply assign_roles_owner, Forall_fmap, Forall_true; intros; done.
  - by apply one_owner_insert.
  - done.
  - done.
  - done.
  - done.
Qed.

Lemma acl_step_invites author r r' : invites_ok r -> acl_step author r r' -> invites_ok r'.
Proof.
  intros Hinv Hstep.
  destruct Hstep as [| | | | | | | | |id p ? [Hp _] Hn Hg|id ?]; try done;
    try (by eapply invites_ok_sub; [done|reflexivity]).
  - intros id' q. simpl. rewrite lookup_insert. case_decide; [naive_solver|apply Hinv].
  - eapply invites_ok_sub; [done|]. apply delete_subseteq.
Qed.

Lemma acl_step_inv author r r' : acl_inv r -> acl_step author r r' -> acl_inv r'.
Proof.
  intros Hr Hstep. split; [by eapply acl_step_one_owner|].
  by eapply acl_step_invites; [apply Hr|].
Qed.

Lemma rtc_acl_inv author r r' : rtc (acl_step author) r r' -> acl_inv r -> acl_inv r'.
Proof. induction 1; eauto using acl_step_inv. Qed.

(** ** What one step can do to an account *)

(** Only managers touch others: a step by an author without the right to manage
    accounts changes no role but the author's own. *)
Lemma acl_step_self_only author r r' k :
  acl_step author r r' -> CanManageAccounts (role r author) = false -> k <> author ->
  role r' k = role r k.
Proof.
  intros Hstep Hm Hne. destruct Hstep; try congruence; try done;
    try (rewrite role_insert, decide_False by done; done).
  perm_unfold. lia.
Qed.

Lemma assign_roles_role l r j q k :
  role (mkRoles (assign_roles l (roles r)) j q) k = role r k \/
  exists p, (k, p) ∈ l /\ role (mkRoles (assign_roles l (roles r)) j q) k = p.
Proof.
  unfold role. simpl. destruct (assign_roles_lookup l (roles r) k) as [->|(p & ? & ->)];
    [by left|]. right. by exists p.
Qed.

(** How a step can give [k] a role other than the one it had. *)
Lemma acl_step_change author r r' k :
  acl_step author r r' ->
  role r' k = role r k \/
  (grantable (role r author) (role r' k) /\ CanManageAccounts (role r author) = true) \/
  (k = author /\ exists id q, joinable r !! id = Some q /\
     (role r' k = q \/ IsLessOrEqual (role r' k) q = true)) \/
  (IsOwner (role r author) = true).
Proof.
  intros Hstep.
  assert (Hnone : grantable (role r author) AclPermissionsNone) by done.
  destruct Hstep as [k' p ? ? ? ?|k' p ? ? ? ? ? ?|l ? Hl|id q p reqs Hj ? Hpq ?
    |id k' p ? ? ?|ks reqs ? Hks ?|id Hn|id ? ?|reqs ?|id p ? ? ? ?|id ?];
    try (by left); try (by do 3 right).
  - unfold set_roles. rewrite role_insert. case_decide; [naive_solver|by left].
  - unfold set_roles. destruct (assign_roles_role l r (joinable r) (requests r) k)
      as [Heq|(p & Hp & Heq)]; rewrite Heq; [by left|].
    rewrite Forall_forall in Hl. apply Hl in Hp. naive_solver.
  - rewrite role_insert. case_decide; [|by left]. subst. do 2 right. left.
    split; [done|]. exists id, q. naive_solver.
  - rewrite role_insert. case_decide; [naive_solver|by left].
  - destruct (assign_roles_role ((fun k => (k, AclPermissionsNone)) <$> ks) r (joinable r) reqs k)
      as [Heq|(p & Hp & Heq)]; rewrite Heq; [by left|].
    apply list_elem_of_fmap in Hp as (? & [= -> ->] & _). naive_solver.
  - rewrite role_insert. case_decide; [|by left]. subst. left.
    unfold role in Hn. unfold role. perm_unfold. lia.
Qed.

(** Admins are made by the owner: when a step turns [k] into an admin, the author
    is the owner, or [k] is the author and joined through an invite that grants
    the admin role. *)
Lemma acl_step_new_admin author r r' k :
  acl_step author r r' -> IsAdmin (role r k) = false -> IsAdmin (role r' k) = true ->
  IsOwner (role r author) = true \/
  (k = author /\ exists id q, joinable r !! id = Some q /\ IsAdmin q = true).
Proof.
  intros Hstep Hk Hk'.
  destruct (acl_step_change _ _ _ k Hstep) as [Heq|[[[_ Hg] _]|[(-> & id & q & Hj & Hq)|?]]].
  - congruence.
  - left. by apply Hg.
  - right. split; [done|]. exists id, q. split; [done|].
    destruct Hq as [<-|Hle]; [done|]. by eapply IsLessOrEqual_admin.
  - by left.
Qed.

(** An invite that grants the admin role is opened by the owner. *)
Lemma acl_step_new_admin_invite author r r' id p :
  acl_step author r r' -> joinable r' !! id = Some p -> IsAdmin p = true ->
  joinable r !! id = Some p \/ IsOwner (role r author) = true.
Proof.
  intros Hstep Hj Hp. destruct Hstep as [| | | | | | | | |id' p' ? [_ Hg] ? ?|id' ?];
    simpl in Hj; try (by left).
  - apply lookup_insert_Some in Hj as [[-> ->]|[_ Hj]]; [right; by apply Hg|by left].
  - left. apply lookup_delete_Some in Hj as [_ Hj]. done.
Qed.

(** The owner stays, hands the space over, or has a request that an admin
    answers; no other step unseats it. *)
Lemma acl_step_owner author r r' k :
  acl_inv r -> acl_step author r r' -> IsOwner (role r k) = true ->
  IsOwner (role r' k) = true \/
  (author = k /\ exists k', k' <> k /\ IsOwner (role r' k') = true) \/
  (exists id, requests r !! id = Some k).
Proof.
  intros [Hone _] Hstep Hk.
  destruct Hstep as [k' p ? [Hrev _] ? ?|k' p Ha ? ? ? ? ?|l ? Hl|id q p reqs Hj Hn Hpq ?
    |id k' p ? Hreq ?|ks reqs ? Hks ?|id Hn|id ? ?|reqs ?|id p ? ? ? ?|id ?];
    try (by left).
  - left. unfold set_roles. rewrite role_insert. case_decide; [congruence|done].
  - right. left. split; [by apply Hone|]. exists k'. split.
    + intros ->. congruence.
    + unfold set_roles. by rewrite role_insert, decide_True.
  - left. unfold set_roles. destruct (assign_roles_role l r (joinable r) (requests r) k)
      as [Heq|(p & Hp & Heq)]; [by rewrite Heq|].
    rewrite Forall_forall in Hl. apply Hl in Hp as [Hn _]. simpl in Hn. perm_unfold. lia.
  - left. rewrite role_insert. case_decide; [subst; perm_unfold; lia|done].
  - destruct (decide (k' = k)) as [->|]; [by right; right; exists id|].
    left. by rewrite role_insert, decide_False.
  - left. destruct (assign_roles_role ((fun k => (k, AclPermissionsNone)) <$> ks) r (joinable r) reqs k)
      as [Heq|(p & Hp & Heq)]; [by rewrite Heq|].
    apply list_elem_of_fmap in Hp as (? & [= -> ->] & Hin).
    rewrite Forall_forall in Hks. apply Hks in Hin as (_ & _ & [Hno _]). congruence.
  - left. rewrite role_insert. case_decide; [subst; perm_unfold; lia|done].
Qed.

(** Requests are made in one's own name only. *)
Lemma acl_step_requests author r r' id k :
  acl_step author r r' -> requests r' !! id = Some k ->
  requests r !! id = Some k \/ k = author.
Proof.
  intros Hstep Hreq. destruct Hstep; simpl in Hreq; try (by left);
    try (left; by eapply lookup_weaken).
  - left. by apply lookup_delete_Some in Hreq as [_ ?].
  - apply lookup_insert_Some in Hreq as [[_ <-]|[_ ?]]; auto.
  - apply lookup_insert_Some in Hreq as [[_ <-]|[_ ?]]; auto.
Qed.

(** ** What a whole run of one author can do *)

Lemma acl_step_author_owner author r r' :
  invites_ok r -> acl_step author r r' ->
  IsOwner (role r' author) = true -> IsOwner (role r author) = true.
Proof.
  intros Hok Hstep Ho.
  destruct (acl_step_change _ _ _ author Hstep) as [Heq|[[[Hg _] _]|[(_ & id & q & Hj & Hq)|?]]];
    [congruence|congruence| |done].
  apply Hok in Hj as (Hno & _). destruct Hq as [Hq|[Hle _]%IsLessOrEqual_grantable]; congruence.
Qed.

Lemma rtc_new_admin author r r' k :
  rtc (acl_step author) r r' -> acl_inv r ->
  IsAdmin (role r k) = false -> IsAdmin (role r' k) = true ->
  IsOwner (role r author) = true \/
  (k = author /\ exists id q, joinable r !! id = Some q /\ IsAdmin q = true).
Proof.
  induction 1 as [|r r1 r' Hstep Hrun IH]; intros Hinv Hk Hk'; [congruence|].
  destruct (IsAdmin (role r1 k)) eqn:Hk1; [by eapply acl_step_new_admin|].
  destruct IH as [Ho|(-> & id & q & Hj & Hq)]; [by eapply acl_step_inv|done|done| |].
  - left. eapply acl_step_author_owner; [apply Hinv|done|done].
  - destruct (acl_step_new_admin_invite _ _ _ _ _ Hstep Hj Hq); [right|by left].
    split; [done|]. by exists id, q.
Qed.

Lemma rtc_owner author r r' k :
  rtc (acl_step author) r r' -> acl_inv r -> IsOwner (role r k) = true ->
  IsOwner (role r' k) = true \/ author = k \/ (exists id, requests r !! id = Some k).
Proof.
  induction 1 as [|r r1 r' Hstep Hrun IH]; intros Hinv Hk; [by left|].
  destruct (acl_step_owner _ _ _ _ Hinv Hstep Hk) as [Hk1|[[<- _]|?]]; [|naive_solver..].
  destruct IH as [?|[?|[id Hid]]]; [by eapply acl_step_inv|done|by left|by right; left|].
  destruct (acl_step_requests _ _ _ _ _ Hstep Hid) as [?| ->]; naive_solver.
Qed.

(** A member without management rights, when no invite grants the admin role. *)
Definition powerless (author : string) (r : Roles) : Prop :=
  CanManageAccounts (role r author) = false /\
  forall id q, joinable r !! id = Some q -> IsAdmin q = false.

Lemma acl_step_powerless author r r' :
  invites_ok r -> acl_step author r r' -> powerless author r -> powerless author r'.
Proof.
  intros Hok Hstep [Hm Hadm]. split.
  - destruct (acl_step_change _ _ _ author Hstep) as [Heq|[[_ Hc]|[(_ & id & q & Hj & Hq)|Ho]]];
      [congruence|congruence| |perm_unfold; lia].
    pose proof (Hok _ _ Hj) as (Hno & _). apply Hadm in Hj.
    destruct Hq as [Heq|Hle]; [rewrite Heq; perm_unfold; lia|].
    pose proof (IsLessOrEqual_grantable _ _ Hle) as [? _].
    destruct (IsAdmin (role r' author)) eqn:Ha; [|perm_unfold; lia].
    rewrite (IsLessOrEqual_admin _ _ Hle Ha) in Hj. done.
  - intros id q Hj. destruct (IsAdmin q) eqn:Hq; [|done].
    destruct (acl_step_new_admin_invite _ _ _ _ _ Hstep Hj Hq) as [Hj'|Ho].
    + by rewrite <- Hq, (Hadm _ _ Hj').
    + perm_unfold. lia.
Qed.

Lemma rtc_powerless author r r' k :
  rtc (acl_step author) r r' -> acl_inv r -> powerless author r -> k <> author ->
  role r' k = role r k.
Proof.
  induction 1 as [|r r1 r' Hstep Hrun IH]; intros Hinv Hp Hne; [done|].
  rewrite IH; [|by eapply acl_step_inv|by eapply acl_step_powerless; [apply Hinv| |]|done].
  eapply acl_step_self_only; [done|apply Hp|done].
Qed.
