(* ===== verification/AclRefine.v ===== *)
(** The ACL code implements the abstract machine of [AclSpec]: every record the
    validator lets through makes only authorised steps, so the invariants of the
    abstract machine hold of every state the code reaches. *)

From Stdlib Require Import ZArith Lia.
From stdpp Require Import base option list gmap strings relations sorting.
From S2P Require Import Prelude Crypto AclModels AclState AclValidator AclApply AclSpec.

Open Scope Z_scope.

(** ** The abstraction *)

Definition joinPermission (inv : Invite) : option AclPermissions :=
  if inv_Type inv =? AclInviteType_AnyoneCanJoin then Some (inv_Permissions inv) else None.

Definition requestKey (rec : RequestRecord) : string :=
  mapKeyFromPubKey (rr_RequestIdentity rec).

Definition abs (st : AclState) : Roles :=
  mkRoles (as_Permissions <$> st_accountStates st) (omap joinPermission (st_invites st))
    (requestKey <$> st_requestRecords st).

(** The validator is the same object throughout a state's life. *)
Definition same_validator (st st' : AclState) : Prop :=
  st_contentValidator st' = st_contentValidator st.

Lemma abs_role st pk : role (abs st) (mapKeyFromPubKey pk) = Permissions st pk.
Proof. unfold role, Permissions. simpl. rewrite lookup_fmap. by destruct (_ !! _). Qed.

Lemma abs_put_account k a st :
  abs (put_account k a st) = set_roles (<[k := as_Permissions a]> (roles (abs st))) (abs st).
Proof. unfold abs, put_account, set_roles. simpl. by rewrite fmap_insert. Qed.

Lemma abs_put_request k rec st :
  abs (put_request k rec st) =
  mkRoles (roles (abs st)) (joinable (abs st)) (<[k := requestKey rec]> (requests (abs st))).
Proof. unfold abs, put_request. simpl. by rewrite fmap_insert. Qed.

Lemma abs_del_request k st :
  abs (del_request k st) =
  mkRoles (roles (abs st)) (joinable (abs st)) (delete k (requests (abs st))).
Proof. unfold abs, del_request. simpl. by rewrite fmap_delete. Qed.

Lemma abs_put_invite k inv st :
  abs (put_invite k inv st) =
  mkRoles (roles (abs st))
    (match joinPermission inv with
     | Some p => <[k := p]> (joinable (abs st))
     | None => delete k (joinable (abs st))
     end) (requests (abs st)).
Proof.
  unfold abs, put_invite. simpl. f_equal.
  destruct (joinPermission inv) eqn:E; [by apply omap_insert_Some|by apply omap_insert_None].
Qed.

Lemma abs_del_invite k st :
  abs (del_invite k st) =
  mkRoles (roles (abs st)) (delete k (joinable (abs st))) (requests (abs st)).
Proof. unfold abs, del_invite. simpl. by rewrite omap_delete. Qed.

(** An assignment that does not change the abstract value of an entry. *)
Lemma roles_insert_id st k a :
  st_accountStates st !! k = Some a -> <[k := as_Permissions a]> (roles (abs st)) = roles (abs st).
Proof. intros Hk. apply insert_id. simpl. by rewrite lookup_fmap, Hk. Qed.

Lemma Roles_eta r : mkRoles (roles r) (joinable r) (requests r) = r.
Proof. by destruct r. Qed.

Lemma abs_set_keys ks st : abs (set_keys ks st) = abs st.
Proof. done. Qed.

Lemma abs_put_pending k v st : abs (put_pending k v st) = abs st.
Proof. done. Qed.

Lemma abs_del_pending k st : abs (del_pending k st) = abs st.
Proof. done. Qed.

Lemma abs_set_readKeyChanges l st : abs (set_readKeyChanges l st) = abs st.
Proof. done. Qed.

Lemma abs_put_keys k v st : abs (put_keys k v st) = abs st.
Proof. done. Qed.

Create HintDb acl_abs discriminated.
#[export] Hint Rewrite abs_set_keys abs_put_pending abs_del_pending abs_set_readKeyChanges
  abs_put_keys abs_put_account abs_put_request abs_del_request abs_put_invite
  abs_del_invite : acl_abs.

(** Compute the abstraction of an updated state. *)
Ltac abs_simpl := autorewrite with acl_abs; unfold set_roles; 
  cbn [roles joinable requests as_Permissions with_Status with_PermissionChanges with_Permissions].

Section refine.
Context `{CryptoPrims} `{AclCodec} `{SharedKeyPrims} `{MapRange}.
Implicit Types (st : AclState) (record : AclRecord).

Definition authorKey record : string := mapKeyFromPubKey (rec_Identity record).

(** One content value simulates a run of the abstract machine by its author. *)
Definition simulates record st st' : Prop :=
  rtc (acl_step (authorKey record)) (abs st) (abs st') /\ same_validator st st'.

Lemma simulates_refl record st : simulates record st st.
Proof. by split. Qed.

Lemma simulates_trans record st1 st2 st3 :
  simulates record st1 st2 -> simulates record st2 st3 -> simulates record st1 st3.
Proof.
  intros [? Hv1] [? Hv2]. split; [by etrans|].
  unfold same_validator in *. congruence.
Qed.

Lemma simulates_step record st st' :
  acl_step (authorKey record) (abs st) (abs st') -> same_validator st st' ->
  simulates record st st'.
Proof. intros. split; [by apply rtc_once|done]. Qed.

(** ** Operations that touch only keys *)

Lemma unpackKeys_frame revChanges k st st' :
  unpackKeys revChanges k st = (st', Ok tt) -> exists ks, st' = set_keys ks st.
Proof.
  revert k st. induction revChanges as [|recId older IH]; intros k st; simpl.
  - intros [= <-]. exists (st_keys st). by destruct st.
  - intros Hrun. go_inv. destruct older as [|o older].
    + go_inv. eexists. reflexivity.
    + go_inv. apply IH in Hrun as [ks ->]. by exists ks.
Qed.

Lemma unpackIfOurs_frame identity enc st st' :
  unpackIfOurs identity enc st = (st', Ok tt) -> exists ks, st' = set_keys ks st.
Proof.
  unfold unpackIfOurs. intros Hrun. go_inv. destruct (PubKey_Equals _ _).
  - unfold unpackAllKeys in Hrun. go_inv. by eapply unpackKeys_frame.
  - go_inv. exists (st_keys st). by destruct st.
Qed.

(** ** One lemma per operation *)

Lemma updatePermissions_abs k p record st st' :
  updatePermissions k p record st = (st', Ok tt) ->
  abs st' = set_roles (<[k := p]> (roles (abs st))) (abs st) /\ same_validator st st'.
Proof.
  unfold updatePermissions. intros Hrun. go_inv. split; [|done].
  by rewrite abs_put_account.
Qed.

Lemma applyPermissionChange_sim ch record st st' :
  ShouldValidate st = true ->
  applyPermissionChange ch record st = (st', Ok tt) -> simulates record st st'.
Proof.
  intros HV Hrun. unfold applyPermissionChange in Hrun. run_inv.
  apply updatePermissions_abs in Hrun as [Habs ?]. apply simulates_step; [|done].
  rewrite Habs.
  match goal with Ha : st_accountStates st !! mapKeyFromPubKey ?pk = Some ?acc |- _ =>
    assert (Permissions st pk = as_Permissions acc) as Hcur
      by (unfold Permissions; by rewrite Ha) end.
  apply step_set; unfold revocable, grantable, authorKey; rewrite ?abs_role, ?Hcur;
    perm_solve.
Qed.

Lemma ShouldValidate_same st st' :
  same_validator st st' -> ShouldValidate st' = ShouldValidate st.
Proof. unfold same_validator, ShouldValidate. by intros ->. Qed.

(** A loop of simulating operations simulates. *)
Lemma st_each_sim {A} (f : A -> ST AclState unit) (l : list A) record st st' :
  (forall x st st', ShouldValidate st = true -> f x st = (st', Ok tt) ->
    simulates record st st') ->
  ShouldValidate st = true -> st_each f l st = (st', Ok tt) -> simulates record st st'.
Proof.
  intros Hf HV Hrun.
  apply (st_each_ind (fun s => simulates record st s) f l st st' tt); [|done|apply simulates_refl].
  intros x s s' _ Hx Hs. eapply simulates_trans; [done|]. apply (Hf x); [|done].
  destruct Hs as [_ Hs]. by rewrite (ShouldValidate_same st s).
Qed.

Lemma applyPermissionChanges_sim chs record st st' :
  ShouldValidate st = true ->
  applyPermissionChanges chs record st = (st', Ok tt) -> simulates record st st'.
Proof. intros HV. apply st_each_sim; eauto using applyPermissionChange_sim. Qed.

Lemma applyOwnershipChange_sim ch record st st' :
  ShouldValidate st = true ->
  applyOwnershipChange ch record st = (st', Ok tt) -> simulates record st st'.
Proof.
  intros HV Hrun. unfold applyOwnershipChange in Hrun. run_inv.
  repeat match goal with Hu : updatePermissions _ _ _ _ = _ |- _ =>
    apply updatePermissions_abs in Hu as [? ?] end.
  apply simulates_step; [|unfold same_validator in *; congruence].
  match goal with
  | Ha : abs st' = set_roles _ (abs ?s), Hs : abs ?s = _ |- _ => rewrite Ha, Hs
  end.
  apply (step_transfer _ (abs st)); unfold authorKey; rewrite ?abs_role; try done.
  intros ->%mapKeyFromPubKey_inj. congruence.
Qed.

Lemma applyInvite_sim ch record st st' :
  ShouldValidate st = true ->
  applyInvite ch record st = (st', Ok tt) -> simulates record st st'.
Proof.
  intros HV Hrun. unfold applyInvite in Hrun. run_inv.
  apply simulates_step; [|done]. rewrite abs_put_invite. unfold joinPermission. simpl.
  destruct (ai_InviteType ch =? AclInviteType_AnyoneCanJoin).
  - unfold checkInvitePermissions in *. run_inv.
    apply step_invite; unfold grantable, authorKey; rewrite ?abs_role; perm_solve.
  - apply step_uninvite. unfold authorKey. by rewrite abs_role.
Qed.

Lemma applyInviteChange_sim ch record st st' :
  ShouldValidate st = true ->
  applyInviteChange ch record st = (st', Ok tt) -> simulates record st st'.
Proof.
  intros HV Hrun. unfold applyInviteChange in Hrun. run_inv.
  unfold checkInvitePermissions in *. run_inv.
  match goal with Hi : st_invites st !! _ = Some _ |- _ => rewrite Hi end.
  apply simulates_step; [|done]. rewrite abs_put_invite. unfold joinPermission. simpl.
  match goal with Ht : (_ =? AclInviteType_AnyoneCanJoin) = true |- _ => rewrite Ht end.
  apply step_invite; unfold grantable, authorKey; rewrite ?abs_role; perm_solve.
Qed.

Lemma applyInviteRevoke_sim id record st st' :
  ShouldValidate st = true ->
  applyInviteRevoke id record st = (st', Ok tt) -> simulates record st st'.
Proof.
  intros HV Hrun. unfold applyInviteRevoke in Hrun. run_inv.
  apply simulates_step; [|done]. rewrite abs_del_invite.
  apply step_uninvite. unfold authorKey. by rewrite abs_role.
Qed.

Lemma applyRequestJoin_sim ch record st st' :
  ShouldValidate st = true ->
  applyRequestJoin ch record st = (st', Ok tt) -> simulates record st st'.
Proof.
  intros HV Hrun. unfold applyRequestJoin in Hrun. run_inv.
  apply simulates_step; [|done]. rewrite abs_put_account, abs_put_request.
  apply (step_request_join _ (abs st)). unfold authorKey. by rewrite abs_role.
Qed.

Lemma applyRequestRemove_sim record st st' :
  ShouldValidate st = true ->
  applyRequestRemove record st = (st', Ok tt) -> simulates record st st'.
Proof.
  intros HV Hrun. unfold applyRequestRemove in Hrun. run_inv.
  apply simulates_step; [|done]. rewrite abs_put_account. unfold set_roles. simpl.
  match goal with Ha : st_accountStates _ !! _ = Some ?acc |- _ =>
    replace (<[_ := as_Permissions _]> _) with (roles (abs st))
      by (symmetry; by apply (roles_insert_id st _ acc)) end.
  rewrite fmap_insert. apply (step_request_remove _ (abs st)); unfold authorKey;
    by rewrite abs_role.
Qed.

Lemma applyRequestAccept_sim ch record st st' :
  ShouldValidate st = true ->
  applyRequestAccept ch record st = (st', Ok tt) -> simulates record st st'.
Proof.
  intros HV Hrun. unfold applyRequestAccept in Hrun. run_inv.
  match goal with Hr : st_requestRecords st !! _ = Some _ |- _ => rewrite Hr in Hrun; rename Hr into Hreq end.
  run_inv. apply unpackIfOurs_frame in Hrun as [ks ->].
  apply simulates_step; [|done]. abs_simpl.
  apply (step_accept _ (abs st)); unfold grantable, authorKey; rewrite ?abs_role; try perm_solve.
  simpl. by rewrite lookup_fmap, Hreq.
Qed.

(** Declining and cancelling drop one request and change no role. *)
Lemma forget_request_sim record st pk acc s id :
  st_accountStates st !! pk = Some acc ->
  simulates record st (del_request id (del_pending pk (put_account pk (with_Status s acc) st))).
Proof.
  intros Hacc. apply simulates_step; [|done].
  abs_simpl.
  rewrite (roles_insert_id st pk acc) by done.
  apply (step_forget _ (abs st)), delete_subseteq.
Qed.

Lemma applyRequestDecline_sim id record st st' :
  ShouldValidate st = true ->
  applyRequestDecline id record st = (st', Ok tt) -> simulates record st st'.
Proof.
  intros HV Hrun. unfold applyRequestDecline in Hrun. run_inv.
  match goal with Hr : st_requestRecords st !! _ = Some _ |- _ => rewrite Hr in Hrun end.
  run_inv. by apply forget_request_sim.
Qed.

Lemma applyRequestCancel_sim id record st st' :
  ShouldValidate st = true ->
  applyRequestCancel id record st = (st', Ok tt) -> simulates record st st'.
Proof.
  intros HV Hrun. unfold applyRequestCancel in Hrun. run_inv.
  match goal with Hr : st_requestRecords st !! _ = Some _ |- _ => rewrite Hr in Hrun end.
  run_inv. by apply forget_request_sim.
Qed.
Lemma dropRequestOf_abs identity st st' :
  dropRequestOf identity st = (st', Ok tt) ->
  exists reqs, reqs ⊆ requests (abs st) /\
    abs st' = mkRoles (roles (abs st)) (joinable (abs st)) reqs /\ same_validator st st'.
Proof.
  unfold dropRequestOf. intros Hrun. go_inv.
  destruct (list_find _ _) as [[? [? rec]]|].
  - eexists. abs_simpl. split; [apply delete_subseteq|done].
  - exists (requests (abs st)). by rewrite Roles_eta.
Qed.

Lemma applyInviteJoin_sim ch record st st' :
  ShouldValidate st = true ->
  applyInviteJoinWithoutApprove ch record st = (st', Ok tt) -> simulates record st st'.
Proof.
  intros HV Hrun. unfold applyInviteJoinWithoutApprove in Hrun. run_inv.
  match goal with Hi : st_invites st !! _ = Some ?i |- _ =>
    rewrite Hi in Hrun; rename Hi into Hinv; rename i into invite end.
  run_inv. apply unpackIfOurs_frame in Hrun as [ks ->].
  match goal with Hd : dropRequestOf _ _ = _ |- _ =>
    apply dropRequestOf_abs in Hd as (reqs & Hreqs & Habs & ?) end.
  apply simulates_step; [|done]. rewrite abs_set_keys, Habs. abs_simpl.
  eapply (step_join _ (abs st) (aij_InviteRecordId ch) (inv_Permissions invite)).
  - simpl. rewrite lookup_omap, Hinv. simpl. unfold joinPermission.
    by match goal with Ht : (_ =? AclInviteType_AnyoneCanJoin) = true |- _ => rewrite Ht end.
  - unfold authorKey. by rewrite abs_role.
  - destruct (NoPermissions (aij_Permissions ch)) eqn:Hn; auto.
  - done.
Qed.

(** ** Accounts added *)

Lemma applyAddition_abs acc record st st' :
  applyAddition acc record st = (st', Ok tt) ->
  exists pk, pubKeyFromProto (aa_Identity acc) = Ok pk /\
    abs st' = set_roles (assign_roles [(mapKeyFromPubKey pk, aa_Permissions acc)]
                           (roles (abs st))) (abs st) /\ same_validator st st'.
Proof.
  unfold applyAddition. intros Hrun. run_inv. apply unpackIfOurs_frame in Hrun as [ks ->].
  eexists. split; [done|]. split; [|done]. by abs_simpl.
Qed.

Lemma assign_roles_app l1 l2 m :
  assign_roles (l1 ++ l2) m = assign_roles l2 (assign_roles l1 m).
Proof. apply foldl_app. Qed.

Lemma applyAdditions_abs adds record st st' :
  st_each (fun acc => applyAddition acc record) adds st = (st', Ok tt) ->
  exists l, Forall2 (fun acc kp => exists pk, pubKeyFromProto (aa_Identity acc) = Ok pk /\
              kp = (mapKeyFromPubKey pk, aa_Permissions acc)) adds l /\
    abs st' = set_roles (assign_roles l (roles (abs st))) (abs st) /\ same_validator st st'.
Proof.
  revert st. induction adds as [|acc adds IH]; intros st; simpl.
  - intros [= <-]. exists []. split; [done|]. split; [|done]. simpl. by rewrite <- Roles_eta at 1.
  - intros Hrun. go_inv. apply applyAddition_abs in Hrun0 as (pk & Hpk & Habs & Hv).
    apply IH in Hrun as (l & Hl & Habs' & Hv').
    exists ((mapKeyFromPubKey pk, aa_Permissions acc) :: l). split; [|split].
    + constructor; [by exists pk|done].
    + by rewrite Habs', Habs.
    + unfold same_validator in *. congruence.
Qed.

Lemma applyAccountsAdd_sim adds record st st' :
  ShouldValidate st = true ->
  applyAccountsAdd adds record st = (st', Ok tt) -> simulates record st st'.
Proof.
  intros HV Hrun. unfold applyAccountsAdd in Hrun. run_inv.
  apply applyAdditions_abs in Hrun as (l & Hl & Habs & ?).
  apply simulates_step; [|done]. rewrite Habs. apply step_add.
  - unfold authorKey. by rewrite abs_role.
  - match goal with Ha : res_each _ adds = Ok _ |- _ => apply res_each_Ok in Ha; rename Ha into Hadds end.
    clear Habs. induction Hl as [|acc kp adds' l (pk & Hpk & ->) Hl IH]; [constructor|].
    apply Forall_cons in Hadds as [Hacc Hadds]. constructor; [|by apply IH].
    unfold validateAddition in Hacc. rewrite Hpk in Hacc. run_inv.
    unfold grantable, authorKey. cbn [fst snd]. rewrite !abs_role. perm_solve.
Qed.

(** ** Read key rotation changes no role, invite permission or request *)

Lemma updateInviteKey_abs encKey st st' :
  updateInviteKey encKey st = (st', Ok tt) -> abs st' = abs st /\ same_validator st st'.
Proof.
  unfold updateInviteKey. intros Hrun. go_inv.
  destruct (findInviteByKey st _) as [[key invite]|] eqn:Hf; [|done].
  split; [|done]. unfold findInviteByKey in Hf.
  apply fmap_Some in Hf as ([i kv] & [Hin _]%list_find_Some & Heq).
  simpl in Heq. subst kv.
  apply list_elem_of_lookup_2 in Hin. rewrite map_range_perm in Hin.
  simpl in Hin. apply elem_of_map_to_list in Hin.
  abs_simpl. unfold joinPermission at 1. simpl.
  assert (Hj : omap joinPermission (st_invites st) !! key = joinPermission invite)
    by (by rewrite lookup_omap, Hin).
  unfold joinPermission in Hj at 2. destruct (inv_Type invite =? _).
  - by rewrite insert_id.
  - by rewrite delete_id.
Qed.

Lemma applyReadKeyChange_abs ch record v st st' :
  applyReadKeyChange ch record v st = (st', Ok tt) ->
  abs st' = abs st /\ same_validator st st'.
Proof.
  unfold applyReadKeyChange. intros Hrun. go_inv.
  match goal with Hif : (if v then _ else _) _ = (?s, _) |- _ =>
    assert (s = st) as -> by (destruct v; by go_inv) end.
  match goal with He : st_each updateInviteKey _ _ = (?s, _) |- _ =>
    assert (abs s = abs st /\ same_validator st s) as [Habs Hv] end.
  { eapply (st_each_ind (fun s => abs s = abs st /\ same_validator st s)); [|done|done].
    intros x t t' _ [Ht Hvt]%updateInviteKey_abs [Ht' Hvt'].
    unfold same_validator in *. split; congruence. }
  abs_simpl. done.
Qed.

(** ** Accounts removed *)

Lemma applyRemoval_abs raw record st st' :
  applyRemoval raw record st = (st', Ok tt) ->
  exists pk reqs, pubKeyFromProto raw = Ok pk /\ reqs ⊆ requests (abs st) /\
    abs st' = mkRoles (<[mapKeyFromPubKey pk := AclPermissionsNone]> (roles (abs st)))
                (joinable (abs st)) reqs /\ same_validator st st'.
Proof.
  unfold applyRemoval. intros Hrun. run_inv.
  destruct (st_pendingRequests _ !! _) as [recId|]; go_inv; eexists _, _; abs_simpl;
    (split; [done|]); (split; [|done]); [apply delete_subseteq|done].
Qed.

Lemma applyRemovals_abs ids record st st' :
  st_each (fun raw => applyRemoval raw record) ids st = (st', Ok tt) ->
  exists ks reqs, Forall2 (fun raw k => exists pk, pubKeyFromProto raw = Ok pk /\
              k = mapKeyFromPubKey pk) ids ks /\
    reqs ⊆ requests (abs st) /\
    abs st' = mkRoles (assign_roles ((fun k => (k, AclPermissionsNone)) <$> ks)
                         (roles (abs st))) (joinable (abs st)) reqs /\
    same_validator st st'.
Proof.
  revert st. induction ids as [|raw ids IH]; intros st; simpl.
  - intros [= <-]. exists [], (requests (abs st)). split; [done|]. split; [done|].
    split; [|done]. simpl. by rewrite <- Roles_eta at 1.
  - intros Hrun. go_inv. apply applyRemoval_abs in Hrun0 as (pk & reqs & Hpk & Hsub & Habs & Hv).
    apply IH in Hrun as (ks & reqs' & Hks & Hsub' & Habs' & Hv').
    exists (mapKeyFromPubKey pk :: ks), reqs'. split; [constructor; [by exists pk|done]|].
    rewrite Habs in Hsub', Habs'. simpl in Hsub', Habs'.
    split; [by etrans|]. split; [by rewrite Habs'|].
    unfold same_validator in *. congruence.
Qed.

(** What the removal check guarantees of each identity. *)
Lemma validateRemovals_Ok st author perms seen ids seen' :
  validateRemovals st author perms seen ids = Ok seen' ->
  Forall (fun raw => exists pk, pubKeyFromProto raw = Ok pk /\ pk <> author /\
    NoPermissions (Permissions st pk) = false /\ revocable perms (Permissions st pk) /\
    mapKeyFromPubKey pk ∈ seen') ids /\ seen ⊆ seen'.
Proof.
  revert seen. induction ids as [|raw ids IH]; intros seen; simpl.
  - intros [= <-]. by split; [constructor|].
  - intros Hrun. run_inv.
    match goal with Hr : validateRemovals _ _ _ _ _ = Ok _ |- _ => apply IH in Hr as [HF Hsub] end.
    split; [constructor; [|done]|set_solver].
    match goal with Hpk : pubKeyFromProto raw = Ok ?pk |- _ => exists pk end.
    split; [done|]. split; [by apply PubKey_Equals_false|].
    split; [done|]. split; [|set_solver]. unfold revocable. perm_solve.
Qed.

Lemma applyAccountRemove_sim ch record st st' :
  ShouldValidate st = true ->
  applyAccountRemove ch record st = (st', Ok tt) -> simulates record st st'.
Proof.
  intros HV Hrun. unfold applyAccountRemove in Hrun. run_inv.
  apply applyReadKeyChange_abs in Hrun as [Habs' Hv'].
  match goal with He : st_each _ _ _ = _ |- _ =>
    apply applyRemovals_abs in He as (ks & reqs & Hks & Hsub & Habs & Hv) end.
  apply simulates_step; [|unfold same_validator in *; congruence].
  rewrite Habs', Habs. apply step_remove; [unfold authorKey; by rewrite abs_role| |done].
  match goal with Hr : validateRemovals _ _ _ _ _ = Ok _ |- _ =>
    apply validateRemovals_Ok in Hr as [HF _] end.
  clear Habs. induction Hks as [|raw k ids ks (pk & Hpk & ->) Hks IH]; [constructor|].
  apply Forall_cons in HF as [(pk' & Hpk' & Hne & Hn & Hr & _) HF].
  constructor; [|by apply IH].
  rewrite Hpk in Hpk'. injection Hpk' as <-. unfold authorKey. rewrite !abs_role.
  split; [|done]. by intros ?%mapKeyFromPubKey_inj.
Qed.

(** ** Whole records *)

Lemma applyChangeContent_sim ch record st st' :
  ShouldValidate st = true ->
  applyChangeContent ch record st = (st', Ok tt) -> simulates record st st'.
Proof.
  intros HV Hrun. destruct ch; simpl in Hrun.
  - by eapply applyInvite_sim.
  - by eapply applyInviteRevoke_sim.
  - by eapply applyRequestJoin_sim.
  - by eapply applyRequestAccept_sim.
  - by eapply applyPermissionChange_sim.
  - by eapply applyAccountRemove_sim.
  - apply applyReadKeyChange_abs in Hrun as [Habs Hv]. split; [by rewrite Habs|done].
  - by eapply applyRequestDecline_sim.
  - by eapply applyRequestRemove_sim.
  - by eapply applyPermissionChanges_sim.
  - by eapply applyAccountsAdd_sim.
  - by eapply applyRequestCancel_sim.
  - by eapply applyInviteJoin_sim.
  - by eapply applyInviteChange_sim.
  - by eapply applyOwnershipChange_sim.
  - unfold applySpaceOptionsChange in Hrun. go_inv. by split.
  - go_inv. by split.
Qed.

Lemma ApplyRecord_sim record st st' :
  ShouldValidate st = true ->
  ApplyRecord record st = (st', Ok tt) -> simulates record st st'.
Proof.
  intros HV Hrun. unfold ApplyRecord, applyChangeData in Hrun. go_inv.
  match goal with He : st_each _ _ _ = (?s, _) |- _ =>
    assert (simulates record st s) as [Hs Hv]; [|by split] end.
  eapply st_each_sim; [|done|done]. intros ch t t' Ht Hch.
  by apply (applyChangeContent_sim ch).
Qed.

(** ** Reachable states *)

(** A state built from a root record by a validating verifier, and the states
    records lead to from there. *)
Inductive acl_reachable : AclState -> Prop :=
| reach_root record key st :
    newAclStateWithKeys record key true = Ok st -> acl_reachable st
| reach_record record st st' :
    acl_reachable st -> ApplyRecord record st = (st', Ok tt) -> acl_reachable st'
| reach_copy st : acl_reachable st -> acl_reachable (Copy true st).

Lemma saveKeysFromRoot_frame id root st st' :
  saveKeysFromRoot id root st = (st', Ok tt) -> exists ks, st' = set_keys ks st.
Proof.
  unfold saveKeysFromRoot. intros Hrun. go_inv.
  destruct (root_EncryptedReadKey root); go_inv; eexists; reflexivity.
Qed.

Lemma deriveOneToOneKeys_frame id info st st' :
  deriveOneToOneKeys id info st = (st', Ok tt) -> exists ks, st' = set_keys ks st.
Proof. unfold deriveOneToOneKeys. intros Hrun. go_inv. eexists. reflexivity. Qed.

(** The state after the root: nothing but the root's accounts. *)
Definition root_like (st st0 : AclState) : Prop :=
  one_owner (abs st) /\ joinable (abs st) = ∅ /\ same_validator st0 st.

Lemma one_owner_single k p j q : one_owner (mkRoles (<[k := p]> ∅) j q).
Proof.
  intros k1 k2. rewrite !role_insert, !lookup_empty. by repeat case_decide; subst.
Qed.

Lemma addWriters_like id writers st st' st0 :
  st_each (addWriter id) writers st = (st', Ok tt) -> root_like st st0 -> root_like st' st0.
Proof.
  apply (st_each_ind (fun s => root_like s st0)). intros w s s' _ Hrun (Hone & Hj & Hv). unfold addWriter in Hrun.
  go_inv. split; [|by split]. abs_simpl. by apply one_owner_insert.
Qed.

Lemma setOneToOneAcl_like id info st key v :
  setOneToOneAcl id info (emptyAclState id key v) = (st, Ok tt) ->
  root_like st (emptyAclState id key v).
Proof.
  unfold setOneToOneAcl. intros Hrun. go_inv.
  match goal with Hif : (if (?b : bool) then _ else _) _ = (?s, Ok tt) |- _ =>
    assert (exists ks, s = set_keys ks (emptyAclState id key v)) as [ks ->] end.
  { destruct a.
    - by eapply deriveOneToOneKeys_frame.
    - go_inv. eexists. reflexivity. }
  match goal with He : st_each _ _ _ = (?s, Ok tt) |- _ =>
    assert (root_like s (emptyAclState id key v)) as (Hone & Hj & Hv);
      [eapply addWriters_like; [exact He|]|by split] end.
  split; [|done]. abs_simpl. simpl. rewrite fmap_empty. apply one_owner_single.
Qed.

Lemma newAclState_like record key v st :
  newAclStateWithKeys record key v = Ok st ->
  root_like st (emptyAclState (rec_Id record) key v).
Proof.
  unfold newAclStateWithKeys, applyRoot. intros Hnew.
  destruct (rec_Model record) as [|root|]; [done| |done].
  destruct (root_OneToOneInfo root) as [info|].
  { destruct (setOneToOneAcl _ _ _) as [s [[]|]] eqn:Hrun; [|done].
    injection Hnew as ->. by eapply setOneToOneAcl_like. }
  match type of Hnew with match ?m with _ => _ end = _ =>
    destruct m as [s [[]|]] eqn:Hrun; [|done] end.
  injection Hnew as ->. set (st0 := emptyAclState _ _ _) in *. go_inv.
  match goal with Hm : match root_EncryptedReadKey root with _ => _ end _ = (?s, Ok _) |- _ =>
    assert (exists ks, s = set_keys ks st0) as [ks ->]
      by (destruct (root_EncryptedReadKey root); go_inv; eexists; reflexivity) end.
  match goal with Hif : (if PubKey_Equals _ _ then _ else _) _ = (?s, Ok tt) |- _ =>
    assert (exists ks, s = set_keys ks st0) as [ks' ->] end.
  { destruct (PubKey_Equals _ _).
    - match goal with Hs : saveKeysFromRoot _ _ _ = _ |- _ =>
        apply saveKeysFromRoot_frame in Hs as [ks' ->] end. by exists ks'.
    - go_inv. by exists ks. }
  destruct (root_Options root); go_inv;
    (split; [|done]); unfold abs; simpl; rewrite fmap_insert, fmap_empty; apply one_owner_single.
Qed.

Lemma acl_reachable_ok st : acl_reachable st -> acl_inv (abs st) /\ ShouldValidate st = true.
Proof.
  induction 1 as [record key st Hnew|record st st' Hst [IH IHv] Hrun|st Hst [IH IHv]].
  - apply newAclState_like in Hnew as (Hone & Hj & Hv). split; [split|].
    + done.
    + intros id p. by rewrite Hj.
    + by rewrite (ShouldValidate_same _ _ Hv).
  - destruct (ApplyRecord_sim _ _ _ IHv Hrun) as [Hs Hv]. split.
    + by eapply rtc_acl_inv.
    + by rewrite (ShouldValidate_same _ _ Hv).
  - done.
Qed.

(** What [aclStateBuilder.Build] returns is reachable. *)
Lemma Build_reachable records key st : Build records key true = Ok st -> acl_reachable st.
Proof.
  unfold Build. destruct records as [|root rest]; [done|]. intros Hb. go_inv.
  destruct (st_each ApplyRecord rest a) as [s [[]|]] eqn:Hrun; [|done].
  injection Hb as <-.
  eapply (st_each_ind acl_reachable); [|exact Hrun|by eapply reach_root].
  intros record t t' _ Hr Ht. by eapply reach_record.
Qed.
End refine.
