(* ===== verification/AclExample.v ===== *)
(** A concrete instance of the parameters of the ACL model and a concrete space:
    the executable definitions run on it.  The toy primitives keep the shapes of
    the real ones (32-byte public keys, 64-byte private keys whose second half is
    the public key, typed key envelopes, ciphertexts bound to their key), so every
    check of the code is exercised. *)

From Stdlib Require Import ZArith String Ascii.
From stdpp Require Import base option list gmap strings.
From S2P Require Import Prelude Crypto AclModels AclState AclValidator AclApply AclSpec AclRefine.

Local Open Scope Z_scope.
Local Open Scope string_scope.

(** ** Toy primitives *)

(** An envelope is a type character followed by the data. *)
Definition toy_marshal (ty : Z) (data : bytes) : bytes :=
  String (ascii_of_nat (Z.to_nat ty)) data.
Definition toy_unmarshal (b : bytes) : res (Z * bytes) :=
  match b with
  | String c data => Ok (Z.of_nat (nat_of_ascii c), data)
  | EmptyString => Ok (0, "")
  end.

(** [strip p s]: the rest of [s] after the prefix [p]. *)
Fixpoint strip (p s : bytes) : option bytes :=
  match p, s with
  | EmptyString, _ => Some s
  | String a p, String b s => if Ascii.eqb a b then strip p s else None
  | _, _ => None
  end.

(** A box is the recipient's public key and the message. *)
Definition toy_box_open (priv msg : bytes) : res bytes :=
  opt_or (strip (substring 32 32 priv) msg) (GoError "decryption failed").
(** A sealed text is the key and the plain text, after the nonce. *)
Definition toy_gcm_open (key nonce ct : bytes) : res bytes :=
  opt_or (strip key ct) (GoError "cipher: message authentication failed").

Definition toyCrypto : CryptoPrims := {|
  Key_UnmarshalVT := toy_unmarshal;
  Key_MarshalVT := toy_marshal;
  Point_SetBytes := fun _ => Ok tt;
  ed25519_Verify := fun pk data sig => bool_decide (sig = pk ++ data);
  x25519_Decrypt := toy_box_open;
  gcm_Open := toy_gcm_open;
  slip21_Derive := fun seed path => Ok (substring 0 32 seed);
|}.
(** What is agreed on: the clamped scalars of both, in order. *)
Definition toy_clamp (s : bytes) : bytes :=
  updByte 31 (fun b => Z.lor (Z.land b 127) 64) (updByte 0 (fun b => Z.land b 248) s).
Definition toy_agree (a b : bytes) : bytes := match String.compare a b with Gt => b ++ a | _ => a ++ b end.
Definition toy_pad : bytes := "................................".
Definition toyShared : SharedKeyPrims := {|
  sha512_Sum := fun s => s ++ s;
  Point_BytesMontgomery := fun pk => pk;
  curve25519_X25519 := fun scalar point => Ok (toy_agree scalar (toy_clamp point));
  hkdf_Read32 := fun secret info => Ok (substring 0 32 (substring 0 16 secret ++ substring 32 16 secret ++ toy_pad));
  slip21_IsValidPath := String.prefix "m/";
  ed25519_NewKeyFromSeed := fun seed => seed ++ seed;
  SymKey_Encrypt := fun k b => Ok ("............" ++ symRaw k ++ b);
|}.

#[global] Existing Instances toyCrypto toyShared.

(** ** Accounts *)

Fixpoint rep (n : nat) (s : string) : string :=
  match n with O => "" | S n => s ++ rep n s end.

Definition pubOf (s : string) : PubKey := mkPubKey (rep 32 s).
Definition privOf (s : string) : PrivKey := mkPrivKey (rep 32 s ++ rep 32 s).
Definition symOf (s : string) : SymKey := mkSymKey (rep 32 s).
Definition idOf (s : string) : bytes := toy_marshal KeyType_Ed25519Public (rep 32 s).
(** [seal k b]: [b] encrypted with the symmetric key [k]. *)
Definition seal (k : SymKey) (b : bytes) : bytes := "............" ++ symRaw k ++ b.
(** [boxTo s k]: the symmetric key [k] encrypted for account [s]. *)
Definition boxTo (s : string) (k : SymKey) : bytes :=
  rep 32 s ++ toy_marshal KeyType_AES (symRaw k).
Definition metaSealed (k : SymKey) (s : string) : bytes :=
  seal k (toy_marshal KeyType_Ed25519Private (privKey (privOf s))).

Definition alice := "A".
Definition bob := "B".
Definition dave := "D".
Definition inviteK := "I".
Definition key1 := symOf "1".
Definition key2 := symOf "2".

(** ** Records of a space owned by alice *)

Definition exRootMsg : AclRoot :=
  mkAclRoot (idOf alice) (Some (boxTo alice key1)) (idOf "M") (metaSealed key1 "M") "" None None 0
    "" "" "".

(** alice opens a request-to-join invite and bob asks to join. *)
Definition exInviteData : AclData :=
  [CInvite (mkAclAccountInvite (idOf inviteK) AclInviteType_RequestToJoin AclPermissionsNone None)].
Definition exAskData : AclData :=
  [CRequestJoin (mkAclAccountRequestJoin (idOf bob) "r1"
     (pubKey (pubOf inviteK) ++ pubKey (pubOf bob)) "bob's name")].
(** alice accepts him as a writer, or adds him directly as an admin. *)
Definition exAcceptData : AclData :=
  [CRequestAccept (mkAclAccountRequestAccept (idOf bob) "r2" (boxTo bob key1)
     AclPermissionsWriter)].
Definition exAddAdminData : AclData :=
  [CAccountsAdd [mkAclAccountAdd (idOf bob) AclPermissionsAdmin "" (boxTo bob key1)]].

Definition exRoot : AclRecord :=
  mkAclRecord "root" "" 0 0 "" (pubOf alice) (ModelRoot exRootMsg) "".
Definition exRec (id prev author : string) (data : AclData) : AclRecord :=
  mkAclRecord id prev 0 0 "" (pubOf author) (ModelData data) "".
Definition exInvite := exRec "r1" "root" alice exInviteData.
Definition exAsk := exRec "r2" "r1" bob exAskData.
Definition exAccept := exRec "r3" "r2" alice exAcceptData.
Definition exAddAdmin := exRec "r3" "r2" alice exAddAdminData.

(** The encodings of these messages, as a table. *)
Definition toyCodec : AclCodec := {|
  AclData_UnmarshalVT := fun b =>
    if decide (b = "invite") then Ok exInviteData
    else if decide (b = "ask") then Ok exAskData
    else if decide (b = "accept") then Ok exAcceptData
    else Err (GoError "unexpected EOF");
  AclRoot_UnmarshalVT := fun b =>
    if decide (b = "root") then Ok exRootMsg else Err (GoError "unexpected EOF");
|}.

#[global] Existing Instance toyCodec.

Definition exBuild (l : list AclRecord) : res AclState := Build l (privOf alice) true.
Definition exState (l : list AclRecord) : AclState :=
  match exBuild l with Ok st => st | Err _ => emptyAclState "" (privOf alice) true end.

Example exJoined : exBuild [exRoot; exInvite; exAsk; exAccept] =
  Ok (exState [exRoot; exInvite; exAsk; exAccept]).
Proof. vm_compute. reflexivity. Qed.

Example exJoined_perms :
  Permissions (exState [exRoot; exInvite; exAsk; exAccept]) (pubOf bob) = AclPermissionsWriter.
Proof. vm_compute. reflexivity. Qed.
