(* ===== verification/AclHistory.v ===== *)
(** Account histories: how one record changes the accounts of a state, and the
    invariant that ties an account's map key, public key, current permissions and
    permission changes together. *)

From Stdlib Require Import ZArith Lia.
From stdpp Require Import base option list gmap strings relations.
From S2P Require Import Prelude Crypto AclModels AclState AclValidator AclApply AclSpec AclRefine.

Open Scope Z_scope.

Abbreviation accounts := (gmap string AccountState).

(** The permission a history ends with. *)
Definition lastPermission (l : list PermissionChange) : AclPermissions :=
  match last l with Some c => pc_Permission c | None => AclPermissionsNone end.

(** An account entry under its key: it holds the key's public key, and its current
    permissions are the last of its history. *)
Definition acct_ok (k : string) (acc : AccountState) : Prop :=
  as_PubKey acc = Some (mkPubKey k) /\
  as_Permissions acc = lastPermission (as_PermissionChanges acc).

Definition accts_ok (m : accounts) : Prop := map_Forall acct_ok m.

Definition changes_of (m : accounts) (k : string) : list PermissionChange :=
  match m !! k with Some acc => as_PermissionChanges acc | None => [] end.

(** One record [rid] takes the accounts [m] to [m']: an account is untouched, or
    its history grew by changes of this record; with [reset], the history may have
    been replaced. *)
Definition evolves (reset : bool) (rid : string) (m m' : accounts) : Prop :=
  dom m ⊆ dom m' /\
  forall k acc', m' !! k = Some acc' -> m !! k = Some acc' \/
    (acct_ok k acc' /\ exists pre suf, Forall (fun c => pc_RecordId c = rid) suf /\
       as_PermissionChanges acc' = pre ++ suf /\
       (pre = changes_of m k \/ reset = true /\ pre = [])).

Lemma evolves_refl reset rid m : evolves reset rid m m.
Proof. split; [done|]. by left. Qed.

Lemma evolves_trans reset rid m1 m2 m3 :
  evolves reset rid m1 m2 -> evolves reset rid m2 m3 -> evolves reset rid m1 m3.
Proof.
  intros [Hd1 H1] [Hd2 H2]. split; [by etrans|]. intros k acc Hk.
  destruct (H2 _ _ Hk) as [Hk2|(Hok & pre & suf & Hsuf & Hch & Hpre)]; [by apply H1|].
  right. split; [done|]. destruct Hpre as [->|[-> ->]].
  - unfold changes_of in *. destruct (m2 !! k) as [acc2|] eqn:Hm2.
    + destruct (H1 _ _ Hm2) as [Hm1|(_ & pre & suf' & Hsuf' & Hch' & Hpre)].
      * rewrite Hm1. exists (as_PermissionChanges acc2), suf. auto.
      * exists pre, (suf' ++ suf). rewrite Hch, Hch', app_assoc. split; [by apply Forall_app|]. auto.
    + destruct (m1 !! k) as [acc1|] eqn:Hm1.
      * exfalso. apply (not_elem_of_dom_2 m2 k) in Hm2. apply Hm2, Hd1.
        by apply elem_of_dom_2 in Hm1.
      * exists [], suf. auto.
  - exists [], suf. auto.
Qed.

Lemma evolves_ok reset rid m m' : evolves reset rid m m' -> accts_ok m -> accts_ok m'.
Proof.
  intros [_ He] Hok k acc Hk. destruct (He _ _ Hk) as [Hm|[? _]]; [by apply Hok|done].
Qed.

Lemma evolves_weaken rid m m' : evolves false rid m m' -> evolves true rid m m'.
Proof.
  intros [Hd He]. split; [done|]. intros k acc Hk.
  destruct (He _ _ Hk) as [?|(? & pre & suf & ? & ? & [?|[? _]])]; [by left| |done].
  right. split; [done|]. exists pre, suf. auto.
Qed.

(** Writing one entry: its new history is the old one and changes of the record. *)
Lemma evolves_put reset rid m k acc suf :
  acct_ok k acc -> Forall (fun c => pc_RecordId c = rid) suf ->
  (as_PermissionChanges acc = changes_of m k ++ suf \/
   reset = true /\ as_PermissionChanges acc = suf) ->
  evolves reset rid m (<[k := acc]> m).
Proof.
  intros Hok Hsuf Hch. split; [rewrite dom_insert_L; set_solver|].
  intros k' acc'. rewrite lookup_insert. case_decide as Hk; [|by left].
  intros [= <-]. subst k'. right. split; [done|].
  destruct Hch as [Hch|[-> Hch]]; [exists (changes_of m k), suf|exists [], suf]; auto.
Qed.

Lemma lastPermission_snoc l c : lastPermission (l ++ [c]) = pc_Permission c.
Proof. unfold lastPermission. by rewrite last_snoc. Qed.

Lemma mkPubKey_mapKey pk : mkPubKey (mapKeyFromPubKey pk) = pk.
Proof. by destruct pk. Qed.

(** An account with permissions has an entry. *)
Lemma Permissions_exists st pk :
  NoPermissions (Permissions st pk) = false ->
  exists acc, st_accountStates st !! mapKeyFromPubKey pk = Some acc /\
    as_Permissions acc = Permissions st pk.
Proof. unfold Permissions. destruct (_ !! _); [eauto|done]. Qed.

Section ops.
Context `{CryptoPrims} `{AclCodec} `{SharedKeyPrims} `{MapRange}.
Implicit Types (st : AclState) (record : AclRecord).

Abbreviation accs := st_accountStates.

(** [st'] has the accounts of [st] evolved by [record]. *)
Definition st_evolves (reset : bool) record st st' : Prop :=
  evolves reset (rec_Id record) (accs st) (accs st').

Lemma updatePermissions_evolves k p record st st' :
  is_Some (accs st !! k) -> accts_ok (accs st) ->
  updatePermissions k p record st = (st', Ok tt) -> st_evolves false record st st'.
Proof.
  intros [acc Hk] Hok Hrun. unfold updatePermissions in Hrun. go_inv.
  unfold st_evolves. simpl. rewrite Hk. simpl.
  apply (evolves_put _ _ _ _ _ [mkPermissionChange (rec_Id record) p]).
  - split; simpl; [by apply (Hok k acc)|by rewrite lastPermission_snoc].
  - by constructor.
  - left. unfold changes_of. by rewrite Hk.
Qed.

(** Changing a status keeps the history. *)
Lemma evolves_status s rid m k acc :
  accts_ok m -> m !! k = Some acc -> evolves false rid m (<[k := with_Status s acc]> m).
Proof.
  intros Hok Hk. apply (evolves_put _ _ _ _ _ []); [|constructor|].
  - by apply (Hok k acc).
  - left. unfold changes_of. rewrite Hk. by rewrite app_nil_r.
Qed.

(** An account that gets permissions through [appendChange]. *)
Lemma evolves_append record m pk p md kid :
  evolves false (rec_Id record) m
    (<[mapKeyFromPubKey pk := mkAccountState (Some pk) p StatusActive md kid
         (appendChange (m !! mapKeyFromPubKey pk) p record)]> m).
Proof.
  apply (evolves_put _ _ _ _ _ [mkPermissionChange (rec_Id record) p]).
  - split; simpl; [by rewrite mkPubKey_mapKey|].
    unfold appendChange. destruct (m !! _); [by rewrite lastPermission_snoc|done].
  - by constructor.
  - left. unfold changes_of, appendChange. by destruct (m !! _).
Qed.

(** ** One lemma per operation *)

Lemma frame_evolves record st st' : accs st' = accs st -> st_evolves false record st st'.
Proof. unfold st_evolves. intros ->. apply evolves_refl. Qed.

Lemma applyPermissionChange_evolves ch record st st' :
  ShouldValidate st = true -> accts_ok (accs st) ->
  applyPermissionChange ch record st = (st', Ok tt) -> st_evolves false record st st'.
Proof.
  intros HV Hok Hrun. unfold applyPermissionChange in Hrun. run_inv.
  eapply updatePermissions_evolves; eauto.
Qed.

(** A loop of evolving operations evolves; each iteration keeps the validator. *)
Lemma st_each_evolves {A} (f : A -> ST AclState unit) (l : list A) reset record st st' :
  (forall x s s', ShouldValidate s = true -> accts_ok (accs s) -> f x s = (s', Ok tt) ->
    st_evolves reset record s s' /\ same_validator s s') ->
  ShouldValidate st = true -> accts_ok (accs st) ->
  st_each f l st = (st', Ok tt) -> st_evolves reset record st st'.
Proof.
  intros Hf HV Hok Hrun.
  enough (st_evolves reset record st st' /\ same_validator st st') by naive_solver.
  eapply (st_each_ind (fun s => st_evolves reset record st s /\ same_validator st s));
    [|exact Hrun|by split; [apply evolves_refl|]].
  intros x s s' _ Hx [Hev Hv]. destruct (Hf x s s') as [Hev' Hv']; [|by eapply evolves_ok|done|].
  - by rewrite (ShouldValidate_same st s).
  - split; [by eapply evolves_trans|]. unfold same_validator in *. congruence.
Qed.

Lemma applyOwnershipChange_evolves ch record st st' :
  ShouldValidate st = true -> accts_ok (accs st) ->
  applyOwnershipChange ch record st = (st', Ok tt) -> st_evolves false record st st'.
Proof.
  intros HV Hok Hrun. unfold applyOwnershipChange in Hrun. run_inv.
  match goal with Hn : NoPermissions (Permissions st _) = false |- _ =>
    destruct (Permissions_exists _ _ Hn) as (acc' & Hacc' & _) end.
  assert (Ho : NoPermissions (Permissions st (rec_Identity record)) = false)
    by (perm_unfold; lia).
  destruct (Permissions_exists _ _ Ho) as (acc & Hacc & _).
  match goal with Hu : updatePermissions _ (owc_OldOwnerPermissions ch) _ _ = (?s, _) |- _ =>
    pose proof (updatePermissions_evolves _ _ _ _ _ (ex_intro _ _ Hacc) Hok Hu) as Hev end.
  eapply evolves_trans; [exact Hev|].
  eapply updatePermissions_evolves; [|by eapply evolves_ok|exact Hrun].
  apply elem_of_dom, (proj1 Hev), elem_of_dom. eauto.
Qed.

Lemma applyRequestJoin_evolves ch record st st' :
  ShouldValidate st = true -> accts_ok (accs st) ->
  applyRequestJoin ch record st = (st', Ok tt) -> st_evolves false record st st'.
Proof.
  intros HV Hok Hrun. unfold applyRequestJoin in Hrun. run_inv. unfold st_evolves. simpl.
  apply (evolves_put _ _ _ _ _ []); [|constructor|].
  - split; simpl; [by rewrite mkPubKey_mapKey|].
    match goal with Hn : NoPermissions _ = true |- _ => unfold Permissions in Hn end.
    destruct (accs st !! _) as [acc|] eqn:Hacc; [|done].
    destruct (Hok _ _ Hacc) as [_ <-]. perm_unfold. lia.
  - left. unfold changes_of. rewrite app_nil_r. simpl. by destruct (accs st !! _).
Qed.

Lemma applyRequestAccept_evolves ch record st st' :
  ShouldValidate st = true -> accts_ok (accs st) ->
  applyRequestAccept ch record st = (st', Ok tt) -> st_evolves false record st st'.
Proof.
  intros HV Hok Hrun. unfold applyRequestAccept in Hrun. run_inv.
  match goal with Hr : st_requestRecords st !! _ = Some _ |- _ => rewrite Hr in Hrun end.
  run_inv. apply unpackIfOurs_frame in Hrun as [ks ->]. apply evolves_append.
Qed.

Lemma dropRequestOf_frame identity st st' :
  dropRequestOf identity st = (st', Ok tt) -> accs st' = accs st.
Proof.
  unfold dropRequestOf. intros Hrun. go_inv. by destruct (list_find _ _) as [[? []]|].
Qed.

Lemma applyInviteJoin_evolves ch record st st' :
  ShouldValidate st = true -> accts_ok (accs st) ->
  applyInviteJoinWithoutApprove ch record st = (st', Ok tt) -> st_evolves false record st st'.
Proof.
  intros HV Hok Hrun. unfold applyInviteJoinWithoutApprove in Hrun. run_inv.
  match goal with Hi : st_invites st !! _ = Some ?i |- _ => rewrite Hi in Hrun end.
  run_inv. apply unpackIfOurs_frame in Hrun as [ks ->].
  match goal with Hd : dropRequestOf _ _ = _ |- _ => apply dropRequestOf_frame in Hd as Hd end.
  unfold st_evolves. simpl. match goal with Hd : accs _ = _ |- _ => rewrite Hd end.
  apply evolves_append.
Qed.

Lemma applyRequestDecline_evolves id record st st' :
  ShouldValidate st = true -> accts_ok (accs st) ->
  applyRequestDecline id record st = (st', Ok tt) -> st_evolves false record st st'.
Proof.
  intros HV Hok Hrun. unfold applyRequestDecline in Hrun. run_inv.
  match goal with Hr : st_requestRecords st !! _ = Some _ |- _ => rewrite Hr in Hrun end.
  run_inv. by apply evolves_status.
Qed.

Lemma applyRequestCancel_evolves id record st st' :
  ShouldValidate st = true -> accts_ok (accs st) ->
  applyRequestCancel id record st = (st', Ok tt) -> st_evolves false record st st'.
Proof.
  intros HV Hok Hrun. unfold applyRequestCancel in Hrun. run_inv.
  match goal with Hr : st_requestRecords st !! _ = Some _ |- _ => rewrite Hr in Hrun end.
  run_inv. by apply evolves_status.
Qed.

Lemma applyRequestRemove_evolves record st st' :
  ShouldValidate st = true -> accts_ok (accs st) ->
  applyRequestRemove record st = (st', Ok tt) -> st_evolves false record st st'.
Proof.
  intros HV Hok Hrun. unfold applyRequestRemove in Hrun. run_inv. by apply evolves_status.
Qed.

Lemma updateInviteKey_frame encKey st st' :
  updateInviteKey encKey st = (st', Ok tt) -> accs st' = accs st.
Proof.
  unfold updateInviteKey. intros Hrun. go_inv. by destruct (findInviteByKey _ _) as [[]|].
Qed.

Lemma applyReadKeyChange_frame ch record v st st' :
  applyReadKeyChange ch record v st = (st', Ok tt) ->
  accs st' = accs st /\ st_readKeyChanges st' = st_readKeyChanges st ++ [rec_Id record].
Proof.
  unfold applyReadKeyChange. intros Hrun. go_inv.
  match goal with Hif : (if v then _ else _) _ = (?s, _) |- _ =>
    assert (s = st) as -> by (destruct v; by go_inv) end.
  match goal with He : st_each updateInviteKey _ ?s0 = (?s, _) |- _ =>
    assert (accs s = accs st /\ st_readKeyChanges s = st_readKeyChanges s0) as [Ha Hr] end.
  { eapply (st_each_ind (fun s => accs s = accs st /\ st_readKeyChanges s = _));
      [|done|by split].
    intros x t t' _ Hx [Ht Ht']. split; [by rewrite (updateInviteKey_frame x t t')|].
    unfold updateInviteKey in Hx. go_inv. by destruct (findInviteByKey _ _) as [[]|]. }
  by split.
Qed.

Lemma applyRemoval_evolves raw record st st' :
  ShouldValidate st = true -> accts_ok (accs st) ->
  applyRemoval raw record st = (st', Ok tt) ->
  st_evolves false record st st' /\ same_validator st st'.
Proof.
  intros HV Hok Hrun. split; [|by apply applyRemoval_abs in Hrun as (? & ? & ? & ? & ? & ?)].
  unfold applyRemoval in Hrun. go_inv.
  assert (accs st' = <[mapKeyFromPubKey a := with_PermissionChanges
    (as_PermissionChanges a0 ++ [mkPermissionChange (rec_Id record) AclPermissionsNone])
    (with_Permissions AclPermissionsNone (with_Status StatusRemoved a0))]> (accs st)) as Heq
    by (destruct (st_pendingRequests _ !! _); by go_inv).
  unfold st_evolves. rewrite Heq.
  apply (evolves_put _ _ _ _ _ [mkPermissionChange (rec_Id record) AclPermissionsNone]).
  - split; simpl; [|by rewrite lastPermission_snoc].
    by apply (Hok _ _ Hrun1).
  - by constructor.
  - left. unfold changes_of. by rewrite Hrun1.
Qed.

Lemma applyAccountRemove_evolves ch record st st' :
  ShouldValidate st = true -> accts_ok (accs st) ->
  applyAccountRemove ch record st = (st', Ok tt) -> st_evolves false record st st'.
Proof.
  intros HV Hok Hrun. unfold applyAccountRemove in Hrun. go_inv.
  apply applyReadKeyChange_frame in Hrun as [Ha _]. unfold st_evolves. rewrite Ha.
  eapply st_each_evolves; [|done|done|done]. 
  intros raw t t' HVt Hokt Hx. by apply (applyRemoval_evolves raw).
Qed.

Lemma applyAddition_evolves acc record st st' :
  applyAddition acc record st = (st', Ok tt) ->
  st_evolves true record st st' /\ same_validator st st'.
Proof.
  intros Hrun. unfold applyAddition in Hrun. go_inv.
  apply unpackIfOurs_frame in Hrun as [ks ->]. split; [|done].
  apply (evolves_put _ _ _ _ _ [mkPermissionChange (rec_Id record) (aa_Permissions acc)]).
  - split; simpl; [by rewrite mkPubKey_mapKey|done].
  - by constructor.
  - by right.
Qed.

Lemma applyAccountsAdd_evolves adds record st st' :
  ShouldValidate st = true -> accts_ok (accs st) ->
  applyAccountsAdd adds record st = (st', Ok tt) -> st_evolves true record st st'.
Proof.
  intros HV Hok Hrun. unfold applyAccountsAdd in Hrun. go_inv.
  eapply st_each_evolves; [|done|done|done]. 
  intros acc t t' HVt Hokt Hx. by apply (applyAddition_evolves acc).
Qed.

Lemma applyPermissionChanges_evolves chs record st st' :
  ShouldValidate st = true -> accts_ok (accs st) ->
  applyPermissionChanges chs record st = (st', Ok tt) -> st_evolves false record st st'.
Proof.
  intros HV Hok. apply st_each_evolves; [|done|done].
  intros ch s s' Hs Hoks Hx. split; [by eapply applyPermissionChange_evolves|].
  by apply (applyPermissionChange_sim ch record) in Hx as [_ ?].
Qed.

(** Adding accounts is the one operation that may replace a history. *)
Definition isAccountsAdd (ch : AclContentValue) : bool :=
  match ch with CAccountsAdd _ => true | _ => false end.

Lemma applyChangeContent_evolves ch record st st' :
  ShouldValidate st = true -> accts_ok (accs st) ->
  applyChangeContent ch record st = (st', Ok tt) -> st_evolves (isAccountsAdd ch) record st st'.
Proof.
  intros HV Hok Hrun. destruct ch; simpl in *.
  - apply frame_evolves. unfold applyInvite in Hrun. by go_inv.
  - apply frame_evolves. unfold applyInviteRevoke in Hrun. by go_inv.
  - by eapply applyRequestJoin_evolves.
  - by eapply applyRequestAccept_evolves.
  - by eapply applyPermissionChange_evolves.
  - by eapply applyAccountRemove_evolves.
  - apply frame_evolves. by apply applyReadKeyChange_frame in Hrun as [? _].
  - by eapply applyRequestDecline_evolves.
  - by eapply applyRequestRemove_evolves.
  - by eapply applyPermissionChanges_evolves.
  - by eapply applyAccountsAdd_evolves.
  - by eapply applyRequestCancel_evolves.
  - by eapply applyInviteJoin_evolves.
  - apply frame_evolves. unfold applyInviteChange in Hrun. go_inv. by destruct (st_invites _ !! _).
  - by eapply applyOwnershipChange_evolves.
  - apply frame_evolves. unfold applySpaceOptionsChange in Hrun. by go_inv.
  - apply frame_evolves. by go_inv.
Qed.

(** A record without account additions only lengthens histories. *)
Lemma ApplyRecord_evolves reset record st st' :
  ShouldValidate st = true -> accts_ok (accs st) ->
  (reset = false -> forall data, recordData record = Ok data ->
     forallb (fun ch => negb (isAccountsAdd ch)) data = true) ->
  ApplyRecord record st = (st', Ok tt) -> st_evolves reset record st st'.
Proof.
  intros HV Hok Hdata Hrun. unfold ApplyRecord, applyChangeData in Hrun. go_inv.
  match goal with
  | He : st_each _ ?d _ = (?s, _), Hd : recordData record = Ok ?d |- _ =>
      specialize (fun Hr => Hdata Hr _ Hd); change (accs (set_lastRecordId _ s)) with (accs s);
      assert (st_evolves reset record st s /\ same_validator st s) as [? _];
      [|done]; rename He into Heach
  end.
  eapply (st_each_ind (fun s => st_evolves reset record st s /\ same_validator st s));
    [|exact Heach|by split; [apply evolves_refl|]].
  intros ch s s' Hin Hx [Hev Hv].
  assert (HVs : ShouldValidate s = true) by (by rewrite (ShouldValidate_same st s)).
  assert (Hoks : accts_ok (accs s)) by (by eapply evolves_ok).
  split; [|by apply (applyChangeContent_sim ch record) in Hx as [_ ?]; unfold same_validator in *; congruence].
  eapply evolves_trans; [done|]. apply (applyChangeContent_evolves ch) in Hx; [|done|done].
  destruct reset.
  - destruct (isAccountsAdd ch); [done|by apply evolves_weaken].
  - destruct (isAccountsAdd ch) eqn:Hadd; [|done]. exfalso.
    specialize (Hdata eq_refl). rewrite forallb_forall in Hdata.
    apply list_elem_of_In, Hdata in Hin. by rewrite Hadd in Hin.
Qed.

(** ** The invariant of reachable states *)

(** The accounts of a root start their histories with the root record. *)
Lemma rootAccount_evolves m id pk p md :
  evolves true id m (<[mapKeyFromPubKey pk := rootAccount id pk p md]> m).
Proof.
  apply (evolves_put _ _ _ _ _ [mkPermissionChange id p]); [|by constructor|by right].
  split; simpl; [by rewrite mkPubKey_mapKey|done].
Qed.

Lemma newAclState_evolves record key v st :
  newAclStateWithKeys record key v = Ok st -> evolves true (rec_Id record) ∅ (accs st).
Proof.
  unfold newAclStateWithKeys, applyRoot. intros Hnew.
  destruct (rec_Model record) as [|root|]; [done| |done].
  match type of Hnew with match ?m with _ => _ end = _ =>
    destruct m as [s [[]|]] eqn:Hrun; [|done] end.
  injection Hnew as ->. set (st0 := emptyAclState _ _ _) in *.
  destruct (root_OneToOneInfo root) as [info|].
  - unfold setOneToOneAcl in Hrun. go_inv.
    match goal with Hif : (if (?b : bool) then _ else _) _ = (?s, Ok tt) |- _ =>
      assert (accs s = ∅) as Hs
        by (destruct b; [by apply deriveOneToOneKeys_frame in Hif as [ks ->]|by go_inv]) end.
    match goal with He : st_each _ _ _ = (?s, Ok tt) |- _ =>
      change (evolves true (rec_Id record) ∅ (accs s));
      eapply (st_each_ind (fun s => evolves true (rec_Id record) ∅ (accs s))); [|exact He|] end.
    + intros w t t' _ Hw Ht. unfold addWriter in Hw. go_inv.
      eapply evolves_trans; [exact Ht|apply rootAccount_evolves].
    + simpl. rewrite Hs. apply rootAccount_evolves.
  - go_inv.
    match goal with Hm : match root_EncryptedReadKey root with _ => _ end _ = (?s, Ok _) |- _ =>
      assert (accs s = ∅) as Hs by (destruct (root_EncryptedReadKey root); by go_inv) end.
    match goal with Hif : (if PubKey_Equals _ _ then _ else _) _ = (?s, Ok tt) |- _ =>
      assert (accs s = ∅) as Hs' end.
    { destruct (PubKey_Equals _ _); [|by go_inv].
      match goal with Hk : saveKeysFromRoot _ _ _ = _ |- _ =>
        by apply saveKeysFromRoot_frame in Hk as [ks ->] end. }
    destruct (root_Options root); go_inv; simpl; rewrite Hs'; apply rootAccount_evolves.
Qed.

Lemma acl_reachable_accts_ok st : acl_reachable st -> accts_ok (accs st).
Proof.
  induction 1 as [record key st Hnew|record st st' Hst IH Hrun|st Hst IH].
  - eapply evolves_ok; [by eapply newAclState_evolves|apply map_Forall_empty].
  - apply acl_reachable_ok in Hst as [_ HV].
    eapply evolves_ok; [|done]. by apply (ApplyRecord_evolves true) in Hrun.
  - done.
Qed.
End ops.
