(* ===== verification/AclRotation.v ===== *)
(** Read key rotation: the check of [validateReadKeyChange] means that a new read
    key is encrypted for exactly the accounts that still have permissions and
    exactly the open invites, and a removal installs such a key.  With it, the chain of read keys: the newest opens all
    earlier ones. *)

From Stdlib Require Import ZArith Lia.
From stdpp Require Import base option list gmap strings relations sorting.
From S2P Require Import Prelude Crypto AclModels AclState AclValidator AclApply AclSpec AclRefine AclHistory.

Open Scope Z_scope.

Lemma sortedEqual_Permutation l1 l2 : sortedEqual l1 l2 = true -> l1 ≡ₚ l2.
Proof.
  unfold sortedEqual. rewrite bool_decide_eq_true. intros Heq.
  by rewrite <- (merge_sort_Permutation String.le l1), Heq, merge_sort_Permutation.
Qed.

Section rotation.
Context `{CryptoPrims} `{AclCodec} `{SharedKeyPrims} `{MapRange}.
Implicit Types (st : AclState) (record : AclRecord).

Abbreviation accs := st_accountStates.

(** The keys a rotation must cover. *)
Lemma activeUsersOf_elem removed l us :
  Forall (fun ka => acct_ok ka.1 ka.2) l ->
  activeUsersOf removed l.*2 = Ok us ->
  forall k, k ∈ us <-> k ∉ removed /\ exists acc, (k, acc) ∈ l /\ NoPermissions (as_Permissions acc) = false.
Proof.
  intros Hok. revert us. induction Hok as [|[k0 acc0] l [Hpk _] Hok IH]; intros us; simpl.
  - intros [= <-] k. split; [by intros ?%not_elem_of_nil|].
    by intros (_ & ? & ?%not_elem_of_nil & _).
  - simpl in Hpk. destruct (NoPermissions (as_Permissions acc0)) eqn:Hn.
    + intros Hus k. rewrite (IH _ Hus). split.
      * intros (? & acc & ? & ?). split; [done|]. exists acc. split; [by right|done].
      * intros (? & acc & [[= -> ->]|?]%elem_of_cons & ?); [congruence|]. split; [done|]. by exists acc.
    + rewrite Hpk. simpl. intros Hrun. go_inv. rename a into rest.
      pose proof (IH _ Hrun0) as Hrest. intros k.
      case_decide as Hd; unfold mapKeyFromPubKey in Hd; simpl in Hd;
        rewrite ?elem_of_cons, Hrest; split.
      * intros (? & acc & ? & ?). split; [done|]. exists acc. split; [by right|done].
      * intros (? & acc & [[= -> ->]|?]%elem_of_cons & ?); [done|]. split; [done|]. by exists acc.
      * intros [->|(? & acc & ? & ?)].
        -- split; [done|]. exists acc0. split; [by left|done].
        -- split; [done|]. exists acc. split; [by right|done].
      * intros (? & acc & [[= -> ->]|?]%elem_of_cons & ?); [by left|].
        right. split; [done|]. by exists acc.
Qed.

(** A key change that passes covers the accounts with permissions that are not
    removed, and nobody else. *)
Lemma validateReadKeyChange_covers st ch removed :
  ShouldValidate st = true -> accts_ok (accs st) ->
  validateReadKeyChange st ch removed = Ok tt ->
  exists rkc covered, ch = Some rkc /\
    res_map keyOfEncrypted (rkc_AccountKeys rkc) = Ok covered /\
    forall pk, mapKeyFromPubKey pk ∈ covered <->
      NoPermissions (Permissions st pk) = false /\ mapKeyFromPubKey pk ∉ removed.
Proof.
  intros HV Hok Hval. apply (when_validating_Ok _ _ _ HV) in Hval. go_inv. subst ch.
  destruct (pubKeyFromProto _) as [mk|]; [|done]. run_inv.
  assert (HF : Forall (fun ka => acct_ok ka.1 ka.2) (map_range (accs st))).
  { apply Forall_forall. intros [k acc] Hk. rewrite map_range_perm in Hk.
    apply elem_of_map_to_list in Hk. by apply Hok. }
  match goal with Ha : activeUsersOf removed _ = Ok ?au |- _ =>
    pose proof (activeUsersOf_elem _ _ _ HF Ha) as Hact end.
  eexists _, _. split; [done|]. split; [done|]. intros pk.
  match goal with Hs : sortedEqual ?au _ = true, Hact : forall k, k ∈ ?au <-> _ |- _ =>
    rewrite <- (sortedEqual_Permutation _ _ Hs) end.
  rewrite Hact. setoid_rewrite map_range_perm. setoid_rewrite elem_of_map_to_list.
  unfold Permissions. split.
  - intros (? & acc & Hacc & Hn). by rewrite Hacc.
  - intros [Hn ?]. split; [done|]. destruct (accs st !! _) as [acc|]; [by exists acc|done].
Qed.

(** The identities a removal collects are those it names. *)
Lemma validateRemovals_seen st author perms seen ids seen' ks :
  validateRemovals st author perms seen ids = Ok seen' ->
  Forall2 (fun raw k => exists pk, pubKeyFromProto raw = Ok pk /\ k = mapKeyFromPubKey pk) ids ks ->
  seen' = seen ∪ list_to_set ks.
Proof.
  intros Hrun Hks. revert seen Hrun.
  induction Hks as [|raw k ids ks (pk & Hpk & ->) Hks IH]; intros seen; simpl.
  - intros [= <-]. set_solver.
  - rewrite Hpk. simpl. intros Hrun. run_inv.
    match goal with Hr : validateRemovals _ _ _ _ _ = Ok _ |- _ => apply IH in Hr as -> end.
    set_solver.
Qed.

Lemma assign_none_role ks r j q k :
  role (mkRoles (assign_roles ((fun k => (k, AclPermissionsNone)) <$> ks) (roles r)) j q) k =
  if decide (k ∈ ks) then AclPermissionsNone else role r k.
Proof.
  unfold role. simpl. generalize (roles r) as m. induction ks as [|k' ks IH]; intros m.
  - case_decide as Hin; [by apply not_elem_of_nil in Hin|done].
  - unfold assign_roles in *. cbn [fmap list_fmap foldl fst snd]. rewrite IH. rewrite lookup_insert.
    repeat case_decide; subst; try done; set_solver.
Qed.

Lemma applyAccountRemove_rotates ch record st st' :
  ShouldValidate st = true -> accts_ok (accs st) ->
  applyAccountRemove ch record st = (st', Ok tt) ->
  CurrentReadKeyId st' = Ok (rec_Id record) /\
  (forall raw pk, raw ∈ arm_Identities ch -> pubKeyFromProto raw = Ok pk ->
     Permissions st' pk = AclPermissionsNone) /\
  (exists rkc covered, arm_ReadKeyChange ch = Some rkc /\
     res_map keyOfEncrypted (rkc_AccountKeys rkc) = Ok covered /\
     forall pk, mapKeyFromPubKey pk ∈ covered <-> NoPermissions (Permissions st' pk) = false).
Proof.
  intros HV Hok Hrun. unfold applyAccountRemove in Hrun. run_inv.
  pose proof (applyReadKeyChange_frame _ _ _ _ _ Hrun) as [_ Hrk].
  apply applyReadKeyChange_abs in Hrun as [Habs' _].
  match goal with He : st_each _ _ _ = _ |- _ =>
    apply applyRemovals_abs in He as (ks & reqs & Hks & _ & Habs & _) end.
  match goal with Hr : validateRemovals _ _ _ _ _ = Ok _ |- _ =>
    apply (validateRemovals_seen _ _ _ _ _ _ ks) in Hr as ->; [|done] end.
  match goal with Hr : validateReadKeyChange _ _ _ = Ok _ |- _ =>
    apply validateReadKeyChange_covers in Hr as (rkc & covered & Hrkc & Hcov & Hiff);
      [|done|done] end.
  assert (Hrole : forall pk, Permissions st' pk =
    if decide (mapKeyFromPubKey pk ∈ ks) then AclPermissionsNone else Permissions st pk).
  { intros pk. by rewrite <- !abs_role, Habs', Habs, assign_none_role. }
  split; [unfold CurrentReadKeyId; by rewrite Hrk, last_snoc|]. split.
  - intros raw pk Hraw Hpk. rewrite Hrole. apply decide_True.
    apply list_elem_of_lookup in Hraw as [i Hi].
    destruct (Forall2_lookup_l _ _ _ _ _ Hks Hi) as (k & Hk & pk' & Hpk' & ->).
    rewrite Hpk in Hpk'. injection Hpk' as <-. by apply list_elem_of_lookup_2 in Hk.
  - exists rkc, covered. split; [done|]. split; [done|]. intros pk. rewrite Hiff, Hrole.
    case_decide; set_solver.
Qed.
End rotation.

(** * The chain of read keys: from the newest read key alone, [unpackAllKeys]
    recovers every earlier read key and metadata key of the space. *)

Section unpack.
Context `{CryptoPrims} `{AclCodec} `{SharedKeyPrims} `{MapRange}.
Implicit Types (st : AclState) (ks : gmap string AclKeys).

(** The read key and metadata key a key change record stands for. *)
Abbreviation link := (string * (SymKey * PrivKey))%type.

Definition keysAt ks (c : string) : AclKeys := default zeroAclKeys (ks !! c).

(** The stored ciphertexts of [ks] chain the keys of [l], newest first: each
    link's read key opens its metadata key and the read key of the next older
    link. *)
Fixpoint chained ks (l : list link) : Prop :=
  match l with
  | [] => True
  | (c, (rk, mk)) :: older =>
      unmarshallDecryptPrivKey (encryptedMetadataKey (keysAt ks c)) (SymKey_Decrypt rk) = Ok mk /\
      match older with
      | [] => True
      | (_, (rk', _)) :: _ =>
          exists e, encryptedPreviousReadKey (keysAt ks c) = Some e /\
            unmarshallDecryptReadKey e (SymKey_Decrypt rk) = Ok rk'
      end /\
      chained ks older
  end.

(** The entry of a link once its keys are known. *)
Definition unpacked ks (x : link) : AclKeys :=
  with_MetadataPrivKey (Some x.2.2) (with_ReadKey (Some x.2.1) (keysAt ks x.1)).

Lemma chained_insert ks l c v :
  c ∉ l.*1 -> chained ks l -> chained (<[c := v]> ks) l.
Proof.
  induction l as [|[c' [rk mk]] older IH]; [done|].
  intros [Hne Hnin]%not_elem_of_cons (Hm & Hp & Hc). simpl in Hne.
  assert (Hk : keysAt (<[c := v]> ks) c' = keysAt ks c').
  { unfold keysAt. by rewrite lookup_insert_ne. }
  split; [by rewrite Hk|]. split; [|by apply IH].
  destruct older as [|[? [? ?]] ?]; [done|]. by rewrite Hk.
Qed.

Lemma keysAt_insert_ne ks c v c' : c <> c' -> keysAt (<[c := v]> ks) c' = keysAt ks c'.
Proof. intros. unfold keysAt. by rewrite lookup_insert_ne. Qed.

(** Total correctness of the loop: it runs to the end without an error, writes
    the true keys of every link and nothing else. *)
Lemma unpackKeys_correct c rk mk older st :
  chained (st_keys st) ((c, (rk, mk)) :: older) -> NoDup (c :: older.*1) ->
  exists ks',
    unpackKeys (c :: older.*1) rk st = (set_keys ks' st, Ok tt) /\
    (forall x, x ∈ (c, (rk, mk)) :: older -> ks' !! x.1 = Some (unpacked (st_keys st) x)) /\
    (forall d, d ∉ c :: older.*1 -> ks' !! d = st_keys st !! d).
Proof.
  revert c rk mk st. induction older as [|[c1 [rk1 mk1]] older IH];
    intros c rk mk st (Hm & Hp & Hc) [Hnin Hnd]%NoDup_cons.
  - eexists. cbn -[unmarshallDecryptPrivKey]. unfold mbind, st_bind, reads, lifts, assigns.
    unfold keysAt in Hm. rewrite Hm. split; [reflexivity|]. simpl. split.
    + intros x ->%list_elem_of_singleton. by rewrite lookup_insert_eq.
    + intros d Hd. rewrite lookup_insert_ne; [done|]. set_solver.
  - destruct Hp as (e & He & Hrk1). set (v := unpacked (st_keys st) (c, (rk, mk))).
    destruct (IH c1 rk1 mk1 (put_keys c v st)) as (ks' & Hrun & Hin & Hout).
    { by apply chained_insert. }
    { done. }
    exists ks'. split; [|split].
    + cbn -[unpackKeys unmarshallDecryptPrivKey unmarshallDecryptReadKey].
      change (unpackKeys (c :: c1 :: older.*1) rk) with (unpackKeys (c :: c1 :: older.*1) rk).
      cbn [unpackKeys]. unfold mbind, st_bind, reads, lifts, assigns.
      fold (keysAt (st_keys st) c). rewrite Hm, He. simpl opt_or. cbv iota beta.
      rewrite Hrk1. exact Hrun.
    + intros x [->|Hx]%elem_of_cons.
      * simpl. rewrite Hout by done. simpl. by rewrite lookup_insert_eq.
      * rewrite Hin by done. unfold unpacked. simpl.
        rewrite keysAt_insert_ne; [done|]. intros ->. apply Hnin. by apply (list_elem_of_fmap_2 fst) in Hx.
    + intros d [Hne Hd]%not_elem_of_cons. rewrite Hout by done. simpl.
      by rewrite lookup_insert_ne.
Qed.

(** The whole operation, given that the account can open the newest key. *)
Lemma unpackAllKeys_correct enc st (l : list link) c rk mk older :
  l = (c, (rk, mk)) :: older ->
  st_readKeyChanges st = rev l.*1 -> NoDup l.*1 ->
  unmarshallDecryptReadKey enc (PrivKey_Decrypt (st_key st)) = Ok rk ->
  chained (st_keys st) l ->
  exists ks', unpackAllKeys enc st = (set_keys ks' st, Ok tt) /\
    (forall x, x ∈ l -> ks' !! x.1 = Some (unpacked (st_keys st) x)) /\
    (forall d, d ∉ l.*1 -> ks' !! d = st_keys st !! d).
Proof.
  intros -> Hch Hnd Henc Hl.
  destruct (unpackKeys_correct c rk mk older st Hl Hnd) as (ks' & Hrun & Hin & Hout).
  exists ks'. split; [|done]. unfold unpackAllKeys, mbind, st_bind, calls, reads.
  rewrite Henc, Hch, rev_involutive. exact Hrun.
Qed.
End unpack.
