(* ===== verification/AclMain.v ===== *)
(** The properties of the ACL: who can change what, what a removal does, what one
    record cannot do.  Each theorem is about the executable definitions of AclState,
    AclValidator and AclApply; the witnesses run them on the space of AclExample. *)

From Stdlib Require Import ZArith Lia String.
From stdpp Require Import base option list gmap strings relations.
From S2P Require Import Prelude Crypto AclModels AclState AclValidator AclApply AclSpec AclRefine AclExample AclHistory AclRotation.

Open Scope Z_scope.

(** ** Authority *)

Section authority.
Context `{CryptoPrims} `{AclCodec} `{SharedKeyPrims} `{MapRange}.
Implicit Types (st : AclState) (record : AclRecord) (pk : PubKey).

(** C1: refinement.  Applying a validated record to a reachable state makes only
    steps the abstract role machine allows the record's author. *)
Theorem acl_refines_roles record st st' :
  acl_reachable st -> ApplyRecord record st = (st', Ok tt) ->
  rtc (acl_step (mapKeyFromPubKey (rec_Identity record))) (abs st) (abs st').
Proof. intros [_ HV]%acl_reachable_ok Hrun. by apply (ApplyRecord_sim record). Qed.

(** C15: a space never has two owners: in every state that validated records can
    reach, two accounts with owner permissions are the same account. *)
Theorem acl_one_owner st pk1 pk2 :
  acl_reachable st ->
  IsOwner (Permissions st pk1) = true -> IsOwner (Permissions st pk2) = true -> pk1 = pk2.
Proof.
  intros [[Hone _] _]%acl_reachable_ok. rewrite <- !abs_role. intros H1' H2'.
  by apply mapKeyFromPubKey_inj, Hone.
Qed.

(** C16: nobody but the owner makes admins.  If a record turns an account into an
    admin, its author was the owner, or the author is that account and joined
    through an anyone-can-join invite that grants the admin role. *)
Theorem acl_admins_from_owner record st st' pk :
  acl_reachable st -> ApplyRecord record st = (st', Ok tt) ->
  IsAdmin (Permissions st pk) = false -> IsAdmin (Permissions st' pk) = true ->
  IsOwner (Permissions st (rec_Identity record)) = true \/
  (pk = rec_Identity record /\ exists id inv, st_invites st !! id = Some inv /\
     inv_Type inv = AclInviteType_AnyoneCanJoin /\ IsAdmin (inv_Permissions inv) = true).
Proof.
  intros [Hinv HV]%acl_reachable_ok Hrun. rewrite <- !abs_role. intros Hk Hk'.
  destruct (ApplyRecord_sim _ _ _ HV Hrun) as [Hs _].
  destruct (rtc_new_admin _ _ _ _ Hs Hinv Hk Hk') as [?|(Heq & id & q & Hj & Hq)]; [by left|].
  right. split; [by apply mapKeyFromPubKey_inj|]. exists id.
  simpl in Hj. rewrite lookup_omap in Hj. apply bind_Some in Hj as (inv & Hinvite & Hj).
  unfold joinPermission in Hj. destruct (inv_Type inv =? _) eqn:Ht; [|done].
  injection Hj as <-. exists inv. split; [done|]. split; [by apply Z.eqb_eq|done].
Qed.

(** The owner keeps the space.  A record leaves the owner the owner unless
    the owner itself signed it (a transfer), or a request of the owner is still
    pending in the state. *)
Theorem acl_owner_kept record st st' pk :
  acl_reachable st -> ApplyRecord record st = (st', Ok tt) ->
  IsOwner (Permissions st pk) = true ->
  IsOwner (Permissions st' pk) = true \/ pk = rec_Identity record \/
  (exists id req, st_requestRecords st !! id = Some req /\ rr_RequestIdentity req = pk).
Proof.
  intros [Hinv HV]%acl_reachable_ok Hrun. rewrite <- !abs_role. intros Hk.
  destruct (ApplyRecord_sim _ _ _ HV Hrun) as [Hs _].
  destruct (rtc_owner _ _ _ _ Hs Hinv Hk) as [?|[Heq|[id Hid]]]; [by left| |].
  - right; left. by apply mapKeyFromPubKey_inj.
  - right; right. simpl in Hid. rewrite lookup_fmap in Hid.
    apply fmap_Some in Hid as (req & Hreq & Heq). exists id, req. split; [done|].
    by apply mapKeyFromPubKey_inj.
Qed.

(** Without an account that is one, there is no owner. *)
Lemma OwnerPubKey_none st : (forall k, IsOwner (role (abs st) k) = false) -> OwnerPubKey st = Err ErrOwnerNotFound.
Proof.
  intros Hno. unfold OwnerPubKey, OwnerPubKeyWithRecordId.
  destruct (list_find _ (map_range (st_accountStates st))) as [[i [k acc]]|] eqn:Hf; [|done]. exfalso.
  apply list_find_Some in Hf as (Hi & Hown & _). apply list_elem_of_lookup_2 in Hi.
  rewrite map_range_perm, elem_of_map_to_list in Hi. specialize (Hno k). unfold role in Hno. simpl in Hno.
  rewrite lookup_fmap, Hi in Hno. simpl in *. congruence.
Qed.

(** C40: the owner can be lost.  The check on answering a request does not look at what the
    requester has become.  In every reachable state of a space with an owner, of which an
    older request is still pending: a record that follows on the last one, by an account
    that may manage accounts, and accepts that request with a role that is neither owner nor
    admin, is validated and applied (by everyone but the owner itself, who would also unpack
    the keys sent along), and the space has no owner any more. *)
Theorem acl_owner_can_be_lost record ch st req :
  acl_reachable st -> st_isOneToOne st = false -> st_lastRecordId st = rec_PrevId record -> rec_Id record <> "" ->
  recordData record = Ok [CRequestAccept ch] ->
  st_requestRecords st !! ara_RequestRecordId ch = Some req ->
  IsOwner (Permissions st (rr_RequestIdentity req)) = true ->
  pubKeyFromProto (ara_Identity ch) = Ok (rr_RequestIdentity req) ->
  CanManageAccounts (Permissions st (rec_Identity record)) = true ->
  IsOwner (ara_Permissions ch) = false /\ IsAdmin (ara_Permissions ch) = false ->
  st_pubKey st <> rr_RequestIdentity req ->
  exists st', ApplyRecord record st = (st', Ok tt) /\ OwnerPubKey st' = Err ErrOwnerNotFound.
Proof.
  intros Hr Hone Hlast Hid Hdata Hreq Hown Hpk Hman [Hp1 Hp2] Hother. apply acl_reachable_ok in Hr as [[Hown1 _] HV].
  assert (ValidateRequestAccept st ch (rec_Identity record) = Ok tt) as Hval.
  { unfold ValidateRequestAccept, when_validating. rewrite HV, Hman, Hreq. simpl. rewrite Hpk. simpl.
    rewrite (proj2 (PubKey_Equals_true _ _) eq_refl). simpl. unfold IsOwner, IsAdmin in *. by rewrite Hp1, Hp2. }
  assert (ValidateAclData st [CRequestAccept ch] = Ok tt) as Hvd by (unfold ValidateAclData; by destruct (cv_admission _)).
  eexists. split.
  - unfold ApplyRecord, calls, lifts, reads, assigns, mbind, st_bind, mret, st_ret. rewrite Hone. simpl.
    rewrite bool_decide_eq_true_2, bool_decide_eq_false_2, Hdata by done. simpl.
    unfold applyChangeData, calls, mbind, st_bind. rewrite Hvd. simpl.
    unfold applyRequestAccept, calls, lifts, reads, assigns, mbind, st_bind. rewrite Hval. simpl. rewrite Hpk. simpl. rewrite Hreq.
    unfold unpackIfOurs, reads, mbind, st_bind. simpl. rewrite (proj2 (PubKey_Equals_false _ _)) by exact Hother. reflexivity.
  - apply OwnerPubKey_none. intros k. apply not_true_is_false. intros Hk. unfold role in Hk. simpl in Hk.
    rewrite fmap_insert, lookup_insert in Hk. case_decide as Hd; [simpl in Hk; congruence|]. apply Hd.
    apply Hown1; [by rewrite abs_role|]. unfold role. exact Hk.
Qed.

(** Members without management rights affect only themselves.  When no open
    invite grants the admin role, a record of an author who cannot manage
    accounts leaves the permissions of every other account as they were. *)
Theorem acl_members_isolated record st st' pk :
  acl_reachable st -> ApplyRecord record st = (st', Ok tt) ->
  CanManageAccounts (Permissions st (rec_Identity record)) = false ->
  (forall id inv, st_invites st !! id = Some inv -> IsAdmin (inv_Permissions inv) = false) ->
  pk <> rec_Identity record -> Permissions st' pk = Permissions st pk.
Proof.
  intros [Hinv HV]%acl_reachable_ok Hrun Hm Hadm Hne. rewrite <- !abs_role.
  destruct (ApplyRecord_sim _ _ _ HV Hrun) as [Hs _].
  eapply rtc_powerless; [exact Hs|done| |by intros ?%mapKeyFromPubKey_inj].
  split; [unfold authorKey; by rewrite abs_role|]. intros id q Hj.
  simpl in Hj. rewrite lookup_omap in Hj. apply bind_Some in Hj as (inv & Hi & Hj).
  unfold joinPermission in Hj. destruct (_ =? _); [|done]. injection Hj as <-. eauto.
Qed.

(** C17: removal rotates the read key.  After accounts are removed, none of them
    has permissions, the current read key is the one of the removal record, and
    that key was encrypted for exactly the accounts that have permissions now. *)
Theorem acl_remove_rotates ch record st st' :
  acl_reachable st -> applyAccountRemove ch record st = (st', Ok tt) ->
  CurrentReadKeyId st' = Ok (rec_Id record) /\
  (forall raw pk, raw ∈ arm_Identities ch -> pubKeyFromProto raw = Ok pk ->
     Permissions st' pk = AclPermissionsNone) /\
  (exists rkc covered, arm_ReadKeyChange ch = Some rkc /\
     res_map keyOfEncrypted (rkc_AccountKeys rkc) = Ok covered /\
     forall pk, mapKeyFromPubKey pk ∈ covered <-> NoPermissions (Permissions st' pk) = false).
Proof.
  intros Hr Hrun. pose proof (acl_reachable_accts_ok _ Hr) as Hok.
  apply acl_reachable_ok in Hr as [_ HV]. by apply (applyAccountRemove_rotates ch record st).
Qed.

(** The history of an account agrees with its present: in every reachable
    state an account entry sits under its own public key and its current
    permissions are those of its last recorded permission change. *)
Theorem acl_history_current st k acc :
  acl_reachable st -> st_accountStates st !! k = Some acc ->
  as_PubKey acc = Some (mkPubKey k) /\
  as_Permissions acc = lastPermission (as_PermissionChanges acc).
Proof. intros Hr Hk. by apply (acl_reachable_accts_ok _ Hr). Qed.

(** One read key opens the whole past.  Whoever can decrypt the newest read
    key of a well-chained space recovers, by unpacking, every older read key and
    metadata key, and no other entry of the state changes. *)
Theorem acl_unpack_all_keys enc st (l : list (string * (SymKey * PrivKey))) c rk mk older :
  l = (c, (rk, mk)) :: older ->
  st_readKeyChanges st = rev l.*1 -> NoDup l.*1 ->
  unmarshallDecryptReadKey enc (PrivKey_Decrypt (st_key st)) = Ok rk ->
  chained (st_keys st) l ->
  exists ks', unpackAllKeys enc st = (set_keys ks' st, Ok tt) /\
    (forall x, x ∈ l -> ks' !! x.1 = Some (unpacked (st_keys st) x)) /\
    (forall d, d ∉ l.*1 -> ks' !! d = st_keys st !! d).
Proof. apply unpackAllKeys_correct. Qed.

(** The log is a chain and one-to-one spaces are frozen.  A record whose
    previous id is not the last applied record, or any record in a one-to-one
    space, is refused and changes nothing; an accepted one becomes the last. *)
Theorem acl_record_sequence record st :
  (st_isOneToOne st = true -> ApplyRecord record st = (st, Err ErrAddRecordOneToOne)) /\
  (st_isOneToOne st = false -> st_lastRecordId st <> rec_PrevId record ->
     ApplyRecord record st = (st, Err ErrIncorrectRecordSequence)) /\
  (forall st', ApplyRecord record st = (st', Ok tt) ->
     st_lastRecordId st = rec_PrevId record /\ st_lastRecordId st' = rec_Id record /\
     rec_Id record <> "").
Proof.
  unfold ApplyRecord. split_and!.
  - intros Ho. unfold mbind at 1, st_bind at 1, calls at 1. by rewrite Ho.
  - intros Ho Hne. unfold mbind, st_bind, calls. rewrite Ho. simpl.
    by rewrite bool_decide_eq_false_2.
  - intros st' Hrun. run_inv. done.
Qed.

(** The key cache is transparent.  Whatever encodings it has seen, looking a
    public key up gives exactly what decoding gives, key or error, and keeps the
    cache in that condition. *)
Theorem keystorage_transparent k pb :
  ks_ok k ->
  exists k', PubKeyFromProto pb k = (k', UnmarshalEd25519PublicKeyProto pb) /\ ks_ok k'.
Proof. apply PubKeyFromProto_refines. Qed.
End authority.

(** ** Witnesses on the example space *)

(** The spaces the witnesses run on: bob asked to join; bob is a writer; bob is an
    admin; bob is the owner. *)
Definition spAsked := [exRoot; exInvite; exAsk].
Definition spWriter := spAsked ++ [exAccept].
Definition spAdmin := spAsked ++ [exAddAdmin].

Lemma spRoot_reachable : acl_reachable (exState [exRoot]).
Proof. apply (Build_reachable [exRoot] (privOf alice)). vm_compute. reflexivity. Qed.
Lemma spAsked_reachable : acl_reachable (exState spAsked).
Proof. apply (Build_reachable spAsked (privOf alice)). vm_compute. reflexivity. Qed.
Lemma spWriter_reachable : acl_reachable (exState spWriter).
Proof. apply (Build_reachable spWriter (privOf alice)). vm_compute. reflexivity. Qed.
Lemma spAdmin_reachable : acl_reachable (exState spAdmin).
Proof. apply (Build_reachable spAdmin (privOf alice)). vm_compute. reflexivity. Qed.

Lemma acl_refines_roles_witness :
  rtc (acl_step (mapKeyFromPubKey (pubOf alice))) (abs (exState spAsked)) (abs (exState spWriter)).
Proof.
  apply (acl_refines_roles exAccept); [apply spAsked_reachable|vm_compute; reflexivity].
Defined.

Lemma acl_one_owner_witness : mkPubKey (rep 32 "A") = pubOf alice.
Proof.
  apply (acl_one_owner (exState spWriter)); [apply spWriter_reachable|..]; vm_compute; reflexivity.
Defined.

Lemma acl_admins_from_owner_witness :
  IsOwner (Permissions (exState spAsked) (pubOf alice)) = true \/
  (pubOf bob = pubOf alice /\ exists id inv, st_invites (exState spAsked) !! id = Some inv /\
     inv_Type inv = AclInviteType_AnyoneCanJoin /\ IsAdmin (inv_Permissions inv) = true).
Proof.
  apply (acl_admins_from_owner exAddAdmin _ (exState spAdmin));
    [apply spAsked_reachable|vm_compute; reflexivity..].
Defined.

Lemma acl_owner_kept_witness :
  IsOwner (Permissions (exState spAsked) (pubOf alice)) = true \/ pubOf alice = pubOf bob \/
  (exists id req, st_requestRecords (exState [exRoot; exInvite]) !! id = Some req /\
     rr_RequestIdentity req = pubOf alice).
Proof.
  apply (acl_owner_kept exAsk); [|vm_compute; reflexivity..].
  apply (Build_reachable [exRoot; exInvite] (privOf alice)). vm_compute. reflexivity.
Defined.

Lemma acl_members_isolated_witness :
  Permissions (exState spAsked) (pubOf alice) = Permissions (exState [exRoot; exInvite]) (pubOf alice).
Proof.
  apply (acl_members_isolated exAsk).
  - apply (Build_reachable [exRoot; exInvite] (privOf alice)). vm_compute. reflexivity.
  - vm_compute. reflexivity.
  - vm_compute. reflexivity.
  - apply (map_Forall_to_list (fun _ inv => IsAdmin (inv_Permissions inv) = false)).
    vm_compute. repeat constructor.
  - intros [=].
Defined.

(** alice removes the writer bob and rotates to [key2]. *)
Definition exRemoval : AclAccountRemove :=
  mkAclAccountRemove [idOf bob]
    (Some (mkAclReadKeyChange [mkAclEncryptedReadKey (idOf alice) (boxTo alice key2)]
       (idOf "N") (Some (metaSealed key2 "N"))
       (Some (seal key2 (toy_marshal KeyType_AES (symRaw key1)))) [])).
Definition exRemove := exRec "r4" "r3" alice [CAccountRemove exRemoval].

Lemma acl_remove_rotates_witness :
  let st' := fst (applyAccountRemove exRemoval exRemove (exState spWriter)) in
  CurrentReadKeyId st' = Ok "r4" /\
  (forall raw pk, raw ∈ [idOf bob] -> pubKeyFromProto raw = Ok pk ->
     Permissions st' pk = AclPermissionsNone) /\
  (exists rkc covered, arm_ReadKeyChange exRemoval = Some rkc /\
     res_map keyOfEncrypted (rkc_AccountKeys rkc) = Ok covered /\
     forall pk, mapKeyFromPubKey pk ∈ covered <-> NoPermissions (Permissions st' pk) = false).
Proof.
  cbv zeta. apply (acl_remove_rotates exRemoval exRemove (exState spWriter));
    [apply spWriter_reachable|vm_compute; reflexivity].
Defined.

Lemma acl_history_current_witness :
  exists acc, st_accountStates (exState spWriter) !! mapKeyFromPubKey (pubOf bob) = Some acc /\
    as_PubKey acc = Some (mkPubKey (mapKeyFromPubKey (pubOf bob))) /\
    as_Permissions acc = lastPermission (as_PermissionChanges acc).
Proof.
  eexists. split; [vm_compute; reflexivity|].
  apply (acl_history_current (exState spWriter) (mapKeyFromPubKey (pubOf bob)));
    [apply spWriter_reachable|vm_compute; reflexivity].
Defined.

(** After the removal the space has two chained keys. *)
Definition spRotated := spWriter ++ [exRemove].

Lemma acl_unpack_all_keys_witness :
  exists ks', unpackAllKeys (boxTo alice key2) (exState spRotated) =
      (set_keys ks' (exState spRotated), Ok tt) /\
    (forall x, x ∈ [("r4", (key2, privOf "N")); ("root", (key1, privOf "M"))] ->
       ks' !! x.1 = Some (unpacked (st_keys (exState spRotated)) x)) /\
    (forall d, d ∉ ["r4"; "root"] -> ks' !! d = st_keys (exState spRotated) !! d).
Proof.
  apply (acl_unpack_all_keys (boxTo alice key2) (exState spRotated)
           [("r4", (key2, privOf "N")); ("root", (key1, privOf "M"))]
           "r4" key2 (privOf "N") [("root", (key1, privOf "M"))]).
  - reflexivity.
  - vm_compute. reflexivity.
  - apply (bool_decide_unpack _). vm_compute. exact I.
  - vm_compute. reflexivity.
  - split; [vm_compute; reflexivity|]. split.
    + eexists. split; vm_compute; reflexivity.
    + split; [vm_compute; reflexivity|]. done.
Defined.

Lemma keystorage_transparent_witness :
  exists k', PubKeyFromProto (idOf alice) NewKeyStorage =
      (k', UnmarshalEd25519PublicKeyProto (idOf alice)) /\ ks_ok k'.
Proof. apply keystorage_transparent. apply NewKeyStorage_ok. Defined.

(** ** Where the code falls short of its own comments *)

(** bob asked to join, was added as an admin by alice all the same, and was handed the space;
    alice, an admin now, answers his old request. *)
Definition spHandedOver := spAdmin ++
  [exRec "r4" "r3" alice [COwnershipChange (mkAclOwnershipChange (idOf bob) AclPermissionsAdmin)]].
Definition exLateAccept : AclAccountRequestAccept :=
  mkAclAccountRequestAccept (idOf bob) "r2" (boxTo bob key1) AclPermissionsReader.

Lemma acl_owner_can_be_lost_witness :
  IsOwner (Permissions (exState spHandedOver) (pubOf bob)) = true /\
  exists st', ApplyRecord (exRec "r5" "r4" alice [CRequestAccept exLateAccept]) (exState spHandedOver) = (st', Ok tt) /\
    OwnerPubKey st' = Err ErrOwnerNotFound.
Proof.
  split; [vm_compute; reflexivity|].
  destruct (st_requestRecords (exState spHandedOver) !! "r2") as [req|] eqn:Hreq; [|exfalso; revert Hreq; vm_compute; discriminate].
  apply (acl_owner_can_be_lost _ exLateAccept (exState spHandedOver) req).
  - apply (Build_reachable spHandedOver (privOf alice)). vm_compute. reflexivity.
  - vm_compute. reflexivity.
  - vm_compute. reflexivity.
  - discriminate.
  - reflexivity.
  - exact Hreq.
  - revert Hreq. vm_compute. intros [= <-]. reflexivity.
  - revert Hreq. vm_compute. intros [= <-]. reflexivity.
  - vm_compute. reflexivity.
  - split; vm_compute; reflexivity.
  - revert Hreq. vm_compute. intros [= <-]. discriminate.
Defined.

(** An admin can demote an admin.  A request to be removed is answered like a
    request to join: dave, an admin, accepts the removal request of the admin bob
    with a reader role, although only the owner may take the admin role away. *)
Theorem acl_admin_demotes_admin :
  exists records record st st',
    Build records (privOf alice) true = Ok st /\ ApplyRecord record st = (st', Ok tt) /\
    IsOwner (Permissions st (rec_Identity record)) = false /\
    IsAdmin (Permissions st (pubOf bob)) = true /\ pubOf bob <> rec_Identity record /\
    Permissions st' (pubOf bob) = AclPermissionsReader.
Proof.
  exists ([exRoot; exRec "r1" "root" alice
      [CAccountsAdd [mkAclAccountAdd (idOf bob) AclPermissionsAdmin "" "";
                     mkAclAccountAdd (idOf dave) AclPermissionsAdmin "" ""]];
     exRec "r2" "r1" bob [CAccountRequestRemove]]).
  exists (exRec "r3" "r2" dave [CRequestAccept (mkAclAccountRequestAccept (idOf bob) "r2" ""
    AclPermissionsReader)]).
  eexists _, _. split_and!; try (vm_compute; reflexivity). intros [=].
Qed.

(** One record keeps one invite.  Invites are stored under the record's id, so
    of two invites in one (batch) record only the last survives. *)
Theorem acl_batch_invites_collide inv1 inv2 record st st' :
  applyInvite inv1 record st = (st', Ok tt) ->
  forall st'', applyInvite inv2 record st' = (st'', Ok tt) ->
    st_invites st'' = <[rec_Id record := mkInvite
      (match pubKeyFromProto (ai_InviteKey inv2) with Ok k => k | Err _ => mkPubKey "" end)
      (ai_InviteType inv2) (ai_Permissions inv2) (rec_Id record)
      (slice (ai_EncryptedReadKey inv2))]> (st_invites st).
Proof.
  unfold applyInvite. intros H1 st'' H2. go_inv. simpl.
  match goal with Hp : pubKeyFromProto (ai_InviteKey inv2) = Ok _ |- _ => rewrite Hp end.
  by rewrite insert_insert_eq.
Qed.

(** Two invites in record [r1]. *)
Definition exTwo (k : string) : AclAccountInvite :=
  mkAclAccountInvite (idOf k) AclInviteType_RequestToJoin AclPermissionsNone None.
Definition exTwoRec := exRec "r1" "root" alice [CInvite (exTwo "I"); CInvite (exTwo "J")].
Definition exTwo1 := fst (applyInvite (exTwo "I") exTwoRec (exState [exRoot])).
Definition exTwo2 := fst (applyInvite (exTwo "J") exTwoRec exTwo1).

Lemma acl_batch_invites_collide_witness :
  st_invites exTwo2 =
  <["r1" := mkInvite (pubOf "J") AclInviteType_RequestToJoin AclPermissionsNone "r1" ""]>
    (st_invites (exState [exRoot])).
Proof.
  apply (acl_batch_invites_collide (exTwo "I") (exTwo "J") exTwoRec (exState [exRoot]) exTwo1);
    vm_compute; reflexivity.
Defined.
