(* ===== verification/AclStorage.v ===== *)
(** Storage of the ACL log (src/commonspace/object/acl/list/storage.go and
    inmemorystorage.go): the [Storage] interface as a class of operations, the laws
    the list relies on, and the in-memory implementation, which is proved to obey
    them. *)

From Stdlib Require Import ZArith Lia.
From stdpp Require Import base option list gmap strings.
From S2P Require Import Prelude AclModels.

Local Open Scope Z_scope.

Record RawRecordWithId := mkRawRecordWithId {
  rwi_Payload : bytes;
  rwi_Id : string;
}.

Record StorageRecord := mkStorageRecord {
  sr_RawRecord : bytes;
  sr_PrevId : string;
  sr_Id : string;
  sr_Order : Z;
  sr_ChangeSize : Z;
}.

(** [StorageRecord.RawRecordWithId] *)
Definition rawOf (c : StorageRecord) : RawRecordWithId :=
  mkRawRecordWithId (sr_RawRecord c) (sr_Id c).

(** [StorageIterator] over a variable [V] of the caller: it says whether to go on. *)
Abbreviation StorageIterator V := (StorageRecord -> ST V bool).

Class AclStorage (T : Type) := {
  Storage_Id : T -> string;
  Storage_Root : T -> res StorageRecord;
  Storage_Head : T -> res string;
  Storage_Get : T -> string -> res StorageRecord;
  Storage_GetAfterOrder : T -> Z -> forall V, StorageIterator V -> ST V unit;
  Storage_GetBeforeOrder : T -> Z -> forall V, StorageIterator V -> ST V unit;
  Storage_AddAll : list StorageRecord -> ST T unit;
}.

(** [for ... { if cont, err := iter(rec); !cont || err != nil { return err } }] *)
Fixpoint visit {V} (iter : StorageIterator V) (l : list StorageRecord) : ST V unit :=
  match l with
  | [] => mret tt
  | sr :: l => cont ← iter sr; if (cont : bool) then visit iter l else mret tt
  end.

(** What a storage promises the list.  [storage_log] is the sequence of stored
    records, numbered from 1; the laws speak of storages whose ids are distinct. *)
Definition log_ok (log : list StorageRecord) : Prop :=
  NoDup (sr_Id <$> log) /\
  forall i sr, log !! i = Some sr -> sr_Order sr = Z.of_nat i + 1.

Class AclStorageLaws (T : Type) `{AclStorage T} := {
  storage_log : T -> list StorageRecord;
  storage_wf : T -> Prop;
  storage_log_ok s : storage_wf s -> log_ok (storage_log s);
  storage_Root_law s : storage_wf s ->
    exists root, Storage_Root s = Ok root /\ storage_log s !! 0%nat = Some root /\
      Storage_Id s = sr_Id root;
  storage_Head_law s sr : storage_wf s -> last (storage_log s) = Some sr ->
    Storage_Head s = Ok (sr_Id sr);
  storage_Get_law s sr : storage_wf s -> sr ∈ storage_log s -> Storage_Get s (sr_Id sr) = Ok sr;
  storage_Get_inv s id sr : storage_wf s -> Storage_Get s id = Ok sr ->
    sr ∈ storage_log s /\ sr_Id sr = id;
  storage_After_law s order V (iter : StorageIterator V) v : storage_wf s -> 1 <= order ->
    Storage_GetAfterOrder s order V iter v =
    visit iter (drop (Z.to_nat order - 1) (storage_log s)) v;
  storage_Before_law s order V (iter : StorageIterator V) v : storage_wf s ->
    1 <= order <= Z.of_nat (length (storage_log s)) ->
    Storage_GetBeforeOrder s order V iter v =
    visit iter (take (Z.to_nat order) (storage_log s)) v;
  (** A record is stored completely or not at all. *)
  storage_AddAll_law s sr s' r : storage_wf s -> sr_Id sr ∉ sr_Id <$> storage_log s ->
    sr_Order sr = Z.of_nat (length (storage_log s)) + 1 ->
    Storage_AddAll [sr] s = (s', r) ->
    storage_wf s' /\ Storage_Id s' = Storage_Id s /\
    storage_log s' = match r with Ok _ => storage_log s ++ [sr] | Err _ => storage_log s end;
}.

(** Appending the next record keeps a log numbered and its ids distinct. *)
Lemma log_ok_snoc log sr :
  log_ok log -> sr_Id sr ∉ sr_Id <$> log -> sr_Order sr = Z.of_nat (length log) + 1 ->
  log_ok (log ++ [sr]).
Proof.
  intros [Hnd Hord] Hid Ho. split.
  - rewrite fmap_app. apply NoDup_app. split_and!; [done| |apply NoDup_singleton].
    by intros x Hx ->%list_elem_of_singleton.
  - intros i sr'. rewrite lookup_app_Some. intros [Hi|[Hle Hi]]; [by apply Hord|].
    apply list_lookup_singleton_Some in Hi as [Hi <-]. rewrite Ho. lia.
Qed.

(** ** The in-memory storage *)

Record inMemoryStorage := mkInMemoryStorage {
  ims_id : string;
  ims_root : StorageRecord;
  ims_head : string;
  ims_recordsToIndex : gmap string nat;
  ims_records : list StorageRecord;
}.

(** The records of a new storage: each follows the one before it. *)
Fixpoint storageRecordsFrom (prev : StorageRecord) (l : list RawRecordWithId)
    : list StorageRecord :=
  match l with
  | [] => []
  | rec :: l =>
      let sr := mkStorageRecord (rwi_Payload rec) (sr_Id prev) (rwi_Id rec) (sr_Order prev + 1)
                  (Z.of_nat (String.length (rwi_Payload rec))) in
      sr :: storageRecordsFrom sr l
  end.

(** [recordsToIndex[rec.Id] = i] for the records in order *)
Fixpoint indexFrom (i : nat) (ids : list string) (m : gmap string nat) : gmap string nat :=
  match ids with
  | [] => m
  | id :: ids => indexFrom (S i) ids (<[id := i]> m)
  end.

Definition NewInMemoryStorage (records : list RawRecordWithId) : res inMemoryStorage :=
  match records with
  | [] => Err (GoError "empty records")
  | first :: rest =>
      let root := mkStorageRecord (rwi_Payload first) "" (rwi_Id first) 1
                    (Z.of_nat (String.length (rwi_Payload first))) in
      let srs := root :: storageRecordsFrom root rest in
      Ok (mkInMemoryStorage (sr_Id root) root (rwi_Id (default first (last records)))
            (indexFrom 0 (sr_Id <$> srs) ∅) srs)
  end.

Definition ims_Root (t : inMemoryStorage) : res StorageRecord := Ok (ims_root t).
Definition ims_Head (t : inMemoryStorage) : res string := Ok (ims_head t).
Definition ims_Has (t : inMemoryStorage) (id : string) : res bool :=
  Ok (bool_decide (is_Some (ims_recordsToIndex t !! id))).
Definition ims_Get (t : inMemoryStorage) (id : string) : res StorageRecord :=
  match ims_recordsToIndex t !! id with
  | Some idx => opt_or (ims_records t !! idx) (GoPanic "index out of range")
  | None => Err ErrNoSuchRecord
  end.

Definition ims_GetAfterOrder (t : inMemoryStorage) (order : Z) V (iter : StorageIterator V)
    : ST V unit :=
  if (Z.of_nat (length (ims_records t)) <? order) || (order <? 1) then mret tt
  else visit iter (drop (Z.to_nat (order - 1)) (ims_records t)).

Definition ims_GetBeforeOrder (t : inMemoryStorage) (order : Z) V (iter : StorageIterator V)
    : ST V unit :=
  if (Z.of_nat (length (ims_records t)) <? order) || (order <? 1) then mret tt
  else visit iter (take (Z.to_nat order) (ims_records t)).

Definition ims_append (rec : StorageRecord) (t : inMemoryStorage) : inMemoryStorage :=
  mkInMemoryStorage (ims_id t) (ims_root t) (ims_head t)
    (<[sr_Id rec := length (ims_records t)]> (ims_recordsToIndex t)) (ims_records t ++ [rec]).

(** An empty slice panics on [records[len(records)-1]]. *)
Definition ims_AddAll (records : list StorageRecord) : ST inMemoryStorage unit :=
  st_each (fun rec => assigns (ims_append rec)) records ;;
  rec ← lifts (opt_or (last records) (GoPanic "index out of range"));
  assigns (fun t => mkInMemoryStorage (ims_id t) (ims_root t) (sr_Id rec)
                      (ims_recordsToIndex t) (ims_records t)).

#[global] Instance ims_storage : AclStorage inMemoryStorage := {|
  Storage_Id := ims_id;
  Storage_Root := ims_Root;
  Storage_Head := ims_Head;
  Storage_Get := ims_Get;
  Storage_GetAfterOrder := ims_GetAfterOrder;
  Storage_GetBeforeOrder := ims_GetBeforeOrder;
  Storage_AddAll := ims_AddAll;
|}.

(** ** It obeys the laws *)

(** The index of a list of distinct ids. *)
Definition indexes_ok (m : gmap string nat) (ids : list string) : Prop :=
  forall id i, m !! id = Some i <-> ids !! i = Some id.

Lemma indexes_ok_snoc m ids id :
  indexes_ok m ids -> id ∉ ids -> indexes_ok (<[id := length ids]> m) (ids ++ [id]).
Proof.
  intros Hm Hid id' i. rewrite lookup_insert, lookup_app_Some. case_decide as Hd.
  - subst id'. split.
    + intros [= <-]. right. by rewrite Nat.sub_diag.
    + intros [Hi|[Hle Hi]]; [by apply list_elem_of_lookup_2 in Hi|].
      apply list_lookup_singleton_Some in Hi as [? _]. f_equal. lia.
  - rewrite (Hm id' i). split; [by left|]. intros [?|[_ Hi]]; [done|].
    by apply list_lookup_singleton_Some in Hi as [_ ?].
Qed.

Lemma indexFrom_ok ids m pre :
  indexes_ok m pre -> NoDup (pre ++ ids) ->
  indexes_ok (indexFrom (length pre) ids m) (pre ++ ids).
Proof.
  revert m pre. induction ids as [|id ids IH]; intros m pre Hm Hnd; simpl.
  - by rewrite app_nil_r.
  - replace (S (length pre)) with (length (pre ++ [id])) by (rewrite length_app; simpl; lia).
    replace (pre ++ id :: ids) with ((pre ++ [id]) ++ ids) in * by by rewrite <- app_assoc.
    apply IH; [|done].
    apply indexes_ok_snoc; [done|]. apply NoDup_app in Hnd as [Hnd _].
    apply NoDup_app in Hnd as (_ & Hd & _). intros Hin. apply (Hd _ Hin). by left.
Qed.

Record ims_wf (t : inMemoryStorage) : Prop := mkImsWf {
  ims_wf_log : log_ok (ims_records t);
  ims_wf_index : indexes_ok (ims_recordsToIndex t) (sr_Id <$> ims_records t);
  ims_wf_root : ims_records t !! 0%nat = Some (ims_root t);
  ims_wf_id : ims_id t = sr_Id (ims_root t);
  ims_wf_head : sr_Id <$> last (ims_records t) = Some (ims_head t);
}.

Lemma ims_AddAll_one sr t :
  ims_AddAll [sr] t =
  (mkInMemoryStorage (ims_id t) (ims_root t) (sr_Id sr)
     (<[sr_Id sr := length (ims_records t)]> (ims_recordsToIndex t))
     (ims_records t ++ [sr]), Ok tt).
Proof. done. Qed.

Lemma ims_append_wf t sr :
  ims_wf t -> sr_Id sr ∉ sr_Id <$> ims_records t ->
  sr_Order sr = Z.of_nat (length (ims_records t)) + 1 ->
  ims_wf (fst (ims_AddAll [sr] t)).
Proof.
  intros [Hlog Hidx Hroot Hid Hhead] Hnew Hord. rewrite ims_AddAll_one. simpl. constructor; simpl.
  - by apply log_ok_snoc.
  - rewrite fmap_app. simpl. rewrite <- (length_fmap sr_Id). by apply indexes_ok_snoc.
  - by apply lookup_app_l_Some.
  - done.
  - by rewrite last_snoc.
Qed.

#[global] Program Instance ims_laws : AclStorageLaws inMemoryStorage := {|
  storage_log := ims_records;
  storage_wf := ims_wf;
|}.
Next Obligation. intros s [? _ _ _ _]. done. Qed.
Next Obligation. intros s [_ _ Hroot Hid _]. exists (ims_root s). done. Qed.
Next Obligation.
  intros s sr [_ _ _ _ Hhead] Hl. simpl. unfold ims_Head. rewrite Hl in Hhead. by injection Hhead as <-.
Qed.
Next Obligation.
  intros s sr [_ Hidx _ _ _] [i Hi]%list_elem_of_lookup_1. simpl. unfold ims_Get.
  assert (ims_recordsToIndex s !! sr_Id sr = Some i) as ->.
  { apply Hidx. by rewrite list_lookup_fmap, Hi. }
  by rewrite Hi.
Qed.
Next Obligation.
  intros s id sr [_ Hidx _ _ _]. simpl. unfold ims_Get.
  destruct (ims_recordsToIndex s !! id) as [i|] eqn:Hi; [|done]. intros Hsr%opt_or_Ok.
  apply Hidx in Hi. rewrite list_lookup_fmap, Hsr in Hi. injection Hi as <-.
  split; [by eapply list_elem_of_lookup_2|done].
Qed.
Next Obligation.
  intros s order V iter v _ Ho. simpl. unfold ims_GetAfterOrder.
  destruct (_ <? order) eqn:Hlt; simpl.
  - rewrite drop_ge by lia. done.
  - rewrite (proj2 (Z.ltb_ge order 1)) by lia. by rewrite Z2Nat.inj_sub by lia.
Qed.
Next Obligation.
  intros s order V iter v _ Ho. simpl in *. unfold ims_GetBeforeOrder.
  rewrite (proj2 (Z.ltb_ge _ order)) by lia. by rewrite (proj2 (Z.ltb_ge order 1)) by lia.
Qed.
Next Obligation.
  intros s sr s' r Hwf Hnew Hord. pose proof (ims_append_wf s sr Hwf Hnew Hord) as Hwf'.
  simpl. rewrite ims_AddAll_one. intros [= <- <-]. by rewrite ims_AddAll_one in Hwf'.
Qed.

(** ** A new storage is well formed *)

Lemma storageRecordsFrom_ids prev l : sr_Id <$> storageRecordsFrom prev l = rwi_Id <$> l.
Proof. revert prev. induction l as [|r l IH]; intros prev; simpl; [done|]. by rewrite IH. Qed.

Lemma storageRecordsFrom_order prev l i sr :
  storageRecordsFrom prev l !! i = Some sr -> sr_Order sr = sr_Order prev + Z.of_nat i + 1.
Proof.
  revert prev i. induction l as [|r l IH]; intros prev i; simpl; [done|].
  destruct i as [|i]; simpl; [intros [= <-]; simpl; lia|].
  intros Hi%IH. simpl in Hi. lia.
Qed.

Lemma NewInMemoryStorage_wf records t :
  NoDup (rwi_Id <$> records) -> NewInMemoryStorage records = Ok t -> ims_wf t.
Proof.
  intros Hnd. destruct records as [|first rest]; [done|]. simpl. intros [= <-].
  set (root := mkStorageRecord _ _ _ _ _) in *.
  assert (sr_Id <$> (root :: storageRecordsFrom root rest) = rwi_Id <$> (first :: rest)) as Hids
    by (simpl; by rewrite storageRecordsFrom_ids).
  constructor; simpl; [|..|done|done|].
  - split; [by rewrite Hids|]. intros [|i] sr; simpl; [by intros [= <-]|].
    intros ->%storageRecordsFrom_order. simpl. lia.
  - rewrite storageRecordsFrom_ids.
    refine (indexFrom_ok (rwi_Id first :: (rwi_Id <$> rest)) ∅ [] _ Hnd).
    intros id i. by rewrite lookup_empty.
  - change (sr_Id <$> last (root :: storageRecordsFrom root rest) =
      Some (rwi_Id (default first (last (first :: rest))))).
    rewrite <- fmap_last, Hids, fmap_last. destruct (last (first :: rest)) eqn:Hl; [done|].
    by apply last_None in Hl.
Qed.
