(* ===== verification/AclKeep.v ===== *)
(** The shrinking decoder of ACL records
    (src/commonspace/object/acl/list/keepidentity.go): when records are not
    validated, a read key change is decoded with our own entry only.  The wire
    reader (protowire) and the generated decoders are parameters.  The theorem of
    this file is the safety claim of the decoder: applying the shrunken record
    gives the state the full record gives. *)

From Stdlib Require Import ZArith Lia String.
From stdpp Require Import base option list gmap strings.
From S2P Require Import Prelude Crypto AclModels AclState AclValidator AclApply.

Local Open Scope Z_scope.

(** google.golang.org/protobuf/encoding/protowire: [ConsumeTag] gives field number,
    wire type and length, [ConsumeBytes] a payload and its length; [None] is a
    negative length. *)
Class ProtoWire := {
  protowire_ConsumeTag : bytes -> option (Z * Z * nat);
  protowire_ConsumeBytes : bytes -> option (bytes * nat);
  AclEncryptedReadKey_UnmarshalVT : bytes -> res AclEncryptedReadKey;
}.

Definition protowire_StartGroupType : Z := 3.
Definition protowire_EndGroupType : Z := 4.

Definition fieldAclDataContent : Z := 1.
Definition fieldContentReadKeyChange : Z := 7.
Definition fieldContentAccountRemove : Z := 6.
Definition fieldRkcAccountKeys : Z := 1.
Definition fieldRkcMetadataPubKey : Z := 2.
Definition fieldRkcEncryptedMetadataPriv : Z := 3.
Definition fieldRkcEncryptedOldReadKey : Z := 4.
Definition fieldRkcInviteKeys : Z := 5.
Definition fieldAccountRemoveIdentities : Z := 1.
Definition fieldAccountRemoveReadKeyChange : Z := 2.
Definition fieldEncReadKeyIdentity : Z := 1.
Definition fieldEncReadKeyEncryptedKey : Z := 2.
Definition wireBytes : Z := 2.

Definition errNonCanonical := GoError "keep-identity: non-canonical input".

(** [dAtA[n:]] *)
Definition bytes_drop (n : nat) (b : bytes) : bytes :=
  String.substring n (String.length b - n) b.

Section keep.
Context `{CryptoPrims} `{AclCodec} `{SharedKeyPrims} `{MapRange} `{ProtoWire}.
Variable isOurs : bytes -> bool.

(** ** The strict fast path

    The readers take the rest of the buffer and return it past what they read. *)

Definition readTag (dAtA : bytes) : res (Z * Z * bytes) :=
  match protowire_ConsumeTag dAtA with
  | None => Err errNonCanonical
  | Some (num, typ, n) =>
      fail_if ((typ =? protowire_StartGroupType) || (typ =? protowire_EndGroupType))
        errNonCanonical ;;
      Ok (num, typ, bytes_drop n dAtA)
  end.

Definition readBytes (dAtA : bytes) : res (bytes * bytes) :=
  '(b, n) ← opt_or (protowire_ConsumeBytes dAtA) errNonCanonical;
  Ok (b, bytes_drop n dAtA).

(** [for i < l { readTag; test; readBytes; switch }]: the loop the decoders share.
    Each round consumes a byte at least, so [length dAtA] rounds are enough. *)
Fixpoint fieldLoop {S} (fuel : nat) (accepts : Z -> Z -> bool) (step : Z -> bytes -> S -> res S)
    (dAtA : bytes) (s : S) : res S :=
  match dAtA, fuel with
  | EmptyString, _ => Ok s
  | _, O => Err errNonCanonical
  | _, Datatypes.S fuel =>
      '(field, wt, rest) ← readTag dAtA;
      fail_if (negb (accepts field wt)) errNonCanonical ;;
      '(body, rest) ← readBytes rest;
      s ← step field body s;
      fieldLoop fuel accepts step rest s
  end.

Definition isBytes (_ wt : Z) : bool := wt =? wireBytes.

(** Strict validation of one element: identity and key at most once each. *)
Definition encryptedReadKeyMatches (elem : bytes) : res bool :=
  '(identity, _, _) ← fieldLoop (String.length elem) isBytes
    (fun field body '(identity, seenIdentity, seenKey) =>
       if field =? fieldEncReadKeyIdentity then
         fail_if seenIdentity errNonCanonical ;; Ok (body, true, seenKey)
       else if field =? fieldEncReadKeyEncryptedKey then
         fail_if seenKey errNonCanonical ;; Ok (identity, seenIdentity, true)
       else Err errNonCanonical)
    elem ("", false, false);
  Ok (isOurs identity).

(** [out] and the flags [seenMeta, seenEncMeta, seenOldKey] *)
Definition keepRkcField (field : Z) (body : bytes)
    (s : AclReadKeyChange * (bool * bool * bool)) : res (AclReadKeyChange * (bool * bool * bool)) :=
  let '(out, (seenMeta, seenEncMeta, seenOldKey)) := s in
  if field =? fieldRkcAccountKeys then
    keep ← encryptedReadKeyMatches body;
    if (keep : bool) then
      ek ← AclEncryptedReadKey_UnmarshalVT body;
      Ok (mkAclReadKeyChange (rkc_AccountKeys out ++ [ek]) (rkc_MetadataPubKey out)
            (rkc_EncryptedMetadataPrivKey out) (rkc_EncryptedOldReadKey out)
            (rkc_InviteKeys out), (seenMeta, seenEncMeta, seenOldKey))
    else Ok s
  else if field =? fieldRkcMetadataPubKey then
    fail_if seenMeta errNonCanonical ;;
    Ok (mkAclReadKeyChange (rkc_AccountKeys out) body (rkc_EncryptedMetadataPrivKey out)
          (rkc_EncryptedOldReadKey out) (rkc_InviteKeys out), (true, seenEncMeta, seenOldKey))
  else if field =? fieldRkcEncryptedMetadataPriv then
    fail_if seenEncMeta errNonCanonical ;;
    Ok (mkAclReadKeyChange (rkc_AccountKeys out) (rkc_MetadataPubKey out) (Some body)
          (rkc_EncryptedOldReadKey out) (rkc_InviteKeys out), (seenMeta, true, seenOldKey))
  else if field =? fieldRkcEncryptedOldReadKey then
    fail_if seenOldKey errNonCanonical ;;
    Ok (mkAclReadKeyChange (rkc_AccountKeys out) (rkc_MetadataPubKey out)
          (rkc_EncryptedMetadataPrivKey out) (Some body) (rkc_InviteKeys out),
        (seenMeta, seenEncMeta, true))
  else if field =? fieldRkcInviteKeys then
    ek ← AclEncryptedReadKey_UnmarshalVT body;
    Ok (mkAclReadKeyChange (rkc_AccountKeys out) (rkc_MetadataPubKey out)
          (rkc_EncryptedMetadataPrivKey out) (rkc_EncryptedOldReadKey out)
          (rkc_InviteKeys out ++ [ek]), (seenMeta, seenEncMeta, seenOldKey))
  else Err errNonCanonical.

Definition keepReadKeyChange (dAtA : bytes) : res AclReadKeyChange :=
  '(out, _) ← fieldLoop (String.length dAtA) isBytes keepRkcField dAtA
                (mkAclReadKeyChange [] "" None None [], (false, false, false));
  Ok out.

(** A split submessage is merged by the generated decoder, so it is refused. *)
Definition keepAccountRemove (dAtA : bytes) : res AclAccountRemove :=
  '(out, _) ← fieldLoop (String.length dAtA) isBytes
    (fun field body '(out, seenReadKeyChange) =>
       if field =? fieldAccountRemoveIdentities then
         Ok (mkAclAccountRemove (arm_Identities out ++ [body]) (arm_ReadKeyChange out),
             seenReadKeyChange)
       else if field =? fieldAccountRemoveReadKeyChange then
         fail_if seenReadKeyChange errNonCanonical ;;
         rkc ← keepReadKeyChange body;
         Ok (mkAclAccountRemove (arm_Identities out) (Some rkc), true)
       else Err errNonCanonical)
    dAtA (mkAclAccountRemove [] None, false);
  Ok out.

Definition keepContentValue (cv : bytes) : res AclContentValue :=
  '(field, wt, rest) ← readTag cv;
  fail_if (negb (wt =? wireBytes)) errNonCanonical ;;
  '(body, rest) ← readBytes rest;
  fail_if (negb (bool_decide (rest = ""))) errNonCanonical ;;
  if field =? fieldContentReadKeyChange then
    rkc ← keepReadKeyChange body; Ok (CReadKeyChange rkc)
  else if field =? fieldContentAccountRemove then
    ar ← keepAccountRemove body; Ok (CAccountRemove ar)
  else Err errNonCanonical.

Definition keepIdentityFast (dAtA : bytes) : res AclData :=
  fieldLoop (String.length dAtA)
    (fun field wt => (field =? fieldAclDataContent) && (wt =? wireBytes))
    (fun _ body out => content ← keepContentValue body; Ok (out ++ [content])) dAtA [].

(** ** The reference: decode in full, then filter *)

Definition filterAccountKeys (keys : list AclEncryptedReadKey) : list AclEncryptedReadKey :=
  List.filter (fun k => isOurs (erk_Identity k)) keys.

Definition shrinkRkc (rkc : AclReadKeyChange) : AclReadKeyChange :=
  mkAclReadKeyChange (filterAccountKeys (rkc_AccountKeys rkc)) (rkc_MetadataPubKey rkc)
    (rkc_EncryptedMetadataPrivKey rkc) (rkc_EncryptedOldReadKey rkc) (rkc_InviteKeys rkc).

Definition shrinkContent (c : AclContentValue) : AclContentValue :=
  match c with
  | CReadKeyChange rkc => CReadKeyChange (shrinkRkc rkc)
  | CAccountRemove ar =>
      CAccountRemove (mkAclAccountRemove (arm_Identities ar) (shrinkRkc <$> arm_ReadKeyChange ar))
  | c => c
  end.

Definition fullDecodeFilter (dAtA : bytes) : res AclData :=
  data ← AclData_UnmarshalVT dAtA;
  Ok (shrinkContent <$> (data : list AclContentValue)).

Definition unmarshalAclDataKeepIdentity (dAtA : bytes) : res AclData :=
  match keepIdentityFast dAtA with
  | Ok out => Ok out
  | Err _ => fullDecodeFilter dAtA
  end.

(** ** Shrinking is invisible to a state that does not validate *)

(** [isOurs] recognises every encoding of the account's key. *)
Definition recognises (pub : PubKey) : Prop :=
  forall b pk, pubKeyFromProto b = Ok pk -> PubKey_Equals pub pk = true -> isOurs b = true.

Lemma ownReadKey_shrink key pub acc ks r :
  recognises pub -> ownReadKey key pub acc ks = Ok r ->
  ownReadKey key pub acc (filterAccountKeys ks) = Ok r.
Proof.
  intros Hrec. revert acc. induction ks as [|k ks IH]; intros acc; simpl; [done|].
  destruct (pubKeyFromProto (erk_Identity k)) as [pk|] eqn:Hpk; [|done].
  destruct (PubKey_Equals pub pk) eqn:Heq.
  - rewrite (Hrec _ _ Hpk Heq). simpl. rewrite Hpk, Heq. intros (x & Hx & Hrun)%res_bind_Ok.
    apply res_bind_Ok. eauto.
  - intros Hrun. destruct (isOurs (erk_Identity k)); simpl; [rewrite Hpk, Heq|]; eauto.
Qed.

Lemma applyReadKeyChange_shrink ch record v st st' :
  ShouldValidate st = false -> recognises (st_pubKey st) ->
  applyReadKeyChange ch record v st = (st', Ok tt) ->
  applyReadKeyChange (shrinkRkc <$> ch) record v st = (st', Ok tt).
Proof.
  intros HV Hrec. destruct ch as [ch|]; [|done]. unfold applyReadKeyChange. simpl.
  apply st_bind_mono.
  { intros s a. destruct v; [|done]. unfold calls, ValidateReadKeyChange, when_validating.
    by rewrite HV. }
  intros s [] Hs. assert (s = st) as ->.
  { destruct v; [apply calls_Ok in Hs|apply ret_Ok in Hs]; by destruct Hs. }
  apply st_bind_mono; [done|]. intros s [] ->%assigns_Ok.
  rewrite !lifts_bind. apply st_bind_mono; [done|]. intros s mkPub [-> _]%lifts_Ok.
  apply st_bind_mono; [|done]. intros s rk [-> Hrk]%calls_Ok. apply calls_Ok. split; [done|].
  by apply ownReadKey_shrink.
Qed.

Lemma applyChangeContent_shrink ch record st st' :
  ShouldValidate st = false -> recognises (st_pubKey st) ->
  applyChangeContent ch record st = (st', Ok tt) ->
  applyChangeContent (shrinkContent ch) record st = (st', Ok tt).
Proof.
  intros HV Hrec. destruct ch; simpl; try done.
  - unfold applyAccountRemove. simpl. apply st_bind_mono.
    { intros s a. unfold calls, ValidateAccountRemove, when_validating. by rewrite HV. }
    intros s [] [-> _]%calls_Ok. apply st_bind_mono; [done|].
    intros s [] Hs. apply (keeps_run _ _ _ _) in Hs.
    + destruct Hs as (_ & _ & Hp & Hv & _).
      apply applyReadKeyChange_shrink; unfold ShouldValidate; by rewrite ?Hp, ?Hv.
    + pose proof (applyChangeContent_keeps). unfold applyRemoval. keeps_solve.
  - apply (applyReadKeyChange_shrink (Some ch)); done.
Qed.

Definition shrinkRecord (record : AclRecord) (data : AclData) : AclRecord :=
  mkAclRecord (rec_Id record) (rec_PrevId record) (rec_Timestamp record)
    (rec_AcceptorTimestamp record) (rec_Data record) (rec_Identity record)
    (ModelData (shrinkContent <$> (data : list AclContentValue))) (rec_Signature record).

(** A state that neither validates nor admits takes the shrunken record as it
    takes the full one. *)
Lemma ApplyRecord_shrink record data st st' :
  ShouldValidate st = false -> cv_admission (st_contentValidator st) = false ->
  recognises (st_pubKey st) -> rec_Model record = ModelData data ->
  ApplyRecord record st = (st', Ok tt) ->
  ApplyRecord (shrinkRecord record data) st = (st', Ok tt).
Proof.
  intros HV Hadm Hrec Hm. unfold ApplyRecord, recordData. rewrite Hm. simpl.
  apply st_bind_mono; [done|]. intros s [] [-> _]%calls_Ok.
  apply st_bind_mono; [done|]. intros s [] [-> _]%calls_Ok.
  apply st_bind_mono; [done|]. intros s [] [-> _]%lifts_Ok.
  rewrite !lifts_bind. apply st_bind_mono; [|done]. intros s [].
  apply st_bind_mono.
  { intros s1 []. unfold calls, ValidateAclData. by rewrite Hadm. }
  intros s1 [] [-> _]%calls_Ok.
  apply (st_each_mono (fun s => same_setup st s)); [|reflexivity].
  intros ch t t' Ht Hx. split.
  - destruct Ht as (_ & _ & Hp & Hv & _).
    apply (applyChangeContent_shrink ch record); [| |done];
      unfold ShouldValidate; by rewrite ?Hp, ?Hv.
  - etrans; [exact Ht|]. by apply (keeps_run _ _ _ _ (applyChangeContent_keeps ch record)) in Hx.
Qed.
End keep.
