(* ===== verification/AclList.v ===== *)
(** The ACL list of a space (src/commonspace/object/acl/list/list.go, the decoding
    half of aclrecordbuilder.go, recordverifier): decoding and authenticating
    raw records, building the list from storage, adding and serving records.
    Third-party and generated code (protobuf decoders of the consensus messages,
    content ids) is the class [ListCodec]; the storage is any [AclStorage]. *)

From Stdlib Require Import ZArith Lia String.
From stdpp Require Import base option list gmap strings.
From S2P Require Import Prelude Crypto AclModels AclState AclValidator AclApply AclStorage AclKeep.

Local Open Scope Z_scope.

(** ** Messages of the consensus protocol *)

Record RawRecord := mkRawRecord {
  raw_Payload : bytes;
  raw_Signature : bytes;
  raw_AcceptorIdentity : bytes;
  raw_AcceptorSignature : bytes;
  raw_AcceptorTimestamp : Z;
}.

Record ConsensusRecord := mkConsensusRecord {
  cr_PrevId : string;
  cr_Identity : bytes;
  cr_Data : bytes;
  cr_Timestamp : Z;
}.

Class ListCodec := {
  RawRecord_UnmarshalVT : bytes -> res RawRecord;
  Record_UnmarshalVT : bytes -> res ConsensusRecord;
  (** go-multihash / go-cid: the CIDv1 of the SHA2-256 of the data *)
  sha256Cid : bytes -> res string;
}.

Section cid.
Context `{ListCodec}.

(** util/cidutil *)
Definition NewCidFromBytes (data : bytes) : res string := sha256Cid data.
Definition VerifyCid (data : bytes) (id : string) : bool :=
  match sha256Cid data with Err _ => false | Ok c => bool_decide (c = id) end.
End cid.

(** ** Acceptor verification (recordverifier) *)

(** The two implementations of [AcceptorVerifier]; a network key may be nil. *)
Inductive AcceptorVerifier :=
| recordVerifier (networkKey : option PubKey)
| ValidateFull.

Definition verifier_ShouldValidate (v : AcceptorVerifier) : bool :=
  match v with recordVerifier _ => false | ValidateFull => true end.

Section list.
Context `{CryptoPrims} `{AclCodec} `{SharedKeyPrims} `{MapRange} `{ProtoWire} `{ListCodec}.

Definition VerifyAcceptor (v : AcceptorVerifier) (rec : RawRecord) : res unit :=
  match v with
  | ValidateFull => Ok tt
  | recordVerifier networkKey =>
      identity ← match pubKeyFromProto (raw_AcceptorIdentity rec) with
                 | Ok identity => Ok identity
                 | Err _ =>
                     match UnmarshalEd25519PublicKey (raw_AcceptorIdentity rec) with
                     | Ok identity => Ok identity
                     | Err _ => Err (GoError "failed to get acceptor identity")
                     end
                 end;
      fail_if (match networkKey with
               | None => true
               | Some networkKey => negb (PubKey_Equals identity networkKey)
               end) (GoError "acceptor is not the network key") ;;
      match PubKey_Verify identity (raw_Payload rec) (raw_AcceptorSignature rec) with
      | Ok true => Ok tt
      | _ => Err (GoError "failed to verify acceptor")
      end
  end.

(** ** The record builder, decoding half

    [rb_accountKeys] is the sign key of the account, when the builder has one. *)

Record aclRecordBuilder := mkAclRecordBuilder {
  rb_id : string;
  rb_accountKeys : option PrivKey;
  rb_verifier : AcceptorVerifier;
  rb_state : option AclState;
  rb_ourIdentity : option bytes;
  rb_ourPubKey : option PubKey;
}.

Definition NewAclRecordBuilder (id : string) (keys : option PrivKey)
    (verifier : AcceptorVerifier) : aclRecordBuilder :=
  match keys with
  | None => mkAclRecordBuilder id keys verifier None None None
  | Some signKey =>
      let ourPub := GetPublic signKey in
      match PubKey_Marshall ourPub with
      | Ok ourBytes => mkAclRecordBuilder id keys verifier None (Some ourBytes) (Some ourPub)
      | Err _ => mkAclRecordBuilder id keys verifier None None None
      end
  end.

Definition isOurIdentity (a : aclRecordBuilder) (identity : bytes) : bool :=
  if decide (identity = slice (rb_ourIdentity a)) then true
  else match pubKeyFromProto identity, rb_ourPubKey a with
       | Ok pk, Some ourPubKey => PubKey_Equals ourPubKey pk
       | _, _ => false
       end.

Definition decodeAclData (a : aclRecordBuilder) (data : bytes) : res AclData :=
  match rb_ourIdentity a with
  | Some _ =>
      if negb (verifier_ShouldValidate (rb_verifier a))
      then unmarshalAclDataKeepIdentity (isOurIdentity a) data
      else AclData_UnmarshalVT data
  | None => AclData_UnmarshalVT data
  end.

Definition verifyRaw (pubKey : PubKey) (rawRec : RawRecord) (recWithId : RawRecordWithId)
    : res unit :=
  ok ← PubKey_Verify pubKey (raw_Payload rawRec) (raw_Signature rawRec);
  fail_if (negb ok) ErrInvalidSignature ;;
  fail_if (negb (VerifyCid (rwi_Payload recWithId) (rwi_Id recWithId))) ErrIncorrectCID.

Definition UnmarshallWithId (a : aclRecordBuilder) (rawIdRecord : RawRecordWithId)
    : res AclRecord :=
  rawRec ← RawRecord_UnmarshalVT (rwi_Payload rawIdRecord);
  rec ← (if decide (rwi_Id rawIdRecord = rb_id a) then
           aclRoot ← AclRoot_UnmarshalVT (raw_Payload rawRec);
           pubKey ← pubKeyFromProto (root_Identity aclRoot);
           Ok (mkAclRecord (rwi_Id rawIdRecord) "" (root_Timestamp aclRoot) 0 "" pubKey
                 (ModelRoot aclRoot) (raw_Signature rawRec))
         else
           VerifyAcceptor (rb_verifier a) rawRec ;;
           aclRecord ← Record_UnmarshalVT (raw_Payload rawRec);
           pubKey ← pubKeyFromProto (cr_Identity aclRecord);
           aclData ← decodeAclData a (cr_Data aclRecord);
           Ok (mkAclRecord (rwi_Id rawIdRecord) (cr_PrevId aclRecord) (cr_Timestamp aclRecord)
                 0 (cr_Data aclRecord) pubKey (ModelData aclData) (raw_Signature rawRec)));
  verifyRaw (rec_Identity rec) rawRec rawIdRecord ;;
  Ok rec.

(** A record not yet accepted: its id is the hash of its payload. *)
Definition Unmarshall (rawRecord : RawRecord) : res AclRecord :=
  aclRecord ← Record_UnmarshalVT (raw_Payload rawRecord);
  pubKey ← pubKeyFromProto (cr_Identity aclRecord);
  aclData ← AclData_UnmarshalVT (cr_Data aclRecord);
  ok ← PubKey_Verify pubKey (raw_Payload rawRecord) (raw_Signature rawRecord);
  fail_if (negb ok) ErrInvalidSignature ;;
  id ← NewCidFromBytes (raw_Payload rawRecord);
  Ok (mkAclRecord id (cr_PrevId aclRecord) (cr_Timestamp aclRecord)
        (raw_AcceptorTimestamp rawRecord) (cr_Data aclRecord) pubKey (ModelData aclData)
        (raw_Signature rawRecord)).

Definition dropData (r : AclRecord) : AclRecord :=
  mkAclRecord (rec_Id r) (rec_PrevId r) (rec_Timestamp r) (rec_AcceptorTimestamp r) ""
    (rec_Identity r) (rec_Model r) (rec_Signature r).

Definition unmarshalForState (a : aclRecordBuilder) (raw : RawRecordWithId) : res AclRecord :=
  record ← UnmarshallWithId a raw;
  Ok (dropData record).

(** ** The list *)

Context {T : Type} `{AclStorage T}.

(** [al_key] is the private key of the state builder. *)
Record aclList := mkAclList {
  al_root : RawRecordWithId;
  al_records : list AclRecord;
  al_indexes : gmap string nat;
  al_id : string;
  al_key : PrivKey;
  al_recordBuilder : aclRecordBuilder;
  al_aclState : AclState;
  al_storage : T;
  al_verifier : AcceptorVerifier;
}.
Implicit Types a : aclList.

Definition isContiguousChain (records : list AclRecord) (rootId head : string) : bool :=
  match records, last records with
  | first :: rest, Some lst =>
      bool_decide (rec_Id first = rootId) && bool_decide (rec_Id lst = head) &&
      forallb (fun '(prev, rec) => bool_decide (rec_PrevId rec = rec_Id prev))
        (zip records rest)
  | _, _ => false
  end.

Definition loadRecordsByScan (storage : T) (recBuilder : aclRecordBuilder)
    : res (list AclRecord) :=
  runs (Storage_GetAfterOrder storage 1 (list AclRecord) (fun sr =>
    record ← lifts (unmarshalForState recBuilder (rawOf sr));
    assigns (fun records => records ++ [record]) ;;
    mret true)) [].

Definition loadRecord (storage : T) (recBuilder : aclRecordBuilder) (id : string)
    : res AclRecord :=
  rec ← Storage_Get storage id;
  unmarshalForState recBuilder (rawOf rec).

(** [for record.PrevId != ""]: the walk from a record to the root; [acc] holds the
    records read so far, newest first.  The fuel bounds the number of steps. *)
Fixpoint walkPrev (fuel : nat) (storage : T) (recBuilder : aclRecordBuilder)
    (record : AclRecord) (acc : list AclRecord) : res (list AclRecord) :=
  if decide (rec_PrevId record = "") then Ok acc
  else match fuel with
       | O => Err (GoError "prev id walk is too long")
       | S fuel =>
           record ← loadRecord storage recBuilder (rec_PrevId record);
           walkPrev fuel storage recBuilder record (acc ++ [record])
       end.

Definition loadRecordsByPrevId (fuel : nat) (storage : T) (recBuilder : aclRecordBuilder)
    (head : string) : res (list AclRecord) :=
  record ← loadRecord storage recBuilder head;
  records ← walkPrev fuel storage recBuilder record [record];
  Ok (rev records).

Definition loadRecords (fuel : nat) (storage : T) (recBuilder : aclRecordBuilder)
    (rootId head : string) : res (list AclRecord) :=
  match loadRecordsByScan storage recBuilder with
  | Ok records =>
      if isContiguousChain records rootId head then Ok records
      else loadRecordsByPrevId fuel storage recBuilder head
  | Err _ => loadRecordsByPrevId fuel storage recBuilder head
  end.

Definition with_builderState (st : AclState) (b : aclRecordBuilder) : aclRecordBuilder :=
  mkAclRecordBuilder (rb_id b) (rb_accountKeys b) (rb_verifier b) (Some st) (rb_ourIdentity b)
    (rb_ourPubKey b).

Definition build (fuel : nat) (storage : T) (key : PrivKey) (recBuilder : aclRecordBuilder)
    (verifier : AcceptorVerifier) : res aclList :=
  let id := Storage_Id storage in
  head ← Storage_Head storage;
  records ← loadRecords fuel storage recBuilder id head;
  let indexes := indexFrom 0 (rec_Id <$> records) ∅ in
  rootWithId ← Storage_Root storage;
  state ← Build records key (verifier_ShouldValidate verifier);
  Ok (mkAclList (rawOf rootWithId) records indexes id key (with_builderState state recBuilder)
        state storage verifier).

Definition BuildAclListWithIdentity (fuel : nat) (signKey : PrivKey) (storage : T)
    (verifier : AcceptorVerifier) : res aclList :=
  build fuel storage signKey (NewAclRecordBuilder (Storage_Id storage) (Some signKey) verifier)
    verifier.

(** ** Adding records *)

(** A fresh copy of the state under the list's verifier. *)
Definition copyState a : AclState :=
  Copy (verifier_ShouldValidate (al_verifier a)) (al_aclState a).

(** Run a method of the storage. *)
Definition onStorage {A} (m : ST T A) : ST aclList A := fun a =>
  let '(s, r) := m (al_storage a) in
  (mkAclList (al_root a) (al_records a) (al_indexes a) (al_id a) (al_key a)
     (al_recordBuilder a) (al_aclState a) s (al_verifier a), r).

Definition setState (state : AclState) (a : aclList) : aclList :=
  mkAclList (al_root a) (al_records a) (al_indexes a) (al_id a) (al_key a)
    (with_builderState state (al_recordBuilder a)) state (al_storage a) (al_verifier a).

Definition appendRecord (record : AclRecord) (a : aclList) : aclList :=
  mkAclList (al_root a) (al_records a ++ [record])
    (<[rec_Id record := length (al_records a)]> (al_indexes a)) (al_id a) (al_key a)
    (al_recordBuilder a) (al_aclState a) (al_storage a) (al_verifier a).

Definition AddRawRecord (rawRec : RawRecordWithId) : ST aclList unit :=
  calls (fun a => fail_if (bool_decide (is_Some (al_indexes a !! rwi_Id rawRec)))
                    ErrRecordAlreadyExists) ;;
  record ← calls (fun a => unmarshalForState (al_recordBuilder a) rawRec);
  newState ← calls (fun a => runs (ApplyRecord record) (copyState a));
  order ← reads (fun a => Z.of_nat (length (al_records a)) + 1);
  onStorage (Storage_AddAll
    [mkStorageRecord (rwi_Payload rawRec) (rec_PrevId record) (rec_Id record) order
       (Z.of_nat (String.length (rwi_Payload rawRec)))]) ;;
  assigns (setState newState) ;;
  assigns (appendRecord record).

(** Records the list already has are skipped. *)
Fixpoint AddRawRecords (rawRecords : list RawRecordWithId) : ST aclList unit := fun a =>
  match rawRecords with
  | [] => (a, Ok tt)
  | rec :: rawRecords =>
      match AddRawRecord rec a with
      | (a, Err e) => if decide (e = ErrRecordAlreadyExists) then AddRawRecords rawRecords a
                      else (a, Err e)
      | (a, Ok _) => AddRawRecords rawRecords a
      end
  end.

Definition ValidateRawRecord a (rawRec : RawRecord) (afterValid : option (AclState -> res unit))
    : res unit :=
  record ← Unmarshall rawRec;
  let stateCopy := set_contentValidator newAdmissionValidator (copyState a) in
  stateCopy ← runs (ApplyRecord record) stateCopy;
  match afterValid with None => Ok tt | Some afterValid => afterValid stateCopy end.

(** ** Queries *)

Definition IsAfter a (first second : string) : res bool :=
  match al_indexes a !! first, al_indexes a !! second with
  | Some firstRec, Some secondRec => Ok (secondRec <=? firstRec)%nat
  | _, _ => Err (GoError "not all entries are there")
  end.

(** Panics on an empty list. *)
Definition Head a : res AclRecord :=
  opt_or (last (al_records a)) (GoPanic "index out of range").

Definition HasHead a (head : string) : bool := bool_decide (is_Some (al_indexes a !! head)).

Definition Get a (id : string) : res AclRecord :=
  recIdx ← opt_or (al_indexes a !! id) ErrNoSuchRecord;
  opt_or (al_records a !! recIdx) (GoPanic "index out of range").

Definition GetIndex a (idx : Z) : res AclRecord :=
  fail_if ((idx <? 0) || (Z.of_nat (length (al_records a)) <=? idx)) ErrNoSuchRecord ;;
  opt_or (al_records a !! Z.to_nat idx) (GoPanic "index out of range").

Definition GetRecordIndex a (recordId : string) : Z :=
  match al_indexes a !! recordId with Some idx => Z.of_nat idx | None => -1 end.

(** The visitor of [Iterate] works on a variable of the caller. *)
Fixpoint iterate {V} (iterFunc : AclRecord -> V -> V * bool) (records : list AclRecord) (v : V)
    : V :=
  match records with
  | [] => v
  | rec :: records =>
      let '(v, cont) := iterFunc rec v in
      if (cont : bool) then iterate iterFunc records v else v
  end.

Definition Iterate {V} a (iterFunc : AclRecord -> V -> V * bool) (v : V) : V :=
  iterate iterFunc (al_records a) v.

Definition IterateFrom {V} a (startId : string) (iterFunc : AclRecord -> V -> V * bool) (v : V)
    : V :=
  match al_indexes a !! startId with
  | None => v
  | Some recIdx => iterate iterFunc (drop recIdx (al_records a)) v
  end.

(** Collect raw records from the storage, the source of truth for peers. *)
Definition collectRaw (record : StorageRecord) : ST (list RawRecordWithId) bool :=
  assigns (fun records => records ++ [rawOf record]) ;;
  mret true.

Definition RecordsAfter a (id : string) : res (list RawRecordWithId) :=
  recIdx ← (if decide (id = "") then Ok 1
            else idx ← opt_or (al_indexes a !! id) ErrNoSuchRecord; Ok (Z.of_nat idx));
  runs (Storage_GetAfterOrder (al_storage a) recIdx _ collectRaw) [].

Definition RecordsBefore a (headId : string) : res (list RawRecordWithId) :=
  headId ← (if decide (headId = "") then h ← Head a; Ok (rec_Id h) else Ok headId);
  recIdx ← opt_or (al_indexes a !! headId) ErrNoSuchRecord;
  runs (Storage_GetBeforeOrder (al_storage a) (Z.of_nat recIdx) _ collectRaw) [].
End list.

Arguments aclList T : clear implicits.
