(* ===== verification/AclListInv.v ===== *)
(** The invariant of the ACL list: its records are the decoded log of its storage,
    they form a chain, the index finds them, and its state is what replaying them
    gives.  Building a list establishes it, adding records keeps it, and it makes
    the list equal to its own reload. *)

From Stdlib Require Import ZArith Lia String.
From stdpp Require Import base option list gmap strings.
From S2P Require Import Prelude Crypto AclModels AclState AclValidator AclApply AclStorage AclKeep AclList.

Local Open Scope Z_scope.

(** ** The index *)

Lemma indexes_ok_unique m m' ids : indexes_ok m ids -> indexes_ok m' ids -> m = m'.
Proof.
  intros Hm Hm'. apply map_eq. intros id. apply option_eq. intros i. by rewrite (Hm id i), (Hm' id i).
Qed.

Lemma indexes_ok_NoDup m ids : indexes_ok m ids -> NoDup ids.
Proof.
  intros Hm. apply NoDup_alt. intros i j id Hi%Hm Hj%Hm. congruence.
Qed.

Lemma indexes_ok_from ids : NoDup ids -> indexes_ok (indexFrom 0 ids ∅) ids.
Proof. intros Hnd. apply (indexFrom_ok ids ∅ []); [|done]. intros id i. by rewrite lookup_empty. Qed.

Lemma indexes_ok_None m ids id : indexes_ok m ids -> m !! id = None -> id ∉ ids.
Proof. intros Hm Hid [i Hi]%list_elem_of_lookup_1. apply Hm in Hi. congruence. Qed.

Section proofs.
Context `{CryptoPrims} `{AclCodec} `{SharedKeyPrims} `{MapRange} `{ProtoWire} `{ListCodec}.
Context {T : Type} `{AclStorageLaws T}.
Implicit Types (a : aclList T) (record : AclRecord) (b : aclRecordBuilder).

(** ** Building a state is replaying its records *)

Lemma Build_snoc records record key v st :
  Build records key v = Ok st ->
  Build (records ++ [record]) key v = runs (ApplyRecord record) st.
Proof.
  unfold Build. destruct records as [|root rest]; [done|]. simpl.
  intros (st0 & -> & Hrest)%res_bind_Ok. unfold mbind, res_bind, runs. rewrite st_each_app.
  unfold mbind, st_bind. destruct (st_each ApplyRecord rest st0) as [s [[]|e]]; [|done].
  injection Hrest as ->. simpl. unfold mbind, st_bind.
  by destruct (ApplyRecord record st) as [s' [[]|e]].
Qed.

Lemma applyRoot_setup record st st' :
  applyRoot record st = (st', Ok tt) ->
  st_key st' = st_key st /\ st_pubKey st' = st_pubKey st /\
  st_contentValidator st' = st_contentValidator st /\ st_lastRecordId st' = rec_Id record.
Proof.
  unfold applyRoot. destruct (rec_Model record) as [|root|]; [done| |done].
  destruct (root_OneToOneInfo root) as [info|].
  - unfold setOneToOneAcl. intros Hrun. go_inv. simpl.
    match goal with He : st_each _ _ _ = (?s, _) |- context [st_key ?s] =>
      assert (same_setup st s) as (_ & ? & ? & ? & _); [|by auto] end.
    match goal with Hif : (if (?b : bool) then _ else _) _ = (?s, Ok tt) |- _ =>
      assert (same_setup st s) as Hs1 end.
    { eapply keeps_run; [|eassumption]. unfold deriveOneToOneKeys. keeps_solve. }
    etrans; [exact Hs1|].
    match goal with He : st_each _ _ _ = _ |- _ => apply keeps_run in He; [exact He|] end.
    unfold addWriter. keeps_solve.
  - intros Hrun. go_inv.
    match goal with Hm : match root_EncryptedReadKey root with _ => _ end _ = (?s, Ok _) |- _ =>
      assert (same_setup st s) as Hs1
        by (eapply keeps_run; [|exact Hm]; keeps_solve) end.
    match goal with Hif : (if PubKey_Equals _ _ then _ else _) _ = (?s, Ok tt) |- _ =>
      assert (same_setup st s) as (_ & Hk & Hp & Hv & _)
        by (etrans; [exact Hs1|]; eapply keeps_run; [|exact Hif]; unfold saveKeysFromRoot;
            keeps_solve) end.
    destruct (root_Options root); go_inv; simpl; auto.
Qed.

(** Every built state is of its builder's key and verifier, so a copy of it is
    the state itself, and it remembers the last record. *)
Lemma Build_setup records key v st :
  Build records key v = Ok st -> Copy v st = st /\
  exists record, last records = Some record /\ st_lastRecordId st = rec_Id record.
Proof.
  revert st. induction records as [|record records IH] using rev_ind; intros st; [done|].
  intros Hb. destruct records as [|root rest].
  - simpl in Hb. apply res_bind_Ok in Hb as (st0 & Hnew & Hb). injection Hb as <-.
    unfold newAclStateWithKeys in Hnew.
    destruct (applyRoot _ _) as [s [[]|e]] eqn:Hrun; [|done]. injection Hnew as ->.
    apply applyRoot_setup in Hrun as (Hk & Hp & Hv & Hl). simpl in *. split; [|by exists record].
    destruct st0; simpl in *. unfold Copy. simpl. congruence.
  - set (records := root :: rest) in *.
    assert (exists st0, Build records key v = Ok st0) as [st0 Hst0].
    { destruct (Build records key v) as [st0|e] eqn:Hb0; [by eexists|]. exfalso.
      unfold Build in Hb, Hb0. simpl in Hb, Hb0. unfold mbind, res_bind in *.
      destruct (newAclStateWithKeys root key v) as [s0|]; [|done].
      rewrite st_each_app in Hb. unfold mbind, st_bind in Hb.
      by destruct (st_each ApplyRecord rest s0) as [s [[]|e']]. }
    rewrite (Build_snoc _ _ _ _ _ Hst0) in Hb. apply runs_Ok in Hb as [[] Hrun].
    destruct (IH _ Hst0) as [Hcopy _].
    pose proof (keeps_run _ _ _ _ (ApplyRecord_keeps record) Hrun) as (_ & Hk & Hp & Hv & _).
    split.
    + rewrite <- Hcopy in Hk, Hp, Hv. destruct st; unfold Copy in *; simpl in *. congruence.
    + exists record. rewrite last_snoc. split; [done|].
      unfold ApplyRecord in Hrun. by go_inv.
Qed.

(** ** Decoding *)

Lemma UnmarshallWithId_id b raw record :
  UnmarshallWithId b raw = Ok record -> rec_Id record = rwi_Id raw.
Proof.
  unfold UnmarshallWithId. intros Hrun. go_inv.
  match goal with Hc : (if decide _ then _ else _) = Ok _ |- _ => destruct (decide _); go_inv end;
    done.
Qed.

Lemma unmarshalForState_id b raw record :
  unmarshalForState b raw = Ok record -> rec_Id record = rwi_Id raw.
Proof.
  unfold unmarshalForState. intros (r & Hr & [= <-])%res_bind_Ok. by apply UnmarshallWithId_id in Hr.
Qed.

(** Decoding does not look at the builder's state. *)
Lemma unmarshalForState_state b st raw :
  unmarshalForState (with_builderState st b) raw = unmarshalForState b raw.
Proof. done. Qed.

(** ** The invariant *)

Abbreviation decodes b := (fun sr record => unmarshalForState b (rawOf sr) = Ok record).

Definition headId a : string := default "" (rec_Id <$> last (al_records a)).

Record list_ok a : Prop := mkListOk {
  lo_storage : storage_wf (al_storage a);
  lo_id : Storage_Id (al_storage a) = al_id a;
  lo_root : rawOf <$> storage_log (al_storage a) !! 0%nat = Some (al_root a);
  lo_mirror : Forall2 (decodes (al_recordBuilder a)) (storage_log (al_storage a)) (al_records a);
  lo_indexes : indexes_ok (al_indexes a) (rec_Id <$> al_records a);
  lo_chain : isContiguousChain (al_records a) (al_id a) (headId a) = true;
  lo_state : Build (al_records a) (al_key a) (verifier_ShouldValidate (al_verifier a)) =
             Ok (al_aclState a);
  lo_builder : al_recordBuilder a = with_builderState (al_aclState a)
    (NewAclRecordBuilder (al_id a) (Some (al_key a)) (al_verifier a));
}.

Lemma decodes_ids b log records :
  Forall2 (decodes b) log records -> rec_Id <$> records = sr_Id <$> log.
Proof.
  induction 1 as [|sr r l l' Hd _ IH]; [done|]. rewrite !fmap_cons, IH. f_equal.
  by apply unmarshalForState_id in Hd.
Qed.

Lemma isContiguousChain_snoc records record rootId :
  isContiguousChain records rootId (rec_PrevId record) = true ->
  isContiguousChain (records ++ [record]) rootId (rec_Id record) = true.
Proof.
  unfold isContiguousChain. destruct records as [|first rest]; [done|].
  rewrite <- app_comm_cons. destruct (last (first :: rest)) as [lst|] eqn:Hl; [|done].
  rewrite app_comm_cons, last_snoc. simpl ((first :: rest) ++ [record]) at 1.
  rewrite !andb_true_iff. intros [[Hf Hlst] Hc]. split_and!; [done|by apply bool_decide_eq_true|].
  assert (zip (first :: rest ++ [record]) (rest ++ [record]) =
          zip (first :: rest) rest ++ [(lst, record)]) as ->.
  { clear Hf Hc Hlst. revert first Hl. induction rest as [|x rest IH]; intros first Hl; simpl.
    - simpl in Hl. by injection Hl as ->.
    - f_equal. apply IH. by rewrite <- Hl. }
  rewrite forallb_app. apply andb_true_iff. split; [exact Hc|]. simpl. rewrite andb_true_r.
  apply bool_decide_eq_true. by apply bool_decide_eq_true in Hlst.
Qed.

(** ** Adding a record *)

(** The storage of a successful or failed run of [onStorage]. *)
Lemma onStorage_run {A} (m : ST T A) a a' r :
  onStorage m a = (a', r) -> exists s, m (al_storage a) = (s, r) /\
    a' = mkAclList (al_root a) (al_records a) (al_indexes a) (al_id a) (al_key a)
           (al_recordBuilder a) (al_aclState a) s (al_verifier a).
Proof. unfold onStorage. destruct (m (al_storage a)) as [s r']. intros [= <- <-]. eauto. Qed.

(** What [AddRawRecord] hands to the storage. *)
Definition storedAs (raw : RawRecordWithId) record a : StorageRecord :=
  mkStorageRecord (rwi_Payload raw) (rec_PrevId record) (rec_Id record)
    (Z.of_nat (length (al_records a)) + 1) (Z.of_nat (String.length (rwi_Payload raw))).

(** A run that fails leaves everything but, possibly, the inside of the storage. *)
Lemma AddRawRecord_cases raw a a' r :
  AddRawRecord raw a = (a', r) ->
  (exists e, r = Err e /\ a' = a) \/
  exists record st s u, al_indexes a !! rwi_Id raw = None /\
    unmarshalForState (al_recordBuilder a) raw = Ok record /\
    runs (ApplyRecord record) (copyState a) = Ok st /\
    Storage_AddAll [storedAs raw record a] (al_storage a) = (s, u) /\
    let a1 := mkAclList (al_root a) (al_records a) (al_indexes a) (al_id a) (al_key a)
                (al_recordBuilder a) (al_aclState a) s (al_verifier a) in
    r = u /\ a' = match u with Ok _ => appendRecord record (setState st a1) | Err _ => a1 end.
Proof.
  unfold AddRawRecord, mbind, st_bind, calls, reads.
  destruct (al_indexes a !! rwi_Id raw) as [i|] eqn:Hi; simpl.
  { intros [= <- <-]. left. eauto. }
  destruct (unmarshalForState (al_recordBuilder a) raw) as [record|e] eqn:Hu; simpl;
    [|intros [= <- <-]; left; eauto].
  destruct (runs (ApplyRecord record) (copyState a)) as [st|e] eqn:Hst; simpl;
    [|intros [= <- <-]; left; eauto].
  intros Hrun. right. exists record, st.
  destruct (onStorage _ a) as [a1 r1] eqn:Hon. apply onStorage_run in Hon as (s & Hs & ->).
  exists s, r1. destruct r1 as [[]|e]; injection Hrun as <- <-; by split_and!.
Qed.

Lemma list_ok_storage a s :
  list_ok a -> storage_wf s -> Storage_Id s = Storage_Id (al_storage a) ->
  storage_log s = storage_log (al_storage a) ->
  list_ok (mkAclList (al_root a) (al_records a) (al_indexes a) (al_id a) (al_key a)
             (al_recordBuilder a) (al_aclState a) s (al_verifier a)).
Proof.
  intros [] Hwf Hid Hlog. constructor; simpl; [done|by rewrite Hid| | |done..]; by rewrite Hlog.
Qed.

Lemma chain_last a record :
  list_ok a -> st_lastRecordId (al_aclState a) = rec_PrevId record -> headId a = rec_PrevId record.
Proof.
  intros Hok Hprev. destruct (Build_setup _ _ _ _ (lo_state _ Hok)) as [_ (r & Hl & Hr)].
  unfold headId. rewrite Hl. simpl. congruence.
Qed.

Lemma AddRawRecord_ok raw a a' r : list_ok a -> AddRawRecord raw a = (a', r) -> list_ok a'.
Proof.
  intros Hok [(e & -> & ->)|(record & st & s & u & Hi & Hu & Hst & Hs & -> & ->)]%AddRawRecord_cases;
    [done|].
  pose proof (unmarshalForState_id _ _ _ Hu) as Hid.
  pose proof (decodes_ids _ _ _ (lo_mirror _ Hok)) as Hids.
  assert (rec_Id record ∉ rec_Id <$> al_records a) as Hnew
    by (rewrite Hid; by eapply indexes_ok_None; [apply Hok|]).
  assert (length (storage_log (al_storage a)) = length (al_records a)) as Hlen
    by by eapply Forall2_length, Hok.
  eapply storage_AddAll_law in Hs as (Hwf & Hsid & Hlog); [|by apply Hok|by rewrite <- Hids|simpl; lia].
  destruct u as [[]|e]; [|by apply list_ok_storage].
  destruct (Build_setup _ _ _ _ (lo_state _ Hok)) as [Hcopy _].
  unfold copyState in Hst. rewrite Hcopy in Hst.
  pose proof (proj1 (runs_Ok _ _ _) Hst) as [[] Hrun].
  assert (headId a = rec_PrevId record) as Hhead.
  { eapply chain_last; [done|]. unfold ApplyRecord in Hrun. go_inv.
    match goal with Hd : negb (bool_decide _) = false |- _ =>
      apply negb_false_iff, bool_decide_eq_true in Hd; exact Hd end. }
  constructor; simpl.
  - done.
  - rewrite Hsid. apply Hok.
  - rewrite Hlog. pose proof (lo_root _ Hok) as Hroot.
    destruct (storage_log (al_storage a)) as [|sr0 ?]; [done|]. done.
  - rewrite Hlog. apply Forall2_app; [apply Hok|]. constructor; [|constructor].
    rewrite unmarshalForState_state. unfold rawOf. simpl. rewrite Hid. by destruct raw.
  - rewrite fmap_app. simpl. rewrite <- (length_fmap rec_Id). by apply indexes_ok_snoc; [apply Hok|].
  - unfold headId. simpl. rewrite last_snoc. simpl. apply isContiguousChain_snoc.
    rewrite <- Hhead. apply Hok.
  - rewrite (Build_snoc _ _ _ _ _ (lo_state _ Hok)). done.
  - by rewrite (lo_builder _ Hok).
Qed.

(** ** Loading *)

(** Visiting with a collecting callback is mapping the decoder. *)
Lemma visit_decode (f : StorageRecord -> res AclRecord) l acc :
  runs (visit (fun sr => record ← lifts (f sr);
                         assigns (fun records => records ++ [record]) ;; mret true) l) acc =
  (records ← res_map f l; Ok (acc ++ records)).
Proof.
  set (g := fun sr => _). revert acc. induction l as [|sr l IH]; intros acc.
  - unfold runs. simpl. by rewrite app_nil_r.
  - assert (g sr acc = match f sr with Ok r => (acc ++ [r], Ok true) | Err e => (acc, Err e) end)
      as Hg by (unfold g, mbind, st_bind, lifts; by destruct (f sr)).
    simpl. unfold runs, mbind at 1, st_bind at 1. rewrite Hg.
    destruct (f sr) as [r|e]; [|done]. change (runs (visit g l) (acc ++ [r]) =
      (records ← (ys ← res_map f l; Ok (r :: ys)); Ok (acc ++ records))).
    rewrite IH. destruct (res_map f l) as [rs|e]; [|done]. simpl. by rewrite <- app_assoc.
Qed.

Lemma scan_decodes s b :
  storage_wf s ->
  loadRecordsByScan s b = res_map (fun sr => unmarshalForState b (rawOf sr)) (storage_log s).
Proof.
  intros Hwf. unfold loadRecordsByScan, runs. rewrite storage_After_law by (done || lia).
  change (Z.to_nat 1 - 1)%nat with 0%nat. rewrite drop_0.
  pose proof (visit_decode (fun sr => unmarshalForState b (rawOf sr)) (storage_log s) []) as Hv.
  unfold runs in Hv. rewrite Hv. unfold mbind, res_bind. by destruct (res_map _ _).
Qed.

Lemma scan_Ok s b records :
  storage_wf s ->
  loadRecordsByScan s b = Ok records <-> Forall2 (decodes b) (storage_log s) records.
Proof. intros Hwf. by rewrite (scan_decodes s b Hwf), res_map_Ok. Qed.

(** The list is what its storage reloads to. *)
Lemma list_ok_rebuild fuel a :
  list_ok a ->
  BuildAclListWithIdentity fuel (al_key a) (al_storage a) (al_verifier a) = Ok a.
Proof.
  intros [Hwf Hid Hroot Hm Hidx Hchain Hst Hb].
  unfold BuildAclListWithIdentity, build. cbv zeta. rewrite Hid.
  set (b := NewAclRecordBuilder _ _ _) in *.
  assert (Forall2 (decodes b) (storage_log (al_storage a)) (al_records a)) as Hm'
    by (by rewrite Hb in Hm).
  destruct (last (storage_log (al_storage a))) as [sr|] eqn:Hl; cycle 1.
  { apply last_None in Hl. rewrite Hl in Hroot. done. }
  rewrite (storage_Head_law _ sr Hwf Hl). simpl.
  assert (headId a = sr_Id sr) as Hhead.
  { unfold headId. rewrite <- fmap_last, (decodes_ids _ _ _ Hm'), fmap_last, Hl. done. }
  unfold loadRecords. rewrite (proj2 (scan_Ok _ _ _ Hwf) Hm'). rewrite <- Hhead, Hchain. simpl.
  destruct (storage_Root_law _ Hwf) as (root & -> & Hr0 & _). simpl.
  rewrite Hr0 in Hroot. injection Hroot as Hroot. rewrite Hst. simpl.
  f_equal. rewrite Hroot, <- Hb.
  rewrite (indexes_ok_unique _ _ _ (indexes_ok_from _ (indexes_ok_NoDup _ _ Hidx)) Hidx).
  by destruct a.
Qed.

(** A list built over a storage that holds the root only. *)
Lemma build_root_ok fuel key s v root a :
  storage_wf s -> storage_log s = [root] -> 
  BuildAclListWithIdentity fuel key s v = Ok a -> list_ok a.
Proof.
  intros Hwf Hlog. unfold BuildAclListWithIdentity, build. cbv zeta.
  set (b := NewAclRecordBuilder (Storage_Id s) (Some key) v).
  rewrite (storage_Head_law s root Hwf) by by rewrite Hlog. simpl.
  destruct (storage_Root_law _ Hwf) as (root' & -> & Hr0 & Hid). rewrite Hlog in Hr0. 
  injection Hr0 as ->.
  unfold loadRecords. rewrite (scan_decodes s b Hwf), Hlog. simpl.
  intros Hb. destruct (unmarshalForState b (rawOf root')) as [record|e] eqn:Hu.
  - simpl in Hb. pose proof (unmarshalForState_id _ _ _ Hu) as Hrid. simpl in Hrid.
    unfold isContiguousChain in Hb. simpl in Hb.
    rewrite !bool_decide_eq_true_2 in Hb by congruence. simpl in Hb. go_inv.
    constructor; simpl.
    + done.
    + done.
    + by rewrite Hlog.
    + rewrite Hlog. constructor; [|constructor]. done.
    + apply (indexes_ok_from [rec_Id record]). apply NoDup_singleton.
    + unfold isContiguousChain, headId. simpl. rewrite !bool_decide_eq_true_2 by congruence. done.
    + match goal with Hn : newAclStateWithKeys _ _ _ = Ok _ |- _ => by rewrite Hn end.
    + done.
  - simpl in Hb. unfold loadRecordsByPrevId, loadRecord in Hb.
    rewrite (storage_Get_law s root' Hwf) in Hb by (rewrite Hlog; by left).
    simpl in Hb. by rewrite Hu in Hb.
Qed.

(** ** The scan against the walk *)

(** Consecutive records are linked by their previous ids. *)
Fixpoint linked (records : list AclRecord) : Prop :=
  match records with
  | prev :: ((record :: _) as rest) => rec_PrevId record = rec_Id prev /\ linked rest
  | _ => True
  end.

Lemma linked_zip records first rest :
  records = first :: rest ->
  forallb (fun '(prev, record) => bool_decide (rec_PrevId record = rec_Id prev))
    (zip records rest) = true <-> linked records.
Proof.
  intros ->. revert first. induction rest as [|x rest IH]; intros first; [done|].
  specialize (IH x). simpl in *. rewrite andb_true_iff, bool_decide_eq_true. by rewrite IH.
Qed.

Lemma isContiguousChain_linked records rootId head :
  isContiguousChain records rootId head = true <->
  (exists first, records !! 0%nat = Some first /\ rec_Id first = rootId) /\
  (exists lst, last records = Some lst /\ rec_Id lst = head) /\ linked records.
Proof.
  unfold isContiguousChain. destruct records as [|first rest]; [naive_solver|].
  destruct (last (first :: rest)) as [lst|] eqn:Hl; [|by apply last_None in Hl].
  rewrite !andb_true_iff, !bool_decide_eq_true, (linked_zip _ first rest eq_refl). naive_solver.
Qed.

Lemma linked_app pre p record suf :
  linked ((pre ++ [p]) ++ record :: suf) -> rec_PrevId record = rec_Id p.
Proof.
  induction pre as [|x pre IH]; simpl; [by intros [? _]|].
  destruct (pre ++ [p]) eqn:Hp; [by destruct pre|]. simpl in *. intros [_ Hl]. by apply IH.
Qed.

Lemma walk_linked fuel s b pre record suf :
  storage_wf s -> linked (pre ++ record :: suf) ->
  (forall r, r ∈ pre -> rec_Id r <> "" /\ loadRecord s b (rec_Id r) = Ok r) ->
  (forall r, (pre ++ [record]) !! 0%nat = Some r -> rec_PrevId r = "") ->
  (length pre <= fuel)%nat ->
  walkPrev fuel s b record (rev (record :: suf)) = Ok (rev (pre ++ record :: suf)).
Proof.
  intros Hwf. revert fuel record suf. induction pre as [|p pre IH] using rev_ind;
    intros fuel record suf Hl Hload Hroot Hfuel.
  - assert (rec_PrevId record = "") as Hp by by apply Hroot.
    destruct fuel; simpl; by rewrite decide_True.
  - rewrite length_app in Hfuel. simpl in Hfuel. destruct fuel as [|fuel]; [lia|].
    destruct (Hload p) as [Hne Hget]; [set_solver|].
    pose proof (linked_app _ _ _ _ Hl) as Hprev.
    simpl. rewrite Hprev, decide_False by done. rewrite Hget. simpl.
    specialize (IH fuel p (record :: suf)). simpl in IH. rewrite IH; [by rewrite <- app_assoc| | | |lia].
    + by rewrite <- app_assoc in Hl.
    + intros r Hr. apply Hload. set_solver.
    + intros r Hr. apply Hroot. rewrite lookup_app_l; [done|rewrite length_app; simpl; lia].
Qed.

Lemma unmarshal_root b raw record :
  unmarshalForState b raw = Ok record -> rec_Id record = rb_id b -> rec_PrevId record = "".
Proof.
  intros Hu Hid. rewrite (unmarshalForState_id _ _ _ Hu) in Hid.
  unfold unmarshalForState, UnmarshallWithId in Hu.
  destruct (decide (rwi_Id raw = rb_id b)); [|done]. by go_inv.
Qed.

Lemma scan_eq_walk fuel s b head records :
  storage_wf s -> loadRecordsByScan s b = Ok records ->
  isContiguousChain records (rb_id b) head = true ->
  "" ∉ rec_Id <$> records -> (length records <= fuel)%nat ->
  loadRecordsByPrevId fuel s b head = Ok records.
Proof.
  intros Hwf Hscan (Hf & (lst & Hlst & Hhead) & Hl)%isContiguousChain_linked Hne Hfuel.
  apply (scan_Ok _ _ _ Hwf) in Hscan.
  assert (forall r, r ∈ records -> rec_Id r <> "" /\ loadRecord s b (rec_Id r) = Ok r) as Hload.
  { intros r Hr. split; [intros Heq; apply Hne; rewrite <- Heq; by apply list_elem_of_fmap_2|].
    apply list_elem_of_lookup_1 in Hr as [i Hi].
    destruct (Forall2_lookup_r _ _ _ _ _ Hscan Hi) as (sr & Hsr & Hd).
    unfold loadRecord. pose proof (unmarshalForState_id _ _ _ Hd) as Hid. simpl in Hid.
    rewrite Hid, (storage_Get_law s sr Hwf) by (by eapply list_elem_of_lookup_2). done. }
  apply last_Some in Hlst as [pre ->]. unfold loadRecordsByPrevId.
  rewrite <- Hhead. rewrite (proj2 (Hload lst ltac:(set_solver))). simpl.
  change [lst] with (rev [lst]) at 1. rewrite (walk_linked fuel s b pre lst []) by first
    [done | intros r Hr; apply Hload; set_solver
    | rewrite length_app in Hfuel; simpl in Hfuel; lia
    | intros r Hr; destruct Hf as (first & Hf0 & Hfid); rewrite Hr in Hf0; injection Hf0 as ->;
      destruct (Forall2_lookup_r _ _ _ _ _ Hscan Hr) as (sr & _ & Hd); by eapply unmarshal_root ].
  simpl. by rewrite rev_involutive.
Qed.
End proofs.
