(* ===== verification/AclListMain.v ===== *)
(** The properties of the ACL list: it equals its own reload, a refused record
    leaves no trace, every record in it is authentic, and what it says about the
    permissions at an earlier record does not change. *)

From Stdlib Require Import ZArith Lia String.
From stdpp Require Import base option list gmap strings.
From S2P Require Import Prelude Crypto AclModels AclState AclValidator AclApply AclSpec AclRefine AclExample AclHistory AclStorage AclKeep AclList AclListInv.

Local Open Scope Z_scope.

(** ** Histories under the list's index *)

Section closest.
Implicit Types (isAfter : string -> string -> bool) (l : list PermissionChange).

Lemma closestChange_skip isAfter r l l' :
  Forall (fun c => isAfter r (pc_RecordId c) = false) l ->
  closestChange isAfter r (l ++ l') = closestChange isAfter r l'.
Proof. induction 1 as [|c l Hc _ IH]; simpl; [done|]. by rewrite Hc. Qed.

Lemma closestChange_ext isAfter isAfter' r l :
  Forall (fun c => isAfter r (pc_RecordId c) = isAfter' r (pc_RecordId c)) l ->
  closestChange isAfter r l = closestChange isAfter' r l.
Proof. induction 1 as [|c l Hc _ IH]; simpl; [done|]. by rewrite Hc, IH. Qed.

(** A record after every change sees the last one. *)
Lemma closestChange_last isAfter r l :
  (forall id, isAfter r id = true) -> closestChange isAfter r (rev l) = lastPermission l.
Proof.
  intros Hr. unfold lastPermission. induction l as [|c l _] using rev_ind; [done|].
  rewrite rev_unit, last_snoc. simpl. by rewrite Hr.
Qed.
End closest.

(** The changes of an account mention only records of [ids]. *)
Definition history_in (ids : list string) (m : accounts) : Prop :=
  forall k, Forall (fun c => pc_RecordId c ∈ ids) (changes_of m k).

Lemma evolves_history_in reset rid ids m m' :
  evolves reset rid m m' -> history_in ids m -> history_in (ids ++ [rid]) m'.
Proof.
  intros [_ He] Hm k. unfold changes_of. destruct (m' !! k) as [acc'|] eqn:Hk; [|constructor].
  assert (forall l, Forall (fun c => pc_RecordId c ∈ ids) l ->
    Forall (fun c => pc_RecordId c ∈ ids ++ [rid]) l) as Hup.
  { intros l Hl. eapply Forall_impl; [exact Hl|]. intros c ?. apply elem_of_app. by left. }
  destruct (He _ _ Hk) as [Hold|(_ & pre & suf & Hsuf & -> & Hpre)].
  - specialize (Hm k). unfold changes_of in Hm. rewrite Hold in Hm. by apply Hup.
  - apply Forall_app. split.
    + destruct Hpre as [->|[_ ->]]; [by apply Hup|constructor].
    + eapply Forall_impl; [exact Hsuf|]. simpl. intros c ->. set_solver.
Qed.

Section main.
Context `{CryptoPrims} `{AclCodec} `{SharedKeyPrims} `{MapRange} `{ProtoWire} `{ListCodec}.
Context {T : Type} `{AclStorageLaws T}.
Implicit Types (a : aclList T) (pk : PubKey).

(** The lists the code can hold: built over a storage with the root, then grown
    by [AddRawRecord], whether it succeeds or fails. *)
Inductive list_reachable : aclList T -> Prop :=
| lr_build fuel key s v root a :
    storage_wf s -> storage_log s = [root] ->
    BuildAclListWithIdentity fuel key s v = Ok a -> list_reachable a
| lr_add raw a a' r :
    list_reachable a -> AddRawRecord raw a = (a', r) -> list_reachable a'.

Lemma list_reachable_ok a : list_reachable a -> list_ok a.
Proof.
  induction 1 as [fuel key s v root a Hwf Hlog Hb|raw a a' r _ IH Hadd].
  - by eapply build_root_ok.
  - by eapply AddRawRecord_ok.
Qed.

Lemma replay_history_in ids rest st0 st :
  acl_reachable st0 -> history_in ids (st_accountStates st0) ->
  st_each ApplyRecord rest st0 = (st, Ok tt) ->
  history_in (ids ++ (rec_Id <$> rest)) (st_accountStates st).
Proof.
  revert st0 ids. induction rest as [|record rest IH]; intros st0 ids Hr Hh Hrun.
  - injection Hrun as <-. by rewrite app_nil_r.
  - simpl in Hrun. apply st_bind_Ok in Hrun as (s1 & [] & H1' & H2').
    rewrite fmap_cons, cons_middle, app_assoc.
    apply (IH s1); [by eapply reach_record| |done].
    eapply evolves_history_in; [|exact Hh].
    apply (ApplyRecord_evolves true record); [by apply acl_reachable_ok|
      by apply acl_reachable_accts_ok|done|done].
Qed.

Lemma Build_history_in records key st :
  Build records key true = Ok st -> history_in (rec_Id <$> records) (st_accountStates st).
Proof.
  destruct records as [|root rest]; [done|]. simpl.
  intros (st0 & Hnew & Hrest)%res_bind_Ok.
  destruct (st_each ApplyRecord rest st0) as [s [[]|]] eqn:Hrun; [|done]. injection Hrest as ->.
  apply (replay_history_in [rec_Id root] rest st0); [by eapply reach_root| |done].
  apply (evolves_history_in true _ [] ∅); [by eapply newAclState_evolves|].
  intros k. unfold changes_of. rewrite lookup_empty. constructor.
Qed.

(** A list with a validating verifier holds a reachable state. *)
Lemma list_state_reachable a :
  list_ok a -> al_verifier a = ValidateFull -> acl_reachable (al_aclState a).
Proof. intros Hok Hv. pose proof (lo_state _ Hok) as Hst. rewrite Hv in Hst. by eapply Build_reachable. Qed.

(** C13: a list is its own reload.  Whatever records were offered to a list,
    accepted or refused, building a list from its storage gives exactly the list
    in memory: the same records, index and state. *)
Theorem acl_list_rebuild fuel a :
  list_reachable a ->
  BuildAclListWithIdentity fuel (al_key a) (al_storage a) (al_verifier a) = Ok a.
Proof. intros Hr. by apply list_ok_rebuild, list_reachable_ok. Qed.

(** A refused record leaves no trace.  When adding a record fails, whether it
    was known, undecodable, unauthentic, rejected by the state or refused by the
    storage, the records, the index, the state, the record builder and the stored
    log are as before. *)
Theorem acl_list_add_atomic raw a a' e :
  list_reachable a -> AddRawRecord raw a = (a', Err e) ->
  al_records a' = al_records a /\ al_indexes a' = al_indexes a /\
  al_aclState a' = al_aclState a /\ al_recordBuilder a' = al_recordBuilder a /\
  storage_log (al_storage a') = storage_log (al_storage a).
Proof.
  intros Hr%list_reachable_ok [(e' & _ & ->)|(record & st & s & u & Hi & Hu & _ & Hs & <- & ->)]
    %AddRawRecord_cases; [done|].
  simpl. split_and!; [done..|]. eapply storage_AddAll_law in Hs as (_ & _ & Hlog); [done|..].
  - apply Hr.
  - rewrite <- (decodes_ids _ _ _ (lo_mirror _ Hr)). simpl. rewrite (unmarshalForState_id _ _ _ Hu).
    eapply indexes_ok_None; [apply Hr|done].
  - simpl. by rewrite (Forall2_length _ _ _ (lo_mirror _ Hr)).
Qed.

(** An accepted record is found.  After a record is added it is the head, it
    is found under its id, its raw bytes end the stored log, and every record that
    was found before is found unchanged. *)
Theorem acl_list_add_found raw a a' :
  list_reachable a -> AddRawRecord raw a = (a', Ok tt) ->
  (exists record, Get a' (rwi_Id raw) = Ok record /\ Head a' = Ok record /\
     rec_Id record = rwi_Id raw /\ rec_PrevId record = headId a) /\
  (rawOf <$> last (storage_log (al_storage a')) = Some raw) /\
  (forall id record, Get a id = Ok record -> Get a' id = Ok record).
Proof.
  intros Hr Hadd. assert (list_ok a') as Hok' by (by eapply list_reachable_ok, lr_add).
  apply list_reachable_ok in Hr as Hok.
  apply AddRawRecord_cases in Hadd as [(e & ? & _)|(record & st & s & u & Hi & Hu & Hst & Hs & <- & ->)];
    [done|].
  pose proof (unmarshalForState_id _ _ _ Hu) as Hid.
  assert (rec_Id record ∉ rec_Id <$> al_records a) as Hnew
    by (rewrite Hid; eapply indexes_ok_None; [apply Hok|done]).
  split_and!.
  - exists record. unfold Get, Head. simpl. rewrite Hid, lookup_insert_eq. simpl.
    rewrite list_lookup_middle by done. rewrite last_snoc. split_and!; [done..|].
    symmetry. eapply chain_last; [done|]. apply runs_Ok in Hst as [[] Hrun].
    unfold copyState in Hrun. rewrite (proj1 (Build_setup _ _ _ _ (lo_state _ Hok))) in Hrun.
    unfold ApplyRecord in Hrun. go_inv.
    match goal with Hd : negb (bool_decide _) = false |- _ =>
      by apply negb_false_iff, bool_decide_eq_true in Hd end.
  - simpl. eapply storage_AddAll_law in Hs as (_ & _ & ->); [|apply Hok| |].
    + rewrite last_snoc. simpl. unfold rawOf. simpl. rewrite Hid. by destruct raw.
    + by rewrite <- (decodes_ids _ _ _ (lo_mirror _ Hok)).
    + simpl. by rewrite (Forall2_length _ _ _ (lo_mirror _ Hok)).
  - intros id r Hget. unfold Get in *. go_inv. simpl.
    rewrite lookup_insert_ne by congruence. rewrite Hget0. simpl.
    by rewrite lookup_app_l_Some with (x := r).
Qed.

(** C38: every record is authentic.  Each record of a list after the root carries a
    valid signature of its author over its payload, its id is the hash of its raw
    bytes, and on a client (a verifier with the network key) its acceptor signature
    is valid under that key. *)
Theorem acl_list_authentic a i record :
  list_reachable a -> al_records a !! i = Some record -> rec_Id record <> al_id a ->
  exists sr rawRec, storage_log (al_storage a) !! i = Some sr /\
    RawRecord_UnmarshalVT (sr_RawRecord sr) = Ok rawRec /\
    ed25519_Verify (pubKey (rec_Identity record)) (raw_Payload rawRec) (raw_Signature rawRec) = true /\
    sha256Cid (sr_RawRecord sr) = Ok (rec_Id record) /\
    match al_verifier a with
    | recordVerifier nk => exists k, nk = Some k /\
        ed25519_Verify (pubKey k) (raw_Payload rawRec) (raw_AcceptorSignature rawRec) = true
    | ValidateFull => True
    end.
Proof.
  intros Hr%list_reachable_ok Hi Hne.
  destruct (Forall2_lookup_r _ _ _ _ _ (lo_mirror _ Hr) Hi) as (sr & Hsr & Hd).
  rewrite (lo_builder _ Hr), unmarshalForState_state in Hd.
  pose proof (unmarshalForState_id _ _ _ Hd) as Hid. simpl in Hid.
  unfold unmarshalForState in Hd. apply res_bind_Ok in Hd as (r & Hd & Hr'). injection Hr' as <-.
  unfold UnmarshallWithId in Hd. apply res_bind_Ok in Hd as (rawRec & Hraw & Hd).
  exists sr, rawRec. split; [done|]. split; [done|]. simpl in Hd.
  rewrite decide_False in Hd by (simpl in *; congruence).
  apply res_bind_Ok in Hd as (r' & Hdec & Hd). apply res_bind_Ok in Hd as ([] & Hver & Hd).
  injection Hd as ->. unfold verifyRaw, PubKey_Verify, VerifyCid in Hver. simpl in Hver.
  go_inv. apply negb_false_iff in Hver. destruct (sha256Cid (sr_RawRecord sr)); [|done].
  apply bool_decide_eq_true in Hver as ->. split; [by apply negb_false_iff|]. split; [done|].
  match goal with Hv : VerifyAcceptor _ _ = Ok _ |- _ => simpl in Hv; rename Hv into Hacc end.
  destruct (al_verifier a) as [nk|]; [|done]. unfold VerifyAcceptor in Hacc. go_inv.
  destruct nk as [k|]; [|done].
  match goal with He : negb (PubKey_Equals ?x k) = false |- _ =>
    apply negb_false_iff, PubKey_Equals_true in He; subst x end.
  exists k. split; [done|]. unfold PubKey_Verify in Hacc.
  by destruct (ed25519_Verify (pubKey k) _ _).
Qed.

(** The fast loader is the reference loader.  Whenever the single scan in
    stored order yields a chain from the root to the head, walking from the head to
    the root by previous ids yields the same records; the walk needs no more steps
    than there are records. *)
Theorem acl_load_scan_is_walk fuel s (b : aclRecordBuilder) head records :
  storage_wf s -> loadRecordsByScan s b = Ok records ->
  isContiguousChain records (rb_id b) head = true ->
  "" ∉ rec_Id <$> records -> (length records <= fuel)%nat ->
  loadRecords fuel s b (rb_id b) head = loadRecordsByPrevId fuel s b head.
Proof.
  intros Hwf Hscan Hc Hne Hf. unfold loadRecords. rewrite Hscan, Hc.
  symmetry. by apply scan_eq_walk.
Qed.

(** The present is the permission at the head.  For an account the list knows,
    the permissions at the head record are its current permissions. *)
Theorem acl_permissions_at_head a pk :
  list_reachable a -> al_verifier a = ValidateFull ->
  is_Some (st_accountStates (al_aclState a) !! mapKeyFromPubKey pk) ->
  PermissionsAtRecord (al_indexes a) (al_aclState a) (headId a) pk =
  Ok (Permissions (al_aclState a) pk).
Proof.
  intros Hr%list_reachable_ok Hv [acc Hacc]. unfold PermissionsAtRecord, Permissions.
  rewrite Hacc. simpl.
  destruct (Build_setup _ _ _ _ (lo_state _ Hr)) as [_ (lst & Hlst & _)].
  assert (al_indexes a !! headId a = Some (Nat.pred (length (al_records a)))) as Hidx.
  { apply (lo_indexes _ Hr). unfold headId. rewrite Hlst. simpl.
    rewrite list_lookup_fmap, <- last_lookup, Hlst. done. }
  rewrite bool_decide_eq_true_2 by (by eexists). simpl. f_equal. unfold closestPermissions.
  rewrite closestChange_last.
  - by destruct (acl_reachable_accts_ok _ (list_state_reachable _ Hr Hv) _ _ Hacc) as [_ <-].
  - intros id. unfold isAfterNoCheck. rewrite Hidx. simpl. apply Nat.leb_le.
    destruct (al_indexes a !! id) as [i|] eqn:Hi; simpl; [|lia].
    apply (lo_indexes _ Hr), lookup_lt_Some in Hi. rewrite length_fmap in Hi. lia.
Qed.

(** The past is stable.  Adding a record that does not add accounts directly
    leaves the permissions of every account at every earlier record as they were. *)
Theorem acl_history_stable raw a a' id pk p :
  list_reachable a -> al_verifier a = ValidateFull -> AddRawRecord raw a = (a', Ok tt) ->
  (forall record data, unmarshalForState (al_recordBuilder a) raw = Ok record ->
     recordData record = Ok data -> forallb (fun ch => negb (isAccountsAdd ch)) data = true) ->
  PermissionsAtRecord (al_indexes a) (al_aclState a) id pk = Ok p ->
  PermissionsAtRecord (al_indexes a') (al_aclState a') id pk = Ok p.
Proof.
  intros Hr%list_reachable_ok Hv Hadd Hdata Hp.
  apply AddRawRecord_cases in Hadd as [(e & ? & _)|(record & st & s & u & Hi & Hu & Hst & _ & <- & ->)];
    [done|].
  pose proof (unmarshalForState_id _ _ _ Hu) as Hid.
  destruct (Build_setup _ _ _ _ (lo_state _ Hr)) as [Hcopy _].
  unfold copyState in Hst. rewrite Hcopy in Hst. apply runs_Ok in Hst as [[] Hrun].
  pose proof (list_state_reachable _ Hr Hv) as Hreach.
  assert (history_in (rec_Id <$> al_records a) (st_accountStates (al_aclState a))) as Hh.
  { pose proof (lo_state _ Hr) as Hst. rewrite Hv in Hst. by eapply Build_history_in. }
  apply (ApplyRecord_evolves false record) in Hrun as [Hdom Hev];
    [|by apply acl_reachable_ok|by apply acl_reachable_accts_ok|by eauto].
  simpl. unfold PermissionsAtRecord in *. go_inv.
  match goal with Hd : negb (bool_decide (is_Some (al_indexes a !! id))) = false |- _ =>
    apply negb_false_iff, bool_decide_eq_true in Hd as [i Hid'] end.
  match goal with Hacc : st_accountStates (al_aclState a) !! _ = Some ?x |- _ =>
    rename x into acc; pose proof Hacc as Hk end.
  assert (rec_Id record <> id) as Hne by congruence.
  simpl. rewrite lookup_insert_ne by done. rewrite Hid'. rewrite bool_decide_eq_true_2 by done. simpl.
  destruct (st_accountStates st !! mapKeyFromPubKey pk) as [acc'|] eqn:Hk'; cycle 1.
  { exfalso. apply not_elem_of_dom in Hk'. apply Hk', Hdom. by eapply elem_of_dom_2. }
  simpl. f_equal. unfold closestPermissions.
  set (after' := isAfterNoCheck (<[_ := _]> _)). set (after := isAfterNoCheck (al_indexes a)).
  assert (Forall (fun c => after' id (pc_RecordId c) = after id (pc_RecordId c))
            (rev (as_PermissionChanges acc))) as Hsame.
  { apply Forall_rev. specialize (Hh (mapKeyFromPubKey pk)). unfold changes_of in Hh.
    rewrite Hk in Hh. eapply Forall_impl; [exact Hh|]. simpl. intros c Hc.
    unfold after', after, isAfterNoCheck. rewrite !lookup_insert_ne; [done|done|].
    intros Heq. rewrite <- Heq, Hid in Hc. by eapply indexes_ok_None in Hi; [|apply Hr]. }
  destruct (Hev _ _ Hk') as [Hold|(_ & pre & suf & Hsuf & -> & [->|[? _]])]; [| |done].
  - assert (acc' = acc) as -> by congruence. by apply closestChange_ext.
  - unfold changes_of. rewrite Hk, rev_app_distr.
    rewrite closestChange_skip; [by apply closestChange_ext|]. apply Forall_rev.
    eapply Forall_impl; [exact Hsuf|]. simpl. intros c ->.
    unfold after', isAfterNoCheck. rewrite lookup_insert_eq, lookup_insert_ne, Hid' by done.
    simpl. apply Nat.leb_gt. apply (lo_indexes _ Hr), lookup_lt_Some in Hid'.
    by rewrite length_fmap in Hid'.
Qed.
End main.
