(* ===== verification/AclListSync.v ===== *)
(** Serving and catching up: what a list answers to a peer that names its head, and
    that the answer brings the peer to the same list.  The shrinking decoder at the
    list level, the witnesses of the list properties, and where in-memory lists and
    account additions fall short. *)

From Stdlib Require Import ZArith Lia String.
From stdpp Require Import base option list gmap strings.
From S2P Require Import Prelude Crypto AclModels AclState AclValidator AclApply AclSpec AclRefine AclExample AclHistory AclStorage AclKeep AclList AclListInv AclListMain.

Local Open Scope Z_scope.

Section sync.
Context `{CryptoPrims} `{AclCodec} `{SharedKeyPrims} `{MapRange} `{ProtoWire} `{ListCodec}.
Context {T : Type} `{AclStorageLaws T}.
Implicit Types (a c : aclList T).

Lemma visit_collectRaw l acc : visit collectRaw l acc = (acc ++ (rawOf <$> l), Ok tt).
Proof.
  revert acc. induction l as [|sr l IH]; intros acc; simpl; [by rewrite app_nil_r|].
  unfold mbind at 1, st_bind at 1. simpl. rewrite IH. by rewrite <- app_assoc.
Qed.

Lemma RecordsAfter_at a id i :
  list_ok a -> id <> "" -> al_indexes a !! id = Some i -> (1 <= i)%nat ->
  RecordsAfter a id = Ok (rawOf <$> drop (i - 1) (storage_log (al_storage a))).
Proof.
  intros Hok Hne Hi Hle. unfold RecordsAfter, runs. rewrite decide_False, Hi by done. simpl.
  rewrite storage_After_law by (apply Hok || lia). rewrite Nat2Z.id. by rewrite visit_collectRaw.
Qed.

Lemma RecordsAfter_all a :
  list_ok a -> RecordsAfter a "" = Ok (rawOf <$> storage_log (al_storage a)).
Proof.
  intros Hok. unfold RecordsAfter, runs. simpl.
  rewrite storage_After_law by (apply Hok || lia). change (Z.to_nat 1 - 1)%nat with 0%nat.
  by rewrite visit_collectRaw, drop_0.
Qed.

(** ** Catching up *)

(** Lists of one account on one space with one verifier. *)
Definition same_account a c : Prop :=
  al_id c = al_id a /\ al_key c = al_key a /\ al_verifier c = al_verifier a.

Abbreviation raws a := (rawOf <$> storage_log (al_storage a)).

(** Two lists over the same raw records are the same but for their storages. *)
Lemma mirror_records a c n :
  list_ok a -> list_ok c -> same_account a c -> raws c = take n (raws a) ->
  al_records c = take n (al_records a).
Proof.
  intros Ha Hc (Hid & Hk & Hv) Hraw.
  assert (forall l, list_ok l -> Forall2 (fun raw r => unmarshalForState
    (NewAclRecordBuilder (al_id l) (Some (al_key l)) (al_verifier l)) raw = Ok r)
    (raws l) (al_records l)) as Hdec.
  { intros l Hl. apply Forall2_fmap_l. pose proof (lo_mirror _ Hl) as Hm.
    rewrite (lo_builder _ Hl) in Hm. exact Hm. }
  pose proof (Hdec c Hc) as Hdc. rewrite Hid, Hk, Hv, Hraw in Hdc.
  pose proof (Forall2_take _ _ _ n (Hdec a Ha)) as Hda.
  revert Hdc Hda. generalize (al_records c) (take n (al_records a)) (take n (raws a)).
  intros l l' raw Hl. revert l'. induction Hl as [|x y raw l Hx _ IH]; inversion 1; subst; [done|].
  f_equal; [congruence|by apply IH].
Qed.

Lemma same_list a c :
  list_ok a -> list_ok c -> same_account a c -> raws c = raws a ->
  al_records c = al_records a /\ al_indexes c = al_indexes a /\ al_aclState c = al_aclState a.
Proof.
  intros Ha Hc Hs Hraw.
  assert (al_records c = al_records a) as Hrec.
  { rewrite <- (firstn_all (al_records a)). apply mirror_records; [done..|].
    rewrite Hraw. symmetry. apply take_ge.
    by rewrite length_fmap, (Forall2_length _ _ _ (lo_mirror _ Ha)). }
  split; [done|]. destruct Hs as (_ & Hk & Hv). split.
  - eapply indexes_ok_unique; [apply (lo_indexes _ Hc)|]. rewrite Hrec. apply Ha.
  - pose proof (lo_state _ Hc) as Hst. rewrite Hrec, Hk, Hv, (lo_state _ Ha) in Hst. congruence.
Qed.

(** Every prefix of a replayed log replays. *)
Lemma Build_prefix records rest key v st :
  records <> [] -> Build (records ++ rest) key v = Ok st ->
  exists st', Build records key v = Ok st'.
Proof.
  intros Hne. unfold Build. destruct records as [|root l]; [done|]. simpl.
  intros (st0 & -> & Hrun)%res_bind_Ok. unfold mbind, res_bind. rewrite st_each_app in Hrun.
  unfold mbind, st_bind in Hrun. destruct (st_each ApplyRecord l st0) as [s [[]|e]]; [eauto|done].
Qed.

(** No write of the storage fails: it takes a record whose id it does not have and whose
    order is the next one. *)
Definition storage_accepts : Prop :=
  forall s sr, storage_wf s -> sr_Id sr ∉ sr_Id <$> storage_log s ->
    sr_Order sr = Z.of_nat (length (storage_log s)) + 1 -> exists s', Storage_AddAll [sr] s = (s', Ok tt).

Lemma AddRawRecord_next a c n raw :
  storage_accepts -> list_ok a -> list_ok c -> same_account a c ->
  raws c = take n (raws a) -> raws a !! n = Some raw ->
  exists c', AddRawRecord raw c = (c', Ok tt) /\ list_ok c' /\ same_account a c' /\
    raws c' = take (S n) (raws a).
Proof.
  intros Hacc Ha Hc Hs Hraw Hn. pose proof (mirror_records a c n Ha Hc Hs Hraw) as Hrec.
  assert (exists sr record, storage_log (al_storage a) !! n = Some sr /\ rawOf sr = raw /\
    al_records a !! n = Some record /\ unmarshalForState (al_recordBuilder c) raw = Ok record)
    as (sr & record & Hsr & Hraw' & Hr & Hu).
  { rewrite list_lookup_fmap in Hn. apply fmap_Some in Hn as (sr & Hsr & ->).
    destruct (Forall2_lookup_l _ _ _ _ _ (lo_mirror _ Ha) Hsr) as (record & Hr & Hd).
    exists sr, record. split_and!; [done..|]. destruct Hs as (Hid & Hk & Hv).
    rewrite (lo_builder _ Hc), Hid, Hk, Hv. by rewrite (lo_builder _ Ha) in Hd. }
  pose proof (unmarshalForState_id _ _ _ Hu) as Hid.
  assert (al_indexes c !! rwi_Id raw = None) as Hnew.
  { apply eq_None_not_Some. intros [j Hj]. apply (lo_indexes _ Hc) in Hj.
    rewrite Hrec, fmap_take in Hj. apply lookup_take_Some in Hj as [Hj Hlt].
    apply (lo_indexes _ Ha) in Hj.
    assert (al_indexes a !! rwi_Id raw = Some n) by (apply (lo_indexes _ Ha); rewrite list_lookup_fmap, Hr; simpl; congruence).
    assert (j = n) by congruence. lia. }
  assert (exists st, runs (ApplyRecord record) (copyState c) = Ok st) as [st Hst].
  { unfold copyState. rewrite (proj1 (Build_setup _ _ _ _ (lo_state _ Hc))).
    rewrite <- (Build_snoc _ record _ _ _ (lo_state _ Hc)). rewrite Hrec.
    destruct Hs as (_ & -> & ->). rewrite <- (take_S_r _ _ _ Hr).
    apply (Build_prefix _ (drop (S n) (al_records a)) _ _ (al_aclState a)).
    - intros Hnil. rewrite (take_S_r _ _ _ Hr) in Hnil. by destruct (take n (al_records a)).
    - rewrite take_drop. apply Ha. }
  assert (sr_Id (storedAs raw record c) ∉ sr_Id <$> storage_log (al_storage c)) as Hfresh.
  { rewrite <- (decodes_ids _ _ _ (lo_mirror _ Hc)). simpl. rewrite Hid. by eapply indexes_ok_None; [apply Hc|]. }
  assert (sr_Order (storedAs raw record c) = Z.of_nat (length (storage_log (al_storage c))) + 1) as Horder
    by (simpl; by rewrite (Forall2_length _ _ _ (lo_mirror _ Hc))).
  destruct (Hacc (al_storage c) (storedAs raw record c) ltac:(apply Hc) Hfresh Horder) as [s Hs'].
  assert (exists c', AddRawRecord raw c = (c', Ok tt) /\ same_account a c') as (c' & Hadd & Hs2).
  { unfold AddRawRecord, mbind, st_bind, calls, reads, onStorage. rewrite Hnew. simpl.
    rewrite Hu. simpl. rewrite Hst. unfold storedAs in Hs'. rewrite Hs'. eexists. by split. }
  exists c'. split; [done|]. split; [by eapply AddRawRecord_ok|]. split; [done|].
  assert (list_ok c') as Hok' by by eapply AddRawRecord_ok.
  apply AddRawRecord_cases in Hadd as [(e & ? & _)|(r' & st' & s' & u & _ & Hu' & _ & Hs3 & <- & ->)];
    [done|]. assert (r' = record) as -> by congruence.
  simpl. eapply storage_AddAll_law in Hs3 as (_ & _ & ->); [|apply Hc|exact Hfresh|exact Horder].
  rewrite fmap_app, Hraw. symmetry. rewrite (take_S_r _ _ _ Hn). f_equal. simpl.
  unfold rawOf at 1. simpl. rewrite Hid. by destruct raw.
Qed.

Lemma AddRawRecords_from a c m n :
  storage_accepts -> list_ok a -> list_ok c -> same_account a c ->
  raws c = take n (raws a) -> (m <= n <= length (raws a))%nat ->
  exists c', AddRawRecords (drop m (raws a)) c = (c', Ok tt) /\ list_ok c' /\
    same_account a c' /\ raws c' = raws a.
Proof.
  intros Hacc Ha. remember (length (raws a) - m)%nat as k eqn:Hk. revert c m n Hk.
  induction k as [|k IH]; intros c m n Hk Hc Hs Hraw Hmn.
  - rewrite drop_ge by lia. exists c. rewrite Hraw. split_and!; [done..|]. by rewrite take_ge by lia.
  - destruct (lookup_lt_is_Some_2 (raws a) m) as [raw Hm]; [lia|].
    rewrite (drop_S _ _ _ Hm). simpl. destruct (decide (m < n)%nat) as [Hlt|Hge].
    + assert (is_Some (al_indexes c !! rwi_Id raw)) as [j Hj].
      { assert (raws c !! m = Some raw) as Hcm by (rewrite Hraw, lookup_take; by case_decide).
        exists m. apply (lo_indexes _ Hc). rewrite (decodes_ids _ _ _ (lo_mirror _ Hc)).
        rewrite !list_lookup_fmap in *. by destruct (storage_log (al_storage c) !! m); simplify_eq/=. }
      assert (AddRawRecord raw c = (c, Err ErrRecordAlreadyExists)) as ->.
      { unfold AddRawRecord, mbind, st_bind, calls. by rewrite Hj. }
      rewrite decide_True by done. apply (IH c (S m) n); [lia|done..|lia].
    + assert (m = n) as -> by lia.
      destruct (AddRawRecord_next a c n raw) as (c1 & -> & Hc1 & Hs1 & Hraw1); [done..|].
      apply (IH c1 (S n) (S n)); [lia|done..|lia].
Qed.

(** C14: a peer catches up.  A peer of the same account that holds a prefix of the
    log, past the root, and is sent what the list answers to the peer's head, adds it
    without an error, as long as no write of its storage fails, and ends with the same
    records, the same index and the same state. *)
Theorem acl_sync_catches_up a c i records :
  storage_accepts -> list_reachable a -> list_reachable c -> same_account a c ->
  raws c = take (S i) (raws a) -> al_indexes a !! headId c = Some i -> (1 <= i)%nat ->
  headId c <> "" -> RecordsAfter a (headId c) = Ok records ->
  exists c', AddRawRecords records c = (c', Ok tt) /\
    al_records c' = al_records a /\ al_indexes c' = al_indexes a /\
    al_aclState c' = al_aclState a.
Proof.
  intros Hacc Ha%list_reachable_ok Hc%list_reachable_ok Hs Hraw Hi Hle Hne Hrec.
  rewrite (RecordsAfter_at _ _ _ Ha Hne Hi Hle) in Hrec. injection Hrec as <-.
  rewrite fmap_drop. assert (i < length (raws a))%nat as Hlt.
  { apply (lo_indexes _ Ha), lookup_lt_Some in Hi.
    by rewrite (decodes_ids _ _ _ (lo_mirror _ Ha)), length_fmap in Hi; rewrite length_fmap. }
  destruct (AddRawRecords_from a c (i - 1) (S i)) as (c' & Hadd & Hc' & Hs' & Hraw');
    [done..|lia|]. exists c'. split; [done|]. by apply same_list.
Qed.

(** The whole log is served verbatim.  A request without a head is answered
    with the stored raw bytes of every record, in order, whatever the decoded
    records in memory hold. *)
Theorem acl_records_served_raw a :
  list_reachable a -> RecordsAfter a "" = Ok (raws a).
Proof. intros Ha%list_reachable_ok. by apply RecordsAfter_all. Qed.
End sync.

(** ** Shrunken records *)

Section shrink.
Context `{CryptoPrims} `{AclCodec} `{SharedKeyPrims} `{MapRange} `{ProtoWire} `{ListCodec}.

Lemma isOurIdentity_recognises id key v :
  recognises (isOurIdentity (NewAclRecordBuilder id (Some key) v)) (GetPublic key).
Proof.
  intros b pk Hb Heq. unfold isOurIdentity. case_decide; [done|]. rewrite Hb. exact Heq.
Qed.

(** Keeping only our own keys is safe.  On a client, which does not validate,
    the record decoded with the other members' keys filtered out takes the state of
    its account exactly where the fully decoded record takes it. *)
Theorem acl_keep_identity_safe id key nk dAtA data record st st' :
  AclData_UnmarshalVT dAtA = Ok data -> rec_Model record = ModelData data ->
  st_pubKey st = GetPublic key -> st_contentValidator st = newContentValidator false ->
  ApplyRecord record st = (st', Ok tt) ->
  exists data',
    fullDecodeFilter (isOurIdentity (NewAclRecordBuilder id (Some key) (recordVerifier nk))) dAtA =
      Ok data' /\
    ApplyRecord (mkAclRecord (rec_Id record) (rec_PrevId record) (rec_Timestamp record)
      (rec_AcceptorTimestamp record) (rec_Data record) (rec_Identity record) (ModelData data')
      (rec_Signature record)) st = (st', Ok tt).
Proof.
  intros Hd Hm Hp Hv Hrun. unfold fullDecodeFilter. rewrite Hd. eexists. split; [done|].
  eapply (ApplyRecord_shrink _ record data); [|by rewrite Hv| |done|done].
  - unfold ShouldValidate. by rewrite Hv.
  - rewrite Hp. apply isOurIdentity_recognises.
Qed.
End shrink.

(** ** In-memory lists *)

Section memory.
Context `{CryptoPrims} `{AclCodec} `{SharedKeyPrims} `{MapRange} `{ProtoWire} `{ListCodec}.

(** A peer at the root is sent nothing.  A list over the in-memory storage, as
    the ACL service keeps it, answers a peer whose head is the root with no records,
    however long the log is: the root's index 0 is taken for an order, and orders
    start at 1. *)
Theorem acl_memory_root_unserved (a : aclList inMemoryStorage) :
  list_reachable a -> al_id a <> "" -> RecordsAfter a (al_id a) = Ok [].
Proof.
  intros Ha%list_reachable_ok Hne.
  pose proof (lo_chain _ Ha) as ((first & Hf & Hid) & _)%isContiguousChain_linked.
  assert (al_indexes a !! al_id a = Some 0%nat) as Hi.
  { apply (lo_indexes _ Ha). by rewrite list_lookup_fmap, Hf, <- Hid. }
  unfold RecordsAfter. rewrite decide_False, Hi by done. simpl.
  unfold runs, ims_GetAfterOrder. by rewrite orb_true_r.
Qed.
End memory.

(** ** Witnesses: the example space as raw records *)

Local Open Scope string_scope.

(** No fast path: the decoder falls back to the full decode. *)
Definition toyWire : ProtoWire := {|
  protowire_ConsumeTag := fun _ => None;
  protowire_ConsumeBytes := fun _ => None;
  AclEncryptedReadKey_UnmarshalVT := fun _ => Err (GoError "unexpected EOF");
|}.

(** A raw record is its id; the tables give its author and its content. *)
Definition toyAuthor (id : bytes) : string := if decide (id = "r2") then bob else alice.
Definition toyListCodec : ListCodec := {|
  RawRecord_UnmarshalVT := fun b => Ok (mkRawRecord b (pubKey (pubOf (toyAuthor b)) ++ b) "" "" 0);
  Record_UnmarshalVT := fun b =>
    if decide (b = "r1") then Ok (mkConsensusRecord "root" (idOf alice) "invite" 0)
    else if decide (b = "r2") then Ok (mkConsensusRecord "r1" (idOf bob) "ask" 0)
    else if decide (b = "r3") then Ok (mkConsensusRecord "r2" (idOf alice) "accept" 0)
    else Err (GoError "unexpected EOF");
  sha256Cid := fun b => Ok b;
|}.

#[global] Existing Instances toyWire toyListCodec.

Definition exRaw (id : string) : RawRecordWithId := mkRawRecordWithId id id.
Definition exStorage : inMemoryStorage :=
  match NewInMemoryStorage [exRaw "root"] with
  | Ok s => s
  | Err _ => mkInMemoryStorage "" (mkStorageRecord "" "" "" 0 0) "" ∅ []
  end.

(** alice's list after the given records. *)
Definition exList0 : res (aclList inMemoryStorage) :=
  BuildAclListWithIdentity 0 (privOf alice) exStorage ValidateFull.
Definition exNoList : aclList inMemoryStorage :=
  mkAclList (exRaw "") [] ∅ "" (privOf alice) (mkAclRecordBuilder "" None ValidateFull None None None)
    (emptyAclState "" (privOf alice) true) exStorage ValidateFull.
Definition exListOf (ids : list string) : aclList inMemoryStorage :=
  match exList0 with
  | Ok a => fold_left (fun a id => fst (AddRawRecord (exRaw id) a)) ids a
  | Err _ => exNoList
  end.

Example exList_len : length (al_records (exListOf ["r1"; "r2"; "r3"])) = 4%nat.
Proof. vm_compute. reflexivity. Qed.

Lemma exList0_reachable a : exList0 = Ok a -> list_reachable a.
Proof.
  intros Hb. eapply lr_build; [| |exact Hb].
  - eapply (NewInMemoryStorage_wf [exRaw "root"]); [apply NoDup_singleton|reflexivity].
  - reflexivity.
Qed.

Lemma exListOf_reachable ids : list_reachable (exListOf ids).
Proof.
  unfold exListOf. assert (exists a, exList0 = Ok a) as [a Ha].
  { destruct exList0 as [a|e] eqn:He; [by exists a|]. exfalso. revert He. vm_compute. done. }
  rewrite Ha. apply exList0_reachable in Ha. revert a Ha.
  induction ids as [|id ids IH]; intros a Ha; simpl; [done|].
  apply IH. destruct (AddRawRecord (exRaw id) a) as [a' r] eqn:Hadd. by eapply lr_add.
Qed.

Lemma acl_list_rebuild_witness :
  BuildAclListWithIdentity 0 (privOf alice) (al_storage (exListOf ["r1"; "r2"])) ValidateFull =
  Ok (exListOf ["r1"; "r2"]).
Proof. apply (acl_list_rebuild 0 (exListOf ["r1"; "r2"])). apply exListOf_reachable. Defined.

(** A record whose predecessor is missing is refused. *)
Lemma acl_list_add_atomic_witness :
  let a := exListOf ["r1"] in let a' := fst (AddRawRecord (exRaw "r3") a) in
  al_records a' = al_records a /\ al_indexes a' = al_indexes a /\
  al_aclState a' = al_aclState a /\ al_recordBuilder a' = al_recordBuilder a /\
  storage_log (al_storage a') = storage_log (al_storage a).
Proof.
  cbv zeta. apply (acl_list_add_atomic (exRaw "r3") _ _ ErrIncorrectRecordSequence);
    [apply exListOf_reachable|vm_compute; reflexivity].
Defined.

Lemma acl_list_add_found_witness :
  let a := exListOf ["r1"] in let a' := fst (AddRawRecord (exRaw "r2") a) in
  (exists record, Get a' "r2" = Ok record /\ Head a' = Ok record /\
     rec_Id record = "r2" /\ rec_PrevId record = headId a) /\
  (rawOf <$> last (storage_log (al_storage a')) = Some (exRaw "r2")) /\
  (forall id record, Get a id = Ok record -> Get a' id = Ok record).
Proof.
  cbv zeta. apply (acl_list_add_found (exRaw "r2"));
    [apply exListOf_reachable|vm_compute; reflexivity].
Defined.

Lemma acl_list_authentic_witness :
  exists record, al_records (exListOf ["r1"]) !! 1%nat = Some record /\
  exists sr rawRec, storage_log (al_storage (exListOf ["r1"])) !! 1%nat = Some sr /\
    RawRecord_UnmarshalVT (sr_RawRecord sr) = Ok rawRec /\
    ed25519_Verify (pubKey (rec_Identity record)) (raw_Payload rawRec) (raw_Signature rawRec) = true /\
    sha256Cid (sr_RawRecord sr) = Ok (rec_Id record) /\
    match al_verifier (exListOf ["r1"]) with
    | recordVerifier nk => exists k, nk = Some k /\
        ed25519_Verify (pubKey k) (raw_Payload rawRec) (raw_AcceptorSignature rawRec) = true
    | ValidateFull => True
    end.
Proof.
  eexists. split; [vm_compute; reflexivity|].
  apply (acl_list_authentic (exListOf ["r1"]) 1);
    [apply exListOf_reachable|vm_compute; reflexivity|by vm_compute].
Defined.

Definition exBuilder : aclRecordBuilder :=
  NewAclRecordBuilder "root" (Some (privOf alice)) ValidateFull.

Lemma acl_load_scan_is_walk_witness :
  loadRecords 3 (al_storage (exListOf ["r1"; "r2"])) exBuilder (rb_id exBuilder) "r2" =
  loadRecordsByPrevId 3 (al_storage (exListOf ["r1"; "r2"])) exBuilder "r2".
Proof.
  apply (acl_load_scan_is_walk 3 (al_storage (exListOf ["r1"; "r2"])) exBuilder "r2"
           (al_records (exListOf ["r1"; "r2"]))).
  - apply lo_storage, list_reachable_ok, exListOf_reachable.
  - vm_compute. reflexivity.
  - vm_compute. reflexivity.
  - apply (bool_decide_unpack _). vm_compute. exact I.
  - vm_compute. repeat constructor.
Defined.

Lemma acl_permissions_at_head_witness :
  PermissionsAtRecord (al_indexes (exListOf ["r1"; "r2"; "r3"]))
    (al_aclState (exListOf ["r1"; "r2"; "r3"])) (headId (exListOf ["r1"; "r2"; "r3"])) (pubOf bob) =
  Ok (Permissions (al_aclState (exListOf ["r1"; "r2"; "r3"])) (pubOf bob)).
Proof.
  apply (acl_permissions_at_head (exListOf ["r1"; "r2"; "r3"]));
    [apply exListOf_reachable|vm_compute; reflexivity|].
  eexists. vm_compute. reflexivity.
Defined.

(** Before he was accepted bob had no permissions, and that stays so. *)
Lemma acl_history_stable_witness :
  PermissionsAtRecord (al_indexes (fst (AddRawRecord (exRaw "r3") (exListOf ["r1"; "r2"]))))
    (al_aclState (fst (AddRawRecord (exRaw "r3") (exListOf ["r1"; "r2"])))) "r2" (pubOf bob) =
  Ok AclPermissionsNone.
Proof.
  apply (acl_history_stable (exRaw "r3") (exListOf ["r1"; "r2"]));
    [apply exListOf_reachable|vm_compute; reflexivity|vm_compute; reflexivity| |vm_compute; reflexivity].
  intros record data Hr. vm_compute in Hr. injection Hr as <-. vm_compute. by intros [= <-].
Defined.

Lemma acl_sync_catches_up_witness :
  exists c', AddRawRecords [exRaw "root"; exRaw "r1"; exRaw "r2"; exRaw "r3"] (exListOf ["r1"]) =
      (c', Ok tt) /\
    al_records c' = al_records (exListOf ["r1"; "r2"; "r3"]) /\
    al_indexes c' = al_indexes (exListOf ["r1"; "r2"; "r3"]) /\
    al_aclState c' = al_aclState (exListOf ["r1"; "r2"; "r3"]).
Proof.
  apply (acl_sync_catches_up (exListOf ["r1"; "r2"; "r3"]) (exListOf ["r1"]) 1).
  - intros s sr _ _ _. by eexists.
  - apply exListOf_reachable.
  - apply exListOf_reachable.
  - vm_compute. done.
  - vm_compute. reflexivity.
  - vm_compute. reflexivity.
  - lia.
  - by vm_compute.
  - vm_compute. reflexivity.
Defined.

Lemma acl_records_served_raw_witness :
  RecordsAfter (exListOf ["r1"]) "" = Ok (rawOf <$> storage_log (al_storage (exListOf ["r1"]))).
Proof. apply (acl_records_served_raw (exListOf ["r1"])). apply exListOf_reachable. Defined.

Lemma acl_memory_root_unserved_witness :
  length (al_records (exListOf ["r1"])) = 2%nat /\ RecordsAfter (exListOf ["r1"]) "root" = Ok [].
Proof.
  split; [vm_compute; reflexivity|].
  apply (acl_memory_root_unserved (exListOf ["r1"])); [apply exListOf_reachable|by vm_compute].
Defined.

(** A client of alice's account that trusts its records. *)
Definition exTrusting : AclState := match Build [exRoot] (privOf alice) false with
  | Ok st => st | Err _ => emptyAclState "" (privOf alice) false end.

Lemma acl_keep_identity_safe_witness :
  exists data',
    fullDecodeFilter (isOurIdentity (NewAclRecordBuilder "root" (Some (privOf alice))
      (recordVerifier None))) "invite" = Ok data' /\
    ApplyRecord (mkAclRecord "r1" "root" 0 0 "" (pubOf alice) (ModelData data') "") exTrusting =
      (fst (ApplyRecord exInvite exTrusting), Ok tt).
Proof.
  apply (acl_keep_identity_safe "root" (privOf alice) None "invite" exInviteData exInvite);
    vm_compute; reflexivity.
Defined.

(** ** A history that is lost *)

(** bob is added as a reader, removed, and added again. *)
Definition exReaders : list AclRecord :=
  [exRoot;
   exRec "r1" "root" alice [CAccountsAdd [mkAclAccountAdd (idOf bob) AclPermissionsReader "" ""]];
   exRec "r2" "r1" alice [CAccountRemove (mkAclAccountRemove [idOf bob]
     (Some (mkAclReadKeyChange [mkAclEncryptedReadKey (idOf alice) (boxTo alice key2)]
       (idOf "N") (Some (metaSealed key2 "N"))
       (Some (seal key2 (toy_marshal KeyType_AES (symRaw key1)))) [])))]]%list.
Definition exReadded : list AclRecord := (exReaders ++
  [exRec "r3" "r2" alice [CAccountsAdd [mkAclAccountAdd (idOf bob) AclPermissionsReader "" ""]]])%list.

(** Adding an account again forgets its past.  After bob was removed and added
    once more, the permissions at the record that first made him a reader are no
    longer those of a reader: the addition replaces his permission changes. *)
Theorem acl_readd_forgets_history :
  let indexes := indexFrom 0 ["root"; "r1"; "r2"; "r3"] ∅ in
  PermissionsAtRecord indexes (exState exReaders) "r1" (pubOf bob) = Ok AclPermissionsReader /\
  PermissionsAtRecord indexes (exState exReadded) "r1" (pubOf bob) = Ok AclPermissionsNone.
Proof. vm_compute. done. Qed.
