(* ===== verification/Ldiff.v ===== *)
(** The difference container (src/app/ldiff: diff.go, hashrange.go): a sorted set of
    (id, head) elements, a tree of hashed 64-bit ranges over it, and the exchange
    that finds the difference with a remote container.  The skip list, xxhash and
    blake3 are third-party code: parameters. *)

From Stdlib Require Import ZArith Lia String Ascii.
From stdpp Require Import base option list gmap strings sorting.
From S2P Require Import Prelude.

Local Open Scope Z_scope.

(** ** uint64 *)

Definition MaxUint64 : Z := 2 ^ 64 - 1.
Definition u64 (x : Z) : Z := x mod 2 ^ 64.

(** ** Data *)

Record Element := mkElement { el_Id : string; el_Head : string }.

(** The unexported [element]: an element and the hash of its id. *)
Record element := mkelement { el_Element : Element; el_hash : Z }.

#[global] Instance Element_eq_dec : EqDecision Element.
Proof. solve_decision. Defined.
#[global] Instance element_eq_dec : EqDecision element.
Proof. solve_decision. Defined.

Record Range := mkRange { r_From : Z; r_To : Z; r_Elements : bool; r_Limit : Z }.

(** A nil hash and an empty one are the same to [bytes.Equal]. *)
Record RangeResult := mkRangeResult {
  rr_Hash : bytes;
  rr_Elements : list Element;
  rr_Count : Z;
}.

Abbreviation rangeTuple := (Z * Z)%type.

Record hashRange := mkHashRange {
  hr_from : Z;
  hr_to : Z;
  hr_parent : option rangeTuple;
  hr_isDivided : bool;
  hr_elements : Z;
  hr_level : Z;
  hr_hash : bytes;
}.

(** Range objects live in the map under their bounds, and the pointers [parent],
    [topRange] and the keys of [dirty] are those bounds. *)
Record hashRanges := mkHashRanges {
  hrs_ranges : gmap rangeTuple hashRange;
  hrs_dirty : gmap rangeTuple unit;
  hrs_divideFactor : Z;
  hrs_compareThreshold : Z;
}.

Definition topTuple : rangeTuple := (0, MaxUint64).

Record diff := mkDiff {
  d_sl : list element;
  d_divideFactor : Z;
  d_compareThreshold : Z;
  d_ranges : hashRanges;
}.

Definition ErrElementNotFound := GoError "ldiff: element not found".
Definition errMismatched := GoError "query and results mismatched".

(** [Compare]: the order of the skip list. *)
Definition Compare (lhe rhe : element) : Z :=
  if decide (el_Id (el_Element lhe) = el_Id (el_Element rhe)) then 0
  else if el_hash rhe <? el_hash lhe then 1
  else if el_hash lhe <? el_hash rhe then -1
  else if String.ltb (el_Id (el_Element rhe)) (el_Id (el_Element lhe)) then 1 else -1.

(** github.com/huandu/skiplist: a list kept in the order of [Compare], seen as the
    sequence of its keys from [Front] by [Next]. *)
Class SkipList := {
  sl_Remove : element -> list element -> list element * option element;
  sl_Set : element -> list element -> list element;
  (** the first key not below the argument, and all after it *)
  sl_Find : element -> list element -> list element;
  sl_Get : element -> list element -> option element;
}.

Class DiffHashes := {
  xxhash_Sum64 : bytes -> Z;
  blake3_Sum : bytes -> bytes;
}.

(** ** Ranges (hashrange.go) *)

(** Go's [uint64] quotient: dividing by zero panics. *)
Definition u64_div (a b : Z) : res Z :=
  if decide (b = 0) then Err (GoPanic "integer divide by zero") else Ok (a / b).

(** [perRange] and [align] of a range *)
Definition divisions (from to df : Z) : Z * Z :=
  let perRange := u64 (to - from) / df in
  let align := (u64 (to - from) mod df + 1) mod df in
  (if align =? 0 then u64 (perRange + 1) else perRange, align).

Fixpoint genTuples (n : nat) (j perRange align : Z) : list rangeTuple :=
  match n with
  | O => []
  | S n =>
      let perRange := if decide (n = O) then u64 (perRange + align) else perRange in
      (j, u64 (u64 (j + perRange) - 1)) :: genTuples n (u64 (j + perRange)) perRange align
  end.

Definition genTupleRanges (from to divideFactor : Z) : list rangeTuple :=
  let '(perRange, align) := divisions from to divideFactor in
  genTuples (Z.to_nat divideFactor) from perRange align.

(** The bounds of the sub-range an element hash falls into. *)
Definition bottomTuple (from to df elHash : Z) : res rangeTuple :=
  let '(perRange, align) := divisions from to df in
  bucket ← u64_div (u64 (elHash - from)) perRange;
  let lo := u64 (from + bucket * perRange) in
  let hi := u64 (from - 1 + (bucket + 1) * perRange) in
  Ok (lo, if bucket =? df - 1 then u64 (hi + align) else hi).

Section diff.
Context `{SkipList} `{DiffHashes} `{MapRange}.

(** The elements of the list whose hash is in the bounds, from [Find]. *)
Fixpoint takeRange (to : Z) (l : list element) : list Element :=
  match l with
  | [] => []
  | e :: l => if el_hash e <=? to then el_Element e :: takeRange to l else []
  end.

Definition rangeElements (sl : list element) (from to : Z) : list Element :=
  takeRange to (sl_Find (mkelement (mkElement "" "") from) sl).

Definition writeElements (els : list Element) : bytes :=
  foldr (fun e acc => (el_Id e ++ el_Head e ++ acc)%string) "" els.

Definition calcElementsHash (sl : list element) (from to : Z) : bytes * Z :=
  let els := rangeElements sl from to in
  (if decide (els = []) then "" else blake3_Sum (writeElements els), Z.of_nat (length els)).

Abbreviation HM := (ST hashRanges).

Definition nilRange := GoPanic "nil hashRange".

Definition set_ranges r h :=
  mkHashRanges r (hrs_dirty h) (hrs_divideFactor h) (hrs_compareThreshold h).
Definition set_dirty d h :=
  mkHashRanges (hrs_ranges h) d (hrs_divideFactor h) (hrs_compareThreshold h).
Definition put_range t r h := set_ranges (<[t := r]> (hrs_ranges h)) h.
Definition mark_dirty t h := set_dirty (<[t := tt]> (hrs_dirty h)) h.
Definition unmark_dirty t h := set_dirty (delete t (hrs_dirty h)) h.

Definition with_elements n r := mkHashRange (hr_from r) (hr_to r) (hr_parent r)
  (hr_isDivided r) n (hr_level r) (hr_hash r).
Definition with_divided b r := mkHashRange (hr_from r) (hr_to r) (hr_parent r) b
  (hr_elements r) (hr_level r) (hr_hash r).
Definition with_hash h r := mkHashRange (hr_from r) (hr_to r) (hr_parent r)
  (hr_isDivided r) (hr_elements r) (hr_level r) h.

Definition range_at (t : rangeTuple) : HM hashRange :=
  calls (fun h => opt_or (hrs_ranges h !! t) nilRange).

Definition getBottomRange (rng : hashRange) (elHash : Z) : HM rangeTuple :=
  calls (fun h => bottomTuple (hr_from rng) (hr_to rng) (hrs_divideFactor h) elHash).

Definition makeRange (sl : list element) (tuple : rangeTuple) (parent : rangeTuple)
    (parentLevel : Z) : hashRange :=
  let '(hash, els) := calcElementsHash sl tuple.1 tuple.2 in
  mkHashRange tuple.1 tuple.2 (Some parent) false els (parentLevel + 1) hash.

(** The recursion is as deep as ranges get divided; [fuel] bounds it. *)
Fixpoint makeBottomRanges (fuel : nat) (sl : list element) (rng : rangeTuple) : HM unit :=
  match fuel with
  | O => lifts (Err (GoPanic "stack overflow"))
  | S fuel =>
      r ← range_at rng;
      tuples ← reads (fun h => genTupleRanges (hr_from r) (hr_to r) (hrs_divideFactor h));
      st_each (fun tuple =>
        let newRange := makeRange sl tuple rng (hr_level r) in
        assigns (put_range tuple newRange) ;;
        big ← reads (fun h => hrs_compareThreshold h <? hr_elements newRange);
        if (big : bool) then
          assigns (unmark_dirty rng) ;;
          assigns (mark_dirty tuple) ;;
          assigns (put_range tuple (with_divided true newRange)) ;;
          makeBottomRanges fuel sl tuple
        else mret tt) tuples
  end.

(** Walk from a range to the leaf an element falls into, changing the counts on
    the way; the leaf. *)
Fixpoint descend (fuel : nat) (delta : Z) (elHash : Z) (rng : rangeTuple) : HM rangeTuple :=
  r ← range_at rng;
  assigns (put_range rng (with_elements (hr_elements r + delta) r)) ;;
  if hr_isDivided r then
    match fuel with
    | O => lifts (Err (GoPanic "stack overflow"))
    | S fuel =>
        next ← getBottomRange r elHash;
        descend fuel delta elHash next
    end
  else mret rng.

(** 64 levels of halving bring any range down to one hash. *)
Definition maxDepth : nat := 70.

Definition addElement (sl : list element) (elHash : Z) : HM unit :=
  rng ← descend maxDepth 1 elHash topTuple;
  assigns (mark_dirty rng) ;;
  r ← range_at rng;
  big ← reads (fun h => hrs_compareThreshold h <? hr_elements r);
  (if (big : bool) then
     assigns (put_range rng (with_divided true r)) ;;
     makeBottomRanges maxDepth sl rng
   else mret tt) ;;
  match hr_parent r with
  | None => mret tt
  | Some parent => assigns (unmark_dirty parent)
  end.

Definition removeElement (elHash : Z) : HM unit :=
  rng ← descend maxDepth (-1) elHash topTuple;
  r ← range_at rng;
  parent ← lifts (opt_or (hr_parent r) nilRange);
  p ← range_at parent;
  merge ← reads (fun h => (hr_elements p <=? hrs_compareThreshold h) &&
                          negb (bool_decide (parent = topTuple)));
  if (merge : bool) then
    tuples ← reads (fun h => genTupleRanges (hr_from p) (hr_to p) (hrs_divideFactor h));
    st_each (fun tuple => assigns (fun h =>
      unmark_dirty tuple (set_ranges (delete tuple (hrs_ranges h)) h))) tuples ;;
    assigns (put_range parent (with_divided false p)) ;;
    assigns (mark_dirty parent)
  else assigns (mark_dirty rng).

Definition calcDividedHash (r : hashRange) : HM bytes :=
  tuples ← reads (fun h => genTupleRanges (hr_from r) (hr_to r) (hrs_divideFactor h));
  hashes ← calls (fun h => res_map (fun t =>
    child ← opt_or (hrs_ranges h !! t) nilRange; Ok (hr_hash child)) tuples);
  mret (blake3_Sum (foldr String.append "" hashes)).

Definition recalculateRange (sl : list element) (rng : rangeTuple) : HM unit :=
  r ← range_at rng;
  (if hr_isDivided r then
     hash ← calcDividedHash r;
     assigns (put_range rng (with_hash hash r))
   else
     let '(hash, els) := calcElementsHash sl (hr_from r) (hr_to r) in
     assigns (put_range rng (with_elements els (with_hash hash r)))) ;;
  assigns (unmark_dirty rng) ;;
  match hr_parent r with
  | None => mret tt
  | Some parent => assigns (mark_dirty parent)
  end.

Definition levelOf (h : hashRanges) (t : rangeTuple) : Z :=
  match hrs_ranges h !! t with Some r => hr_level r | None => 0 end.

Definition levelLe (h : hashRanges) (a b : rangeTuple) : Prop := levelOf h a <= levelOf h b.

#[local] Instance levelLe_dec h : RelDecision (levelLe h).
Proof. intros a b. unfold levelLe. apply _. Defined.

(** The dirty ranges, sorted by level. *)
Definition dirtyByLevel (h : hashRanges) : list rangeTuple :=
  merge_sort (levelLe h) (map_range (hrs_dirty h)).*1.

(** [for len(h.dirty) > 0]: every pass moves the dirty ranges one level up. *)
Fixpoint recalculateHashes (fuel : nat) (sl : list element) : HM unit :=
  dirty ← reads dirtyByLevel;
  match dirty, fuel with
  | [], _ => mret tt
  | _, O => lifts (Err (GoPanic "stack overflow"))
  | _, S fuel =>
      st_each (recalculateRange sl) dirty ;;
      recalculateHashes fuel sl
  end.

Definition newHashRanges (divideFactor compareThreshold : Z) (sl : list element)
    : res hashRanges :=
  let top := mkHashRange 0 MaxUint64 None true 0 0 "" in
  runs (makeBottomRanges maxDepth sl topTuple)
    (mkHashRanges {[ topTuple := top ]} ∅ divideFactor compareThreshold).

(** ** The container (diff.go) *)

Definition newDiff (divideFactor compareThreshold : Z) : res diff :=
  let divideFactor := if divideFactor <? 2 then 2 else divideFactor in
  let compareThreshold := if compareThreshold <? 1 then 1 else compareThreshold in
  h ← newHashRanges divideFactor compareThreshold [];
  h ← runs (recalculateHashes (2 * maxDepth) []) (mark_dirty topTuple h);
  Ok (mkDiff [] divideFactor compareThreshold h).

(** Methods of the ranges on the container's state. *)
Definition onRanges {A} (f : list element -> HM A) : ST diff A := fun d =>
  let '(h, r) := f (d_sl d) (d_ranges d) in
  (mkDiff (d_sl d) (d_divideFactor d) (d_compareThreshold d) h, r).

Definition set_sl l d := mkDiff l (d_divideFactor d) (d_compareThreshold d) (d_ranges d).

Definition keyOf (id head : string) : element :=
  mkelement (mkElement id head) (xxhash_Sum64 id).

Definition Set_ (elements : list Element) : ST diff unit :=
  st_each (fun e =>
    let el := keyOf (el_Id e) (el_Head e) in
    assigns (fun d => set_sl (sl_Set el (fst (sl_Remove el (d_sl d)))) d) ;;
    onRanges (fun sl => addElement sl (el_hash el))) elements ;;
  onRanges (fun sl => recalculateHashes (2 * maxDepth) sl).

Definition Ids (d : diff) : list string := (fun e => el_Id (el_Element e)) <$> d_sl d.
Definition Len (d : diff) : Z := Z.of_nat (length (d_sl d)).
Definition Elements (d : diff) : list Element := el_Element <$> d_sl d.

Definition Element_ (d : diff) (id : string) : res Element :=
  el ← opt_or (sl_Get (keyOf id "") (d_sl d)) ErrElementNotFound;
  Ok (el_Element el).

(** The hash of the top range; the code returns it in hexadecimal. *)
Definition Hash (d : diff) : res bytes :=
  top ← opt_or (hrs_ranges (d_ranges d) !! topTuple) nilRange;
  Ok (hr_hash top).

Definition RemoveId (id : string) : ST diff unit :=
  let el := keyOf id "" in
  removed ← reads (fun d => snd (sl_Remove el (d_sl d)));
  lifts (fail_if (bool_decide (removed = None)) ErrElementNotFound) ;;
  assigns (fun d => set_sl (fst (sl_Remove el (d_sl d))) d) ;;
  onRanges (fun _ => removeElement (el_hash el)) ;;
  onRanges (fun sl => recalculateHashes (2 * maxDepth) sl).

Definition getRange (d : diff) (r : Range) : RangeResult :=
  let els := rangeElements (d_sl d) (r_From r) (r_To r) in
  match hrs_ranges (d_ranges d) !! (r_From r, r_To r) with
  | Some rng =>
      if r_Elements r then mkRangeResult (hr_hash rng) els (Z.of_nat (length els))
      else mkRangeResult (hr_hash rng) [] (hr_elements rng)
  | None => mkRangeResult "" els (Z.of_nat (length els))
  end.

Definition Ranges (d : diff) (ranges : list Range) : res (list RangeResult) :=
  Ok (getRange d <$> ranges).

(** ** The exchange *)

(** [Remote.Ranges] *)
Definition Remote : Type := list Range -> res (list RangeResult).

Record diffCtx := mkDiffCtx {
  dc_newIds : list string;
  dc_changedIds : list string;
  dc_theirChangedIds : list string;
  dc_removedIds : list string;
  dc_prepare : list Range;
}.

Definition add_new id c := mkDiffCtx (dc_newIds c ++ [id]) (dc_changedIds c)
  (dc_theirChangedIds c) (dc_removedIds c) (dc_prepare c).
Definition add_changed id c := mkDiffCtx (dc_newIds c) (dc_changedIds c ++ [id])
  (dc_theirChangedIds c) (dc_removedIds c) (dc_prepare c).
Definition add_theirChanged id c := mkDiffCtx (dc_newIds c) (dc_changedIds c)
  (dc_theirChangedIds c ++ [id]) (dc_removedIds c) (dc_prepare c).
Definition add_removed id c := mkDiffCtx (dc_newIds c) (dc_changedIds c)
  (dc_theirChangedIds c) (dc_removedIds c ++ [id]) (dc_prepare c).
Definition add_prepare l c := mkDiffCtx (dc_newIds c) (dc_changedIds c)
  (dc_theirChangedIds c) (dc_removedIds c) (dc_prepare c ++ l).

(** [toMap]: the last element with an id wins. *)
Definition toMap (els : list Element) : gmap string string :=
  fold_left (fun m e => <[el_Id e := el_Head e]> m) els ∅.

Definition compareElementsEqual (my other : list Element) (c : diffCtx) : diffCtx :=
  let otherMap := toMap other in
  let c := fold_left (fun c el =>
    match otherMap !! el_Id el with
    | None => add_removed (el_Id el) c
    | Some head => if decide (head = el_Head el) then c else add_changed (el_Id el) c
    end) my c in
  let myMap := toMap my in
  fold_left (fun c el =>
    match myMap !! el_Id el with
    | None => add_new (el_Id el) c
    | Some _ => c
    end) other c.

(** The first element with the id. *)
Fixpoint findElement (l : list Element) (id : string) : option Element :=
  match l with
  | [] => None
  | el :: l => if decide (el_Id el = id) then Some el else findElement l id
  end.

Definition compareElementsGreater (my other : list Element) (c : diffCtx) : diffCtx :=
  let c := fold_left (fun c el =>
    match findElement other (el_Id el) with
    | None => add_removed (el_Id el) c
    | Some oe =>
        if decide (el_Head oe = el_Head el) then c
        else if String.ltb (el_Head el) (el_Head oe) then add_theirChanged (el_Id el) c
        else add_changed (el_Id el) c
    end) my c in
  fold_left (fun c el =>
    match findElement my (el_Id el) with
    | None => add_new (el_Id el) c
    | Some _ => c
    end) other c.

Definition withElements (r : Range) : Range := mkRange (r_From r) (r_To r) true (r_Limit r).

Definition hasAll (rr : RangeResult) : bool := Z.of_nat (length (rr_Elements rr)) =? rr_Count rr.

Definition compareResults (d : diff)
    (compareFunc : list Element -> list Element -> diffCtx -> diffCtx)
    (r : Range) (myRes otherRes : RangeResult) (c : diffCtx) : diffCtx :=
  if decide (rr_Hash myRes = rr_Hash otherRes) then c
  else if hasAll otherRes then
    if hasAll myRes then compareFunc (rr_Elements myRes) (rr_Elements otherRes) c
    else compareFunc (rr_Elements (getRange d (withElements r))) (rr_Elements otherRes) c
  else if ((rr_Count otherRes <=? d_compareThreshold d) &&
           bool_decide (rr_Elements otherRes = [])) || hasAll myRes then
    add_prepare [withElements r] c
  else
    add_prepare ((fun t => mkRange t.1 t.2 false 0) <$>
      genTupleRanges (r_From r) (r_To r) (d_divideFactor d)) c.

(** [for i, r := range dctx.toSend]: queries, our results and theirs in step *)
Fixpoint compareAll (d : diff) (compareFunc : list Element -> list Element -> diffCtx -> diffCtx)
    (toSend : list Range) (myRes otherRes : list RangeResult) (c : diffCtx) : diffCtx :=
  match toSend, myRes, otherRes with
  | r :: toSend, m :: myRes, o :: otherRes =>
      compareAll d compareFunc toSend myRes otherRes (compareResults d compareFunc r m o c)
  | _, _, _ => c
  end.

(** One round per iteration; [ctxErr n] is what the context says before round [n]. *)
Fixpoint diffLoop (fuel : nat) (ctxErr : nat -> option error) (d : diff) (dl : Remote)
    (compareFunc : list Element -> list Element -> diffCtx -> diffCtx)
    (toSend : list Range) (c : diffCtx) : res diffCtx :=
  match toSend, fuel with
  | [], _ => Ok c
  | _, O => Err (GoError "still running")
  | _, S fuel =>
      match ctxErr fuel with
      | Some e => Err e
      | None =>
          otherRes ← dl toSend;
          myRes ← Ranges d toSend;
          fail_if (negb (bool_decide (length otherRes = length toSend /\
                                      length myRes = length toSend))) errMismatched ;;
          let c := compareAll d compareFunc toSend myRes otherRes c in
          diffLoop fuel ctxErr d dl compareFunc (dc_prepare c)
            (mkDiffCtx (dc_newIds c) (dc_changedIds c) (dc_theirChangedIds c)
               (dc_removedIds c) [])
      end
  end.

Definition emptyCtx : diffCtx := mkDiffCtx [] [] [] [] [].
Definition wholeRange : Range := mkRange 0 MaxUint64 false 0.

(** New, changed and removed ids. *)
Definition Diff (fuel : nat) (ctxErr : nat -> option error) (d : diff) (dl : Remote)
    : res (list string * list string * list string) :=
  c ← diffLoop fuel ctxErr d dl compareElementsEqual [wholeRange] emptyCtx;
  Ok (dc_newIds c, dc_changedIds c, dc_removedIds c).

Definition CompareDiff (fuel : nat) (ctxErr : nat -> option error) (d : diff) (dl : Remote)
    : res (list string * list string * list string * list string) :=
  c ← diffLoop fuel ctxErr d dl compareElementsGreater [wholeRange] emptyCtx;
  Ok (dc_newIds c, dc_changedIds c, dc_theirChangedIds c, dc_removedIds c).
End diff.
