(* ===== verification/LdiffRanges.v ===== *)
(** How a range of 64-bit hashes is cut: [genTupleRanges] is a partition of the
    range, and [getBottomRange] finds the part a hash falls into, in 64-bit
    arithmetic with its wrap-around. *)

From Stdlib Require Import ZArith Lia String.
From stdpp Require Import base option list gmap strings.
From S2P Require Import Prelude Ldiff.

Local Open Scope Z_scope.

Lemma u64_small x : 0 <= x < 2 ^ 64 -> u64 x = x.
Proof. intros. by apply Z.mod_small. Qed.

(** [j + n - 1] computed with a wrap in the middle. *)
Lemma u64_pred x : 1 <= x <= 2 ^ 64 -> u64 (u64 x - 1) = x - 1.
Proof.
  intros Hx. unfold u64. rewrite Zminus_mod_idemp_l. apply Z.mod_small. lia.
Qed.

(** A range of uint64 bounds that can be cut into [df] parts. *)
Record cuttable (from to df : Z) : Prop := mkCuttable {
  cut_from : 0 <= from;
  cut_to : to <= MaxUint64;
  cut_df : 2 <= df;
  cut_wide : df <= to - from + 1;
}.

(** The parts have [p] hashes each, and [al] more go to the last. *)
Lemma divisions_spec from to df p al :
  cuttable from to df -> divisions from to df = (p, al) ->
  1 <= p /\ 0 <= al < df /\ df * p + al = to - from + 1.
Proof.
  intros [H1 H2 H3 H4] Hd. unfold MaxUint64 in *. unfold divisions in Hd.
  rewrite (u64_small (to - from)) in Hd by lia.
  pose proof (Z.div_mod (to - from) df ltac:(lia)) as Hdm.
  pose proof (Z.mod_pos_bound (to - from) df ltac:(lia)) as Hmb.
  set (q := (to - from) / df) in *. set (r := (to - from) mod df) in *.
  destruct (Z.eq_dec (r + 1) df) as [Heq|Hne].
  - rewrite Heq, Z.mod_same in Hd by lia. simpl in Hd.
    assert (0 <= q < 2 ^ 63) by (split; [apply Z.div_pos; lia|]; apply Z.div_lt_upper_bound; lia).
    rewrite u64_small in Hd by lia. injection Hd as <- <-. nia.
  - rewrite (Z.mod_small (r + 1)) in Hd by lia.
    rewrite (proj2 (Z.eqb_neq (r + 1) 0)) in Hd by lia. injection Hd as <- <-.
    split_and!; nia.
Qed.

(** The [i]-th of [n] parts from [j]. *)
Definition part (j p al : Z) (n i : nat) : rangeTuple :=
  (j + Z.of_nat i * p,
   j + (Z.of_nat i + 1) * p - 1 + (if decide (i = n - 1)%nat then al else 0)).

Lemma genTuples_parts n j p al :
  0 <= j -> 1 <= p -> 0 <= al -> p + al < 2 ^ 64 -> j + Z.of_nat n * p + al <= 2 ^ 64 ->
  genTuples n j p al = part j p al n <$> seq 0 n.
Proof.
  revert j. induction n as [|n IH]; intros j Hj Hp Hal Hpa Hend; [done|].
  simpl. case_decide as Hn.
  - subst n. simpl. unfold part. simpl. rewrite (u64_small (p + al)) by lia.
    rewrite u64_pred by lia. f_equal. f_equal; lia.
  - rewrite (u64_small (j + p)) by nia. f_equal.
    + unfold part. simpl. rewrite decide_False by lia. rewrite u64_small by nia. f_equal; lia.
    + rewrite IH by nia. rewrite <- fmap_S_seq, <- list_fmap_compose. apply list_fmap_ext.
      intros i i' Hi. unfold part, compose. simpl. f_equal; [lia|].
      repeat case_decide; lia.
Qed.

Lemma genTupleRanges_parts from to df p al t :
  cuttable from to df -> divisions from to df = (p, al) ->
  t ∈ genTupleRanges from to df <->
  exists i, (i < Z.to_nat df)%nat /\ t = part from p al (Z.to_nat df) i.
Proof.
  intros Hc Hd. pose proof (divisions_spec _ _ _ _ _ Hc Hd) as (Hp & Hal & Hw).
  destruct Hc as [H1 H2 H3 H4]. unfold MaxUint64 in *.
  unfold genTupleRanges. rewrite Hd. rewrite genTuples_parts by (nia || lia).
  rewrite list_elem_of_fmap. split.
  - intros (i & -> & Hi). apply elem_of_seq in Hi. exists i. split; [lia|done].
  - intros (i & Hi & ->). exists i. split; [done|]. apply elem_of_seq. lia.
Qed.

(** Every part is a proper, narrower range within the whole: its length, less one,
    is at most half of the whole's. *)
Lemma genTupleRanges_within from to df t :
  cuttable from to df -> t ∈ genTupleRanges from to df ->
  from <= t.1 /\ t.1 <= t.2 /\ t.2 <= to /\ 2 * (t.2 - t.1) <= to - from.
Proof.
  intros Hc. destruct (divisions from to df) as [p al] eqn:Hd.
  rewrite (genTupleRanges_parts _ _ _ _ _ _ Hc Hd). intros (i & Hi & ->).
  pose proof (divisions_spec _ _ _ _ _ Hc Hd) as (Hp & Hal & Hw). destruct Hc as [H1 H2 H3 H4].
  assert (0 <= Z.of_nat i <= df - 1) as Hi' by lia. unfold part. simpl.
  case_decide as Hl.
  - assert (Z.of_nat i = df - 1) by lia. split_and!; nia.
  - split_and!; nia.
Qed.

(** Every hash of the range lies in a part. *)
Lemma genTupleRanges_cover from to df x :
  cuttable from to df -> from <= x <= to ->
  exists t, t ∈ genTupleRanges from to df /\ t.1 <= x <= t.2.
Proof.
  intros Hc Hx. destruct (divisions from to df) as [p al] eqn:Hd.
  pose proof (divisions_spec _ _ _ _ _ Hc Hd) as (Hp & Hal & Hw).
  set (i := Z.min ((x - from) / p) (df - 1)).
  assert (0 <= (x - from) / p) as Hdiv by (apply Z.div_pos; lia).
  exists (part from p al (Z.to_nat df) (Z.to_nat i)). split.
  - apply (genTupleRanges_parts _ _ _ _ _ _ Hc Hd). exists (Z.to_nat i).
    split; [|done]. destruct Hc. lia.
  - destruct Hc. pose proof (Z.div_mod (x - from) p ltac:(lia)) as Hdm.
    pose proof (Z.mod_pos_bound (x - from) p ltac:(lia)) as Hmb.
    unfold part. simpl. rewrite Z2Nat.id by lia. case_decide as Hl.
    + assert (i = df - 1 /\ df - 1 <= (x - from) / p) as [-> Hge] by lia. nia.
    + assert (i = (x - from) / p) as -> by lia. nia.
Qed.

(** Two parts that share a hash are the same part. *)
Lemma genTupleRanges_disjoint from to df t t' x :
  cuttable from to df -> t ∈ genTupleRanges from to df -> t' ∈ genTupleRanges from to df ->
  t.1 <= x <= t.2 -> t'.1 <= x <= t'.2 -> t = t'.
Proof.
  intros Hc. destruct (divisions from to df) as [p al] eqn:Hd.
  rewrite !(genTupleRanges_parts _ _ _ _ _ _ Hc Hd).
  pose proof (divisions_spec _ _ _ _ _ Hc Hd) as (Hp & Hal & Hw). destruct Hc as [H1 H2 H3 H4].
  intros (i & Hi & ->) (i' & Hi' & ->). unfold part. simpl. intros Hx Hx'.
  assert (i = i') as ->; [|done].
  destruct (lt_eq_lt_dec i i') as [[Hlt|]|Hlt]; [exfalso|done|exfalso].
  - rewrite (decide_False (P := i = _)) in Hx by lia. nia.
  - rewrite (decide_False (P := i' = _)) in Hx' by lia. nia.
Qed.

Lemma genTupleRanges_NoDup from to df : cuttable from to df -> NoDup (genTupleRanges from to df).
Proof.
  intros Hc. destruct (divisions from to df) as [p al] eqn:Hd.
  pose proof (divisions_spec _ _ _ _ _ Hc Hd) as (Hp & Hal & Hw).
  destruct Hc as [H1 H2 H3 H4]. unfold MaxUint64 in *.
  unfold genTupleRanges. rewrite Hd. rewrite genTuples_parts by (nia || lia).
  apply NoDup_fmap_2; [|apply NoDup_seq]. intros i j Hij. injection Hij as Hij _. nia.
Qed.

(** [getBottomRange]: the part of a hash, except for the last [align] hashes. *)
Lemma bottomTuple_spec from to df p al x :
  cuttable from to df -> divisions from to df = (p, al) -> from <= x <= to - al ->
  exists t, bottomTuple from to df x = Ok t /\ t ∈ genTupleRanges from to df /\ t.1 <= x <= t.2.
Proof.
  intros Hc Hd Hx. pose proof (divisions_spec _ _ _ _ _ Hc Hd) as (Hp & Hal & Hw).
  unfold bottomTuple. rewrite Hd. unfold u64_div. rewrite decide_False by lia. simpl.
  set (b := u64 (x - from) / p).
  assert (cuttable from to df) as Hc' by done. destruct Hc' as [H1 H2 H3 H4]. unfold MaxUint64 in *.
  assert (b = (x - from) / p) as Hb by (unfold b; by rewrite u64_small by lia).
  pose proof (Z.div_mod (x - from) p ltac:(lia)) as Hdm. rewrite <- Hb in Hdm.
  pose proof (Z.mod_pos_bound (x - from) p ltac:(lia)) as Hmb.
  assert (0 <= b <= df - 1) as Hbr.
  { rewrite Hb. split; [apply Z.div_pos; lia|]. apply Z.lt_le_pred.
    apply Z.div_lt_upper_bound; nia. }
  assert (from + (b + 1) * p <= 2 ^ 64) as Hend by nia.
  rewrite (u64_small (from + b * p)) by nia.
  rewrite (u64_small (from - 1 + (b + 1) * p)) by nia.
  exists (part from p al (Z.to_nat df) (Z.to_nat b)). split_and!.
  - unfold part. rewrite Z2Nat.id by lia. f_equal. f_equal.
    destruct (b =? df - 1) eqn:Hl.
    + apply Z.eqb_eq in Hl. rewrite decide_True by lia. rewrite u64_small by nia. lia.
    + apply Z.eqb_neq in Hl. rewrite decide_False by lia. lia.
  - apply (genTupleRanges_parts _ _ _ _ _ _ Hc Hd). exists (Z.to_nat b). split; [lia|done].
  - unfold part. simpl. rewrite Z2Nat.id by lia. nia.
  - unfold part. simpl. rewrite Z2Nat.id by lia. case_decide; nia.
Qed.

(** Cutting a range is a partition.  For bounds of 64 bits and a range of at least
    [df] hashes, every hash of the range lies in exactly one of the ranges
    [genTupleRanges] returns, each of them lies within the range and spans at most
    half of it, and the lookup of [getBottomRange] finds the one of a hash unless it
    is among the last [align] hashes. *)
Theorem ldiff_ranges_partition from to df p al x :
  cuttable from to df -> divisions from to df = (p, al) -> from <= x <= to ->
  (exists t, t ∈ genTupleRanges from to df /\ t.1 <= x <= t.2 /\
     from <= t.1 /\ t.2 <= to /\ 2 * (t.2 - t.1) <= to - from /\
     (forall t', t' ∈ genTupleRanges from to df -> t'.1 <= x <= t'.2 -> t' = t) /\
     (x <= to - al -> bottomTuple from to df x = Ok t)).
Proof.
  intros Hc Hd Hx. destruct (genTupleRanges_cover _ _ _ _ Hc Hx) as (t & Ht & Hxt).
  destruct (genTupleRanges_within _ _ _ _ Hc Ht) as (H1 & H2 & H3 & H4).
  exists t. split_and!; try done; try lia.
  - intros t' Ht' Hxt'. by eapply genTupleRanges_disjoint.
  - intros Hal. destruct (bottomTuple_spec _ _ _ _ _ x Hc Hd) as (t' & Hb & Ht' & Hxt'); [lia|].
    rewrite Hb. f_equal. by eapply genTupleRanges_disjoint.
Qed.

Lemma ldiff_ranges_partition_witness :
  exists t, t ∈ genTupleRanges 0 MaxUint64 32 /\ t.1 <= 2 ^ 63 <= t.2 /\
     0 <= t.1 /\ t.2 <= MaxUint64 /\ 2 * (t.2 - t.1) <= MaxUint64 - 0 /\
     (forall t', t' ∈ genTupleRanges 0 MaxUint64 32 -> t'.1 <= 2 ^ 63 <= t'.2 -> t' = t) /\
     (2 ^ 63 <= MaxUint64 - 0 -> bottomTuple 0 MaxUint64 32 (2 ^ 63) = Ok t).
Proof.
  apply (ldiff_ranges_partition 0 MaxUint64 32 (2 ^ 59) 0 (2 ^ 63)).
  - split; vm_compute; congruence.
  - vm_compute. reflexivity.
  - split; vm_compute; congruence.
Defined.

(** The last hashes of an uneven range have no part.  When the range does not
    divide evenly, [getBottomRange] computes bounds of no sub-range for its last
    [align] hashes, up to the width of a part: the lookup yields nil, which the
    callers dereference. *)
Theorem ldiff_bottom_range_misses from to df p al x :
  cuttable from to df -> divisions from to df = (p, al) -> to - al < x <= to ->
  x - from < (df + 1) * p ->
  exists t, bottomTuple from to df x = Ok t /\ t ∉ genTupleRanges from to df.
Proof.
  intros Hc Hd Hx Hp1. pose proof (divisions_spec _ _ _ _ _ Hc Hd) as (Hp & Hal & Hw).
  assert (cuttable from to df) as Hc' by done. destruct Hc' as [H1 H2 H3 H4]. unfold MaxUint64 in *.
  unfold bottomTuple. rewrite Hd. unfold u64_div. rewrite decide_False by lia. simpl.
  rewrite (u64_small (x - from)) by lia.
  assert ((x - from) / p = df) as -> by (symmetry; apply (Z.div_unique _ _ _ (x - from - df * p)); lia).
  rewrite (proj2 (Z.eqb_neq df (df - 1))) by lia.
  eexists. split; [done|]. intros Hin.
  apply (genTupleRanges_parts _ _ _ _ _ _ Hc Hd) in Hin as (i & Hi & Heq).
  injection Heq as Hlo _. rewrite u64_small in Hlo by nia. nia.
Qed.

Lemma ldiff_bottom_range_misses_witness :
  exists t, bottomTuple 0 MaxUint64 10 MaxUint64 = Ok t /\ t ∉ genTupleRanges 0 MaxUint64 10.
Proof.
  apply (ldiff_bottom_range_misses 0 MaxUint64 10 1844674407370955161 6).
  - split; vm_compute; congruence.
  - vm_compute. reflexivity.
  - split; vm_compute; congruence.
  - vm_compute. reflexivity.
Defined.
