(* ===== verification/LdiffExchange.v ===== *)
(** The exchange of range hashes finds the difference of two containers.

    What the exchange needs of each side is stated as [faithful]; a container whose
    range tree is up to date ([container_ok]) is faithful. *)

From Stdlib Require Import ZArith Lia String.
From stdpp Require Import base option list gmap strings.
From S2P Require Import Prelude Ldiff LdiffRanges.

Local Open Scope Z_scope.

Abbreviation heads := (gmap string string).

(** ** Comparing two lists of elements *)

Lemma toMap_snoc els e : toMap (els ++ [e]) = <[el_Id e := el_Head e]> (toMap els).
Proof. unfold toMap. by rewrite fold_left_app. Qed.

Lemma toMap_Some els id head :
  NoDup (el_Id <$> els) -> toMap els !! id = Some head <-> mkElement id head ∈ els.
Proof.
  induction els as [|e els IH] using rev_ind; intros Hnd; [split; [done|by intros ?%not_elem_of_nil]|].
  rewrite fmap_app in Hnd. apply NoDup_app in Hnd as (Hnd & Hd & _).
  rewrite toMap_snoc, lookup_insert, elem_of_app, list_elem_of_singleton. case_decide as Heq.
  - subst id. split; [intros [= <-]; right; by destruct e|].
    intros [Hin|<-]; [|done]. exfalso. apply (Hd (el_Id e)); [|set_solver].
    apply list_elem_of_fmap. by exists (mkElement (el_Id e) head).
  - rewrite IH by done. split; [by left|]. intros [?|He]; [done|]. by subst e.
Qed.

Lemma toMap_None els id : toMap els !! id = None <-> id ∉ el_Id <$> els.
Proof.
  induction els as [|e els IH] using rev_ind; [split; [intros _; apply not_elem_of_nil|done]|].
  rewrite toMap_snoc, fmap_app, lookup_insert_None, elem_of_app, IH. simpl.
  rewrite list_elem_of_singleton. naive_solver.
Qed.

(** The lists a context has collected, and what it has pending. *)
Definition extends (c c' : diffCtx) (news changed removed : list string) : Prop :=
  dc_newIds c' = dc_newIds c ++ news /\ dc_changedIds c' = dc_changedIds c ++ changed /\
  dc_removedIds c' = dc_removedIds c ++ removed /\ dc_prepare c' = dc_prepare c.

(** The two loops of the comparison. *)
Definition compareMine (otherMap : heads) (c : diffCtx) (el : Element) : diffCtx :=
  match otherMap !! el_Id el with
  | None => add_removed (el_Id el) c
  | Some head => if decide (head = el_Head el) then c else add_changed (el_Id el) c
  end.
Definition compareTheirs (myMap : heads) (c : diffCtx) (el : Element) : diffCtx :=
  match myMap !! el_Id el with None => add_new (el_Id el) c | Some _ => c end.

Lemma compareElementsEqual_loops my other c :
  compareElementsEqual my other c =
  fold_left (compareTheirs (toMap my)) other (fold_left (compareMine (toMap other)) my c).
Proof. done. Qed.

(** Ids that both lists have with different heads, or only one list has. *)
Definition changed_in (m o : heads) (id : string) : Prop :=
  exists h h', m !! id = Some h /\ o !! id = Some h' /\ h <> h'.
Definition only_in (m o : heads) (id : string) : Prop :=
  is_Some (m !! id) /\ o !! id = None.

Lemma compareMine_spec my o c :
  NoDup (el_Id <$> my) ->
  exists changed removed, extends c (fold_left (compareMine o) my c) [] changed removed /\
    (forall id, id ∈ changed <-> changed_in (toMap my) o id) /\
    (forall id, id ∈ removed <-> only_in (toMap my) o id).
Proof.
  unfold changed_in, only_in. induction my as [|e my IH] using rev_ind; intros Hnd.
  - exists [], []. unfold extends. simpl. rewrite !app_nil_r. split; [done|].
    split; intros id; (split; [by intros ?%not_elem_of_nil|]).
    + by intros (? & ? & ? & _).
    + by intros [[? ?] _].
  - rewrite fmap_app in Hnd. apply NoDup_app in Hnd as (Hnd & Hd & _).
    destruct (IH Hnd) as (changed & removed & (Hn & Hc & Hr & Hp) & Hch & Hrm).
    assert (toMap my !! el_Id e = None) as Hfresh.
    { apply toMap_None. intros Hin. apply (Hd _ Hin). simpl. set_solver. }
    rewrite fold_left_app. simpl. rewrite toMap_snoc. set (c1 := fold_left _ my c) in *.
    unfold compareMine. destruct (o !! el_Id e) as [h|] eqn:Ho; [case_decide as Heq|].
    + exists changed, removed. split; [done|].
      split; intros id; rewrite lookup_insert, ?Hch, ?Hrm; (case_decide; [subst id|done]);
        rewrite Hfresh, Ho; naive_solver.
    + exists (changed ++ [el_Id e]), removed. split; [unfold extends; simpl; by rewrite Hc, app_assoc|].
      split; intros id; rewrite lookup_insert, ?elem_of_app, ?list_elem_of_singleton, ?Hch, ?Hrm;
        (case_decide; [subst id; rewrite Hfresh, Ho|]); naive_solver.
    + exists changed, (removed ++ [el_Id e]). split; [unfold extends; simpl; by rewrite Hr, app_assoc|].
      split; intros id; rewrite lookup_insert, ?elem_of_app, ?list_elem_of_singleton, ?Hch, ?Hrm;
        (case_decide; [subst id; rewrite Hfresh, Ho|]); naive_solver.
Qed.

Lemma compareTheirs_spec m other c :
  exists news, extends c (fold_left (compareTheirs m) other c) news [] [] /\
    forall id, id ∈ news <-> only_in (toMap other) m id.
Proof.
  unfold only_in. induction other as [|e other IH] using rev_ind.
  - exists []. unfold extends. simpl. rewrite !app_nil_r. split; [done|]. intros id.
    split; [by intros ?%not_elem_of_nil|by intros [[? ?] _]].
  - destruct IH as (news & (Hn & Hc & Hr & Hp) & Hnew). rewrite fold_left_app. simpl.
    rewrite toMap_snoc. set (c1 := fold_left _ other c) in *. unfold compareTheirs.
    destruct (m !! el_Id e) as [h|] eqn:Hm.
    + exists news. split; [done|]. intros id. rewrite Hnew, lookup_insert.
      case_decide; [subst id; rewrite Hm|done]. naive_solver.
    + exists (news ++ [el_Id e]). split; [unfold extends; simpl; by rewrite Hn, app_assoc|].
      intros id. rewrite elem_of_app, list_elem_of_singleton, Hnew, lookup_insert.
      case_decide; [subst id; rewrite Hm|]; naive_solver.
Qed.

(** The comparison of two lists appends exactly: to the new ids those only the other
    list has, to the changed ids those both have with different heads, to the removed
    ids those only ours has. *)
Lemma compareElementsEqual_spec my other c :
  NoDup (el_Id <$> my) ->
  exists news changed removed,
    extends c (compareElementsEqual my other c) news changed removed /\
    (forall id, id ∈ news <-> only_in (toMap other) (toMap my) id) /\
    (forall id, id ∈ changed <-> changed_in (toMap my) (toMap other) id) /\
    (forall id, id ∈ removed <-> only_in (toMap my) (toMap other) id).
Proof.
  intros Hnd. rewrite compareElementsEqual_loops.
  destruct (compareMine_spec my (toMap other) c Hnd) as (changed & removed & (Hn & Hc & Hr & Hp) & Hch & Hrm).
  set (c1 := fold_left _ my c) in *.
  destruct (compareTheirs_spec (toMap my) other c1) as (news & (Hn' & Hc' & Hr' & Hp') & Hnew).
  exists news, changed, removed. split; [|done]. unfold extends.
  rewrite Hn', Hc', Hr', Hp', Hn, Hc, Hr, Hp, !app_nil_r. done.
Qed.

(** ** What the exchange needs of the two sides *)

Section exchange.
Context `{SkipList} `{DiffHashes}.

Definition valid (r : Range) : Prop := 0 <= r_From r /\ r_From r <= r_To r /\ r_To r <= MaxUint64.
Definition covers (r : Range) (id : string) : Prop := r_From r <= xxhash_Sum64 id <= r_To r.

(** The part of the contents in a range. *)
Definition within (m : heads) (r : Range) : heads :=
  filter (fun kv => r_From r <= xxhash_Sum64 kv.1 <= r_To r) m.

Lemma within_lookup m r id : covers r id -> within m r !! id = m !! id.
Proof.
  intros Hc. unfold within. destruct (m !! id) as [h|] eqn:Hm.
  - by apply map_lookup_filter_Some.
  - apply map_lookup_filter_None. by left.
Qed.

(** Answers [f] about contents [m]: elements are sent when asked for; when all
    elements are sent they are the contents of the range; the hash does not depend
    on the request for elements. *)
Record faithful (f : Range -> RangeResult) (m : heads) : Prop := mkFaithful {
  fa_asked r : valid r -> r_Elements r = true -> hasAll (f r) = true;
  fa_all r : valid r -> hasAll (f r) = true ->
    toMap (rr_Elements (f r)) = within m r /\ NoDup (el_Id <$> rr_Elements (f r));
  fa_hash r : rr_Hash (f (withElements r)) = rr_Hash (f r);
}.

Variables (d : diff) (otR : Range -> RangeResult) (mine theirs : heads).

Abbreviation T := (d_compareThreshold d).
Abbreviation df := (d_divideFactor d).

(** Both sides are faithful; equal hashes mean equal contents; the other side cuts
    the ranges it does not list, with the factor and threshold of ours, and then
    knows every part; a range too narrow to cut holds few elements. *)
Record exchange_ok : Prop := mkExchangeOk {
  ex_factor : 2 <= df;
  ex_mine : faithful (getRange d) mine;
  ex_theirs : faithful otR theirs;
  ex_hash r : valid r -> rr_Hash (getRange d r) = rr_Hash (otR r) -> rr_Hash (otR r) <> "" ->
    within mine r = within theirs r;
  ex_ids id : is_Some (theirs !! id) -> 0 <= xxhash_Sum64 id <= MaxUint64;
  ex_top : rr_Hash (otR wholeRange) = "" -> theirs = ∅;
  ex_unlisted r : valid r -> hasAll (otR r) = false -> rr_Elements (otR r) = [];
  ex_narrow r : valid r -> r_Elements r = false -> hasAll (otR r) = false ->
    T < rr_Count (otR r) -> df <= r_To r - r_From r + 1;
  ex_parts r t : valid r -> r_Elements r = false -> hasAll (otR r) = false ->
    T < rr_Count (otR r) -> t ∈ genTupleRanges (r_From r) (r_To r) df ->
    rr_Hash (otR (mkRange t.1 t.2 false 0)) = "" ->
    within theirs (mkRange t.1 t.2 false 0) = ∅;
}.

Hypothesis Hex : exchange_ok.

(** What is recorded is true. *)
Definition sound (c : diffCtx) : Prop :=
  (forall id, id ∈ dc_newIds c -> only_in theirs mine id) /\
  (forall id, id ∈ dc_changedIds c -> changed_in mine theirs id) /\
  (forall id, id ∈ dc_removedIds c -> only_in mine theirs id).

(** A new or changed id that is recorded. *)
Definition recorded (c : diffCtx) (id : string) : Prop :=
  (only_in theirs mine id -> id ∈ dc_newIds c) /\
  (changed_in mine theirs id -> id ∈ dc_changedIds c).

(** Every id the other side has is recorded or in a pending range. *)
Definition tracked (c : diffCtx) (pending : list Range) : Prop :=
  forall id, is_Some (theirs !! id) ->
    recorded c id \/ exists r, r ∈ pending /\ covers r id.

(** Pending ranges: lists that were asked for after hashes differed, or hashes of
    ranges narrower than [2^n]. *)
Definition pend_ok (n : nat) (r : Range) : Prop :=
  valid r /\
  if r_Elements r then rr_Hash (getRange d r) <> rr_Hash (otR r)
  else (rr_Hash (otR r) = "" -> within theirs r = ∅) /\ r_To r - r_From r < 2 ^ Z.of_nat n.

Lemma recorded_mono c c' id news changed removed :
  extends c c' news changed removed -> recorded c id -> recorded c' id.
Proof.
  intros (Hn & Hc & _) [H1 H2]. split; intros Hd.
  - rewrite Hn, elem_of_app. left. auto.
  - rewrite Hc, elem_of_app. left. auto.
Qed.

Lemma only_in_within r id m o : covers r id -> only_in (within m r) (within o r) id <-> only_in m o id.
Proof. intros Hc. unfold only_in. by rewrite !within_lookup. Qed.
Lemma changed_in_within r id m o :
  covers r id -> changed_in (within m r) (within o r) id <-> changed_in m o id.
Proof. intros Hc. unfold changed_in. by rewrite !within_lookup. Qed.

Lemma within_Some m r id h : within m r !! id = Some h -> covers r id /\ m !! id = Some h.
Proof. unfold within. by intros [? ?]%map_lookup_filter_Some. Qed.

(** Comparing the full lists of a range settles the range. *)
Lemma compare_settles r my other c :
  toMap my = within mine r -> toMap other = within theirs r -> NoDup (el_Id <$> my) ->
  sound c ->
  let c' := compareElementsEqual my other c in
  sound c' /\ dc_prepare c' = dc_prepare c /\
  (forall id, recorded c id -> recorded c' id) /\
  (forall id, covers r id -> recorded c' id).
Proof.
  intros Hmy Hot Hnd (Hs1 & Hs2 & Hs3). cbv zeta.
  destruct (compareElementsEqual_spec my other c Hnd)
    as (news & changed & removed & Hext & Hnew & Hch & Hrm).
  rewrite Hmy, Hot in *. pose proof Hext as (Hn & Hc & Hr & Hp). split_and!.
  - split_and!; intros id; rewrite ?Hn, ?Hc, ?Hr, elem_of_app; intros [?|Hin]; eauto.
    + apply Hnew in Hin as Ho. assert (covers r id) as Hcov
        by (destruct Ho as [[h Hh] _]; by apply within_Some in Hh as [? _]). by apply only_in_within in Ho.
    + apply Hch in Hin as Ho. assert (covers r id) as Hcov
        by (destruct Ho as (h & h' & Hh & _); by apply within_Some in Hh as [? _]).
      by apply changed_in_within in Ho.
    + apply Hrm in Hin as Ho. assert (covers r id) as Hcov
        by (destruct Ho as [[h Hh] _]; by apply within_Some in Hh as [? _]). by apply only_in_within in Ho.
  - done.
  - intros id. by eapply recorded_mono.
  - intros id Hcov. split; intros Hd.
    + rewrite Hn, elem_of_app. right. apply Hnew. by apply only_in_within.
    + rewrite Hc, elem_of_app. right. apply Hch. by apply changed_in_within.
Qed.

(** Equal contents, or nothing on the other side: nothing to record. *)
Lemma same_recorded c r id :
  covers r id -> within mine r = within theirs r \/ within theirs r = ∅ -> recorded c id.
Proof.
  intros Hc Hs. split; intros Hd.
  - apply (only_in_within r) in Hd; [|done]. destruct Hd as [[h Hh] Hn]. exfalso.
    destruct Hs as [Hs|Hs]; [rewrite Hs in Hn; congruence|]. rewrite Hs in Hh. done.
  - apply (changed_in_within r) in Hd; [|done]. destruct Hd as (h & h' & Hh & Hh' & Hne). exfalso.
    destruct Hs as [Hs|Hs]; [rewrite Hs in Hh; congruence|]. rewrite Hs in Hh'. done.
Qed.

(** A step settles its range or leaves it pending, narrower. *)
Definition step (r : Range) (c : diffCtx) : diffCtx :=
  compareResults d compareElementsEqual r (getRange d r) (otR r) c.

Lemma step_ok n r c :
  pend_ok n r -> sound c -> Forall (pend_ok (pred n)) (dc_prepare c) ->
  (n = O -> Forall (fun r => r_Elements r = true) (dc_prepare c)) ->
  let c' := step r c in
  sound c' /\ Forall (pend_ok (pred n)) (dc_prepare c') /\
  (n = O -> Forall (fun r => r_Elements r = true) (dc_prepare c')) /\
  dc_prepare c `prefix_of` dc_prepare c' /\
  (forall id, recorded c id -> recorded c' id) /\
  (forall id, is_Some (theirs !! id) -> covers r id ->
     recorded c' id \/ exists r', r' ∈ dc_prepare c' /\ covers r' id).
Proof.
  intros [Hv Hr] Hs Hp Hz. cbv zeta. unfold step, compareResults.
  destruct Hex as [Hdf Hmine Htheirs Hhash _ _ Hunl Hnarrow Hparts].
  case_decide as Heq.
  { split_and!; [done..|]. intros id _ Hc. left. apply (same_recorded _ r); [done|].
    destruct (decide (rr_Hash (otR r) = "")) as [He|He]; [right|left; by apply Hhash].
    destruct (r_Elements r); [done|]. by apply Hr. }
  destruct (hasAll (otR r)) eqn:Hot.
  { destruct (fa_all _ _ Htheirs r Hv Hot) as [Hto _].
    assert (exists my, toMap my = within mine r /\ NoDup (el_Id <$> my) /\
      (if hasAll (getRange d r) then compareElementsEqual (rr_Elements (getRange d r)) (rr_Elements (otR r)) c
       else compareElementsEqual (rr_Elements (getRange d (withElements r))) (rr_Elements (otR r)) c) =
      compareElementsEqual my (rr_Elements (otR r)) c) as (my & Hmy & Hnd & ->).
    { destruct (hasAll (getRange d r)) eqn:Hm.
      - destruct (fa_all _ _ Hmine r Hv Hm). eexists. split_and!; [..|done]; done.
      - assert (hasAll (getRange d (withElements r)) = true) as Ha by by apply (fa_asked _ _ Hmine).
        destruct (fa_all _ _ Hmine (withElements r) Hv Ha). eexists. split_and!; [..|done]; done. }
    destruct (compare_settles r my (rr_Elements (otR r)) c Hmy Hto Hnd Hs) as (Hs' & Hp' & Hmono & Hset).
    split_and!; [done|by rewrite Hp'|by rewrite Hp'|by rewrite Hp'|done|]. intros id _ Hc. left. auto. }
  pose proof (Hunl r Hv Hot) as Hnil.
  assert (r_Elements r = false) as Hre.
  { destruct (r_Elements r) eqn:Hre; [|done].
    pose proof (fa_asked _ _ Htheirs r Hv Hre). congruence. }
  destruct (_ || _) eqn:Hcond.
  { simpl. split_and!; [done| | |by eexists|done|].
    - apply Forall_app. split; [done|]. constructor; [|constructor]. split; [done|]. simpl.
      by rewrite (fa_hash _ _ Hmine), (fa_hash _ _ Htheirs).
    - intros Hn. apply Forall_app. split; [by apply Hz|]. by constructor.
    - intros id _ Hc. right. exists (withElements r). split; [|done]. set_solver. }
  apply orb_false_iff in Hcond as [Hcount _]. rewrite bool_decide_eq_true_2, andb_true_r in Hcount by done.
  apply Z.leb_gt in Hcount. pose proof (Hnarrow r Hv Hre Hot Hcount) as Hwide.
  assert (cuttable (r_From r) (r_To r) df) as Hcut by (destruct Hv as (? & ? & ?); by split).
  rewrite Hre in Hr. destruct Hr as [_ Hlen]. simpl. split_and!; [done| | |by eexists|done|].
  - apply Forall_app. split; [done|]. apply Forall_fmap, Forall_forall. intros t Ht.
    destruct (genTupleRanges_within _ _ _ _ Hcut Ht) as (H1 & H2 & H3 & H4).
    destruct Hv as (Hv1 & Hv2 & Hv3). split; [split; simpl; lia|]. simpl. split.
    + intros He. by apply (Hparts r t).
    + destruct n as [|n]; [simpl in Hlen; lia|]. rewrite Nat2Z.inj_succ, Z.pow_succ_r in Hlen by lia.
      simpl. lia.
  - intros ->. simpl in Hlen. lia.
  - intros id _ Hc. right.
    destruct (genTupleRanges_cover _ _ _ _ Hcut Hc) as (t & Ht & Hxt).
    exists (mkRange t.1 t.2 false 0). split; [|done]. apply elem_of_app. right.
    apply list_elem_of_fmap. eauto.
Qed.

(** A listed range is settled at once. *)
Lemma step_listed n r c : pend_ok n r -> r_Elements r = true -> dc_prepare (step r c) = dc_prepare c.
Proof.
  intros [Hv Hr] He. rewrite He in Hr. unfold step, compareResults. rewrite decide_False by done.
  rewrite (fa_asked _ _ (ex_theirs Hex) r Hv He), (fa_asked _ _ (ex_mine Hex) r Hv He).
  assert (hasAll (getRange d r) = true) as Ha by by apply (fa_asked _ _ (ex_mine Hex)).
  destruct (fa_all _ _ (ex_mine Hex) r Hv Ha) as [_ Hnd].
  by destruct (compareElementsEqual_spec (rr_Elements (getRange d r)) (rr_Elements (otR r)) c Hnd)
    as (? & ? & ? & (_ & _ & _ & ?) & _).
Qed.

Abbreviation round toSend c := (fold_left (fun c r => step r c) toSend c).

Lemma compareAll_round toSend c :
  compareAll d compareElementsEqual toSend (getRange d <$> toSend) (otR <$> toSend) c =
  round toSend c.
Proof. revert c. induction toSend as [|r toSend IH]; intros c; simpl; [done|]. apply IH. Qed.

(** A round keeps track of every id and narrows what is pending. *)
Lemma round_ok n toSend c :
  Forall (pend_ok n) toSend -> sound c -> tracked c (toSend ++ dc_prepare c) ->
  Forall (pend_ok (pred n)) (dc_prepare c) ->
  (n = O -> Forall (fun r => r_Elements r = true) (dc_prepare c)) ->
  let c' := round toSend c in
  sound c' /\ tracked c' (dc_prepare c') /\ Forall (pend_ok (pred n)) (dc_prepare c') /\
  (n = O -> Forall (fun r => r_Elements r = true) (dc_prepare c')).
Proof.
  cbv zeta. revert c. induction toSend as [|r toSend IH]; intros c Hpend Hs Ht Hp Hz; simpl; [done|].
  apply Forall_cons in Hpend as [Hr Hpend].
  destruct (step_ok n r c Hr Hs Hp Hz) as (Hs' & Hp' & Hz' & [l Hl] & Hmono & Hset).
  apply IH; [done|done| |done|done]. intros id Hid.
  destruct (Ht id Hid) as [?|(r' & Hin & Hc)]; [left; auto|].
  rewrite <- app_comm_cons, elem_of_cons, elem_of_app in Hin. destruct Hin as [->|[Hin|Hin]].
  - destruct (Hset id Hid Hc) as [?|(r' & ? & ?)]; [by left|]. right. exists r'. set_solver.
  - right. exists r'. set_solver.
  - right. exists r'. rewrite Hl. set_solver.
Qed.

Lemma round_listed n toSend c :
  Forall (pend_ok n) toSend -> Forall (fun r => r_Elements r = true) toSend ->
  dc_prepare (round toSend c) = dc_prepare c.
Proof.
  revert c. induction toSend as [|r toSend IH]; intros c Hp He; simpl; [done|].
  apply Forall_cons in Hp as [Hr Hp], He as [Hre He]. rewrite IH by done. by eapply step_listed.
Qed.

(** ** The loop *)

Abbreviation remote := (fun rs : list Range => Ok (otR <$> rs)).
Abbreviation loop fuel := (diffLoop fuel (fun _ => None) d remote compareElementsEqual).

Definition clear_prepare (c : diffCtx) : diffCtx :=
  mkDiffCtx (dc_newIds c) (dc_changedIds c) (dc_theirChangedIds c) (dc_removedIds c) [].

Lemma loop_round fuel r toSend c :
  let c' := round (r :: toSend) c in
  loop (S fuel) (r :: toSend) c = loop fuel (dc_prepare c') (clear_prepare c').
Proof.
  cbv zeta. set (rs := r :: toSend). change (loop (S fuel) rs c) with
    (otherRes ← remote rs; myRes ← Ranges d rs;
     fail_if (negb (bool_decide (length otherRes = length rs /\ length myRes = length rs)))
       errMismatched ;;
     let c1 := compareAll d compareElementsEqual rs myRes otherRes c in
     loop fuel (dc_prepare c1) (clear_prepare c1)).
  unfold Ranges. simpl mbind. rewrite bool_decide_eq_true_2 by by rewrite !length_fmap.
  cbn [negb fail_if]. simpl mbind. cbv zeta. by rewrite compareAll_round.
Qed.

Definition settled (c : diffCtx) : Prop := sound c /\ tracked c [].

Lemma loop_listed n fuel toSend c :
  Forall (pend_ok n) toSend -> Forall (fun r => r_Elements r = true) toSend ->
  sound c -> tracked c toSend -> dc_prepare c = [] ->
  exists c', loop (S fuel) toSend c = Ok c' /\ settled c'.
Proof.
  intros Hp He Hs Ht Hc. destruct toSend as [|r toSend]; [by exists c|].
  rewrite loop_round. cbv zeta. set (rs := r :: toSend) in *.
  destruct (round_ok n rs c) as (Hs' & Ht' & _ & _); [done|done|by rewrite Hc, app_nil_r|
    rewrite Hc; constructor|rewrite Hc; by constructor|].
  pose proof (round_listed n rs c Hp He) as Hnil. rewrite Hc in Hnil. rewrite Hnil in *.
  exists (clear_prepare (round rs c)). split; [by destruct fuel|done].
Qed.

Lemma loop_ok n fuel toSend c :
  Forall (pend_ok n) toSend -> sound c -> tracked c toSend -> dc_prepare c = [] ->
  exists c', loop (n + 2 + fuel) toSend c = Ok c' /\ settled c'.
Proof.
  revert fuel toSend c. induction n as [|n IH]; intros fuel toSend c Hp Hs Ht Hc.
  all: destruct toSend as [|r toSend]; [by exists c|].
  all: simpl (_ + 2 + fuel)%nat; rewrite loop_round; cbv zeta; set (rs := r :: toSend) in *.
  - destruct (round_ok O rs c) as (Hs' & Ht' & Hp' & He'); [done|done|by rewrite Hc, app_nil_r|
      rewrite Hc; constructor|rewrite Hc; by constructor|].
    by apply (loop_listed 0); [..|by apply He'| | |].
  - destruct (round_ok (S n) rs c) as (Hs' & Ht' & Hp' & _); [done|done|by rewrite Hc, app_nil_r|
      rewrite Hc; constructor|rewrite Hc; by constructor|].
    by apply IH.
Qed.

Lemma whole_pending : Forall (pend_ok 64) [wholeRange].
Proof.
  constructor; [|constructor]. split; [by split|]. simpl. split; [|by vm_compute].
  intros He. rewrite (ex_top Hex He). apply map_filter_empty.
Qed.

(** [Diff] returns, and returns the difference; 66 rounds are enough. *)
Lemma Diff_ok :
  exists news changed removed,
    Diff 66 (fun _ => None) d remote = Ok (news, changed, removed) /\
    (forall id, id ∈ news <-> only_in theirs mine id) /\
    (forall id, id ∈ changed <-> changed_in mine theirs id) /\
    (forall id, id ∈ removed -> only_in mine theirs id).
Proof.
  destruct (loop_ok 64 0 [wholeRange] emptyCtx) as (c & Hloop & (Hs1 & Hs2 & Hs3) & Ht).
  - apply whole_pending.
  - by split_and!; intros id ?%not_elem_of_nil.
  - intros id Hid. right. exists wholeRange. split; [by left|]. by apply (ex_ids Hex).
  - done.
  - unfold Diff. change (64 + 2 + 0)%nat with 66%nat in Hloop. rewrite Hloop. simpl.
    exists (dc_newIds c), (dc_changedIds c), (dc_removedIds c). split; [done|].
    assert (forall id, is_Some (theirs !! id) -> recorded c id) as Hrec.
    { intros id Hid. destruct (Ht id Hid) as [?|(r & Hr & _)]; [done|by apply not_elem_of_nil in Hr]. }
    split_and!; [..|done]; intros id; (split; [by auto|]); intros Hd.
    + apply Hrec; [by destruct Hd|done].
    + apply Hrec; [destruct Hd as (? & ? & _ & ? & _); by eexists|done].
Qed.
End exchange.
