(* ===== verification/LdiffMain.v ===== *)
(** The properties of the difference container: its contents under [Set] and
    [RemoveId], and the exchange of two containers. *)

From Stdlib Require Import ZArith Lia String Ascii Sorting OrdersEx.
From stdpp Require Import base option list gmap strings sorting.
From S2P Require Import Prelude Ldiff LdiffRanges LdiffExchange.

Local Open Scope Z_scope.

(** Keys in the order of the skip list. *)
Abbreviation before := (fun a b : element => Compare a b < 0).

(** github.com/huandu/skiplist, on lists that are in order: what its documentation
    promises of [Find], [Get], [Remove] and [Set]. *)
Class SkipListLaws `{SkipList} := {
  sl_Find_law k l : StronglySorted before l ->
    exists pre, l = pre ++ sl_Find k l /\ Forall (fun x => Compare x k < 0) pre /\
      forall x rest, sl_Find k l = x :: rest -> 0 <= Compare x k;
  sl_Get_law k l : StronglySorted before l ->
    match sl_Get k l with
    | Some x => x ∈ l /\ Compare x k = 0
    | None => Forall (fun x => Compare x k <> 0) l
    end;
  sl_Remove_law k l : StronglySorted before l ->
    sl_Remove k l = (filter (fun x => Compare x k <> 0) l,
                     head (filter (fun x => Compare x k = 0) l));
  sl_Set_law k l : StronglySorted before l -> Forall (fun x => Compare x k <> 0) l ->
    (forall a b c, a ∈ k :: l -> b ∈ k :: l -> c ∈ k :: l ->
       Compare a b < 0 -> Compare b c < 0 -> Compare a c < 0) ->
    StronglySorted before (sl_Set k l) /\ sl_Set k l ≡ₚ k :: l;
}.

Abbreviation idOfEl := (fun e : element => el_Id (el_Element e)).

Section contents.
Context `{SkipListLaws} `{DiffHashes} `{MapRange}.
Implicit Types (l : list element) (d : diff).

(** A list of keys: in order, each with the hash of its non-empty id. *)
Definition key_ok (e : element) : Prop :=
  el_hash e = xxhash_Sum64 (idOfEl e) /\ idOfEl e <> "" /\ 0 <= el_hash e <= MaxUint64.
Definition sl_ok l : Prop := StronglySorted before l /\ Forall key_ok l.

Lemma Compare_lt_hash a b : Compare a b < 0 -> el_hash a <= el_hash b.
Proof. unfold Compare. case_decide; [lia|]. repeat case_match; lia. Qed.

Lemma Compare_eq a b : Compare a b = 0 <-> idOfEl a = idOfEl b.
Proof. unfold Compare. case_decide; [done|]. repeat case_match; (split; [lia|done]). Qed.

(** Keys of the same hash are in the order of their ids. *)
Lemma Compare_same_hash a b :
  el_hash a = el_hash b -> Compare a b < 0 -> String_as_OT.lt (idOfEl a) (idOfEl b).
Proof.
  intros Hh. unfold Compare. case_decide as Hid; [intros; lia|]. rewrite Hh, Z.ltb_irrefl.
  unfold String.ltb.
  unfold String_as_OT.lt. change (String_as_OT.compare) with String.compare.
  rewrite (String.compare_antisym (idOfEl a)).
  destruct (String.compare (idOfEl b) (idOfEl a)) eqn:Hc; simpl; try done.
  by apply String.compare_eq_iff in Hc.
Qed.

(** The order is transitive on keys that carry the hash of their id. *)
Lemma Compare_trans a b c :
  key_ok a -> key_ok b -> key_ok c -> Compare a b < 0 -> Compare b c < 0 -> Compare a c < 0.
Proof.
  intros (Ha & _ & _) (Hb & _ & _) (Hc & _ & _) Hab Hbc.
  pose proof (Compare_lt_hash _ _ Hab). pose proof (Compare_lt_hash _ _ Hbc).
  destruct (decide (el_hash a < el_hash c)) as [Hlt|Hge].
  - unfold Compare. rewrite decide_False by (intros Heq; rewrite Ha, Hc, Heq in Hlt; lia).
    rewrite (proj2 (Z.ltb_ge _ _)) by lia. by rewrite (proj2 (Z.ltb_lt _ _)).
  - assert (String_as_OT.lt (idOfEl a) (idOfEl c)) as Hlt.
    { transitivity (idOfEl b); apply Compare_same_hash; lia. }
    unfold Compare. case_decide as Heq.
    { cbn beta in Hlt. rewrite Heq in Hlt. exfalso.
      by apply (StrictOrder_Irreflexive (R := String_as_OT.lt)) in Hlt. }
    rewrite !(proj2 (Z.ltb_ge _ _)) by lia. unfold String.ltb.
    unfold String_as_OT.lt in Hlt. change String_as_OT.compare with String.compare in Hlt.
    rewrite (String.compare_antisym (idOfEl c)). by rewrite Hlt.
Qed.

(** Against the key [Find] is called with, only the hash counts. *)
Lemma Compare_bound e from :
  idOfEl e <> "" -> Compare e (mkelement (mkElement "" "") from) < 0 <-> el_hash e < from.
Proof.
  intros Hne. unfold Compare. simpl. rewrite decide_False by done.
  destruct (from <? el_hash e) eqn:H1'; [lia|]. destruct (el_hash e <? from) eqn:H2'; [lia|].
  destruct (String.ltb "" (el_Id (el_Element e))) eqn:Hs; [lia|].
  by destruct (el_Id (el_Element e)).
Qed.

Lemma sl_ok_ids l : sl_ok l -> NoDup (idOfEl <$> l).
Proof.
  intros [Hs _]. induction Hs as [|a l Hs IH Hall]; simpl; constructor; [|done].
  rewrite list_elem_of_fmap. intros (b & Heq & Hb). rewrite Forall_forall in Hall.
  specialize (Hall _ Hb). simpl in Hall. pose proof (proj2 (Compare_eq a b) Heq). lia.
Qed.

(** ** The elements of a range *)

Lemma takeRange_filter to l :
  StronglySorted before l -> takeRange to l = el_Element <$> filter (fun e => el_hash e <= to) l.
Proof.
  induction 1 as [|a l Hs IH Hall]; simpl; [done|]. rewrite filter_cons.
  destruct (el_hash a <=? to) eqn:Hle.
  - rewrite decide_True by lia. simpl. by rewrite IH.
  - rewrite decide_False by lia. rewrite filter_none; [done|].
    clear -Hall Hle. induction Hall as [|b l Hb _ IH]; constructor; [|done].
    apply Compare_lt_hash in Hb. lia.
Qed.

Lemma rangeElements_filter l from to :
  sl_ok l ->
  rangeElements l from to = el_Element <$> filter (fun e => from <= el_hash e <= to) l.
Proof.
  intros [Hs Hk]. unfold rangeElements.
  destruct (sl_Find_law (mkelement (mkElement "" "") from) l Hs) as (pre & Heq & Hpre & Hhd).
  set (suf := sl_Find _ l) in *. rewrite Heq in Hs, Hk. apply Forall_app in Hk as [Hk1 Hk2].
  assert (StronglySorted before suf) as Hsuf by by apply StronglySorted_app_1_r in Hs.
  rewrite (takeRange_filter to suf Hsuf). rewrite Heq, filter_app.
  rewrite (filter_none _ pre); cycle 1.
  { clear -Hpre Hk1. induction Hpre as [|a pre Ha _ IH]; constructor; inversion_clear Hk1.
    - destruct H as (_ & Hne & _). apply Compare_bound in Ha; [lia|done].
    - by apply IH. }
  simpl. f_equal. apply filter_ext_in. intros a Ha. split; [|lia]. intros Hle. split; [|done].
  destruct suf as [|x rest] eqn:Hx; [by apply not_elem_of_nil in Ha|].
  specialize (Hhd _ _ eq_refl). rewrite Forall_forall in Hk2.
  assert (from <= el_hash x) as Hfx.
  { destruct (Hk2 x) as (_ & Hne & _); [by left|].
    destruct (decide (el_hash x < from)) as [Hlt|]; [|lia].
    apply (Compare_bound x from Hne) in Hlt. lia. }
  apply elem_of_cons in Ha as [->|Ha]; [done|].
  apply StronglySorted_inv in Hsuf as [_ Hall]. rewrite Forall_forall in Hall.
  specialize (Hall _ Ha). apply Compare_lt_hash in Hall. lia.
Qed.

(** The contents of a container, as a map from ids to heads. *)
Definition contents d : heads := toMap (Elements d).

Lemma fmap_ids l : el_Id <$> (el_Element <$> l) = idOfEl <$> l.
Proof. by rewrite <- list_fmap_compose. Qed.

Lemma rangeElements_ids l from to : sl_ok l -> NoDup (el_Id <$> rangeElements l from to).
Proof.
  intros Hok. rewrite rangeElements_filter by done. rewrite fmap_ids.
  eapply sublist_NoDup; [by apply sl_ok_ids, Hok|]. apply fmap_sublist, sublist_filter.
Qed.

(** The elements found between two bounds are the contents there. *)
Lemma rangeElements_within d r :
  sl_ok (d_sl d) ->
  toMap (rangeElements (d_sl d) (r_From r) (r_To r)) = within (contents d) r.
Proof.
  intros Hok. apply map_eq. intros id. apply option_eq. intros h. unfold contents, Elements.
  rewrite toMap_Some by by apply rangeElements_ids.
  unfold within. rewrite map_lookup_filter_Some, toMap_Some by (rewrite fmap_ids; by apply sl_ok_ids).
  rewrite rangeElements_filter by done. rewrite !list_elem_of_fmap. simpl.
  destruct Hok as [_ Hk]. rewrite Forall_forall in Hk. split.
  - intros (e & He & Hin). apply list_elem_of_filter in Hin as [Hb Hin].
    destruct (Hk e Hin) as [Hh _]. split; [by exists e|]. rewrite Hh, <- He in Hb. done.
  - intros [(e & He & Hin) Hb]. exists e. split; [done|]. apply list_elem_of_filter. split; [|done].
    destruct (Hk e Hin) as [Hh _]. by rewrite Hh, <- He.
Qed.

(** ** Containers whose ranges are up to date

    A range says that it has at least the elements it has, and an element in it gives it a hash;
    the count of a divided range may be too high, since [Set] counts an element again that
    it replaces. *)

Definition countIn d (t : rangeTuple) : Z := Z.of_nat (length (rangeElements (d_sl d) t.1 t.2)).

Record container_ok d : Prop := mkContainerOk {
  co_sl : sl_ok (d_sl d);
  co_factor : 2 <= d_divideFactor d;
  co_threshold : 1 <= d_compareThreshold d;
  co_top : is_Some (hrs_ranges (d_ranges d) !! topTuple);
  co_counts : map_Forall (fun t rng => countIn d t <= hr_elements rng /\
    (hr_hash rng = "" -> countIn d t = 0)) (hrs_ranges (d_ranges d));
  co_divided : map_Forall (fun t rng => d_compareThreshold d < hr_elements rng ->
    d_divideFactor d <= t.2 - t.1 + 1 /\
    Forall (fun t' => is_Some (hrs_ranges (d_ranges d) !! t'))
      (genTupleRanges t.1 t.2 (d_divideFactor d))) (hrs_ranges (d_ranges d));
}.

(** The counts of the ranges fit the 32 bits they have on the wire. *)
Definition counts_fit d : Prop := Z.of_nat (length (d_sl d)) < 2 ^ 32 /\
  map_Forall (fun _ rng => hr_elements rng < 2 ^ 32) (hrs_ranges (d_ranges d)).

(** Equal hashes of the same range mean equal elements. *)
Definition no_collision d1 d2 : Prop :=
  map_Forall (fun t rng1 => match hrs_ranges (d_ranges d2) !! t with
    | Some rng2 => hr_hash rng1 = hr_hash rng2 ->
        rangeElements (d_sl d1) t.1 t.2 = rangeElements (d_sl d2) t.1 t.2
    | None => True
    end) (hrs_ranges (d_ranges d1)).

Lemma range_empty d r :
  sl_ok (d_sl d) -> countIn d (r_From r, r_To r) = 0 -> within (contents d) r = ∅.
Proof.
  intros Hok Hc. rewrite <- rangeElements_within by done. unfold countIn in Hc. simpl in Hc.
  by destruct (rangeElements (d_sl d) (r_From r) (r_To r)).
Qed.

(** An answer without all the elements comes from a range with elements. *)
Lemma getRange_partial d r :
  container_ok d -> hasAll (getRange d r) = false ->
  exists rng, hrs_ranges (d_ranges d) !! (r_From r, r_To r) = Some rng /\ r_Elements r = false /\
    getRange d r = mkRangeResult (hr_hash rng) [] (hr_elements rng).
Proof.
  intros Hok. unfold getRange, hasAll. destruct (_ !! _) as [rng|]; [|simpl; lia].
  destruct (r_Elements r); [simpl; lia|]. eauto.
Qed.

Lemma getRange_faithful d : container_ok d -> faithful (getRange d) (contents d).
Proof.
  intros Hok. split.
  - intros r _ He. destruct (hasAll (getRange d r)) eqn:Ha; [done|].
    apply getRange_partial in Ha as (? & _ & ? & _); [congruence|done].
  - intros r _ Ha. unfold getRange in *.
    destruct (hrs_ranges (d_ranges d) !! (r_From r, r_To r)) as [rng|] eqn:Hr; [destruct (r_Elements r)|];
      simpl; try (split; [apply rangeElements_within|apply rangeElements_ids]; apply Hok).
    destruct (co_counts _ Hok _ _ Hr) as [Hc _]. apply Z.eqb_eq in Ha. simpl in Ha.
    rewrite range_empty; [|apply Hok|unfold countIn in *; simpl in *; lia].
    split; [done|constructor].
  - intros r. unfold getRange. simpl. destruct (_ !! _); [by destruct (r_Elements r)|done].
Qed.

Lemma exchange_containers d1 d2 :
  container_ok d1 -> container_ok d2 -> no_collision d1 d2 ->
  d_divideFactor d2 = d_divideFactor d1 -> d_compareThreshold d2 = d_compareThreshold d1 ->
  exchange_ok d1 (getRange d2) (contents d1) (contents d2).
Proof.
  intros Hok1 Hok2 Hcol Hdf HT. split.
  - apply Hok1.
  - by apply getRange_faithful.
  - by apply getRange_faithful.
  - intros r _ Heq Hne. unfold getRange in Heq, Hne. unfold no_collision in Hcol.
    destruct (hrs_ranges (d_ranges d2) !! (r_From r, r_To r)) as [rng2|] eqn:H2'; [|done].
    destruct (hrs_ranges (d_ranges d1) !! (r_From r, r_To r)) as [rng1|] eqn:H1'; cycle 1.
    { destruct (r_Elements r); simpl in *; congruence. }
    pose proof (Hcol _ _ H1') as Hc. simpl in Hc. rewrite H2' in Hc.
    rewrite <- !rangeElements_within by (apply Hok1 || apply Hok2). f_equal. apply Hc.
    by destruct (r_Elements r).
  - intros id [h Hh]. unfold contents, Elements in Hh.
    apply toMap_Some in Hh; [|rewrite fmap_ids; by apply sl_ok_ids, Hok2].
    apply list_elem_of_fmap in Hh as (e & He & Hin). destruct (co_sl _ Hok2) as [_ Hk].
    rewrite Forall_forall in Hk. destruct (Hk e Hin) as (Hx & _ & Hb). rewrite Hx, <- He in Hb. done.
  - intros He. destruct (co_top _ Hok2) as [rng Hr]. unfold getRange in He. simpl in He.
    change (0, MaxUint64) with topTuple in He. rewrite Hr in He. simpl in He.
    destruct (co_counts _ Hok2 _ _ Hr) as [_ Hz].
    rewrite <- (range_empty d2 wholeRange); [|apply Hok2|exact (Hz He)].
    apply map_eq. intros id. symmetry. unfold within.
    destruct (contents d2 !! id) as [h|] eqn:Hh; [|by apply map_lookup_filter_None; left].
    apply map_lookup_filter_Some. split; [done|]. simpl. unfold contents, Elements in Hh.
    apply toMap_Some in Hh; [|rewrite fmap_ids; by apply sl_ok_ids, Hok2].
    apply list_elem_of_fmap in Hh as (e & He' & Hin). destruct (co_sl _ Hok2) as [_ Hk].
    rewrite Forall_forall in Hk. destruct (Hk e Hin) as (Hx & _ & Hb). by rewrite Hx, <- He' in Hb.
  - intros r _ Ha. apply getRange_partial in Ha as (rng & _ & _ & ->); done.
  - intros r _ _ Ha Hlt. apply getRange_partial in Ha as (rng & Hr & _ & Heq); [|done].
    rewrite Heq in Hlt. simpl in Hlt. rewrite <- HT in Hlt. rewrite <- Hdf.
    by destruct (co_divided _ Hok2 _ _ Hr Hlt) as [? _].
  - intros r t _ _ Ha Hlt Ht Hh. apply getRange_partial in Ha as (rng & Hr & _ & Heq); [|done].
    rewrite Heq in Hlt. simpl in Hlt. rewrite <- HT in Hlt. rewrite <- Hdf in Ht.
    destruct (co_divided _ Hok2 _ _ Hr Hlt) as [_ Hall]. rewrite Forall_forall in Hall.
    destruct (Hall _ Ht) as [rng' Hr']. unfold getRange in Hh. simpl in Hh.
    destruct t as [a b]. simpl in *. rewrite Hr' in Hh. simpl in Hh.
    destruct (co_counts _ Hok2 _ _ Hr') as [_ Hz]. apply range_empty; [apply Hok2|]. exact (Hz Hh).
Qed.

(** C3: the exchange finds the difference.  For two containers whose range trees are
    up to date, with the same parameters and no hash collisions, [Diff] ends within
    66 rounds and returns: as new exactly the ids only the other container has, as
    changed exactly the ids both have with different heads, and as removed only ids
    that only ours has. *)
Theorem ldiff_diff_correct d1 d2 :
  container_ok d1 -> container_ok d2 -> no_collision d1 d2 ->
  d_divideFactor d2 = d_divideFactor d1 -> d_compareThreshold d2 = d_compareThreshold d1 ->
  exists news changed removed,
    Diff 66 (fun _ => None) d1 (Ranges d2) = Ok (news, changed, removed) /\
    (forall id, id ∈ news <-> is_Some (contents d2 !! id) /\ contents d1 !! id = None) /\
    (forall id, id ∈ changed <-> exists h h', contents d1 !! id = Some h /\
       contents d2 !! id = Some h' /\ h <> h') /\
    (forall id, id ∈ removed -> is_Some (contents d1 !! id) /\ contents d2 !! id = None).
Proof.
  intros Hok1 Hok2 Hcol Hdf HT.
  exact (Diff_ok d1 (getRange d2) (contents d1) (contents d2)
           (exchange_containers d1 d2 Hok1 Hok2 Hcol Hdf HT)).
Qed.

(** ** Changing the contents *)

Lemma contents_Some d id h :
  sl_ok (d_sl d) -> contents d !! id = Some h <-> keyOf id h ∈ d_sl d.
Proof.
  intros Hok. unfold contents, Elements.
  rewrite toMap_Some by (rewrite fmap_ids; by apply sl_ok_ids). rewrite list_elem_of_fmap.
  destruct Hok as [_ Hk]. rewrite Forall_forall in Hk. split.
  - intros ([el hash] & He & Hin). destruct (Hk _ Hin) as [Hh _]. simpl in *. subst el.
    unfold keyOf. simpl in Hh. by rewrite <- Hh.
  - intros Hin. by exists (keyOf id h).
Qed.

(** An element that can be stored: a non-empty id whose hash has 64 bits. *)
Definition storable (id : string) : Prop := id <> "" /\ 0 <= xxhash_Sum64 id <= MaxUint64.

Lemma sorted_filter (P : element -> Prop) `{forall x, Decision (P x)} l :
  StronglySorted before l -> StronglySorted before (filter P l).
Proof.
  induction 1 as [|a l Hs IH Hall]; [constructor|]. rewrite filter_cons.
  case_decide; [|done]. constructor; [done|]. rewrite Forall_forall in *.
  intros x Hx. apply Hall. by apply list_elem_of_filter in Hx as [_ ?].
Qed.

Definition sl_put (k : element) l : list element := sl_Set k (fst (sl_Remove k l)).

Lemma sl_put_ok k l :
  sl_ok l -> key_ok k ->
  sl_ok (sl_put k l) /\ sl_put k l ≡ₚ k :: filter (fun x => Compare x k <> 0) l.
Proof.
  intros [Hs Hk] Hkey. unfold sl_put. rewrite sl_Remove_law by done. simpl.
  set (l' := filter _ l).
  assert (StronglySorted before l') as Hs' by by apply sorted_filter.
  destruct (sl_Set_law k l') as [Hs'' Hp]; [done| | |].
  { apply Forall_forall. intros x Hx. by apply list_elem_of_filter in Hx as [? _]. }
  { assert (forall x, x ∈ k :: l' -> key_ok x) as Hall.
    { intros x [->|Hx]%elem_of_cons; [done|]. rewrite Forall_forall in Hk. apply Hk.
      by apply list_elem_of_filter in Hx as [_ ?]. }
    intros a b c Ha Hb Hc. apply Compare_trans; auto. }
  split; [|done]. split; [done|]. rewrite Hp. constructor; [done|].
  rewrite Forall_forall in *. intros x Hx. apply Hk. by apply list_elem_of_filter in Hx as [_ ?].
Qed.

Lemma sl_put_contents k d d' :
  sl_ok (d_sl d) -> key_ok k -> d_sl d' = sl_put k (d_sl d) ->
  sl_ok (d_sl d') /\ contents d' = <[idOfEl k := el_Head (el_Element k)]> (contents d).
Proof.
  intros Hok Hkey Hd'. destruct (sl_put_ok k (d_sl d) Hok Hkey) as [Hok' Hp].
  rewrite <- Hd' in *. split; [done|]. apply map_eq. intros id. apply option_eq. intros h.
  rewrite contents_Some by done. rewrite Hp, elem_of_cons, list_elem_of_filter, Compare_eq.
  rewrite lookup_insert. case_decide as Heq.
  - subst id. simpl. split.
    + intros [Hk|[? _]]; [by rewrite <- Hk|done].
    + intros [= <-]. left. destruct k as [[] hash]. destruct Hkey as [Hh _]. simpl in *.
      unfold keyOf. simpl. by rewrite <- Hh.
  - rewrite contents_Some by done. simpl. split.
    + intros [Hk|[_ ?]]; [|done]. by rewrite <- Hk in Heq.
    + intros Hin. right. split; [|done]. intros Hne. by apply Heq.
Qed.

Lemma onRanges_sl {A} (f : list element -> ST hashRanges A) d d' r :
  onRanges f d = (d', r) -> d_sl d' = d_sl d.
Proof. unfold onRanges. destruct (f _ _) as [h r']. by intros [= <- <-]. Qed.

Definition insertAll (els : list Element) (m : heads) : heads :=
  fold_left (fun m e => <[el_Id e := el_Head e]> m) els m.

Lemma Set_contents els d d' :
  sl_ok (d_sl d) -> Forall (fun e => storable (el_Id e)) els ->
  Set_ els d = (d', Ok tt) ->
  sl_ok (d_sl d') /\ contents d' = insertAll els (contents d).
Proof.
  intros Hok Hst Hrun. unfold Set_ in Hrun. go_step Hrun. apply onRanges_sl in Hrun.
  rewrite Hrun. replace (contents d') with (contents s) by (unfold contents, Elements; by rewrite Hrun).
  clear Hrun d'.
  revert d Hok Hrun0. induction Hst as [|e els [Hne Hb] _ IH]; intros d Hok Hrun.
  - by injection Hrun as <-.
  - simpl in Hrun. go_step Hrun. go_step Hrun0. go_step Hrun1. apply onRanges_sl in Hrun0.
    simpl in Hrun0.
    destruct (sl_put_contents (keyOf (el_Id e) (el_Head e)) d s0) as [Hok' Hc]; [done|by split|done|].
    destruct (IH s0 Hok' Hrun) as [? ->]. split; [done|]. unfold insertAll. simpl. by rewrite Hc.
Qed.

Lemma Element_lookup d id :
  sl_ok (d_sl d) ->
  Element_ d id = match contents d !! id with
                  | Some h => Ok (mkElement id h)
                  | None => Err ErrElementNotFound
                  end.
Proof.
  intros Hok. unfold Element_. pose proof (sl_Get_law (keyOf id "") (d_sl d) (proj1 Hok)) as Hg.
  destruct (sl_Get _ _) as [x|]; simpl.
  - destruct Hg as [Hin Hx%Compare_eq]. simpl in Hx.
    assert (contents d !! id = Some (el_Head (el_Element x))) as ->.
    { apply contents_Some; [done|]. destruct Hok as [_ Hk]. rewrite Forall_forall in Hk.
      destruct (Hk x Hin) as [Hh _]. unfold keyOf. rewrite <- Hx, <- Hh. by destruct x as [[] ?]. }
    rewrite <- Hx. by destruct x as [[] ?].
  - destruct (contents d !! id) as [h|] eqn:Hc; [|done]. apply contents_Some in Hc; [|done].
    rewrite Forall_forall in Hg. exfalso. apply (Hg _ Hc). by apply Compare_eq.
Qed.

(** Setting elements.  After [Set] the container is in order, its contents are
    the old ones with the given heads written over them, in the order given, and
    [Element] finds exactly those. *)
Theorem ldiff_set_contents els d d' :
  sl_ok (d_sl d) -> Forall (fun e => storable (el_Id e)) els -> Set_ els d = (d', Ok tt) ->
  sl_ok (d_sl d') /\
  contents d' = fold_left (fun m e => <[el_Id e := el_Head e]> m) els (contents d) /\
  forall id, Element_ d' id = match contents d' !! id with
                              | Some h => Ok (mkElement id h)
                              | None => Err ErrElementNotFound
                              end.
Proof.
  intros Hok Hst Hrun. destruct (Set_contents els d d' Hok Hst Hrun) as [Hok' Hc].
  split; [done|]. split; [done|]. intros id. by apply Element_lookup.
Qed.

(** Removing an element.  Removing an id the container does not have is refused
    and changes nothing; otherwise exactly that id leaves the contents. *)
Theorem ldiff_remove_contents id d d' r :
  sl_ok (d_sl d) -> RemoveId id d = (d', r) ->
  (contents d !! id = None -> d' = d /\ r = Err ErrElementNotFound) /\
  (r = Ok tt -> sl_ok (d_sl d') /\ is_Some (contents d !! id) /\
     contents d' = delete id (contents d)).
Proof.
  intros Hok Hrun. pose proof Hok as [Hs Hk]. split.
  - intros Hnone. assert (snd (sl_Remove (keyOf id "") (d_sl d)) = None) as Hn; cycle 1.
    { unfold RemoveId, mbind, st_bind, reads, lifts in Hrun. rewrite Hn in Hrun. simpl in Hrun.
      by injection Hrun as <- <-. }
    rewrite sl_Remove_law by done. simpl. rewrite filter_none; [done|].
    apply Forall_forall. intros [[i h] hash] Hin Heq%Compare_eq. simpl in Heq. subst i.
    rewrite Forall_forall in Hk. destruct (Hk _ Hin) as [Hh _]. simpl in Hh. subst hash.
    assert (contents d !! id = Some h) as Hc by by apply contents_Some. congruence.
  - intros ->. unfold RemoveId in Hrun. go_inv.
    match goal with Hx : bool_decide _ = false |- _ => apply bool_decide_eq_false in Hx; rename Hx into Hrem end.
    apply onRanges_sl in Hrun. match goal with Hx : onRanges _ _ = _ |- _ => apply onRanges_sl in Hx; rename Hx into Hsl end.
    rewrite Hsl in Hrun. simpl in Hrun. rewrite sl_Remove_law in Hrun, Hrem by done. simpl in *.
    assert (sl_ok (d_sl d')) as Hok'.
    { rewrite Hrun. split; [by apply sorted_filter|]. rewrite Forall_forall in *. intros x Hx.
      apply Hk. by apply list_elem_of_filter in Hx as [_ ?]. }
    split; [done|]. split.
    + destruct (filter (fun x => Compare x (keyOf id "") = 0) (d_sl d)) as [|x l] eqn:Hf; [done|].
      assert (x ∈ filter (fun x => Compare x (keyOf id "") = 0) (d_sl d)) as Hx by (rewrite Hf; by left).
      apply list_elem_of_filter in Hx as [Heq%Compare_eq Hin]. exists (el_Head (el_Element x)).
      apply contents_Some; [done|]. rewrite Forall_forall in Hk. destruct (Hk _ Hin) as [Hh _].
      unfold keyOf in *. simpl in Heq. rewrite <- Heq, <- Hh. by destruct x as [[] ?].
    + apply map_eq. intros i. apply option_eq. intros h. rewrite contents_Some by done.
      rewrite Hrun, list_elem_of_filter, Compare_eq, lookup_delete_Some, contents_Some by done. simpl.
      naive_solver.
Qed.
End contents.

(** ** A concrete container *)

Local Open Scope string_scope.

(** The skip list as a sorted list. *)
Fixpoint listSet (e : element) (l : list element) : list element :=
  match l with
  | [] => [e]
  | x :: l' => if (Compare x e <? 0)%Z then x :: listSet e l' else e :: l
  end.
Fixpoint listFind (e : element) (l : list element) : list element :=
  match l with
  | [] => []
  | x :: l' => if (Compare x e <? 0)%Z then listFind e l' else l
  end.
Definition listSkip : SkipList := {|
  sl_Remove := fun k l => (filter (fun x => Compare x k <> 0) l,
                           head (filter (fun x => Compare x k = 0) l));
  sl_Set := listSet;
  sl_Find := listFind;
  sl_Get := fun k l => head (filter (fun x => Compare x k = 0) l);
|}.

(** An id hashes to 60 bits after its first letter; the digest marks its input. *)
Definition letterHashes : DiffHashes := {|
  xxhash_Sum64 := fun b => match b with
    | String c _ => (Z.of_nat (nat_of_ascii c) - 97) mod 16 * 2 ^ 60
    | EmptyString => 0
    end;
  blake3_Sum := fun b => "#" ++ b;
|}.
#[global] Existing Instances listSkip letterHashes.

Lemma Compare_flip a b : Compare a b <> 0%Z -> (0 <= Compare a b)%Z -> (Compare b a < 0)%Z.
Proof.
  unfold Compare. case_decide as Hid; [done|].
  rewrite (decide_False (P := el_Id (el_Element b) = _)) by congruence.
  destruct (el_hash b <? el_hash a)%Z eqn:H1, (el_hash a <? el_hash b)%Z eqn:H2; try lia.
  destruct (el_Id (el_Element b) <? el_Id (el_Element a)) eqn:H3; [|lia].
  intros _ _. destruct (el_Id (el_Element a) <? el_Id (el_Element b)) eqn:H4; [|lia].
  unfold String.ltb in *. rewrite String.compare_antisym in H4.
  by destruct (String.compare (el_Id (el_Element b)) (el_Id (el_Element a))).
Qed.

Lemma listSet_perm k l : listSet k l ≡ₚ k :: l.
Proof.
  induction l as [|x l IH]; simpl; [done|]. case_match; [|done]. rewrite IH. constructor.
Qed.

Lemma listSet_sorted k l :
  StronglySorted before l -> Forall (fun x => Compare x k <> 0%Z) l ->
  (forall a b c, a ∈ k :: l -> b ∈ k :: l -> c ∈ k :: l ->
     (Compare a b < 0 -> Compare b c < 0 -> Compare a c < 0)%Z) ->
  StronglySorted before (listSet k l).
Proof.
  intros Hs. induction Hs as [|x l Hs IH Hall]; intros Hne Htr; simpl; [by repeat constructor|].
  apply Forall_cons in Hne as [Hx Hne]. destruct (Compare x k <? 0)%Z eqn:Hc.
  - constructor.
    + apply IH; [done|]. intros a b c Ha Hb Hc'. apply Htr; set_solver.
    + rewrite listSet_perm. constructor; [lia|done].
  - assert (Compare k x < 0)%Z as Hkx by (apply Compare_flip; [done|lia]).
    constructor; [by constructor|]. constructor; [done|].
    rewrite Forall_forall in *. intros y Hy. specialize (Hall y Hy). simpl in Hall.
    apply (Htr k x y); [set_solver..|done|done].
Qed.

#[global] Instance listSkip_laws : SkipListLaws.
Proof.
  split.
  - intros k l _. simpl. induction l as [|x l (pre & Heq & Hpre & Hhd)]; simpl.
    + exists []. by split_and!.
    + destruct (Compare x k <? 0)%Z eqn:Hc.
      * exists (x :: pre). split; [simpl; congruence|]. split; [|done]. constructor; [lia|done].
      * exists []. split_and!; [done|constructor|]. intros y rest [= <- <-]. lia.
  - intros k l _. simpl. destruct (filter (fun x => Compare x k = 0%Z) l) as [|x l'] eqn:Hf; simpl.
    + apply Forall_forall. intros x Hx Heq.
      assert (x ∈ filter (fun x => Compare x k = 0%Z) l) as Hin by by apply list_elem_of_filter.
      rewrite Hf in Hin. by apply not_elem_of_nil in Hin.
    + assert (x ∈ filter (fun x => Compare x k = 0%Z) l) as Hin by (rewrite Hf; by left).
      by apply list_elem_of_filter in Hin as [? ?].
  - done.
  - intros k l Hs Hne Htr. split; [by apply listSet_sorted|apply listSet_perm].
Qed.

(** Containers that halve their ranges and list one element at a time. *)
Definition noDiff : diff := mkDiff [] 2 1 (mkHashRanges ∅ ∅ 2 1).
Definition emptyDiff : diff := match newDiff 2 1 with Ok d => d | Err _ => noDiff end.
Definition diffOf (els : list (string * string)) : diff :=
  fst (Set_ ((fun x => mkElement x.1 x.2) <$> els) emptyDiff).

(** Ours has [a] and [b]; theirs has another head of [b], and [e]. *)
Definition exOurs : diff := diffOf [("a", "1"); ("b", "1"); ("k", "1")].
Definition exTheirs : diff := diffOf [("b", "2"); ("e", "1"); ("k", "1")].

(** Every check of [container_ok] on a concrete container is a computation. *)
#[local] Instance key_ok_dec e : Decision (key_ok e).
Proof. unfold key_ok. apply _. Defined.

Fixpoint sortedb (l : list element) : bool :=
  match l with
  | [] => true
  | x :: l => forallb (fun y => Compare x y <? 0)%Z l && sortedb l
  end.

Lemma sortedb_sorted l : sortedb l = true -> StronglySorted before l.
Proof.
  induction l as [|x l IH]; simpl; [constructor|]. rewrite andb_true_iff, forallb_forall.
  intros [Hx Hl]. constructor; [by apply IH|]. apply Forall_forall. intros y Hy%list_elem_of_In.
  apply Hx in Hy. lia.
Qed.

Ltac container_solve := split;
  [ split; [apply sortedb_sorted; vm_compute; reflexivity | apply (bool_decide_unpack _); vm_compute; exact I]
  | vm_compute; congruence | vm_compute; congruence
  | eexists; vm_compute; reflexivity
  | apply (bool_decide_unpack _); vm_compute; exact I
  | apply (bool_decide_unpack _); vm_compute; exact I ].

Ltac counts_solve := split; [vm_compute; reflexivity | apply (bool_decide_unpack _); vm_compute; exact I].

#[local] Instance no_collision_dec d1 d2 : Decision (no_collision d1 d2).
Proof.
  unfold no_collision. apply map_Forall_dec. intros t rng1.
  destruct (hrs_ranges (d_ranges d2) !! t); apply _.
Defined.

Lemma exOurs_ok : container_ok exOurs.
Proof. container_solve. Qed.
Lemma exTheirs_ok : container_ok exTheirs.
Proof. container_solve. Qed.
Lemma ex_no_collision : no_collision exOurs exTheirs.
Proof. apply (bool_decide_unpack _). vm_compute. exact I. Qed.

Lemma ldiff_diff_correct_witness :
  exists news changed removed,
    Diff 66 (fun _ => None) exOurs (Ranges exTheirs) = Ok (news, changed, removed) /\
    (forall id, id ∈ news <-> is_Some (contents exTheirs !! id) /\ contents exOurs !! id = None) /\
    (forall id, id ∈ changed <-> exists h h', contents exOurs !! id = Some h /\
       contents exTheirs !! id = Some h' /\ h <> h') /\
    (forall id, id ∈ removed -> is_Some (contents exOurs !! id) /\ contents exTheirs !! id = None).
Proof.
  apply (ldiff_diff_correct exOurs exTheirs);
    [apply exOurs_ok|apply exTheirs_ok|apply ex_no_collision|vm_compute; reflexivity|vm_compute; reflexivity].
Defined.

Example ex_diff : Diff 66 (fun _ => None) exOurs (Ranges exTheirs) = Ok (["e"], ["b"], ["a"]).
Proof. vm_compute. reflexivity. Qed.

(** ** Contents *)

Lemma emptyDiff_ok : sl_ok (d_sl emptyDiff).
Proof.
  assert (d_sl emptyDiff = []) as -> by (vm_compute; reflexivity). split; constructor.
Qed.

Lemma ldiff_set_contents_witness :
  let d' := fst (Set_ [mkElement "a" "1"; mkElement "a" "2"] emptyDiff) in
  sl_ok (d_sl d') /\ contents d' = <["a" := "2"]> (<["a" := "1"]> (contents emptyDiff)) /\
  forall id, Element_ d' id = match contents d' !! id with
                              | Some h => Ok (mkElement id h)
                              | None => Err ErrElementNotFound
                              end.
Proof.
  cbv zeta. apply (ldiff_set_contents [mkElement "a" "1"; mkElement "a" "2"] emptyDiff).
  - apply emptyDiff_ok.
  - repeat constructor; vm_compute; congruence.
  - vm_compute. reflexivity.
Defined.

Lemma ldiff_remove_contents_witness :
  let d' := fst (RemoveId "a" exOurs) in
  (contents exOurs !! "a" = None -> d' = exOurs /\ Ok tt = Err ErrElementNotFound) /\
  (Ok tt = Ok tt -> sl_ok (d_sl d') /\ is_Some (contents exOurs !! "a") /\
     contents d' = delete "a" (contents exOurs)).
Proof.
  cbv zeta. apply (ldiff_remove_contents "a" exOurs _ (Ok tt));
    [apply exOurs_ok|vm_compute; reflexivity].
Defined.

(** ** Where the exchange and the hashes fall short *)

(** Ours holds [a] alone in the lower half; theirs holds two elements there, both in
    its upper quarter. *)
Definition exLonely : diff := diffOf [("a", "1")].
Definition exCrowd : diff := diffOf [("e", "1"); ("g", "1")].

(** A removed id can be missed.  Two containers with up-to-date ranges, the same
    parameters and no collisions: ours has [a], theirs does not, and [Diff] does not
    report it.  In the quarter of [a] ours has no range and theirs an empty one, both
    without a hash, and absent hashes compare as equal. *)
Theorem ldiff_misses_removed :
  container_ok exLonely /\ container_ok exCrowd /\ no_collision exLonely exCrowd /\
  contents exLonely !! "a" = Some "1" /\ contents exCrowd !! "a" = None /\
  Diff 66 (fun _ => None) exLonely (Ranges exCrowd) = Ok (["e"; "g"], [], []).
Proof.
  split_and!; [container_solve|container_solve| |vm_compute; reflexivity..].
  apply (bool_decide_unpack _). vm_compute. exact I.
Qed.

(** The hash depends on the history.  Setting an element again with the same head
    counts it twice on the way down, divides its range, and changes the hash of the
    container although its elements are the same. *)
Theorem ldiff_hash_depends_on_history :
  let again := fst (Set_ [mkElement "a" "1"] exLonely) in
  Elements again = Elements exLonely /\ Hash again <> Hash exLonely.
Proof. cbv zeta. split; [vm_compute; reflexivity|]. intros Heq. vm_compute in Heq. done. Qed.

(** A removal can leave ranges behind that hide a change.  Merging a range deletes its
    parts but not the parts of these: [a] and [b] are cut apart in the quarter of the lower
    half, [b] and [e] are removed, and the entry with the old head of [a] stays.  A new head
    of [a] does not reach it, and against a container that has the old head in that entry
    [Diff] reports no change, although the heads differ. *)
Definition exLeftover : diff := fst (RemoveId "e" (fst (RemoveId "b" (diffOf [("a", "1"); ("b", "1"); ("e", "1")])))).
Definition exStale : diff := fst (Set_ [mkElement "a" "2"] exLeftover).
Definition exOlder : diff := diffOf [("a", "1"); ("c", "1")].

Theorem ldiff_stale_range_hides_change :
  container_ok exOlder /\ contents exStale !! "a" = Some "2" /\ contents exOlder !! "a" = Some "1" /\
  Diff 66 (fun _ => None) exStale (Ranges exOlder) = Ok (["c"], [], []).
Proof. split_and!; [container_solve|vm_compute; reflexivity..]. Qed.
