(* ===== verification/LdiffShape.v ===== *)
(** The ranges of a container whose divide factor is a power of two (the application
    uses 32): cutting the 64-bit hashes again and again gives cells, the [a]-th of
    [2^(k*n)] equal parts at level [n].  Then the tree of hashed ranges over these cells. *)

From Stdlib Require Import ZArith Lia String.
From stdpp Require Import base option list gmap strings.
From S2P Require Import Prelude Ldiff LdiffRanges LdiffExchange LdiffMain.

Local Open Scope Z_scope.

Section cells.
(** [divideFactor] is [2^k] *)
Variable k : Z.
Hypothesis Hk : 1 <= k.

Abbreviation df := (2 ^ k).

(** The width of the cells of a level. *)
Definition W (n : Z) : Z := 2 ^ (64 - k * n).

Record isCell (t : rangeTuple) (n a : Z) : Prop := mkIsCell {
  ce_level : 0 <= n;
  ce_deep : k * n <= 64;
  ce_index : 0 <= a < 2 ^ (k * n);
  ce_from : t.1 = a * W n;
  ce_to : t.2 = (a + 1) * W n - 1;
}.

Abbreviation kids t := (genTupleRanges t.1 t.2 df).

Lemma W_pos n : k * n <= 64 -> 1 <= W n.
Proof. intros Hn. unfold W. pose proof (Z.pow_pos_nonneg 2 (64 - k * n)). lia. Qed.

Lemma W_succ n : k * (n + 1) <= 64 -> W n = df * W (n + 1).
Proof. intros Hn. unfold W. rewrite <- Z.pow_add_r by lia. f_equal. lia. Qed.

Lemma W_total n : 0 <= n -> k * n <= 64 -> 2 ^ (k * n) * W n = 2 ^ 64.
Proof. intros Hn Hd. unfold W. rewrite <- Z.pow_add_r by lia. f_equal. lia. Qed.

Lemma cell_bounds t n a :
  isCell t n a -> 0 <= t.1 /\ t.1 <= t.2 /\ t.2 <= MaxUint64 /\ t.2 - t.1 + 1 = W n.
Proof.
  intros [Hn Hd Ha Hf Ht]. pose proof (W_pos n Hd). pose proof (W_total n Hn Hd).
  unfold MaxUint64. rewrite Hf, Ht. split_and!; nia.
Qed.

(** A hash lies in the cell of its quotient. *)
Lemma cell_in t n a x : isCell t n a -> t.1 <= x <= t.2 <-> x / W n = a.
Proof.
  intros [Hn Hd Ha Hf Ht]. pose proof (W_pos n Hd). rewrite Hf, Ht.
  pose proof (Z.div_mod x (W n) ltac:(lia)). pose proof (Z.mod_pos_bound x (W n) ltac:(lia)).
  split; [|intros <-; nia]. intros Hx. symmetry. apply (Z.div_unique_pos x (W n) a (x - a * W n)); lia.
Qed.

Lemma cell_top : isCell topTuple 0 0.
Proof. split; unfold W, topTuple, MaxUint64; simpl; rewrite ?Z.mul_0_r, ?Z.sub_0_r; lia. Qed.

Lemma cell_level t n a n' a' : isCell t n a -> isCell t n' a' -> n = n'.
Proof.
  intros H H'. destruct (cell_bounds _ _ _ H) as (_ & _ & _ & HW).
  destruct (cell_bounds _ _ _ H') as (_ & _ & _ & HW'). rewrite HW in HW'.
  unfold W in HW'. destruct H, H'. apply (Z.pow_inj_r 2) in HW'; nia.
Qed.

Lemma cell_eq t t' n a : isCell t n a -> isCell t' n a -> t = t'.
Proof. intros [] []. destruct t, t'. simpl in *. congruence. Qed.

(** Cells of this level can still be cut. *)
Lemma cell_cuttable t n a : isCell t n a -> k * (n + 1) <= 64 -> cuttable t.1 t.2 df.
Proof.
  intros Hc Hd. destruct (cell_bounds _ _ _ Hc) as (H1 & H2 & H3 & H4).
  assert (2 <= df) by (pose proof (Z.pow_le_mono_r 2 1 k); lia).
  split; [done..|]. rewrite H4, (W_succ n Hd). pose proof (W_pos (n + 1) Hd). nia.
Qed.

Lemma cell_divisions t n a :
  isCell t n a -> k * (n + 1) <= 64 -> divisions t.1 t.2 df = (W (n + 1), 0).
Proof.
  intros Hc Hd. destruct (divisions t.1 t.2 df) as [p al] eqn:Hdiv.
  destruct (divisions_spec _ _ _ _ _ (cell_cuttable _ _ _ Hc Hd) Hdiv) as (Hp & Hal & Hw).
  destruct (cell_bounds _ _ _ Hc) as (_ & _ & _ & H4). rewrite H4, (W_succ n Hd) in Hw.
  destruct (Z.div_mod_unique df p (W (n + 1)) al 0) as [-> ->]; [left; lia|left; lia|lia|done].
Qed.

(** The parts of a cell are the cells below it. *)
Lemma cell_kids t n a t' :
  isCell t n a -> k * (n + 1) <= 64 ->
  t' ∈ kids t <-> exists b, b / df = a /\ isCell t' (n + 1) b.
Proof.
  intros Hc Hd. pose proof (W_pos (n + 1) Hd) as HW.
  rewrite (genTupleRanges_parts _ _ _ _ _ _ (cell_cuttable _ _ _ Hc Hd) (cell_divisions _ _ _ Hc Hd)).
  assert (2 <= df) as Hdf by (pose proof (Z.pow_le_mono_r 2 1 k); lia).
  assert (2 ^ (k * (n + 1)) = 2 ^ (k * n) * df) as Hpow.
  { destruct Hc. rewrite <- Z.pow_add_r by lia. f_equal. lia. }
  pose proof (W_succ n Hd) as HWs. split.
  - intros (i & Hi & ->). exists (a * df + Z.of_nat i). split.
    + symmetry. apply (Z.div_unique_pos _ df a (Z.of_nat i)); lia.
    + destruct Hc. split; unfold part; simpl; try nia. case_decide; nia.
  - intros (b & Hb & Hc'). pose proof (Z.div_mod b df ltac:(lia)). pose proof (Z.mod_pos_bound b df ltac:(lia)).
    exists (Z.to_nat (b mod df)). split; [lia|]. destruct t' as [x y]. destruct Hc, Hc'. simpl in *.
    unfold part. rewrite Z2Nat.id by lia. f_equal; [nia|]. case_decide; nia.
Qed.

(** [getBottomRange] finds the part of every hash of a cell. *)
Lemma cell_bottom t n a x :
  isCell t n a -> k * (n + 1) <= 64 -> t.1 <= x <= t.2 ->
  exists t', bottomTuple t.1 t.2 df x = Ok t' /\ t' ∈ kids t /\ t'.1 <= x <= t'.2.
Proof.
  intros Hc Hd Hx. apply (bottomTuple_spec _ _ _ (W (n + 1)) 0); [|by eapply cell_divisions|lia].
  by eapply cell_cuttable.
Qed.

(** Cells that share a hash are nested. *)
Lemma cell_nested t m a p n b x y :
  isCell t m a -> isCell p n b -> m <= n -> t.1 <= x <= t.2 -> p.1 <= x <= p.2 ->
  p.1 <= y <= p.2 -> t.1 <= y <= t.2.
Proof.
  intros Ht Hp Hmn Hxt Hxp Hyp. rewrite (cell_in _ _ _ x Ht) in Hxt. rewrite (cell_in _ _ _ y Ht).
  rewrite (cell_in _ _ _ x Hp) in Hxp. rewrite (cell_in _ _ _ y Hp) in Hyp.
  destruct Ht as [? ? _ _ _], Hp as [? ? _ _ _].
  assert (W m = W n * 2 ^ (k * (n - m))) as HW.
  { unfold W. rewrite <- Z.pow_add_r by nia. f_equal. lia. }
  pose proof (W_pos n ltac:(done)). rewrite HW in *.
  rewrite <- Z.div_div in * by (try apply Z.pow_pos_nonneg; nia). congruence.
Qed.
End cells.

(** * The tree of hashed ranges: what its entries have to do with each other, and that
    walking down to a hash changes the counts of exactly the ranges that hold it. *)

Lemma st_bind_step {S A B} (f : A -> ST S B) (g : ST S A) s s' a :
  g s = (s', Ok a) -> (g ≫= f) s = f a s'.
Proof. unfold mbind, st_bind. by intros ->. Qed.

Abbreviation ranges := hrs_ranges.
Abbreviation dirty := hrs_dirty.
Abbreviation inside s t := (t.1 <= s.1 /\ s.2 <= t.2).

Section shape.
Context `{SkipListLaws} `{DiffHashes} `{MapRange}.

(** The divide factor is [2^k]; [T] is the threshold. *)
Variables (k T : Z).
Hypothesis Hk : 1 <= k <= 64.
Hypothesis HT : 1 <= T.

Abbreviation kids t := (genTupleRanges t.1 t.2 (2 ^ k)).
Implicit Types (t s p : rangeTuple) (r : hashRange) (h : hashRanges) (m : gmap rangeTuple hashRange).

(** An entry of the map of ranges. *)
Record node m t r : Prop := mkNode {
  nd_cell : exists a, isCell k t (hr_level r) a;
  nd_from : hr_from r = t.1;
  nd_to : hr_to r = t.2;
  nd_parent : match hr_parent r with
    | None => t = topTuple
    | Some p => exists rp, m !! p = Some rp /\ hr_isDivided rp = true /\
        hr_level r = hr_level rp + 1 /\ t ∈ kids p
    end;
  nd_deep : hr_isDivided r = true -> k * (hr_level r + 1) <= 64;
}.

(** A tree of ranges; the parts of the ranges in [E] may be missing. *)
Record shape (E : list rangeTuple) h : Prop := mkShape {
  sh_factor : hrs_divideFactor h = 2 ^ k;
  sh_threshold : hrs_compareThreshold h = T;
  sh_top : exists r, ranges h !! topTuple = Some r /\ hr_isDivided r = true;
  sh_node t r : ranges h !! t = Some r -> node (ranges h) t r;
  sh_kids t r t' : ranges h !! t = Some r -> hr_isDivided r = true -> t ∉ E -> t' ∈ kids t ->
    is_Some (ranges h !! t');
  sh_dirty t : is_Some (dirty h !! t) -> is_Some (ranges h !! t);
}.

(** Fields that do not change with the elements. *)
Definition skeleton r := (hr_from r, hr_to r, hr_parent r, hr_isDivided r, hr_level r).

Definition same_skeleton m m' : Prop := forall t, skeleton <$> m !! t = skeleton <$> m' !! t.

Lemma skeleton_lookup m m' t r :
  same_skeleton m m' -> m' !! t = Some r -> exists r0, m !! t = Some r0 /\ skeleton r0 = skeleton r.
Proof.
  intros Hs Hr. specialize (Hs t). rewrite Hr in Hs. destruct (m !! t) as [r0|]; [|done].
  apply (inj Some) in Hs. eauto.
Qed.

Lemma node_skeleton m m' t r r' :
  same_skeleton m m' -> skeleton r = skeleton r' -> node m t r -> node m' t r'.
Proof.
  intros Hs Hr [Hc Hf Ht Hp Hd]. injection Hr as E1 E2 E3 E4 E5.
  split; rewrite <- ?E1, <- ?E2, <- ?E3, <- ?E4, <- ?E5; try done.
  destruct (hr_parent r) as [p|]; [|done]. destruct Hp as (rp & Hrp & Hdiv & Hlev & Hkid).
  specialize (Hs p). rewrite Hrp in Hs. destruct (m' !! p) as [rp'|]; [|done].
  apply (inj Some) in Hs. injection Hs as _ _ _ F4 F5. exists rp'. rewrite <- F4, <- F5. done.
Qed.

Lemma shape_skeleton E h h' :
  shape E h -> same_skeleton (ranges h) (ranges h') ->
  hrs_divideFactor h' = hrs_divideFactor h -> hrs_compareThreshold h' = hrs_compareThreshold h ->
  (forall t, is_Some (dirty h' !! t) -> is_Some (ranges h !! t)) -> shape E h'.
Proof.
  intros [Hf Ht (rt & Hrt & Hdt) Hn Hkd Hd] Hs Ef Et Hd'.
  assert (forall t, is_Some (ranges h !! t) <-> is_Some (ranges h' !! t)) as Hdom.
  { intros t. specialize (Hs t). destruct (ranges h !! t), (ranges h' !! t); try done; naive_solver. }
  split; [congruence|congruence| | | |].
  - specialize (Hs topTuple). rewrite Hrt in Hs. destruct (ranges h' !! topTuple) as [r'|]; [|done].
    apply (inj Some) in Hs. injection Hs as _ _ _ Hdiv _. exists r'. split; [done|congruence].
  - intros t r Hr. destruct (skeleton_lookup _ _ _ _ Hs Hr) as (r0 & Hr0 & Heq).
    eapply node_skeleton; [done..|]. by apply Hn.
  - intros t r t' Hr Hdiv HE Ht'. destruct (skeleton_lookup _ _ _ _ Hs Hr) as (r0 & Hr0 & Heq).
    apply Hdom. eapply Hkd; [done| |done|done]. injection Heq. congruence.
  - intros t Ht'. by apply Hdom, Hd'.
Qed.

(** ** Where a hash lies *)

Section at_hash.
Variables (E : list rangeTuple) (h : hashRanges) (x : Z).
Hypothesis Hsh : shape E h.

Lemma node_cell t r : ranges h !! t = Some r -> exists a, isCell k t (hr_level r) a.
Proof. intros Hr. apply (sh_node _ _ Hsh _ _ Hr). Qed.

Lemma kid_level t r t' r' :
  ranges h !! t = Some r -> hr_isDivided r = true -> t' ∈ kids t -> ranges h !! t' = Some r' ->
  hr_level r' = hr_level r + 1.
Proof.
  intros Hr Hdiv Ht' Hr'. destruct (node_cell _ _ Hr) as [a Ha]. destruct (node_cell _ _ Hr') as [b Hb].
  pose proof (nd_deep _ _ _ (sh_node _ _ Hsh _ _ Hr) Hdiv) as Hdeep.
  pose proof (proj1 (cell_kids k (proj1 Hk) _ _ _ _ Ha Hdeep) Ht') as (c & _ & Hc).
  by eapply (cell_level k (proj1 Hk)).
Qed.

(** Entries of one level that hold the hash are the same. *)
Lemma same_level t r s r' :
  ranges h !! t = Some r -> ranges h !! s = Some r' -> hr_level r = hr_level r' ->
  t.1 <= x <= t.2 -> s.1 <= x <= s.2 -> t = s.
Proof.
  intros Hr Hr' Hl Hx Hx'. destruct (node_cell _ _ Hr) as [a Ha]. destruct (node_cell _ _ Hr') as [b Hb].
  rewrite <- Hl in Hb. rewrite (cell_in k (proj1 Hk) _ _ _ _ Ha) in Hx. rewrite (cell_in k (proj1 Hk) _ _ _ _ Hb) in Hx'.
  subst. by eapply cell_eq.
Qed.

Lemma level_nonneg t r : ranges h !! t = Some r -> 0 <= hr_level r <= 64.
Proof. intros Hr. destruct (node_cell _ _ Hr) as [a Ha]. destruct Ha as [? ? _ _ _]. nia. Qed.

Lemma parent_holds t r p :
  ranges h !! t = Some r -> hr_parent r = Some p ->
  exists rp, ranges h !! p = Some rp /\ hr_isDivided rp = true /\ hr_level r = hr_level rp + 1 /\
    t ∈ kids p /\ inside t p /\ p <> t.
Proof.
  intros Hr Hp. pose proof (nd_parent _ _ _ (sh_node _ _ Hsh _ _ Hr)) as Hpar. rewrite Hp in Hpar.
  destruct Hpar as (rp & Hrp & Hdiv & Hlev & Hkid). exists rp. split_and!; try done;
    try (destruct (node_cell _ _ Hrp) as [a Ha];
         destruct (genTupleRanges_within _ _ _ _ (cell_cuttable k (proj1 Hk) _ _ _ Ha
           (nd_deep _ _ _ (sh_node _ _ Hsh _ _ Hrp) Hdiv)) Hkid); lia).
  intros ->. rewrite Hrp in Hr. injection Hr as ->. lia.
Qed.

(** Below a range that is not divided there is nothing. *)
Lemma leaf_bottom t r s r' :
  ranges h !! t = Some r -> hr_isDivided r = false -> t.1 <= x <= t.2 ->
  ranges h !! s = Some r' -> s.1 <= x <= s.2 -> hr_level r <= hr_level r' -> s = t.
Proof.
  intros Hr Hdiv Hx. remember (Z.to_nat (hr_level r' - hr_level r)) as d eqn:Hd. revert s r' Hd.
  induction d as [|d IH]; intros s r' Hd Hr' Hx' Hl.
  - eapply same_level; [done|exact Hr|lia|done|done].
  - destruct (hr_parent r') as [p|] eqn:Hp.
    + destruct (parent_holds _ _ _ Hr' Hp) as (rp & Hrp & Hdp & Hlp & _ & Hin & _).
      assert (p = t) as ->; [|congruence]. eapply (IH p rp); [lia|done|lia|lia].
    + pose proof (nd_parent _ _ _ (sh_node _ _ Hsh _ _ Hr')) as Htop. rewrite Hp in Htop. subst s.
      destruct (node_cell _ _ Hr') as [a Ha]. pose proof (level_nonneg _ _ Hr).
      pose proof (cell_level k (proj1 Hk) _ _ _ _ _ Ha (cell_top k)). lia.
Qed.
End at_hash.

(** ** Walking down to a hash *)

(** The counts of the entries from level [n] on that hold [x] change by [delta]. *)
Definition bump (n x delta : Z) t r : hashRange :=
  if decide (n <= hr_level r /\ t.1 <= x <= t.2) then with_elements (hr_elements r + delta) r else r.

Definition bumped n x delta m m' : Prop := forall t, m' !! t = bump n x delta t <$> m !! t.

Lemma bump_skeleton n x delta t r : skeleton (bump n x delta t r) = skeleton r.
Proof. unfold bump. by case_decide. Qed.

Lemma bumped_skeleton n x delta m m' : bumped n x delta m m' -> same_skeleton m m'.
Proof.
  intros Hb t. rewrite Hb. destruct (m !! t); simpl; [|done]. by rewrite bump_skeleton.
Qed.

Lemma put_elements_skeleton h t r n :
  ranges h !! t = Some r -> same_skeleton (ranges h) (<[t := with_elements n r]> (ranges h)).
Proof.
  intros Hr s. rewrite lookup_insert. case_decide; [subst|done]. by rewrite Hr.
Qed.

Lemma set_ranges_twice m m' h : set_ranges m (set_ranges m' h) = set_ranges m h.
Proof. by destruct h. Qed.

Lemma shape_set_ranges E h m' :
  shape E h -> same_skeleton (ranges h) m' -> shape E (set_ranges m' h).
Proof. intros Hsh Hs. eapply shape_skeleton; [done|done|done|done|]. apply (sh_dirty _ _ Hsh). Qed.

(** At a leaf, and one level down. *)
Lemma bumped_leaf delta x t r h :
  shape [] h -> ranges h !! t = Some r -> hr_isDivided r = false -> t.1 <= x <= t.2 ->
  bumped (hr_level r) x delta (ranges h) (<[t := with_elements (hr_elements r + delta) r]> (ranges h)).
Proof.
  intros Hsh Hr Hdiv Hx s. rewrite lookup_insert. case_decide as Hts.
  - subst s. rewrite Hr. simpl. unfold bump. by rewrite decide_True.
  - destruct (ranges h !! s) as [rs|] eqn:Hs; [|done]. simpl. unfold bump.
    rewrite decide_False; [done|]. intros [Hl Hxs]. apply Hts. symmetry.
    eapply (leaf_bottom [] h x); done.
Qed.

Lemma bumped_step delta x t r h m' :
  shape [] h -> ranges h !! t = Some r -> t.1 <= x <= t.2 ->
  bumped (hr_level r + 1) x delta (<[t := with_elements (hr_elements r + delta) r]> (ranges h)) m' ->
  bumped (hr_level r) x delta (ranges h) m'.
Proof.
  intros Hsh Hr Hx Hb s. rewrite Hb, lookup_insert. case_decide as Hts.
  - subst s. rewrite Hr. simpl. unfold bump. rewrite decide_False by (simpl; lia). by rewrite decide_True.
  - destruct (ranges h !! s) as [rs|] eqn:Hs; [|done]. simpl. unfold bump.
    destruct (decide (hr_level r <= hr_level rs /\ s.1 <= x <= s.2)) as [[Hl Hxs]|Hno].
    + rewrite decide_True; [done|]. split; [|done].
      destruct (Z.eq_dec (hr_level r) (hr_level rs)); [|lia]. exfalso. apply Hts.
      eapply (same_level [] h x); done.
    + rewrite decide_False; [done|]. intros [? ?]. apply Hno. split; [lia|done].
Qed.

Lemma descend_spec delta x fuel t r h :
  shape [] h -> ranges h !! t = Some r -> t.1 <= x <= t.2 -> 64 - hr_level r <= Z.of_nat fuel ->
  exists m' leaf rl, descend fuel delta x t h = (set_ranges m' h, Ok leaf) /\
    bumped (hr_level r) x delta (ranges h) m' /\
    ranges h !! leaf = Some rl /\ hr_isDivided rl = false /\ leaf.1 <= x <= leaf.2.
Proof.
  revert t r h. induction fuel as [|fuel IH]; intros t r h Hsh Hr Hx Hf; simpl.
  all: erewrite st_bind_step by (unfold range_at, calls; by rewrite Hr).
  all: erewrite st_bind_step by done.
  all: set (h1 := put_range t _ h).
  all: assert (shape [] h1) as Hsh1 by (apply shape_set_ranges; [done|by apply put_elements_skeleton]).
  all: destruct (hr_isDivided r) eqn:Hdiv;
    [|exists (ranges h1), t, r; split; [done|]; split; [by apply bumped_leaf|done]].
  - pose proof (nd_deep _ _ _ (sh_node _ _ Hsh _ _ Hr) Hdiv). nia.
  - destruct (node_cell [] h Hsh _ _ Hr) as [a Ha].
    pose proof (nd_deep _ _ _ (sh_node _ _ Hsh _ _ Hr) Hdiv) as Hdeep.
    destruct (cell_bottom k (proj1 Hk) _ _ _ x Ha Hdeep Hx) as (t' & Hbot & Hkid & Hx').
    erewrite st_bind_step.
    2: { unfold getBottomRange, calls. simpl. rewrite (sh_factor _ _ Hsh).
         rewrite (nd_from _ _ _ (sh_node _ _ Hsh _ _ Hr)), (nd_to _ _ _ (sh_node _ _ Hsh _ _ Hr)), Hbot. done. }
    destruct (sh_kids _ _ Hsh t r t' Hr Hdiv (not_elem_of_nil _) Hkid) as [r' Hr'].
    pose proof (kid_level [] h Hsh _ _ _ _ Hr Hdiv Hkid Hr') as Hlev.
    assert (t' <> t) as Hne by (intros ->; rewrite Hr in Hr'; injection Hr' as <-; lia).
    assert (ranges h1 !! t' = Some r') as Hr1 by (simpl; by rewrite lookup_insert_ne).
    destruct (IH t' r' h1 Hsh1 Hr1 Hx') as (m' & leaf & rl & -> & Hb & Hleaf & Hdl & Hxl); [lia|].
    rewrite Hlev in Hb. simpl in Hb, Hleaf. apply bumped_step in Hb; [|done..].
    apply lookup_insert_Some in Hleaf as [[<- <-]|[_ Hleaf]]; [simpl in Hdl; congruence|].
    exists m', leaf, rl. rewrite <- set_ranges_twice with (m' := ranges h1). done.
Qed.
End shape.
