(* ===== verification/LdiffBuild.v ===== *)
(** Containers are kept up to date: creating one and setting new elements succeeds, and
    leaves every range with the count of its elements and a hash, every range with more
    elements than the threshold cut into parts that are there. *)

From Stdlib Require Import ZArith Lia String.
From stdpp Require Import base option list gmap strings sorting.
From S2P Require Import Prelude Ldiff LdiffRanges LdiffExchange LdiffMain LdiffShape.

Local Open Scope Z_scope.

(** github.com/zeebo/blake3: a digest is never empty. *)
Class DigestLaws `{DiffHashes} := {
  blake3_nonempty b : blake3_Sum b <> "";
}.

Section build.
Context `{SkipListLaws} `{DiffHashes} `{!DigestLaws} `{MapRange}.
Variables (k T : Z).
Hypothesis Hk : 1 <= k <= 64.
Hypothesis HT : 1 <= T.

Abbreviation kids t := (genTupleRanges t.1 t.2 (2 ^ k)).
Abbreviation shape := (shape k T).
Implicit Types (t s p : rangeTuple) (r : hashRange) (h : hashRanges) (l : list element).

(** The elements of a list in a range. *)
Definition cnt l t : Z := Z.of_nat (length (rangeElements l t.1 t.2)).

(** The hashes of the elements that were replaced since the hashes were last recalculated:
    the ranges above them count them twice. *)
Variable X : list Z.
Definition slack t : Z := Z.of_nat (length (filter (fun x => t.1 <= x <= t.2) X)).

(** No range too narrow to be cut counts more elements than the threshold. *)
Definition sparse l : Prop := forall t n a, isCell k t n a -> 64 < k * (n + 1) -> cnt l t + slack t <= T.

(** Ranges without a hash that have elements are above a dirty range. *)
Definition covered h : Prop := forall t r, ranges h !! t = Some r ->
  hr_hash r = "" -> hr_elements r <> 0 -> exists s, is_Some (dirty h !! s) /\ inside s t.

Record tree_ok (E : list rangeTuple) l h : Prop := mkTreeOk {
  tr_shape : shape E h;
  tr_count t r : ranges h !! t = Some r -> cnt l t <= hr_elements r;
  tr_leaf t r : ranges h !! t = Some r -> hr_isDivided r = false -> hr_elements r <= T;
  tr_over t r : ranges h !! t = Some r -> hr_isDivided r = false -> hr_elements r <= cnt l t + slack t;
  tr_exact t r : ranges h !! t = Some r -> hr_isDivided r = false -> dirty h !! t = None -> hr_elements r = cnt l t;
  tr_covered : covered h;
}.

(** ** Cutting a range *)

Lemma makeRange_fields l t p lvl :
  let r := makeRange l t p lvl in
  hr_from r = t.1 /\ hr_to r = t.2 /\ hr_parent r = Some p /\ hr_isDivided r = false /\
  hr_elements r = cnt l t /\ hr_level r = lvl + 1 /\ (hr_hash r = "" -> hr_elements r = 0).
Proof.
  unfold makeRange, calcElementsHash. simpl. split_and!; try done. case_decide as He.
  - intros _. unfold cnt in *. rewrite He. done.
  - by intros ?%blake3_nonempty.
Qed.

(** What was there stays; what is new lies inside [t]; dirty ranges move down, to ranges
    inside [t]. *)
Record cuts t h h' : Prop := mkCuts {
  cu_old s r : ranges h !! s = Some r -> ranges h' !! s = Some r;
  cu_new s : ranges h !! s = None -> is_Some (ranges h' !! s) -> inside s t;
  cu_dirty s : is_Some (dirty h !! s) -> exists s', is_Some (dirty h' !! s') /\ inside s' s;
}.

Lemma cuts_refl t h : cuts t h h.
Proof. split; [done|by intros s -> [? ?]|]. intros s Hs. exists s. split; [done|lia]. Qed.

Lemma cuts_trans t h1 h2 h3 : cuts t h1 h2 -> cuts t h2 h3 -> cuts t h1 h3.
Proof.
  intros C1 C2. split.
  - intros s r Hr. by apply (cu_old _ _ _ C2), (cu_old _ _ _ C1).
  - intros s Hn Hs. destruct (ranges h2 !! s) as [r|] eqn:Hr; [apply (cu_new _ _ _ C1); eauto|].
    by apply (cu_new _ _ _ C2).
  - intros s Hs. destruct (cu_dirty _ _ _ C1 _ Hs) as (s1 & Hs1 & H1').
    destruct (cu_dirty _ _ _ C2 _ Hs1) as (s2 & Hs2 & H2'). exists s2. split; [done|lia].
Qed.

Lemma cuts_widen t t' h h' : cuts t h h' -> inside t t' -> cuts t' h h'.
Proof.
  intros [Ho Hn Hd] Hin. split; [done| |done]. intros s Hs Hs'. specialize (Hn s Hs Hs'). lia.
Qed.

(** The only parent of a part. *)
Lemma kid_parent E h t n a t' r' p :
  shape E h -> isCell k t n a -> k * (n + 1) <= 64 -> t' ∈ kids t ->
  ranges h !! t' = Some r' -> hr_parent r' = Some p -> p = t.
Proof.
  intros Hsh Ha Hdeep Hkid Hr' Hp.
  destruct (parent_holds k T Hk _ _ Hsh _ _ _ Hr' Hp) as (rp & Hrp & Hdp & Hlp & Hkp & Hin & _).
  destruct (node_cell k T _ _ Hsh _ _ Hrp) as [b Hb]. destruct (node_cell k T _ _ Hsh _ _ Hr') as [c Hc].
  destruct (proj1 (cell_kids k (proj1 Hk) _ _ _ _ Ha Hdeep) Hkid) as (c' & Hc1 & Hc').
  pose proof (cell_level k (proj1 Hk) _ _ _ _ _ Hc Hc') as Hlev.
  assert (hr_level rp = n) as Hn by lia.
  destruct (proj1 (cell_kids k (proj1 Hk) _ _ _ _ Hb (nd_deep _ _ _ _ (sh_node _ _ _ _ Hsh _ _ Hrp) Hdp)) Hkp)
    as (c2 & Hc2 & Hc2').
  rewrite Hn in Hb. rewrite Hlev in Hc. rewrite Hn in Hc2'.
  assert (c' = c2) as <-.
  { destruct (cell_bounds k (proj1 Hk) _ _ _ Hc') as (? & ? & _).
    pose proof (proj1 (cell_in k (proj1 Hk) _ _ _ t'.1 Hc') ltac:(lia)).
    pose proof (proj1 (cell_in k (proj1 Hk) _ _ _ t'.1 Hc2') ltac:(lia)). congruence. }
  rewrite Hc1 in Hc2. subst b. by eapply cell_eq.
Qed.

(** A part that is not there has no parts. *)
Lemma absent_kids E h t n a t' :
  shape E h -> isCell k t n a -> k * (n + 1) <= 64 -> t' ∈ kids t ->
  (forall r, ranges h !! t = Some r -> hr_isDivided r = false) -> ranges h !! t' = None.
Proof.
  intros Hsh Ha Hdeep Hkid Ht. destruct (ranges h !! t') as [r'|] eqn:Hr'; [exfalso|done].
  destruct (hr_parent r') as [p|] eqn:Hp.
  - pose proof (kid_parent _ _ _ _ _ _ _ _ Hsh Ha Hdeep Hkid Hr' Hp) as ->.
    destruct (parent_holds k T Hk _ _ Hsh _ _ _ Hr' Hp) as (rp & Hrp & Hdp & _).
    rewrite (Ht _ Hrp) in Hdp. done.
  - pose proof (nd_parent _ _ _ _ (sh_node _ _ _ _ Hsh _ _ Hr')) as Htop. rewrite Hp in Htop. subst t'.
    destruct (proj1 (cell_kids k (proj1 Hk) _ _ _ _ Ha Hdeep) Hkid) as (c & _ & Hc).
    pose proof (cell_level k (proj1 Hk) _ _ _ _ _ Hc (cell_top k)). destruct Ha. lia.
Qed.

(** ** A new part *)

Lemma node_put m t r t' r' :
  m !! t' = None -> node k m t r -> node k (<[t' := r']> m) t r.
Proof.
  intros Hn [Hc Hf Ht Hp Hd]. split; try done. destruct (hr_parent r) as [p|]; [|done].
  destruct Hp as (rp & Hrp & Hp). exists rp. split; [|done].
  rewrite lookup_insert_ne; [done|]. intros ->. congruence.
Qed.

(** The entry made for a part, divided when it has more elements than the threshold. *)
Definition part_entry l t p lvl (divided : bool) : hashRange :=
  if divided then with_divided true (makeRange l t p lvl) else makeRange l t p lvl.

Lemma part_entry_fields l t p lvl b :
  let r := part_entry l t p lvl b in
  hr_from r = t.1 /\ hr_to r = t.2 /\ hr_parent r = Some p /\ hr_isDivided r = b /\
  hr_elements r = cnt l t /\ hr_level r = lvl + 1 /\ (hr_hash r = "" -> hr_elements r = 0).
Proof. destruct (makeRange_fields l t p lvl) as (? & ? & ? & ? & ? & ? & ?). by destruct b. Qed.

(** The dirty marks after a part was made: a divided part takes the mark. *)
Definition part_dirty (divided : bool) t t' (d : gmap rangeTuple unit) : gmap rangeTuple unit :=
  if divided then <[t' := tt]> (delete t d) else d.

Definition put_part l t t' lvl b h : hashRanges :=
  set_dirty (part_dirty b t t' (dirty h)) (put_range t' (part_entry l t' t lvl b) h).

Section one_part.
Variables (E : list rangeTuple) (l : list element) (h : hashRanges) (t t' : rangeTuple) (r : hashRange).
Hypothesis Hok : tree_ok (t :: E) l h.
Hypothesis Hr : ranges h !! t = Some r.
Hypothesis Hdiv : hr_isDivided r = true.
Hypothesis Hkid : t' ∈ kids t.
Hypothesis Hnew : ranges h !! t' = None.
Hypothesis Hsp : sparse l.

Lemma kid_cell : exists c, isCell k t' (hr_level r + 1) c /\ inside t' t.
Proof.
  pose proof (tr_shape _ _ _ Hok) as Hsh. destruct (node_cell k T _ _ Hsh _ _ Hr) as [a Ha].
  pose proof (nd_deep _ _ _ _ (sh_node _ _ _ _ Hsh _ _ Hr) Hdiv) as Hdeep.
  destruct (proj1 (cell_kids k (proj1 Hk) _ _ _ _ Ha Hdeep) Hkid) as (c & _ & Hc).
  exists c. split; [done|].
  destruct (genTupleRanges_within _ _ _ _ (cell_cuttable k (proj1 Hk) _ _ _ Ha Hdeep) Hkid). lia.
Qed.

Lemma put_part_cuts b : cuts t h (put_part l t t' (hr_level r) b h).
Proof.
  destruct kid_cell as (c & Hc & Hin). split; simpl.
  - intros s rs Hs. rewrite lookup_insert_ne; [done|congruence].
  - intros s Hs. rewrite lookup_insert. case_decide; [by subst|]. rewrite Hs. by intros [? ?].
  - intros s Hs. unfold part_dirty. destruct b; [|exists s; split; [done|lia]].
    destruct (decide (s = t)) as [->|Hne].
    + exists t'. rewrite lookup_insert, decide_True by done. split; [done|lia].
    + exists s. split; [|lia]. rewrite lookup_insert. case_decide; [done|].
      by rewrite lookup_delete_ne.
Qed.

Lemma put_part_shape b :
  b = (T <? cnt l t') ->
  shape (if b then t' :: t :: E else t :: E) (put_part l t t' (hr_level r) b h).
Proof.
  intros Hb. pose proof (tr_shape _ _ _ Hok) as Hsh. destruct kid_cell as (c & Hc & Hin).
  destruct (part_entry_fields l t' t (hr_level r) b) as (F1 & F2 & F3 & F4 & F5 & F6 & F7).
  assert (t' <> t) as Hne by congruence.
  destruct Hsh as [S1 S2 (rt & Hrt & Hdt) S4 S5 S6]. split; simpl; [done|done| | | |].
  - exists rt. split; [|done]. rewrite lookup_insert_ne; [done|congruence].
  - intros s rs. rewrite lookup_insert. case_decide as Hs.
    + intros [= <-]. subst s. split; [exists c; by rewrite F6|done|done| |].
      * rewrite F3. exists r. split_and!; [by rewrite lookup_insert_ne|done|lia|done].
      * rewrite F4, F6. intros ->. symmetry in Hb. apply Z.ltb_lt in Hb.
        destruct (Z_lt_le_dec 64 (k * (hr_level r + 1 + 1))) as [Hlt|]; [|lia].
        specialize (Hsp _ _ _ Hc Hlt). unfold slack in Hsp. lia.
    + intros Hrs. apply node_put; [done|]. by apply S4.
  - intros s rs s'. rewrite lookup_insert. case_decide as Hs.
    + intros [= <-] Hd HE. rewrite F4 in Hd. subst s. rewrite Hd in HE. set_solver.
    + intros Hrs Hd HE Hs'. rewrite lookup_insert. case_decide; [done|].
      apply (S5 s rs s'); [done|done|destruct b; set_solver|done].
  - intros s Hs. rewrite lookup_insert. case_decide as Hss; [done|]. apply S6.
    unfold part_dirty in Hs. destruct b; [|done]. rewrite lookup_insert_ne in Hs by done.
    apply lookup_delete_is_Some in Hs. by destruct Hs.
Qed.

Lemma put_part_ok b :
  b = (T <? cnt l t') ->
  tree_ok (if b then t' :: t :: E else t :: E) l (put_part l t t' (hr_level r) b h).
Proof.
  intros Hb. destruct (part_entry_fields l t' t (hr_level r) b) as (F1 & F2 & F3 & F4 & F5 & F6 & F7).
  split; [by apply put_part_shape| | | | |].
  - intros s rs. simpl. rewrite lookup_insert. case_decide; [intros [= <-]; subst; lia|].
    apply (tr_count _ _ _ Hok).
  - intros s rs. simpl. rewrite lookup_insert. case_decide; [|apply (tr_leaf _ _ _ Hok)].
    intros [= <-]. rewrite F4, F5. intros ->. lia.
  - intros s rs. simpl. rewrite lookup_insert. case_decide; [|apply (tr_over _ _ _ Hok)].
    intros [= <-] _. subst. unfold slack. lia.
  - intros s rs. simpl. rewrite lookup_insert. case_decide; [intros [= <-] _ _; by subst|].
    intros Hrs Hds Hdirty. apply (tr_exact _ _ _ Hok _ _ Hrs Hds). unfold part_dirty in Hdirty. destruct b; [|done].
    rewrite lookup_insert_ne, lookup_delete_ne in Hdirty by congruence. done.
  - intros s rs. simpl. rewrite lookup_insert. case_decide as Hs.
    + intros [= <-] Hh. by specialize (F7 Hh).
    + intros Hrs Hh Hz. destruct (tr_covered _ _ _ Hok _ _ Hrs Hh Hz) as (s1 & Hs1 & Hin).
      destruct (cu_dirty _ _ _ (put_part_cuts b) _ Hs1) as (s2 & Hs2 & Hin2).
      exists s2. split; [done|lia].
Qed.
End one_part.

(** One turn of the loop of [makeBottomRanges]. *)
Definition part_turn (fuel : nat) l t lvl (t' : rangeTuple) : ST hashRanges unit :=
  let newRange := makeRange l t' t lvl in
  assigns (put_range t' newRange) ;;
  big ← reads (fun h => hrs_compareThreshold h <? hr_elements newRange);
  if (big : bool) then
    assigns (unmark_dirty t) ;;
    assigns (mark_dirty t') ;;
    assigns (put_range t' (with_divided true newRange)) ;;
    makeBottomRanges fuel l t'
  else mret tt.

Lemma part_turn_run fuel l t lvl t' h :
  hrs_compareThreshold h = T ->
  part_turn fuel l t lvl t' h =
  let b := T <? cnt l t' in
  (if b then makeBottomRanges fuel l t' else mret tt) (put_part l t t' lvl b h).
Proof.
  intros HTh. unfold part_turn. erewrite st_bind_step by done. erewrite st_bind_step by done.
  destruct (makeRange_fields l t' t lvl) as (_ & _ & _ & _ & -> & _). simpl.
  rewrite HTh. destruct (T <? cnt l t') eqn:Hb.
  - do 3 erewrite st_bind_step by done. f_equal. unfold put_part, put_range, mark_dirty, unmark_dirty.
    unfold set_dirty, set_ranges. simpl. by rewrite insert_insert_eq.
  - unfold put_part, part_dirty, part_entry. by destruct h.
Qed.

Lemma makeBottomRanges_turns fuel l t r h :
  ranges h !! t = Some r ->
  makeBottomRanges (S fuel) l t h =
  st_each (part_turn fuel l t (hr_level r)) (genTupleRanges (hr_from r) (hr_to r) (hrs_divideFactor h)) h.
Proof.
  intros Hr. simpl. erewrite st_bind_step by (unfold range_at, calls; by rewrite Hr).
  by erewrite st_bind_step by done.
Qed.

Lemma tree_ok_widen E E' l h : (forall t, t ∈ E -> t ∈ E') -> tree_ok E l h -> tree_ok E' l h.
Proof.
  intros HE [[S1 S2 S3 S4 S5 S6] Hc Hl Ho Hx Hv]. split; try done. split; try done.
  intros t r t' Ht Hd Hn. apply (S5 t r t' Ht Hd). naive_solver.
Qed.

(** With its parts there, a range is no longer an exception. *)
Lemma tree_ok_cut E l h t :
  (forall t', t' ∈ kids t -> is_Some (ranges h !! t')) -> tree_ok (t :: E) l h -> tree_ok E l h.
Proof.
  intros Hall [[S1 S2 S3 S4 S5 S6] Hc Hl Ho Hx Hv]. split; try done. split; try done.
  intros s r t' Hs Hd Hn Ht'. destruct (decide (s = t)) as [->|]; [by apply Hall|].
  apply (S5 s r t' Hs Hd); [|done]. by apply not_elem_of_cons.
Qed.

(** A cut range, as [makeBottomRanges] leaves it. *)
Definition cut_done fuel l : Prop := forall E t r h,
  tree_ok (t :: E) l h -> ranges h !! t = Some r -> hr_isDivided r = true ->
  (forall t', t' ∈ kids t -> ranges h !! t' = None) -> 64 - hr_level r <= Z.of_nat fuel ->
  exists h', makeBottomRanges fuel l t h = (h', Ok tt) /\ tree_ok E l h' /\ cuts t h h'.

Lemma part_turn_spec fuel E l t r t' h :
  cut_done fuel l -> sparse l ->
  tree_ok (t :: E) l h -> ranges h !! t = Some r -> hr_isDivided r = true -> t' ∈ kids t ->
  ranges h !! t' = None -> 64 - hr_level r <= Z.of_nat (S fuel) ->
  exists h', part_turn fuel l t (hr_level r) t' h = (h', Ok tt) /\ tree_ok (t :: E) l h' /\
    cuts t h h' /\ is_Some (ranges h' !! t') /\
    (forall s, s ∈ kids t -> s <> t' -> ranges h !! s = None -> ranges h' !! s = None).
Proof.
  intros IH Hsp Hok Hr Hdiv Hkid Hnew Hf. pose proof (tr_shape _ _ _ Hok) as Hsh.
  destruct (kid_cell _ _ _ _ _ _ Hok Hr Hdiv Hkid) as (c & Hc & Hin).
  rewrite part_turn_run by apply (sh_threshold _ _ _ _ Hsh). cbv zeta.
  pose proof (put_part_ok _ _ _ _ _ _ Hok Hr Hdiv Hkid Hnew Hsp _ eq_refl) as Hok1.
  pose proof (put_part_cuts _ _ _ _ _ _ Hok Hr Hdiv Hkid Hnew (T <? cnt l t')) as Hcut.
  destruct (part_entry_fields l t' t (hr_level r) (T <? cnt l t')) as (_ & _ & _ & F4 & _ & F6 & _).
  set (h1 := put_part _ _ _ _ _ _) in *.
  assert (ranges h1 !! t' = Some (part_entry l t' t (hr_level r) (T <? cnt l t'))) as Hr1
    by (simpl; by rewrite lookup_insert, decide_True).
  assert (forall s, s <> t' -> ranges h1 !! s = ranges h !! s) as Hother
    by (intros s Hs; simpl; by rewrite lookup_insert_ne).
  destruct (T <? cnt l t') eqn:Hb; [|exists h1; split_and!; [done..|by rewrite Hr1|]].
  2: { intros s _ Hs Hno. by rewrite Hother. }
  pose proof (nd_deep _ _ _ _ (sh_node _ _ _ _ (tr_shape _ _ _ Hok1) _ _ Hr1) F4) as Hdeep.
  rewrite F6 in Hdeep.
  assert (forall s, s ∈ kids t' -> ranges h1 !! s = None) as Habs.
  { intros s Hs. rewrite Hother.
    - apply (absent_kids _ _ _ _ _ _ Hsh Hc Hdeep Hs). intros r0 Hr0. congruence.
    - intros ->. destruct (proj1 (cell_kids k (proj1 Hk) _ _ _ _ Hc Hdeep) Hs) as (c2 & _ & Hc2).
      pose proof (cell_level k (proj1 Hk) _ _ _ _ _ Hc Hc2). lia. }
  destruct (IH (t :: E) t' _ h1 Hok1 Hr1 F4 Habs) as (h2 & Hrun & Hok2 & Hcut2); [lia|].
  exists h2. split_and!; [done|done| | |].
  - eapply cuts_trans; [done|]. by eapply cuts_widen.
  - rewrite (cu_old _ _ _ Hcut2 _ _ Hr1). done.
  - intros s Hs Hne Hno. destruct (ranges h2 !! s) as [rs|] eqn:Hrs; [exfalso|done].
    assert (inside s t') as Hst by (apply (cu_new _ _ _ Hcut2); [by rewrite Hother|done]).
    destruct (node_cell k T _ _ Hsh _ _ Hr) as [a Ha].
    pose proof (nd_deep _ _ _ _ (sh_node _ _ _ _ Hsh _ _ Hr) Hdiv) as Hdeep0.
    pose proof (cell_cuttable k (proj1 Hk) _ _ _ Ha Hdeep0) as Hcu.
    destruct (genTupleRanges_within _ _ _ _ Hcu Hs) as (? & ? & ? & _).
    apply Hne. apply (genTupleRanges_disjoint _ _ _ s t' s.1 Hcu Hs Hkid); lia.
Qed.

Lemma part_turns_spec fuel E l t r ts h :
  cut_done fuel l -> sparse l ->
  tree_ok (t :: E) l h -> ranges h !! t = Some r -> hr_isDivided r = true ->
  64 - hr_level r <= Z.of_nat (S fuel) -> NoDup ts -> (forall t', t' ∈ ts -> t' ∈ kids t) ->
  (forall t', t' ∈ ts -> ranges h !! t' = None) ->
  exists h', st_each (part_turn fuel l t (hr_level r)) ts h = (h', Ok tt) /\ tree_ok (t :: E) l h' /\
    cuts t h h' /\ (forall t', t' ∈ ts -> is_Some (ranges h' !! t')).
Proof.
  intros IH Hsp. revert h. induction ts as [|t' ts IHts]; intros h Hok Hr Hdiv Hf Hnd Hks Hno.
  { exists h. split_and!; [done|done|apply cuts_refl|]. intros t' []%not_elem_of_nil. }
  apply NoDup_cons in Hnd as [Hnin Hnd].
  destruct (part_turn_spec fuel E l t r t' h IH Hsp Hok Hr Hdiv (Hks _ (list_elem_of_here _ _))
    (Hno _ (list_elem_of_here _ _)) Hf) as (h1 & Hrun & Hok1 & Hcut & Hin & Hrest).
  destruct (IHts h1) as (h2 & Hrun2 & Hok2 & Hcut2 & Hall); [done|by apply (cu_old _ _ _ Hcut)|done|done|done| | |].
  { intros s Hs. apply Hks. by right. }
  { intros s Hs. apply Hrest; [apply Hks; by right| |apply Hno; by right]. by intros ->. }
  exists h2. split_and!; [|done|by eapply cuts_trans|].
  - simpl. erewrite st_bind_step by done. done.
  - intros s [->|Hs]%elem_of_cons; [|by apply Hall]. destruct Hin as [rs Hrs].
    rewrite (cu_old _ _ _ Hcut2 _ _ Hrs). done.
Qed.

Lemma makeBottomRanges_spec fuel l : sparse l -> cut_done fuel l.
Proof.
  intros Hsp. induction fuel as [|fuel IH]; intros E t r h Hok Hr Hdiv Hno Hf.
  all: pose proof (tr_shape _ _ _ Hok) as Hsh; destruct (node_cell k T _ _ Hsh _ _ Hr) as [a Ha].
  all: pose proof (nd_deep _ _ _ _ (sh_node _ _ _ _ Hsh _ _ Hr) Hdiv) as Hdeep.
  { pose proof (level_nonneg k T Hk _ _ Hsh _ _ Hr). nia. }
  rewrite (makeBottomRanges_turns _ _ _ _ _ Hr).
  rewrite (nd_from _ _ _ _ (sh_node _ _ _ _ Hsh _ _ Hr)), (nd_to _ _ _ _ (sh_node _ _ _ _ Hsh _ _ Hr)).
  rewrite (sh_factor _ _ _ _ Hsh).
  destruct (part_turns_spec fuel E l t r (kids t) h) as (h' & Hrun & Hok' & Hcut & Hall); try done.
  { apply genTupleRanges_NoDup. exact (cell_cuttable k (proj1 Hk) _ _ _ Ha Hdeep). }
  exists h'. split_and!; [done| |done]. by eapply tree_ok_cut.
Qed.
End build.

(** * Adding an element and recalculating the hashes keep the tree of ranges: the counts
    stay exact, and once no range is dirty the container is up to date.  So are containers made by [New] and filled by [Set]. *)

Section keep.
Context `{SkipListLaws} `{DiffHashes} `{!DigestLaws} `{MapRange}.
Variables (k T : Z).
Hypothesis Hk : 1 <= k <= 64.
Hypothesis HT : 1 <= T.

Abbreviation kids t := (genTupleRanges t.1 t.2 (2 ^ k)).
Abbreviation shape := (shape k T).
Abbreviation tree_ok := (tree_ok k T).
Abbreviation sparse := (sparse k T).
Implicit Types (t s p : rangeTuple) (r : hashRange) (h : hashRanges) (l : list element) (x : Z).

(** Two ranges of the tree, one of which is inside the other, and the levels. *)
Lemma nested_in E h t rt s rs x :
  shape E h -> ranges h !! t = Some rt -> ranges h !! s = Some rs -> hr_level rt <= hr_level rs ->
  t.1 <= x <= t.2 -> s.1 <= x <= s.2 -> inside s t.
Proof.
  intros Hsh Ht Hs Hl Hxt Hxs. destruct (node_cell k T _ _ Hsh _ _ Ht) as [a Ha].
  destruct (node_cell k T _ _ Hsh _ _ Hs) as [b Hb].
  destruct (cell_bounds k (proj1 Hk) _ _ _ Hb) as (_ & Hle & _).
  pose proof (cell_nested k (proj1 Hk) _ _ _ _ _ _ x s.1 Ha Hb Hl Hxt Hxs ltac:(lia)).
  pose proof (cell_nested k (proj1 Hk) _ _ _ _ _ _ x s.2 Ha Hb Hl Hxt Hxs ltac:(lia)). lia.
Qed.

Lemma inside_level E h t rt s rs :
  shape E h -> ranges h !! t = Some rt -> ranges h !! s = Some rs -> inside s t -> s <> t ->
  hr_level rt < hr_level rs.
Proof.
  intros Hsh Ht Hs Hin Hne. destruct (Z_lt_le_dec (hr_level rt) (hr_level rs)) as [|Hle]; [done|exfalso].
  destruct (node_cell k T _ _ Hsh _ _ Hs) as [b Hb].
  destruct (cell_bounds k (proj1 Hk) _ _ _ Hb) as (_ & Hle' & _).
  pose proof (nested_in _ _ _ _ _ _ s.1 Hsh Hs Ht Hle ltac:(lia) ltac:(lia)) as Hin2.
  apply Hne. destruct s, t. simpl in *. f_equal; lia.
Qed.

(** ** Adding an element *)

(** The list [l'] has one element more than [l], at the hash [x], or another element in the
    place of one at the hash [x], which is then counted twice. *)
Definition put_at (fresh : bool) l x l' : Prop := forall t, 0 <= t.1 -> t.2 <= MaxUint64 ->
  cnt l' t = cnt l t + (if decide (t.1 <= x <= t.2) then (if fresh then 1 else 0) else 0).
Definition twice (fresh : bool) x (X : list Z) : list Z := if fresh then X else x :: X.

Lemma slack_twice fresh x X t :
  slack (twice fresh x X) t = slack X t + (if decide (t.1 <= x <= t.2) then (if fresh then 0 else 1) else 0).
Proof.
  unfold slack, twice. destruct fresh; [case_decide; lia|]. rewrite filter_cons. case_decide; cbn [length]; lia.
Qed.

(** A tree in which one dirty leaf may be too large. *)
Record tree_but X (leaf : rangeTuple) l h : Prop := mkTreeBut {
  tb_shape : shape [] h;
  tb_count t r : ranges h !! t = Some r -> cnt l t <= hr_elements r;
  tb_leaf t r : ranges h !! t = Some r -> t <> leaf -> hr_isDivided r = false -> hr_elements r <= T;
  tb_over t r : ranges h !! t = Some r -> hr_isDivided r = false -> hr_elements r <= cnt l t + slack X t;
  tb_exact t r : ranges h !! t = Some r -> hr_isDivided r = false -> dirty h !! t = None -> hr_elements r = cnt l t;
  tb_covered : covered h;
  tb_dirty : is_Some (dirty h !! leaf);
}.

Section add.
Variables (X : list Z) (fresh : bool) (l l' : list element) (x : Z) (h : hashRanges).
Hypothesis Hok : tree_ok X [] l h.
Hypothesis Hone : put_at fresh l x l'.

(** The tree after the walk down to the leaf, with the leaf marked: the leaf may be
    too large. *)
Lemma walked m' leaf rl :
  bumped 0 x 1 (ranges h) m' -> ranges h !! leaf = Some rl -> hr_isDivided rl = false ->
  leaf.1 <= x <= leaf.2 ->
  let h' := mark_dirty leaf (set_ranges m' h) in
  tree_but (twice fresh x X) leaf l' h' /\ ranges h' !! leaf = Some (with_elements (hr_elements rl + 1) rl).
Proof.
  intros Hb Hleaf Hdl Hxl h'. pose proof (tr_shape _ _ _ _ _ _ Hok) as Hsh.
  pose proof (level_nonneg k T Hk _ _ Hsh) as Hlev.
  assert (forall t r, m' !! t = Some r -> exists r0, ranges h !! t = Some r0 /\ r = bump 0 x 1 t r0) as Hm.
  { intros t r Ht. rewrite Hb in Ht. apply fmap_Some in Ht as (r0 & ? & ->). eauto. }
  assert (ranges h' !! leaf = Some (with_elements (hr_elements rl + 1) rl)) as Hl'.
  { simpl. rewrite Hb, Hleaf. simpl. unfold bump. rewrite decide_True; [done|].
    split; [by apply (Hlev _ _ Hleaf)|done]. }
  split; [|done].
  (* the only range without parts that holds the hash is the leaf *)
  assert (forall t r0, ranges h !! t = Some r0 -> hr_isDivided r0 = false -> t.1 <= x <= t.2 -> t = leaf) as Honly.
  { intros t r0 Hr0 Hdiv Hx. destruct (Z_le_gt_dec (hr_level r0) (hr_level rl)).
    - symmetry. eapply (leaf_bottom k T Hk [] h x Hsh t r0); [done|done|done|done|done|lia].
    - eapply (leaf_bottom k T Hk [] h x Hsh leaf rl); [done|done|done|done|done|lia]. }
  assert (forall t r0, ranges h !! t = Some r0 ->
    cnt l' t = cnt l t + (if decide (t.1 <= x <= t.2) then (if fresh then 1 else 0) else 0)) as Hcnt.
  { intros t r0 Hr0. destruct (node_cell k T _ _ Hsh _ _ Hr0) as [a Ha].
    destruct (cell_bounds k (proj1 Hk) _ _ _ Ha) as (? & _ & ? & _). by apply Hone. }
  assert (forall t r0, ranges h !! t = Some r0 ->
    hr_elements (bump 0 x 1 t r0) = hr_elements r0 + (if decide (t.1 <= x <= t.2) then 1 else 0)) as Hbump.
  { intros t r0 Hr0. pose proof (Hlev _ _ Hr0). unfold bump. repeat case_decide; simpl; (lia || naive_solver lia). }
  split; [|intros t r Ht..|simpl; by rewrite lookup_insert, decide_True].
  - eapply shape_skeleton; [exact Hsh|simpl; by eapply bumped_skeleton|done|done|].
    intros t Ht. simpl in Ht. apply lookup_insert_is_Some' in Ht as [<-|Ht]; [by rewrite Hleaf|].
    by apply (sh_dirty _ _ _ _ Hsh).
  - destruct (Hm _ _ Ht) as (r0 & Hr0 & ->). rewrite (Hbump _ _ Hr0), (Hcnt _ _ Hr0).
    pose proof (tr_count _ _ _ _ _ _ Hok _ _ Hr0). case_decide; destruct fresh; lia.
  - intros Hne Hdiv. destruct (Hm _ _ Ht) as (r0 & Hr0 & ->). rewrite (Hbump _ _ Hr0).
    assert (hr_isDivided r0 = false) as Hdiv0 by (by unfold bump in Hdiv; case_decide).
    case_decide as Hc; [by destruct Hne; eapply Honly|]. pose proof (tr_leaf _ _ _ _ _ _ Hok _ _ Hr0 Hdiv0). lia.
  - intros Hdiv. destruct (Hm _ _ Ht) as (r0 & Hr0 & ->). rewrite (Hbump _ _ Hr0), (Hcnt _ _ Hr0), slack_twice.
    assert (hr_isDivided r0 = false) as Hdiv0 by (by unfold bump in Hdiv; case_decide).
    pose proof (tr_over _ _ _ _ _ _ Hok _ _ Hr0 Hdiv0). case_decide; destruct fresh; lia.
  - intros Hdiv Hd. destruct (Hm _ _ Ht) as (r0 & Hr0 & ->). rewrite (Hbump _ _ Hr0), (Hcnt _ _ Hr0).
    assert (hr_isDivided r0 = false) as Hdiv0 by (by unfold bump in Hdiv; case_decide).
    simpl in Hd. apply lookup_insert_None in Hd as [Hd Hne]. case_decide as Hc; [by destruct Hne; symmetry; eapply Honly|].
    rewrite (tr_exact _ _ _ _ _ _ Hok _ _ Hr0 Hdiv0 Hd). lia.
  - intros Hh Hz. destruct (Hm _ _ Ht) as (r0 & Hr0 & ->). unfold bump in *. case_decide as Hc.
    + exists leaf. split; [simpl; by rewrite lookup_insert, decide_True|].
      assert (hr_level r0 <= hr_level rl); [|eapply nested_in; [exact Hsh|done|done|done|apply Hc|done]].
      destruct (Z_le_gt_dec (hr_level r0) (hr_level rl)) as [|Hgt]; [done|].
      assert (t = leaf) as -> by (eapply (leaf_bottom k T Hk [] h x Hsh leaf rl); [done|done|done|done|apply Hc|lia]).
      rewrite Hleaf in Hr0. injection Hr0 as ->. lia.
    + destruct (tr_covered _ _ _ _ _ _ Hok _ _ Hr0 Hh Hz) as (s & Hs & Hin). exists s. split; [|done].
      simpl. apply lookup_insert_is_Some'. by right.
Qed.
End add.

(** Removing the mark of the parent of [t], below which a range stays dirty. *)
Lemma unmark_parent X E l h t r p s :
  tree_ok X E l h -> ranges h !! t = Some r -> hr_parent r = Some p ->
  is_Some (dirty h !! s) -> inside s t -> tree_ok X E l (unmark_dirty p h).
Proof.
  intros [Hsh Hc Hl Ho He Hv] Ht Hp Hs Hin.
  destruct (parent_holds k T Hk _ _ Hsh _ _ _ Ht Hp) as (rp & Hrp & Hdp & _ & _ & Htp & Hne).
  split; [|done|done|done| |].
  - destruct Hsh as [S1 S2 S3 S4 S5 S6]. split; try done. intros u Hu. simpl in Hu.
    apply S6. apply lookup_delete_is_Some in Hu. by destruct Hu.
  - intros u ru Hru Hdu Hd. simpl in Hru. apply (He _ _ Hru Hdu). simpl in Hd. apply lookup_delete_None in Hd as [Hup|]; [|done].
    rewrite Hup in Hrp. rewrite Hrp in Hru. injection Hru as <-. by rewrite Hdu in Hdp.
  - intros u ru Hru Hh Hz. destruct (Hv u ru Hru Hh Hz) as (v & Hdv & Hvu).
    assert (s <> p) as Hsp.
    { intros ->. apply Hne. destruct p, t. simpl in *. f_equal; lia. }
    destruct (decide (v = p)) as [->|Hvp].
    + exists s. split; [|lia]. simpl. by rewrite lookup_delete_ne.
    + exists v. split; [|done]. simpl. by rewrite lookup_delete_ne.
Qed.

(** Dividing the leaf. *)
Lemma divided_ok X leaf l h r :
  tree_but X leaf l h -> ranges h !! leaf = Some r -> k * (hr_level r + 1) <= 64 ->
  tree_ok X [leaf] l (put_range leaf (with_divided true r) h).
Proof.
  intros [Hsh Hc Hl Ho He Hv Hd] Hr Hdeep. split; simpl.
  - destruct Hsh as [S1 S2 (rt & Hrt & Hdt) S4 S5 S6].
    assert (forall t, is_Some (ranges h !! t) -> is_Some (<[leaf := with_divided true r]> (ranges h) !! t)) as Hdom.
    { intros t Ht. apply lookup_insert_is_Some'. by right. }
    split; simpl; [done|done| | | |].
    + rewrite lookup_insert. case_decide; [by eexists|by exists rt].
    + intros t rt' Ht. rewrite lookup_insert in Ht.
      assert (exists r0, ranges h !! t = Some r0 /\ hr_from rt' = hr_from r0 /\ hr_to rt' = hr_to r0 /\
        hr_parent rt' = hr_parent r0 /\ hr_level rt' = hr_level r0 /\
        (hr_isDivided rt' = true -> k * (hr_level r0 + 1) <= 64)) as (r0 & Hr0 & E1 & E2 & E3 & E4 & E5).
      { case_decide; [|exists rt'; split_and!; try done; apply (nd_deep _ _ _ _ (S4 _ _ Ht))]. subst t. injection Ht as <-. by exists r. }
      destruct (S4 _ _ Hr0) as [C1 C2 C3 C4 C5]. split; rewrite ?E1, ?E2, ?E3, ?E4; try done.
      destruct (hr_parent r0) as [p|]; [|done]. destruct C4 as (rp & Hrp & Hdp & Hlp & Hkp).
      destruct (decide (leaf = p)) as [->|Hne].
      * exists (with_divided true r). rewrite lookup_insert, decide_True by done.
        rewrite Hr in Hrp. injection Hrp as <-. done.
      * exists rp. by rewrite lookup_insert_ne.
    + intros t rt' t' Ht Hdv HE Ht'. apply Hdom. rewrite lookup_insert in Ht.
      case_decide; [set_solver|]. exact (S5 t rt' t' Ht Hdv (not_elem_of_nil _) Ht').
    + intros t Ht. apply Hdom. by apply S6.
  - intros t r0. rewrite lookup_insert. case_decide; [intros [= <-]; subst; exact (Hc _ _ Hr)|apply Hc].
  - intros t r0. rewrite lookup_insert. case_decide; [by intros [= <-]|]. intros Ht. apply (Hl _ _ Ht). congruence.
  - intros t r0. rewrite lookup_insert. case_decide; [by intros [= <-]|]. apply Ho.
  - intros t r0. rewrite lookup_insert. case_decide; [by intros [= <-]|]. apply He.
  - intros t r0. simpl. rewrite lookup_insert. case_decide; [intros [= <-]; subst; exact (Hv _ _ Hr)|apply Hv].
Qed.

(** What [addElement] does with the leaf. *)
Lemma settle_leaf X leaf l h r :
  tree_but X leaf l h -> sparse X l -> ranges h !! leaf = Some r -> hr_isDivided r = false ->
  exists h' s r', (if T <? hr_elements r then
      assigns (put_range leaf (with_divided true r)) ;; makeBottomRanges maxDepth l leaf
    else mret tt) h = (h', Ok tt) /\ tree_ok X [] l h' /\ is_Some (dirty h' !! s) /\ inside s leaf /\
    ranges h' !! leaf = Some r' /\ hr_parent r' = hr_parent r.
Proof.
  intros Hb Hsp Hr Hdiv. pose proof (tb_shape _ _ _ _ Hb) as Hsh.
  destruct (T <? hr_elements r) eqn:Hbig; cycle 1.
  - exists h, leaf, r. split_and!; [done| |apply Hb|lia|lia|done|done].
    destruct Hb as [_ Hc Hl Ho He Hv _]. split; [done|done| |done..].
    intros t r0 Ht Hd. destruct (decide (t = leaf)) as [->|]; [|by eapply Hl].
    rewrite Hr in Ht. injection Ht as <-. lia.
  - destruct (node_cell k T _ _ Hsh _ _ Hr) as [a Ha].
    assert (k * (hr_level r + 1) <= 64) as Hdeep.
    { destruct (Z_lt_le_dec 64 (k * (hr_level r + 1))) as [Hlt|]; [|done].
      specialize (Hsp _ _ _ Ha Hlt). pose proof (tb_over _ _ _ _ Hb _ _ Hr Hdiv). lia. }
    assert (forall t, t ∈ kids leaf -> ranges h !! t = None) as Habs.
    { intros t Ht. apply (absent_kids k T Hk _ _ _ _ _ _ Hsh Ha Hdeep Ht). intros r0 Hr0. congruence. }
    set (hd := put_range leaf (with_divided true r) h).
    assert (ranges hd !! leaf = Some (with_divided true r)) as Hld by (simpl; by rewrite lookup_insert, decide_True).
    destruct (makeBottomRanges_spec k T Hk HT X maxDepth l Hsp [] leaf _ hd (divided_ok _ _ _ _ _ Hb Hr Hdeep) Hld eq_refl)
      as (h' & Hmb & Hok & Hcut).
    { intros t Ht. simpl. rewrite lookup_insert_ne; [by apply Habs|]. intros <-. specialize (Habs _ Ht). congruence. }
    { pose proof (level_nonneg k T Hk _ _ Hsh _ _ Hr). unfold maxDepth. simpl in *. lia. }
    destruct (cu_dirty _ _ _ Hcut leaf) as (s & Hs & Hin); [apply Hb|].
    exists h', s, (with_divided true r). split_and!; [by erewrite st_bind_step|done|done|lia|lia| |done].
    by apply (cu_old _ _ _ Hcut).
Qed.

Lemma addElement_spec X fresh l l' x h :
  tree_ok X [] l h -> put_at fresh l x l' -> sparse (twice fresh x X) l' -> 0 <= x <= MaxUint64 ->
  exists h', addElement l' x h = (h', Ok tt) /\ tree_ok (twice fresh x X) [] l' h'.
Proof.
  intros Hok Hone Hsp Hx. pose proof (tr_shape _ _ _ _ _ _ Hok) as Hsh.
  destruct (sh_top _ _ _ _ Hsh) as (rt & Hrt & Hdt).
  destruct (node_cell k T _ _ Hsh _ _ Hrt) as [a0 Ha0].
  pose proof (cell_level k (proj1 Hk) _ _ _ _ _ Ha0 (cell_top k)) as Hl0.
  destruct (descend_spec k T Hk 1 x maxDepth topTuple rt h Hsh Hrt) as (m' & leaf & rl & Hrun & Hb & Hleaf & Hdl & Hxl);
    [done|unfold maxDepth; lia|]. rewrite Hl0 in Hb.
  destruct (walked X fresh l l' x h Hok Hone m' leaf rl Hb Hleaf Hdl Hxl) as [Hbut Hl1].
  unfold addElement. erewrite st_bind_step by exact Hrun. erewrite st_bind_step by done.
  set (h1 := mark_dirty leaf (set_ranges m' h)) in *. set (r1 := with_elements _ rl) in *.
  erewrite st_bind_step by (unfold range_at, calls; by rewrite Hl1). erewrite st_bind_step by done.
  rewrite (sh_threshold _ _ _ _ (tb_shape _ _ _ _ Hbut)).
  destruct (settle_leaf _ _ _ _ _ Hbut Hsp Hl1 Hdl) as (h2 & s & r2 & Hr2 & Hok2 & Hs & Hin & Hl2 & Hp2).
  erewrite st_bind_step by exact Hr2. destruct (hr_parent r1) as [p|] eqn:Hp; [|by exists h2].
  eexists. split; [done|]. by eapply unmark_parent.
Qed.

(** ** Recalculating the hashes *)

(** The new hash and count of a range: a range without parts is counted anew. *)
Definition rehash_ok l t r (hash : bytes) (els : Z) : Prop :=
  (hash = "" -> els = 0) /\ els = (if hr_isDivided r then hr_elements r else cnt l t).

Definition rehashed_entry (hash : bytes) (els : Z) r : hashRange := with_elements els (with_hash hash r).

Lemma rehash_run X l h t r :
  tree_ok X [] l h -> ranges h !! t = Some r ->
  exists hash els, rehash_ok l t r hash els /\
    (if hr_isDivided r then
       hash ← calcDividedHash r;
       assigns (put_range t (with_hash hash r))
     else
       let '(hash, els) := calcElementsHash l (hr_from r) (hr_to r) in
       assigns (put_range t (with_elements els (with_hash hash r)))) h =
    (put_range t (rehashed_entry hash els r) h, Ok tt).
Proof.
  intros Hok Hr. pose proof (tr_shape _ _ _ _ _ _ Hok) as Hsh. unfold rehash_ok.
  pose proof (sh_node _ _ _ _ Hsh _ _ Hr) as [_ Hf Ht _ _].
  destruct (hr_isDivided r) eqn:Hd.
  - destruct (res_map_total (fun t' => child ← opt_or (ranges h !! t') nilRange; Ok (hr_hash child)) (kids t))
      as [hashes Hh].
    { intros t' Ht'. destruct (sh_kids _ _ _ _ Hsh _ _ _ Hr Hd (not_elem_of_nil _) Ht') as [r' Hr'].
      exists (hr_hash r'). by rewrite Hr'. }
    eexists _, (hr_elements r). split; [split; [intros Hx; by apply blake3_nonempty in Hx|done]|].
    erewrite st_bind_step; [by unfold rehashed_entry, with_elements, with_hash; simpl|]. unfold calcDividedHash. erewrite st_bind_step by done.
    rewrite Hf, Ht, (sh_factor _ _ _ _ Hsh). erewrite st_bind_step; [done|]. unfold calls. by rewrite Hh.
  - unfold calcElementsHash. rewrite Hf, Ht. eexists _, (cnt l t). split; [split; [|done]|by unfold cnt].
    unfold cnt. case_decide as He; [by rewrite He|]. by intros ?%blake3_nonempty.
Qed.

(** The tree after a range was rehashed and its mark moved to its parent. *)
Definition rehashed t r (hash : bytes) (els : Z) h : hashRanges :=
  let h' := unmark_dirty t (put_range t (rehashed_entry hash els r) h) in
  match hr_parent r with
  | None => h'
  | Some p => mark_dirty p h'
  end.

Lemma recalculateRange_run X l h t r :
  tree_ok X [] l h -> ranges h !! t = Some r ->
  exists hash els, rehash_ok l t r hash els /\
    recalculateRange l t h = (rehashed t r hash els h, Ok tt).
Proof.
  intros Hok Hr. destruct (rehash_run _ _ _ _ _ Hok Hr) as (hash & els & Hz & Hrun). exists hash, els. split; [done|].
  unfold recalculateRange. erewrite st_bind_step by (unfold range_at, calls; by rewrite Hr).
  erewrite st_bind_step by exact Hrun. erewrite st_bind_step by done.
  unfold rehashed. by destruct (hr_parent r).
Qed.

Lemma rehashed_ranges t r hash els h : ranges (rehashed t r hash els h) = <[t := rehashed_entry hash els r]> (ranges h).
Proof. unfold rehashed. by destruct (hr_parent r). Qed.

Lemma rehashed_dirty t r hash els h s :
  is_Some (dirty (rehashed t r hash els h) !! s) <-> hr_parent r = Some s \/ (s <> t /\ is_Some (dirty h !! s)).
Proof.
  unfold rehashed. destruct (hr_parent r) as [p|]; simpl; rewrite ?lookup_insert_is_Some', lookup_delete_is_Some;
    naive_solver.
Qed.

Lemma rehashed_clean t r hash els h s :
  dirty (rehashed t r hash els h) !! s = None -> s <> t -> dirty h !! s = None.
Proof.
  intros Hn Hne. apply eq_None_not_Some. intros Hs. apply (eq_None_not_Some (dirty (rehashed t r hash els h) !! s)); [done|].
  apply rehashed_dirty. by right.
Qed.

Lemma rehashed_skeleton t r hash els h :
  ranges h !! t = Some r -> same_skeleton (ranges h) (ranges (rehashed t r hash els h)).
Proof.
  intros Hr s. rewrite rehashed_ranges, lookup_insert. case_decide; [subst|done]. by rewrite Hr.
Qed.

Lemma rehashed_ok X l h t r hash els :
  tree_ok X [] l h -> ranges h !! t = Some r -> rehash_ok l t r hash els ->
  tree_ok X [] l (rehashed t r hash els h).
Proof.
  intros Hok Hr [Hz Hels]. pose proof Hok as [Hsh Hc Hl Ho He Hv].
  assert (0 <= slack X t) as Hsl by (unfold slack; lia). split.
  - eapply shape_skeleton; [exact Hsh|by apply rehashed_skeleton|unfold rehashed; by destruct (hr_parent r)..|].
    intros s [Hp|[_ Hs]]%rehashed_dirty; [|by apply (sh_dirty _ _ _ _ Hsh)].
    destruct (parent_holds k T Hk _ _ Hsh _ _ _ Hr Hp) as (rp & -> & _). done.
  - intros s rs. rewrite rehashed_ranges, lookup_insert. case_decide; [intros [= <-]; subst s; simpl|apply Hc].
    specialize (Hc _ _ Hr). destruct (hr_isDivided r); lia.
  - intros s rs. rewrite rehashed_ranges, lookup_insert. case_decide; [intros [= <-] Hd; subst s; simpl in *|apply Hl].
    rewrite Hd in Hels. specialize (Hc _ _ Hr). specialize (Hl _ _ Hr Hd). lia.
  - intros s rs. rewrite rehashed_ranges, lookup_insert. case_decide; [intros [= <-] Hd; subst s; simpl in *|apply Ho].
    rewrite Hd in Hels. lia.
  - intros s rs. rewrite rehashed_ranges, lookup_insert. case_decide as Hs.
    + intros [= <-] Hd _. subst s. simpl in *. by rewrite Hd in Hels.
    + intros Hrs Hd Hn. apply (He _ _ Hrs Hd). by eapply rehashed_clean.
  - intros s rs. rewrite rehashed_ranges, lookup_insert.
    case_decide as Hs; [intros [= <-] Hh; subst; simpl in *; by rewrite (Hz Hh)|].
    intros Hrs Hh Hn. destruct (Hv _ _ Hrs Hh Hn) as (u & Hu & Hin).
    destruct (decide (u = t)) as [->|Hut]; [|exists u; rewrite rehashed_dirty; naive_solver].
    pose proof (inside_level _ _ _ _ _ _ Hsh Hrs Hr Hin Hs) as Hlev.
    destruct (hr_parent r) as [p|] eqn:Hp.
    + exists p. rewrite rehashed_dirty. split; [by left|].
      destruct (parent_holds k T Hk _ _ Hsh _ _ _ Hr Hp) as (rp & Hrp & _ & Hlp & _ & Hin' & _).
      destruct (node_cell k T _ _ Hsh _ _ Hr) as [a Ha].
      destruct (cell_bounds k (proj1 Hk) _ _ _ Ha) as (_ & ? & _).
      apply (nested_in [] h s rs p rp t.1 Hsh); [done|done|lia|lia|lia].
    + pose proof (nd_parent _ _ _ _ (sh_node _ _ _ _ Hsh _ _ Hr)) as Htop. rewrite Hp in Htop. subst t.
      destruct (node_cell k T _ _ Hsh _ _ Hr) as [a Ha].
      pose proof (cell_level k (proj1 Hk) _ _ _ _ _ Ha (cell_top k)).
      pose proof (level_nonneg k T Hk _ _ Hsh _ _ Hrs). lia.
Qed.

(** When nothing is dirty, what was counted twice is counted anew. *)
Lemma settled X l h : tree_ok X [] l h -> dirty h = ∅ -> tree_ok [] [] l h.
Proof.
  intros [Hsh Hc Hl Ho He Hv] Hd. split; try done. intros t r Hr Hdiv.
  rewrite (He _ _ Hr Hdiv) by (by rewrite Hd, lookup_empty). unfold slack. lia.
Qed.

Lemma skeleton_level m m' t r r' :
  same_skeleton m m' -> m !! t = Some r -> m' !! t = Some r' -> hr_level r' = hr_level r.
Proof. intros Hs H1' H2'. specialize (Hs t). rewrite H1', H2' in Hs. apply (inj Some) in Hs. by injection Hs. Qed.

(** One pass: what is dirty after it is above what was. *)
Lemma pass_spec X l ts h M :
  tree_ok X [] l h -> (forall t, t ∈ ts -> is_Some (ranges h !! t)) ->
  (forall t r, t ∈ ts -> ranges h !! t = Some r -> hr_level r <= M) ->
  (forall s, is_Some (dirty h !! s) -> s ∈ ts \/ levelOf h s < M) ->
  exists h', st_each (recalculateRange l) ts h = (h', Ok tt) /\ tree_ok X [] l h' /\
    (forall s, is_Some (dirty h' !! s) -> levelOf h' s < M).
Proof.
  revert h. induction ts as [|t ts IH]; intros h Hok Hin Hlev Hd.
  { exists h. split_and!; [done|done|]. intros s Hs. destruct (Hd s Hs) as [[]%not_elem_of_nil|]. done. }
  destruct (Hin t (list_elem_of_here _ _)) as [r Hr].
  destruct (recalculateRange_run _ _ _ _ _ Hok Hr) as (hash & els & Hz & Hrun).
  pose proof (rehashed_ok _ _ _ _ _ _ _ Hok Hr Hz) as Hok1.
  pose proof (rehashed_skeleton t r hash els h Hr) as Hsk. set (h1 := rehashed t r hash els h) in *.
  assert (forall s, levelOf h1 s = levelOf h s) as Hlv.
  { intros s. unfold levelOf. specialize (Hsk s). destruct (ranges h !! s), (ranges h1 !! s); try done.
    apply (inj Some) in Hsk. by injection Hsk. }
  assert (forall s, s ∈ ts -> is_Some (ranges h1 !! s)) as Hin1.
  { intros s Hs. unfold h1. rewrite rehashed_ranges. apply lookup_insert_is_Some'. right. apply Hin. by right. }
  destruct (IH h1 Hok1 Hin1) as (h' & Hrun' & Hok' & Hd').
  - intros s rs Hs Hrs. destruct (Hin s ltac:(by right)) as [rs0 Hrs0].
    rewrite (skeleton_level _ _ _ _ _ Hsk Hrs0 Hrs). apply (Hlev s); [by right|done].
  - intros s. unfold h1 at 1. rewrite rehashed_dirty. fold h1. rewrite Hlv. intros [Hp|[Hne Hs]].
    + right. destruct (parent_holds k T Hk _ _ (tr_shape _ _ _ _ _ _ Hok) _ _ _ Hr Hp) as (rp & Hrp & _ & Hlp & _).
      unfold levelOf. rewrite Hrp. specialize (Hlev t r (list_elem_of_here _ _) Hr). lia.
    + destruct (Hd s Hs) as [Hs'|]; [|by right]. left. apply elem_of_cons in Hs' as [|]; done.
  - exists h'. split_and!; [|done|done]. simpl. by erewrite st_bind_step.
Qed.

Lemma elem_of_dirtyByLevel h t : t ∈ dirtyByLevel h <-> is_Some (dirty h !! t).
Proof.
  unfold dirtyByLevel. rewrite merge_sort_Permutation, map_range_perm, list_elem_of_fmap. split.
  - intros ([t' []] & -> & Hin). apply elem_of_map_to_list in Hin. simpl. by rewrite Hin.
  - intros [[] Ht]. exists (t, tt). split; [done|]. by apply elem_of_map_to_list.
Qed.

(** The loop ends, with nothing dirty. *)
Lemma recalculateHashes_spec X l fuel h :
  tree_ok X [] l h -> (forall s, is_Some (dirty h !! s) -> levelOf h s < Z.of_nat fuel) ->
  exists h', recalculateHashes fuel l h = (h', Ok tt) /\ tree_ok X [] l h' /\ dirty h' = ∅.
Proof.
  revert h. induction fuel as [|fuel IH]; intros h Hok Hd; simpl.
  all: erewrite st_bind_step by done.
  all: pose proof (elem_of_dirtyByLevel h) as Hel.
  all: destruct (dirtyByLevel h) as [|t ts] eqn:Hts.
  1, 3: exists h; split_and!; [done|done|]; apply map_eq; intros s; rewrite lookup_empty;
    destruct (dirty h !! s) eqn:Hs; [|done]; exfalso; eapply not_elem_of_nil; apply Hel; by eexists.
  - assert (is_Some (dirty h !! t)) as Ht by (apply Hel; by left). specialize (Hd _ Ht).
    destruct (sh_dirty _ _ _ _ (tr_shape _ _ _ _ _ _ Hok) _ Ht) as [r Hr]. unfold levelOf in Hd. rewrite Hr in Hd.
    pose proof (level_nonneg k T Hk _ _ (tr_shape _ _ _ _ _ _ Hok) _ _ Hr). lia.
  - destruct (pass_spec X l (t :: ts) h (Z.of_nat fuel) Hok) as (h1 & Hrun & Hok1 & Hd1).
    + intros s Hs. apply Hel in Hs. by apply (sh_dirty _ _ _ _ (tr_shape _ _ _ _ _ _ Hok)).
    + intros s r Hs Hr. apply Hel, Hd in Hs. unfold levelOf in Hs. rewrite Hr in Hs. lia.
    + intros s Hs. left. by apply Hel.
    + erewrite st_bind_step by exact Hrun. by apply IH.
Qed.
End keep.

(** * Containers made by [New] and filled by [Set] with new ids are up to date, so that
    the exchange between two of them finds their difference. *)

Section fresh.
Context `{SkipListLaws} `{DiffHashes} `{!DigestLaws} `{MapRange}.
Variables (k T : Z).
Hypothesis Hk : 1 <= k <= 64.
Hypothesis HT : 1 <= T.

Implicit Types (t : rangeTuple) (els : list Element) (l : list element) (d : diff).

(** The elements whose hashes are in a range. *)
Definition hashed_in t (e : Element) : Prop := t.1 <= xxhash_Sum64 (el_Id e) <= t.2.
#[global] Instance hashed_in_dec t e : Decision (hashed_in t e).
Proof. unfold hashed_in. apply _. Defined.

(** No range too narrow to be cut is hit by more elements than the threshold. *)
Definition spread els : Prop := forall t n a, isCell k t n a -> 64 < k * (n + 1) ->
  Z.of_nat (length (filter (hashed_in t) els)) <= T.

(** Elements with different, storable ids. *)
Definition distinct els : Prop := NoDup (el_Id <$> els) /\ Forall (fun e => storable (el_Id e)) els.

(** A container with the elements [els]; [X]: what was replaced since the hashes were last
    recalculated. *)
Record built X els d : Prop := mkBuilt {
  bu_sl : sl_ok (d_sl d);
  bu_els : el_Element <$> d_sl d ≡ₚ els;
  bu_factor : d_divideFactor d = 2 ^ k;
  bu_threshold : d_compareThreshold d = T;
  bu_tree : tree_ok k T X [] (d_sl d) (d_ranges d);
}.

Lemma cnt_elements l els t :
  sl_ok l -> el_Element <$> l ≡ₚ els -> cnt l t = Z.of_nat (length (filter (hashed_in t) els)).
Proof.
  intros Hok Hp. unfold cnt. rewrite rangeElements_filter by done. rewrite <- Hp, !length_fmap.
  f_equal. destruct Hok as [_ Hkeys]. clear Hp. induction l as [|e l IH]; [done|].
  inversion_clear Hkeys as [|? ? [Hh _] Hrest]. csimpl. rewrite !filter_cons.
  assert (hashed_in t (el_Element e) <-> t.1 <= el_hash e <= t.2) as Hiff by (unfold hashed_in; by rewrite Hh).
  repeat case_decide; simpl; rewrite ?IH by done; tauto.
Qed.

(** The number of elements in a range. *)
Definition num els t : Z := Z.of_nat (length (filter (hashed_in t) els)).

Lemma num_app els els' t : num (els ++ els') t = num els t + num els' t.
Proof. unfold num. rewrite filter_app, length_app. lia. Qed.

Lemma spread_prefix els rest : spread (els ++ rest) -> spread els.
Proof. intros Hs t n a Hc Hd. specialize (Hs t n a Hc Hd). rewrite filter_app, length_app in Hs. lia. Qed.

Lemma sparse_spread X l els all : sl_ok l -> el_Element <$> l ≡ₚ els ->
  (forall t, num els t + slack X t <= num all t) -> spread all -> sparse k T X l.
Proof.
  intros Hok Hp Hall Hs t n a Hc Hd. rewrite (cnt_elements _ _ _ Hok Hp). specialize (Hs t n a Hc Hd).
  specialize (Hall t). unfold num in *. lia.
Qed.

(** The elements after one was set: it replaces the one with its id. *)
Definition update els (e : Element) : list Element := filter (fun y => el_Id y <> el_Id e) els ++ [e].

Lemma update_distinct els e : distinct els -> storable (el_Id e) -> distinct (update els e).
Proof.
  intros [Hnd Hst] He. unfold update. split.
  - rewrite fmap_app. apply NoDup_app. split_and!; [| |apply NoDup_singleton].
    + eapply sublist_NoDup; [exact Hnd|]. apply fmap_sublist, sublist_filter.
    + intros id (y & -> & [Hne _]%list_elem_of_filter)%list_elem_of_fmap Hin. apply list_elem_of_singleton in Hin. done.
  - apply Forall_app. split; [|by constructor]. rewrite Forall_forall in *. intros y [_ Hy]%list_elem_of_filter. by apply Hst.
Qed.

Lemma num_filter_id els id t : NoDup (el_Id <$> els) ->
  num (filter (fun y => el_Id y <> id) els) t = num els t -
    (if decide (id ∈ el_Id <$> els) then (if decide (t.1 <= xxhash_Sum64 id <= t.2) then 1 else 0) else 0).
Proof.
  intros Hnd. induction els as [|y els IH]; [done|]. rewrite fmap_cons in *.
  apply NoDup_cons in Hnd as [Hn Hnd]. specialize (IH Hnd). unfold num in *. rewrite !filter_cons.
  destruct (decide (el_Id y <> id)) as [Hne|Heq%dec_stable].
  - rewrite filter_cons. destruct (decide (id ∈ el_Id y :: (el_Id <$> els))) as [Hin|Hout].
    + apply elem_of_cons in Hin as [->|Hin]; [done|]. rewrite decide_True in IH by done.
      destruct (decide (hashed_in t y)); cbn [length]; lia.
    + rewrite decide_False in IH by (intros Hin; apply Hout; by right). destruct (decide (hashed_in t y)); cbn [length]; lia.
  - subst id. rewrite decide_False in IH by done. rewrite (decide_True (P := el_Id y ∈ _)) by left.
    assert (hashed_in t y <-> t.1 <= xxhash_Sum64 (el_Id y) <= t.2) as Hiff by done.
    repeat case_decide; cbn [length]; (lia || tauto).
Qed.

Lemma num_one e t : num [e] t = if decide (t.1 <= xxhash_Sum64 (el_Id e) <= t.2) then 1 else 0.
Proof.
  unfold num. rewrite filter_cons, filter_nil. assert (hashed_in t e <-> t.1 <= xxhash_Sum64 (el_Id e) <= t.2) as Hiff by done.
  repeat case_decide; (done || tauto).
Qed.

Lemma num_update els e t : NoDup (el_Id <$> els) ->
  num (update els e) t = num els t +
    (if decide (t.1 <= xxhash_Sum64 (el_Id e) <= t.2) then (if decide (el_Id e ∈ el_Id <$> els) then 0 else 1) else 0).
Proof.
  intros Hnd. unfold update. rewrite num_app, num_filter_id, num_one by done. repeat case_decide; lia.
Qed.

(** Putting an element, with a new id or one that is there. *)
Lemma put_any e els l :
  sl_ok l -> el_Element <$> l ≡ₚ els -> distinct els -> storable (el_Id e) ->
  let l' := sl_put (keyOf (el_Id e) (el_Head e)) l in
  sl_ok l' /\ el_Element <$> l' ≡ₚ update els e /\
  put_at (bool_decide (el_Id e ∉ el_Id <$> els)) l (xxhash_Sum64 (el_Id e)) l'.
Proof.
  intros Hok Hp [Hnd Hst] [Hne Hb] l'.
  destruct (sl_put_ok (keyOf (el_Id e) (el_Head e)) l Hok) as [Hok' Hp']; [by split|].
  assert (el_Element <$> l' ≡ₚ update els e) as Hpl.
  { unfold l'. rewrite Hp'. csimpl. unfold update. rewrite <- Hp, Permutation_app_comm. simpl.
    replace (mkElement (el_Id e) (el_Head e)) with e by (by destruct e). constructor. apply reflexive_eq.
    clear. induction l as [|x l IH]; csimpl; [done|]. rewrite !filter_cons.
    assert (Compare x (keyOf (el_Id e) (el_Head e)) <> 0 <-> el_Id (el_Element x) <> el_Id e) as Hiff.
    { pose proof (Compare_eq x (keyOf (el_Id e) (el_Head e))) as Hc. cbn in Hc. tauto. }
    repeat case_decide; csimpl; rewrite ?IH; tauto. }
  split_and!; [done|done|]. intros t _ _.
  rewrite (cnt_elements _ _ _ Hok' Hpl), (cnt_elements _ _ _ Hok Hp).
  change (num (update els e) t = num els t + (if decide (t.1 <= xxhash_Sum64 (el_Id e) <= t.2)
    then (if bool_decide (el_Id e ∉ el_Id <$> els) then 1 else 0) else 0)).
  rewrite num_update by done. destruct (decide (el_Id e ∈ el_Id <$> els)).
  - by rewrite bool_decide_eq_false_2 by tauto.
  - by rewrite bool_decide_eq_true_2 by done.
Qed.

Lemma onRanges_run {A} (f : list element -> ST hashRanges A) d h a :
  f (d_sl d) (d_ranges d) = (h, Ok a) ->
  onRanges f d = (mkDiff (d_sl d) (d_divideFactor d) (d_compareThreshold d) h, Ok a).
Proof. unfold onRanges. by intros ->. Qed.

(** The loop of [Set]: every element is one more, or one that is counted twice. *)
Lemma set_loop new X els all d :
  built X els d -> distinct els -> Forall (fun e => storable (el_Id e)) new ->
  (forall t, num els t + slack X t <= num all t) -> spread (all ++ new) ->
  exists d' X', st_each (fun e =>
      let el := keyOf (el_Id e) (el_Head e) in
      assigns (fun d => set_sl (sl_Set el (fst (sl_Remove el (d_sl d)))) d) ;;
      onRanges (fun sl => addElement sl (el_hash el))) new d = (d', Ok tt) /\
    built X' (foldl update els new) d'.
Proof.
  revert X els all d. induction new as [|e new IH]; intros X els all d Hb Hdis Hst Hall Hs; [by exists d, X|].
  rewrite cons_middle, app_assoc in Hs. apply Forall_cons in Hst as [He Hst]. pose proof He as [_ Hx].
  destruct Hb as [Hok Hp Hf Hth Ht].
  destruct (put_any e els (d_sl d) Hok Hp Hdis He) as (Hok' & Hp' & Hone).
  set (l' := sl_put _ _) in *. set (fresh := bool_decide _) in *.
  assert (forall t, num (update els e) t + slack (twice fresh (xxhash_Sum64 (el_Id e)) X) t <= num (all ++ [e]) t) as Hall'.
  { intros t. specialize (Hall t). rewrite num_update, slack_twice, num_app, num_one by apply Hdis. subst fresh.
    destruct (decide (t.1 <= xxhash_Sum64 (el_Id e) <= t.2)); [|lia].
    destruct (decide (el_Id e ∈ el_Id <$> els)); [rewrite bool_decide_eq_false_2 by tauto|rewrite bool_decide_eq_true_2 by done]; lia. }
  pose proof (sparse_spread _ _ _ _ Hok' Hp' Hall' (spread_prefix _ _ Hs)) as Hsp.
  destruct (addElement_spec k T Hk HT _ _ _ _ _ _ Ht Hone Hsp Hx) as (h' & Hrun & Ht').
  set (d1 := mkDiff l' (d_divideFactor d) (d_compareThreshold d) h').
  destruct (IH (twice fresh (xxhash_Sum64 (el_Id e)) X) (update els e) (all ++ [e]) d1) as (d' & X' & Hrest & Hb');
    [split; [exact Hok'|exact Hp'|done|done|exact Ht']|by apply update_distinct|done|done|done|].
  exists d', X'. split; [|done]. simpl.
  erewrite st_bind_step; [exact Hrest|]. erewrite st_bind_step by done.
  exact (onRanges_run (fun sl => addElement sl (xxhash_Sum64 (el_Id e))) (set_sl l' d) h' tt Hrun).
Qed.

(** Every dirty range is within the 64 levels the loop has passes for. *)
Lemma recalculate_all X l h :
  tree_ok k T X [] l h ->
  exists h', recalculateHashes (2 * maxDepth) l h = (h', Ok tt) /\ tree_ok k T [] [] l h' /\ dirty h' = ∅.
Proof.
  intros Hok. destruct (recalculateHashes_spec k T Hk X l (2 * maxDepth) h Hok) as (h' & Hrun & Hok' & Hd); cycle 1.
  { exists h'. split_and!; [done|by eapply settled|done]. }
  intros s Hs. destruct (sh_dirty _ _ _ _ (tr_shape _ _ _ _ _ _ Hok) _ Hs) as [r Hr].
  pose proof (level_nonneg k T Hk _ _ (tr_shape _ _ _ _ _ _ Hok) _ _ Hr). unfold levelOf, maxDepth.
  rewrite Hr. lia.
Qed.

(** [Set] succeeds and keeps the container up to date, whether the ids are new or there. *)
Lemma Set_built new els d :
  built [] els d -> distinct els -> Forall (fun e => storable (el_Id e)) new -> spread (els ++ new) ->
  exists d', Set_ new d = (d', Ok tt) /\ built [] (foldl update els new) d' /\ dirty (d_ranges d') = ∅.
Proof.
  intros Hb Hd Hst Hs. destruct (set_loop new [] els els d Hb Hd Hst) as (d1 & X & Hrun & Hb1); [|done|].
  { intros t. unfold slack. simpl. lia. }
  destruct Hb1 as [Hok Hp Hf Hth Ht]. destruct (recalculate_all _ _ _ Ht) as (h' & Hrec & Ht' & Hempty).
  eexists. split; [|split].
  - unfold Set_. erewrite st_bind_step by exact Hrun. by apply onRanges_run.
  - by split.
  - done.
Qed.

Lemma updates_fresh new els : distinct (els ++ new) -> foldl update els new = els ++ new.
Proof.
  revert els. induction new as [|e new IH]; intros els Hd; [by rewrite app_nil_r|]. simpl.
  assert (update els e = els ++ [e]) as ->; [|rewrite cons_middle, app_assoc in Hd; by rewrite IH, <- app_assoc].
  unfold update. rewrite filter_all; [done|]. apply Forall_forall. intros y Hy Heq. destruct Hd as [Hnd _].
  rewrite fmap_app, NoDup_app in Hnd. destruct Hnd as (_ & Hdis & _).
  apply (Hdis (el_Id y)); [by apply list_elem_of_fmap_2|]. rewrite Heq. csimpl. by left.
Qed.

Lemma Set_fresh new els d :
  built [] els d -> distinct (els ++ new) -> spread (els ++ new) ->
  exists d', Set_ new d = (d', Ok tt) /\ built [] (els ++ new) d' /\ dirty (d_ranges d') = ∅.
Proof.
  intros Hb Hd Hs. rewrite <- (updates_fresh new els Hd). apply Set_built; [done| |by destruct Hd as [_ [_ ?]%Forall_app]|done].
  destruct Hd as [Hnd Hst]. rewrite fmap_app in Hnd. apply NoDup_app in Hnd as [? _]. apply Forall_app in Hst as [? _]. done.
Qed.

(** ** A new container *)

Lemma empty_list_ok : sl_ok [].
Proof. split; constructor. Qed.

Lemma cnt_nil t : cnt [] t = 0.
Proof. by rewrite (cnt_elements [] [] t empty_list_ok). Qed.

Lemma first_tree_ok :
  tree_ok k T [] [topTuple] [] (mkHashRanges {[ topTuple := mkHashRange 0 MaxUint64 None true 0 0 "" ]} ∅ (2 ^ k) T).
Proof.
  assert (forall t r, ({[ topTuple := mkHashRange 0 MaxUint64 None true 0 0 "" ]} : gmap rangeTuple hashRange) !! t = Some r ->
    t = topTuple /\ r = mkHashRange 0 MaxUint64 None true 0 0 "") as Honly.
  { intros t r Ht. apply lookup_singleton_Some in Ht as [<- <-]. done. }
  split; simpl.
  - split; simpl; [done|done| | | |].
    + eexists. by rewrite lookup_singleton, decide_True.
    + intros t r [-> ->]%Honly. split; simpl; try done; [|lia]. exists 0. apply cell_top.
    + intros t r t' [-> ->]%Honly _ HE. set_solver.
    + intros t. rewrite lookup_empty. by intros [? ?].
  - intros t r [-> ->]%Honly. by rewrite cnt_nil.
  - by intros t r [-> ->]%Honly.
  - by intros t r [-> ->]%Honly.
  - by intros t r [-> ->]%Honly.
  - by intros t r [-> ->]%Honly.
Qed.

Lemma runs_run {S A} (m : ST S A) (s s' : S) a : m s = (s', Ok a) -> runs m s = Ok s'.
Proof. unfold runs. by intros ->. Qed.

Lemma spread_nil : spread [].
Proof. intros t n a _ _. rewrite filter_nil. simpl. lia. Qed.

Lemma mark_top_ok l h : tree_ok k T [] [] l h -> tree_ok k T [] [] l (mark_dirty topTuple h).
Proof.
  intros [[S1 S2 S3 S4 S5 S6] Hc Hl Ho He Hv]. split; try done.
  - split; try done. simpl. intros t [<-|Ht]%lookup_insert_is_Some'; [|by apply S6].
    destruct S3 as (r & Hr & _). by eexists.
  - intros t r Hr Hd Hn. simpl in Hn. apply lookup_insert_None in Hn as [Hn _]. by apply He.
  - intros t r Hr Hh Hz. destruct (Hv t r Hr Hh Hz) as (s & Hs & Hin). exists s. split; [|done].
    simpl. apply lookup_insert_is_Some'. by right.
Qed.

Lemma newDiff_built : exists d, newDiff (2 ^ k) T = Ok d /\ built [] [] d /\ dirty (d_ranges d) = ∅.
Proof.
  assert (2 <= 2 ^ k) as H2k by (pose proof (Z.pow_le_mono_r 2 1 k); lia).
  unfold newDiff, newHashRanges. rewrite (proj2 (Z.ltb_ge _ _) H2k), (proj2 (Z.ltb_ge _ _) HT).
  destruct (makeBottomRanges_spec k T Hk HT [] maxDepth [] (sparse_spread [] [] [] [] empty_list_ok (Permutation_refl _) (fun _ => Z.le_refl _) spread_nil)
    [] topTuple _ _ first_tree_ok (lookup_singleton_eq _ _) eq_refl) as (h & Hrun & Hok & _).
  { intros t' Ht'. simpl. apply lookup_singleton_ne. intros <-.
    destruct (genTupleRanges_within _ _ _ _ (cell_cuttable k (proj1 Hk) _ _ _ (cell_top k) ltac:(lia)) Ht')
      as (_ & _ & _ & Hn). unfold topTuple, MaxUint64 in Hn. simpl in Hn. lia. }
  { unfold maxDepth. simpl. lia. }
  destruct (recalculate_all _ _ _ (mark_top_ok _ _ Hok)) as (h' & Hrec & Ht' & Hempty).
  eexists. rewrite (runs_run _ _ _ _ Hrun). split.
  { unfold mbind at 1, res_bind. rewrite (runs_run _ _ _ _ Hrec). done. }
  split; [|done]. split; simpl; try done. apply empty_list_ok.
Qed.

(** ** Up to date *)

Lemma built_container els d : built [] els d -> dirty (d_ranges d) = ∅ -> container_ok d.
Proof.
  intros [Hok Hp Hf Hth Ht] Hdirty. destruct Ht as [Hsh Hc Hl Ho He Hv].
  assert (2 <= 2 ^ k) as H2k by (pose proof (Z.pow_le_mono_r 2 1 k); lia). split.
  - done.
  - lia.
  - lia.
  - destruct (sh_top _ _ _ _ Hsh) as (r & Hr & _). by eexists.
  - intros t r Hr. specialize (Hc _ _ Hr). split; [exact Hc|]. intros Hh. destruct (Z.eq_dec (hr_elements r) 0) as [Hz|Hz].
    + unfold cnt, countIn in *. lia.
    + destruct (Hv t r Hr Hh Hz) as (s & Hs & _). rewrite Hdirty, lookup_empty in Hs. by destruct Hs.
  - intros t r Hr Hlt. rewrite Hth in Hlt. rewrite Hf.
    destruct (hr_isDivided r) eqn:Hd; [|specialize (Hl _ _ Hr Hd); lia].
    destruct (node_cell k T _ _ Hsh _ _ Hr) as [a Ha].
    pose proof (nd_deep _ _ _ _ (sh_node _ _ _ _ Hsh _ _ Hr) Hd) as Hdeep. split.
    + apply (cut_wide _ _ _ (cell_cuttable k (proj1 Hk) _ _ _ Ha Hdeep)).
    + apply Forall_forall. intros t' Ht'. apply (sh_kids _ _ _ _ Hsh _ _ _ Hr Hd (not_elem_of_nil _) Ht').
Qed.

Lemma built_contents els d : distinct els -> built [] els d -> contents d = toMap els.
Proof.
  intros [Hnd _] [Hok Hp _ _ _]. apply map_eq. intros id. apply option_eq. intros hd. unfold contents, Elements.
  rewrite !toMap_Some; [by rewrite Hp|done|]. by rewrite Hp.
Qed.

Lemma sets_built batches els d :
  built [] els d -> dirty (d_ranges d) = ∅ -> distinct (els ++ concat batches) -> spread (els ++ concat batches) ->
  exists d', st_each Set_ batches d = (d', Ok tt) /\ built [] (els ++ concat batches) d' /\ dirty (d_ranges d') = ∅.
Proof.
  revert els d. induction batches as [|b batches IH]; intros els d Hb Hd Hdis Hs; csimpl in *.
  { exists d. rewrite app_nil_r. done. }
  rewrite app_assoc in Hdis, Hs.
  assert (distinct (els ++ b)) as Hdb.
  { destruct Hdis as [Hnd Hst]. rewrite fmap_app in Hnd. apply NoDup_app in Hnd as [? _].
    apply Forall_app in Hst as [? _]. done. }
  destruct (Set_fresh b els d Hb Hdb (spread_prefix _ _ Hs)) as (d1 & Hrun & Hb1 & Hd1).
  destruct (IH (els ++ b) d1 Hb1 Hd1 Hdis Hs) as (d' & Hrest & Hb' & Hd').
  exists d'. rewrite app_assoc. split; [|done]. by erewrite st_bind_step.
Qed.

Lemma updates_distinct new els : distinct els -> Forall (fun e => storable (el_Id e)) new -> distinct (foldl update els new).
Proof.
  intros Hd Hst. revert els Hd. induction Hst as [|e new He _ IH]; intros els Hd; [done|]. by apply IH, update_distinct.
Qed.

(** Containers made by [New] and then set any elements any number of times, each call with
    few elements in the ranges too narrow to be cut. *)
Inductive grown : list Element -> diff -> Prop :=
| grown_new d : newDiff (2 ^ k) T = Ok d -> grown [] d
| grown_set els d new d' : grown els d -> Forall (fun e => storable (el_Id e)) new -> spread (els ++ new) ->
    Set_ new d = (d', Ok tt) -> grown (foldl update els new) d'.

Lemma grown_built els d : grown els d -> built [] els d /\ distinct els /\ dirty (d_ranges d) = ∅.
Proof.
  induction 1 as [d Hnew|els d new d' _ (Hb & Hd & _) Hst Hs Hset].
  - destruct newDiff_built as (d0 & Hnew' & Hb & Hd). rewrite Hnew in Hnew'. injection Hnew' as <-.
    split_and!; [done| |done]. split; constructor.
  - destruct (Set_built new els d Hb Hd Hst Hs) as (d1 & Hset' & Hb' & Hd'). rewrite Hset in Hset'. injection Hset' as <-.
    split_and!; [done|by apply updates_distinct|done].
Qed.

(** They are up to date. *)
Lemma grown_container els d : grown els d -> container_ok d.
Proof. intros (Hb & _ & Hd)%grown_built. by eapply built_container. Qed.
End fresh.

(** A client's use of a container: [New], then [Set] for every batch of elements. *)
Definition filled `{SkipList} `{DiffHashes} `{MapRange} (divideFactor compareThreshold : Z)
    (batches : list (list Element)) : res diff :=
  d ← newDiff divideFactor compareThreshold;
  runs (st_each Set_ batches) d.

Section synced.
Context `{SkipListLaws} `{DiffHashes} `{!DigestLaws} `{MapRange}.

Lemma filled_built k T batches :
  1 <= k <= 64 -> 1 <= T -> distinct (concat batches) -> spread k T (concat batches) ->
  exists d, filled (2 ^ k) T batches = Ok d /\ built k T [] (concat batches) d /\ dirty (d_ranges d) = ∅.
Proof.
  intros Hk HT Hdis Hs. destruct (newDiff_built k T Hk HT) as (d0 & Hnew & Hb & Hd).
  destruct (sets_built k T Hk HT batches [] d0 Hb Hd Hdis Hs) as (d & Hrun & Hb' & Hd').
  exists d. split; [|done]. unfold filled. rewrite Hnew. unfold mbind, res_bind. by eapply runs_run.
Qed.

(** The cells that halving cannot cut are single hashes. *)
Lemma narrow_cell t n a : isCell 1 t n a -> 64 < 1 * (n + 1) -> t.1 = t.2.
Proof.
  intros Hc Hd. destruct (cell_bounds 1 ltac:(lia) _ _ _ Hc) as (_ & _ & _ & HW).
  destruct Hc as [_ Hdeep _ _ _]. assert (n = 64) as -> by lia. unfold W in HW. simpl in HW. lia.
Qed.

(** With different hashes, elements are spread. *)
Lemma spread_distinct els :
  NoDup (xxhash_Sum64 <$> (el_Id <$> els)) -> spread 1 1 els.
Proof.
  intros Hnd t n a Hc Hd. pose proof (narrow_cell _ _ _ Hc Hd) as Ht.
  destruct (filter (hashed_in t) els) as [|e1 [|e2 rest]] eqn:Hf; [simpl; lia..|exfalso].
  assert (NoDup ((fun e => xxhash_Sum64 (el_Id e)) <$> filter (hashed_in t) els)) as Hnd'.
  { eapply sublist_NoDup; [rewrite <- list_fmap_compose in Hnd; exact Hnd|]. apply fmap_sublist, sublist_filter. }
  assert (forall e, e ∈ filter (hashed_in t) els -> xxhash_Sum64 (el_Id e) = t.1) as Hall.
  { intros e [Hin _]%list_elem_of_filter. unfold hashed_in in Hin. lia. }
  rewrite Hf in Hnd', Hall. csimpl in Hnd'. apply NoDup_cons in Hnd' as [Hno _]. apply Hno.
  rewrite (Hall e1), <- (Hall e2); [by left|by right; left|by left].
Qed.

(** Containers filled by [Set] find their difference.  [New] with a divide factor that
    is a power of two and [Set] of batches of elements with new ids always succeed; the
    contents are the elements set and no range is left dirty; and between two containers
    filled like this, when no two different ranges have the same hash, [Diff] ends within
    66 rounds and returns exactly the new and the changed ids. *)
Theorem ldiff_filled_diff k T batches1 batches2 :
  1 <= k <= 64 -> 1 <= T ->
  distinct (concat batches1) -> spread k T (concat batches1) ->
  distinct (concat batches2) -> spread k T (concat batches2) ->
  exists d1 d2, filled (2 ^ k) T batches1 = Ok d1 /\ filled (2 ^ k) T batches2 = Ok d2 /\
    contents d1 = toMap (concat batches1) /\ contents d2 = toMap (concat batches2) /\
    hrs_dirty (d_ranges d1) = ∅ /\
    (no_collision d1 d2 -> exists news changed removed,
      Diff 66 (fun _ => None) d1 (Ranges d2) = Ok (news, changed, removed) /\
      (forall id, id ∈ news <-> is_Some (contents d2 !! id) /\ contents d1 !! id = None) /\
      (forall id, id ∈ changed <-> exists h h', contents d1 !! id = Some h /\
         contents d2 !! id = Some h' /\ h <> h') /\
      (forall id, id ∈ removed -> is_Some (contents d1 !! id) /\ contents d2 !! id = None)).
Proof.
  intros Hk HT Hd1 Hs1 Hd2 Hs2.
  destruct (filled_built k T batches1 Hk HT Hd1 Hs1) as (d1 & Hrun1 & Hb1 & He1).
  destruct (filled_built k T batches2 Hk HT Hd2 Hs2) as (d2 & Hrun2 & Hb2 & He2).
  exists d1, d2. split_and!; [done|done|by eapply built_contents|by eapply built_contents|done|].
  intros Hcol. apply (Diff_ok d1 (getRange d2) (contents d1) (contents d2)).
  apply exchange_containers; [by eapply built_container|by eapply built_container|done| |].
  - by rewrite (bu_factor _ _ _ _ _ Hb1), (bu_factor _ _ _ _ _ Hb2).
  - by rewrite (bu_threshold _ _ _ _ _ Hb1), (bu_threshold _ _ _ _ _ Hb2).
Qed.
End synced.

(** ** A concrete run *)

#[local] Instance letter_digest : DigestLaws.
Proof. split. done. Qed.

Lemma ldiff_filled_diff_witness :
  let ours := [[mkElement "a" "1"; mkElement "b" "1"]; [mkElement "k" "1"]] in
  let theirs := [[mkElement "b" "2"]; [mkElement "e" "1"; mkElement "k" "1"]] in
  exists d1 d2, filled (2 ^ 1) 1 ours = Ok d1 /\ filled (2 ^ 1) 1 theirs = Ok d2 /\
    contents d1 = toMap (concat ours) /\ contents d2 = toMap (concat theirs) /\
    hrs_dirty (d_ranges d1) = ∅ /\
    (no_collision d1 d2 -> exists news changed removed,
      Diff 66 (fun _ => None) d1 (Ranges d2) = Ok (news, changed, removed) /\
      (forall id, id ∈ news <-> is_Some (contents d2 !! id) /\ contents d1 !! id = None) /\
      (forall id, id ∈ changed <-> exists h h', contents d1 !! id = Some h /\
         contents d2 !! id = Some h' /\ h <> h') /\
      (forall id, id ∈ removed -> is_Some (contents d1 !! id) /\ contents d2 !! id = None)).
Proof.
  cbv zeta. apply ldiff_filled_diff; [lia|lia| | | |].
  1, 3: split; [apply (bool_decide_unpack _); vm_compute; exact I|repeat constructor; vm_compute; congruence].
  all: apply spread_distinct; apply (bool_decide_unpack _); vm_compute; exact I.
Defined.
