(* ===== verification/LdiffCompare.v ===== *)
(** The directed comparison of src/app/ldiff ([CompareDiff] of diff.go): the exchange is the
    one of [Diff], and an id with two heads is sorted by the side that has the greater
    head. *)

From Stdlib Require Import ZArith Lia String.
From stdpp Require Import base option list gmap strings.
From S2P Require Import Prelude Ldiff LdiffRanges LdiffExchange LdiffMain.

Local Open Scope Z_scope.

Lemma ltb_irrefl (a : string) : String.ltb a a = false.
Proof.
  unfold String.ltb. assert (String.compare a a = Eq) as ->; [|done].
  induction a as [|x a IH]; [done|]. simpl. unfold Ascii.compare. by rewrite N.compare_refl.
Qed.

Lemma findElement_toMap l id :
  NoDup (el_Id <$> l) -> findElement l id = (fun h => mkElement id h) <$> toMap l !! id.
Proof.
  intros Hnd. destruct (findElement l id) as [e|] eqn:Hf.
  - assert (e ∈ l /\ el_Id e = id) as [Hin <-].
    { clear Hnd. induction l as [|x l IH]; [done|]. simpl in Hf. case_decide.
      - injection Hf as <-. split; [by left|done].
      - destruct (IH Hf). split; [by right|done]. }
    assert (toMap l !! el_Id e = Some (el_Head e)) as ->; [|by destruct e].
    apply toMap_Some; [done|]. by destruct e.
  - assert (toMap l !! id = None) as ->; [|done]. apply toMap_None. clear Hnd.
    induction l as [|x l IH]; [apply not_elem_of_nil|]. simpl in Hf. case_decide; [done|].
    rewrite fmap_cons, not_elem_of_cons. auto.
Qed.

Section compare.
Context `{SkipList} `{DiffHashes}.
Variables (d : diff) (otR : Range -> RangeResult) (mine theirs : heads).
Hypothesis Hex : exchange_ok d otR mine theirs.
Implicit Types (c g : diffCtx) (id : string).

(** The side with the greater head. *)
Definition ours_greater id : Prop :=
  exists h h', mine !! id = Some h /\ theirs !! id = Some h' /\ h <> h' /\ String.ltb h h' = false.
Definition theirs_greater id : Prop :=
  exists h h', mine !! id = Some h /\ theirs !! id = Some h' /\ String.ltb h h' = true.

(** [g] is [c] with the changed ids sorted by side. *)
Record splits c g : Prop := mkSplits {
  sp_new : dc_newIds g = dc_newIds c;
  sp_removed : dc_removedIds g = dc_removedIds c;
  sp_prepare : dc_prepare g = dc_prepare c;
  sp_changed id : id ∈ dc_changedIds c <-> id ∈ dc_changedIds g \/ id ∈ dc_theirChangedIds g;
  sp_ours id : id ∈ dc_changedIds g -> ours_greater id;
  sp_theirs id : id ∈ dc_theirChangedIds g -> theirs_greater id;
}.

Lemma splits_mine my other c g :
  NoDup (el_Id <$> other) ->
  (forall id h, toMap other !! id = Some h -> theirs !! id = Some h) ->
  Forall (fun e => mine !! el_Id e = Some (el_Head e)) my -> splits c g ->
  splits (fold_left (compareMine (toMap other)) my c)
    (fold_left (fun g el => match findElement other (el_Id el) with
       | None => add_removed (el_Id el) g
       | Some oe => if decide (el_Head oe = el_Head el) then g
                    else if String.ltb (el_Head el) (el_Head oe) then add_theirChanged (el_Id el) g
                    else add_changed (el_Id el) g
       end) my g).
Proof.
  intros Hnd Hth Hmy. revert c g. induction Hmy as [|e my He Hmy IH]; intros c g Hs; [done|]. simpl. apply IH.
  unfold compareMine. rewrite findElement_toMap by done. destruct Hs as [Hn Hr Hp Hc Ho Ht].
  destruct (toMap other !! el_Id e) as [h|] eqn:Hh; simpl; [apply Hth in Hh|by split; simpl; congruence || done].
  case_decide as Heq; [done|]. destruct (String.ltb (el_Head e) h) eqn:Hlt; split; simpl; try done.
  - intros id. rewrite !elem_of_app, Hc. tauto.
  - intros id [?|Hid%list_elem_of_singleton]%elem_of_app; [by apply Ht|]. subst id. exists (el_Head e), h. done.
  - intros id. rewrite !elem_of_app, Hc. tauto.
  - intros id [?|Hid%list_elem_of_singleton]%elem_of_app; [by apply Ho|]. subst id. exists (el_Head e), h. done.
Qed.

Lemma splits_theirs my other c g :
  NoDup (el_Id <$> my) -> splits c g ->
  splits (fold_left (compareTheirs (toMap my)) other c)
    (fold_left (fun g el => match findElement my (el_Id el) with
       | None => add_new (el_Id el) g
       | Some _ => g
       end) other g).
Proof.
  intros Hnd. revert c g. induction other as [|e other IH]; intros c g Hs; [done|]. simpl. apply IH.
  unfold compareTheirs. rewrite findElement_toMap by done. destruct (toMap my !! el_Id e); [done|].
  destruct Hs as [Hn Hr Hp Hc Ho Ht]. split; simpl; congruence || done.
Qed.

Lemma splits_compare r my other c g :
  toMap my = within mine r -> NoDup (el_Id <$> my) -> toMap other = within theirs r -> NoDup (el_Id <$> other) ->
  splits c g -> splits (compareElementsEqual my other c) (compareElementsGreater my other g).
Proof.
  intros Hmy Hndm Hot Hndo Hs. rewrite compareElementsEqual_loops. unfold compareElementsGreater.
  apply splits_theirs; [done|]. apply splits_mine; [done| | |done].
  - intros id h. rewrite Hot. by intros [_ ?]%within_Some.
  - apply Forall_forall. intros e He. apply (within_Some mine r). rewrite <- Hmy. apply toMap_Some; [done|]. by destruct e.
Qed.

Lemma splits_step r c g :
  valid r -> splits c g ->
  splits (step d otR r c) (compareResults d compareElementsGreater r (getRange d r) (otR r) g).
Proof.
  intros Hv Hs. unfold step, compareResults. case_decide; [done|].
  assert (forall l, splits (add_prepare l c) (add_prepare l g)) as Hprep.
  { intros l. destruct Hs as [Hn Hr Hp Hc Ho Ht]. split; simpl; congruence || done. }
  destruct (hasAll (otR r)) eqn:Ho; [|destruct (_ || _); apply Hprep].
  destruct (fa_all _ _ (ex_theirs _ _ _ _ Hex) r Hv Ho) as [Hto Hnd].
  destruct (hasAll (getRange d r)) eqn:Hm.
  - destruct (fa_all _ _ (ex_mine _ _ _ _ Hex) r Hv Hm). by apply (splits_compare r).
  - assert (hasAll (getRange d (withElements r)) = true) as Ha by by apply (fa_asked _ _ (ex_mine _ _ _ _ Hex)).
    destruct (fa_all _ _ (ex_mine _ _ _ _ Hex) (withElements r) Hv Ha). by apply (splits_compare r).
Qed.

Abbreviation remote := (fun rs : list Range => Ok (otR <$> rs)).

Lemma splits_round toSend c g :
  Forall valid toSend -> splits c g ->
  splits (compareAll d compareElementsEqual toSend (getRange d <$> toSend) (otR <$> toSend) c)
    (compareAll d compareElementsGreater toSend (getRange d <$> toSend) (otR <$> toSend) g).
Proof.
  intros Hv. revert c g. induction Hv as [|r toSend Hr Hv IH]; intros c g Hs; [done|]. simpl. apply IH.
  by apply splits_step.
Qed.

(** The loops go in step. *)
Lemma splits_loop fuel n toSend c g c' :
  Forall (pend_ok d otR theirs n) toSend -> sound mine theirs c -> tracked mine theirs c toSend -> dc_prepare c = [] ->
  splits c g -> diffLoop fuel (fun _ => None) d remote compareElementsEqual toSend c = Ok c' ->
  exists g', diffLoop fuel (fun _ => None) d remote compareElementsGreater toSend g = Ok g' /\ splits c' g'.
Proof.
  revert n toSend c g. induction fuel as [|fuel IH]; intros n toSend c g Hp Hs Ht Hc Hsp Hrun;
    (destruct toSend as [|r toSend]; [injection Hrun as <-; by exists g|]); [done|].
  set (rs := r :: toSend) in *.
  assert (Forall valid rs) as Hv by (eapply Forall_impl; [exact Hp|]; by intros x [? _]).
  pose proof (splits_round rs c g Hv Hsp) as Hsp'.
  destruct (round_ok d otR mine theirs Hex n rs c) as (Hs' & Ht' & Hp' & _); [done|done|by rewrite Hc, app_nil_r|
      rewrite Hc; constructor|rewrite Hc; by constructor|].
  rewrite <- compareAll_round in Hs', Ht', Hp'. unfold rs in *.
  simpl in Hrun |- *. rewrite !length_fmap in *. rewrite bool_decide_eq_true_2 in Hrun |- * by done. simpl in Hrun, Hsp', Hs', Ht', Hp' |- *.
  set (c1 := compareAll d compareElementsEqual toSend _ _ _) in *.
  set (g1 := compareAll d compareElementsGreater toSend _ _ _) in *.
  rewrite (sp_prepare _ _ Hsp'). eapply (IH (pred n) _ (clear_prepare c1)); [exact Hp'|exact Hs'|exact Ht'|done| |exact Hrun].
  destruct Hsp' as [Hn' Hr' Hp'' Hc' Ho' Hth']. by split.
Qed.

(** [CompareDiff] returns within 66 rounds. *)
Lemma CompareDiff_ok :
  exists news changed theirChanged removed,
    CompareDiff 66 (fun _ => None) d remote = Ok (news, changed, theirChanged, removed) /\
    (forall id, id ∈ news <-> only_in theirs mine id) /\
    (forall id, id ∈ changed <-> ours_greater id) /\
    (forall id, id ∈ theirChanged <-> theirs_greater id) /\
    (forall id, id ∈ removed -> only_in mine theirs id).
Proof.
  destruct (loop_ok d otR mine theirs Hex 64 0 [wholeRange] emptyCtx) as (c & Hloop & (Hs1 & Hs2 & Hs3) & Ht).
  1: exact (whole_pending d otR mine theirs Hex).
  1: by split_and!; intros id ?%not_elem_of_nil.
  1: { intros id Hid. right. exists wholeRange. split; [by left|]. by apply (ex_ids _ _ _ _ Hex). }
  1: done.
  destruct (splits_loop (64 + 2 + 0) 64 [wholeRange] emptyCtx emptyCtx c) as (g & Hg & [Hn Hr Hp Hc Ho Hth]); [..|exact Hloop|].
  1: exact (whole_pending d otR mine theirs Hex).
  1: by split_and!; intros id ?%not_elem_of_nil.
  1: { intros id Hid. right. exists wholeRange. split; [by left|]. by apply (ex_ids _ _ _ _ Hex). }
  1: done.
  1: { split; simpl; try done; [intros id; by rewrite elem_of_nil; tauto|by intros id ?%not_elem_of_nil..]. }
  unfold CompareDiff. change (64 + 2 + 0)%nat with 66%nat in Hg. rewrite Hg. simpl.
  exists (dc_newIds g), (dc_changedIds g), (dc_theirChangedIds g), (dc_removedIds g). split; [done|].
  assert (forall id, is_Some (theirs !! id) -> recorded mine theirs c id) as Hrec.
  { intros id Hid. destruct (Ht id Hid) as [?|(r & Hr' & _)]; [done|by apply not_elem_of_nil in Hr']. }
  assert (forall id, changed_in mine theirs id -> id ∈ dc_changedIds g \/ id ∈ dc_theirChangedIds g) as Hch.
  { intros id Hd. apply Hc, Hrec; [destruct Hd as (? & ? & _ & ? & _); by eexists|done]. }
  split_and!; [..|intros id; rewrite Hr; apply Hs3]; intros id.
  - rewrite Hn. split; [apply Hs1|]. intros Hd. apply Hrec; [by destruct Hd|done].
  - split; [apply Ho|]. intros (h & h' & Hm & Ht' & Hne & Hlt). destruct (Hch id) as [?|Hin]; [by exists h, h'|done|].
    apply Hth in Hin as (k & k' & ? & ? & ?). exfalso. congruence.
  - split; [apply Hth|]. intros (h & h' & Hm & Ht' & Hlt). destruct (Hch id) as [Hin|?]; [|apply Ho in Hin|done].
    + exists h, h'. split_and!; [done|done|]. intros ->. by rewrite ltb_irrefl in Hlt.
    + destruct Hin as (k & k' & ? & ? & ? & ?). exfalso. congruence.
Qed.
End compare.

(** The directed comparison.  For two containers whose range trees are up to date, with
    the same parameters and no hash collisions, [CompareDiff] ends within 66 rounds and
    returns: as new exactly the ids only the other container has; as changed exactly the
    ids for which our head is greater, and as changed by them exactly those for which
    theirs is; as removed only ids that only ours has. *)
Theorem ldiff_compare_correct `{SkipListLaws} `{DiffHashes} `{MapRange} d1 d2 :
  container_ok d1 -> container_ok d2 -> no_collision d1 d2 ->
  d_divideFactor d2 = d_divideFactor d1 -> d_compareThreshold d2 = d_compareThreshold d1 ->
  exists news changed theirChanged removed,
    CompareDiff 66 (fun _ => None) d1 (Ranges d2) = Ok (news, changed, theirChanged, removed) /\
    (forall id, id ∈ news <-> is_Some (contents d2 !! id) /\ contents d1 !! id = None) /\
    (forall id, id ∈ changed <-> ours_greater (contents d1) (contents d2) id) /\
    (forall id, id ∈ theirChanged <-> theirs_greater (contents d1) (contents d2) id) /\
    (forall id, id ∈ removed -> is_Some (contents d1 !! id) /\ contents d2 !! id = None).
Proof.
  intros Hok1 Hok2 Hcol Hdf HT.
  exact (CompareDiff_ok d1 (getRange d2) (contents d1) (contents d2) (exchange_containers d1 d2 Hok1 Hok2 Hcol Hdf HT)).
Qed.

Lemma ldiff_compare_correct_witness :
  exists news changed theirChanged removed,
    CompareDiff 66 (fun _ => None) exOurs (Ranges exTheirs) = Ok (news, changed, theirChanged, removed) /\
    (forall id, id ∈ news <-> is_Some (contents exTheirs !! id) /\ contents exOurs !! id = None) /\
    (forall id, id ∈ changed <-> ours_greater (contents exOurs) (contents exTheirs) id) /\
    (forall id, id ∈ theirChanged <-> theirs_greater (contents exOurs) (contents exTheirs) id) /\
    (forall id, id ∈ removed -> is_Some (contents exOurs !! id) /\ contents exTheirs !! id = None).
Proof.
  apply (ldiff_compare_correct exOurs exTheirs);
    [apply exOurs_ok|apply exTheirs_ok|apply ex_no_collision|vm_compute; reflexivity|vm_compute; reflexivity].
Defined.

Example ex_compare : CompareDiff 66 (fun _ => None) exOurs (Ranges exTheirs) = Ok (["e"], [], ["b"], ["a"]).
Proof. vm_compute. reflexivity. Qed.
