(* ===== verification/HeadDiff.v ===== *)
(** What the head diff promises to the components that keep one beside their data: a map
    from ids to heads, with a hash.  The interface and its laws; the diff of
    src/app/ldiff meets them. *)

From Stdlib Require Import ZArith Lia String.
From stdpp Require Import base option list gmap strings.
From S2P Require Import Prelude Ldiff LdiffRanges LdiffExchange LdiffMain.

Class HeadDiff (D : Type) := {
  hd_New : res D;
  hd_Set : list Element -> ST D unit;
  hd_RemoveId : string -> ST D unit;
  hd_Element : D -> string -> res Element;
  hd_Hash : D -> res string;
}.

(** The heads written in the order given. *)
Definition writeHeads (els : list Element) (m : gmap string string) : gmap string string :=
  fold_left (fun m e => <[el_Id e := el_Head e]> m) els m.

Class HeadDiffLaws (D : Type) `{HeadDiff D} := {
  hd_ok : D -> Prop;
  (** ids the diff can keep *)
  hd_storable : string -> Prop;
  hd_contents : D -> gmap string string;
  hd_New_law d : hd_New = Ok d -> hd_ok d /\ hd_contents d = ∅;
  hd_Set_law els d d' : hd_ok d -> Forall (fun e => hd_storable (el_Id e)) els -> hd_Set els d = (d', Ok tt) ->
    hd_ok d' /\ hd_contents d' = writeHeads els (hd_contents d);
  hd_Set_panics els d d' s : hd_Set els d <> (d', Err (GoError s));
  hd_RemoveId_law id d d' r : hd_ok d -> hd_RemoveId id d = (d', r) ->
    match r with
    | Ok _ => hd_ok d' /\ is_Some (hd_contents d !! id) /\ hd_contents d' = delete id (hd_contents d)
    | Err (GoError _) => d' = d /\ hd_contents d !! id = None
    | Err (GoPanic _) => True
    end;
  hd_Element_law id d : hd_ok d ->
    hd_Element d id = match hd_contents d !! id with
                      | Some h => Ok (mkElement id h)
                      | None => Err ErrElementNotFound
                      end;
}.

(** ** The diff of src/app/ldiff, [ldiff.New(32, 256)] *)

Section ldiff.
Context `{SkipListLaws} `{DiffHashes} `{MapRange}.

#[local] Instance ldiff_HeadDiff : HeadDiff diff := {|
  hd_New := newDiff 32 256;
  hd_Set := Set_;
  hd_RemoveId := RemoveId;
  hd_Element := Element_;
  hd_Hash := Hash;
|}.

Lemma makeBottomRanges_panics fuel sl t : panics (makeBottomRanges fuel sl t).
Proof. revert t. induction fuel as [|fuel IH]; intros t; simpl; unfold range_at, nilRange; panicky; auto. Qed.

Lemma descend_panics fuel delta h t : panics (descend fuel delta h t).
Proof.
  revert t. induction fuel as [|fuel IH]; intros t; simpl; unfold range_at, nilRange, getBottomRange, bottomTuple, u64_div; panicky; auto.
Qed.

Lemma recalculateHashes_panics fuel sl : panics (recalculateHashes fuel sl).
Proof.
  induction fuel as [|fuel IH]; simpl; unfold recalculateRange, calcDividedHash, range_at, nilRange; panicky; auto.
Qed.

Lemma onRanges_panics {A} (f : list element -> ST hashRanges A) : (forall sl, panics (f sl)) -> panics (onRanges f).
Proof. intros Hf d. unfold onRanges. specialize (Hf (d_sl d) (d_ranges d)). by destruct (f _ _) as [h r]. Qed.

Lemma Set_panics els : panics (Set_ els).
Proof.
  unfold Set_. panicky; apply onRanges_panics; intros sl; [|apply recalculateHashes_panics].
  unfold addElement, range_at, nilRange. panicky; auto using descend_panics, makeBottomRanges_panics.
Qed.

Lemma removeElement_panics h : panics (removeElement h).
Proof. unfold removeElement, range_at, nilRange. panicky; auto using descend_panics. Qed.

Lemma RemoveId_absent id d d' s :
  sl_ok (d_sl d) -> RemoveId id d = (d', Err (GoError s)) -> d' = d /\ contents d !! id = None.
Proof.
  intros Hok Hrun. destruct (contents d !! id) as [h|] eqn:Hc.
  - exfalso. apply contents_Some in Hc as Hin; [|done]. unfold RemoveId in Hrun.
    apply st_bind_cases in Hrun as [(e & ? & _)|(d1 & rem & Hrem & Hrun)]; [done|]. apply reads_Ok in Hrem as [-> ->].
    apply st_bind_cases in Hrun as [(e & Hfail & _)|(d1 & u & _ & Hrun)].
    + rewrite (sl_Remove_law _ _ (proj1 Hok)), bool_decide_false in Hfail; [done|]. simpl.
      assert (keyOf id h ∈ filter (fun x => Compare x (keyOf id "") = 0%Z) (d_sl d)) as Hx.
      { apply list_elem_of_filter. split; [by apply Compare_eq|done]. }
      intros Hnone%head_None. rewrite Hnone in Hx. by apply not_elem_of_nil in Hx.
    + assert (panics (assigns (fun d => set_sl (fst (sl_Remove (keyOf id "") (d_sl d))) d) ;;
        onRanges (fun _ => removeElement (el_hash (keyOf id ""))) ;;
        onRanges (fun sl => recalculateHashes (2 * maxDepth) sl))) as Hp.
      { panicky; apply onRanges_panics; intros sl; [apply removeElement_panics|apply recalculateHashes_panics]. }
      apply (Hp d1 s). by rewrite Hrun.
  - destruct (ldiff_remove_contents id d d' _ Hok Hrun) as [Hn _]. by destruct (Hn Hc).
Qed.

#[local] Instance ldiff_HeadDiffLaws : HeadDiffLaws diff.
Proof.
  refine {| hd_ok d := sl_ok (d_sl d); hd_storable := storable; hd_contents := contents |}.
  - intros d Hd. unfold hd_New, ldiff_HeadDiff, newDiff in Hd. go_inv. split; [|done]. split; constructor.
  - apply Set_contents.
  - intros els d d' s Hrun. apply (Set_panics els d s). exact (f_equal snd Hrun).
  - intros id d d' r Hok Hrun. destruct r as [[]|[s|s]]; [|by eapply RemoveId_absent|done].
    by destruct (ldiff_remove_contents id d d' _ Hok Hrun) as [_ Hr]; apply Hr.
  - apply (fun id d => Element_lookup d id).
Defined.
End ldiff.
