(* ===== verification/KeyValue.v ===== *)
(** The rows of the key-value store (src/commonspace/object/keyvalue/keyvaluestorage/innerstorage:
    element.go, keyvaluestorage.go): every peer writes its own row of a key, the newest
    row of a peer wins, and a deletion watermark drops the older rows under its prefix.
    The rows are documents of a database, which is the class [KvDb]; the heads of the rows
    are kept in a diff. *)

From Stdlib Require Import ZArith Lia String Ascii.
From stdpp Require Import base option list gmap strings.
From S2P Require Import Prelude Crypto Ldiff HeadDiff.

Local Open Scope Z_scope.

(** ** Rows (element.go) *)

Definition ErrInvalidSignature := GoError "invalid signature".
Definition ErrInvalidKeyPeerId := GoError "keyPeerId does not match key and peer".
Definition ErrInvalidWatermark := GoError "invalid deletion watermark".

(** The row id of a key written by a peer. *)
Definition KeyPeerId (key peerId : string) : string := (key ++ "-" ++ peerId)%string.

Record Value := mkValue {
  va_Value : bytes;
  va_PeerSignature : bytes;
  va_IdentitySignature : bytes;
}.

Record KeyValue := mkKeyValue {
  kv_KeyPeerId : string;
  kv_ReadKeyId : string;
  kv_Key : string;
  kv_Value : Value;
  kv_TimestampMicro : Z;
  kv_Identity : string;
  kv_PeerId : string;
  kv_AclId : string;
  kv_DeletePrefix : string;
  kv_IdentityPubKey : option PubKey;
}.

(** spacesyncproto.StoreKeyValue and StoreKeyInner; the prefix is empty without a delete *)
Record StoreKeyValue := mkStoreKeyValue {
  skv_KeyPeerId : string;
  skv_Value : bytes;
  skv_IdentitySignature : bytes;
  skv_PeerSignature : bytes;
  skv_SpaceId : string;
}.
Record StoreKeyInner := mkStoreKeyInner {
  ski_Peer : bytes;
  ski_Identity : bytes;
  ski_Value : bytes;
  ski_TimestampMicro : Z;
  ski_AclHeadId : string;
  ski_Key : string;
  ski_DeletePrefix : string;
}.

(** Generated code, and the printed forms of keys *)
Class KvCodec := {
  StoreKeyInner_UnmarshalVT : bytes -> res StoreKeyInner;
  StoreKeyInner_MarshalVT : StoreKeyInner -> res bytes;
  PubKey_Account : PubKey -> string;
  PubKey_PeerId : PubKey -> string;
}.

Section element.
Context `{CryptoPrims} `{KvCodec}.

Definition verifies (k : PubKey) (data sig : bytes) : bool :=
  match PubKey_Verify k data sig with Ok b => b | Err _ => false end.

Definition KeyValueFromProto (proto : StoreKeyValue) (verify : bool) : res KeyValue :=
  innerValue ← StoreKeyInner_UnmarshalVT (skv_Value proto);
  identity ← UnmarshalEd25519PublicKeyProto (ski_Identity innerValue);
  peerId ← UnmarshalEd25519PublicKeyProto (ski_Peer innerValue);
  let kv := mkKeyValue (skv_KeyPeerId proto) "" (ski_Key innerValue)
    (mkValue (skv_Value proto) (skv_PeerSignature proto) (skv_IdentitySignature proto))
    (ski_TimestampMicro innerValue) (PubKey_Account identity) (PubKey_PeerId peerId)
    (ski_AclHeadId innerValue) (ski_DeletePrefix innerValue) (Some identity) in
  fail_if (bool_decide (kv_KeyPeerId kv <> KeyPeerId (kv_Key kv) (kv_PeerId kv))) ErrInvalidKeyPeerId ;;
  fail_if (bool_decide (kv_DeletePrefix kv <> "" /\ kv_Key kv <> kv_DeletePrefix kv)) ErrInvalidWatermark ;;
  (if verify then
     fail_if (negb (verifies identity (skv_Value proto) (skv_IdentitySignature proto))) ErrInvalidSignature ;;
     fail_if (negb (verifies peerId (skv_Value proto) (skv_PeerSignature proto))) ErrInvalidSignature
   else Ok tt) ;;
  Ok kv.

(** [kv.Proto] *)
Definition kv_Proto (kv : KeyValue) : StoreKeyValue :=
  mkStoreKeyValue (kv_KeyPeerId kv) (va_Value (kv_Value kv)) (va_IdentitySignature (kv_Value kv))
    (va_PeerSignature (kv_Value kv)) "".
End element.

(** ** Documents *)

(** [float64(z)] of an int64: the nearest multiple of a power of two with 53 digits, ties
    to even; the numbers of documents are such.  Reading one back as an int64 is exact,
    short of 2^63. *)
Definition f64 (z : Z) : Z :=
  let a := Z.abs z in
  if a <=? 2 ^ 53 then z
  else
    let e := Z.log2 a - 52 in
    let q := a / 2 ^ e in
    let r := a mod 2 ^ e in
    let q := if r <? 2 ^ (e - 1) then q else if 2 ^ (e - 1) <? r then q + 1
             else if Z.even q then q else q + 1 in
    Z.sgn z * q * 2 ^ e.

Record KvDoc := mkKvDoc {
  doc_id : string;
  doc_k : string;
  doc_r : string;
  doc_v : Value;
  doc_t : Z;
  doc_i : string;
  doc_p : string;
  doc_dp : string;
}.

(** [KeyValue.AnyEnc] and [keyValueFromDoc] *)
Definition kv_AnyEnc (kv : KeyValue) : KvDoc :=
  mkKvDoc (kv_KeyPeerId kv) (kv_Key kv) (kv_ReadKeyId kv) (kv_Value kv) (f64 (kv_TimestampMicro kv))
    (kv_Identity kv) (kv_PeerId kv) (kv_DeletePrefix kv).
Definition keyValueFromDoc (doc : KvDoc) : KeyValue :=
  mkKeyValue (doc_id doc) (doc_r doc) (doc_k doc) (doc_v doc) (doc_t doc) (doc_i doc) (doc_p doc) "" (doc_dp doc) None.

(** [binary.BigEndian.PutUint64(buf, uint64(t))] as a string *)
Fixpoint bigEndian (n : nat) (z : Z) : string :=
  match n with
  | O => ""
  | S n => String (ascii_of_N (Z.to_N (z / 256 ^ Z.of_nat n))) (bigEndian n (z mod 256 ^ Z.of_nat n))
  end.
Definition headOf (t : Z) : string := bigEndian 8 (u64 t).

Definition anyEncToElement (doc : KvDoc) : Element := mkElement (doc_id doc) (headOf (doc_t doc)).

(** ** The database *)

(** A collection of documents and the head entries beside it, within a transaction.  A
    document that is not found is [None]; [db_From] lists the documents with ids from a
    string on, by id. *)
Class KvDb (C : Type) := {
  db_FindId : C -> string -> res (option KvDoc);
  db_All : C -> res (list KvDoc);
  db_From : C -> string -> res (list KvDoc);
  db_UpsertOne : KvDoc -> ST C unit;
  db_DeleteId : string -> ST C unit;
  db_UpdateHeads : string -> string -> ST C unit;
  db_WriteTx : C -> res unit;
  db_Commit : C -> res unit;
}.

(** ** The store (keyvaluestorage.go) *)

Record SetResult := mkSetResult { sr_Applied : list KeyValue; sr_DroppedIds : list string }.

Record updateResult := mkUpdateResult {
  ur_elements : list Element;
  ur_removed : list Element;
  ur_preState : gmap string (option Element);
  ur_watermarks : gmap string Z;
  ur_applied : list KeyValue;
  ur_droppedIds : list string;
}.

(** [if t > m[prefix] { m[prefix] = t }] *)
Definition raiseTo (prefix : string) (t : Z) (m : gmap string Z) : gmap string Z :=
  if decide (default 0 (m !! prefix) < t) then <[prefix := t]> m else m.

Definition recordPre (id : string) (el : option Element) (r : updateResult) : updateResult :=
  match ur_preState r !! id with
  | Some _ => r
  | None => mkUpdateResult (ur_elements r) (ur_removed r) (<[id := el]> (ur_preState r)) (ur_watermarks r)
              (ur_applied r) (ur_droppedIds r)
  end.
Definition addUpsert (el : Element) (kv : KeyValue) (r : updateResult) : updateResult :=
  mkUpdateResult (ur_elements r ++ [el]) (ur_removed r) (ur_preState r) (ur_watermarks r)
    (ur_applied r ++ [kv]) (ur_droppedIds r).
Definition addRemoved (el : Element) (r : updateResult) : updateResult :=
  mkUpdateResult (ur_elements r) (ur_removed r ++ [el]) (ur_preState r) (ur_watermarks r)
    (ur_applied r) (ur_droppedIds r).
Definition addDropped (ids : list string) (prefix : string) (t : Z) (r : updateResult) : updateResult :=
  mkUpdateResult (ur_elements r) (ur_removed r) (ur_preState r) (raiseTo prefix t (ur_watermarks r))
    (ur_applied r) (ur_droppedIds r ++ ids).

Section store.
Context {C : Type} `{KvDb C} {D : Type} `{HeadDiff D} `{MapRange}.

Record kvStorage := mkKvStorage {
  kvs_diff : D;
  kvs_db : C;
  kvs_storageName : string;
  kvs_watermarks : gmap string Z;
}.
Implicit Types (s : kvStorage) (w : gmap string Z).

(** A watermark that is newer covers the key. *)
Definition coveredBy w (key : string) (t : Z) : bool :=
  existsb (fun x => (t <? x.2) && String.prefix x.1 key) (map_range w).
Definition covered (w : gmap string Z) (r : updateResult) (key : string) (t : Z) : bool :=
  coveredBy w key t || coveredBy (ur_watermarks r) key t.

Definition WatermarkTs s (key : string) : Z :=
  fold_left (fun maxTs x => if (maxTs <? x.2) && String.prefix x.1 key then x.2 else maxTs)
    (map_range (kvs_watermarks s)) 0.

Definition GetKeyPeerId s (keyPeerId : string) : res (option KeyValue) :=
  doc ← db_FindId (kvs_db s) keyPeerId;
  Ok (option_map keyValueFromDoc doc).

(** [iterateIdPrefix]: the run of ids with the prefix. *)
Fixpoint takePrefix (prefix : string) (docs : list KvDoc) : list KvDoc :=
  match docs with
  | doc :: docs => if String.prefix prefix (doc_id doc) then doc :: takePrefix prefix docs else []
  | [] => []
  end.
Definition iterateIdPrefix (c : C) (prefix : string) : res (list KvDoc) :=
  docs ← db_From c prefix;
  Ok (takePrefix prefix docs).

Definition IteratePrefix s (prefix : string) : res (list KeyValue) :=
  docs ← iterateIdPrefix (kvs_db s) prefix;
  Ok (List.map keyValueFromDoc docs).

(** [Find(nil).Sort("id")] *)
Definition IterateValues s : res (list KeyValue) :=
  docs ← db_From (kvs_db s) "";
  Ok (List.map keyValueFromDoc docs).

(** Steps on the transaction and on the result of the batch. *)
Abbreviation UM := (ST (C * updateResult)).
Definition onDb {A} (m : ST C A) : UM A := fun x =>
  let '(c, r) := m x.1 in ((c, x.2), r).
Definition onResult (f : updateResult -> updateResult) : UM unit := assigns (fun x => (x.1, f x.2)).

Definition applyWatermark (wm : KeyValue) : UM unit :=
  docs ← calls (fun x => iterateIdPrefix x.1 (kv_DeletePrefix wm));
  let older := List.filter (fun doc =>
    String.prefix (kv_DeletePrefix wm) (doc_k doc) && negb (kv_TimestampMicro wm <=? doc_t doc)) docs in
  st_each (fun doc =>
    let el := anyEncToElement doc in
    onResult (recordPre (el_Id el) (Some el)) ;;
    onResult (addRemoved el)) older ;;
  let dropIds := doc_id <$> older in
  st_each (fun id => onDb (db_DeleteId id)) dropIds ;;
  onResult (addDropped dropIds (kv_DeletePrefix wm) (kv_TimestampMicro wm)).

Definition updateValue w (value : KeyValue) : UM unit :=
  isCovered ← reads (fun x => covered w x.2 (kv_Key value) (kv_TimestampMicro value));
  if (isCovered : bool) then mret tt
  else
    doc ← calls (fun x => db_FindId x.1 (kv_KeyPeerId value));
    if (match doc with Some doc => kv_TimestampMicro value <=? doc_t doc | None => false end) then mret tt
    else
      (match doc with
       | Some doc => let el := anyEncToElement doc in onResult (recordPre (el_Id el) (Some el))
       | None => onResult (recordPre (kv_KeyPeerId value) None)
       end) ;;
      let val := kv_AnyEnc value in
      onDb (db_UpsertOne val) ;;
      onResult (addUpsert (anyEncToElement val) value) ;;
      if decide (kv_DeletePrefix value <> "") then applyWatermark value else mret tt.

Definition emptyResult : updateResult := mkUpdateResult [] [] ∅ ∅ [] [].

Definition updateValues w (values : list KeyValue) : UM unit := st_each (updateValue w) values.

(** [_ = diff.RemoveId(id)]: the error is dropped. *)
Definition removeQuietly (id : string) : ST D unit := fun d =>
  match hd_RemoveId id d with
  | (d, Err (GoPanic p)) => (d, Err (GoPanic p))
  | (d, _) => (d, Ok tt)
  end.

(** The elements as they were before the call. *)
Definition restoreDiff (preState : gmap string (option Element)) : ST D unit :=
  st_each (fun x : string * option Element =>
    match x.2 with
    | None => removeQuietly x.1
    | Some pre => hd_Set [pre]
    end) (map_range preState).

(** What [Set] does before its deferred function: the transaction, the diff and the
    result of the batch as they are then. *)
Definition setBody s (values : list KeyValue) : (C * updateResult) * D * res SetResult :=
  match updateValues (kvs_watermarks s) values (kvs_db s, emptyResult) with
  | (x, Err e) => (x, kvs_diff s, Err e)
  | (x, Ok _) =>
      let r := x.2 in
      match (hd_Set (ur_elements r) ;; st_each (fun el => removeQuietly (el_Id el)) (ur_removed r)) (kvs_diff s) with
      | (d, Err e) => (x, d, Err e)
      | (d, Ok _) =>
          if decide (ur_preState r = ∅) then (x, d, Ok (mkSetResult [] []))
          else match hd_Hash d with
               | Err e => (x, d, Err e)
               | Ok hash =>
                   match db_UpdateHeads (kvs_storageName s) hash x.1 with
                   | (c, Err e) => ((c, r), d, Err e)
                   | (c, Ok _) => ((c, r), d, Ok (mkSetResult (ur_applied r) (ur_droppedIds r)))
                   end
               end
      end
  end.

(** The deferred function: commit and publish the watermarks, or roll back and restore. *)
Definition Set_rows (values : list KeyValue) : ST kvStorage SetResult := fun s =>
  match db_WriteTx (kvs_db s) with
  | Err e => (s, Err e)
  | Ok _ =>
      let '(x, d, result) := setBody s values in
      let r := x.2 in
      let committed := match result with Ok _ => db_Commit x.1 | Err e => Err e end in
      match committed with
      | Ok _ =>
          (mkKvStorage d x.1 (kvs_storageName s)
             (fold_left (fun w y => raiseTo y.1 y.2 w) (map_range (ur_watermarks r)) (kvs_watermarks s)), result)
      | Err (GoPanic p) => (mkKvStorage d (kvs_db s) (kvs_storageName s) (kvs_watermarks s), Err (GoPanic p))
      | Err e =>
          match restoreDiff (ur_preState r) d with
          | (d, Ok _) => (mkKvStorage d (kvs_db s) (kvs_storageName s) (kvs_watermarks s), Err e)
          | (d, Err e) => (mkKvStorage d (kvs_db s) (kvs_storageName s) (kvs_watermarks s), Err e)
          end
      end
  end.

(** [New]: the diff and the watermarks of the stored rows. *)
Definition loadStorage (storageName : string) (c : C) : res kvStorage :=
  docs ← db_All c;
  d ← hd_New;
  d ← runs (hd_Set (List.map anyEncToElement docs)) d;
  hash ← hd_Hash d;
  c ← runs (db_UpdateHeads storageName hash) c;
  db_Commit c ;;
  Ok (mkKvStorage d c storageName
    (fold_left (fun w doc => if decide (doc_dp doc <> "") then raiseTo (doc_dp doc) (doc_t doc) w else w) docs ∅)).
End store.

Arguments kvStorage C D : clear implicits.
