(* ===== verification/KeyValueInv.v ===== *)
(** What the rows of a key-value store are: of the rows a store was given, the newest of
    every row id, less those a newer watermark covers.  A batch that is set refines this
    specification, in whatever order and batches the rows come.  Then what setting one batch does. *)

From Stdlib Require Import ZArith Lia String Ascii Permutation.
From stdpp Require Import base option list gmap strings sorting.
From S2P Require Import Prelude Crypto Ldiff HeadDiff KeyValue.

Local Open Scope Z_scope.

(** ** The specification *)

Implicit Types (v w : KeyValue) (vs : list KeyValue) (key : string) (t : Z).

(** A row of a batch covers a key at a time. *)
Definition covers w key t : Prop :=
  kv_DeletePrefix w <> "" /\ String.prefix (kv_DeletePrefix w) key = true /\ t < kv_TimestampMicro w.
Definition coveredIn vs key t : Prop := exists w, w ∈ vs /\ covers w key t.

(** The newest of the rows with its id. *)
Definition newest vs v : Prop :=
  v ∈ vs /\ forall v', v' ∈ vs -> kv_KeyPeerId v' = kv_KeyPeerId v -> kv_TimestampMicro v' <= kv_TimestampMicro v.

(** The row of an id that is to be kept. *)
Definition kept vs v : Prop := newest vs v /\ ~ coveredIn vs (kv_Key v) (kv_TimestampMicro v).

(** Rows as peers write them: times a document can hold; the id starts with the key and fixes it; a
    watermark's key is its prefix; an id is written either with values or with
    watermarks, and at different times. *)
Record rows_ok vs : Prop := mkRowsOk {
  ro_time v : v ∈ vs -> 0 <= kv_TimestampMicro v <= 2 ^ 53;
  ro_id v : v ∈ vs -> String.prefix (kv_Key v) (kv_KeyPeerId v) = true;
  ro_watermark v : v ∈ vs -> kv_DeletePrefix v <> "" -> kv_Key v = kv_DeletePrefix v;
  ro_key v v' : v ∈ vs -> v' ∈ vs -> kv_KeyPeerId v = kv_KeyPeerId v' -> kv_Key v = kv_Key v';
  ro_kind v v' : v ∈ vs -> v' ∈ vs -> kv_KeyPeerId v = kv_KeyPeerId v' ->
    kv_DeletePrefix v = "" -> kv_DeletePrefix v' = "";
  ro_unique v v' : v ∈ vs -> v' ∈ vs -> kv_KeyPeerId v = kv_KeyPeerId v' ->
    kv_TimestampMicro v = kv_TimestampMicro v' -> kv_AnyEnc v = kv_AnyEnc v';
}.

(** The documents of the rows. *)
Definition documents vs (docs : gmap string KvDoc) : Prop :=
  forall id d, docs !! id = Some d <-> exists v, kept vs v /\ kv_KeyPeerId v = id /\ d = kv_AnyEnc v.

(** The coverage of a store's watermarks. *)
Definition watermarksOf vs (cov : string -> Z -> bool) : Prop :=
  forall key t, 0 <= t -> cov key t = true <-> coveredIn vs key t.

(** ** Strings *)

Lemma prefix_refl (p : string) : String.prefix p p = true.
Proof. induction p as [|c p IH]; [done|]. simpl. by destruct (ascii_dec c c). Qed.

Lemma prefix_trans (p q r : string) : String.prefix p q = true -> String.prefix q r = true -> String.prefix p r = true.
Proof.
  revert q r. induction p as [|c p IH]; [by intros q []|]. intros [|d q] [|e r]; try done. simpl.
  destruct (ascii_dec c d) as [->|]; [|done]. destruct (ascii_dec d e); [|done]. apply IH.
Qed.

Lemma leb_compare (a b : string) : String.leb a b = true <-> String.compare a b <> Gt.
Proof. unfold String.leb. destruct (String.compare a b); naive_solver. Qed.

Lemma ascii_compare_refl' c : Ascii.compare c c = Eq.
Proof. unfold Ascii.compare. apply N.compare_refl. Qed.

(** What has a prefix comes as one run after it. *)
Lemma prefix_between (p a b : string) :
  String.leb p a = true -> String.leb a b = true -> String.prefix p b = true -> String.prefix p a = true.
Proof.
  rewrite !leb_compare. revert a b. induction p as [|c p IH]; [by intros []|]. intros [|d a] [|e b]; try done. simpl.
  destruct (ascii_dec c e) as [->|]; [|done]. intros Hpa Hab Hb.
  destruct (Ascii.compare e d) eqn:Hed; [|exfalso|done].
  - apply Ascii.compare_eq_iff in Hed as ->. rewrite ascii_compare_refl' in Hab.
    destruct (ascii_dec d d); [|done]. by eapply IH.
  - unfold Ascii.compare in *. rewrite N.compare_antisym in Hab. destruct (_ ?= _)%N; done.
Qed.

(** ** Laws of the database *)

Class KvDbLaws (C : Type) `{KvDb C} := {
  db_docs : C -> gmap string KvDoc;
  db_wf : C -> Prop;
  db_ids c id d : db_wf c -> db_docs c !! id = Some d -> doc_id d = id;
  db_FindId_law c id o : db_wf c -> db_FindId c id = Ok o -> o = db_docs c !! id;
  db_All_law c l : db_wf c -> db_All c = Ok l -> l ≡ₚ (map_to_list (db_docs c)).*2;
  db_From_law c p l : db_wf c -> db_From c p = Ok l ->
    StronglySorted (fun a b => String.leb (doc_id a) (doc_id b) = true) l /\ NoDup l /\
    forall d, d ∈ l <-> db_docs c !! doc_id d = Some d /\ String.leb p (doc_id d) = true;
  db_UpsertOne_law d c c' : db_wf c -> db_UpsertOne d c = (c', Ok tt) ->
    db_wf c' /\ db_docs c' = <[doc_id d := d]> (db_docs c);
  db_DeleteId_law id c c' : db_wf c -> db_DeleteId id c = (c', Ok tt) ->
    db_wf c' /\ db_docs c' = delete id (db_docs c);
  db_UpdateHeads_law n h c c' : db_wf c -> db_UpdateHeads n h c = (c', Ok tt) ->
    db_wf c' /\ db_docs c' = db_docs c;
}.

(** ** Timestamps in documents *)

Lemma f64_exact t : 0 <= t <= 2 ^ 53 -> f64 t = t.
Proof. intros Ht. unfold f64. rewrite Z.abs_eq by lia. destruct (Z.leb_spec t (2 ^ 53)); [done|lia]. Qed.

Lemma doc_t_exact vs v : rows_ok vs -> v ∈ vs -> doc_t (kv_AnyEnc v) = kv_TimestampMicro v.
Proof. intros Hok Hv. apply f64_exact. by apply (ro_time _ Hok). Qed.

(** ** Facts on the specification *)

Section spec.
Variable vs : list KeyValue.
Hypothesis Hok : rows_ok vs.

(** A finite list has a newest row of every id it has. *)
Lemma newest_exists us v : v ∈ us -> exists m, newest us m /\ kv_KeyPeerId m = kv_KeyPeerId v.
Proof.
  revert v. induction us as [|u us IH]; intros v; [by intros ?%not_elem_of_nil|].
  assert (forall v, v ∈ us -> exists m, newest us m /\ kv_KeyPeerId m = kv_KeyPeerId v) as IH' by exact IH. intros _Hv.
  destruct (decide (Exists (fun x => kv_KeyPeerId x = kv_KeyPeerId v) us)) as [Hex|Hno].
  - apply Exists_exists in Hex as (x & Hx & Hxv). destruct (IH' x Hx) as (m & [Hm Hmax] & Hid).
    destruct (decide (kv_KeyPeerId u = kv_KeyPeerId v)) as [Hu|Hu];
      [destruct (decide (kv_TimestampMicro u <= kv_TimestampMicro m))|].
    + exists m. split; [split; [by right|]|congruence]. intros v' [->|Hv']%elem_of_cons Hid'; [done|auto].
    + exists u. split; [split; [by left|]|done]. intros v' [->|Hv']%elem_of_cons Hid'; [done|].
      specialize (Hmax v' Hv'). rewrite Hid' in Hmax. specialize (Hmax ltac:(congruence)). lia.
    + exists m. split; [split; [by right|]|congruence]. intros v' [->|Hv']%elem_of_cons Hid'; [congruence|auto].
  - apply elem_of_cons in _Hv as [->|Hv]; [|exfalso; apply Hno, Exists_exists; eauto].
    exists u. split; [split; [by left|]|done]. intros v' [->|Hv']%elem_of_cons Hid'; [done|].
    exfalso. apply Hno, Exists_exists. eauto.
Qed.

(** An earlier row of a covered key is covered too. *)
Lemma coveredIn_earlier key t t' : t' <= t -> coveredIn vs key t -> coveredIn vs key t'.
Proof. intros Ht (w & Hw & Hd & Hp & Hlt). exists w. split_and!; [done|]. split_and!; [done|done|lia]. Qed.

(** A covered watermark covers nothing more. *)
Lemma covers_covered w key t :
  kv_DeletePrefix w <> "" -> kv_Key w = kv_DeletePrefix w ->
  coveredIn vs (kv_Key w) (kv_TimestampMicro w) -> covers w key t -> coveredIn vs key t.
Proof.
  intros Hd Hk (x & Hx & Hdx & Hpx & Hlt) (_ & Hp & Ht). exists x. split; [done|]. split_and!; [done| |lia].
  eapply prefix_trans; [exact Hpx|]. by rewrite Hk.
Qed.

Lemma kept_unique v v' : kept vs v -> kept vs v' -> kv_KeyPeerId v = kv_KeyPeerId v' -> kv_AnyEnc v = kv_AnyEnc v'.
Proof.
  intros [[Hv Hmax] _] [[Hv' Hmax'] _] Hid. apply (ro_unique _ Hok); try done.
  specialize (Hmax _ Hv' (eq_sym Hid)). specialize (Hmax' _ Hv Hid). lia.
Qed.
End spec.

#[global] Instance covers_dec w key t : Decision (covers w key t).
Proof. unfold covers. apply _. Defined.

(** Whatever is covered is covered by a watermark that is kept. *)
Lemma covered_by_kept vs key t : rows_ok vs -> coveredIn vs key t -> exists w, kept vs w /\ covers w key t.
Proof.
  intros Hok (w & Hw & Hc). revert w Hw Hc.
  assert (forall n w, w ∈ vs -> covers w key t -> Z.to_nat (2 ^ 53 - kv_TimestampMicro w) = n ->
    exists w, kept vs w /\ covers w key t) as Hind; [|by eauto].
  induction n as [n IH] using lt_wf_ind. intros w Hw Hc Hn. pose proof (ro_time _ Hok w Hw) as Ht.
  destruct (newest_exists vs w Hw) as (m & Hm & Hid). pose proof Hm as [Hmin Hmax].
  specialize (Hmax w Hw (eq_sym Hid)) as Hle. pose proof (ro_time _ Hok m Hmin) as Htm.
  destruct Hc as (Hd & Hp & Hlt).
  assert (covers m key t) as Hcm.
  { split_and!; [|rewrite <- (ro_watermark _ Hok m), (ro_key _ Hok m w), (ro_watermark _ Hok w); try done|lia];
      intros He; apply Hd; by apply (ro_kind _ Hok m w). }
  destruct (decide (Exists (fun x => covers x (kv_Key m) (kv_TimestampMicro m)) vs)) as [Hex|Hno].
  - apply Exists_exists in Hex as (x & Hx & Hcx). pose proof (ro_time _ Hok x Hx) as Htx.
    destruct Hcx as (Hdx & Hpx & Hltx). destruct Hcm as (Hdm & Hpm & Hltm).
    eapply (IH (Z.to_nat (2 ^ 53 - kv_TimestampMicro x))); [lia|exact Hx| |done]. split_and!; [done| |lia].
    eapply prefix_trans; [exact Hpx|]. by rewrite (ro_watermark _ Hok m).
  - exists m. split; [|done]. split; [done|]. intros (x & Hx & Hcx). apply Hno, Exists_exists. eauto.
Qed.

Lemma rows_ok_sub vs vs' : (forall v, v ∈ vs' -> v ∈ vs) -> rows_ok vs -> rows_ok vs'.
Proof. intros Hs [H1 H2 H3 H4 H5 H6]. split; eauto. Qed.

(** The specification determines the documents. *)
Lemma documents_unique vs vs' docs docs' :
  (forall v, v ∈ vs <-> v ∈ vs') -> documents vs docs -> documents vs' docs' -> docs = docs'.
Proof.
  intros Hsame Hd Hd'. assert (forall v, kept vs v <-> kept vs' v) as Hk.
  { intros v. unfold kept, newest, coveredIn. by setoid_rewrite Hsame. }
  apply map_eq. intros id. apply option_eq. intros d. rewrite (Hd id d), (Hd' id d). by setoid_rewrite Hk.
Qed.

(** ** Coverage *)

Section coverage.
Context `{MapRange}.

Lemma coveredBy_spec (m : gmap string Z) key t :
  coveredBy m key t = true <-> exists p t', m !! p = Some t' /\ t < t' /\ String.prefix p key = true.
Proof.
  unfold coveredBy. rewrite existsb_exists. split.
  - intros ([p t'] & Hin & Hc). apply list_elem_of_In in Hin. rewrite map_range_perm in Hin.
    apply elem_of_map_to_list in Hin. apply andb_true_iff in Hc as [Hlt%Z.ltb_lt Hp]. eauto.
  - intros (p & t' & Hm & Hlt & Hp). exists (p, t'). split.
    + apply list_elem_of_In. rewrite map_range_perm. by apply elem_of_map_to_list.
    + apply andb_true_iff. split; [by apply Z.ltb_lt|done].
Qed.

Lemma coveredBy_raiseTo (m : gmap string Z) p t1 key t : 0 <= t ->
  coveredBy (raiseTo p t1 m) key t = true <-> coveredBy m key t = true \/ (t < t1 /\ String.prefix p key = true).
Proof.
  intros Ht. rewrite !coveredBy_spec. unfold raiseTo. case_decide as Hd.
  - split.
    + intros (q & t' & Hq & Hlt & Hp). rewrite lookup_insert_Some in Hq. destruct Hq as [[<- <-]|[_ Hq]]; [by right|].
      left. eauto.
    + intros [(q & t' & Hq & Hlt & Hp)|[Hlt Hp]]; [|exists p, t1; by rewrite lookup_insert_eq].
      destruct (decide (q = p)) as [->|Hne].
      * exists p, t1. rewrite lookup_insert_eq. split_and!; [done| |done]. rewrite Hq in Hd. simpl in Hd. lia.
      * exists q, t'. by rewrite lookup_insert_ne.
  - split; [by left|]. intros [?|[Hlt Hp]]; [done|]. destruct (m !! p) as [t0|] eqn:Hm; simpl in Hd; [|lia].
    exists p, t0. split_and!; [done|lia|done].
Qed.

(** Publishing the watermarks of a batch. *)
Lemma coveredBy_publish (l : list (string * Z)) m key t : 0 <= t ->
  coveredBy (fold_left (fun n y => raiseTo y.1 y.2 n) l m) key t = true <->
  coveredBy m key t = true \/ Exists (fun y => t < y.2 /\ String.prefix y.1 key = true) l.
Proof.
  intros Ht. revert m. induction l as [|[p t1] l IH]; intros m; simpl; [by rewrite Exists_nil; tauto|].
  rewrite IH, coveredBy_raiseTo, Exists_cons by done. simpl. tauto.
Qed.

Lemma covered_publish (m : gmap string Z) r key t : 0 <= t ->
  coveredBy (fold_left (fun n y => raiseTo y.1 y.2 n) (map_range (ur_watermarks r)) m) key t = covered m r key t.
Proof.
  intros Ht. apply eq_true_iff_eq. rewrite coveredBy_publish by done. unfold covered. rewrite orb_true_iff.
  rewrite (coveredBy_spec (ur_watermarks r)). apply or_iff_compat_l. rewrite Exists_exists. split.
  - intros ([p t'] & Hin & Hlt & Hp). rewrite map_range_perm in Hin. apply elem_of_map_to_list in Hin. eauto.
  - intros (p & t' & Hm & Hlt & Hp). exists (p, t'). rewrite map_range_perm. by rewrite elem_of_map_to_list.
Qed.
End coverage.

(** ** The drop of a watermark *)

Section drop.
Context {C : Type} `{KvDbLaws C}.

Lemma takePrefix_filter p (l : list KvDoc) :
  StronglySorted (fun a b => String.leb (doc_id a) (doc_id b) = true) l ->
  Forall (fun d => String.leb p (doc_id d) = true) l ->
  forall d, d ∈ takePrefix p l <-> d ∈ l /\ String.prefix p (doc_id d) = true.
Proof.
  induction 1 as [|a l Hs IH Hall]; intros Hf d; simpl.
  - by rewrite elem_of_nil; split; [|intros [? _]].
  - apply Forall_cons in Hf as [Ha Hf]. specialize (IH Hf d). destruct (String.prefix p (doc_id a)) eqn:Hp.
    + rewrite !elem_of_cons, IH. naive_solver.
    + split; [by intros ?%not_elem_of_nil|]. intros [[->|Hd]%elem_of_cons Hpd]; [congruence|]. exfalso.
      rewrite Forall_forall in Hall. rewrite (prefix_between p (doc_id a) (doc_id d)) in Hp; [done|done|by apply Hall|done].
Qed.

Lemma iterateIdPrefix_spec c p l : db_wf c -> iterateIdPrefix c p = Ok l ->
  forall d, d ∈ l <-> db_docs c !! doc_id d = Some d /\ String.prefix p (doc_id d) = true.
Proof.
  intros Hwf Hl. unfold iterateIdPrefix in Hl. apply res_bind_Ok in Hl as (l0 & Hl0 & [= <-]).
  destruct (db_From_law _ _ _ Hwf Hl0) as (Hs & _ & Hin). intros d. rewrite takePrefix_filter; [|done|].
  - rewrite Hin. split; [tauto|]. intros [Hd Hp]. split_and!; [done| |done]. apply leb_compare.
    clear -Hp. revert Hp. generalize (doc_id d). induction p as [|c p IH]; intros [|e s]; try done. simpl.
    destruct (ascii_dec c e) as [->|]; [|done]. rewrite ascii_compare_refl'. apply IH.
  - apply Forall_forall. intros d' Hd'. by apply Hin in Hd' as [_ ?].
Qed.

Lemma deleteAll_spec ids c c' r r' u : db_wf c ->
  st_each (fun id => onDb (C:=C) (db_DeleteId id)) ids (c, r) = ((c', r'), Ok u) ->
  r' = r /\ db_wf c' /\ forall id, db_docs c' !! id = if decide (id ∈ ids) then None else db_docs c !! id.
Proof.
  revert c. induction ids as [|i ids IH]; intros c Hwf Hrun; simpl in Hrun.
  - injection Hrun as <- <-. done.
  - go_step Hrun. destruct s as [c1 r1]. unfold onDb in Hrun0. simpl in Hrun0.
    destruct (db_DeleteId i c) as [c2 [[]|e]] eqn:Hd; [|done]. injection Hrun0 as <- <-.
    apply db_DeleteId_law in Hd as [Hwf1 Hd]; [|done]. destruct (IH _ Hwf1 Hrun) as (-> & Hwf' & Hl).
    split_and!; [done|done|]. intros id. rewrite Hl, Hd. destruct (decide (id = i)) as [->|Hne].
    + rewrite lookup_delete_eq. rewrite (decide_True (P:=i ∈ i :: ids)) by by left. by case_decide.
    + rewrite lookup_delete_ne by done. by repeat case_decide; set_solver.
Qed.
End drop.

(** * Setting a batch of rows: what [updateValues] does to the documents, the watermarks, the
    heads to advertise and the heads to restore. *)

Section batch.
Context {C : Type} `{KvDbLaws C} `{MapRange}.
Implicit Types (x : C * updateResult) (docs : gmap string KvDoc).

(** ** The rows a watermark drops *)

Definition recordOlder (r : updateResult) (doc : KvDoc) : updateResult :=
  addRemoved (anyEncToElement doc) (recordPre (doc_id doc) (Some (anyEncToElement doc)) r).

Lemma recordAll_run (older : list KvDoc) x :
  st_each (fun doc =>
    let el := anyEncToElement doc in
    onResult (C:=C) (recordPre (el_Id el) (Some el)) ;;
    onResult (C:=C) (addRemoved el)) older x = ((x.1, fold_left recordOlder older x.2), Ok tt).
Proof.
  revert x. induction older as [|d older IH]; intros x; simpl; [by destruct x|].
  unfold mbind at 1, st_bind at 1. unfold mbind at 1, st_bind at 1. unfold onResult at 1, assigns at 1. simpl.
  unfold onResult at 1, assigns at 1. simpl. by rewrite IH.
Qed.

Lemma recordPre_lookup id el r i :
  ur_preState (recordPre id el r) !! i =
  match ur_preState r !! i with Some pre => Some pre | None => if decide (i = id) then Some el else None end.
Proof.
  unfold recordPre. destruct (ur_preState r !! id) eqn:Hid; simpl.
  - destruct (ur_preState r !! i) eqn:Hi; [done|]. case_decide; [congruence|done].
  - rewrite lookup_insert. case_decide as Hd; subst; [by rewrite Hid, decide_True|].
    rewrite (decide_False (P:=i = id)) by congruence. by destruct (ur_preState r !! i).
Qed.

Lemma recordPre_rest id el r :
  ur_elements (recordPre id el r) = ur_elements r /\ ur_removed (recordPre id el r) = ur_removed r /\
  ur_watermarks (recordPre id el r) = ur_watermarks r.
Proof. unfold recordPre. by destruct (ur_preState r !! id). Qed.

Lemma recordAll_rest older r :
  let r' := fold_left recordOlder older r in
  ur_elements r' = ur_elements r /\ ur_removed r' = ur_removed r ++ (anyEncToElement <$> older) /\
  ur_watermarks r' = ur_watermarks r.
Proof.
  cbv zeta. revert r. induction older as [|d older IH]; intros r; simpl; [by rewrite app_nil_r|].
  destruct (IH (recordOlder r d)) as (-> & -> & ->). unfold recordOlder, addRemoved. simpl.
  destruct (recordPre_rest (doc_id d) (Some (anyEncToElement d)) r) as (-> & -> & ->). by rewrite <- app_assoc.
Qed.

(** ** The heads as they were *)

(** The elements of a batch with the documents [docs] before it. *)
Record pre_ok docs (r : updateResult) : Prop := mkPreOk {
  po_pre id pre : ur_preState r !! id = Some pre -> pre = anyEncToElement <$> docs !! id;
  po_elements el : el ∈ ur_elements r -> is_Some (ur_preState r !! el_Id el);
  po_removed el : el ∈ ur_removed r -> is_Some (ur_preState r !! el_Id el);
}.
(** What was not recorded is as it was. *)
Definition unrecorded docs x : Prop := forall id, ur_preState x.2 !! id = None -> db_docs x.1 !! id = docs !! id.

Lemma recordPre_ok docs id el r :
  pre_ok docs r -> (ur_preState r !! id = None -> el = anyEncToElement <$> docs !! id) -> pre_ok docs (recordPre id el r).
Proof.
  intros [Hp He Hr] Hel. destruct (recordPre_rest id el r) as (Hre & Hrr & _). split.
  - intros i pre. rewrite recordPre_lookup. destruct (ur_preState r !! i) eqn:Hi; [intros [= <-]; by eapply Hp|].
    case_decide; [|done]. subst i. intros [= <-]. auto.
  - intros e. rewrite Hre, recordPre_lookup. intros [? ->]%He. eauto.
  - intros e. rewrite Hrr, recordPre_lookup. intros [? ->]%Hr. eauto.
Qed.

Lemma recordAll_ok docs older r :
  pre_ok docs r -> (forall d, d ∈ older -> ur_preState r !! doc_id d = None -> docs !! doc_id d = Some d) ->
  pre_ok docs (fold_left recordOlder older r) /\
  forall id, ur_preState (fold_left recordOlder older r) !! id = None <->
    ur_preState r !! id = None /\ id ∉ doc_id <$> older.
Proof.
  revert r. induction older as [|d older IH]; intros r Hok Hd; simpl.
  - split; [done|]. intros id. split; [|tauto]. intros ?. split; [done|]. apply not_elem_of_nil.
  - assert (pre_ok docs (recordPre (doc_id d) (Some (anyEncToElement d)) r)) as Hok1.
    { apply recordPre_ok; [done|]. intros Hn. by rewrite (Hd d ltac:(by left) Hn). }
    assert (pre_ok docs (recordOlder r d)) as Hok2.
    { destruct Hok1 as [Hp He Hr]. split; [exact Hp|exact He|]. intros el. unfold recordOlder, addRemoved. simpl.
      intros [Hin| ->%list_elem_of_singleton]%elem_of_app; [by apply Hr|]. simpl. rewrite recordPre_lookup.
      destruct (ur_preState r !! doc_id d); [eauto|]. rewrite decide_True by done. eauto. }
    assert (forall id, ur_preState (recordOlder r d) !! id = None <-> ur_preState r !! id = None /\ id <> doc_id d) as Hnone.
    { intros id. unfold recordOlder, addRemoved. simpl. rewrite recordPre_lookup.
      destruct (ur_preState r !! id) eqn:Hid; [naive_solver|]. case_decide; naive_solver. }
    destruct (IH (recordOlder r d) Hok2) as [Hok3 Hn3].
    { intros d' Hd' Hn. apply Hnone in Hn as [Hn _]. apply Hd; [by right|done]. }
    split; [done|]. intros id. rewrite Hn3, Hnone, not_elem_of_cons. tauto.
Qed.

Lemma deleteAll_keeps ids x : (st_each (fun id => onDb (C:=C) (db_DeleteId id)) ids x).1.2 = x.2.
Proof.
  revert x. induction ids as [|i ids IH]; intros x; simpl; [done|]. unfold mbind, st_bind.
  destruct (onDb (db_DeleteId i) x) as [x1 r1] eqn:Hi. assert (x1.2 = x.2) as Hx.
  { unfold onDb in Hi. destruct (db_DeleteId i x.1). by injection Hi as <- _. }
  destruct r1; [by rewrite IH|done].
Qed.

(** A document that a watermark drops. *)
Definition olderThan (wm : KeyValue) (d : KvDoc) : Prop :=
  String.prefix (kv_DeletePrefix wm) (doc_id d) = true /\ String.prefix (kv_DeletePrefix wm) (doc_k d) = true /\
  doc_t d < kv_TimestampMicro wm.

(** The effect of a watermark, with the list of what it dropped. *)
Record drops (wm : KeyValue) (older : list KvDoc) x x' : Prop := mkDrops {
  dr_older d : d ∈ older <-> db_docs x.1 !! doc_id d = Some d /\ olderThan wm d;
  dr_docs id : db_docs x'.1 !! id = if decide (id ∈ doc_id <$> older) then None else db_docs x.1 !! id;
  dr_watermarks : ur_watermarks x'.2 = raiseTo (kv_DeletePrefix wm) (kv_TimestampMicro wm) (ur_watermarks x.2);
  dr_elements : ur_elements x'.2 = ur_elements x.2;
  dr_removed : ur_removed x'.2 = ur_removed x.2 ++ (anyEncToElement <$> older);
}.

Lemma applyWatermark_cases docs wm x x' r :
  db_wf x.1 -> pre_ok docs x.2 -> unrecorded docs x -> applyWatermark wm x = (x', r) ->
  pre_ok docs x'.2 /\ (r = Ok tt -> db_wf x'.1 /\ unrecorded docs x' /\ exists older, drops wm older x x').
Proof.
  intros Hwf Hpre Hun Hrun. unfold applyWatermark in Hrun.
  apply st_bind_cases in Hrun as [(e & He & ->)|(x1 & l & Hl & Hrun)].
  { unfold calls in He. by injection He as <- _. }
  apply calls_Ok in Hl as [-> Hl]. pose proof (iterateIdPrefix_spec _ _ _ Hwf Hl) as Hin.
  cbv zeta in Hrun. set (older := List.filter _ l) in *.
  assert (forall d, d ∈ older <-> db_docs x.1 !! doc_id d = Some d /\ olderThan wm d) as Holder.
  { intros d. unfold older. rewrite list_elem_of_In, filter_In, <- list_elem_of_In, Hin, andb_true_iff, negb_true_iff, Z.leb_gt.
    unfold olderThan. tauto. }
  erewrite st_bind_run in Hrun by apply recordAll_run.
  destruct (recordAll_ok docs older x.2 Hpre) as [Hpre1 Hnone].
  { intros d Hd Hn. rewrite <- Hun by done. by apply Holder. }
  destruct (recordAll_rest older x.2) as (Hel & Hrem & Hwm).
  apply st_bind_cases in Hrun as [(e & He & ->)|([c2 r2] & u & Hdel & Hrun)].
  { split; [|done]. apply (f_equal (fun y => y.1.2)) in He. rewrite deleteAll_keeps in He. simpl in He. by rewrite <- He. }
  apply deleteAll_spec in Hdel as (-> & Hwf2 & Hdocs); [|done].
  unfold onResult, assigns in Hrun. injection Hrun as <- <-. simpl in *.
  split; [by destruct Hpre1; split|]. intros _. split_and!; [done| |exists older; split; simpl; try done].
  - intros id Hid. simpl in *. apply Hnone in Hid as [Hid Hnin]. rewrite Hdocs, decide_False by done. by apply Hun.
  - by rewrite Hwm.
Qed.

(** ** One row *)

(** The state after the row was written, before its watermark is applied. *)
Record writes v x x' : Prop := mkWrites {
  wr_docs : db_docs x'.1 = <[kv_KeyPeerId v := kv_AnyEnc v]> (db_docs x.1);
  wr_watermarks : ur_watermarks x'.2 = ur_watermarks x.2;
  wr_elements : ur_elements x'.2 = ur_elements x.2 ++ [anyEncToElement (kv_AnyEnc v)];
  wr_removed : ur_removed x'.2 = ur_removed x.2;
}.

Inductive updated (m : gmap string Z) v x : C * updateResult -> Prop :=
| up_covered : covered m x.2 (kv_Key v) (kv_TimestampMicro v) = true -> updated m v x x
| up_stale d :
    covered m x.2 (kv_Key v) (kv_TimestampMicro v) = false -> db_docs x.1 !! kv_KeyPeerId v = Some d ->
    kv_TimestampMicro v <= doc_t d -> updated m v x x
| up_value x' :
    covered m x.2 (kv_Key v) (kv_TimestampMicro v) = false ->
    (forall d, db_docs x.1 !! kv_KeyPeerId v = Some d -> doc_t d < kv_TimestampMicro v) ->
    writes v x x' -> kv_DeletePrefix v = "" -> updated m v x x'
| up_watermark x1 x' older :
    covered m x.2 (kv_Key v) (kv_TimestampMicro v) = false ->
    (forall d, db_docs x.1 !! kv_KeyPeerId v = Some d -> doc_t d < kv_TimestampMicro v) ->
    writes v x x1 -> kv_DeletePrefix v <> "" -> drops v older x1 x' -> updated m v x x'.

Lemma updateValue_cases docs m v x x' r :
  db_wf x.1 -> pre_ok docs x.2 -> unrecorded docs x -> updateValue m v x = (x', r) ->
  pre_ok docs x'.2 /\ (r = Ok tt -> db_wf x'.1 /\ unrecorded docs x' /\ updated m v x x').
Proof.
  intros Hwf Hpre Hun Hrun. unfold updateValue in Hrun. erewrite st_bind_run in Hrun by done.
  destruct (covered m x.2 (kv_Key v) (kv_TimestampMicro v)) eqn:Hcov.
  { injection Hrun as <- <-. split; [done|]. intros _. split_and!; [done..|]. by apply up_covered. }
  apply st_bind_cases in Hrun as [(e & He & ->)|(x1 & doc & Hdoc & Hrun)].
  { unfold calls in He. by injection He as <- _. }
  apply calls_Ok in Hdoc as [-> Hdoc]. apply db_FindId_law in Hdoc; [|done].
  destruct (match doc with Some d => kv_TimestampMicro v <=? doc_t d | None => false end) eqn:Hold.
  { injection Hrun as <- <-. split; [done|]. intros _. split_and!; [done..|]. destruct doc as [d|]; [|done].
    eapply (up_stale _ _ _ d); [done|by symmetry|by apply Z.leb_le]. }
  set (pre := anyEncToElement <$> doc).
  assert (exists x1, (match doc with
     | Some doc => let el := anyEncToElement doc in onResult (C:=C) (recordPre (el_Id el) (Some el))
     | None => onResult (C:=C) (recordPre (kv_KeyPeerId v) None) end) x = (x1, Ok tt) /\
     x1 = (x.1, recordPre (kv_KeyPeerId v) pre x.2)) as (x1 & Hx1 & ->).
  { eexists. split; [|done]. destruct doc as [d|]; [|done]. unfold onResult, assigns. simpl.
    by rewrite (db_ids _ _ _ Hwf (eq_sym Hdoc)). }
  rewrite (st_bind_run _ _ _ _ _ Hx1) in Hrun. cbv zeta in Hrun.
  assert (pre_ok docs (recordPre (kv_KeyPeerId v) pre x.2)) as Hpre1.
  { apply recordPre_ok; [done|]. intros Hn. unfold pre. by rewrite Hdoc, (Hun _ Hn). }
  apply st_bind_cases in Hrun as [(e & He & ->)|(x2 & u & Hup & Hrun)].
  { unfold onDb in He. simpl in He. destruct (db_UpsertOne _ x.1). by injection He as <- _. }
  unfold onDb in Hup. simpl in Hup. destruct (db_UpsertOne _ x.1) as [c2 [[]|e]] eqn:Hu; [|done]. injection Hup as <- _.
  apply db_UpsertOne_law in Hu as [Hwf2 Hdocs2]; [|done]. simpl in Hdocs2.
  erewrite st_bind_run in Hrun by done. simpl in Hrun.
  set (x3 := (c2, addUpsert (anyEncToElement (kv_AnyEnc v)) v (recordPre (kv_KeyPeerId v) pre x.2))) in *.
  destruct (recordPre_rest (kv_KeyPeerId v) pre x.2) as (Hre & Hrr & Hrw).
  assert (writes v x x3) as Hw by (split; simpl; congruence).
  assert (pre_ok docs x3.2) as Hpre3.
  { destruct Hpre1 as [Hp He Hr]. split; [exact Hp| |exact Hr]. intros el. simpl.
    intros [Hin| ->%list_elem_of_singleton]%elem_of_app; [by apply He|]. simpl. rewrite recordPre_lookup.
    destruct (ur_preState x.2 !! kv_KeyPeerId v); [eauto|]. rewrite decide_True by done. eauto. }
  assert (unrecorded docs x3) as Hun3.
  { intros id. simpl. rewrite recordPre_lookup. destruct (ur_preState x.2 !! id) eqn:Hid; [done|].
    destruct (decide (id = kv_KeyPeerId v)); [done|].
    intros _. rewrite Hdocs2, lookup_insert_ne by done. by apply Hun. }
  assert (forall d, db_docs x.1 !! kv_KeyPeerId v = Some d -> doc_t d < kv_TimestampMicro v) as Hnew.
  { intros d Hd. rewrite <- Hdoc in Hd. rewrite Hd in Hold. by apply Z.leb_gt in Hold. }
  case_decide as Hdp.
  - destruct (applyWatermark_cases docs v x3 x' r Hwf2 Hpre3 Hun3 Hrun) as [Hpre' Hr]. split; [done|].
    intros ->. destruct (Hr eq_refl) as (Hwf' & Hun' & older & Hd). split_and!; [done..|]. by eapply up_watermark.
  - injection Hrun as <- <-. split; [done|]. intros _. split_and!; [done..|]. by apply up_value.
Qed.

Lemma updateValues_pre docs m vs x x' r :
  db_wf x.1 -> pre_ok docs x.2 -> unrecorded docs x -> updateValues m vs x = (x', r) -> pre_ok docs x'.2.
Proof.
  unfold updateValues. revert x. induction vs as [|v vs IH]; intros x Hwf Hpre Hun Hrun; simpl in Hrun.
  - by injection Hrun as <- _.
  - apply st_bind_cases in Hrun as [(e & He & ->)|(x1 & [] & Hv & Hrun)].
    + by destruct (updateValue_cases _ _ _ _ _ _ Hwf Hpre Hun He) as [? _].
    + destruct (updateValue_cases _ _ _ _ _ _ Hwf Hpre Hun Hv) as [Hpre1 Hr].
      destruct (Hr eq_refl) as (Hwf1 & Hun1 & _). by eapply IH.
Qed.
End batch.
