(* ===== verification/KeyValueMain.v ===== *)
(** The theorems on the key-value store: stores that were given the same rows hold the
    same documents, in whatever order and batches the rows came; a batch that fails
    changes nothing; the diff advertises what is stored. *)

From Stdlib Require Import ZArith Lia String Permutation.
From stdpp Require Import base option list gmap strings sorting.
From S2P Require Import Prelude Crypto Ldiff HeadDiff KeyValue KeyValueInv.

Local Open Scope Z_scope.

Section refine.
Context {C : Type} `{KvDbLaws C} `{MapRange}.
Implicit Types (x : C * updateResult) (v : KeyValue) (vs : list KeyValue) (docs : gmap string KvDoc).

(** ** One row refines the specification *)

(** The documents and the coverage of a store are those of the rows [vs]. *)
Record refines (m : gmap string Z) vs x : Prop := mkRefines {
  rf_docs : documents vs (db_docs x.1);
  rf_covered : watermarksOf vs (covered m x.2);
}.

Lemma coveredIn_snoc vs v key t : coveredIn (vs ++ [v]) key t <-> coveredIn vs key t \/ covers v key t.
Proof.
  unfold coveredIn. split.
  - intros (w & [Hw| ->%list_elem_of_singleton]%elem_of_app & Hc); eauto.
  - intros [(w & Hw & Hc)|Hc]; [exists w|exists v]; (split; [|done]); apply elem_of_app; [by left|right; by left].
Qed.

Lemma newest_snoc_other vs v u :
  kv_KeyPeerId u <> kv_KeyPeerId v -> newest (vs ++ [v]) u <-> newest vs u.
Proof.
  intros Hne. unfold newest. setoid_rewrite elem_of_app. setoid_rewrite list_elem_of_singleton. naive_solver.
Qed.

(** Rows that add no coverage, and are not the newest of their id or are covered, change nothing. *)
Lemma documents_ignored vs v docs :
  rows_ok (vs ++ [v]) -> documents vs docs ->
  (forall key t, 0 <= t -> covers v key t -> coveredIn vs key t) ->
  (coveredIn vs (kv_Key v) (kv_TimestampMicro v) \/
   exists u, kept vs u /\ kv_KeyPeerId u = kv_KeyPeerId v /\ kv_TimestampMicro v <= kv_TimestampMicro u) ->
  documents (vs ++ [v]) docs.
Proof.
  intros Hok Hd Hcov Hv.
  assert (forall u, u ∈ vs ++ [v] -> coveredIn (vs ++ [v]) (kv_Key u) (kv_TimestampMicro u) <->
    coveredIn vs (kv_Key u) (kv_TimestampMicro u)) as Hcc.
  { intros u Hu. rewrite coveredIn_snoc. split; [|by left]. intros [?|Hc]; [done|]. apply Hcov; [|done].
    by apply (ro_time _ Hok). }
  assert (v ∈ vs ++ [v]) as Hvin by (apply elem_of_app; right; by left).
  assert (forall u, u ∈ vs -> u ∈ vs ++ [v]) as Hsub by (intros u Hu; apply elem_of_app; by left).
  intros id d. rewrite (Hd id d). split.
  - intros (u & [[Hu Hmax] Hnc] & Hid & ->). exists u. split_and!; [|done|done]. split; [split; [auto|]|rewrite Hcc by auto; done].
    intros v' [Hv'| ->%list_elem_of_singleton]%elem_of_app Hidv; [by apply Hmax|].
    destruct Hv as [Hc|(u' & [[Hu' _] _] & Hid' & Hle)].
    + destruct (decide (kv_TimestampMicro v <= kv_TimestampMicro u)) as [|Hgt]; [done|]. exfalso. apply Hnc.
      rewrite (ro_key _ Hok u v) by auto. eapply coveredIn_earlier; [|exact Hc]. lia.
    + etrans; [exact Hle|]. apply Hmax; [done|congruence].
  - intros (u & [[Hu Hmax] Hnc] & Hid & ->). rewrite Hcc in Hnc by done.
    assert (exists u', kept vs u' /\ kv_KeyPeerId u' = kv_KeyPeerId u /\ kv_AnyEnc u' = kv_AnyEnc u) as (u' & Hk & Hid' & He).
    { apply elem_of_app in Hu as [Hu| ->%list_elem_of_singleton].
      - exists u. split_and!; [|done|done]. split; [|done]. split; [done|]. intros v' Hv'. apply Hmax. auto.
      - destruct Hv as [Hc|(u' & Hk & Hidu & Hle)]; [done|]. exists u'. split_and!; [done|done|].
        destruct Hk as [[Hu' _] _]. apply (ro_unique _ Hok); [auto|done|done|].
        specialize (Hmax u' (Hsub _ Hu') Hidu). lia. }
    exists u'. split_and!; [done|congruence|done].
Qed.

(** A row that is neither covered nor stale is written, and drops what it covers. *)
Lemma documents_written vs v docs docs' :
  rows_ok (vs ++ [v]) -> documents vs docs -> ~ coveredIn vs (kv_Key v) (kv_TimestampMicro v) ->
  (forall d, docs !! kv_KeyPeerId v = Some d -> doc_t d < kv_TimestampMicro v) ->
  (forall id d, docs' !! id = Some d <->
     <[kv_KeyPeerId v := kv_AnyEnc v]> docs !! id = Some d /\ ~ covers v (doc_k d) (doc_t d)) ->
  documents (vs ++ [v]) docs'.
Proof.
  intros Hok Hd Hnc Hnew Hdocs'.
  assert (v ∈ vs ++ [v]) as Hvin by (apply elem_of_app; right; by left).
  assert (forall u, u ∈ vs -> u ∈ vs ++ [v]) as Hsub by (intros u Hu; apply elem_of_app; by left).
  assert (newest (vs ++ [v]) v) as Hnewest.
  { split; [done|]. intros u [Hu| ->%list_elem_of_singleton]%elem_of_app Hid; [|done].
    destruct (newest_exists vs u Hu) as (m & Hm & Hidm). pose proof Hm as [Hmin Hmax]. specialize (Hmax u Hu (eq_sym Hidm)).
    destruct (decide (kv_TimestampMicro u <= kv_TimestampMicro v)) as [|Hgt]; [done|]. exfalso.
    assert (~ kept vs m) as Hk.
    { intros Hk. assert (docs !! kv_KeyPeerId v = Some (kv_AnyEnc m)) as Hx.
      { apply Hd. exists m. split_and!; [done|congruence|done]. }
      apply Hnew in Hx. rewrite (doc_t_exact (vs ++ [v]) m) in Hx by auto. lia. }
    apply Hk. split; [done|]. intros Hc. apply Hnc. rewrite (ro_key _ Hok v m) by (auto; congruence).
    eapply coveredIn_earlier; [|exact Hc]. lia. }
  assert (~ covers v (kv_Key v) (kv_TimestampMicro v)) as Hself by (intros (_ & _ & ?); lia).
  assert (forall u, u ∈ vs ++ [v] -> covers v (doc_k (kv_AnyEnc u)) (doc_t (kv_AnyEnc u)) <->
    covers v (kv_Key u) (kv_TimestampMicro u)) as Hcv by (intros u Hu; by rewrite (doc_t_exact _ _ Hok Hu)).
  intros id d. rewrite Hdocs', lookup_insert_Some. split.
  - intros [[[<- <-]|[Hne Hx]] Hncv].
    + exists v. split_and!; [|done|done]. split; [done|]. rewrite coveredIn_snoc. tauto.
    + apply Hd in Hx as (u & [Hmax Hu] & Hid & ->). exists u. split_and!; [|done|done]. pose proof Hmax as [Hin _].
      split; [apply newest_snoc_other; [congruence|done]|]. rewrite coveredIn_snoc, <- (Hcv u) by auto. tauto.
  - intros (u & [Hmax Hu] & Hid & ->). pose proof Hmax as [Hin Hle]. rewrite coveredIn_snoc in Hu. rewrite Hcv by done.
    split; [|tauto]. destruct (decide (kv_KeyPeerId v = kv_KeyPeerId u)) as [Heq|Hne].
    + left. split; [congruence|]. apply (ro_unique _ Hok); try done. destruct Hnewest as [_ Hle'].
      specialize (Hle' u Hin (eq_sym Heq)). specialize (Hle v Hvin Heq). lia.
    + right. split; [congruence|]. apply Hd. exists u. split_and!; [|done|done]. split; [|tauto].
      by apply newest_snoc_other in Hmax.
Qed.

Lemma drops_spec vs v x x1 x' older id d :
  rows_ok (vs ++ [v]) -> documents vs (db_docs x.1) -> kv_DeletePrefix v <> "" -> writes v x x1 -> drops v older x1 x' ->
  db_docs x'.1 !! id = Some d <->
  <[kv_KeyPeerId v := kv_AnyEnc v]> (db_docs x.1) !! id = Some d /\ ~ covers v (doc_k d) (doc_t d).
Proof.
  intros Hok Hd Hdp Hw Hdr. rewrite (dr_docs _ _ _ _ Hdr id). rewrite <- (wr_docs _ _ _ Hw).
  assert (forall i e, db_docs x1.1 !! i = Some e -> doc_id e = i /\ String.prefix (doc_k e) (doc_id e) = true) as Hid.
  { intros i e. rewrite (wr_docs _ _ _ Hw), lookup_insert_Some. intros [[<- <-]|[_ Hx]].
    - split; [done|]. apply (ro_id _ Hok). apply elem_of_app. right. by left.
    - apply Hd in Hx as (u & [[Hu _] _] & <- & ->). split; [done|]. apply (ro_id _ Hok). apply elem_of_app. by left. }
  split.
  - destruct (decide (id ∈ doc_id <$> older)) as [|Hnin]; [done|]. intros Hx. split; [done|]. intros (_ & Hp & Hlt). apply Hnin.
    destruct (Hid _ _ Hx) as [Hi Hpre]. rewrite <- Hi. apply list_elem_of_fmap_2. apply (dr_older _ _ _ _ Hdr). rewrite Hi.
    split; [done|]. split_and!; [|done|done]. by eapply prefix_trans.
  - intros [Hx Hnc]. rewrite decide_False; [done|]. intros (e & -> & He)%list_elem_of_fmap.
    apply (dr_older _ _ _ _ Hdr) in He as (He & _ & Hp & Hlt). assert (e = d) as -> by congruence. by apply Hnc.
Qed.

Lemma refines_step m vs v x x' :
  rows_ok (vs ++ [v]) -> refines m vs x -> updated m v x x' -> refines m (vs ++ [v]) x'.
Proof.
  intros Hok [Hd Hcov] Hup.
  assert (v ∈ vs ++ [v]) as Hvin by (apply elem_of_app; right; by left).
  assert (forall u, u ∈ vs -> u ∈ vs ++ [v]) as Hsub by (intros u Hu; apply elem_of_app; by left).
  pose proof (ro_time _ Hok v Hvin) as Htime.
  assert (watermarksOf (vs ++ [v]) (covered m x'.2) <->
    forall key t, 0 <= t -> covered m x'.2 key t = true <-> covered m x.2 key t = true \/ covers v key t) as Hwm.
  { split; intros Hx key t Ht; rewrite (Hx key t Ht), coveredIn_snoc, (Hcov key t Ht); done. }
  assert (forall u key t, kept vs u -> kv_KeyPeerId u = kv_KeyPeerId v -> kv_TimestampMicro v <= kv_TimestampMicro u ->
    covers v key t -> coveredIn vs key t) as Hstale.
  { intros u key t [[Hu _] _] Hid Hle (Hdp & Hp & Hlt). exists u. split; [done|].
    assert (kv_DeletePrefix u <> "") as Hdu by (intros He; apply Hdp; by apply (ro_kind _ Hok u v); auto).
    split_and!; [done| |lia]. rewrite <- (ro_watermark _ Hok u), (ro_key _ Hok u v), (ro_watermark _ Hok v) by auto. done. }
  assert (forall key t, covers v key t -> kv_DeletePrefix v <> "") as Hdpc by (by intros key t (? & _)).
  destruct Hup as [Hc|d Hc Hdoc Hle|x' Hc Hnew Hw Hdp|x1 x' older Hc Hnew Hw Hdp Hdr].
  - apply Hcov in Hc as Hc'; [|lia].
    assert (forall key t, covers v key t -> coveredIn vs key t) as Hno.
    { intros key t Hk. eapply covers_covered; [|by apply (ro_watermark _ Hok), (Hdpc key t)|done|done]. by eapply Hdpc. }
    split; [apply documents_ignored; auto|]. apply Hwm. intros key t Ht. split; [by left|]. intros [?|Hk]; [done|].
    apply Hcov; [done|]. by apply Hno.
  - apply Hd in Hdoc as (u & Hk & Hid & ->).
    assert (kv_TimestampMicro v <= kv_TimestampMicro u) as Hle'.
    { pose proof Hk as [[Hu _] _]. by rewrite (doc_t_exact (vs ++ [v]) u) in Hle by auto. }
    split; [apply documents_ignored; [done|done| |right; eauto]|].
    + intros key t _. by eapply Hstale.
    + apply Hwm. intros key t Ht. split; [by left|]. intros [?|Hcv]; [done|]. apply Hcov; [done|]. by eapply Hstale.
  - split.
    + eapply documents_written; [done|exact Hd| |exact Hnew|].
      * intros Hx. apply Hcov in Hx; [congruence|lia].
      * intros id d. rewrite (wr_docs _ _ _ Hw). split; [|tauto]. intros Hx. split; [done|]. by intros (? & _).
    + apply Hwm. intros key t Ht. unfold covered. rewrite (wr_watermarks _ _ _ Hw). split; [by left|].
      intros [?|(? & _)]; [done|congruence].
  - split.
    + eapply documents_written; [done|exact Hd| |exact Hnew|].
      * intros Hx. apply Hcov in Hx; [congruence|lia].
      * intros id d. by apply (drops_spec vs v x x1 x' older).
    + apply Hwm. intros key t Ht. unfold covered. rewrite !orb_true_iff, (dr_watermarks _ _ _ _ Hdr), coveredBy_raiseTo by done.
      rewrite (wr_watermarks _ _ _ Hw). unfold covers. tauto.
Qed.

Lemma refines_batch m docs vs us x x' :
  db_wf x.1 -> pre_ok docs x.2 -> unrecorded docs x -> rows_ok (vs ++ us) -> refines m vs x ->
  updateValues m us x = (x', Ok tt) ->
  db_wf x'.1 /\ pre_ok docs x'.2 /\ unrecorded docs x' /\ refines m (vs ++ us) x'.
Proof.
  unfold updateValues. revert vs x. induction us as [|u us IH]; intros vs x Hwf Hpre Hun Hok Hr Hrun; simpl in Hrun.
  - injection Hrun as <-. by rewrite app_nil_r.
  - apply st_bind_Ok in Hrun as (x1 & [] & Hu & Hrun).
    destruct (updateValue_cases _ _ _ _ _ _ Hwf Hpre Hun Hu) as [Hpre1 Hu1]. destruct (Hu1 eq_refl) as (Hwf1 & Hun1 & Hup).
    replace (vs ++ u :: us) with ((vs ++ [u]) ++ us) in * by by rewrite <- app_assoc. eapply IH; [done..| |exact Hrun]. eapply refines_step; [|done|done].
    eapply rows_ok_sub; [|exact Hok]. intros v Hv. apply elem_of_app. by left.
Qed.
End refine.

(** ** Stores *)

Section stores.
Context {C : Type} `{KvDbLaws C} {D : Type} `{HeadDiffLaws D} `{MapRange}.
Implicit Types (s : kvStorage C D) (v : KeyValue) (vs : list KeyValue).

Abbreviation docsOf s := (db_docs (kvs_db s)).

Record store_ok vs s : Prop := mkStoreOk {
  so_wf : db_wf (kvs_db s);
  so_docs : documents vs (docsOf s);
  so_covered : watermarksOf vs (coveredBy (kvs_watermarks s));
}.

Lemma empty_pre docs : pre_ok docs emptyResult.
Proof. split; simpl; [by intros id pre; rewrite lookup_empty|by intros el ?%not_elem_of_nil..]. Qed.

Lemma covered_empty m key t : covered m emptyResult key t = coveredBy m key t.
Proof.
  unfold covered. assert (coveredBy (ur_watermarks emptyResult) key t = false) as ->; [|by rewrite orb_false_r].
  apply not_true_iff_false. rewrite coveredBy_spec. intros (p & t' & Hp & _). simpl in Hp. by rewrite lookup_empty in Hp.
Qed.

(** The parts of a batch that went through. *)
Lemma Set_rows_Ok vals s s' r :
  Set_rows vals s = (s', Ok r) ->
  exists x d, updateValues (kvs_watermarks s) vals (kvs_db s, emptyResult) = (x, Ok tt) /\
    (hd_Set (ur_elements x.2) ;; st_each (fun el => removeQuietly (el_Id el)) (ur_removed x.2)) (kvs_diff s) = (d, Ok tt) /\
    kvs_diff s' = d /\ kvs_storageName s' = kvs_storageName s /\
    kvs_watermarks s' =
      fold_left (fun n y => raiseTo y.1 y.2 n) (map_range (ur_watermarks x.2)) (kvs_watermarks s) /\
    (db_wf x.1 -> db_wf (kvs_db s') /\ docsOf s' = db_docs x.1).
Proof.
  unfold Set_rows, setBody. destruct (db_WriteTx (kvs_db s)); [|done].
  destruct (updateValues _ _ _) as [x [[]|e]] eqn:Hup; [|by destruct e as [?|?]; [destruct (restoreDiff _ _) as [? []]|]].
  destruct ((hd_Set _ ;; _) _) as [d [[]|e]] eqn:Hd; [|by destruct e as [?|?]; [destruct (restoreDiff _ _) as [? []]|]].
  case_decide as Hpre.
  - destruct (db_Commit x.1) as [|e]; [|by destruct e as [?|?]; [destruct (restoreDiff _ _) as [? []]|]].
    intros [= <- <-]. exists x, d. split_and!; try done.
  - destruct (hd_Hash d) as [hash|e]; [|by destruct e as [?|?]; [destruct (restoreDiff _ _) as [? []]|]].
    destruct (db_UpdateHeads _ _ x.1) as [c [[]|e]] eqn:Hc; [|by destruct e as [?|?]; [destruct (restoreDiff _ _) as [? []]|]].
    simpl. destruct (db_Commit c) as [|e]; [|by destruct e as [?|?]; [destruct (restoreDiff _ _) as [? []]|]].
    intros [= <- <-]. exists x, d. split_and!; try done. intros Hwf. by apply db_UpdateHeads_law in Hc.
Qed.

(** A batch that failed left the rows alone. *)
Lemma Set_rows_Err vals s s' e :
  Set_rows vals s = (s', Err e) ->
  kvs_db s' = kvs_db s /\ kvs_watermarks s' = kvs_watermarks s /\ kvs_storageName s' = kvs_storageName s.
Proof.
  unfold Set_rows. destruct (db_WriteTx (kvs_db s)); [|by intros [= <- _]].
  destruct (setBody s vals) as [[x d] result].
  destruct (match result with Ok _ => _ | Err e => _ end) as [u|[p|p]] eqn:Hc.
  - by destruct result.
  - destruct (restoreDiff _ d) as [d' [u|e']]; by intros [= <- _].
  - by intros [= <- _].
Qed.

Lemma store_ok_set vs vals s s' r :
  rows_ok (vs ++ vals) -> store_ok vs s -> Set_rows vals s = (s', Ok r) -> store_ok (vs ++ vals) s'.
Proof.
  intros Hok [Hwf Hd Hcov] Hrun. apply Set_rows_Ok in Hrun as (x & d & Hup & _ & _ & _ & Hwm & Hdocs).
  eapply (refines_batch _ (docsOf s)) in Hup as (Hwf' & _ & _ & [Hd' Hcov']); [|done|apply empty_pre|done|done|].
  - destruct (Hdocs Hwf') as [Hw Heq]. split; [done|by rewrite Heq|].
    intros key t Ht. rewrite Hwm, covered_publish by done. by apply Hcov'.
  - split; [done|]. intros key t Ht. simpl. rewrite covered_empty. by apply Hcov.
Qed.

(** ** Loading a store *)

Lemma coveredBy_loaded (l : list KvDoc) m key t : 0 <= t ->
  coveredBy (fold_left (fun n doc => if decide (doc_dp doc <> "") then raiseTo (doc_dp doc) (doc_t doc) n else n) l m)
    key t = true <->
  coveredBy m key t = true \/
    Exists (fun d => doc_dp d <> "" /\ String.prefix (doc_dp d) key = true /\ t < doc_t d) l.
Proof.
  intros Ht. revert m. induction l as [|d l IH]; intros m; simpl; [by rewrite Exists_nil; tauto|].
  rewrite IH, Exists_cons. case_decide; [rewrite coveredBy_raiseTo by done|]; tauto.
Qed.

Lemma store_ok_load vs name c s :
  rows_ok vs -> db_wf c -> documents vs (db_docs c) -> loadStorage name c = Ok s -> store_ok vs s.
Proof.
  intros Hok Hwf Hd Hl. unfold loadStorage in Hl. apply res_bind_Ok in Hl as (docs & Hall & Hl).
  apply res_bind_Ok in Hl as (d0 & _ & Hl). apply res_bind_Ok in Hl as (d & _ & Hl).
  apply res_bind_Ok in Hl as (hash & _ & Hl). apply res_bind_Ok in Hl as (c' & Hc & Hl).
  apply res_bind_Ok in Hl as (u & _ & [= <-]). apply runs_Ok in Hc as ([] & Hc).
  apply db_UpdateHeads_law in Hc as [Hwf' Hdocs]; [|done]. apply db_All_law in Hall as Hperm; [|done].
  split; simpl; [done|by rewrite Hdocs|]. intros key t Ht. rewrite coveredBy_loaded by done. split.
  - intros [(p & t' & Hp & _)%coveredBy_spec|Hex]; [by rewrite lookup_empty in Hp|].
    apply Exists_exists in Hex as (e & He & Hdp & Hp & Hlt). rewrite Hperm in He.
    apply list_elem_of_fmap in He as ([id e'] & -> & He). apply elem_of_map_to_list in He. simpl in *.
    apply Hd in He as (v & [[Hv _] _] & _ & ->). exists v. split; [done|]. split_and!; [done|done|].
    by rewrite (doc_t_exact vs v) in Hlt.
  - intros Hc'. right. destruct (covered_by_kept vs key t Hok Hc') as (w & Hk & Hdp & Hp & Hlt). pose proof Hk as [[Hw _] _].
    apply Exists_exists. exists (kv_AnyEnc w). split.
    + rewrite Hperm. apply list_elem_of_fmap. exists (kv_KeyPeerId w, kv_AnyEnc w). split; [done|].
      apply elem_of_map_to_list. apply Hd. eauto.
    + split_and!; [done|done|]. by rewrite (doc_t_exact vs w).
Qed.

(** ** Replicas *)

(** A store that was given the rows [vs], in batches that may fail, with restarts. *)
Inductive replica : list KeyValue -> kvStorage C D -> Prop :=
| replica_new name c s : db_wf c -> db_docs c = ∅ -> loadStorage name c = Ok s -> replica [] s
| replica_set vs vals s s' r : replica vs s -> Set_rows vals s = (s', Ok r) -> replica (vs ++ vals) s'
| replica_fail vs vals s s' e : replica vs s -> Set_rows vals s = (s', Err e) -> replica vs s'
| replica_restart vs name s s' : replica vs s -> loadStorage name (kvs_db s) = Ok s' -> replica vs s'.

Lemma replica_ok vs s : replica vs s -> rows_ok vs -> store_ok vs s.
Proof.
  induction 1 as [name c s Hwf He Hl|vs vals s s' r Hr IH Hs|vs vals s s' e Hr IH Hs|vs name s s' Hr IH Hl]; intros Hok.
  - eapply store_ok_load; [done|done| |done]. rewrite He. intros id d. rewrite lookup_empty. split; [done|].
    by intros (v & [[?%not_elem_of_nil _] _] & _).
  - eapply store_ok_set; [done| |done]. apply IH. eapply rows_ok_sub; [|done]. intros v Hv. apply elem_of_app. by left.
  - specialize (IH Hok) as [Hwf Hd Hc]. apply Set_rows_Err in Hs as (Hdb & Hwm & _).
    split; [by rewrite Hdb..|by rewrite Hwm].
  - specialize (IH Hok) as [Hwf Hd Hc]. by eapply store_ok_load.
Qed.

(** C8: replicas of a key-value store converge, for rows that are ordered by their times
    ([rows_ok]): times from 0 to 2^53, different times of the rows of an id, ids that start
    with their key and fix it, watermarks with their prefix as their key, and no id that is
    written both with values and with watermarks (without these they need not converge, by
    [kv_negative_time_diverges] and [kv_watermark_forgotten]).  Two stores that were given
    the same such rows, in whatever order, batches, repetitions, failed attempts and
    restarts, hold the same documents: of every row id the newest row, less the rows under the prefix of a newer
    watermark; and what either of them accepts next is the same. *)
Theorem kv_converges vs vs' s s' :
  rows_ok vs -> (forall v, v ∈ vs <-> v ∈ vs') -> replica vs s -> replica vs' s' ->
  docsOf s = docsOf s' /\
  (forall id d, docsOf s !! id = Some d <-> exists v, kept vs v /\ kv_KeyPeerId v = id /\ d = kv_AnyEnc v) /\
  (forall key t, 0 <= t -> coveredBy (kvs_watermarks s) key t = coveredBy (kvs_watermarks s') key t).
Proof.
  intros Hok Hsame Hr Hr'. assert (rows_ok vs') as Hok' by (eapply rows_ok_sub; [|exact Hok]; intros v; apply Hsame).
  destruct (replica_ok _ _ Hr Hok) as [_ Hd Hc]. destruct (replica_ok _ _ Hr' Hok') as [_ Hd' Hc'].
  split_and!; [by eapply documents_unique|exact Hd|]. intros key t Ht. apply eq_true_iff_eq.
  rewrite (Hc key t Ht), (Hc' key t Ht). unfold coveredIn. by setoid_rewrite Hsame.
Qed.
End stores.
