(* ===== verification/KeyValueDiff.v ===== *)
(** The diff of a key-value store advertises what is stored: after a batch was set, and
    after a batch that failed, when every head is as it was. *)

From Stdlib Require Import ZArith Lia String Permutation.
From stdpp Require Import base option list gmap strings sorting.
From S2P Require Import Prelude Crypto Ldiff HeadDiff KeyValue KeyValueInv KeyValueMain.

Local Open Scope Z_scope.

Definition headsOf (docs : gmap string KvDoc) : gmap string string := (fun d => headOf (doc_t d)) <$> docs.

(** Heads taken out one by one. *)
Definition dropHeads (els : list Element) (m : gmap string string) : gmap string string :=
  fold_left (fun m e => delete (el_Id e) m) els m.

Lemma dropHeads_lookup els m id :
  dropHeads els m !! id = if decide (id ∈ el_Id <$> els) then None else m !! id.
Proof.
  unfold dropHeads. revert m. induction els as [|e els IH]; intros m; simpl; [done|]. rewrite IH.
  destruct (decide (id ∈ el_Id <$> els)); [by rewrite decide_True by by right|].
  destruct (decide (id = el_Id e)) as [->|Hne].
  - rewrite lookup_delete_eq. by rewrite decide_True by by left.
  - rewrite lookup_delete_ne by done. by rewrite decide_False by (rewrite elem_of_cons; naive_solver).
Qed.

Lemma writeHeads_other els m id : id ∉ el_Id <$> els -> writeHeads els m !! id = m !! id.
Proof.
  unfold writeHeads. revert m. induction els as [|e els IH]; intros m Hid; simpl; [done|].
  rewrite fmap_cons, not_elem_of_cons in Hid. destruct Hid as [Hne Hid]. rewrite IH by done. by rewrite lookup_insert_ne.
Qed.

Section diff.
Context {C : Type} `{KvDbLaws C} {D : Type} `{HeadDiffLaws D} `{MapRange}.
Implicit Types (s : kvStorage C D) (v : KeyValue) (vs us : list KeyValue) (x : C * updateResult) (docs : gmap string KvDoc) (d : D).

Definition advertises s : Prop := hd_ok (kvs_diff s) /\ hd_contents (kvs_diff s) = headsOf (db_docs (kvs_db s)).

(** ** Changing the diff *)

Lemma removeQuietly_run id d d' : hd_ok d -> removeQuietly id d = (d', Ok tt) ->
  hd_ok d' /\ hd_contents d' = delete id (hd_contents d).
Proof.
  intros Hok Hrun. unfold removeQuietly in Hrun. destruct (hd_RemoveId id d) as [d1 r] eqn:Hr.
  pose proof (hd_RemoveId_law _ _ _ _ Hok Hr) as Hl. destruct r as [u|[e|e]]; [| |done]; injection Hrun as <-.
  - tauto.
  - destruct Hl as [-> Hn]. split; [done|]. by rewrite delete_id.
Qed.

Lemma removeAll_run els d d' : hd_ok d -> st_each (fun el => removeQuietly (el_Id el)) els d = (d', Ok tt) ->
  hd_ok d' /\ hd_contents d' = dropHeads els (hd_contents d).
Proof.
  revert d. induction els as [|e els IH]; intros d Hok Hrun; simpl in Hrun; [by injection Hrun as <-|].
  apply st_bind_Ok in Hrun as (d1 & [] & He & Hrun). destruct (removeQuietly_run _ _ _ Hok He) as [Hok1 Hc1].
  destruct (IH _ Hok1 Hrun) as [Hok' Hc']. split; [done|]. unfold dropHeads in *. simpl. by rewrite <- Hc1.
Qed.

Lemma diffBody_run els rem d d' :
  hd_ok d -> Forall (fun e => hd_storable (el_Id e)) els ->
  (hd_Set els ;; st_each (fun el => removeQuietly (el_Id el)) rem) d = (d', Ok tt) ->
  hd_ok d' /\ hd_contents d' = dropHeads rem (writeHeads els (hd_contents d)).
Proof.
  intros Hok Hst Hrun. apply st_bind_Ok in Hrun as (d1 & [] & Hset & Hrun).
  destruct (hd_Set_law _ _ _ Hok Hst Hset) as [Hok1 Hc1]. destruct (removeAll_run _ _ _ Hok1 Hrun) as [Hok' Hc'].
  split; [done|]. by rewrite Hc', Hc1.
Qed.

(** ** A batch that was set *)

(** No row of the batch falls under an earlier watermark of the batch. *)
Fixpoint tidy us : Prop :=
  match us with
  | [] => True
  | w :: us => (kv_DeletePrefix w <> "" -> Forall (fun v => String.prefix (kv_DeletePrefix w) (kv_Key v) = false) us) /\ tidy us
  end.

(** The heads to write and to drop make up for the change of the documents; what was
    dropped is under a watermark that the rest of the batch avoids. *)
Record agreed docs vs us x : Prop := mkAgreed {
  ag_heads : dropHeads (ur_removed x.2) (writeHeads (ur_elements x.2) (headsOf docs)) = headsOf (db_docs x.1);
  ag_removed el : el ∈ ur_removed x.2 ->
    exists u, u ∈ vs /\ kv_KeyPeerId u = el_Id el /\
      forall v, v ∈ us -> kv_Key v <> kv_Key u;
}.

Lemma agreed_step m docs vs v us x x' :
  rows_ok (vs ++ v :: us) -> tidy (v :: us) -> documents vs (db_docs x.1) ->
  agreed docs vs (v :: us) x -> updated m v x x' -> agreed docs (vs ++ [v]) us x'.
Proof.
  intros Hok Htidy Hdocs [Hh Hrem] Hup.
  assert (forall u, u ∈ vs -> u ∈ vs ++ v :: us) as Hsub by (intros u Hu; apply elem_of_app; by left).
  assert (forall el, el ∈ ur_removed x.2 -> exists u, u ∈ vs ++ [v] /\ kv_KeyPeerId u = el_Id el /\
      forall v, v ∈ us -> kv_Key v <> kv_Key u) as Hrem'.
  { intros el Hel. destruct (Hrem el Hel) as (u & Hu & Hid & Hk). exists u. split_and!; [apply elem_of_app; by left|done|].
    intros w Hw. apply Hk. by right. }
  assert (forall x1, writes v x x1 ->
    dropHeads (ur_removed x1.2) (writeHeads (ur_elements x1.2) (headsOf docs)) = headsOf (db_docs x1.1)) as Hwrite.
  { intros x1 [Hd _ He Hr]. rewrite He, Hr. unfold writeHeads at 1. rewrite fold_left_app. simpl.
    fold (writeHeads (ur_elements x.2) (headsOf docs)). apply map_eq. intros id. rewrite dropHeads_lookup, Hd.
    unfold headsOf at 2. rewrite lookup_fmap. destruct (decide (id = kv_KeyPeerId v)) as [->|Hne].
    - rewrite !lookup_insert_eq. rewrite decide_False; [done|]. intros (el & Heq & Hel)%list_elem_of_fmap.
      destruct (Hrem el Hel) as (u & Hu & Hid & Hk). apply (Hk v); [by left|].
      apply (ro_key _ Hok); [apply elem_of_app; right; by left|by auto|congruence].
    - rewrite !lookup_insert_ne by done. apply (f_equal (fun n => n !! id)) in Hh.
      rewrite dropHeads_lookup in Hh. unfold headsOf at 2 in Hh. by rewrite lookup_fmap in Hh. }
  destruct Hup as [Hc|d Hc Hdoc Hle|x' Hc Hnew Hw Hdp|x1 x' older Hc Hnew Hw Hdp Hdr]; [by split|by split| |].
  - split; [by apply Hwrite|]. intros el. rewrite (wr_removed _ _ _ Hw). apply Hrem'.
  - split.
    + rewrite (dr_removed _ _ _ _ Hdr), (dr_elements _ _ _ _ Hdr). unfold dropHeads at 1. rewrite fold_left_app.
      fold (dropHeads (ur_removed x1.2) (writeHeads (ur_elements x1.2) (headsOf docs))). rewrite (Hwrite x1 Hw).
      fold (dropHeads (anyEncToElement <$> older) (headsOf (db_docs x1.1))). apply map_eq. intros id.
      rewrite dropHeads_lookup. unfold headsOf. rewrite !lookup_fmap, (dr_docs _ _ _ _ Hdr).
      rewrite <- list_fmap_compose. change (el_Id ∘ anyEncToElement) with doc_id. by case_decide.
    + intros el. rewrite (dr_removed _ _ _ _ Hdr), (wr_removed _ _ _ Hw).
      intros [Hel|(d & -> & Hd)%list_elem_of_fmap]%elem_of_app; [by apply Hrem'|].
      apply (dr_older _ _ _ _ Hdr) in Hd as (Hd & _ & Hp & _). rewrite (wr_docs _ _ _ Hw), lookup_insert_Some in Hd.
      destruct Htidy as [Ht _]. specialize (Ht Hdp). rewrite Forall_forall in Ht.
      assert (exists u, u ∈ vs ++ [v] /\ kv_KeyPeerId u = doc_id d /\ kv_Key u = doc_k d) as (u & Hu & Hid & Hk).
      { destruct Hd as [[Hid <-]|[_ Hd]]; [exists v; split_and!; [apply elem_of_app; right; by left|done|done]|].
        apply Hdocs in Hd as (u & [[Hu _] _] & Hid & ->). exists u. split_and!; [apply elem_of_app; by left|done|done]. }
      exists u. split_and!; [done|done|]. intros w Hw' Heq. specialize (Ht w Hw'). rewrite Heq, Hk in Ht. congruence.
Qed.

Lemma agreed_batch m docs vs us x x' :
  db_wf x.1 -> pre_ok docs x.2 -> unrecorded docs x -> rows_ok (vs ++ us) -> tidy us -> refines m vs x ->
  agreed docs vs us x -> updateValues m us x = (x', Ok tt) -> agreed docs (vs ++ us) [] x'.
Proof.
  unfold updateValues. revert vs x. induction us as [|u us IH]; intros vs x Hwf Hpre Hun Hok Ht Hr Ha Hrun; simpl in Hrun.
  - injection Hrun as <-. by rewrite app_nil_r.
  - apply st_bind_Ok in Hrun as (x1 & [] & Hu & Hrun).
    destruct (updateValue_cases _ _ _ _ _ _ Hwf Hpre Hun Hu) as [Hpre1 Hu1]. destruct (Hu1 eq_refl) as (Hwf1 & Hun1 & Hup).
    pose proof (agreed_step _ _ _ _ _ _ _ Hok Ht (rf_docs _ _ _ Hr) Ha Hup) as Ha1. destruct Ht as [_ Ht].
    replace (vs ++ u :: us) with ((vs ++ [u]) ++ us) in * by by rewrite <- app_assoc.
    eapply IH; [done..| |done|exact Hrun]. eapply refines_step; [|done|done].
    eapply rows_ok_sub; [|exact Hok]. intros v Hv. apply elem_of_app. by left.
Qed.

(** The heads that are written are those of rows of the batch. *)
Lemma updated_elements m v x x' el :
  updated m v x x' -> el ∈ ur_elements x'.2 -> el ∈ ur_elements x.2 \/ el_Id el = kv_KeyPeerId v.
Proof.
  assert (forall x1, writes v x x1 -> el ∈ ur_elements x1.2 -> el ∈ ur_elements x.2 \/ el_Id el = kv_KeyPeerId v) as Hw.
  { intros x1 [_ _ -> _]. intros [?| ->%list_elem_of_singleton]%elem_of_app; [by left|by right]. }
  destruct 1 as [|d|x'|x1 x' older ? ? ? ? Hdr]; [by left..|by apply Hw|]. rewrite (dr_elements _ _ _ _ Hdr). by apply Hw.
Qed.

Lemma updateValues_ids docs m us x x' :
  db_wf x.1 -> pre_ok docs x.2 -> unrecorded docs x ->
  Forall (fun v => hd_storable (kv_KeyPeerId v)) us -> Forall (fun e => hd_storable (el_Id e)) (ur_elements x.2) ->
  updateValues m us x = (x', Ok tt) -> Forall (fun e => hd_storable (el_Id e)) (ur_elements x'.2).
Proof.
  unfold updateValues. intros Hwf Hpre Hun Hst. revert x Hwf Hpre Hun. induction Hst as [|u us Hu Hst IH];
    intros x Hwf Hpre Hun He Hrun; simpl in Hrun; [by injection Hrun as <-|].
  apply st_bind_Ok in Hrun as (x1 & [] & Hu' & Hrun).
  destruct (updateValue_cases _ _ _ _ _ _ Hwf Hpre Hun Hu') as [Hpre1 Hu1]. destruct (Hu1 eq_refl) as (Hwf1 & Hun1 & Hup).
  eapply IH; [done..| |exact Hrun]. rewrite Forall_forall in *. intros el Hel.
  destruct (updated_elements _ _ _ _ _ Hup Hel) as [?| ->]; auto.
Qed.

(** The diff advertises what is stored.  When the diff of a store has the heads of its
    rows, it has them again after a batch was set, provided that no row of the batch falls
    under an earlier watermark of the batch. *)
Theorem kv_diff_agrees vs vals s s' r :
  store_ok vs s -> rows_ok (vs ++ vals) -> Forall (fun v => hd_storable (kv_KeyPeerId v)) vals -> tidy vals ->
  advertises s -> Set_rows vals s = (s', Ok r) -> advertises s'.
Proof.
  intros [Hwf Hd Hcov] Hok Hst Ht [Hdok Hdc] Hrun.
  apply Set_rows_Ok in Hrun as (x & d & Hup & Hdiff & Hd' & _ & _ & Hdocs).
  assert (unrecorded (db_docs (kvs_db s)) (kvs_db s, emptyResult)) as Hun by done.
  assert (refines (kvs_watermarks s) vs (kvs_db s, emptyResult)) as Hr.
  { split; [done|]. intros key t Htm. simpl. rewrite covered_empty. by apply Hcov. }
  pose proof (empty_pre (db_docs (kvs_db s))) as Hpre.
  pose proof (updateValues_ids _ _ _ (kvs_db s, emptyResult) _ Hwf Hpre Hun Hst (Forall_nil_2 _) Hup) as Hids.
  destruct (refines_batch _ _ _ _ (kvs_db s, emptyResult) _ Hwf Hpre Hun Hok Hr Hup) as (Hwf' & _).
  assert (agreed (db_docs (kvs_db s)) vs vals (kvs_db s, emptyResult)) as Ha.
  { split; [done|]. by intros el ?%not_elem_of_nil. }
  destruct (agreed_batch _ _ _ _ (kvs_db s, emptyResult) _ Hwf Hpre Hun Hok Ht Hr Ha Hup) as [Hh _].
  destruct (diffBody_run _ _ _ _ Hdok Hids Hdiff) as [Hok' Hc']. destruct (Hdocs Hwf') as [_ Heq].
  split; [by rewrite Hd'|]. by rewrite Hd', Hc', Hdc, Hh, Heq.
Qed.

(** ** A batch that failed *)

(** What a step of the restoration leaves, when the elements are those of [docs]. *)
Lemma restore_run docs (l : list (string * option Element)) d d' :
  (forall id e, docs !! id = Some e -> doc_id e = id /\ hd_storable id) ->
  Forall (fun y => y.2 = anyEncToElement <$> docs !! y.1) l -> hd_ok d ->
  st_each (fun y : string * option Element =>
    match y.2 with None => removeQuietly y.1 | Some pre => hd_Set [pre] end) l d = (d', Ok tt) ->
  hd_ok d' /\ forall id, hd_contents d' !! id =
    if decide (id ∈ l.*1) then headsOf docs !! id else hd_contents d !! id.
Proof.
  intros Hids Hl. revert d. induction Hl as [|[i pre] l Hpre Hl IH]; intros d Hok Hrun; simpl in Hrun; [by injection Hrun as <-|].
  apply st_bind_Ok in Hrun as (d1 & [] & Hi & Hrun). simpl in Hpre.
  assert (hd_ok d1 /\ forall id, hd_contents d1 !! id = if decide (id = i) then headsOf docs !! id else hd_contents d !! id)
    as [Hok1 Hc1].
  { unfold headsOf. destruct (docs !! i) as [e|] eqn:He; subst pre; simpl in Hi.
    - destruct (Hids _ _ He) as [Hide Hst]. apply hd_Set_law in Hi as [Hok1 Hc]; [|done|].
      2: { apply Forall_singleton. simpl. by rewrite Hide. }
      split; [done|]. intros id. rewrite Hc. unfold writeHeads. simpl. rewrite Hide. case_decide as Hd.
      + subst id. by rewrite lookup_insert_eq, lookup_fmap, He.
      + by rewrite lookup_insert_ne by done.
    - apply removeQuietly_run in Hi as [Hok1 Hc]; [|done]. split; [done|]. intros id. rewrite Hc. case_decide as Hd.
      + subst id. by rewrite lookup_delete_eq, lookup_fmap, He.
      + by rewrite lookup_delete_ne by done. }
  destruct (IH _ Hok1 Hrun) as [Hok' Hc']. split; [done|]. intros id. rewrite Hc', Hc1. simpl.
  destruct (decide (id ∈ l.*1)); [by rewrite decide_True by by right|].
  destruct (decide (id = i)) as [->|Hne]; [by rewrite decide_True by by left|].
  by rewrite decide_False by (rewrite elem_of_cons; naive_solver).
Qed.

Lemma restoreDiff_run docs (pre : gmap string (option Element)) d d' :
  (forall id e, docs !! id = Some e -> doc_id e = id /\ hd_storable id) ->
  (forall id p, pre !! id = Some p -> p = anyEncToElement <$> docs !! id) -> hd_ok d ->
  (forall id, pre !! id = None -> hd_contents d !! id = headsOf docs !! id) ->
  restoreDiff pre d = (d', Ok tt) -> hd_ok d' /\ hd_contents d' = headsOf docs.
Proof.
  intros Hids Hpre Hok Hrest Hrun. unfold restoreDiff in Hrun.
  destruct (restore_run docs (map_range pre) d d' Hids) as [Hok' Hc]; [|done|exact Hrun|].
  { apply Forall_forall. intros [id p] Hin. rewrite map_range_perm in Hin. apply elem_of_map_to_list in Hin. by apply Hpre. }
  split; [done|]. apply map_eq. intros id. rewrite Hc. case_decide as Hin; [done|]. apply Hrest.
  destruct (pre !! id) as [p|] eqn:Hp; [|done]. exfalso. apply Hin. apply list_elem_of_fmap. exists (id, p). split; [done|].
  rewrite map_range_perm. by apply elem_of_map_to_list.
Qed.

Lemma diffBody_panics els rem : panics (hd_Set (D:=D) els ;; st_each (fun el => removeQuietly (el_Id el)) rem).
Proof.
  apply panics_bind.
  - intros d e He. destruct (hd_Set els d) as [d' r] eqn:Hr. simpl in He. subst r. by eapply hd_Set_panics.
  - intros _. apply panics_each. intros el d e. unfold removeQuietly. by destruct (hd_RemoveId _ d) as [d' [?|[?|?]]].
Qed.

Lemma restoreDiff_panics pre : panics (restoreDiff (D:=D) pre).
Proof.
  unfold restoreDiff. apply panics_each. intros [id [el|]] d e; simpl.
  - destruct (hd_Set [el] d) as [d' r] eqn:Hr. simpl. intros ->. by eapply hd_Set_panics.
  - unfold removeQuietly. by destruct (hd_RemoveId _ d) as [d' [?|[?|?]]].
Qed.

(** The diff before the deferred function. *)
Lemma setBody_diff vals s x d result :
  db_wf (kvs_db s) -> Forall (fun v => hd_storable (kv_KeyPeerId v)) vals -> advertises s ->
  setBody s vals = (x, d, result) -> (forall p, result <> Err (GoPanic p)) ->
  pre_ok (db_docs (kvs_db s)) x.2 /\ hd_ok d /\
  forall id, ur_preState x.2 !! id = None -> hd_contents d !! id = headsOf (db_docs (kvs_db s)) !! id.
Proof.
  intros Hwf Hst [Hdok Hdc] Hbody Hnp. unfold setBody in Hbody.
  pose proof (empty_pre (db_docs (kvs_db s))) as Hpre.
  assert (unrecorded (db_docs (kvs_db s)) (kvs_db s, emptyResult)) as Hun by done.
  destruct (updateValues _ _ _) as [x1 r1] eqn:Hup.
  pose proof (updateValues_pre _ _ _ (kvs_db s, emptyResult) _ _ Hwf Hpre Hun Hup) as Hpre1.
  destruct r1 as [[]|e]; [|by injection Hbody as <- <- _; rewrite Hdc].
  pose proof (updateValues_ids _ _ _ (kvs_db s, emptyResult) _ Hwf Hpre Hun Hst (Forall_nil_2 _) Hup) as Hids.
  pose proof (diffBody_panics (ur_elements x1.2) (ur_removed x1.2) (kvs_diff s)) as Hpan.
  destruct ((hd_Set _ ;; _) (kvs_diff s)) as [d1 [[]|[e|e]]] eqn:Hd; [| |by injection Hbody as _ _ <-; destruct (Hnp e)].
  2: { by destruct (Hpan e). }
  destruct (diffBody_run _ _ _ _ Hdok Hids Hd) as [Hok1 Hc1]. destruct Hpre1 as [Hp He Hr].
  assert (forall id, ur_preState x1.2 !! id = None -> hd_contents d1 !! id = headsOf (db_docs (kvs_db s)) !! id) as Hrest.
  { intros id Hid. rewrite Hc1, dropHeads_lookup, decide_False, writeHeads_other, Hdc; [done|..];
      intros (el & -> & Hel)%list_elem_of_fmap; [apply He in Hel|apply Hr in Hel]; rewrite Hid in Hel; by destruct Hel. }
  assert (exists c, x = (c, x1.2) /\ d = d1) as (c & -> & ->).
  { case_decide; [by injection Hbody as <- <- _; exists x1.1; destruct x1|].
    destruct (hd_Hash d1); [|by injection Hbody as <- <- _; exists x1.1; destruct x1].
    destruct (db_UpdateHeads _ _ x1.1) as [c [|]]; injection Hbody as <- <- _; by exists c. }
  split_and!; [by split|done|done].
Qed.

(** C9: a batch that fails changes nothing.  When setting a batch returns an error, because
    a row cannot be read or written or the transaction cannot be committed, the documents
    and the watermarks are the same and the diff has the heads of the stored rows again. *)
Theorem kv_set_atomic vals s s' e :
  db_wf (kvs_db s) -> (forall id doc, db_docs (kvs_db s) !! id = Some doc -> hd_storable id) ->
  Forall (fun v => hd_storable (kv_KeyPeerId v)) vals ->
  advertises s -> Set_rows vals s = (s', Err (GoError e)) ->
  kvs_db s' = kvs_db s /\ kvs_watermarks s' = kvs_watermarks s /\ advertises s'.
Proof.
  intros Hwf Hids Hst [Hdok Hdc] Hrun. pose proof (Set_rows_Err _ _ _ _ Hrun) as (Hdb & Hwm & _).
  split_and!; [done|done|]. unfold advertises. rewrite Hdb. unfold Set_rows in Hrun.
  destruct (db_WriteTx (kvs_db s)); [|by injection Hrun as <- _].
  destruct (setBody s vals) as [[x d] result] eqn:Hbody.
  assert (forall p, result <> Err (GoPanic p)) as Hnp by (by intros p ->).
  destruct (setBody_diff _ _ _ _ _ Hwf Hst (conj Hdok Hdc) Hbody Hnp) as ([Hp _ _] & Hok1 & Hrest).
  destruct (match result with Ok _ => _ | Err e => _ end) as [u|[p|p]] eqn:Hc; [by destruct result| |done].
  destruct (restoreDiff (ur_preState x.2) d) as [d' [[]|e']] eqn:Hres.
  - injection Hrun as <- <-. simpl. eapply restoreDiff_run; [|exact Hp|exact Hok1|exact Hrest|exact Hres].
    intros id e' He'. split; [by eapply db_ids|by eapply Hids].
  - exfalso. injection Hrun as <- ->. pose proof (restoreDiff_panics (ur_preState x.2) d) as Hpan. rewrite Hres in Hpan.
    by destruct (Hpan e).
Qed.
End diff.
