(* ===== verification/TreeModels.v ===== *)
(** The data of object trees (src/commonspace/object/tree: the messages of
    treechangeproto, the change of change.go, the stored change of storage.go). *)

From Stdlib Require Import ZArith String.
From stdpp Require Import base option list strings.
From S2P Require Import Prelude Crypto.

Local Open Scope Z_scope.

(** ** Messages *)

Record RawTreeChangeWithId := mkRawTreeChangeWithId {
  rtc_RawChange : option bytes;
  rtc_Id : string;
}.

Record RawTreeChange := mkRawTreeChange {
  rt_Payload : bytes;
  rt_Signature : option bytes;
}.

Record RootChange := mkRootChange {
  rc_AclHeadId : string;
  rc_SpaceId : string;
  rc_ChangeType : string;
  rc_Timestamp : Z;
  rc_Seed : bytes;
  rc_Identity : bytes;
  rc_ChangePayload : bytes;
  rc_IsDerived : bool;
  rc_ParentId : string;
}.

Record TreeChange := mkTreeChange {
  tc_TreeHeadIds : list string;
  tc_AclHeadId : string;
  tc_SnapshotBaseId : string;
  tc_ChangesData : option bytes;
  tc_ReadKeyId : string;
  tc_Timestamp : Z;
  tc_Identity : bytes;
  tc_IsSnapshot : bool;
  tc_DataType : string;
}.

(** A change decoded without its data. *)
Record NoDataTreeChange := mkNoDataTreeChange {
  nd_TreeHeadIds : list string;
  nd_AclHeadId : string;
  nd_SnapshotBaseId : string;
  nd_ReadKeyId : string;
  nd_Timestamp : Z;
  nd_Identity : bytes;
  nd_IsSnapshot : bool;
  nd_DataType : string;
}.

(** Only the predecessors. *)
Record ReducedTreeChange := mkReducedTreeChange { rd_TreeHeadIds : list string }.

(** ** Changes *)

(** The fields of a change that the tree of tree.go carries without reading them. *)
Record ChangeInfo := mkChangeInfo {
  ci_AclHeadId : string;
  ci_Timestamp : Z;
  ci_ReadKeyId : string;
  ci_Identity : option PubKey;
  ci_Data : option bytes;
  ci_Signature : option bytes;
  ci_DataType : string;
  ci_IsDerived : bool;
  ci_IsNew : bool;
  ci_ParentId : string;
  ci_AddSeq : Z;
  ci_rawChange : option RawTreeChangeWithId;
}.

Definition zeroInfo : ChangeInfo :=
  mkChangeInfo "" 0 "" None None None "" false false "" 0 None.

(** The fields the tree reads or writes, and the rest. *)
Record Change := mkChange {
  ch_Id : string;
  ch_PreviousIds : list string;
  ch_SnapshotId : string;
  ch_IsSnapshot : bool;
  ch_Info : ChangeInfo;
  ch_OrderId : string;
  ch_SnapshotCounter : Z;
  ch_Next : list string;
  ch_Previous : list string;
}.

(** ** Stored changes *)

Record StorageChange := mkStorageChange {
  sc_RawChange : option bytes;
  sc_PrevIds : list string;
  sc_Id : string;
  sc_SnapshotCounter : Z;
  sc_SnapshotId : string;
  sc_OrderId : string;
  sc_ChangeSize : Z;
  sc_TreeId : string;
  sc_AddSeq : Z;
}.

(** [StorageChange.RawTreeChangeWithId] *)
Definition sc_Raw (c : StorageChange) : RawTreeChangeWithId :=
  mkRawTreeChangeWithId (sc_RawChange c) (sc_Id c).

#[global] Instance RawTreeChangeWithId_eq_dec : EqDecision RawTreeChangeWithId.
Proof. solve_decision. Defined.
#[global] Instance ChangeInfo_eq_dec : EqDecision ChangeInfo.
Proof. solve_decision. Defined.
#[global] Instance Change_eq_dec : EqDecision Change.
Proof. solve_decision. Defined.
#[global] Instance StorageChange_eq_dec : EqDecision StorageChange.
Proof. solve_decision. Defined.
