(* ===== verification/Tree.v ===== *)
(** The change tree of an object (src/commonspace/object/tree/objecttree: tree.go,
    treeiterator.go, treereduce.go): changes that name their predecessors arrive in
    any order, are attached once their predecessors are, and are iterated in a
    topological order that every replica computes alike.

    A [*Change] pointer is the change's id.  The iterator's marks ([visited],
    [branchesFinished]) are false between calls and are the sets the traversals keep;
    only the early return of [reduceTree] for the missing snapshot of a further head
    leaves marks behind, which the model does not carry.
    The lexid generator is third-party code: the class [LexId]. *)

From Stdlib Require Import ZArith Lia String.
From stdpp Require Import base option list gmap strings sorting.
From S2P Require Import Prelude Crypto TreeModels.

Local Open Scope Z_scope.

(** ** Changes *)

Definition with_Next l c := mkChange (ch_Id c) (ch_PreviousIds c) (ch_SnapshotId c)
  (ch_IsSnapshot c) (ch_Info c) (ch_OrderId c) (ch_SnapshotCounter c) l (ch_Previous c).
Definition with_Previous l c := mkChange (ch_Id c) (ch_PreviousIds c) (ch_SnapshotId c)
  (ch_IsSnapshot c) (ch_Info c) (ch_OrderId c) (ch_SnapshotCounter c) (ch_Next c) l.
Definition with_PreviousIds l c := mkChange (ch_Id c) l (ch_SnapshotId c) (ch_IsSnapshot c)
  (ch_Info c) (ch_OrderId c) (ch_SnapshotCounter c) (ch_Next c) (ch_Previous c).
Definition with_OrderId o c := mkChange (ch_Id c) (ch_PreviousIds c) (ch_SnapshotId c)
  (ch_IsSnapshot c) (ch_Info c) o (ch_SnapshotCounter c) (ch_Next c) (ch_Previous c).
Definition with_SnapshotCounter n c := mkChange (ch_Id c) (ch_PreviousIds c) (ch_SnapshotId c)
  (ch_IsSnapshot c) (ch_Info c) (ch_OrderId c) n (ch_Next c) (ch_Previous c).

Inductive Mode := Append | Rebuild | Nothing.

Abbreviation changes := (gmap string Change).

Record Tree := mkTree {
  t_root : option string;
  t_headIds : list string;
  t_lastIteratedHeadId : string;
  t_attached : changes;
  t_unAttached : changes;
  t_waitList : gmap string (list string);
  t_invalidChanges : gset string;
  t_possibleRoots : list string;
  t_addedBuf : list string;
}.

Definition emptyTree : Tree := mkTree None [] "" ∅ ∅ ∅ ∅ [] [].

Definition set_root v t := mkTree v (t_headIds t) (t_lastIteratedHeadId t) (t_attached t)
  (t_unAttached t) (t_waitList t) (t_invalidChanges t) (t_possibleRoots t) (t_addedBuf t).
Definition set_heads v lst t := mkTree (t_root t) v lst (t_attached t) (t_unAttached t)
  (t_waitList t) (t_invalidChanges t) (t_possibleRoots t) (t_addedBuf t).
Definition set_attached v t := mkTree (t_root t) (t_headIds t) (t_lastIteratedHeadId t) v
  (t_unAttached t) (t_waitList t) (t_invalidChanges t) (t_possibleRoots t) (t_addedBuf t).
Definition set_unAttached v t := mkTree (t_root t) (t_headIds t) (t_lastIteratedHeadId t)
  (t_attached t) v (t_waitList t) (t_invalidChanges t) (t_possibleRoots t) (t_addedBuf t).
Definition set_waitList v t := mkTree (t_root t) (t_headIds t) (t_lastIteratedHeadId t)
  (t_attached t) (t_unAttached t) v (t_invalidChanges t) (t_possibleRoots t) (t_addedBuf t).
Definition set_invalidChanges v t := mkTree (t_root t) (t_headIds t) (t_lastIteratedHeadId t)
  (t_attached t) (t_unAttached t) (t_waitList t) v (t_possibleRoots t) (t_addedBuf t).
Definition set_possibleRoots v t := mkTree (t_root t) (t_headIds t) (t_lastIteratedHeadId t)
  (t_attached t) (t_unAttached t) (t_waitList t) (t_invalidChanges t) v (t_addedBuf t).
Definition set_addedBuf v t := mkTree (t_root t) (t_headIds t) (t_lastIteratedHeadId t)
  (t_attached t) (t_unAttached t) (t_waitList t) (t_invalidChanges t) (t_possibleRoots t) v.

Definition put_attached id c t := set_attached (<[id := c]> (t_attached t)) t.

Definition nilChange := GoPanic "nil Change".

(** ** Iteration (treeiterator.go) *)

Section iterator.
(** [ch.Next] *)
Variable next : string -> list string.

(** [topSort]: the stack, top first; the marks; the changes finished so far. *)
Record topState := mkTopState {
  ts_stack : list string;
  ts_visited : gset string;
  ts_branchesFinished : gset string;
  ts_resBuf : list string;
}.

(** One round of the loop for the change [ch] on top of [stack]. *)
Definition topStep (ch : string) (stack : list string) (s : topState) : topState :=
  if decide (ch ∈ ts_branchesFinished s) then
    mkTopState stack (ts_visited s) (ts_branchesFinished s ∖ {[ ch ]}) (ts_resBuf s ++ [ch])
  else if decide (ch ∈ ts_visited s) then
    mkTopState stack (ts_visited s) (ts_branchesFinished s) (ts_resBuf s)
  else
    let visited := {[ ch ]} ∪ ts_visited s in
    mkTopState (rev (filter (fun n => n ∉ visited) (next ch)) ++ ch :: stack) visited
      ({[ ch ]} ∪ ts_branchesFinished s) (ts_resBuf s).

Fixpoint topLoop (fuel : nat) (s : topState) : option (list string) :=
  match ts_stack s, fuel with
  | [], _ => Some (ts_resBuf s)
  | _, O => None
  | ch :: stack, S fuel => topLoop fuel (topStep ch stack s)
  end.

(** [dfsNext] and [dfsPrev] with a visitor that always goes on: what gets visited. *)
Fixpoint dfsLoop (fuel : nat) (stack : list string) (visited : gset string)
    : option (gset string) :=
  match stack, fuel with
  | [], _ => Some visited
  | _, O => None
  | ch :: stack, S fuel =>
      if decide (ch ∈ visited) then dfsLoop fuel stack visited
      else
        let visited := {[ ch ]} ∪ visited in
        dfsLoop fuel (rev (filter (fun n => n ∉ visited) (next ch)) ++ stack) visited
  end.
End iterator.

Definition nextOf (m : changes) (id : string) : list string :=
  match m !! id with Some c => ch_Next c | None => [] end.
(** Predecessors that were removed from the tree have no effect on what is attached. *)
Definition previousOf (m : changes) (id : string) : list string :=
  match m !! id with
  | Some c => filter (fun p => is_Some (m !! p)) (ch_Previous c)
  | None => []
  end.

(** Every change is pushed at most once per edge into it, and once more when it is
    discovered. *)
Definition edges (m : changes) (next : string -> list string) : nat :=
  map_fold (fun id _ n => (2 + length (next id) + n)%nat) O m.

Definition topSort (m : changes) (start : string) : list string :=
  default [] (topLoop (nextOf m) (edges m (nextOf m) + 1)
                (mkTopState [start] ∅ ∅ [])).

(** [makeIterBuffer], from the start on: the buffer is read backwards. *)
Definition iterOrder (m : changes) (start : option string) : list string :=
  match start with
  | None => []
  | Some start => rev (topSort m start)
  end.

Definition dfsNext (m : changes) (stack : list string) : gset string :=
  default ∅ (dfsLoop (nextOf m) (edges m (nextOf m) + length stack) stack ∅).
Definition dfsPrev (m : changes) (stack breakpoints : list string) : gset string :=
  default ∅ (dfsLoop (previousOf m) (edges m (previousOf m) + length stack) stack
    (list_to_set (filter (fun b => is_Some (m !! b)) breakpoints))).

(** ** Building the tree (tree.go) *)

(** github.com/anyproto/lexid *)
Class LexId := {
  lexId_Next : string -> string;
  lexId_NextBefore : string -> string -> res string;
}.

(** [sort.Strings] *)
Definition sortStrings (l : list string) : list string := merge_sort String.le l.

(** Insertion into [prev.Next], which is sorted by id. *)
Fixpoint insertIdx (l : list string) (id : string) : nat :=
  match l with
  | [] => O
  | el :: l => if String.leb id el then O else S (insertIdx l id)
  end.

Definition insertNext (l : list string) (id : string) : list string :=
  match last l with
  | None => l ++ [id]
  | Some x =>
      if String.leb x id then l ++ [id]
      else take (insertIdx l id) l ++ id :: drop (insertIdx l id) l
  end.

Section tree.
Context `{LexId}.

Abbreviation TM := (ST Tree).

Definition attachedChange (id : string) : TM Change :=
  calls (fun t => opt_or (t_attached t !! id) nilChange).

Definition clearUnattached : TM unit := assigns (set_unAttached ∅).

(** [attach, remove]; a nil change is neither. *)
Definition canAttachOrRemove (c : option Change) (addToWait : bool) : TM (bool * bool) :=
  match c with
  | None => mret (false, false)
  | Some c =>
      missing ← reads (fun t => filter (fun pid => t_attached t !! pid = None) (ch_PreviousIds c));
      if decide (missing = []) then
        snapshot ← reads (fun t => t_attached t !! ch_SnapshotId c);
        match snapshot with
        | None => mret (false, true)
        | Some _ => mret (true, false)
        end
      else
        (if addToWait then
           st_each (fun pid => assigns (fun t =>
             set_waitList (<[pid := default [] (t_waitList t !! pid) ++ [ch_Id c]]> (t_waitList t)) t))
             missing
         else mret tt) ;;
        mret (false, false)
  end.

(** One iteration of the loop over [c.PreviousIds]. *)
Definition linkPrevious (cid id : string) : TM unit :=
  prev ← attachedChange id;
  c ← attachedChange cid;
  assigns (put_attached cid (with_Previous (ch_Previous c ++ [id]) c)) ;;
  prev ← attachedChange id;
  assigns (put_attached id (with_Next (insertNext (ch_Next prev) cid) prev)).

(** The change itself, up to its links. *)
Definition place (c : Change) (newEl : bool) : TM unit :=
  assigns (put_attached (ch_Id c) c) ;;
  assigns (fun t => set_addedBuf (t_addedBuf t ++ [ch_Id c]) t) ;;
  (if newEl then mret tt
   else assigns (fun t => set_unAttached (delete (ch_Id c) (t_unAttached t)) t)) ;;
  (if decide (ch_SnapshotCounter c = 0) then
     assigns (fun t => set_possibleRoots (t_possibleRoots t ++ [ch_Id c]) t) ;;
     snapshot ← attachedChange (ch_SnapshotId c);
     assigns (put_attached (ch_Id c) (with_SnapshotCounter (ch_SnapshotCounter snapshot + 1) c))
   else mret tt) ;;
  st_each (linkPrevious (ch_Id c)) (ch_PreviousIds c).

(** Attaching a change may attach those that wait for it. *)
Fixpoint attach (fuel : nat) (c : Change) (newEl : bool) : TM unit :=
  place c newEl ;;
  waitIds ← reads (fun t => t_waitList t !! ch_Id c);
  match waitIds, fuel with
  | None, _ => mret tt
  | _, O => lifts (Err (GoPanic "stack overflow"))
  | Some waitIds, S fuel =>
      st_each (fun wid =>
        next ← reads (fun t => t_unAttached t !! wid);
        '(ok, remove) ← canAttachOrRemove next false;
        match next with
        | None => mret tt
        | Some next =>
            if (ok : bool) then attach fuel next false
            else if (remove : bool) then
              assigns (fun t => set_unAttached (delete (ch_Id next) (t_unAttached t)) t)
            else mret tt
        end) waitIds ;;
      assigns (fun t => set_waitList (delete (ch_Id c) (t_waitList t)) t)
  end.

(** A waiting change leaves [unAttached] when it is attached. *)
Definition attachFuel (t : Tree) : nat := S (size (t_unAttached t)).

Definition add (c : Change) : TM bool :=
  root ← reads t_root;
  match root with
  | None =>
      let c := if decide (ch_OrderId c = "") then with_OrderId (lexId_Next "") c else c in
      assigns (fun t => mkTree (Some (ch_Id c)) (t_headIds t) (ch_Id c) {[ ch_Id c := c ]} ∅ ∅ ∅ []
                          (t_addedBuf t ++ [ch_Id c])) ;;
      mret true
  | Some _ =>
      let c := if decide (1 < length (ch_PreviousIds c))%nat
               then with_PreviousIds (sortStrings (ch_PreviousIds c)) c else c in
      '(ok, remove) ← canAttachOrRemove (Some c) true;
      (if (ok : bool) then
         fuel ← reads attachFuel;
         attach fuel c true
       else if (remove : bool) then mret tt
       else assigns (fun t => set_unAttached (<[ch_Id c := c]> (t_unAttached t)) t)) ;;
      mret ok
  end.

(** ** Heads and order ids *)

(** Give order ids to [pending], between [prev] and [before]. *)
Fixpoint fillBefore (prev before : string) (pending : list string) : TM unit :=
  match pending with
  | [] => mret tt
  | id :: pending =>
      c ← attachedChange id;
      o ← lifts (match lexId_NextBefore prev before with
                 | Ok o => Ok o
                 | Err _ => Err (GoPanic "failed to generate order id")
                 end);
      assigns (put_attached id (with_OrderId o c)) ;;
      fillBefore o before pending
  end.

Fixpoint fillAfter (prev : string) (pending : list string) : TM unit :=
  match pending with
  | [] => mret tt
  | id :: pending =>
      c ← attachedChange id;
      let o := lexId_Next prev in
      assigns (put_attached id (with_OrderId o c)) ;;
      fillAfter o pending
  end.

(** The walk over the changes in order: [prev] is the last order id seen, [pending]
    the changes since then that have none. *)
Fixpoint fillOrder (prev : string) (pending : list string) (order : list string) : TM unit :=
  match order with
  | [] => fillAfter prev pending
  | id :: order =>
      c ← attachedChange id;
      if decide (ch_OrderId c = "") then fillOrder prev (pending ++ [id]) order
      else
        fillBefore prev (ch_OrderId c) pending ;;
        fillOrder (ch_OrderId c) [] order
  end.

Definition isHead (m : changes) (id : string) : Prop := nextOf m id = [].

Definition updateHeads : TM unit :=
  order ← reads (fun t => iterOrder (t_attached t) (t_root t));
  (match order with
   | [] => mret tt
   | first :: rest =>
       c ← attachedChange first;
       fillOrder (ch_OrderId c) [] rest
   end) ;;
  newHeadIds ← reads (fun t => filter (isHead (t_attached t)) order);
  lst ← lifts (opt_or (last newHeadIds) (GoPanic "index out of range"));
  assigns (set_heads (sortStrings newHeadIds) lst).

(** ** Adding changes *)

Definition known (t : Tree) (id : string) : bool :=
  bool_decide (is_Some (t_attached t !! id)) || bool_decide (is_Some (t_unAttached t !! id)).

Definition addUnknown (c : Change) : TM unit :=
  k ← reads (fun t => known t (ch_Id c));
  if (k : bool) then mret tt else (add c ;; mret tt).

Definition AddFast (cs : list Change) : TM (list string) :=
  match cs with
  | [] => mret []
  | _ =>
      assigns (set_addedBuf []) ;;
      st_each addUnknown cs ;;
      updateHeads ;;
      clearUnattached ;;
      reads t_addedBuf
  end.

(** Some new change was not visited: a passed object is in the tree when it was added
    by this call, once. *)
Fixpoint allVisited (t : Tree) (visited seen : gset string) (cs : list Change) : bool :=
  match cs with
  | [] => true
  | ch :: cs =>
      if decide (is_Some (t_attached t !! ch_Id ch)) then
        bool_decide (ch_Id ch ∈ visited) && bool_decide (ch_Id ch ∈ t_addedBuf t) &&
        bool_decide (ch_Id ch ∉ seen) && allVisited t visited ({[ ch_Id ch ]} ∪ seen) cs
      else allVisited t visited seen cs
  end.

Definition Add (cs : list Change) : TM (Mode * list string) :=
  assigns (set_addedBuf []) ;;
  lastIteratedHeadId ← reads t_lastIteratedHeadId;
  empty ← reads (fun t => bool_decide (size (t_attached t) = O));
  st_each addUnknown cs ;;
  added ← reads t_addedBuf;
  if decide (added = []) then clearUnattached ;; mret (Nothing, [])
  else
    updateHeads ;;
    clearUnattached ;;
    if (empty : bool) then mret (Rebuild, added)
    else
      attachedChange lastIteratedHeadId ;;
      mode ← reads (fun t =>
        let visited := dfsNext (t_attached t) [lastIteratedHeadId] in
        if allVisited t visited ∅ cs then Append else Rebuild);
      mret (mode, added).

(** A new head on top of all the heads. *)
Definition AddMergedHead (c : Change) : TM unit :=
  calls (fun t => fail_if (known t (ch_Id c)) (GoError "change already exists")) ;;
  ok ← add c;
  lifts (fail_if (negb ok) (GoError "change is not attached")) ;;
  heads ← reads t_headIds;
  st_each (fun prevHead =>
    head ← attachedChange prevHead;
    lifts (fail_if (negb (bool_decide (ch_Next head = [ch_Id c]))) (GoError "this is not a new head")))
    heads ;;
  assigns (set_heads [ch_Id c] (ch_Id c)).

(** ** Removing changes *)

(** Drop the first occurrence. *)
Fixpoint removeFirst (l : list string) (id : string) : list string :=
  match l with
  | [] => []
  | x :: l => if decide (x = id) then l else x :: removeFirst l id
  end.

Definition unlinkPrevious (top id : string) : TM unit :=
  assigns (fun t =>
    match t_attached t !! id with
    | None => t
    | Some prev => put_attached id (with_Next (removeFirst (ch_Next prev) top) prev) t
    end).

(** The change and its descendants, attached or waiting; an id that is neither
    dereferences nil. *)
Fixpoint removeLoop (fuel : nat) (stack : list string) : TM unit :=
  match stack, fuel with
  | [], _ => mret tt
  | _, O => lifts (Err (GoPanic "stack overflow"))
  | top :: stack, S fuel =>
      invalid ← reads (fun t => bool_decide (top ∈ t_invalidChanges t));
      if (invalid : bool) then removeLoop fuel stack
      else
        assigns (fun t => set_invalidChanges ({[ top ]} ∪ t_invalidChanges t) t) ;;
        waiting ← reads (fun t => t_unAttached t !! top);
        inTree ← reads (fun t => t_attached t !! top);
        match waiting, inTree with
        | Some rem, _ =>
            assigns (fun t => set_unAttached (delete top (t_unAttached t)) t) ;;
            removeLoop fuel (rev (ch_Next rem) ++ stack)
        | None, Some rem =>
            st_each (unlinkPrevious top) (ch_PreviousIds rem) ;;
            assigns (fun t => set_attached (delete top (t_attached t)) t) ;;
            removeLoop fuel (rev (ch_Next rem) ++ stack)
        | None, None => lifts (Err nilChange)
        end
  end.

Definition RemoveInvalidChange (fuel : nat) (id : string) : TM unit :=
  removeLoop fuel [id] ;;
  updateHeads.

Definition LeaveOnlyBefore (proposedHeads : list string) : TM unit :=
  assigns (fun t =>
    let visited := dfsPrev (t_attached t)
      (rev (filter (fun h => is_Some (t_attached t !! h)) proposedHeads)) [] in
    let kept := filter (fun x => x.1 ∈ visited) (t_attached t) in
    set_attached ((fun c => with_Next (filter (fun n => n ∈ visited) (ch_Next c)) c) <$> kept) t) ;;
  updateHeads.

(** ** Reducing the tree to a snapshot (treereduce.go) *)

Definition clearPossibleRoots : TM unit := assigns (set_possibleRoots []).

Definition makeRootAndRemove (start : string) : TM unit :=
  root ← reads t_root;
  if decide (root = Some start) then mret tt
  else
    c ← attachedChange start;
    st_each (fun prev => attachedChange prev ;; mret tt) (ch_PreviousIds c) ;;
    assigns (fun t =>
      let visited := dfsPrev (t_attached t) (rev (ch_PreviousIds c)) [] in
      set_attached (filter (fun x => x.1 ∉ visited) (t_attached t)) t) ;;
    clearUnattached ;;
    assigns (set_root (Some start)).

(** The snapshots from a change's snapshot down to the root; [None] when one is
    missing (the code then logs the nil change it found, and panics). *)
Fixpoint snapshotPath (fuel : nat) (m : changes) (root cur : string) : res (list string) :=
  if decide (cur = root) then Ok [root]
  else match fuel, m !! cur with
       | O, _ => Err (GoPanic "stack overflow")
       | S fuel, Some c =>
           match m !! ch_SnapshotId c with
           | None => Err nilChange
           | Some _ => path ← snapshotPath fuel m root (ch_SnapshotId c); Ok (cur :: path)
           end
       | S _, None => Err nilChange
       end.

(** Follow the snapshots of a head until one of the path; its index there. *)
Fixpoint meetPath (fuel : nat) (m : changes) (path : list string) (cur : string) : res nat :=
  match list_find (fun x => x = cur) path with
  | Some (idx, _) => Ok idx
  | None =>
      match fuel, m !! cur with
      | O, _ => Err (GoPanic "stack overflow")
      | S fuel, Some c =>
          match m !! ch_SnapshotId c with
          | None => Err nilChange
          | Some _ => meetPath fuel m path (ch_SnapshotId c)
          end
      | S _, None => Err nilChange
      end
  end.

Definition errSnapshotNotFound := GoError "snapshot not found in tree".

Definition reduceTree : TM bool :=
  roots ← reads t_possibleRoots;
  if decide (roots = []) then mret false
  else
    heads ← reads t_headIds;
    firstId ← lifts (opt_or (head heads) (GoPanic "index out of range"));
    firstHead ← attachedChange firstId;
    if ch_IsSnapshot firstHead && bool_decide (length heads = 1%nat) then
      clearPossibleRoots ;; makeRootAndRemove firstId ;; mret true
    else
      m ← reads t_attached;
      match m !! ch_SnapshotId firstHead with
      | None => mret false
      | Some curSnapshot =>
          if decide (length heads = 1%nat) then
            clearPossibleRoots ;; makeRootAndRemove (ch_Id curSnapshot) ;; mret true
          else
            root ← calls (fun t => opt_or (t_root t) nilChange);
            path ← lifts (snapshotPath (size m) m root (ch_Id curSnapshot));
            match res_map (fun h =>
                c ← opt_or (m !! h) nilChange;
                snapshot ← opt_or (m !! ch_SnapshotId c) errSnapshotNotFound;
                meetPath (size m) m path (ch_Id snapshot)) (tail heads) with
            | Err e => if decide (e = errSnapshotNotFound) then mret false else lifts (Err e)
            | Ok idxs =>
                newRoot ← lifts (opt_or (path !! foldr Nat.max O idxs) nilChange);
                clearPossibleRoots ;;
                makeRootAndRemove newRoot ;;
                mret true
            end
      end.
End tree.
