(* ===== verification/TreeOrder.v ===== *)
(** The iteration order of a change tree: [topSort] visits exactly the changes
    reachable from its start, each once, every change after its predecessors, and
    ends within the fuel the model gives it.  Then the links between changes, which linking a new
    change keeps exact and acyclic. *)

From Stdlib Require Import ZArith Lia String Permutation.
From stdpp Require Import base option list gmap strings relations sorting.
From S2P Require Import Prelude Crypto TreeModels Tree.

Lemma elem_of_rev {A} (l : list A) x : x ∈ rev l <-> x ∈ l.
Proof. rewrite !list_elem_of_In. symmetry. apply in_rev. Qed.

(** ** Pushes still to come *)

Section todo.
Variables (m : changes) (next : string -> list string).

(** For each change not yet visited: its mark, itself and its links. *)
Definition todo (vis : gset string) : nat :=
  edges (filter (fun kv => kv.1 ∉ vis) m) next.

Lemma edges_delete (m' : changes) f x c :
  m' !! x = Some c -> edges m' f = 2 + length (f x) + edges (delete x m') f.
Proof.
  intros Hx. unfold edges. rewrite <- (insert_delete_id m' x c Hx) at 1.
  rewrite map_fold_insert_L; [done| |apply lookup_delete_eq]. intros. lia.
Qed.

Lemma todo_discover vis x :
  is_Some (m !! x) -> x ∉ vis -> todo vis = 2 + length (next x) + todo ({[ x ]} ∪ vis).
Proof.
  intros [c Hc] Hx. unfold todo. rewrite (edges_delete _ _ x c).
  - f_equal. f_equal. apply map_eq. intros y. rewrite lookup_delete. case_decide as Hxy.
    + subst y. symmetry. apply map_lookup_filter_None. right. intros c' _. simpl. set_solver.
    + apply option_eq. intros c'. rewrite !map_lookup_filter_Some. simpl. set_solver.
  - by apply map_lookup_filter_Some.
Qed.
End todo.

Section topsort.
Variables (m : changes) (rank : string -> nat).
Abbreviation next := (nextOf m).
Abbreviation edge := (fun x y : string => y ∈ nextOf m x).

(** Links lead to changes of the tree, upwards. *)
Hypothesis next_closed : forall x y, edge x y -> is_Some (m !! y).
Hypothesis next_rank : forall x y, edge x y -> rank x < rank y.

Implicit Types (s : topState) (x y : string).
Abbreviation stack := ts_stack.
Abbreviation visited := ts_visited.
Abbreviation opened := ts_branchesFinished.
Abbreviation done_ := ts_resBuf.

(** The successors of every change of [l] come later in it. *)
Fixpoint successors_later (l : list string) : Prop :=
  match l with
  | [] => True
  | x :: l => successors_later l /\ forall y, edge x y -> y ∈ l
  end.

(** The changes on top of the mark of an open change: the stack above the first
    occurrence of the change. *)
Definition marked (st : list string) x (above below : list string) : Prop :=
  st = above ++ x :: below /\ x ∉ above.

Record top_inv (start : string) s : Prop := mkTopInv {
  (** what is visited is open or done, and not both *)
  ti_split x : x ∈ visited s <-> x ∈ opened s \/ x ∈ done_ s;
  ti_disjoint x : x ∈ opened s -> x ∉ done_ s;
  ti_nodup : NoDup (done_ s);
  ti_order : successors_later (rev (done_ s));
  (** an open change has a mark on the stack; its successors are visited or above the
      mark; what is above the mark ranks higher *)
  ti_mark x : x ∈ opened s -> exists above below, marked (stack s) x above below /\
    (forall y, edge x y -> y ∈ visited s \/ y ∈ above) /\
    (forall y, y ∈ above -> rank x < rank y);
  (** what is on the stack or visited is reachable, and the start is there *)
  ti_reach x : x ∈ stack s \/ x ∈ visited s -> rtc edge start x;
  ti_tree x : x ∈ stack s \/ x ∈ visited s -> is_Some (m !! x);
  ti_start : start ∈ stack s \/ start ∈ visited s;
}.

Lemma top_inv_init start :
  is_Some (m !! start) -> top_inv start (mkTopState [start] ∅ ∅ []).
Proof.
  intros Hs. split; simpl.
  - set_solver.
  - set_solver.
  - constructor.
  - done.
  - set_solver.
  - intros x [Hx|Hx]; [|set_solver]. apply list_elem_of_singleton in Hx as ->. apply rtc_refl.
  - intros x [Hx|Hx]; [|set_solver]. by apply list_elem_of_singleton in Hx as ->.
  - left. set_solver.
Qed.

(** Open changes rank lower than what is on top of them. *)
Lemma open_below_top start ch st s :
  top_inv start s -> stack s = ch :: st -> forall y, y ∈ opened s -> y <> ch -> rank y < rank ch.
Proof.
  intros Hinv Hst y Hy Hne. destruct (ti_mark _ _ Hinv y Hy) as (ab & bl & [Heq _] & _ & Hr).
  apply Hr. destruct ab as [|z ab]; rewrite Hst in Heq; injection Heq as -> _; [done|by left].
Qed.

(** Popping the mark of an open change: all its successors are done. *)
Lemma top_inv_finish start ch st s :
  top_inv start s -> stack s = ch :: st -> ch ∈ opened s ->
  top_inv start (mkTopState st (visited s) (opened s ∖ {[ ch ]}) (done_ s ++ [ch])).
Proof.
  intros Hinv Hst Hch. pose proof (open_below_top _ _ _ _ Hinv Hst) as Hbelow.
  destruct Hinv as [Hsplit Hdis Hnd Hord Hmark Hreach Htree Hstart].
  destruct (Hmark ch Hch) as (above & below & [Heq Hab] & Hnext & _).
  assert (above = []) as ->.
  { destruct above as [|z above]; [done|]. rewrite Hst in Heq. injection Heq as -> _.
    exfalso. apply Hab. by left. }
  assert (forall y, edge ch y -> y ∈ done_ s) as Hdone.
  { intros y Hy. destruct (Hnext y Hy) as [Hv|Hv]; [|by apply not_elem_of_nil in Hv].
    apply Hsplit in Hv as [Ho|?]; [|done]. exfalso.
    assert (y <> ch) by (intros ->; pose proof (next_rank _ _ Hy); lia).
    pose proof (Hbelow y Ho H). pose proof (next_rank _ _ Hy). lia. }
  split; simpl.
  - intros x. rewrite Hsplit, elem_of_app, elem_of_difference, !list_elem_of_singleton.
    destruct (decide (x = ch)) as [->|]; set_solver.
  - intros x. rewrite elem_of_app, list_elem_of_singleton. set_solver.
  - apply NoDup_app. split_and!; [done| |apply NoDup_singleton].
    intros x Hx ->%list_elem_of_singleton. by apply (Hdis ch).
  - rewrite rev_unit. simpl. split; [done|]. intros y Hy%Hdone. by apply elem_of_rev.
  - intros x [Hx Hne]%elem_of_difference. rewrite elem_of_singleton in Hne.
    destruct (Hmark x Hx) as (ab & bl & [Heq' Hab'] & Hn & Hr).
    destruct ab as [|z ab]; rewrite Hst in Heq'; injection Heq' as -> Heq'; [done|].
    exists ab, bl. split_and!.
    + split; [done|set_solver].
    + intros y Hy. destruct (Hn y Hy) as [?|[->|?]%elem_of_cons]; [by left| |by right].
      left. apply Hsplit. by left.
    + intros y Hy. apply Hr. by right.
  - intros x Hx. apply Hreach. rewrite Hst. set_solver.
  - intros x Hx. apply Htree. rewrite Hst. set_solver.
  - rewrite Hst in Hstart. destruct Hstart as [[->|?]%elem_of_cons|?]; [right|by left|by right].
    apply Hsplit. by left.
Qed.

(** Popping a change that was visited meanwhile. *)
Lemma top_inv_stale start ch st s :
  top_inv start s -> stack s = ch :: st -> ch ∉ opened s -> ch ∈ visited s ->
  top_inv start (mkTopState st (visited s) (opened s) (done_ s)).
Proof.
  intros [Hsplit Hdis Hnd Hord Hmark Hreach Htree Hstart] Hst Hch Hv. split; simpl; try done.
  - intros x Hx. destruct (Hmark x Hx) as (ab & bl & [Heq Hab] & Hn & Hr).
    destruct ab as [|z ab]; rewrite Hst in Heq; injection Heq as -> Heq; [done|].
    exists ab, bl. split_and!.
    + split; [done|set_solver].
    + intros y Hy. destruct (Hn y Hy) as [?|[->|?]%elem_of_cons]; [by left|by left|by right].
    + intros y Hy. apply Hr. by right.
  - intros x Hx. apply Hreach. rewrite Hst. set_solver.
  - intros x Hx. apply Htree. rewrite Hst. set_solver.
  - rewrite Hst in Hstart. destruct Hstart as [[->|?]%elem_of_cons|?]; [by right|by left|by right].
Qed.

(** Discovering a change: it is open, with its unvisited successors on top. *)
Lemma top_inv_discover start ch st s :
  top_inv start s -> stack s = ch :: st -> ch ∉ visited s ->
  let vis := {[ ch ]} ∪ visited s in
  top_inv start (mkTopState (rev (filter (fun n => n ∉ vis) (next ch)) ++ ch :: st) vis
    ({[ ch ]} ∪ opened s) (done_ s)).
Proof.
  intros Hinv Hst Hv vis. pose proof (open_below_top _ _ _ _ Hinv Hst) as Hbelow.
  destruct Hinv as [Hsplit Hdis Hnd Hord Hmark Hreach Htree Hstart].
  set (pushed := rev (filter _ (next ch))).
  assert (forall y, y ∈ pushed <-> edge ch y /\ y ∉ vis) as Hpush.
  { intros y. unfold pushed. rewrite elem_of_rev, list_elem_of_filter. tauto. }
  split; simpl.
  - intros x. specialize (Hsplit x). set_solver.
  - intros x [->%elem_of_singleton|Hx]%elem_of_union; [|by apply Hdis].
    intros Hd. apply Hv, Hsplit. by right.
  - done.
  - done.
  - intros x [->%elem_of_singleton|Hx]%elem_of_union.
    + exists pushed, st. split_and!.
      * split; [done|]. rewrite Hpush. set_solver.
      * intros y Hy. destruct (decide (y ∈ vis)); [by left|]. right. by apply Hpush.
      * intros y [Hy _]%Hpush. by apply next_rank.
    + assert (x <> ch) as Hne by (intros ->; apply Hv, Hsplit; by left).
      destruct (Hmark x Hx) as (ab & bl & [Heq Hab] & Hn & Hr).
      destruct ab as [|z ab]; rewrite Hst in Heq; injection Heq as -> Heq; [done|].
      exists (pushed ++ z :: ab), bl. split_and!.
      * split; [rewrite Heq, <- app_assoc; done|]. rewrite elem_of_app, Hpush.
        intros [[_ Hnv]|?]; [|done]. apply Hnv, elem_of_union. right. apply Hsplit. by left.
      * intros y Hy. destruct (Hn y Hy) as [?|?]; [left; set_solver|right; set_solver].
      * intros y [Hy|Hy]%elem_of_app; [|by apply Hr]. apply Hpush in Hy as [Hy _].
        pose proof (next_rank _ _ Hy). pose proof (Hbelow x Hx Hne). lia.
  - assert (rtc edge start ch) as Hch by (apply Hreach; left; rewrite Hst; by left).
    intros x [Hx|Hx].
    + rewrite elem_of_app, Hpush in Hx. destruct Hx as [[Hx _]|Hx].
      * eapply rtc_r; [exact Hch|exact Hx].
      * apply Hreach. left. by rewrite Hst.
    + apply elem_of_union in Hx as [->%elem_of_singleton|Hx]; [done|]. apply Hreach. by right.
  - intros x [Hx|Hx].
    + rewrite elem_of_app, Hpush in Hx. destruct Hx as [[Hx _]|Hx].
      * by eapply next_closed.
      * apply Htree. left. by rewrite Hst.
    + apply elem_of_union in Hx as [->%elem_of_singleton|Hx]; apply Htree; [left; rewrite Hst; by left|by right].
  - rewrite Hst in Hstart. destruct Hstart as [?|?]; [left; set_solver|right; set_solver].
Qed.

Lemma topStep_inv start ch st s :
  top_inv start s -> stack s = ch :: st -> top_inv start (topStep next ch st s).
Proof.
  intros Hinv Hst. unfold topStep. case_decide; [by apply top_inv_finish|].
  case_decide; [by apply top_inv_stale with (ch := ch)|]. by apply top_inv_discover.
Qed.

(** ** Termination *)

Lemma topLoop_total start fuel s :
  top_inv start s -> todo m next (visited s) + length (stack s) <= fuel ->
  exists l, topLoop next fuel s = Some l /\
    exists s', top_inv start s' /\ stack s' = [] /\ done_ s' = l.
Proof.
  revert s. induction fuel as [|fuel IH]; intros s Hinv Hf.
  - destruct (stack s) as [|ch st] eqn:Hst; simpl in Hf; [|lia].
    simpl. rewrite Hst. eexists. split; [done|]. by exists s.
  - destruct (stack s) as [|ch st] eqn:Hst.
    { simpl. rewrite Hst. eexists. split; [done|]. by exists s. }
    simpl. rewrite Hst. apply IH; [by apply topStep_inv|]. unfold topStep.
    simpl in Hf. case_decide; simpl; [lia|]. case_decide as Hv; simpl; [lia|].
    assert (is_Some (m !! ch)) as Hch by (apply (ti_tree _ _ Hinv); left; rewrite Hst; by left).
    rewrite (todo_discover m next _ _ Hch Hv) in Hf. rewrite length_app, length_rev. simpl.
    pose proof (length_filter (fun n => n ∉ {[ch]} ∪ visited s) (next ch)). lia.
Qed.

(** ** The sort *)

Lemma topSort_spec start :
  is_Some (m !! start) ->
  NoDup (topSort m start) /\
  (forall x, x ∈ topSort m start <-> rtc edge start x) /\
  successors_later (rev (topSort m start)).
Proof.
  intros Hs. unfold topSort.
  destruct (topLoop_total start (edges m next + 1) (mkTopState [start] ∅ ∅ []))
    as (l & -> & s & Hinv & Hst & <-).
  - by apply top_inv_init.
  - simpl. unfold todo. rewrite map_filter_id; [lia|]. intros x c _. simpl. set_solver.
  - simpl. destruct Hinv as [Hsplit Hdis Hnd Hord Hmark Hreach Htree Hstart].
    assert (forall x, x ∉ opened s) as Hno.
    { intros x Hx. destruct (Hmark x Hx) as (ab & bl & [Heq _] & _). rewrite Hst in Heq.
      by destruct ab. }
    split; [done|]. split; [|done]. intros x. split.
    + intros Hx. apply Hreach. right. apply Hsplit. by right.
    + rewrite Hst in Hstart. destruct Hstart as [?%not_elem_of_nil|Hstart]; [done|].
      apply Hsplit in Hstart as [Ho|Hstart]; [by destruct (Hno _ Ho)|].
      intros Hr. clear Hs Hreach. revert Hstart. induction Hr as [|x y z Hxy _ IH]; [done|]. intros Hx. apply IH.
      assert (successors_later (rev (done_ s)) -> x ∈ rev (done_ s) -> y ∈ rev (done_ s)) as Hclosed.
      { generalize (rev (done_ s)). clear -Hxy. intros l. induction l as [|z l IH]; simpl;
          [by intros _ ?%not_elem_of_nil|].
        intros [Hl Hz] [->|Hx]%elem_of_cons; right; [by apply Hz|by apply IH]. }
      apply elem_of_rev, Hclosed; [done|]. by apply elem_of_rev.
Qed.
End topsort.

(** * The links of a change tree: every change names its predecessors, and each change
    keeps its successors sorted by id.  Linking a new change keeps the successors of
    every change exactly the attached changes that name it, and the tree acyclic. *)

Abbreviation occ := (count_occ String.eq_dec).

Lemma occ_elem (l : list string) x : x ∈ l <-> occ l x > 0.
Proof. rewrite list_elem_of_In. apply count_occ_In. Qed.

(** ** Sorted successors *)

Abbreviation sorted := (StronglySorted String.le).

(** A sorted list is given by how often each id occurs in it. *)
Lemma sorted_occ_unique l l' :
  sorted l -> sorted l' -> (forall x, occ l x = occ l' x) -> l = l'.
Proof.
  intros Hl Hl' Hocc. apply (StronglySorted_unique String.le); [done..|].
  by apply (Permutation_count_occ String.eq_dec).
Qed.

Lemma insertNext_perm l id : insertNext l id ≡ₚ id :: l.
Proof.
  unfold insertNext. destruct (last l) as [x|].
  - case_match; [by rewrite Permutation_app_comm|].
    rewrite <- Permutation_middle, take_drop. done.
  - by rewrite Permutation_app_comm.
Qed.

Lemma sorted_snoc l id : sorted l -> Forall (fun x => String.le x id) l -> sorted (l ++ [id]).
Proof.
  induction 1 as [|x l Hs IH Hx]; intros Hle; [repeat constructor|]. inversion_clear Hle as [|? ? Hxi Hl].
  simpl. constructor; [by apply IH|]. apply Forall_app. split; [done|by repeat constructor].
Qed.

Lemma sorted_last l x y : sorted l -> last l = Some x -> y ∈ l -> String.le y x.
Proof.
  induction 1 as [|z l Hs IH Hz]; [done|]. destruct l as [|w l].
  - intros [= ->] ->%list_elem_of_singleton. done.
  - rewrite last_cons_cons. intros Hl [->|Hy]%elem_of_cons; [|by apply IH].
    rewrite Forall_forall in Hz. apply Hz. by apply last_Some_elem_of.
Qed.

Lemma sorted_insertIdx l id :
  sorted l -> sorted (take (insertIdx l id) l ++ id :: drop (insertIdx l id) l).
Proof.
  induction 1 as [|x l Hs IH Hx]; [repeat constructor|]. simpl.
  destruct (String.leb id x) eqn:Hle; simpl.
  - constructor; [by constructor|]. apply Is_true_true in Hle. constructor; [done|].
    eapply Forall_impl; [done|]. intros y Hy. by etrans.
  - constructor; [done|]. rewrite Forall_app, Forall_cons. split_and!.
    + by apply Forall_take.
    + destruct (total String.le id x) as [Hle'|?]; [|done]. apply Is_true_true in Hle'. congruence.
    + by apply Forall_drop.
Qed.

Lemma insertNext_sorted l id : sorted l -> sorted (insertNext l id).
Proof.
  intros Hl. unfold insertNext. destruct (last l) as [x|] eqn:Hlast.
  - case_match eqn:Hle; [|by apply sorted_insertIdx]. apply sorted_snoc; [done|].
    apply Forall_forall. intros y Hy. transitivity x; [by eapply sorted_last|by apply Is_true_true].
  - apply last_None in Hlast as ->. repeat constructor.
Qed.

Lemma insertNext_occ l id x :
  occ (insertNext l id) x = occ l x + (if decide (id = x) then 1 else 0).
Proof.
  rewrite (proj1 (Permutation_count_occ String.eq_dec _ _) (insertNext_perm l id) x).
  simpl. destruct (String.eq_dec id x); case_decide; (done || lia).
Qed.

(** ** Linked trees *)

(** How often the attached change [y] names [x] as a predecessor; what the root names is
    outside the tree. *)
Definition links (r : string) (m : changes) (x y : string) : nat :=
  match m !! y with
  | Some c => if decide (y = r) then 0 else occ (ch_PreviousIds c) x
  | None => 0
  end.

Record linked (r : string) (m : changes) : Prop := mkLinked {
  lk_root : is_Some (m !! r);
  lk_ids x c : m !! x = Some c -> ch_Id c = x;
  lk_prev x c p : m !! x = Some c -> x <> r -> p ∈ ch_PreviousIds c -> is_Some (m !! p);
  lk_next x y : occ (nextOf m x) y = links r m x y;
  lk_sorted x : sorted (nextOf m x);
  lk_rank : exists rank : string -> nat, forall x c p,
    m !! x = Some c -> x <> r -> p ∈ ch_PreviousIds c -> rank p < rank x;
}.

Lemma lk_edge r m x y :
  linked r m ->
  y ∈ nextOf m x <-> exists c, m !! y = Some c /\ y <> r /\ x ∈ ch_PreviousIds c.
Proof.
  intros Hl. rewrite occ_elem, (lk_next _ _ Hl). unfold links.
  destruct (m !! y) as [c|]; [|split; [lia|by intros (? & ? & _)]].
  case_decide; [split; [lia|naive_solver]|]. rewrite <- occ_elem. naive_solver.
Qed.

(** What the tree keeps of a change apart from its links. *)
Definition core (c : Change) : Change := with_Next [] (with_Previous [] c).

Definition same_core (m m' : changes) : Prop := core <$> m = core <$> m'.

Lemma same_core_lookup m m' x c :
  same_core m m' -> m !! x = Some c -> exists c', m' !! x = Some c' /\ core c = core c'.
Proof.
  intros Hs Hx. apply (f_equal (fun n => n !! x)) in Hs. rewrite !lookup_fmap, Hx in Hs.
  destruct (m' !! x) as [c'|]; [|done].
  apply (inj Some) in Hs. eauto.
Qed.

Lemma same_core_is_Some m m' x : same_core m m' -> is_Some (m !! x) <-> is_Some (m' !! x).
Proof.
  intros Hs. apply (f_equal (fun n => n !! x)) in Hs. rewrite !lookup_fmap in Hs.
  rewrite <- (fmap_is_Some core (m !! x)), Hs. apply fmap_is_Some.
Qed.

#[global] Instance same_core_equiv : Equivalence same_core.
Proof. unfold same_core. split; [done|by intros ?? ->|by intros ??? -> ->]. Qed.

(** What a loop iteration of [attach] does to the attached changes. *)
Definition link (cid : string) (m : changes) (id : string) : changes :=
  let m := alter (fun c => with_Previous (ch_Previous c ++ [id]) c) cid m in
  alter (fun prev => with_Next (insertNext (ch_Next prev) cid) prev) id m.

Lemma alter_core (f : Change -> Change) x m :
  (forall c, core (f c) = core c) -> same_core (alter f x m) m.
Proof.
  intros Hf. unfold same_core. apply map_eq. intros y. rewrite !lookup_fmap, lookup_alter.
  case_decide; [subst|done]. destruct (m !! y); simpl; [by rewrite Hf|done].
Qed.

Lemma link_core cid m id : same_core (link cid m id) m.
Proof. unfold link. etrans; apply alter_core; by intros []. Qed.

Lemma nextOf_alter f x m y :
  nextOf (alter f x m) y =
  if decide (x = y) then match m !! y with Some c => ch_Next (f c) | None => [] end else nextOf m y.
Proof.
  unfold nextOf. rewrite lookup_alter. case_decide; [subst y|done]. by destruct (m !! x).
Qed.

Lemma link_next cid m id x :
  is_Some (m !! id) ->
  nextOf (link cid m id) x = if decide (x = id) then insertNext (nextOf m x) cid else nextOf m x.
Proof.
  intros [c Hc]. unfold link.
  assert (forall y, nextOf (alter (fun c => with_Previous (ch_Previous c ++ [id]) c) cid m) y =
                    nextOf m y) as Hprev.
  { intros y. rewrite nextOf_alter. case_decide; [|done]. unfold nextOf. by destruct (m !! y). }
  rewrite nextOf_alter, Hprev. destruct (decide (id = x)) as [<-|].
  - rewrite decide_True by done. rewrite <- Hprev. unfold nextOf.
    destruct (alter _ cid m !! id) as [d|] eqn:Hd; [done|].
    rewrite lookup_alter in Hd. case_decide; simplify_eq; by rewrite Hc in Hd.
  - by rewrite decide_False.
Qed.

Lemma links_core cid l m : same_core (fold_left (link cid) l m) m.
Proof.
  revert m. induction l as [|id l IH]; intros m; [done|]. simpl. etrans; [apply IH|apply link_core].
Qed.

Lemma links_next cid l m x y :
  Forall (fun id => is_Some (m !! id)) l ->
  occ (nextOf (fold_left (link cid) l m) x) y =
  occ (nextOf m x) y + (if decide (cid = y) then occ l x else 0).
Proof.
  revert m. induction l as [|id l IH]; intros m Hl; simpl; [case_decide; lia|].
  inversion_clear Hl as [|? ? Hid Hrest]. rewrite IH.
  - rewrite link_next by done. destruct (String.eq_dec id x); (case_decide as H1; [|]);
      (case_decide as H2; [|]); simplify_eq; rewrite ?insertNext_occ; repeat case_decide;
      simplify_eq; lia.
  - eapply Forall_impl; [done|]. intros p Hp. by eapply same_core_is_Some; [apply link_core|].
Qed.

Lemma links_sorted cid l m x :
  Forall (fun id => is_Some (m !! id)) l ->
  sorted (nextOf m x) -> sorted (nextOf (fold_left (link cid) l m) x).
Proof.
  revert m. induction l as [|id l IH]; intros m Hl Hm; simpl; [done|].
  inversion_clear Hl as [|? ? Hid Hrest]. apply IH.
  - eapply Forall_impl; [done|]. intros p Hp. by eapply same_core_is_Some; [apply link_core|].
  - rewrite link_next by done. case_decide; [by apply insertNext_sorted|done].
Qed.

(** Linking a new change whose predecessors are attached. *)
Lemma linked_attach r m c :
  linked r m -> m !! ch_Id c = None -> ch_Next c = [] ->
  (forall p, p ∈ ch_PreviousIds c -> is_Some (m !! p)) ->
  linked r (fold_left (link (ch_Id c)) (ch_PreviousIds c) (<[ch_Id c := c]> m)).
Proof.
  intros Hl Hnew Hnext Hprev. set (id := ch_Id c) in *. set (m1 := <[id := c]> m).
  assert (id <> r) as Hr by (intros ->; destruct (lk_root _ _ Hl) as [? ?]; congruence).
  assert (forall p, is_Some (m !! p) -> is_Some (m1 !! p)) as Hm1.
  { intros p Hp. unfold m1. rewrite lookup_insert_is_Some. destruct (decide (id = p)); auto. }
  assert (Forall (fun p => is_Some (m1 !! p)) (ch_PreviousIds c)) as Hall.
  { apply Forall_forall. auto. }
  set (m2 := fold_left _ _ _).
  assert (same_core m2 m1) as Hcore by apply links_core.
  assert (forall x d, m2 !! x = Some d -> exists d', m1 !! x = Some d' /\
            ch_Id d = ch_Id d' /\ ch_PreviousIds d = ch_PreviousIds d') as Hlook.
  { intros x d Hx. destruct (same_core_lookup _ _ _ _ Hcore Hx) as (d' & Hd & Hc).
    exists d'. split; [done|]. destruct d, d'. by injection Hc. }
  assert (forall x, is_Some (m2 !! x) <-> is_Some (m1 !! x)) as Hdom.
  { intros x. by apply same_core_is_Some. }
  assert (forall x, nextOf m1 x = nextOf m x) as Hnx.
  { intros x. unfold nextOf, m1. rewrite lookup_insert. case_decide; [subst x|done].
    by rewrite Hnew, Hnext. }
  split.
  - apply Hdom, Hm1, (lk_root _ _ Hl).
  - intros x d Hx. destruct (Hlook _ _ Hx) as (d' & Hd & -> & _). unfold m1 in Hd.
    apply lookup_insert_Some in Hd as [[<- <-]|[_ Hd]]; [done|by apply (lk_ids _ _ Hl)].
  - intros x d p Hx Hxr Hp. destruct (Hlook _ _ Hx) as (d' & Hd & _ & Heq). rewrite Heq in Hp.
    apply Hdom, Hm1. apply lookup_insert_Some in Hd as [[<- <-]|[_ Hd]]; [auto|].
    by eapply (lk_prev _ _ Hl).
  - intros x y.
    pose proof (links_next id (ch_PreviousIds c) m1 x y Hall) as Hocc. fold m2 in Hocc.
    rewrite Hocc, Hnx, (lk_next _ _ Hl). unfold links. destruct (m2 !! y) as [d|] eqn:Hy.
    + destruct (Hlook _ _ Hy) as (d' & Hd & _ & ->).
      apply lookup_insert_Some in Hd as [[<- <-]|[Hne Hd]].
      * rewrite Hnew. by rewrite decide_True, decide_False by done.
      * rewrite Hd. rewrite (decide_False (P := id = y)) by done. lia.
    + assert (m1 !! y = None) as Hy1.
      { apply eq_None_not_Some. rewrite <- Hdom, Hy. by intros []. }
      apply lookup_insert_None in Hy1 as [-> Hne]. by rewrite decide_False by done.
  - intros x. apply links_sorted; [done|]. rewrite Hnx. apply (lk_sorted _ _ Hl).
  - destruct (lk_rank _ _ Hl) as [rank Hrank].
    exists (fun x => if decide (x = id) then S (foldr (fun p n => rank p + n) 0 (ch_PreviousIds c))
                     else rank x).
    intros x d p Hx Hxr Hp. destruct (Hlook _ _ Hx) as (d' & Hd & _ & Heq). rewrite Heq in Hp.
    apply lookup_insert_Some in Hd as [[<- <-]|[Hne Hd]].
    + rewrite (decide_True (P := id = id)) by done.
      rewrite decide_False by (intros ->; destruct (Hprev _ Hp); congruence).
      clear -Hp. induction (ch_PreviousIds c) as [|q l IH]; [by apply not_elem_of_nil in Hp|].
      simpl. apply elem_of_cons in Hp as [->|Hp]; [lia|]. specialize (IH Hp). lia.
    + rewrite (decide_False (P := x = id)) by done. destruct (lk_prev _ _ Hl _ _ _ Hd Hxr Hp).
      rewrite decide_False by congruence. by eapply Hrank.
Qed.
