(* ===== verification/TreeAdd.v ===== *)
(** Attaching changes: what [Tree.add] and the wait list do to the tree.  Every attached
    change keeps the tree linked; what is delivered is attached, waits for a
    predecessor, or was dropped for its snapshot. *)

From Stdlib Require Import ZArith Lia String Permutation.
From stdpp Require Import base option list gmap strings sorting relations.
From S2P Require Import Prelude Crypto TreeModels Tree TreeOrder.

(** [c] is the delivered change [d]; its predecessors may have been sorted. *)
Definition from (d c : Change) : Prop :=
  ch_Id c = ch_Id d /\ ch_PreviousIds c ≡ₚ ch_PreviousIds d /\ ch_SnapshotId c = ch_SnapshotId d /\
  ch_OrderId c = ch_OrderId d /\ ch_Info c = ch_Info d.

#[global] Instance from_refl : Reflexive from.
Proof. by intros []. Qed.

Lemma from_core d c c' : from d c -> core c' = core c -> from d c'.
Proof. intros (H1 & H2 & H3 & H4) Hc. destruct c, c'. injection Hc as -> -> -> -> -> -> ->. done. Qed.

Abbreviation att := t_attached.
Abbreviation unatt := t_unAttached.

(** The tree after some of the changes [cs] were attached. *)
Record grows (cs : list Change) (t t' : Tree) : Prop := mkGrows {
  gr_frame : t_root t' = t_root t /\ t_headIds t' = t_headIds t /\
    t_lastIteratedHeadId t' = t_lastIteratedHeadId t;
  gr_old x c : att t !! x = Some c -> exists c', att t' !! x = Some c' /\ core c' = core c;
  gr_added : exists l, t_addedBuf t' = t_addedBuf t ++ l /\ NoDup l /\
    (forall x, is_Some (att t' !! x) <-> is_Some (att t !! x) \/ x ∈ l) /\
    (forall x, x ∈ l -> att t !! x = None);
  gr_new x c : att t' !! x = Some c -> att t !! x = None -> exists d, d ∈ cs /\ from d c;
  gr_previous x c c' : att t !! x = Some c -> att t' !! x = Some c' -> ch_Previous c' = ch_Previous c;
}.

Lemma grows_is_Some cs t t' x : grows cs t t' -> is_Some (att t !! x) -> is_Some (att t' !! x).
Proof. intros Hg [c Hc]. destruct (gr_old _ _ _ Hg _ _ Hc) as (c' & -> & _). done. Qed.

#[global] Instance grows_preorder cs : PreOrder (grows cs).
Proof.
  split.
  - intros t. split; [done| | | |congruence].
    + eauto.
    + exists []. rewrite app_nil_r. split_and!; [done|constructor| |].
      * intros x. rewrite elem_of_nil. tauto.
      * intros x Hx. by apply not_elem_of_nil in Hx.
    + intros x c Hx Hx'. congruence.
  - intros t1 t2 t3 G1 G2. split.
    + destruct (gr_frame _ _ _ G2) as (-> & -> & ->). apply (gr_frame _ _ _ G1).
    + intros x c Hx. destruct (gr_old _ _ _ G1 _ _ Hx) as (c2 & Hx2 & <-).
      by apply (gr_old _ _ _ G2).
    + destruct (gr_added _ _ _ G1) as (l1 & E1 & N1 & D1 & F1).
      destruct (gr_added _ _ _ G2) as (l2 & E2 & N2 & D2 & F2).
      exists (l1 ++ l2). split_and!.
      * by rewrite E2, E1, app_assoc.
      * apply NoDup_app. split_and!; [done| |done]. intros x Hx Hx2. apply F2 in Hx2.
        assert (is_Some (att t2 !! x)) as [? ?] by (apply D1; by right). congruence.
      * intros x. rewrite D2, D1, elem_of_app. tauto.
      * intros x [Hx|Hx]%elem_of_app; [by apply F1|]. apply F2 in Hx.
        apply eq_None_not_Some. intros Hs. destruct (grows_is_Some _ _ _ _ G1 Hs). congruence.
    + intros x c Hx Hx1. destruct (att t2 !! x) as [c2|] eqn:Hx2.
      * destruct (gr_old _ _ _ G2 _ _ Hx2) as (c3 & Hc3 & Hcore).
        destruct (gr_new _ _ _ G1 _ _ Hx2 Hx1) as (d & Hd & Hf). exists d. split; [done|].
        rewrite Hc3 in Hx. injection Hx as <-. by eapply from_core.
      * by eapply (gr_new _ _ _ G2).
    + intros x c c' Hx Hx'. destruct (gr_old _ _ _ G1 _ _ Hx) as (c2 & Hx2 & _).
      rewrite (gr_previous _ _ _ G2 _ _ _ Hx2 Hx'). by eapply (gr_previous _ _ _ G1).
Qed.

(** The changes that wait: each is on the wait list of every predecessor it misses, and
    misses one, unless it is in [P] and about to be looked at. *)
Record waiting_ok (cs : list Change) (P : list string) (t : Tree) : Prop := mkWaitingOk {
  wt_keys u c : unatt t !! u = Some c ->
    ch_Id c = u /\ att t !! u = None /\ ch_Next c = [] /\ exists d, d ∈ cs /\ from d c;
  wt_list u c p : unatt t !! u = Some c -> p ∈ ch_PreviousIds c -> att t !! p = None ->
    exists l, t_waitList t !! p = Some l /\ u ∈ l;
  wt_idle u c : unatt t !! u = Some c -> u ∉ P -> exists p, p ∈ ch_PreviousIds c /\ att t !! p = None;
}.

Lemma attachedChange_Some id t c : att t !! id = Some c -> attachedChange id t = (t, Ok c).
Proof. intros Hc. unfold attachedChange, calls. by rewrite Hc. Qed.

Lemma alter_insert_old {A} (f : A -> A) x (a : A) (m : gmap string A) :
  m !! x = Some a -> alter f x m = <[x := f a]> m.
Proof.
  intros Hx. apply map_eq. intros y. rewrite lookup_alter, lookup_insert.
  case_decide; [subst; by rewrite Hx|done].
Qed.

Lemma linkPrevious_run cid id t :
  is_Some (att t !! cid) -> is_Some (att t !! id) ->
  linkPrevious cid id t = (set_attached (link cid (att t) id) t, Ok tt).
Proof.
  intros [c Hc] [d Hd]. unfold linkPrevious, mbind, st_bind, attachedChange, calls, assigns.
  rewrite Hd. simpl. rewrite Hc. simpl. unfold link.
  rewrite (alter_insert_old _ _ _ _ Hc).
  destruct (<[cid := _]> (att t) !! id) as [e|] eqn:He.
  - rewrite (alter_insert_old _ _ _ _ He). done.
  - apply lookup_insert_None in He as [He _]. congruence.
Qed.

Lemma linkAll_run cid l t :
  is_Some (att t !! cid) -> Forall (fun id => is_Some (att t !! id)) l ->
  st_each (linkPrevious cid) l t = (set_attached (fold_left (link cid) l (att t)) t, Ok tt).
Proof.
  revert t. induction l as [|id l IH]; intros t Hc Hl; simpl.
  - by destruct t.
  - inversion_clear Hl as [|? ? Hid Hrest]. erewrite st_bind_run by by apply linkPrevious_run.
    rewrite IH; [done| |].
    + simpl. by eapply same_core_is_Some; [apply link_core|].
    + eapply Forall_impl; [done|]. intros x Hx. simpl. by eapply same_core_is_Some; [apply link_core|].
Qed.

(** A change that can be attached. *)
Record ready (cs : list Change) (t : Tree) (c : Change) : Prop := mkReady {
  rd_new : att t !! ch_Id c = None;
  rd_next : ch_Next c = [];
  rd_prev p : p ∈ ch_PreviousIds c -> is_Some (att t !! p);
  rd_snapshot : is_Some (att t !! ch_SnapshotId c);
  rd_from : exists d, d ∈ cs /\ from d c;
}.

Lemma place_run cs c newEl t :
  ready cs t c ->
  exists n roots, place c newEl t =
    (mkTree (t_root t) (t_headIds t) (t_lastIteratedHeadId t)
       (fold_left (link (ch_Id c)) (ch_PreviousIds c) (<[ch_Id c := with_SnapshotCounter n c]> (att t)))
       (if newEl then unatt t else delete (ch_Id c) (unatt t))
       (t_waitList t) (t_invalidChanges t) roots (t_addedBuf t ++ [ch_Id c]), Ok tt).
Proof.
  intros [Hnew Hnext Hprev [s Hs] _]. unfold place.
  erewrite st_bind_run by done. erewrite st_bind_run by done.
  set (t2 := set_addedBuf _ _).
  assert (forall c' roots, st_each (linkPrevious (ch_Id c)) (ch_PreviousIds c)
    (mkTree (t_root t) (t_headIds t) (t_lastIteratedHeadId t) (<[ch_Id c := c']> (att t))
      (if newEl then unatt t else delete (ch_Id c) (unatt t)) (t_waitList t) (t_invalidChanges t)
      roots (t_addedBuf t ++ [ch_Id c])) = (mkTree (t_root t) (t_headIds t) (t_lastIteratedHeadId t)
       (fold_left (link (ch_Id c)) (ch_PreviousIds c) (<[ch_Id c := c']> (att t)))
       (if newEl then unatt t else delete (ch_Id c) (unatt t))
       (t_waitList t) (t_invalidChanges t) roots (t_addedBuf t ++ [ch_Id c]), Ok tt)) as Hlinks.
  { intros c' roots. apply linkAll_run; simpl; [by rewrite lookup_insert_eq|].
    apply Forall_forall. intros p [e He]%Hprev. rewrite lookup_insert_ne; [done|congruence]. }
  assert (((if newEl then mret tt
            else assigns (fun t => set_unAttached (delete (ch_Id c) (unatt t)) t)) : ST Tree unit) t2 =
    (set_unAttached (if newEl then unatt t else delete (ch_Id c) (unatt t)) t2, Ok tt)) as Hun
    by by destruct newEl.
  erewrite st_bind_run by exact Hun. case_decide.
  - assert (ch_Id c <> ch_SnapshotId c) by congruence.
    exists (ch_SnapshotCounter s + 1)%Z, (t_possibleRoots t ++ [ch_Id c]).
    erewrite st_bind_run; [apply Hlinks|]. erewrite st_bind_run by done.
    erewrite st_bind_run by (apply attachedChange_Some; simpl; by rewrite lookup_insert_ne).
    unfold assigns, put_attached, set_attached. simpl. by rewrite insert_insert_eq.
  - exists (ch_SnapshotCounter c), (t_possibleRoots t).
    erewrite st_bind_run; [apply Hlinks|]. destruct c. done.
Qed.

(** What [place] leaves: the change is attached and linked; those that wait for it are
    about to be looked at. *)
(** Only the new change gets predecessors. *)
Lemma links_previous cid l m x c c' :
  x <> cid -> m !! x = Some c -> fold_left (link cid) l m !! x = Some c' -> ch_Previous c' = ch_Previous c.
Proof.
  intros Hne. revert m c. induction l as [|id l IH]; intros m c Hx; simpl; [congruence|]. intros Hx'.
  assert (exists c1, link cid m id !! x = Some c1 /\ ch_Previous c1 = ch_Previous c) as (c1 & Hc1 & <-).
  { unfold link. rewrite lookup_alter. case_decide as Hid; [rewrite Hid|];
      rewrite lookup_alter_ne, Hx by (intros ->; done); eexists; (split; [reflexivity|]); by destruct c. }
  by eapply IH.
Qed.

Lemma place_spec cs P r c newEl t :
  linked r (att t) -> waiting_ok cs P t -> ready cs t c ->
  (newEl = true -> unatt t !! ch_Id c = None) ->
  exists t', place c newEl t = (t', Ok tt) /\ linked r (att t') /\ grows cs t t' /\
    is_Some (att t' !! ch_Id c) /\ unatt t' = delete (ch_Id c) (unatt t) /\
    t_waitList t' = t_waitList t /\
    waiting_ok cs (default [] (t_waitList t !! ch_Id c) ++ P) t'.
Proof.
  intros Hl Hw Hr Hun. destruct (place_run _ _ newEl _ Hr) as (n & roots & Hrun).
  destruct Hr as [Hnew Hnext Hprev Hsnap Hfrom].
  set (c' := with_SnapshotCounter n c) in *.
  set (m' := fold_left _ _ _) in Hrun. set (t' := mkTree _ _ _ m' _ _ _ _ _) in Hrun.
  assert (same_core m' (<[ch_Id c := c']> (att t))) as Hcore by apply links_core.
  assert (forall x, is_Some (m' !! x) <-> x = ch_Id c \/ is_Some (att t !! x)) as Hdom.
  { intros x. rewrite (same_core_is_Some _ _ _ Hcore), lookup_insert_is_Some.
    destruct (decide (ch_Id c = x)); naive_solver. }
  assert (unatt t' = delete (ch_Id c) (unatt t)) as Hunatt.
  { simpl. destruct newEl; [|done]. symmetry. apply delete_id. auto. }
  exists t'. split_and!; [done| | |by apply Hdom; left|done..|].
  - by apply (linked_attach r (att t) c').
  - split; [done| | | |].
    + intros x d Hx. simpl. assert (<[ch_Id c := c']> (att t) !! x = Some d) as Hx'.
      { rewrite lookup_insert_ne; [done|congruence]. }
      destruct (same_core_lookup _ _ _ _ (symmetry Hcore) Hx') as (d' & -> & Hd'). eauto.
    + exists [ch_Id c]. split_and!; [done|apply NoDup_singleton| |].
      * intros x. change (att t') with m'. rewrite Hdom, list_elem_of_singleton. tauto.
      * by intros x ->%list_elem_of_singleton.
    + intros x d Hx Hx0. destruct (same_core_lookup _ _ _ _ Hcore Hx) as (d' & Hd' & Hdc).
      apply lookup_insert_Some in Hd' as [[<- <-]|[_ ?]]; [|congruence].
      destruct Hfrom as (d0 & Hd0 & Hf). exists d0. split; [done|].
      apply from_core with c'; [|done]. destruct c. done.
    + intros x d d' Hx Hd'. assert (x <> ch_Id c) as Hne by congruence.
      assert (<[ch_Id c := c']> (att t) !! x = Some d) as Hx' by by rewrite lookup_insert_ne.
      exact (links_previous _ _ _ _ _ _ Hne Hx' Hd').
  - destruct Hw as [Hkeys Hlist Hidle]. split; intros u e; rewrite Hunatt.
    + intros [Hne He]%lookup_delete_Some. destruct (Hkeys _ _ He) as (? & Hnone & ? & ?).
      split_and!; try done. apply eq_None_not_Some. change (att t') with m'. rewrite Hdom. intros [->|[? ?]]; congruence.
    + intros p [Hne He]%lookup_delete_Some Hp Hnone. simpl. apply (Hlist _ _ _ He Hp).
      apply eq_None_not_Some. intros Hs. apply eq_None_not_Some in Hnone. apply Hnone, Hdom. by right.
    + intros [Hne He]%lookup_delete_Some [Hnw HnP]%not_elem_of_app.
      destruct (Hidle _ _ He HnP) as (p & Hp & Hnone). exists p. split; [done|].
      apply eq_None_not_Some. change (att t') with m'. rewrite Hdom. intros [->|[? ?]]; [|congruence].
      destruct (Hlist _ _ _ He Hp Hnone) as (l & Hl' & Hin). rewrite Hl' in Hnw. done.
Qed.

(** ** The wait list *)

Lemma size_delete_le (m : changes) x : size (delete x m) <= size m.
Proof. rewrite map_size_delete. destruct (m !! x); [apply Nat.le_pred_l|done]. Qed.


Section attach.
Context `{LexId}.
(** The delivered changes and the tree before. *)
Variables (cs : list Change) (r : string) (t0 : Tree).
Implicit Types (t : Tree) (c e : Change).

Record attaching (P : list string) t : Prop := mkAttaching {
  at_linked : linked r (att t);
  at_waiting : waiting_ok cs P t;
  at_grows : grows cs t0 t;
}.

(** The change was thrown away: its predecessors were attached and its snapshot not. *)
Definition dropped e t : Prop :=
  exists t1, linked r (att t1) /\ grows cs t0 t1 /\ grows cs t1 t /\
    (forall p, p ∈ ch_PreviousIds e -> is_Some (att t1 !! p)) /\ att t1 !! ch_SnapshotId e = None.

Definition settled e t : Prop :=
  is_Some (att t !! ch_Id e) \/ unatt t !! ch_Id e = Some e \/ dropped e t.

(** What a step does to the changes that wait. *)
Record settles t t' : Prop := mkSettles {
  se_grows : grows cs t t';
  se_size : size (unatt t') <= size (unatt t);
  se_waiting u e : unatt t !! u = Some e -> settled e t';
}.

Lemma dropped_mono e t t' : dropped e t -> grows cs t t' -> dropped e t'.
Proof. intros (t1 & ? & ? & H1 & ? & ?) Hg. exists t1. split_and!; try done.
  transitivity t; done. Qed.

Lemma settled_mono P e t t' :
  attaching P t -> settled e t -> settles t t' -> settled e t'.
Proof.
  intros _ [Ha|[Hu|Hd]] [Hg _ Hw].
  - left. by eapply grows_is_Some.
  - by eapply Hw.
  - right. right. by eapply dropped_mono.
Qed.

Lemma settles_refl P t : attaching P t -> settles t t.
Proof.
  intros [_ Hw _]. split; [done..|]. intros u e He. right. left.
  by destruct (wt_keys _ _ _ Hw _ _ He) as [-> _].
Qed.

Lemma settles_trans P P' t1 t2 t3 :
  attaching P t1 -> attaching P' t2 -> settles t1 t2 -> settles t2 t3 -> settles t1 t3.
Proof.
  intros H1 H2 S1 S2. split.
  - etrans; [apply (se_grows _ _ S1)|apply (se_grows _ _ S2)].
  - etrans; [apply (se_size _ _ S2)|apply (se_size _ _ S1)].
  - intros u e He. eapply settled_mono; [exact H2| |done]. by eapply (se_waiting _ _ S1).
Qed.

(** [canAttachOrRemove] on a change whose predecessors are not added to the wait list. *)
Lemma canAttach_run e t :
  canAttachOrRemove (Some e) false t =
  (t, Ok (if decide (Forall (fun p => is_Some (att t !! p)) (ch_PreviousIds e)) then
            match att t !! ch_SnapshotId e with Some _ => (true, false) | None => (false, true) end
          else (false, false))).
Proof.
  unfold canAttachOrRemove. erewrite st_bind_run by done. case_decide as Hmiss.
  - rewrite decide_True.
    + erewrite st_bind_run by done. by destruct (att t !! ch_SnapshotId e).
    + apply Forall_forall. intros p Hp. apply not_eq_None_Some. intros Hn.
      assert (p ∈ []) as ?%not_elem_of_nil; [|done]. rewrite <- Hmiss. by apply list_elem_of_filter.
  - rewrite decide_False; [done|]. intros Hall. apply Hmiss, filter_none.
    eapply Forall_impl; [done|]. by intros p [d ->].
Qed.

(** An idle change leaves the list of those about to be looked at. *)
Lemma attaching_drop P u t :
  attaching (u :: P) t ->
  (forall e, unatt t !! u = Some e -> exists p, p ∈ ch_PreviousIds e /\ att t !! p = None) ->
  attaching P t.
Proof.
  intros [Hl [Hk Hw Hi] Hg] Hu. split; [done| |done]. split; [done..|].
  intros v e He HP. destruct (decide (v = u)) as [->|Hne]; [by apply Hu|].
  apply (Hi _ _ He). set_solver.
Qed.

Lemma attaching_unwait P u t :
  attaching (u :: P) t ->
  attaching P (set_unAttached (delete u (unatt t)) t).
Proof.
  intros [Hl [Hk Hw Hi] Hg]. split; [done| |by destruct Hg; split].
  split; simpl.
  - intros v e [Hne He]%lookup_delete_Some. by apply Hk.
  - intros v e p [Hne He]%lookup_delete_Some. by apply Hw.
  - intros v e [Hne He]%lookup_delete_Some HP. apply (Hi _ _ He). set_solver.
Qed.

(** The body of the loop over the waiting changes. *)
Definition wake (fuel : nat) (wid : string) : ST Tree unit :=
  next ← reads (fun t => t_unAttached t !! wid);
  '(ok, remove) ← canAttachOrRemove next false;
  match next with
  | None => mret tt
  | Some next =>
      if (ok : bool) then attach fuel next false
      else if (remove : bool) then
        assigns (fun t => set_unAttached (delete (ch_Id next) (t_unAttached t)) t)
      else mret tt
  end.

(** Attaching ends, attaches the change, and settles those that wait. *)
Definition attaches (fuel : nat) : Prop := forall P c newEl t,
  attaching P t -> ready cs t c -> (newEl = true -> unatt t !! ch_Id c = None) ->
  size (delete (ch_Id c) (unatt t)) < fuel ->
  exists t', attach fuel c newEl t = (t', Ok tt) /\ attaching P t' /\
    is_Some (att t' !! ch_Id c) /\ settles t t'.

Lemma wake_spec fuel P wid t :
  attaches fuel -> attaching (wid :: P) t -> size (unatt t) <= fuel ->
  exists t', wake fuel wid t = (t', Ok tt) /\ attaching P t' /\ settles t t'.
Proof.
  intros IH Hat Hsz. unfold wake. erewrite st_bind_run by done.
  destruct (unatt t !! wid) as [e|] eqn:He; simpl.
  2: { exists t. split_and!; [done| |by eapply settles_refl]. eapply attaching_drop; [done|]. congruence. }
  destruct (wt_keys _ _ _ (at_waiting _ _ Hat) _ _ He) as (Hid & Hnew & Hnext & Hfrom).
  erewrite st_bind_run by apply canAttach_run. case_decide as Hall.
  - rewrite Forall_forall in Hall. pose proof (attaching_unwait _ _ _ Hat) as Hat'.
    destruct (att t !! ch_SnapshotId e) as [s|] eqn:Hs.
    + destruct (IH (wid :: P) e false t Hat) as (t' & Hrun & Hat1 & Hin & Hse).
      * split; [by rewrite Hid|done..|by rewrite Hs|done].
      * done.
      * rewrite Hid, map_size_delete_Some by (by eexists). pose proof (map_size_ne_0_lookup_2 _ _ (mk_is_Some _ _ He)). lia.
      * exists t'. split_and!; [done| |done]. eapply attaching_drop; [done|].
        intros e' He'. destruct (wt_keys _ _ _ (at_waiting _ _ Hat1) _ _ He') as (_ & Hn & _).
        rewrite Hid in Hin. destruct Hin. congruence.
    + rewrite Hid. exists (set_unAttached (delete wid (unatt t)) t). split_and!; [done..|].
      split.
      * by destruct (reflexivity (R := grows cs) t); split.
      * simpl. rewrite map_size_delete_Some by (by eexists). lia.
      * intros u e' He'. destruct (wt_keys _ _ _ (at_waiting _ _ Hat) _ _ He') as (Hid' & _).
        destruct (decide (u = wid)) as [->|Hne].
        -- rewrite He in He'. injection He' as <-. right. right. exists t.
           split_and!; [apply Hat..|by destruct (reflexivity (R := grows cs) t); split| |]; done.
        -- right. left. simpl. rewrite Hid', lookup_delete_ne by done. done.
  - exists t. split_and!; [done| |by eapply settles_refl]. eapply attaching_drop; [done|].
    intros e' He'. rewrite He in He'. injection He' as <-.
    apply not_Forall_Exists in Hall; [|apply _]. apply Exists_exists in Hall as (p & Hp & Hn).
    exists p. split; [done|]. by apply eq_None_not_Some.
Qed.

Lemma wakes_spec fuel P wids t :
  attaches fuel -> attaching (wids ++ P) t -> size (unatt t) <= fuel ->
  exists t', st_each (wake fuel) wids t = (t', Ok tt) /\ attaching P t' /\ settles t t'.
Proof.
  intros IH. revert t. induction wids as [|wid wids IHl]; intros t Hat Hsz; simpl.
  - exists t. split_and!; [done..|]. by eapply settles_refl.
  - destruct (wake_spec _ _ _ _ IH Hat Hsz) as (t1 & Hrun & Hat1 & Hse).
    erewrite st_bind_run by done. pose proof (se_size _ _ Hse).
    destruct (IHl t1 Hat1) as (t2 & Hrun2 & Hat2 & Hse2); [lia|].
    exists t2. split_and!; [done..|]. exact (settles_trans _ _ _ _ _ Hat Hat1 Hse Hse2).
Qed.

Lemma attach_spec fuel : attaches fuel.
Proof.
  induction fuel as [|fuel IH]; intros P c newEl t Hat Hr Hun Hsz; [lia|].
  destruct (place_spec cs P r c newEl t) as (t1 & Hrun & Hl1 & Hg1 & Hin & Hu1 & Hwl & Hw1);
    [apply Hat|apply Hat|done..|].
  assert (attaching (default [] (t_waitList t !! ch_Id c) ++ P) t1) as Hat1.
  { split; [done..|]. etrans; [apply Hat|done]. }
  assert (settles t t1) as Hse1.
  { split; [done|rewrite Hu1; apply size_delete_le|]. intros u e He.
    destruct (wt_keys _ _ _ (at_waiting _ _ Hat) _ _ He) as (Hid & _).
    destruct (decide (u = ch_Id c)) as [->|Hne]; [left; by rewrite Hid|].
    right. left. rewrite Hid, Hu1, lookup_delete_ne by done. done. }
  simpl. erewrite st_bind_run by done. erewrite st_bind_run by done. rewrite Hwl.
  destruct (t_waitList t !! ch_Id c) as [wids|]; simpl in *; [|by exists t1].
  destruct (wakes_spec fuel P wids t1) as (t2 & Hrun2 & Hat2 & Hse2); [done..|rewrite Hu1; lia|].
  erewrite st_bind_run by exact Hrun2.
  pose proof (grows_is_Some _ _ _ _ (se_grows _ _ Hse2) Hin) as Hin2.
  assert (settles t t2) as [Hg Hs Hw] by exact (settles_trans _ _ _ _ _ Hat Hat1 Hse1 Hse2).
  eexists. split; [done|]. split_and!; [|done|].
  - destruct Hat2 as [Hl [Hk Hwt Hi] Hg2]. split; [done| |by destruct Hg2; split]. split; [done| |done].
    intros u e p He Hp Hn. simpl in *. rewrite lookup_delete_ne by (intros <-; destruct Hin2; congruence).
    by apply (Hwt _ _ _ He Hp).
  - split; [by destruct Hg; split|done|]. intros u e He. destruct (Hw u e He) as [?|[?|Hd]].
    + by left.
    + right. by left.
    + right. right. eapply dropped_mono; [done|]. by destruct (reflexivity (R := grows cs) t2); split.
Qed.

(** ** Adding a change *)

(** The change was handled: it is attached, waits, or was dropped. *)
Definition delivered d t : Prop := exists c, from d c /\ settled c t.

Record handles t t' : Prop := mkHandles {
  ha_grows : grows cs t t';
  ha_waiting u e : unatt t !! u = Some e -> settled e t';
}.

Lemma delivered_mono d t t' : delivered d t -> handles t t' -> delivered d t'.
Proof.
  intros (c & Hf & Hs) [Hg Hw]. exists c. split; [done|]. destruct Hs as [Ha|[Hu|Hd]].
  - left. by eapply grows_is_Some.
  - by eapply Hw.
  - right. right. by eapply dropped_mono.
Qed.

(** The wait list after a change was added to it. *)
Definition waits (id : string) (missing : list string) (t t' : Tree) : Prop :=
  t' = set_waitList (t_waitList t') t /\
  (forall p l, t_waitList t !! p = Some l -> exists l', t_waitList t' !! p = Some (l ++ l')) /\
  (forall p, p ∈ missing -> exists l, t_waitList t' !! p = Some l /\ id ∈ l).

Lemma waits_run id missing t :
  exists t', st_each (fun pid => assigns (fun t =>
    set_waitList (<[pid := default [] (t_waitList t !! pid) ++ [id]]> (t_waitList t)) t)) missing t
    = (t', Ok tt) /\ waits id missing t t'.
Proof.
  revert t. induction missing as [|pid missing IH]; intros t; simpl.
  - exists t. split; [done|]. split_and!; [by destruct t| |].
    + intros p l Hp. exists []. by rewrite app_nil_r.
    + intros p Hp. by apply not_elem_of_nil in Hp.
  - erewrite st_bind_run by done. set (t1 := set_waitList _ t).
    destruct (IH t1) as (t' & -> & Heq & Hmono & Hin). exists t'. split; [done|]. split_and!.
    + by rewrite Heq at 1.
    + intros p l Hp. destruct (decide (p = pid)) as [->|Hne].
      * destruct (Hmono pid (l ++ [id])) as (l' & Hl').
        { simpl. by rewrite lookup_insert_eq, Hp. }
        exists ([id] ++ l'). by rewrite Hl', app_assoc.
      * apply Hmono. simpl. by rewrite lookup_insert_ne.
    + intros p [->|Hp]%elem_of_cons; [|by apply Hin].
      destruct (Hmono pid (default [] (t_waitList t !! pid) ++ [id])) as (l' & Hl').
      { simpl. by rewrite lookup_insert_eq. }
      eexists. split; [done|]. set_solver.
Qed.

(** A change that misses a predecessor is put to wait. *)
Lemma attaching_wait c t t' missing :
  attaching [] t -> att t !! ch_Id c = None -> unatt t !! ch_Id c = None -> ch_Next c = [] ->
  (exists d, d ∈ cs /\ from d c) ->
  missing = filter (fun p => att t !! p = None) (ch_PreviousIds c) -> missing <> [] ->
  waits (ch_Id c) missing t t' ->
  let t2 := set_unAttached (<[ch_Id c := c]> (unatt t')) t' in
  attaching [] t2 /\ handles t t2 /\ settled c t2.
Proof.
  intros [Hl [Hk Hw Hi] Hg] Hnew Hun Hnext Hfrom Hmiss Hne (-> & Hmono & Hin) t2.
  set (wl := t_waitList t') in *. clearbody wl. simpl in *. split_and!.
  - split; [done| |by destruct Hg; split]. split; simpl.
    + intros u e [[<- <-]|[_ He]]%lookup_insert_Some; [done|by apply Hk].
    + intros u e p [[<- <-]|[_ He]]%lookup_insert_Some Hp Hn.
      * apply Hin. rewrite Hmiss. by apply list_elem_of_filter.
      * destruct (Hw _ _ _ He Hp Hn) as (l & Hl1 & Hl2).
        destruct (Hmono _ _ Hl1) as (l' & Hl'). eexists. split; [done|]. set_solver.
    + intros u e [[<- <-]|[_ He]]%lookup_insert_Some _.
      * destruct missing as [|p missing]; [done|]. exists p.
        assert (p ∈ filter (fun p => att t !! p = None) (ch_PreviousIds c)) as [? ?]%list_elem_of_filter
          by (rewrite <- Hmiss; by left). done.
      * apply (Hi _ _ He). apply not_elem_of_nil.
  - split; [by destruct (reflexivity (R := grows cs) t); split|]. intros u e He. right. left. simpl.
    destruct (Hk _ _ He) as (-> & _). rewrite lookup_insert_ne by congruence. done.
  - right. left. simpl. by rewrite lookup_insert_eq.
Qed.

Definition sortedPrev c : Change :=
  if decide (1 < length (ch_PreviousIds c)) then with_PreviousIds (sortStrings (ch_PreviousIds c)) c
  else c.

Lemma sortedPrev_from c : from c (sortedPrev c).
Proof.
  unfold sortedPrev. case_decide; [|done]. destruct c. split_and!; try done. simpl.
  apply merge_sort_Permutation.
Qed.

Lemma sortedPrev_same c : ch_Id (sortedPrev c) = ch_Id c /\ ch_Next (sortedPrev c) = ch_Next c.
Proof. unfold sortedPrev. case_decide; by destruct c. Qed.

Lemma canAttach_wait_run c t :
  exists t', canAttachOrRemove (Some c) true t = (t',
    snd (canAttachOrRemove (Some c) false t)) /\
    ((t' = t /\ Forall (fun p => is_Some (att t !! p)) (ch_PreviousIds c)) \/
     (snd (canAttachOrRemove (Some c) false t) = Ok (false, false) /\
      let missing := filter (fun p => att t !! p = None) (ch_PreviousIds c) in
      missing <> [] /\ waits (ch_Id c) missing t t')).
Proof.
  rewrite canAttach_run. simpl. unfold canAttachOrRemove. erewrite st_bind_run by done. case_decide as Hm.
  - assert (Forall (fun p => is_Some (att t !! p)) (ch_PreviousIds c)) as Hall.
    { apply Forall_forall. intros p Hp. apply not_eq_None_Some. intros Hn.
      assert (p ∈ []) as ?%not_elem_of_nil; [|done]. rewrite <- Hm. by apply list_elem_of_filter. }
    rewrite decide_True by done. exists t. erewrite st_bind_run by done. split; [|by left].
    by destruct (att t !! ch_SnapshotId c).
  - rewrite decide_False.
    + destruct (waits_run (ch_Id c) (filter (fun p => att t !! p = None) (ch_PreviousIds c)) t)
        as (t' & Hrun & Hw).
      exists t'. erewrite st_bind_run by exact Hrun. split; [done|]. right. done.
    + intros Hall. apply Hm, filter_none. eapply Forall_impl; [done|]. by intros p [d ->].
Qed.

Lemma add_spec c t :
  t_root t0 = Some r -> attaching [] t -> c ∈ cs -> ch_Next c = [] ->
  att t !! ch_Id c = None -> unatt t !! ch_Id c = None ->
  exists t' ok, add c t = (t', Ok ok) /\ attaching [] t' /\ handles t t' /\ delivered c t'.
Proof.
  intros Hroot Hat Hc Hnext Hnew Hun.
  assert (t_root t = Some r) as Hr by (destruct (gr_frame _ _ _ (at_grows _ _ Hat)) as [-> _]; done).
  unfold add. erewrite st_bind_run by done. rewrite Hr. fold (sortedPrev c).
  pose proof (sortedPrev_from c) as Hf. destruct (sortedPrev_same c) as [Hid Hnx].
  set (c1 := sortedPrev c) in *. rewrite <- Hid in Hnew, Hun. rewrite <- Hnx in Hnext.
  assert (exists d, d ∈ cs /\ from d c1) as Hcs by eauto.
  destruct (canAttach_wait_run c1 t) as (t1 & Hrun & Hcase).
  rewrite canAttach_run in Hrun, Hcase. simpl in Hrun, Hcase.
  erewrite st_bind_run by exact Hrun.
  destruct Hcase as [[-> Hall]|[Hsnd [Hne Hw]]].
  - rewrite decide_True by done. rewrite Forall_forall in Hall.
    destruct (att t !! ch_SnapshotId c1) as [s|] eqn:Hs.
    + destruct (attach_spec (attachFuel t) [] c1 true t Hat) as (t' & Hrun' & Hat' & Hin & Hse).
      * split; done.
      * done.
      * unfold attachFuel. rewrite delete_id by done. lia.
      * exists t', true. erewrite st_bind_run; [|erewrite st_bind_run by done; exact Hrun'].
        split_and!; [done..| |exists c1; split; [done|by left]]. split; apply Hse.
    + exists t, false. split_and!; [done..| |].
      * split; [done|]. apply (se_waiting _ _ (settles_refl _ _ Hat)).
      * exists c1. split; [done|]. right. right. exists t. split_and!; [apply Hat..| | |]; done.
  - destruct (attaching_wait c1 t t1 _ Hat Hnew Hun Hnext Hcs eq_refl Hne Hw) as (H1 & H2 & H3).
    injection Hsnd as ->. eexists _, false. split; [done|]. split_and!; [done..|]. by exists c1.
Qed.

Lemma addUnknown_spec c t :
  t_root t0 = Some r -> attaching [] t -> c ∈ cs -> ch_Next c = [] ->
  (forall d, d ∈ cs -> ch_Id d = ch_Id c -> d = c) ->
  exists t', addUnknown c t = (t', Ok tt) /\ attaching [] t' /\ handles t t' /\ delivered c t'.
Proof.
  intros Hroot Hat Hc Hnext Huniq. unfold addUnknown. erewrite st_bind_run by done.
  assert (handles t t) as Hrefl.
  { split; [done|]. apply (se_waiting _ _ (settles_refl _ _ Hat)). }
  destruct (known t (ch_Id c)) eqn:Hk.
  - exists t. split_and!; [done..|]. unfold known in Hk.
    apply orb_true_iff in Hk as [Hk|Hk]; apply bool_decide_eq_true in Hk.
    + exists c. split; [done|by left].
    + destruct Hk as [e He]. exists e.
      destruct (wt_keys _ _ _ (at_waiting _ _ Hat) _ _ He) as (Hid & _ & _ & d & Hd & Hf).
      assert (d = c) as ->; [|split; [done|right; left; by rewrite Hid]].
      apply Huniq; [done|]. destruct Hf as [Hf _]. congruence.
  - unfold known in Hk. apply orb_false_iff in Hk as [Hk1 Hk2].
    apply bool_decide_eq_false in Hk1, Hk2. rewrite <- eq_None_not_Some in Hk1, Hk2.
    destruct (add_spec c t) as (t' & ok & Hrun & ?); [done..|].
    exists t'. erewrite st_bind_run by done. done.
Qed.

(** Delivering all the changes. *)
Lemma addAll_spec :
  t_root t0 = Some r -> attaching [] t0 ->
  Forall (fun c => ch_Next c = []) cs ->
  (forall d d', d ∈ cs -> d' ∈ cs -> ch_Id d = ch_Id d' -> d = d') ->
  exists t', st_each addUnknown cs t0 = (t', Ok tt) /\ attaching [] t' /\
    forall d, d ∈ cs -> delivered d t'.
Proof.
  intros Hroot Hat Hnext Huniq. rewrite Forall_forall in Hnext.
  assert (forall l t, (forall d, d ∈ l -> d ∈ cs) -> attaching [] t ->
    exists t', st_each addUnknown l t = (t', Ok tt) /\ attaching [] t' /\ handles t t' /\
      forall d, d ∈ l -> delivered d t') as Hall.
  { induction l as [|c l IH]; intros t Hl Hat1; simpl.
    - exists t. split_and!; [done..| |by intros d ?%not_elem_of_nil].
      split; [done|]. apply (se_waiting _ _ (settles_refl _ _ Hat1)).
    - destruct (addUnknown_spec c t) as (t1 & Hrun & Hat2 & Hh1 & Hd1); [set_solver..|].
      erewrite st_bind_run by done.
      destruct (IH t1) as (t2 & Hrun2 & Hat3 & Hh2 & Hd2); [set_solver|done|].
      exists t2. split_and!; [done..| |].
      + split; [etrans; [apply Hh1|apply Hh2]|]. intros u e He.
        destruct (ha_waiting _ _ Hh1 _ _ He) as [Ha|[Hu|Hd]].
        * left. eapply grows_is_Some; [apply Hh2|done].
        * by eapply (ha_waiting _ _ Hh2).
        * right. right. eapply dropped_mono; [done|apply Hh2].
      + intros d [->|Hd]%elem_of_cons; [by eapply delivered_mono|by apply Hd2]. }
  destruct (Hall cs t0) as (t' & ? & ? & _ & ?); [done..|]. by exists t'.
Qed.
End attach.
