(* ===== verification/TreeStable.v ===== *)
(** The iteration order of linked trees: it depends only on the changes, not on how they
    came in, and attaching changes does not reorder those that were there.  Then what the operations leave alone. *)

From Stdlib Require Import ZArith Lia String Permutation.
From stdpp Require Import base option list gmap strings sorting relations.
From S2P Require Import Prelude Crypto TreeModels Tree TreeOrder TreeAdd.

(** ** The sort does not depend on its fuel *)

Lemma topLoop_fuel next f k s l :
  topLoop next f s = Some l -> topLoop next (f + k) s = Some l.
Proof.
  revert s. induction f as [|f IH]; intros s; simpl.
  - destruct (ts_stack s) eqn:Hs; [|done]. intros [= <-]. destruct k; simpl; by rewrite Hs.
  - destruct (ts_stack s); [done|]. apply IH.
Qed.

Lemma topLoop_det next f f' s l l' :
  topLoop next f s = Some l -> topLoop next f' s = Some l' -> l = l'.
Proof.
  intros H H'. apply (topLoop_fuel _ _ f') in H. apply (topLoop_fuel _ _ f) in H'.
  rewrite Nat.add_comm in H'. congruence.
Qed.

Lemma topLoop_ext next next' f s :
  (forall x, next x = next' x) -> topLoop next f s = topLoop next' f s.
Proof.
  intros Hn. revert s. induction f as [|f IH]; intros s; simpl; [done|].
  destruct (ts_stack s); [done|]. rewrite IH. unfold topStep. by rewrite Hn.
Qed.

(** ** A larger tree sorts the old changes as before *)

Section sim.
Variables (old : string -> Prop) (next next' : string -> list string).
Context `{!forall x, Decision (old x)}.
Hypothesis next_old : forall x, old x -> filter old (next' x) = next x.
Hypothesis next_new : forall x, ~ old x -> filter old (next' x) = [].

Record sim (s s' : topState) : Prop := mkSim {
  sim_stack : filter old (ts_stack s') = ts_stack s;
  sim_visited x : old x -> x ∈ ts_visited s' <-> x ∈ ts_visited s;
  sim_finished x : old x -> x ∈ ts_branchesFinished s' <-> x ∈ ts_branchesFinished s;
  sim_res : filter old (ts_resBuf s') = ts_resBuf s;
}.

Lemma filter_rev (l : list string) : filter old (rev l) = rev (filter old l).
Proof.
  induction l as [|x l IH]; simpl; [done|]. rewrite filter_app, IH, !filter_cons, filter_nil.
  case_decide; simpl; [done|by rewrite app_nil_r].
Qed.

Lemma filter_comm (P : string -> Prop) `{!forall x, Decision (P x)} (l : list string) :
  filter old (filter P l) = filter P (filter old l).
Proof.
  induction l as [|x l IH]; [done|]. rewrite !filter_cons.
  repeat (case_decide; rewrite ?filter_cons); try done; by rewrite IH.
Qed.

Lemma sim_step_old ch st st' s s' :
  sim s s' -> old ch -> ts_stack s = ch :: st -> ts_stack s' = ch :: st' ->
  sim (topStep next ch st s) (topStep next' ch st' s').
Proof.
  intros [Hst Hvis Hfin Hres] Hch E E'. rewrite E, E', filter_cons_True in Hst by done.
  injection Hst as Hst. unfold topStep. pose proof (Hfin _ Hch). pose proof (Hvis _ Hch).
  destruct (decide (ch ∈ ts_branchesFinished s')), (decide (ch ∈ ts_branchesFinished s)); try tauto;
    [|destruct (decide (ch ∈ ts_visited s')), (decide (ch ∈ ts_visited s)); try tauto];
    split; simpl; try done.
  - intros x Hx. specialize (Hfin x Hx). set_solver.
  - rewrite filter_app, Hres, filter_cons_True by done. done.
  - rewrite filter_app, filter_rev, filter_cons_True, filter_comm, next_old, Hst by done. f_equal.
    f_equal. apply filter_ext_in. intros x Hx.
    assert (old x) as Hox by (rewrite <- (next_old _ Hch) in Hx; by apply list_elem_of_filter in Hx as [? _]).
    specialize (Hvis x Hox). set_solver.
  - intros x Hx. specialize (Hvis x Hx). set_solver.
  - intros x Hx. specialize (Hfin x Hx). set_solver.
Qed.

Lemma sim_step_new ch st' s s' :
  sim s s' -> ~ old ch -> ts_stack s' = ch :: st' -> sim s (topStep next' ch st' s').
Proof.
  intros [Hst Hvis Hfin Hres] Hch E'. rewrite E', filter_cons_False in Hst by done.
  assert (forall x, old x -> x <> ch) as Hne by (intros x Hx ->; done).
  unfold topStep. repeat case_decide; split; simpl; try done.
  - intros x Hx. specialize (Hfin x Hx). specialize (Hne x Hx). set_solver.
  - rewrite filter_app, filter_cons_False, filter_nil, app_nil_r by done. done.
  - rewrite filter_app, filter_rev, filter_cons_False, filter_comm, next_new, Hst by done. done.
  - intros x Hx. specialize (Hvis x Hx). specialize (Hne x Hx). set_solver.
  - intros x Hx. specialize (Hfin x Hx). specialize (Hne x Hx). set_solver.
Qed.

Lemma sim_loop f' s s' l' :
  sim s s' -> topLoop next' f' s' = Some l' -> exists f, topLoop next f s = Some (filter old l').
Proof.
  revert s s'. induction f' as [|f' IH]; intros s s' Hsim; simpl.
  all: destruct (ts_stack s') as [|ch st'] eqn:E'.
  1, 3: intros [= <-]; exists 0; pose proof (sim_stack _ _ Hsim) as Hst;
    rewrite E' in Hst; simpl; rewrite <- Hst; simpl; by rewrite (sim_res _ _ Hsim).
  - done.
  - intros Hl. destruct (decide (old ch)) as [Hch|Hch].
    + pose proof (sim_stack _ _ Hsim) as Hst. rewrite E', filter_cons_True in Hst by done.
      destruct (IH _ _ (sim_step_old _ _ _ _ _ Hsim Hch (eq_sym Hst) E') Hl) as [f Hf].
      exists (S f). simpl. by rewrite <- Hst.
    + by apply (IH _ _ (sim_step_new _ _ _ _ Hsim Hch E') Hl).
Qed.
End sim.

(** ** Iterating a linked tree *)

Section linked.
Variables (r : string) (m : changes).
Hypothesis Hm : linked r m.

Abbreviation edge := (fun x y : string => y ∈ nextOf m x).
Abbreviation order := (iterOrder m (Some r)).

Lemma linked_closed x y : edge x y -> is_Some (m !! y).
Proof. intros (c & Hc & _)%(lk_edge _ _ _ _ Hm). eauto. Qed.

Lemma linked_rank : exists rank : string -> nat, forall x y, edge x y -> rank x < rank y.
Proof.
  destruct (lk_rank _ _ Hm) as [rank Hr]. exists rank.
  intros x y (c & Hc & Hne & Hx)%(lk_edge _ _ _ _ Hm). eauto.
Qed.

(** The sort ends with a result. *)
Lemma topSort_some :
  exists f, topLoop (nextOf m) f (mkTopState [r] ∅ ∅ []) = Some (topSort m r).
Proof.
  destruct linked_rank as [rank Hr]. exists (edges m (nextOf m) + 1). unfold topSort.
  destruct (topLoop_total m rank linked_closed Hr r (edges m (nextOf m) + 1)
    (mkTopState [r] ∅ ∅ [])) as (l & -> & _); [| |done].
  - apply top_inv_init; [exact linked_closed|exact Hr|exact (lk_root _ _ Hm)].
  - simpl. unfold todo. rewrite map_filter_id; [lia|]. intros x c _. simpl. set_solver.
Qed.

(** Every change but the root names a predecessor. *)
Hypothesis Hconn : forall x c, m !! x = Some c -> x <> r -> ch_PreviousIds c <> [].

(** Every attached change is reachable from the root. *)
Lemma linked_reach x : is_Some (m !! x) -> rtc edge r x.
Proof.
  destruct (lk_rank _ _ Hm) as [rank Hr]. revert x.
  apply (Wf_nat.induction_ltof1 _ rank (fun x => is_Some (m !! x) -> rtc edge r x)).
  intros x IH [c Hc]. destruct (decide (x = r)) as [->|Hne]; [done|].
  destruct (ch_PreviousIds c) as [|p ps] eqn:Hp; [by destruct (Hconn _ _ Hc Hne)|].
  assert (p ∈ ch_PreviousIds c) as Hin by (rewrite Hp; by left).
  eapply rtc_r; [apply (IH p)|]; [by eapply Hr|by eapply (lk_prev _ _ Hm)|].
  apply (lk_edge _ _ _ _ Hm). eauto.
Qed.

(** The iteration visits the attached changes, each once, successors later. *)
Lemma order_spec :
  NoDup order /\ (forall x, x ∈ order <-> is_Some (m !! x)) /\ successors_later m order.
Proof.
  destruct linked_rank as [rank Hr].
  destruct (topSort_spec m rank linked_closed Hr r (lk_root _ _ Hm)) as (Hnd & Hin & Hsl).
  simpl. split_and!; [|intros x; rewrite elem_of_rev, Hin; split|done].
  - by rewrite <- Permutation_rev.
  - intros [<-|(y & _ & Hy)]%rtc_inv_r; [apply (lk_root _ _ Hm)|by eapply linked_closed].
  - apply linked_reach.
Qed.

(** The root comes first. *)
Lemma order_root : exists rest, order = r :: rest.
Proof.
  destruct order_spec as (Hnd & Hin & Hsl).
  destruct order as [|x rest] eqn:Ho.
  { assert (r ∈ []) as ?%not_elem_of_nil; [apply Hin, (lk_root _ _ Hm)|done]. }
  destruct (decide (x = r)) as [->|Hne]; [by exists rest|]. exfalso.
  destruct (proj1 (Hin x) ltac:(by left)) as [c Hc].
  destruct (ch_PreviousIds c) as [|p ps] eqn:Hp; [by destruct (Hconn _ _ Hc Hne)|].
  assert (edge p x) as He by (apply (lk_edge _ _ _ _ Hm); exists c; rewrite Hp; set_solver).
  assert (p ∈ x :: rest) as Hpin.
  { apply Hin, (lk_prev _ _ Hm _ _ _ Hc Hne). rewrite Hp. by left. }
  inversion_clear Hnd as [|? ? Hx _]. apply Hx. clear -He Hpin Hsl.
  destruct Hsl as [Hsl Hfirst]. apply elem_of_cons in Hpin as [->|Hpin]; [by apply Hfirst|].
  clear Hfirst. induction rest as [|q rest IH]; [by apply not_elem_of_nil in Hpin|]. destruct Hsl as [Hsl Hq].
  right. apply elem_of_cons in Hpin as [->|Hpin]; [by apply Hq|]. by apply IH.
Qed.
End linked.

(** ** Convergence *)

(** The same changes, whatever their links, order ids and counters. *)
Definition same_changes (m m' : changes) : Prop :=
  (forall x, is_Some (m !! x) <-> is_Some (m' !! x)) /\
  (forall x c c', m !! x = Some c -> m' !! x = Some c' -> ch_PreviousIds c ≡ₚ ch_PreviousIds c').

Lemma same_changes_next r m m' x :
  linked r m -> linked r m' -> same_changes m m' -> nextOf m x = nextOf m' x.
Proof.
  intros Hm Hm' [Hdom Hprev]. apply sorted_occ_unique; [apply Hm|apply Hm'|]. intros y.
  rewrite (lk_next _ _ Hm), (lk_next _ _ Hm'). unfold links. specialize (Hdom y).
  destruct (m !! y) as [c|] eqn:Hc, (m' !! y) as [c'|] eqn:Hc'.
  - case_decide; [done|]. apply (Permutation_count_occ String.eq_dec). by eapply Hprev.
  - destruct (proj1 Hdom); [eauto|done].
  - destruct (proj2 Hdom); [eauto|done].
  - done.
Qed.

Lemma same_changes_order r m m' :
  linked r m -> linked r m' -> same_changes m m' ->
  iterOrder m (Some r) = iterOrder m' (Some r).
Proof.
  intros Hm Hm' Hs. destruct (topSort_some r m Hm) as [f Hf].
  destruct (topSort_some r m' Hm') as [f' Hf']. simpl. f_equal.
  rewrite (topLoop_ext _ (nextOf m')) in Hf by (intros x; by eapply same_changes_next).
  by eapply topLoop_det.
Qed.

(** ** Stability *)

(** [m'] has all the changes of [m], and more. *)
Definition more_changes (m m' : changes) : Prop :=
  forall x c, m !! x = Some c -> exists c', m' !! x = Some c' /\ ch_PreviousIds c ≡ₚ ch_PreviousIds c'.

Lemma sorted_ids_filter (P : string -> Prop) `{!forall x, Decision (P x)} l : sorted l -> sorted (filter P l).
Proof.
  induction 1 as [|x l Hs IH Hx]; [constructor|]. rewrite filter_cons. case_decide; [|done].
  constructor; [done|]. rewrite Forall_forall in *. intros y [_ Hy]%list_elem_of_filter. auto.
Qed.

Lemma occ_filter (P : string -> Prop) `{!forall x, Decision (P x)} l y :
  occ (filter P l) y = if decide (P y) then occ l y else 0.
Proof.
  induction l as [|x l IH]; [simpl; by case_decide|]. rewrite filter_cons. simpl.
  destruct (String.eq_dec x y) as [->|Hne].
  - case_decide; simpl; [|done]. destruct (String.eq_dec y y); [by rewrite IH|done].
  - destruct (decide (P x)); simpl; [|done]. by destruct (String.eq_dec x y).
Qed.

(** The old successors of a change are those it had. *)
Lemma more_changes_next r m m' x :
  linked r m -> linked r m' -> more_changes m m' ->
  filter (fun y => is_Some (m !! y)) (nextOf m' x) = nextOf m x.
Proof.
  intros Hm Hm' Hmore. apply sorted_occ_unique; [apply sorted_ids_filter, Hm'|apply Hm|]. intros y.
  rewrite occ_filter, (lk_next _ _ Hm), (lk_next _ _ Hm'). unfold links. case_decide as Hy.
  - destruct Hy as [c Hc]. destruct (Hmore _ _ Hc) as (c' & Hc' & Hp). rewrite Hc, Hc'.
    case_decide; [done|]. symmetry. by apply (Permutation_count_occ String.eq_dec).
  - apply eq_None_not_Some in Hy. by rewrite Hy.
Qed.

Lemma more_changes_order r m m' :
  linked r m -> linked r m' -> more_changes m m' ->
  filter (fun x => is_Some (m !! x)) (iterOrder m' (Some r)) = iterOrder m (Some r).
Proof.
  intros Hm Hm' Hmore. destruct (topSort_some r m Hm) as [f Hf].
  destruct (topSort_some r m' Hm') as [f' Hf']. simpl. rewrite filter_rev. f_equal.
  destruct (sim_loop (fun x => is_Some (m !! x)) (nextOf m) (nextOf m')) with (f' := f')
    (s := mkTopState [r] ∅ ∅ []) (s' := mkTopState [r] ∅ ∅ []) (l' := topSort m' r)
    as [f1 Hf1]; [| | |done|by eapply topLoop_det].
  - intros x _. by eapply more_changes_next.
  - intros x Hx. rewrite (more_changes_next r m m' x) by done. unfold nextOf.
    apply eq_None_not_Some in Hx. by rewrite Hx.
  - split; simpl; [|done..]. rewrite filter_cons_True; [done|]. apply (lk_root _ _ Hm).
Qed.

(** * What the operations of the tree leave alone, for any tree: a change that was attached
    and was not added by the call keeps its content and the order id it has; what was
    added is one of the delivered changes. *)

Definition stays (c c' : Change) : Prop :=
  ch_Id c' = ch_Id c /\ ch_Info c' = ch_Info c /\ (ch_OrderId c <> "" -> ch_OrderId c' = ch_OrderId c).

#[global] Instance stays_preorder : PreOrder stays.
Proof.
  split; [by intros c|]. intros c1 c2 c3 (E1 & I1 & O1) (E2 & I2 & O2). split_and!; [congruence..|]. intros Hne.
  rewrite O2; [by apply O1|]. by rewrite O1.
Qed.

Definition ids_ok (m : changes) : Prop := forall x c, m !! x = Some c -> ch_Id c = x.

(** A change made from one of the delivered ones. *)
Definition source (D : list Change) (e : Change) : Prop := exists d, d ∈ D /\ stays d e.

Lemma source_stays D c c' : source D c -> stays c c' -> source D c'.
Proof. intros (d & Hd & Hs) Hs'. exists d. split; [done|by etrans]. Qed.

Definition waitsFrom (D : list Change) (t : Tree) : Prop :=
  forall u e, t_unAttached t !! u = Some e -> source D e.

(** The changes of [m], and those that were added, which come from [D]. *)
Record extends (D : list Change) (added : list string) (m m' : changes) : Prop := mkExtends {
  et_att x c' : m' !! x = Some c' -> (x ∈ added /\ source D c') \/ exists c, m !! x = Some c /\ stays c c';
  et_ids : ids_ok m -> ids_ok m';
}.

Section keeps.
Variable D : list Change.

Record kept_by (t t' : Tree) : Prop := mkKeptBy {
  kp_buf x : x ∈ t_addedBuf t -> x ∈ t_addedBuf t';
  kp_att : extends D (t_addedBuf t') (att t) (att t');
  kp_wait : waitsFrom D t';
}.
Definition keeps (t t' : Tree) : Prop := waitsFrom D t -> kept_by t t'.

#[local] Instance keeps_preorder : PreOrder keeps.
Proof.
  split.
  - intros t Hw. split; [done| |done]. split; [|done]. intros x c' Hx. right. by exists c'.
  - intros t1 t2 t3 K1 K2 Hw. destruct (K1 Hw) as [B1 [A1 I1] W1]. destruct (K2 W1) as [B2 [A2 I2] W2].
    split; [auto| |done]. split; [|auto]. intros x c' Hx.
    destruct (A2 _ _ Hx) as [?|(c2 & Hx2 & S2)]; [by left|].
    destruct (A1 _ _ Hx2) as [[Hin Hsrc]|(c1 & Hx1 & S1)]; [|right; exists c1; split; [done|by etrans]].
    left. split; [auto|by eapply source_stays].
Qed.

(** Only other parts of the tree change. *)
Lemma keeps_same t t' :
  att t' = att t -> t_addedBuf t' = t_addedBuf t -> (waitsFrom D t -> waitsFrom D t') -> keeps t t'.
Proof.
  intros Ha Hb Hu Hw. split; [by rewrite Hb| |auto]. rewrite Ha. split; [|done]. intros x c' Hx. right. by exists c'.
Qed.

Lemma keeps_put x c c' t : att t !! x = Some c -> stays c c' -> keeps t (put_attached x c' t).
Proof.
  intros Hx Hs Hw. split; simpl; [done| |done]. split.
  - intros y d [[<- <-]|[_ Hy]]%lookup_insert_Some; right; [by exists c|by exists d].
  - intros Hok y d [[<- <-]|[_ Hy]]%lookup_insert_Some; [|by apply Hok]. destruct Hs as [-> _]. by apply Hok.
Qed.

(** A step that reads a change and writes it back. *)
Lemma frames_attached {A} id (f : Change -> ST Tree A) :
  (forall c t, att t !! id = Some c -> keeps t (f c t).1) -> frames keeps (attachedChange id ≫= f).
Proof.
  intros Hf t. unfold mbind, st_bind, attachedChange, calls. destruct (att t !! id) as [c|] eqn:Hc; [|done].
  by apply Hf.
Qed.

Lemma linkPrevious_keeps cid id : frames keeps (linkPrevious cid id).
Proof.
  unfold linkPrevious. apply frames_attached. intros p t Hp.
  apply (frames_attached cid). clear p t Hp. intros c t Hc. unfold mbind, st_bind, assigns.
  assert (keeps t (put_attached cid (with_Previous (ch_Previous c ++ [id]) c) t)) as Hk.
  { eapply keeps_put; [done|]. by destruct c. }
  etrans; [exact Hk|]. apply (frames_attached id). clear. intros c t Hc.
  eapply keeps_put; [done|]. by destruct c.
Qed.

Section add.
Context `{LexId}.

(** The change itself, before its counter and its links. *)
Lemma place_enters c (newEl : bool) t :
  source D c ->
  let t1 := set_addedBuf (t_addedBuf t ++ [ch_Id c]) (put_attached (ch_Id c) c t) in
  keeps t (if newEl then t1 else set_unAttached (delete (ch_Id c) (t_unAttached t)) t1).
Proof.
  intros Hc t1 Hw. assert (extends D (t_addedBuf t1) (att t) (att t1)) as He.
  { split; simpl.
    - intros x d [[<- <-]|[_ Hx]]%lookup_insert_Some; [|right; by exists d].
      left. split; [|done]. apply elem_of_app. right. by left.
    - intros Hok x d [[<- <-]|[_ Hx]]%lookup_insert_Some; [done|by apply Hok]. }
  assert (forall x : string, x ∈ t_addedBuf t -> x ∈ t_addedBuf t1) as Hb
    by (intros x Hx; simpl; apply elem_of_app; by left).
  destruct newEl; split; try done. intros u e. simpl. intros [_ Hu]%lookup_delete_Some. by eapply Hw.
Qed.

Lemma place_keeps c newEl : source D c -> frames keeps (place c newEl).
Proof.
  intros Hc t. etrans; [exact (place_enters c newEl t Hc)|]. cbv zeta.
  set (t1 := if newEl then _ else _).
  assert (att t1 !! ch_Id c = Some c) as Hc1 by (subst t1; destruct newEl; apply lookup_insert_eq).
  match goal with |- keeps _ ?r => replace r with
    (((if decide (ch_SnapshotCounter c = 0%Z) then
         assigns (fun t => set_possibleRoots (t_possibleRoots t ++ [ch_Id c]) t) ;;
         snapshot ← attachedChange (ch_SnapshotId c);
         assigns (put_attached (ch_Id c) (with_SnapshotCounter (ch_SnapshotCounter snapshot + 1) c))
       else mret tt) ;; st_each (linkPrevious (ch_Id c)) (ch_PreviousIds c)) t1).1 end; [|by subst t1; destruct newEl].
  clearbody t1. unfold mbind at 1, st_bind at 1. case_decide.
  - unfold mbind at 1, st_bind at 1, assigns at 1. set (t3 := set_possibleRoots _ _).
    assert (keeps t1 t3) as Hk by by apply keeps_same. etrans; [exact Hk|].
    unfold mbind at 1, st_bind at 1, attachedChange, calls.
    destruct (opt_or _ _) as [sn|e]; [|done]. unfold assigns.
    assert (keeps t3 (put_attached (ch_Id c) (with_SnapshotCounter (ch_SnapshotCounter sn + 1) c) t3)) as Hk2.
    { apply (keeps_put _ c); [done|by destruct c]. }
    etrans; [exact Hk2|]. apply frames_each; [exact _|]. intros. apply linkPrevious_keeps.
  - change (keeps t1 (st_each (linkPrevious (ch_Id c)) (ch_PreviousIds c) t1).1).
    apply frames_each; [exact _|]. intros. apply linkPrevious_keeps.
Qed.

Lemma canAttach_keeps c addToWait : frames keeps (canAttachOrRemove c addToWait).
Proof. unfold canAttachOrRemove. frame; by apply keeps_same. Qed.

Lemma unwait_keeps u : frames keeps (assigns (fun t => set_unAttached (delete u (t_unAttached t)) t)).
Proof.
  frame. apply keeps_same; [done..|]. intros Hw v e. simpl. intros [_ Hv]%lookup_delete_Some. by eapply Hw.
Qed.

Lemma attach_keeps fuel c newEl : source D c -> frames keeps (attach fuel c newEl).
Proof.
  revert c newEl. induction fuel as [|fuel IH]; intros c newEl Hc; simpl.
  { frame; auto using place_keeps. }
  apply frames_bind; [exact _|by apply place_keeps|]. intros _.
  apply frames_bind; [exact _|apply frames_reads; exact _|]. intros [l|]; [|apply frames_ret; exact _].
  apply frames_bind; [exact _| |frame; by apply keeps_same].
  apply frames_each; [exact _|]. intros wid _.
  (* a waiting change is one of the delivered *)
  intros t Hw. unfold mbind at 1, st_bind at 1, reads at 1. revert Hw.
  match goal with |- _ -> kept_by t ?r.1 => change (keeps t r.1) end.
  destruct (t_unAttached t !! _) as [next|] eqn:Hnext.
  - intros Hw. pose proof (Hw _ _ Hnext) as Hsrc. revert Hw.
    match goal with |- _ -> kept_by t (?m t).1 => cut (frames keeps m); [intros Hm; apply (Hm t)|] end.
    frame; auto using canAttach_keeps. apply (unwait_keeps (ch_Id next) s).
  - match goal with |- keeps t (?m t).1 => cut (frames keeps m); [intros Hm; apply (Hm t)|] end.
    frame; auto using canAttach_keeps.
Qed.

Lemma add_keeps c : c ∈ D -> frames keeps (add c).
Proof.
  intros Hc. assert (source D c) as Hsrc by by exists c.
  unfold add. apply frames_bind; [exact _|apply frames_reads; exact _|]. intros [root|].
  - set (c' := if decide _ then _ else c).
    assert (source D c') as Hsrc'. { eapply source_stays; [done|]. subst c'. case_decide; by destruct c. }
    frame; auto using canAttach_keeps, attach_keeps.
    apply keeps_same; [done..|]. intros Hw u e. simpl. intros [[_ <-]|[_ Hu]]%lookup_insert_Some; [done|by eapply Hw].
  - set (c' := if decide _ then _ else c).
    assert (source D c') as Hsrc'. { eapply source_stays; [done|]. subst c'. case_decide as Ho; [|done]. by destruct c. }
    frame. intros Hw. split; simpl; [| |by intros ? ? ?].
    + intros x Hx. apply elem_of_app. by left.
    + split; [|by intros _ x d [<- <-]%lookup_singleton_Some].
      intros x d [<- <-]%lookup_singleton_Some. left. split; [|done]. apply elem_of_app. right. by left.
Qed.

Lemma addUnknown_keeps c : c ∈ D -> frames keeps (addUnknown c).
Proof. intros Hc. unfold addUnknown. frame. by apply add_keeps. Qed.
End add.
End keeps.

(** ** Order ids *)

Section heads.
Context `{LexId}.

(** The changes of [m], where order ids were filled in. *)
Definition follows (m m' : changes) : Prop :=
  forall x c', m' !! x = Some c' -> exists c, m !! x = Some c /\ stays c c'.

Definition unordered (m : changes) (x : string) : Prop :=
  match m !! x with Some c => ch_OrderId c = "" | None => False end.

Lemma follows_put m m' x c' o :
  follows m m' -> m' !! x = Some c' -> unordered m x -> follows m (<[x := with_OrderId o c']> m').
Proof.
  intros Hf Hx Hu y d [[<- <-]|[_ Hy]]%lookup_insert_Some; [|by apply Hf].
  destruct (Hf _ _ Hx) as (c & Hc & Hid & Hi & _). unfold unordered in Hu. rewrite Hc in Hu. exists c.
  split; [done|]. destruct c'. split_and!; [done|done|by intros Hne].
Qed.

Lemma fillBefore_follows m prev before pending t :
  follows m (att t) -> Forall (unordered m) pending ->
  exists m', (fillBefore prev before pending t).1 = set_attached m' t /\ follows m m'.
Proof.
  revert prev t. induction pending as [|x pending IH]; intros prev t Hf Hp; simpl.
  { exists (att t). by destruct t. }
  inversion_clear Hp as [|? ? Hx Hp']. unfold mbind at 1, st_bind at 1, attachedChange, calls.
  destruct (att t !! x) as [c|] eqn:Hc; simpl; [|exists (att t); by destruct t].
  unfold mbind at 1, st_bind at 1, lifts at 1.
  destruct (lexId_NextBefore prev before) as [o|e]; [|exists (att t); by destruct t].
  unfold mbind, st_bind, assigns.
  destruct (IH o (put_attached x (with_OrderId o c) t)) as (m' & Hm' & Hf'); [by apply follows_put|done|].
  exists m'. split; [|done]. by rewrite Hm'.
Qed.

Lemma fillAfter_follows m prev pending t :
  follows m (att t) -> Forall (unordered m) pending ->
  exists m', (fillAfter prev pending t).1 = set_attached m' t /\ follows m m'.
Proof.
  revert prev t. induction pending as [|x pending IH]; intros prev t Hf Hp; simpl.
  { exists (att t). by destruct t. }
  inversion_clear Hp as [|? ? Hx Hp']. unfold mbind at 1, st_bind at 1, attachedChange, calls.
  destruct (att t !! x) as [c|] eqn:Hc; simpl; [|exists (att t); by destruct t].
  unfold mbind, st_bind, assigns.
  destruct (IH (lexId_Next prev) (put_attached x (with_OrderId (lexId_Next prev) c) t)) as (m' & Hm' & Hf');
    [by apply follows_put|done|].
  exists m'. split; [|done]. by rewrite Hm'.
Qed.

Lemma fillOrder_follows m prev pending order t :
  follows m (att t) -> Forall (unordered m) pending ->
  exists m', (fillOrder prev pending order t).1 = set_attached m' t /\ follows m m'.
Proof.
  revert prev pending t. induction order as [|x order IH]; intros prev pending t Hf Hp; simpl.
  { by apply fillAfter_follows. }
  unfold mbind at 1, st_bind at 1, attachedChange, calls.
  destruct (att t !! x) as [c|] eqn:Hc; simpl; [|exists (att t); by destruct t].
  case_decide as Ho.
  - apply IH; [done|]. apply Forall_app. split; [done|]. constructor; [|constructor].
    destruct (Hf _ _ Hc) as (c0 & Hc0 & _ & _ & Hk). unfold unordered. rewrite Hc0.
    destruct (decide (ch_OrderId c0 = "")) as [|Hne]; [done|]. rewrite Hk in Ho by done. done.
  - unfold mbind, st_bind.
    destruct (fillBefore_follows m prev (ch_OrderId c) pending t Hf Hp) as (m1 & Hm1 & Hf1).
    destruct (fillBefore _ _ _ t) as [t1 [[]|e]]; simpl in Hm1; subst t1; [|by exists m1].
    destruct (IH (ch_OrderId c) [] (set_attached m1 t)) as (m' & Hm' & Hf'); [done|constructor|].
    exists m'. split; [|done]. by rewrite Hm'.
Qed.

Lemma updateHeads_follows t :
  exists m' hs lst, (updateHeads t).1 = set_heads hs lst (set_attached m' t) /\ follows (att t) m'.
Proof.
  unfold updateHeads. unfold mbind at 1, st_bind at 1, reads at 1.
  set (order := iterOrder _ _). clearbody order.
  match goal with |- context [(?p ≫= _) t] => set (fill := p) end.
  assert (exists m', (fill t).1 = set_attached m' t /\ follows (att t) m') as (m' & Hm' & Hf).
  { assert (follows (att t) (att t)) as Hrefl by (intros x c' Hx; by exists c').
    subst fill. destruct order as [|first rest]; [exists (att t); by destruct t|].
    unfold mbind, st_bind, attachedChange, calls.
    destruct (att t !! first) as [c|]; simpl; [|exists (att t); by destruct t].
    by apply fillOrder_follows. }
  clearbody fill. exists m'.
  unfold mbind at 1, st_bind at 1. destruct (fill t) as [t1 [[]|e]]; simpl in Hm'; subst t1.
  2: { exists (t_headIds t), (t_lastIteratedHeadId t). by destruct t. }
  unfold mbind at 1, st_bind at 1, reads at 1. unfold mbind, st_bind, lifts.
  destruct (opt_or _ _) as [lst|e]; [by eexists _, _|].
  exists (t_headIds t), (t_lastIteratedHeadId t). by destruct t.
Qed.

(** ** Calls *)

Lemma extends_follows D added m m1 m2 : extends D added m m1 -> follows m1 m2 -> extends D added m m2.
Proof.
  intros [Ha Hi] Hf. split.
  - intros x c' Hx. destruct (Hf _ _ Hx) as (c1 & Hc1 & Hs).
    destruct (Ha _ _ Hc1) as [[? ?]|(c & Hc & Hs')]; [left; split; [done|by eapply source_stays]|].
    right. exists c. split; [done|]. by etrans.
  - intros Hok x c' Hx. destruct (Hf _ _ Hx) as (c1 & Hc1 & -> & _). by apply Hi.
Qed.

(** The changes attached by a loop of [add]. *)
Lemma addAll_extends cs t t' :
  t_unAttached t = ∅ -> st_each addUnknown cs (set_addedBuf [] t) = (t', Ok tt) ->
  extends cs (t_addedBuf t') (att t) (att t').
Proof.
  intros Hun Hr. apply (frames_run (keeps cs)) in Hr.
  - apply Hr. intros u e. simpl. by rewrite Hun.
  - apply frames_each; [apply keeps_preorder|]. intros. by apply addUnknown_keeps.
Qed.

Lemma updateHeads_extends D added t t1 t2 u :
  extends D added (att t) (att t1) -> updateHeads t1 = (t2, Ok u) ->
  extends D added (att t) (att t2) /\ t_addedBuf t2 = t_addedBuf t1.
Proof.
  intros He Hup. destruct (updateHeads_follows t1) as (m' & hs & lst & Hm' & Hf). rewrite Hup in Hm'. simpl in Hm'.
  subst t2. split; [by eapply extends_follows|done].
Qed.

(** Attaching does not touch the heads. *)
Definition headsSame (t t' : Tree) : Prop := t_headIds t' = t_headIds t.
#[global] Instance headsSame_preorder : PreOrder headsSame.
Proof. split; [done|]. unfold headsSame. congruence. Qed.

Lemma attach_heads fuel c newEl : frames headsSame (attach fuel c newEl).
Proof.
  revert c newEl. induction fuel as [|fuel IH]; intros c newEl; simpl;
    unfold place, linkPrevious, canAttachOrRemove, attachedChange; frame; auto; done.
Qed.

Lemma addUnknown_heads c : frames headsSame (addUnknown c).
Proof.
  unfold addUnknown, add, canAttachOrRemove. frame; auto using attach_heads; done.
Qed.

Lemma Add_extends cs t t' mode added :
  t_unAttached t = ∅ -> Add cs t = (t', Ok (mode, added)) ->
  extends cs added (att t) (att t') /\ t_unAttached t' = ∅ /\
  (mode = Nothing -> added = [] /\ t_headIds t' = t_headIds t).
Proof.
  intros Hun Hrun. unfold Add in Hrun. go_step Hrun. apply assigns_Ok in Hrun0 as ->.
  go_step Hrun. apply reads_Ok in Hrun0 as [-> ->]. go_step Hrun. apply reads_Ok in Hrun0 as [-> ->].
  go_step Hrun. rename Hrun0 into Hadd. match type of Hadd with _ = (_, Ok ?u) => destruct u end.
  pose proof Hadd as Hheads. apply addAll_extends in Hadd; [|done].
  go_step Hrun. apply reads_Ok in Hrun0 as [-> ->]. case_decide as Hnil.
  { go_step Hrun. apply assigns_Ok in Hrun0 as ->. apply ret_Ok in Hrun as [-> [= -> ->]]. rewrite Hnil in Hadd.
    split_and!; [done|done|]. intros _. split; [done|]. apply (frames_run headsSame) in Hheads; [done|].
    apply frames_each; [exact _|]. intros. apply addUnknown_heads. }
  go_step Hrun. rename Hrun0 into Hup. destruct (updateHeads_extends _ _ _ _ _ _ Hadd Hup) as [He _].
  go_step Hrun. apply assigns_Ok in Hrun0 as ->. case_match.
  - by apply ret_Ok in Hrun as [-> [= -> ->]].
  - go_step Hrun. apply calls_Ok in Hrun0 as [-> _]. go_step Hrun. apply reads_Ok in Hrun0 as [-> ->].
    apply ret_Ok in Hrun as [-> [= -> ->]]. split_and!; [done..|]. by case_match.
Qed.

Lemma AddFast_extends cs t t' added :
  cs <> [] -> t_unAttached t = ∅ -> AddFast cs t = (t', Ok added) ->
  extends cs added (att t) (att t') /\ t_unAttached t' = ∅.
Proof.
  unfold AddFast. destruct cs as [|c cs]; [done|]. intros _ Hun Hrun. go_step Hrun. apply assigns_Ok in Hrun0 as ->.
  go_step Hrun. rename Hrun0 into Hadd. match type of Hadd with _ = (_, Ok ?u) => destruct u end.
  apply addAll_extends in Hadd; [|done].
  go_step Hrun. rename Hrun0 into Hup. destruct (updateHeads_extends _ _ _ _ _ _ Hadd Hup) as [He Hb].
  go_step Hrun. apply assigns_Ok in Hrun0 as ->. apply reads_Ok in Hrun as [-> ->]. simpl. by rewrite Hb.
Qed.
End heads.
