(* ===== verification/TreeHeads.v ===== *)
(** The end of every change of the tree: [updateHeads] gives order ids to the changes
    that have none, between those of their neighbours in the iteration, and recomputes
    the heads.  It cannot fail when the order ids so far increase. *)

From Stdlib Require Import ZArith Lia String Permutation.
From stdpp Require Import base option list gmap strings sorting relations.
From S2P Require Import Prelude Crypto TreeModels Tree TreeOrder TreeAdd TreeStable.

Abbreviation slt := (strict String.le).

(** What the tree relies on of the order-id generator: ids are not empty, the next id is
    greater, and between two ids there is always another. *)
Class LexIdLaws `{LexId} := {
  lexid : string -> Prop;
  lexid_nonempty s : lexid s -> s <> "";
  lexid_first : lexid (lexId_Next "");
  lexid_next s : lexid s -> lexid (lexId_Next s) /\ slt s (lexId_Next s);
  lexid_between p b : lexid p -> lexid b -> slt p b ->
    exists o, lexId_NextBefore p b = Ok o /\ lexid o /\ slt p o /\ slt o b;
}.

Definition orderOf (m : changes) (x : string) : string :=
  match m !! x with Some c => ch_OrderId c | None => "" end.

(** The same changes up to the order ids of [l]. *)
Record reordered (l : list string) (m m' : changes) : Prop := mkReordered {
  ro_same x : x ∉ l -> m' !! x = m !! x;
  ro_order x c : m !! x = Some c -> exists o, m' !! x = Some (with_OrderId o c);
  ro_back x : is_Some (m' !! x) -> is_Some (m !! x);
}.

Lemma reordered_refl l m : reordered l m m.
Proof. split; [done| |done]. intros x c Hx. exists (ch_OrderId c). rewrite Hx. by destruct c. Qed.

Lemma reordered_trans l1 l2 m1 m2 m3 :
  reordered l1 m1 m2 -> reordered l2 m2 m3 -> reordered (l1 ++ l2) m1 m3.
Proof.
  intros [S1 O1 B1] [S2 O2 B2]. split.
  - intros x [H1 H2]%not_elem_of_app. rewrite S2, S1 by done. done.
  - intros x c Hx. destruct (O1 _ _ Hx) as [o Ho]. destruct (O2 _ _ Ho) as [o' Ho'].
    exists o'. rewrite Ho'. by destruct c.
  - eauto.
Qed.

Lemma reordered_put x c o m : m !! x = Some c -> reordered [x] m (<[x := with_OrderId o c]> m).
Proof.
  intros Hx. split.
  - intros y Hy. rewrite lookup_insert_ne by set_solver. done.
  - intros y d Hy. destruct (decide (x = y)) as [->|Hne].
    + exists o. rewrite lookup_insert_eq. congruence.
    + exists (ch_OrderId d). rewrite lookup_insert_ne, Hy by done. by destruct d.
  - intros y. rewrite lookup_insert_is_Some. intros [<-|[_ ?]]; [eauto|done].
Qed.

Lemma reordered_orderOf l m m' x : reordered l m m' -> x ∉ l -> orderOf m' x = orderOf m x.
Proof. intros Hr Hx. unfold orderOf. by rewrite (ro_same _ _ _ Hr). Qed.

Lemma reordered_nextOf l m m' x : reordered l m m' -> nextOf m' x = nextOf m x.
Proof.
  intros [S O B]. unfold nextOf. destruct (m !! x) as [c|] eqn:Hx.
  - destruct (O _ _ Hx) as [o ->]. by destruct c.
  - destruct (m' !! x) eqn:Hx'; [|done]. destruct (B x); [eauto|congruence].
Qed.

Lemma put_order l m m' x c o :
  reordered l (<[x := with_OrderId o c]> m) m' -> x ∉ l -> orderOf m' x = o.
Proof.
  intros Hr Hx. rewrite (reordered_orderOf _ _ _ _ Hr Hx). unfold orderOf.
  by rewrite lookup_insert_eq.
Qed.

Lemma filter_every {A} (P : A -> Prop) `{!forall x, Decision (P x)} (l : list A) :
  Forall P l -> filter P l = l.
Proof. induction 1 as [|x l Hx _ IH]; [done|]. by rewrite filter_cons_True, IH. Qed.

Section fill.
Context `{LexIdLaws}.

(** Order ids that increase from [prev] on. *)
Fixpoint chain (prev : string) (l : list string) : Prop :=
  match l with
  | [] => True
  | o :: l => slt prev o /\ lexid o /\ chain o l
  end.

Abbreviation orders m l := (orderOf m <$> l).
(** The order ids there are. *)
Abbreviation given m l := (filter (fun o => o <> "") (orders m l)).

Abbreviation attachedAll t l := (Forall (fun x => is_Some (att t !! x)) l).

Lemma reordered_orders l m m' (l' : list string) :
  reordered l m m' -> (forall x, x ∈ l' -> x ∉ l) -> orders m' l' = orders m l'.
Proof.
  intros Hr Hd. apply list_fmap_ext. intros i x Hx. eapply reordered_orderOf; [done|].
  apply Hd. by eapply list_elem_of_lookup_2.
Qed.

Lemma attachedAll_reordered l t m' (l' : list string) :
  reordered l (att t) m' -> attachedAll t l' -> Forall (fun x => is_Some (m' !! x)) l'.
Proof.
  intros Hr Ha. eapply Forall_impl; [exact Ha|]. intros x [c Hx]. simpl.
  destruct (ro_order _ _ _ Hr _ _ Hx) as [o ->]. eauto.
Qed.

Lemma fillBefore_spec prev before pending t :
  lexid prev -> lexid before -> slt prev before -> NoDup pending -> attachedAll t pending ->
  exists m', fillBefore prev before pending t = (set_attached m' t, Ok tt) /\
    reordered pending (att t) m' /\
    forall rest, chain before rest -> chain prev (orders m' pending ++ before :: rest).
Proof.
  intros Hp Hb. revert prev t Hp. induction pending as [|x pending IH]; intros prev t Hp Hlt Hnd Ha.
  - exists (att t). split_and!; [by destruct t|apply reordered_refl|]. intros rest Hr. simpl. done.
  - inversion_clear Hnd as [|? ? Hx Hnd']. inversion_clear Ha as [|? ? [c Hc] Ha'].
    destruct (lexid_between _ _ Hp Hb Hlt) as (o & Ho & Hlo & Hpo & Hob). simpl.
    erewrite st_bind_run by by apply attachedChange_Some.
    erewrite st_bind_run by by rewrite Ho. erewrite st_bind_run by done.
    pose proof (reordered_put x c o _ Hc) as Hput.
    destruct (IH o (put_attached x (with_OrderId o c) t)) as (m' & Hrun & Hre & Hch); [done..| |].
    { simpl. by eapply attachedAll_reordered. }
    exists m'. split; [done|]. split; [by apply (reordered_trans [x] pending _ _ _ Hput Hre)|].
    intros rest Hrest. simpl. rewrite (put_order _ _ _ _ _ _ Hre Hx).
    split_and!; [done..|by apply Hch].
Qed.

Lemma fillAfter_spec prev pending t :
  lexid prev -> NoDup pending -> attachedAll t pending ->
  exists m', fillAfter prev pending t = (set_attached m' t, Ok tt) /\
    reordered pending (att t) m' /\ chain prev (orders m' pending).
Proof.
  revert prev t. induction pending as [|x pending IH]; intros prev t Hp Hnd Ha.
  - exists (att t). split_and!; [by destruct t|apply reordered_refl|done].
  - inversion_clear Hnd as [|? ? Hx Hnd']. inversion_clear Ha as [|? ? [c Hc] Ha'].
    destruct (lexid_next _ Hp) as [Hlo Hpo]. simpl.
    erewrite st_bind_run by by apply attachedChange_Some. erewrite st_bind_run by done.
    pose proof (reordered_put x c (lexId_Next prev) _ Hc) as Hput.
    destruct (IH (lexId_Next prev) (put_attached x (with_OrderId (lexId_Next prev) c) t))
      as (m' & Hrun & Hre & Hch); [done..| |].
    { simpl. by eapply attachedAll_reordered. }
    exists m'. split; [done|]. split; [by apply (reordered_trans [x] pending _ _ _ Hput Hre)|].
    simpl. by rewrite (put_order _ _ _ _ _ _ Hre Hx).
Qed.

Lemma fillOrder_spec prev pending order t :
  lexid prev -> NoDup (pending ++ order) -> attachedAll t (pending ++ order) ->
  Forall (fun x => orderOf (att t) x = "") pending ->
  chain prev (given (att t) order) ->
  exists m', fillOrder prev pending order t = (set_attached m' t, Ok tt) /\
    reordered (filter (fun x => orderOf (att t) x = "") (pending ++ order)) (att t) m' /\
    chain prev (orders m' (pending ++ order)).
Proof.
  revert prev pending t. induction order as [|x order IH]; intros prev pending t Hp Hnd Ha Hpe Hch.
  - rewrite app_nil_r in *. destruct (fillAfter_spec prev pending t Hp Hnd Ha) as (m' & Hrun & Hre & Hc).
    exists m'. split_and!; [done| |done].
    by rewrite filter_every.
  - simpl. assert (is_Some (att t !! x)) as [c Hc].
    { rewrite Forall_forall in Ha. apply Ha. set_solver. }
    erewrite st_bind_run by by apply attachedChange_Some.
    assert (orderOf (att t) x = ch_OrderId c) as Ho by (unfold orderOf; by rewrite Hc).
    simpl in Hch. case_decide as Hempty.
    + rewrite filter_cons_False in Hch by (rewrite Ho; tauto).
      destruct (IH prev (pending ++ [x]) t) as (m' & Hrun & Hre & Hch'); [done| | | |done|].
      1, 2: by rewrite <- app_assoc.
      { apply Forall_app. split; [done|]. constructor; [congruence|done]. }
      exists m'. rewrite <- app_assoc in Hre, Hch'. done.
    + rewrite filter_cons_True in Hch by (rewrite Ho; done). rewrite Ho in Hch.
      destruct Hch as (Hlt & Hlo & Hch). apply NoDup_app in Hnd as (Hnd & Hdis & Hnd').
      inversion_clear Hnd' as [|? ? Hx Hnd2]. apply Forall_app in Ha as [Ha Ha'].
      inversion_clear Ha' as [|? ? _ Ha2].
      destruct (fillBefore_spec prev (ch_OrderId c) pending t) as (m1 & Hrun1 & Hre1 & Hch1); [done..|].
      erewrite st_bind_run by exact Hrun1.
      assert (forall y, y ∈ order -> y ∉ pending) as Hd by (intros y Hy Hy'; apply (Hdis y); set_solver).
      destruct (IH (ch_OrderId c) [] (set_attached m1 t)) as (m' & Hrun & Hre & Hch'); [done|done| |done| |].
      { simpl. by eapply attachedAll_reordered. }
      { simpl. by rewrite (reordered_orders _ _ _ _ Hre1 Hd). }
      exists m'. split_and!; [done| |]; simpl in Hre, Hch'.
      * rewrite filter_app, filter_cons_False by (rewrite Ho; done).
        rewrite filter_every by done.
        eapply reordered_trans; [exact Hre1|]. erewrite filter_ext_in; [exact Hre|].
        intros y Hy. simpl. by rewrite (reordered_orderOf _ _ _ _ Hre1 (Hd y Hy)).
      * assert (forall y, y ∈ pending ++ [x] -> y ∉ filter (fun y => orderOf m1 y = "") order) as Hnot.
        { intros y Hy [_ Hy']%list_elem_of_filter. apply elem_of_app in Hy as [Hy| ->%list_elem_of_singleton].
          - by apply (Hd y).
          - done. }
        rewrite fmap_app. simpl. rewrite (reordered_orders _ _ _ pending Hre) by set_solver.
        rewrite (reordered_orderOf _ _ _ x Hre), (reordered_orderOf _ _ _ x Hre1), Ho by set_solver.
        by apply Hch1.
Qed.

(** ** The heads *)

Lemma reordered_linked l r m m' : reordered l m m' -> linked r m -> linked r m'.
Proof.
  intros Hr Hl. assert (forall x c, m' !! x = Some c -> exists d, m !! x = Some d /\
    ch_Id c = ch_Id d /\ ch_PreviousIds c = ch_PreviousIds d) as Hlook.
  { intros x c Hx. destruct (ro_back _ _ _ Hr x) as [d Hd]; [eauto|]. exists d. split; [done|].
    destruct (ro_order _ _ _ Hr _ _ Hd) as [o Ho]. rewrite Hx in Ho. injection Ho as ->. by destruct d. }
  assert (forall x, is_Some (m !! x) -> is_Some (m' !! x)) as Hdom.
  { intros x [c Hc]. destruct (ro_order _ _ _ Hr _ _ Hc) as [o ->]. eauto. }
  split.
  - apply Hdom, (lk_root _ _ Hl).
  - intros x c Hx. destruct (Hlook _ _ Hx) as (d & Hd & -> & _). by apply (lk_ids _ _ Hl).
  - intros x c p Hx Hne Hp. destruct (Hlook _ _ Hx) as (d & Hd & _ & Heq). rewrite Heq in Hp.
    apply Hdom. by eapply (lk_prev _ _ Hl).
  - intros x y. rewrite (reordered_nextOf _ _ _ _ Hr), (lk_next _ _ Hl). unfold links.
    destruct (m' !! y) as [c|] eqn:Hy.
    + destruct (Hlook _ _ Hy) as (d & -> & _ & ->). done.
    + destruct (m !! y) eqn:Hy'; [|done]. destruct (Hdom y); [eauto|congruence].
  - intros x. rewrite (reordered_nextOf _ _ _ _ Hr). apply (lk_sorted _ _ Hl).
  - destruct (lk_rank _ _ Hl) as [rank Hrank]. exists rank. intros x c p Hx Hne Hp.
    destruct (Hlook _ _ Hx) as (d & Hd & _ & Heq). rewrite Heq in Hp. by eapply Hrank.
Qed.

Lemma reordered_same l m m' : reordered l m m' -> same_changes m m'.
Proof.
  intros Hr. split.
  - intros x. split; [|apply (ro_back _ _ _ Hr)]. intros [c Hc].
    destruct (ro_order _ _ _ Hr _ _ Hc) as [o ->]. eauto.
  - intros x c c' Hc Hc'. destruct (ro_order _ _ _ Hr _ _ Hc) as [o Ho].
    rewrite Hc' in Ho. injection Ho as ->. by destruct c.
Qed.

(** The last change of the iteration has no successor. *)
Lemma last_is_head r m lst :
  linked r m -> (forall x c, m !! x = Some c -> x <> r -> ch_PreviousIds c <> []) ->
  last (iterOrder m (Some r)) = Some lst -> isHead m lst.
Proof.
  intros Hl Hconn Hlast. destruct (order_spec r m Hl Hconn) as (Hnd & _ & Hsl).
  apply last_Some in Hlast as [l Hlast]. rewrite Hlast in Hnd, Hsl. clear Hlast.
  unfold isHead. destruct (nextOf m lst) as [|y ys] eqn:Hy; [done|]. exfalso.
  assert (forall l', successors_later m (l' ++ [lst]) -> y ∈ []) as Hno.
  { induction l' as [|z l' IH]; intros [H1 H2]; [apply H2; rewrite Hy; by left|by apply IH]. }
  by apply Hno in Hsl as ?%not_elem_of_nil.
Qed.

Lemma last_filter (P : string -> Prop) `{!forall x, Decision (P x)} (l : list string) x :
  last l = Some x -> P x -> last (filter P l) = Some x.
Proof.
  intros [l' ->]%last_Some HP. rewrite filter_app, filter_cons_True, filter_nil by done.
  apply last_snoc.
Qed.

Lemma updateHeads_spec r t :
  t_root t = Some r -> linked r (att t) ->
  (forall x c, att t !! x = Some c -> x <> r -> ch_PreviousIds c <> []) ->
  let order := iterOrder (att t) (Some r) in
  lexid (orderOf (att t) r) -> chain (orderOf (att t) r) (given (att t) (tail order)) ->
  exists m' lst,
    updateHeads t = (set_heads (sortStrings (filter (isHead (att t)) order)) lst (set_attached m' t), Ok tt) /\
    reordered (filter (fun x => orderOf (att t) x = "") (tail order)) (att t) m' /\
    chain (orderOf m' r) (orders m' (tail order)) /\ last order = Some lst.
Proof.
  intros Hroot Hl Hconn order Hr Hch. destruct (order_spec r _ Hl Hconn) as (Hnd & Hin & Hsl).
  destruct (order_root r _ Hl Hconn) as [rest Horder]. fold order in Hnd, Hin, Hsl, Horder.
  destruct (lk_root _ _ Hl) as [rc Hrc].
  assert (orderOf (att t) r = ch_OrderId rc) as Ho by (unfold orderOf; by rewrite Hrc).
  rewrite Horder in Hnd, Hin. simpl in *. inversion_clear Hnd as [|? ? Hr0 Hnd'].
  assert (exists lst, last order = Some lst) as [lst Hlast].
  { rewrite Horder. by apply last_is_Some. }
  rewrite Horder in Hch |- *. simpl in *.
  destruct (fillOrder_spec (ch_OrderId rc) [] rest t) as (m' & Hrun & Hre & Hch'); simpl; try done.
  { congruence. }
  { apply Forall_forall. intros x Hx. apply Hin. by right. }
  { congruence. }
  assert (forall x, isHead m' x <-> isHead (att t) x) as Hheads.
  { intros x. unfold isHead. by rewrite (reordered_nextOf _ _ _ _ Hre). }
  exists m', lst. split; [|split; [done|split; [|by rewrite <- Horder]]].
  - unfold updateHeads. erewrite st_bind_run by done. rewrite Hroot.
    change (iterOrder (att t) (Some r)) with order. rewrite Horder.
    erewrite st_bind_run by (erewrite st_bind_run by (by apply attachedChange_Some); exact Hrun).
    erewrite st_bind_run by done. simpl.
    rewrite (filter_ext_in _ (isHead (att t))) by (intros; apply Hheads).
    rewrite <- Horder. erewrite st_bind_run; [done|]. unfold lifts. f_equal.
    rewrite (last_filter _ _ lst); [done..|]. by eapply last_is_head.
  - rewrite (reordered_orderOf _ _ _ r Hre); [by rewrite Ho|]. rewrite list_elem_of_filter. tauto.
Qed.

(** ** The invariant of a tree *)

Record tree_ok (r : string) (t : Tree) : Prop := mkTreeOk {
  tk_root : t_root t = Some r;
  tk_linked : linked r (att t);
  (** every change but the root names a predecessor *)
  tk_conn x c : att t !! x = Some c -> x <> r -> ch_PreviousIds c <> [];
  tk_idle : unatt t = ∅;
  (** the order ids increase along the iteration *)
  tk_first : lexid (orderOf (att t) r);
  tk_orders : chain (orderOf (att t) r) (orders (att t) (tail (iterOrder (att t) (Some r))));
  (** the heads are the changes without successors; the last one of the iteration is kept *)
  tk_heads : t_headIds t = sortStrings (filter (isHead (att t)) (iterOrder (att t) (Some r)));
  tk_last : last (iterOrder (att t) (Some r)) = Some (t_lastIteratedHeadId t);
}.
End fill.
