(* ===== verification/TreeCalls.v ===== *)
(** [Tree.Add] on a tree in order: the call ends, and leaves the tree in order; which
    changes it attaches, and what its mode promises. *)

From Stdlib Require Import ZArith Lia String Permutation.
From stdpp Require Import base option list gmap strings sorting relations.
From S2P Require Import Prelude Crypto TreeModels Tree TreeOrder TreeAdd TreeStable TreeHeads.

(** Changes as they are delivered: not linked, without an order id, naming a
    predecessor; an id stands for one change. *)
Record deliverable (cs : list Change) : Prop := mkDeliverable {
  dl_next c : c ∈ cs -> ch_Next c = [];
  dl_order c : c ∈ cs -> ch_OrderId c = "";
  dl_prev c : c ∈ cs -> ch_PreviousIds c <> [];
  dl_unique c d : c ∈ cs -> d ∈ cs -> ch_Id c = ch_Id d -> c = d;
}.

Section calls.
Context `{LexIdLaws}.
Implicit Types (t : Tree) (r x : string) (cs : list Change).

Abbreviation orders m l := (orderOf m <$> l).
Abbreviation order t r := (iterOrder (att t) (Some r)).

Lemma chain_valid p l : chain p l -> Forall lexid l.
Proof. revert p. induction l as [|o l IH]; intros p; [constructor|]. intros (_ & ? & ?). eauto. Qed.

(** The ids with an order id are the old ones. *)
Lemma given_old (old : string -> Prop) `{!forall x, Decision (old x)} (f g : string -> string)
    (l : list string) :
  (forall x, x ∈ l -> old x -> f x = g x /\ f x <> "") -> (forall x, x ∈ l -> ~ old x -> f x = "") ->
  filter (fun o => o <> "") (f <$> l) = g <$> filter old l.
Proof.
  induction l as [|x l IH]; intros Ho Hn; [done|]. csimpl. rewrite !filter_cons.
  rewrite IH by set_solver. destruct (decide (old x)) as [Hx|Hx].
  - destruct (Ho x) as [E Hne]; [by left|done|]. rewrite decide_True by done. csimpl. by rewrite E.
  - rewrite (Hn x) by (done || by left). by rewrite decide_False by tauto.
Qed.

Section grown.
(** A tree in order, and the tree once changes were attached. *)
Variables (r : string) (cs : list Change) (t t1 : Tree).
Hypothesis Hok : tree_ok r t.
Hypothesis Hcs : deliverable cs.
Hypothesis Hlinked : linked r (att t1).
Hypothesis Hgrows : grows cs t t1.

Abbreviation old := (fun x => is_Some (att t !! x)).

Lemma grown_more : more_changes (att t) (att t1).
Proof.
  intros x c Hx. destruct (gr_old _ _ _ Hgrows _ _ Hx) as (c' & Hc' & Hcore). exists c'.
  split; [done|]. destruct c, c'. injection Hcore as -> -> -> -> -> -> ->. done.
Qed.

Lemma grown_order : filter old (order t1 r) = order t r.
Proof. apply more_changes_order; [apply Hok|done|apply grown_more]. Qed.

Lemma grown_conn x c : att t1 !! x = Some c -> x <> r -> ch_PreviousIds c <> [].
Proof.
  intros Hx Hne Hnil. destruct (att t !! x) as [c0|] eqn:Hx0.
  - destruct (grown_more _ _ Hx0) as (c' & Hc' & Hp). simplify_eq. rewrite Hnil in Hp.
    apply Permutation_nil_r in Hp. by apply (tk_conn _ _ Hok _ _ Hx0).
  - destruct (gr_new _ _ _ Hgrows _ _ Hx Hx0) as (d & Hd & _ & Hp & _). rewrite Hnil in Hp.
    apply Permutation_nil_l in Hp. by apply (dl_prev _ Hcs _ Hd).
Qed.

Lemma grown_orderOf x : old x -> orderOf (att t1) x = orderOf (att t) x.
Proof.
  intros [c Hx]. unfold orderOf. rewrite Hx.
  destruct (gr_old _ _ _ Hgrows _ _ Hx) as (c' & -> & Hcore).
  destruct c, c'. by injection Hcore as -> -> -> -> -> -> ->.
Qed.

Lemma grown_unordered x : ~ old x -> orderOf (att t1) x = "".
Proof.
  intros Hx. apply eq_None_not_Some in Hx. unfold orderOf.
  destruct (att t1 !! x) as [c|] eqn:Hc; [|done].
  destruct (gr_new _ _ _ Hgrows _ _ Hc Hx) as (d & Hd & _ & _ & _ & -> & _). by apply (dl_order _ Hcs).
Qed.

Lemma old_ordered x : x ∈ order t r -> orderOf (att t) x <> "".
Proof.
  destruct (order_root r _ (tk_linked _ _ Hok) (tk_conn _ _ Hok)) as [rest Ho].
  pose proof (tk_orders _ _ Hok) as Hch. rewrite Ho in *. simpl in Hch.
  intros [->|Hx]%elem_of_cons; apply lexid_nonempty; [apply Hok|].
  apply chain_valid in Hch. rewrite Forall_forall in Hch. apply Hch.
  by apply list_elem_of_fmap_2.
Qed.

(** The order ids there are still increase. *)
Lemma grown_chain :
  lexid (orderOf (att t1) r) /\
  chain (orderOf (att t1) r) (filter (fun o => o <> "") (orders (att t1) (tail (order t1 r)))).
Proof.
  pose proof grown_order as Hord. pose proof (lk_root _ _ (tk_linked _ _ Hok)) as Hr.
  destruct (order_root r _ Hlinked grown_conn) as [rest1 Ho1].
  rewrite Ho1, filter_cons_True in Hord by done.
  rewrite grown_orderOf by done. split; [apply Hok|]. rewrite Ho1. simpl.
  rewrite (given_old old _ (orderOf (att t))).
  - pose proof (tk_orders _ _ Hok) as Hch. rewrite <- Hord in Hch. done.
  - intros x Hx Hold. rewrite grown_orderOf by done. split; [done|]. apply old_ordered.
    rewrite <- Hord. right. by apply list_elem_of_filter.
  - intros x _. apply grown_unordered.
Qed.
End grown.

Abbreviation start t := (set_addedBuf [] t).

Lemma start_ok r t : tree_ok r t -> tree_ok r (start t).
Proof. intros []. by split. Qed.

Lemma start_attaching r cs t : tree_ok r t -> attaching cs r (start t) [] (start t).
Proof.
  intros Hok. split; [apply Hok| |done]. split; simpl; rewrite (tk_idle _ _ Hok); done.
Qed.

(** [updateHeads] after changes were attached, with its results. *)
Record updated r (t1 : Tree) (m' : changes) (lst : string) : Prop := mkUpdated {
  up_reordered : reordered (filter (fun x => orderOf (att t1) x = "") (tail (order t1 r))) (att t1) m';
  up_chain : chain (orderOf m' r) (orders m' (tail (order t1 r)));
  up_last : last (order t1 r) = Some lst;
}.

Definition finished r (t1 : Tree) (m' : changes) (lst : string) : Tree :=
  set_unAttached ∅ (set_heads (sortStrings (filter (isHead (att t1)) (order t1 r))) lst
    (set_attached m' t1)).

Lemma allVisited_spec t visited seen cs c :
  allVisited t visited seen cs = true -> c ∈ cs -> is_Some (att t !! ch_Id c) -> ch_Id c ∈ visited.
Proof.
  revert seen. induction cs as [|d cs IH]; intros seen; [by intros _ ?%not_elem_of_nil|]. simpl.
  intros Hv [->|Hc]%elem_of_cons Hs; case_decide; try done; rewrite ?andb_true_iff in Hv.
  - destruct Hv as [[[Hv _] _] _]. by apply bool_decide_eq_true in Hv.
  - destruct Hv as [_ Hv]. by eapply IH.
  - by eapply IH.
Qed.

(** One call of [Add]: the changes are attached, then the heads updated. *)
Lemma Add_spec r cs t :
  tree_ok r t -> deliverable cs ->
  exists t1, attaching cs r (start t) [] t1 /\ (forall d, d ∈ cs -> delivered cs r (start t) d t1) /\
    ((t_addedBuf t1 = [] /\ Add cs t = (set_unAttached ∅ t1, Ok (Nothing, []))) \/
     (exists m' lst mode, updated r t1 m' lst /\
        Add cs t = (finished r t1 m' lst, Ok (mode, t_addedBuf t1)) /\ mode <> Nothing /\
        (mode = Append -> forall c, c ∈ cs -> is_Some (m' !! ch_Id c) ->
           ch_Id c ∈ dfsNext m' [t_lastIteratedHeadId t]))).
Proof.
  intros Hok Hcs. pose proof (start_ok _ _ Hok) as Hok'.
  destruct (addAll_spec cs r (start t)) as (t1 & Hrun & Hat & Hdel);
    [apply Hok'|by apply start_attaching|by apply Forall_forall, (dl_next _ Hcs)|apply Hcs|].
  exists t1. split_and!; [done..|]. pose proof Hat as [Hl _ Hg].
  assert (t_root t1 = Some r) as Hr1 by (destruct (gr_frame _ _ _ Hg) as [-> _]; apply Hok).
  unfold Add. erewrite st_bind_run by done. erewrite st_bind_run by done.
  erewrite st_bind_run by done. erewrite st_bind_run by exact Hrun. erewrite st_bind_run by done.
  case_decide as Hadded; [by left|]. right.
  destruct (grown_chain _ _ _ _ Hok' Hcs Hl Hg) as [Hlex Hch].
  destruct (updateHeads_spec r t1 Hr1 Hl (grown_conn _ _ _ _ Hok' Hcs Hg) Hlex Hch)
    as (m' & lst & Hup & Hre & Hch' & Hlast).
  erewrite st_bind_run by exact Hup. erewrite st_bind_run by done.
  rewrite bool_decide_false.
  2: { destruct (lk_root _ _ (tk_linked _ _ Hok)) as [rc Hrc]. simpl.
       by eapply map_size_ne_0_lookup_2. }
  assert (exists c, m' !! t_lastIteratedHeadId t = Some c) as [c Hc].
  { assert (t_lastIteratedHeadId t ∈ order t r) as Hin by (eapply last_Some_elem_of, Hok).
    destruct (order_spec r _ (tk_linked _ _ Hok) (tk_conn _ _ Hok)) as (_ & Hdom & _).
    apply Hdom in Hin. apply (grows_is_Some _ _ _ _ Hg) in Hin as [c Hc].
    destruct (ro_order _ _ _ Hre _ _ Hc) as [o ->]. eauto. }
  erewrite st_bind_run by by apply attachedChange_Some. erewrite st_bind_run by done.
  exists m', lst. eexists. split; [by split|]. split; [done|]. split; [by case_match|].
  case_match eqn:Hv; [|done]. intros _ d Hd Hs. by eapply allVisited_spec.
Qed.

(** ** The tree after a call *)

Lemma same_order_heads r m m' :
  linked r m -> linked r m' -> same_changes m m' ->
  filter (isHead m) (iterOrder m (Some r)) = filter (isHead m') (iterOrder m' (Some r)).
Proof.
  intros Hl Hl' Hs. rewrite (same_changes_order r m m') by done. apply filter_ext_in.
  intros x _. unfold isHead. by rewrite (same_changes_next r m m' x).
Qed.

(** Nothing was attached. *)
Lemma nothing_ok r cs t t1 :
  tree_ok r t -> linked r (att t1) -> grows cs (start t) t1 -> t_addedBuf t1 = [] ->
  tree_ok r (set_unAttached ∅ t1) /\ same_changes (att t) (att t1).
Proof.
  intros Hok Hl Hg Hadd. destruct (gr_added _ _ _ Hg) as (l & Hl0 & _ & Hdom & _).
  rewrite Hadd in Hl0. simpl in Hl0. subst l.
  assert (same_changes (att t) (att t1)) as Hs.
  { split.
    - intros x. rewrite (Hdom x), elem_of_nil. tauto.
    - intros x c c' Hc Hc'. destruct (gr_old _ _ _ Hg _ _ Hc) as (c1 & Hc1 & Hcore).
      rewrite Hc' in Hc1. injection Hc1 as <-. destruct c, c'. by injection Hcore as -> -> -> -> -> -> ->. }
  assert (forall x, orderOf (att t1) x = orderOf (att t) x) as Ho.
  { intros x. destruct (att t !! x) as [c|] eqn:Hx.
    - apply (grown_orderOf cs (start t)); [done|]. simpl. by rewrite Hx.
    - unfold orderOf. rewrite Hx. destruct (att t1 !! x) eqn:Hx1; [|done].
      destruct (proj2 (proj1 Hs x)); [eauto|congruence]. }
  pose proof (same_changes_order r _ _ (tk_linked _ _ Hok) Hl Hs) as Hord.
  destruct (gr_frame _ _ _ Hg) as (Hf1 & Hf2 & Hf3). split; [|done]. split; simpl.
  - rewrite Hf1. apply Hok.
  - done.
  - intros x c Hx Hne Hnil. destruct (proj2 (proj1 Hs x)) as [c0 Hc0]; [eauto|].
    pose proof (proj2 Hs _ _ _ Hc0 Hx) as Hp. rewrite Hnil in Hp. apply Permutation_nil_r in Hp.
    by apply (tk_conn _ _ Hok _ _ Hc0).
  - done.
  - rewrite Ho. apply Hok.
  - simpl in Hord. rewrite <- Hord, Ho, (list_fmap_ext _ (orderOf (att t))) by done. apply Hok.
  - rewrite Hf2. simpl. rewrite (tk_heads _ _ Hok). f_equal. apply same_order_heads; [apply Hok|done..].
  - rewrite Hf3. simpl in *. rewrite <- Hord. apply Hok.
Qed.

(** Changes were attached and the heads updated. *)
Lemma finished_ok r cs t t1 m' lst :
  tree_ok r t -> deliverable cs -> linked r (att t1) -> grows cs t t1 ->
  updated r t1 m' lst -> tree_ok r (finished r t1 m' lst).
Proof.
  intros Hok Hcs Hl Hg [Hre Hch Hlast].
  pose proof (reordered_same _ _ _ Hre) as Hs. pose proof (reordered_linked _ r _ _ Hre Hl) as Hl'.
  pose proof (same_changes_order r _ _ Hl Hl' Hs) as Hord.
  pose proof (grown_conn _ _ _ _ Hok Hcs Hg) as Hconn.
  split; simpl; simpl in Hord.
  - destruct (gr_frame _ _ _ Hg) as [-> _]. apply Hok.
  - done.
  - intros x c Hx Hne Hnil. destruct (ro_back _ _ _ Hre x) as [c0 Hc0]; [eauto|].
    pose proof (proj2 Hs _ _ _ Hc0 Hx) as Hp. rewrite Hnil in Hp. apply Permutation_nil_r in Hp.
    by apply (Hconn _ _ Hc0).
  - done.
  - destruct (order_root r _ Hl Hconn) as [rest Ho]. simpl in Ho.
    rewrite (reordered_orderOf _ _ _ r Hre).
    + by apply (grown_chain _ _ _ _ Hok Hcs Hl Hg).
    + rewrite list_elem_of_filter. simpl. rewrite Ho. simpl. intros [_ Hr].
      destruct (order_spec r _ Hl Hconn) as (Hnd & _ & _). simpl in Hnd. rewrite Ho in Hnd.
      by inversion_clear Hnd.
  - by rewrite <- Hord.
  - f_equal. by apply same_order_heads.
  - by rewrite <- Hord.
Qed.

(** A call of [Add], seen from outside: [t1] is the tree once the changes are attached. *)
Record call r cs t (t1 : Tree) (mode : Mode) (added : list string) (t' : Tree) : Prop := mkCall {
  ca_run : Add cs t = (t', Ok (mode, added));
  ca_ok : tree_ok r t';
  ca_attached : attaching cs r (start t) [] t1;
  ca_delivered d : d ∈ cs -> delivered cs r (start t) d t1;
  ca_added : added = t_addedBuf t1;
  ca_reordered : exists l, reordered l (att t1) (att t') /\ Forall (fun x => orderOf (att t1) x = "") l;
  ca_append : mode = Append -> forall c, c ∈ cs -> is_Some (att t' !! ch_Id c) ->
    ch_Id c ∈ dfsNext (att t') [t_lastIteratedHeadId t];
}.

Lemma Add_call r cs t :
  tree_ok r t -> deliverable cs -> exists t1 mode added t', call r cs t t1 mode added t'.
Proof.
  intros Hok Hcs. destruct (Add_spec r cs t Hok Hcs) as (t1 & Hat & Hdel & Hcase).
  pose proof Hat as [Hl _ Hg]. destruct Hcase as [[Hadd Hrun]|(m' & lst & mode & Hup & Hrun & _ & Hv)].
  - exists t1, Nothing, [], (set_unAttached ∅ t1). split; try done.
    + by eapply nothing_ok.
    + exists []. split; [apply reordered_refl|constructor].
  - exists t1, mode, (t_addedBuf t1), (finished r t1 m' lst). split; try done.
    + eapply (finished_ok r cs (start t)); try done. by apply start_ok.
    + eexists. split; [apply Hup|]. apply Forall_forall. by intros x [? _]%list_elem_of_filter.
Qed.

Section results.
Variables (r : string) (cs : list Change) (t t1 t' : Tree) (mode : Mode) (added : list string).
Hypothesis Hok : tree_ok r t.
Hypothesis Hcs : deliverable cs.
Hypothesis Hcall : call r cs t t1 mode added t'.

Abbreviation old := (fun x => is_Some (att t !! x)).

Lemma call_grows : grows cs (start t) t1.
Proof. apply Hcall. Qed.

Lemma call_dom x : is_Some (att t' !! x) <-> is_Some (att t1 !! x).
Proof.
  destruct (ca_reordered _ _ _ _ _ _ _ Hcall) as (l & Hre & _). symmetry.
  apply (proj1 (reordered_same _ _ _ Hre)).
Qed.

Lemma call_added :
  NoDup added /\ (forall x, is_Some (att t' !! x) <-> old x \/ x ∈ added) /\
  (forall x, x ∈ added -> att t !! x = None).
Proof.
  destruct (gr_added _ _ _ call_grows) as (l & Hl & Hnd & Hdom & Hnew). simpl in Hl.
  rewrite (ca_added _ _ _ _ _ _ _ Hcall), Hl. split_and!; [done| |done].
  intros x. rewrite call_dom. apply Hdom.
Qed.

Lemma call_more : more_changes (att t) (att t').
Proof.
  destruct (ca_reordered _ _ _ _ _ _ _ Hcall) as (l & Hre & _). intros x c Hx.
  destruct (grown_more cs (start t) t1 call_grows _ _ Hx) as (c1 & Hc1 & Hp).
  destruct (ro_order _ _ _ Hre _ _ Hc1) as [o Ho]. eexists. split; [done|]. by destruct c1.
Qed.

Lemma call_orderOf x : old x -> orderOf (att t') x = orderOf (att t) x.
Proof.
  intros Hx. destruct (ca_reordered _ _ _ _ _ _ _ Hcall) as (l & Hre & Hl).
  pose proof (grown_orderOf cs (start t) t1 call_grows x Hx) as Ho. simpl in Ho.
  rewrite (reordered_orderOf _ _ _ x Hre); [done|]. intros Hin. rewrite Forall_forall in Hl.
  apply Hl in Hin. rewrite Ho in Hin. revert Hin. apply (old_ordered r); [done|].
  by apply (order_spec r _ (tk_linked _ _ Hok) (tk_conn _ _ Hok)).
Qed.

Lemma call_order : filter old (order t' r) = order t r.
Proof. apply more_changes_order; [apply Hok|apply Hcall|apply call_more]. Qed.

(** What was attached is a delivered change. *)
Lemma call_new x : x ∈ added -> exists d c, d ∈ cs /\ att t' !! x = Some c /\ ch_Id d = x /\
  ch_PreviousIds c ≡ₚ ch_PreviousIds d /\ ch_SnapshotId c = ch_SnapshotId d.
Proof.
  intros Hx. destruct call_added as (_ & Hdom & Hnew).
  destruct (proj1 (call_dom x)) as [c1 Hc1]; [apply Hdom; by right|].
  destruct (gr_new _ _ _ call_grows _ _ Hc1 (Hnew _ Hx)) as (d & Hd & Hid & Hp & Hsn & _).
  destruct (ca_reordered _ _ _ _ _ _ _ Hcall) as (l & Hre & _).
  destruct (ro_order _ _ _ Hre _ _ Hc1) as [o Ho]. exists d, (with_OrderId o c1).
  pose proof (lk_ids _ _ (at_linked _ _ _ _ _ (ca_attached _ _ _ _ _ _ _ Hcall)) _ _ Hc1).
  destruct c1. simpl in *. split_and!; try done. congruence.
Qed.
End results.
End calls.
