(* ===== verification/TreeMerged.v ===== *)
(** A new head on top of all the heads: [AddMergedHead] of tree.go. *)

From Stdlib Require Import ZArith Lia String Permutation.
From stdpp Require Import base option list gmap strings sorting relations.
From S2P Require Import Prelude Crypto TreeModels Tree TreeOrder TreeAdd TreeStable TreeHeads TreeCalls.

#[local] Arguments iterOrder : simpl never.

(** ** A tree of one change *)

Lemma linked_root c : ch_Next c = [] -> linked (ch_Id c) {[ ch_Id c := c ]}.
Proof.
  intros Hn. assert (forall x, nextOf {[ ch_Id c := c ]} x = []) as Hnext.
  { intros x. unfold nextOf. destruct (_ !! x) as [d|] eqn:Hx; [|done].
    by apply lookup_singleton_Some in Hx as [_ <-]. }
  split.
  - by rewrite lookup_singleton_eq.
  - by intros x d [<- <-]%lookup_singleton_Some.
  - by intros x d p [<- _]%lookup_singleton_Some ?.
  - intros x y. rewrite Hnext. unfold links. destruct (_ !! y) as [d|] eqn:Hy; [|done].
    apply lookup_singleton_Some in Hy as [-> _]. by rewrite decide_True.
  - intros x. rewrite Hnext. constructor.
  - exists (fun _ => 0). by intros x d p [<- _]%lookup_singleton_Some ?.
Qed.

Lemma root_order c : ch_Next c = [] -> iterOrder {[ ch_Id c := c ]} (Some (ch_Id c)) = [ch_Id c].
Proof.
  intros Hn. pose proof (linked_root c Hn) as Hl.
  assert (forall x d, ({[ ch_Id c := c ]} : changes) !! x = Some d -> x <> ch_Id c -> ch_PreviousIds d <> [])
    as Hconn by by intros x d [<- _]%lookup_singleton_Some.
  destruct (order_root _ _ Hl Hconn) as [rest Hr]. rewrite Hr.
  destruct (order_spec _ _ Hl Hconn) as (Hnd & Hin & _). rewrite Hr in Hnd. setoid_rewrite Hr in Hin.
  destruct rest as [|y rest]; [done|]. exfalso.
  destruct (proj1 (Hin y)) as [d Hd]; [set_solver|]. apply lookup_singleton_Some in Hd as [<- _].
  inversion_clear Hnd as [|? ? Hx _]. set_solver.
Qed.

(** ** A new head *)

(** The successor of the last element of a list is the end of the longer list. *)
Lemma snoc_order (P : string -> Prop) `{!forall x, Decision (P x)} (l l' : list string) lst id m :
  NoDup l' -> filter P l' = l -> last l = Some lst -> successors_later m l' -> id ∈ nextOf m lst ->
  (forall x, x ∈ l' <-> P x \/ x = id) -> ~ P id -> l' = l ++ [id].
Proof.
  intros Hnd Hf Hlast Hsl Hid Hin HP.
  assert (id ∈ l') as (a & b & ->)%list_elem_of_split by (apply Hin; by right).
  apply NoDup_app in Hnd as (Hnda & Hdis & Hndb). apply NoDup_cons in Hndb as [Hidb Hndb].
  assert (Forall P a) as Ha.
  { apply Forall_forall. intros x Hx. destruct (proj1 (Hin x)) as [?| ->]; [set_solver|done|].
    exfalso. apply (Hdis id); [done|by left]. }
  assert (Forall P b) as Hb.
  { apply Forall_forall. intros x Hx. destruct (proj1 (Hin x)) as [?| ->]; [set_solver|done|done]. }
  rewrite filter_app, filter_cons_False, (filter_all _ a), (filter_all _ b) in Hf by done. subst l.
  destruct b as [|y b]; [by rewrite app_nil_r|]. exfalso.
  rewrite last_app in Hlast. destruct (last (y :: b)) as [z|] eqn:Hz; [|by apply last_None in Hz].
  injection Hlast as ->.
  (* [lst] comes after [id], its successor *)
  apply last_Some in Hz as [b' Hb']. rewrite Hb' in Hsl.
  assert (forall l, successors_later m (l ++ [lst]) -> id ∈ []) as Hno.
  { induction l as [|w l IH]; intros [Hw Hl]; [by apply Hl|by apply IH]. }
  apply (not_elem_of_nil id), (Hno (a ++ id :: b')). by rewrite <- app_assoc.
Qed.

Section merged.
Context `{LexIdLaws}.

Lemma chain_snoc p l o : chain p l -> slt (default p (last l)) o -> lexid o -> chain p (l ++ [o]).
Proof.
  revert p. induction l as [|x l IH]; intros p; [done|]. rewrite last_cons.
  intros (? & ? & Hc) Hlt Ho. simpl. split_and!; [done..|]. apply IH; [done| |done].
  by destruct (last l).
Qed.

Lemma heads_elem r t x : tree_ok r t -> x ∈ t_headIds t <-> is_Some (att t !! x) /\ isHead (att t) x.
Proof.
  intros Hok. destruct (order_spec r _ (tk_linked _ _ Hok) (tk_conn _ _ Hok)) as (_ & Hin & _).
  rewrite (tk_heads _ _ Hok). unfold sortStrings. rewrite merge_sort_Permutation, list_elem_of_filter, Hin. tauto.
Qed.

Lemma heads_NoDup r t : tree_ok r t -> NoDup (t_headIds t).
Proof.
  intros Hok. destruct (order_spec r _ (tk_linked _ _ Hok) (tk_conn _ _ Hok)) as (Hnd & _ & _).
  rewrite (tk_heads _ _ Hok). unfold sortStrings. rewrite merge_sort_Permutation. by apply NoDup_filter.
Qed.

Lemma last_head r t : tree_ok r t -> t_lastIteratedHeadId t ∈ t_headIds t.
Proof.
  intros Hok. pose proof (tk_last _ _ Hok) as Hl. apply (heads_elem r); [done|].
  destruct (order_spec r _ (tk_linked _ _ Hok) (tk_conn _ _ Hok)) as (_ & Hin & _). split.
  - apply Hin. by apply last_Some_elem_of.
  - by eapply last_is_head; [apply Hok|apply Hok|].
Qed.

Section head.
(** A new change on top of the heads of a tree. *)
Variables (r : string) (t : Tree) (c : Change).
Hypothesis Hok : tree_ok r t.
Hypothesis Hnew : att t !! ch_Id c = None.
Hypothesis Hnext : ch_Next c = [].
Hypothesis Hprev : ch_PreviousIds c = t_headIds t.
Hypothesis Hsnap : is_Some (att t !! ch_SnapshotId c).

Abbreviation id := (ch_Id c).

Lemma merged_prev p : p ∈ ch_PreviousIds (sortedPrev c) <-> p ∈ t_headIds t.
Proof. destruct (sortedPrev_from c) as (_ & Hp & _). by rewrite Hp, Hprev. Qed.

(** The change is attached, and nothing else. *)
Lemma merged_add :
  exists t1, add c t = (t1, Ok true) /\ linked r (att t1) /\ grows [c] t t1 /\ is_Some (att t1 !! id) /\
    unatt t1 = ∅.
Proof.
  unfold add. erewrite st_bind_run by done. rewrite (tk_root _ _ Hok). fold (sortedPrev c).
  destruct (sortedPrev_same c) as [Hid Hn].
  assert (Forall (fun p => is_Some (att t !! p)) (ch_PreviousIds (sortedPrev c))) as Hall.
  { apply Forall_forall. intros p Hp%merged_prev. by apply (heads_elem r t p Hok) in Hp as [? _]. }
  assert (ch_SnapshotId (sortedPrev c) = ch_SnapshotId c) as Hs by (by destruct (sortedPrev_from c) as (_ & _ & ? & _)).
  destruct (canAttach_wait_run (sortedPrev c) t) as (t0 & Hrun & Hcase).
  destruct Hsnap as [sn Hsn].
  assert ((canAttachOrRemove (Some (sortedPrev c)) false t).2 = Ok (true, false)) as Hyes.
  { by rewrite canAttach_run, decide_True, Hs, Hsn by done. }
  rewrite Hyes in Hrun, Hcase.
  destruct Hcase as [[-> _]|[Hbad _]]; [|done].
  erewrite st_bind_run by exact Hrun. simpl.
  assert (attaching [c] r t [] t) as Hat.
  { split; [apply Hok| |done]. split; rewrite (tk_idle _ _ Hok); done. }
  destruct (attach_spec [c] r t (attachFuel t) [] (sortedPrev c) true t Hat) as (t1 & Ht1 & Hat1 & Hin & _).
  - split; rewrite ?Hid; [done|by rewrite Hn|by apply Forall_forall|by rewrite Hs, Hsn|].
    exists c. split; [by left|apply sortedPrev_from].
  - by rewrite (tk_idle _ _ Hok).
  - rewrite (tk_idle _ _ Hok). unfold attachFuel. rewrite delete_empty, map_size_empty. lia.
  - erewrite st_bind_run; [|erewrite st_bind_run by done; exact Ht1]. rewrite Hid in Hin.
    destruct Hat1 as [Hl1 Hw1 Hg1]. exists t1. split_and!; [done..|].
    apply map_empty. intros u. destruct (unatt t1 !! u) as [e|] eqn:He; [exfalso|done].
    destruct (wt_keys _ _ _ Hw1 _ _ He) as (<- & Hnone & _ & d & ->%list_elem_of_singleton & Hfrom & _).
    rewrite Hfrom in Hnone. destruct Hin. congruence.
Qed.

Section attached.
Variable t1 : Tree.
Hypothesis Hlinked : linked r (att t1).
Hypothesis Hgrows : grows [c] t t1.
Hypothesis Hin : is_Some (att t1 !! id).

Lemma merged_dom x : is_Some (att t1 !! x) <-> is_Some (att t !! x) \/ x = id.
Proof.
  split.
  - intros [d Hd]. destruct (att t !! x) as [e|] eqn:He; [left; by eexists|right].
    destruct (gr_new _ _ _ Hgrows _ _ Hd He) as (d0 & ->%list_elem_of_singleton & Hf & _).
    by rewrite <- (lk_ids _ _ Hlinked _ _ Hd).
  - intros [Hx| ->]; [by eapply grows_is_Some|done].
Qed.

Lemma merged_change : exists c', att t1 !! id = Some c' /\ ch_PreviousIds c' ≡ₚ t_headIds t /\
  ch_OrderId c' = ch_OrderId c /\ ch_Info c' = ch_Info c.
Proof.
  destruct Hin as [c' Hc']. exists c'. split; [done|].
  destruct (gr_new _ _ _ Hgrows _ _ Hc' Hnew) as (d & ->%list_elem_of_singleton & _ & Hp & _ & Ho & Hi).
  by rewrite Hp, Hprev.
Qed.

Lemma merged_next x : nextOf (att t1) x = if decide (x ∈ t_headIds t) then [id] else nextOf (att t) x.
Proof.
  apply sorted_occ_unique; [apply Hlinked|case_decide; [repeat constructor|apply (tk_linked _ _ Hok)]|].
  intros y. rewrite (lk_next _ _ Hlinked). unfold links.
  assert (id <> r) as Hr by (intros He; destruct (lk_root _ _ (tk_linked _ _ Hok)); congruence).
  destruct (decide (y = id)) as [->|Hy].
  - destruct merged_change as (c' & -> & Hp & _). rewrite decide_False by done.
    rewrite (proj1 (Permutation_count_occ String.eq_dec _ _) Hp x). case_decide as Hx.
    + simpl. destruct (String.eq_dec id id); [|done].
      apply NoDup_count_occ'; [apply NoDup_ListNoDup; by eapply heads_NoDup|by apply list_elem_of_In].
    + assert (occ (nextOf (att t) x) id = 0) as ->.
      { rewrite (lk_next _ _ (tk_linked _ _ Hok)). unfold links. by rewrite Hnew. }
      apply count_occ_not_In. by rewrite <- list_elem_of_In.
  - assert (match att t1 !! y with Some c0 => if decide (y = r) then 0 else occ (ch_PreviousIds c0) x | None => 0 end
      = occ (nextOf (att t) x) y) as ->.
    { rewrite (lk_next _ _ (tk_linked _ _ Hok)). unfold links. destruct (att t !! y) as [d|] eqn:Hd.
      - destruct (gr_old _ _ _ Hgrows _ _ Hd) as (d' & -> & Hcore).
        assert (ch_PreviousIds d' = ch_PreviousIds d) as -> by (by apply (f_equal ch_PreviousIds) in Hcore; destruct d, d').
        done.
      - destruct (att t1 !! y) eqn:Hy1; [|done]. destruct (proj1 (merged_dom y)) as [[? ?]|?]; [by eexists|congruence|done]. }
    case_decide as Hx; [|done]. apply (heads_elem r t x Hok) in Hx as [_ Hx]. unfold isHead in Hx. rewrite Hx.
    simpl. by destruct (String.eq_dec id y).
Qed.

Lemma merged_conn x d : att t1 !! x = Some d -> x <> r -> ch_PreviousIds d <> [].
Proof.
  intros Hd Hx. destruct (proj1 (merged_dom x)) as [[e He]| ->]; [by eexists| |].
  - destruct (gr_old _ _ _ Hgrows _ _ He) as (d' & Hd' & Hcore). rewrite Hd in Hd'. injection Hd' as <-.
    assert (ch_PreviousIds d = ch_PreviousIds e) as -> by (by apply (f_equal ch_PreviousIds) in Hcore; destruct d, e).
    by apply (tk_conn _ _ Hok _ _ He).
  - destruct merged_change as (c' & Hc' & Hp & _). rewrite Hd in Hc'. injection Hc' as <-.
    intros Hnil. rewrite Hnil in Hp. apply Permutation_nil_l in Hp.
    pose proof (last_head r t Hok) as Hl. rewrite <- Hp in Hl. by apply not_elem_of_nil in Hl.
Qed.

Lemma merged_order : iterOrder (att t1) (Some r) = iterOrder (att t) (Some r) ++ [id].
Proof.
  destruct (order_spec r _ Hlinked merged_conn) as (Hnd & Hin1 & Hsl).
  apply (snoc_order (fun x => is_Some (att t !! x)) _ _ (t_lastIteratedHeadId t) _ (att t1)); try done.
  - apply more_changes_order; [apply Hok|done|]. by eapply grown_more.
  - apply Hok.
  - rewrite merged_next, decide_True by by eapply last_head. by left.
  - intros x. by rewrite Hin1, merged_dom.
  - rewrite Hnew. by intros [].
Qed.

Lemma merged_orderOf x : is_Some (att t !! x) -> orderOf (att t1) x = orderOf (att t) x.
Proof. by apply (grown_orderOf [c]). Qed.
End attached.
End head.

(** A snapshot starts a tree of its own. *)
Lemma merged_root c :
  ch_Next c = [] -> lexid (ch_OrderId c) ->
  exists t', AddMergedHead c emptyTree = (t', Ok tt) /\ tree_ok (ch_Id c) t' /\ t_headIds t' = [ch_Id c] /\
    att t' = {[ ch_Id c := c ]}.
Proof.
  intros Hn Hlex. assert (ch_OrderId c <> "") as Ho by by apply lexid_nonempty.
  eexists. split.
  { unfold AddMergedHead, add, mbind, st_bind. simpl. rewrite decide_False by done. reflexivity. }
  simpl. split; [|done]. pose proof (root_order c Hn) as Hro. split; simpl; try done.
  - by apply linked_root.
  - by intros x d [<- _]%lookup_singleton_Some.
  - unfold orderOf. by rewrite lookup_singleton_eq.
  - by rewrite Hro.
  - rewrite Hro, filter_cons_True; [done|]. unfold isHead, nextOf. by rewrite lookup_singleton_eq.
  - by rewrite Hro.
Qed.

(** A change on top of the heads becomes the only head, and the end of the iteration. *)
Lemma AddMergedHead_spec r t c :
  tree_ok r t -> att t !! ch_Id c = None -> ch_Next c = [] -> ch_PreviousIds c = t_headIds t ->
  is_Some (att t !! ch_SnapshotId c) ->
  ch_OrderId c = lexId_Next (orderOf (att t) (t_lastIteratedHeadId t)) ->
  exists t', AddMergedHead c t = (t', Ok tt) /\ tree_ok r t' /\ t_headIds t' = [ch_Id c] /\
    t_lastIteratedHeadId t' = ch_Id c /\
    iterOrder (att t') (Some r) = iterOrder (att t) (Some r) ++ [ch_Id c] /\
    (exists c', att t' !! ch_Id c = Some c' /\ ch_PreviousIds c' ≡ₚ ch_PreviousIds c /\
       ch_OrderId c' = ch_OrderId c /\ ch_Info c' = ch_Info c) /\
    (forall x d, att t !! x = Some d -> exists d', att t' !! x = Some d' /\ core d' = core d) /\
    (forall x, is_Some (att t' !! x) <-> is_Some (att t !! x) \/ x = ch_Id c).
Proof.
  intros Hok Hnew Hnext Hprev Hsnap Hord.
  destruct (merged_add r t c Hok Hnew Hnext Hprev Hsnap) as (t1 & Hrun & Hl & Hg & Hin & Hun).
  assert (Forall (fun h => exists head, att t1 !! h = Some head /\ ch_Next head = [ch_Id c]) (t_headIds t)) as Hheads.
  { apply Forall_forall. intros h Hh. pose proof (proj1 (heads_elem r t h Hok) Hh) as [Hs _].
    destruct (grows_is_Some _ _ _ _ Hg Hs) as [head Hhd]. exists head. split; [done|].
    pose proof (merged_next r t c Hok Hnew Hprev t1 Hl Hg Hin h) as Hn. unfold nextOf in Hn at 1.
    by rewrite Hhd, decide_True in Hn by done. }
  assert (AddMergedHead c t = (set_heads [ch_Id c] (ch_Id c) t1, Ok tt)) as Hmerge.
  { unfold AddMergedHead. erewrite st_bind_run; [|unfold calls, known; rewrite Hnew, (tk_idle _ _ Hok), lookup_empty; done].
    erewrite st_bind_run by exact Hrun. simpl. erewrite st_bind_run by done. erewrite st_bind_run by done.
    destruct (gr_frame _ _ _ Hg) as (_ & Hh & _). rewrite Hh.
    assert (forall l, Forall (fun h => exists head, att t1 !! h = Some head /\ ch_Next head = [ch_Id c]) l ->
      st_each (fun prevHead => head ← attachedChange prevHead;
        lifts (fail_if (negb (bool_decide (ch_Next head = [ch_Id c]))) (GoError "this is not a new head"))) l t1
      = (t1, Ok tt)) as Hloop.
    { clear. induction 1 as [|h l (head & Hh & Hn) _ IH]; [done|]. simpl.
      erewrite st_bind_run; [exact IH|]. erewrite st_bind_run by by apply attachedChange_Some.
      unfold lifts. by rewrite bool_decide_true. }
    erewrite st_bind_run by by apply Hloop. done. }
  pose proof (merged_order r t c Hok Hnew Hprev t1 Hl Hg Hin) as Horder.
  pose proof (merged_orderOf t c t1 Hg) as Hold.
  destruct (merged_change t c Hnew Hprev t1 Hg Hin) as (c' & Hc' & Hp & Ho & Hi).
  pose proof (merged_dom r t c t1 Hl Hg Hin) as Hdom.
  pose proof (merged_next r t c Hok Hnew Hprev t1 Hl Hg Hin) as Hnx.
  destruct (order_spec r _ (tk_linked _ _ Hok) (tk_conn _ _ Hok)) as (_ & Helem & _).
  destruct (order_root r _ (tk_linked _ _ Hok) (tk_conn _ _ Hok)) as [rest Hrest].
  pose proof (lk_root _ _ (tk_linked _ _ Hok)) as Hroot.
  eexists. split; [exact Hmerge|]. simpl.
  split_and!; [|done|done|done|by exists c'; rewrite Hp, Hprev| |done].
  - split; simpl; [|done| |done| | | |].
    + destruct (gr_frame _ _ _ Hg) as [-> _]. apply Hok.
    + by apply (merged_conn r t c Hok Hnew Hprev t1 Hl Hg Hin).
    + rewrite Hold by done. apply Hok.
    + rewrite Horder, Hrest, Hold by done. simpl. rewrite fmap_app. simpl.
      pose proof (tk_orders _ _ Hok) as Hch. rewrite Hrest in Hch. simpl in Hch.
      assert (orderOf (att t1) <$> rest = orderOf (att t) <$> rest) as ->.
      { apply list_fmap_ext. intros i x Hx. apply Hold, Helem. rewrite Hrest. right.
        by eapply list_elem_of_lookup_2. }
      assert (orderOf (att t1) (ch_Id c) = ch_OrderId c) as -> by (unfold orderOf; by rewrite Hc').
      assert (default (orderOf (att t) r) (last (orderOf (att t) <$> rest)) =
        orderOf (att t) (t_lastIteratedHeadId t)) as Hlast.
      { pose proof (tk_last _ _ Hok) as Hlast. rewrite Hrest, last_cons in Hlast. rewrite fmap_last.
        destruct (last rest); by injection Hlast as ->. }
      destruct (lexid_next (orderOf (att t) (t_lastIteratedHeadId t))) as [Hlx Hlt].
      { rewrite <- Hlast. rewrite fmap_last. destruct (last rest) as [z|] eqn:Hz; simpl; [|apply Hok].
        apply chain_valid in Hch. rewrite Forall_forall in Hch. apply Hch, list_elem_of_fmap_2.
        by apply last_Some_elem_of. }
      apply chain_snoc; [done|by rewrite Hlast, Hord|by rewrite Hord].
    + rewrite Horder, filter_app.
      assert (filter (isHead (att t1)) (iterOrder (att t) (Some r)) = []) as ->.
      { apply filter_none, Forall_forall. intros x Hx. unfold isHead. rewrite Hnx. case_decide as Hh; [done|].
        intros Hnil. apply Hh, (heads_elem r t x Hok). split; [by apply Helem|done]. }
      rewrite filter_cons_True; [done|]. unfold isHead. rewrite Hnx, decide_False.
      * unfold nextOf. by rewrite Hnew.
      * intros [[? ?] _]%(heads_elem r t _ Hok). congruence.
    + by rewrite Horder, last_snoc.
  - intros x d Hd. by apply (gr_old _ _ _ Hg).
Qed.
End merged.
