(* ===== verification/TreeMain.v ===== *)
(** The theorems on the change tree: a call of [Add] on a tree in order ends and leaves
    it in order; the iteration is topological and complete; trees with the same changes
    agree on it, in whatever order the changes came; attaching changes does not reorder
    what was iterated, and in the append mode only adds to its end. *)

From Stdlib Require Import ZArith Lia String Permutation.
From stdpp Require Import base option list gmap strings sorting relations.
From S2P Require Import Prelude Crypto TreeModels Tree TreeOrder TreeAdd TreeStable TreeHeads TreeCalls TreeMerged.

(** ** Positions in the iteration *)

Lemma successors_later_app m l l' : successors_later m (l ++ l') -> successors_later m l'.
Proof. induction l as [|x l IH]; [done|]. intros [? _]. by apply IH. Qed.

Lemma successors_closed m l x y : successors_later m l -> x ∈ l -> y ∈ nextOf m x -> y ∈ l.
Proof.
  induction l as [|z l IH]; [by intros _ ?%not_elem_of_nil|].
  intros [Hl Hz] [->|Hx]%elem_of_cons Hy; right; auto.
Qed.

Lemma successors_closed_rtc m l x y :
  successors_later m l -> rtc (fun x y => y ∈ nextOf m x) x y -> x ∈ l -> y ∈ l.
Proof.
  intros Hs Hr. induction Hr as [|u v w Huv _ IH]; [done|]. intros Hu. apply IH.
  by eapply successors_closed.
Qed.

(** What is reachable from a change does not come before it. *)
Lemma reachable_later m a x b y :
  successors_later m (a ++ x :: b) -> rtc (fun x y => y ∈ nextOf m x) x y -> y ∈ x :: b.
Proof. intros Hs%successors_later_app Hr. eapply successors_closed_rtc; [done..|by left]. Qed.

Lemma successor_position m l i j x y :
  successors_later m l -> NoDup l -> y ∈ nextOf m x -> l !! i = Some x -> l !! j = Some y -> i < j.
Proof.
  intros Hs Hnd Hxy Hi Hj. apply list_elem_of_split_length in Hi as (a & b & -> & ->).
  apply successors_later_app in Hs as [_ Hs]. apply Hs in Hxy.
  destruct (decide (j <= length a)) as [Hle|]; [|lia]. exfalso.
  rewrite NoDup_app, NoDup_cons in Hnd. destruct Hnd as (_ & Hdis & Hx & _).
  destruct (decide (j = length a)) as [->|Hne].
  - rewrite list_lookup_middle in Hj by done. injection Hj as ->. done.
  - rewrite lookup_app_l in Hj by lia. apply list_elem_of_lookup_2 in Hj. apply (Hdis y); set_solver.
Qed.

Section positions.
Context `{LexIdLaws}.

Lemma chain_lookup p l i o : chain p l -> l !! i = Some o -> slt p o.
Proof.
  revert p i. induction l as [|q l IH]; intros p i; [done|]. intros (Hpq & _ & Hl).
  destruct i as [|i]; [by intros [= <-]|]. intros Hi. transitivity q; [done|]. by eapply IH.
Qed.

Lemma chain_increasing p l i j o o' :
  chain p l -> (p :: l) !! i = Some o -> (p :: l) !! j = Some o' -> i < j -> slt o o'.
Proof.
  revert p i j. induction l as [|q l IH]; intros p i j Hl Hi Hj Hij; destruct j as [|j]; try lia.
  - done.
  - destruct i as [|i]; [injection Hi as <-; by eapply chain_lookup|].
    destruct Hl as (_ & _ & Hl). eapply IH; [done..|lia].
Qed.
End positions.

(** ** What the marking visits *)

Lemma dfsLoop_reach next (P : string -> Prop) fuel stack visited vs :
  (forall x y, P x -> y ∈ next x -> P y) -> Forall P stack -> set_Forall P visited ->
  dfsLoop next fuel stack visited = Some vs -> set_Forall P vs.
Proof.
  intros HP. revert stack visited. induction fuel as [|fuel IH]; intros [|x stack] visited Hs Hv; simpl.
  1, 3: by intros [= <-].
  - done.
  - inversion_clear Hs as [|? ? Hx Hrest]. case_decide; [by apply IH|]. apply IH.
    + apply Forall_app. split; [|done]. apply Forall_forall.
      intros y Hy. apply elem_of_rev, list_elem_of_filter in Hy as [_ Hy]. by eapply HP.
    + apply set_Forall_union; [by apply set_Forall_singleton|done].
Qed.

Lemma dfsNext_reach m x y : y ∈ dfsNext m [x] -> rtc (fun x y => y ∈ nextOf m x) x y.
Proof.
  unfold dfsNext. destruct (dfsLoop _ _ _ _) as [vs|] eqn:Hd; simpl; [|set_solver]. revert y.
  eapply (dfsLoop_reach _ _ _ _ _ _ _ _ _ Hd).
  Unshelve.
  - intros u v Hu Hv. by eapply rtc_r.
  - by repeat constructor.
  - apply set_Forall_empty.
Qed.

(** ** Which changes are attached *)

(** The changes whose ancestors are all in the tree or among the delivered. *)
Inductive attachable (m : changes) (cs : list Change) : string -> Prop :=
| attachable_old x : is_Some (m !! x) -> attachable m cs x
| attachable_new c :
    c ∈ cs -> (forall p, p ∈ ch_PreviousIds c -> attachable m cs p) -> attachable m cs (ch_Id c).

(** The delivered changes name snapshots that are in the tree or among their ancestors. *)
Definition names (m : changes) (cs : list Change) (x y : string) : Prop :=
  m !! x = None /\ exists d, d ∈ cs /\ ch_Id d = x /\ y ∈ ch_PreviousIds d.
Definition snapshots_below (m : changes) (cs : list Change) : Prop :=
  forall c, c ∈ cs -> is_Some (m !! ch_SnapshotId c) \/ tc (names m cs) (ch_Id c) (ch_SnapshotId c).

(** None of this depends on the order of delivery. *)
Lemma deliverable_perm cs cs' : cs ≡ₚ cs' -> deliverable cs -> deliverable cs'.
Proof. intros Hp [H1 H2 H3 H4]. split; setoid_rewrite <- Hp; done. Qed.

Lemma snapshots_below_perm m cs cs' : cs ≡ₚ cs' -> snapshots_below m cs -> snapshots_below m cs'.
Proof.
  intros Hp Hsn c Hc. rewrite <- Hp in Hc. destruct (Hsn c Hc) as [?|Htc]; [by left|right].
  eapply tc_congruence with (f := fun x => x); [|done]. intros x y (Hx & d & Hd & Hxy).
  split; [done|]. exists d. by rewrite <- Hp.
Qed.

Lemma attachable_perm m cs cs' :
  cs ≡ₚ cs' -> forall x, attachable m cs x <-> attachable m cs' x.
Proof.
  intros Hp x. split; induction 1 as [|c Hc _ IH]; try (by apply attachable_old);
    apply attachable_new; try done; by rewrite <- Hp || by rewrite Hp.
Qed.

Section attached.
Context `{LexIdLaws}.
Variables (r : string) (cs : list Change) (t t1 t' : Tree) (mode : Mode) (added : list string).
Hypothesis Hok : tree_ok r t.
Hypothesis Hcs : deliverable cs.
Hypothesis Hcall : call r cs t t1 mode added t'.

Abbreviation old := (fun x => is_Some (att t !! x)).

Lemma attached_sound x : is_Some (att t' !! x) -> attachable (att t) cs x.
Proof.
  destruct (lk_rank _ _ (tk_linked _ _ (ca_ok _ _ _ _ _ _ _ Hcall))) as [rank Hrank]. revert x.
  apply (Wf_nat.induction_ltof1 _ rank (fun x => is_Some (att t' !! x) -> attachable (att t) cs x)).
  intros x IH Hx. destruct (call_added _ _ _ _ _ _ _ Hcall) as (_ & Hdom & Hnew).
  apply Hdom in Hx as [Hx|Hx]; [by apply attachable_old|].
  destruct (call_new _ _ _ _ _ _ _ Hcall x Hx) as (d & c & Hd & Hc & <- & Hp & _).
  assert (ch_Id d <> r) as Hr.
  { intros Heq. destruct (lk_root _ _ (tk_linked _ _ Hok)) as [? Hroot].
    rewrite <- Heq, (Hnew _ Hx) in Hroot. done. }
  apply attachable_new; [done|]. intros p Hpin. rewrite <- Hp in Hpin. apply IH.
  - by eapply Hrank.
  - by eapply (lk_prev _ _ (tk_linked _ _ (ca_ok _ _ _ _ _ _ _ Hcall))).
Qed.

(** With the predecessors of a change its snapshot is attached. *)
Lemma snapshot_attached t2 c :
  snapshots_below (att t) cs -> c ∈ cs -> att t !! ch_Id c = None ->
  linked r (att t2) -> grows cs (set_addedBuf [] t) t2 ->
  (forall p, p ∈ ch_PreviousIds c -> is_Some (att t2 !! p)) -> is_Some (att t2 !! ch_SnapshotId c).
Proof.
  intros Hsnap Hc Hnew Hl Hg Hp.
  assert (forall x y, names (att t) cs x y -> x = ch_Id c \/ is_Some (att t2 !! x) ->
    is_Some (att t2 !! y)) as Hstep.
  { intros x y (Hx & d & Hd & Hid & Hy) [->|[c2 Hc2]].
    - rewrite (dl_unique _ Hcs _ _ Hd Hc Hid) in Hy. by apply Hp.
    - destruct (gr_new _ _ _ Hg _ _ Hc2 Hx) as (d' & Hd' & Hid' & Hp' & _).
      rewrite (lk_ids _ _ Hl _ _ Hc2), <- Hid in Hid'.
      rewrite (dl_unique _ Hcs _ _ Hd Hd' Hid'), <- Hp' in Hy. eapply (lk_prev _ _ Hl); [done| |done].
      intros ->. destruct (lk_root _ _ (tk_linked _ _ Hok)). congruence. }
  destruct (Hsnap c Hc) as [Hold|Htc]; [by eapply grows_is_Some|].
  assert (forall x y, tc (names (att t) cs) x y -> x = ch_Id c \/ is_Some (att t2 !! x) ->
    is_Some (att t2 !! y)) as Hall.
  { intros x y Htc'. induction Htc' as [x y Hxy|x y z Hxy _ IH]; [by apply Hstep|].
    intros Hx. apply IH. right. by eapply Hstep. }
  apply (Hall (ch_Id c)); [done|by left].
Qed.

Lemma attached_complete x :
  snapshots_below (att t) cs -> attachable (att t) cs x -> is_Some (att t' !! x).
Proof.
  intros Hsnap. induction 1 as [x Hx|c Hc _ IH].
  { apply (call_added _ _ _ _ _ _ _ Hcall). by left. }
  destruct (att t !! ch_Id c) eqn:Hnew; [apply (call_added _ _ _ _ _ _ _ Hcall); left; by rewrite Hnew|].
  apply (call_dom _ _ _ _ _ _ _ Hcall). pose proof (ca_attached _ _ _ _ _ _ _ Hcall) as [Hl Hw Hg].
  destruct (ca_delivered _ _ _ _ _ _ _ Hcall c Hc) as (c1 & (Hid & Hp & Hsn & _) & Hset).
  destruct Hset as [Ha|[Hu|(t2 & Hl2 & Hg2 & _ & Hp2 & Hs2)]].
  - by rewrite Hid in Ha.
  - destruct (wt_idle _ _ _ Hw _ _ Hu) as (p & Hpin & Hnone); [apply not_elem_of_nil|].
    rewrite Hp in Hpin. apply IH, (call_dom _ _ _ _ _ _ _ Hcall) in Hpin as [? ?]. congruence.
  - rewrite Hsn in Hs2. destruct (snapshot_attached t2 c Hsnap Hc Hnew Hl2 Hg2) as [? ?]; [|congruence].
    intros p Hpin. apply Hp2. by rewrite Hp.
Qed.

(** ** The append mode *)

Lemma append_order :
  mode = Append -> exists l, iterOrder (att t') (Some r) = iterOrder (att t) (Some r) ++ l /\ l ≡ₚ added.
Proof.
  intros Hmode. pose proof (ca_ok _ _ _ _ _ _ _ Hcall) as Hok'.
  destruct (order_spec r _ (tk_linked _ _ Hok) (tk_conn _ _ Hok)) as (Hnd & Hin & _).
  destruct (order_spec r _ (tk_linked _ _ Hok') (tk_conn _ _ Hok')) as (Hnd' & Hin' & Hsl).
  destruct (call_added _ _ _ _ _ _ _ Hcall) as (Hnda & Hdom & Hnew).
  pose proof (call_order _ _ _ _ _ _ _ Hok Hcall) as Hord. pose proof (tk_last _ _ Hok) as Hlast.
  set (h := t_lastIteratedHeadId t) in *. set (o := iterOrder (att t) (Some r)) in *.
  set (o' := iterOrder (att t') (Some r)) in *.
  assert (h ∈ o') as (a & b & Ho')%list_elem_of_split.
  { assert (h ∈ o) as Hho by by apply last_Some_elem_of. rewrite <- Hord in Hho.
    by apply list_elem_of_filter in Hho as [_ ?]. }
  assert (forall x, x ∈ added -> x ∈ h :: b) as Hafter.
  { intros x Hx. destruct (call_new _ _ _ _ _ _ _ Hcall x Hx) as (d & c & Hd & Hc & <- & _).
    apply (reachable_later (att t') a); [by rewrite <- Ho'|]. apply dfsNext_reach.
    apply (ca_append _ _ _ _ _ _ _ Hcall Hmode d Hd). eauto. }
  rewrite Ho' in Hnd'. apply NoDup_app in Hnd' as (_ & Hdis & [Hhb Hndb]%NoDup_cons).
  assert (old h) as Hh by (apply Hin; by apply last_Some_elem_of).
  assert (filter old a = a) as Ha.
  { apply filter_every, Forall_forall. intros x Hx. destruct (proj1 (Hdom x)) as [?|Hadd]; [|done|].
    - apply Hin'. rewrite Ho'. set_solver.
    - by destruct (Hdis x Hx (Hafter x Hadd)). }
  rewrite Ho', filter_app, filter_cons_True, Ha in Hord by done.
  assert (filter old b = []) as Hb.
  { destruct (filter old b) as [|y ys] eqn:Hf using rev_ind; [done|]. exfalso.
    rewrite <- Hord in Hlast. rewrite app_comm_cons, app_assoc, last_snoc in Hlast.
    injection Hlast as ->. assert (h ∈ filter old b) as [_ Hb]%list_elem_of_filter; [|done].
    rewrite Hf. set_solver. }
  rewrite Hb in Hord. exists b. rewrite Ho', <- Hord, <- app_assoc. split; [done|].
  apply NoDup_Permutation; [done..|]. intros x. split.
  - intros Hx. destruct (proj1 (Hdom x)) as [Hx'|?]; [|exfalso|done].
    + apply Hin'. rewrite Ho'. set_solver.
    + assert (x ∈ filter old b) as Hxb by by apply list_elem_of_filter.
      rewrite Hb in Hxb. by apply not_elem_of_nil in Hxb.
  - intros Hx. apply Hafter in Hx as Hx'. apply elem_of_cons in Hx' as [->|?]; [|done].
    apply Hnew in Hx. destruct Hh. congruence.
Qed.
End attached.

(** ** Trees *)

Section reachable.
Context `{LexIdLaws}.

(** The trees that [Add] and [AddMergedHead] make from a first change. *)
Inductive tree_reachable : string -> Tree -> Prop :=
| reach_new c mode added t :
    ch_Next c = [] -> ch_OrderId c = "" \/ lexid (ch_OrderId c) ->
    Add [c] emptyTree = (t, Ok (mode, added)) -> tree_reachable (ch_Id c) t
| reach_add r t cs mode added t' :
    tree_reachable r t -> deliverable cs -> Add cs t = (t', Ok (mode, added)) -> tree_reachable r t'
| reach_merged r t c t' :
    tree_reachable r t -> ch_Next c = [] -> ch_PreviousIds c = t_headIds t ->
    is_Some (t_attached t !! ch_SnapshotId c) ->
    ch_OrderId c = lexId_Next (orderOf (t_attached t) (t_lastIteratedHeadId t)) ->
    AddMergedHead c t = (t', Ok tt) -> tree_reachable r t'.

(** The first change. *)
Lemma new_tree_ok c t mode added :
  ch_Next c = [] -> ch_OrderId c = "" \/ lexid (ch_OrderId c) ->
  Add [c] emptyTree = (t, Ok (mode, added)) -> tree_ok (ch_Id c) t.
Proof.
  intros Hn Hlex.
  set (c' := if decide (ch_OrderId c = "") then with_OrderId (lexId_Next "") c else c).
  assert (ch_Id c' = ch_Id c) as Hid by (unfold c'; by case_decide).
  assert (ch_Next c' = []) as Hn' by (unfold c'; by case_decide).
  assert (lexid (ch_OrderId c')) as Hlex'.
  { unfold c'. case_decide as Ho; [apply lexid_first|]. by destruct Hlex. }
  pose proof (linked_root c' Hn') as Hl. rewrite Hid in Hl.
  set (t1 := mkTree (Some (ch_Id c)) [] (ch_Id c) {[ ch_Id c := c' ]} ∅ ∅ ∅ [] [ch_Id c]).
  assert (st_each addUnknown [c] (set_addedBuf [] emptyTree) = (t1, Ok tt)) as Hadd.
  { simpl. unfold addUnknown, add, mbind, st_bind. simpl. fold c'. by rewrite Hid. }
  assert (forall x d, att t1 !! x = Some d -> x <> ch_Id c -> ch_PreviousIds d <> []) as Hconn.
  { intros x d Hx. simpl in Hx. by apply lookup_singleton_Some in Hx as [<- _]. }
  assert (orderOf (att t1) (ch_Id c) = ch_OrderId c') as Ho.
  { unfold orderOf. simpl. by rewrite lookup_singleton_eq. }
  assert (iterOrder (att t1) (Some (ch_Id c)) = [ch_Id c]) as Hord.
  { pose proof (root_order c' Hn') as Hro. by rewrite Hid in Hro. }
  destruct (updateHeads_spec (ch_Id c) t1 eq_refl Hl Hconn) as (m' & lst & Hup & Hre & Hch & Hlast).
  { by rewrite Ho. }
  { by rewrite Hord. }
  assert (updated (ch_Id c) t1 m' lst) as Hupd by by split.
  unfold Add. erewrite st_bind_run by done. erewrite st_bind_run by done.
  erewrite st_bind_run by done. erewrite st_bind_run by exact Hadd. erewrite st_bind_run by done.
  rewrite decide_False by done. erewrite st_bind_run by exact Hup. erewrite st_bind_run by done.
  rewrite bool_decide_true by done. intros [= <- _ _]. rewrite Hord in Hre, Hch, Hlast. simpl in Hre.
  assert (same_changes (att t1) m') as Hs by by eapply reordered_same.
  assert (linked (ch_Id c) m') as Hl' by by eapply reordered_linked.
  pose proof (same_changes_order _ (att t1) m' Hl Hl' Hs) as Hord'. rewrite Hord in Hord'.
  split; simpl; simpl in Hord'; rewrite <- ?Hord'; try done.
  - intros x d Hx Hne. destruct (ro_back _ _ _ Hre x) as [e He]; [eauto|].
    simpl in He. by apply lookup_singleton_Some in He as [<- _].
  - simpl in Ho. rewrite (reordered_orderOf _ _ _ _ Hre), Ho by apply not_elem_of_nil. done.
  - simpl in Hord. rewrite Hord. f_equal. apply filter_ext_in. intros x _. unfold isHead.
    by rewrite (reordered_nextOf _ _ _ _ Hre).
Qed.

Lemma reachable_ok r t : tree_reachable r t -> tree_ok r t.
Proof.
  induction 1 as [c mode added t Hn Hlex Hrun|r t cs mode added t' _ IH Hcs Hrun|r t c t' _ IH Hn Hp Hsn Ho Hrun].
  - by eapply new_tree_ok.
  - destruct (Add_call r cs t IH Hcs) as (t1 & mode' & added' & t2 & Hcall).
    rewrite (ca_run _ _ _ _ _ _ _ Hcall) in Hrun. simplify_eq. apply Hcall.
  - destruct (AddMergedHead_spec r t c) as (t2 & Hrun2 & Hok & _); try done.
    + unfold AddMergedHead in Hrun. go_step Hrun. apply calls_Ok in Hrun0 as [-> Hk%fail_if_Ok].
      unfold known in Hk. apply orb_false_iff in Hk as [Hk _]. apply bool_decide_eq_false in Hk.
      by apply eq_None_not_Some.
    + rewrite Hrun in Hrun2. by injection Hrun2 as <-.
Qed.
End reachable.

Section theorems.
Context `{LexIdLaws}.
Implicit Types (t : Tree) (r x y : string) (cs : list Change).

Abbreviation order t r := (iterOrder (att t) (Some r)).

Lemma call_of r cs t mode added t' :
  tree_reachable r t -> deliverable cs -> Add cs t = (t', Ok (mode, added)) ->
  tree_ok r t /\ exists t1, call r cs t t1 mode added t'.
Proof.
  intros Hr Hcs Hrun. apply reachable_ok in Hr. split; [done|].
  destruct (Add_call r cs t Hr Hcs) as (t1 & mode' & added' & t2 & Hcall).
  pose proof (ca_run _ _ _ _ _ _ _ Hcall) as Hrun'. rewrite Hrun in Hrun'. simplify_eq. eauto.
Qed.

Lemma heads_spec r t x :
  tree_ok r t -> x ∈ t_headIds t <-> is_Some (att t !! x) /\
    forall y c, att t !! y = Some c -> y <> r -> x ∉ ch_PreviousIds c.
Proof.
  intros Hok. rewrite (tk_heads _ _ Hok). unfold sortStrings.
  rewrite merge_sort_Permutation, list_elem_of_filter.
  destruct (order_spec r _ (tk_linked _ _ Hok) (tk_conn _ _ Hok)) as (_ & -> & _).
  enough (isHead (att t) x <-> forall y c, att t !! y = Some c -> y <> r -> x ∉ ch_PreviousIds c) by tauto.
  unfold isHead. split.
  - intros Hn y c Hy Hne Hx. assert (y ∈ nextOf (att t) x) as Hin.
    { apply (lk_edge _ _ _ _ (tk_linked _ _ Hok)). eauto. }
    rewrite Hn in Hin. by apply not_elem_of_nil in Hin.
  - intros Hno. destruct (nextOf (att t) x) as [|y ys] eqn:Hn; [done|].
    assert (y ∈ nextOf (att t) x) as (c & Hc & Hne & Hx)%(lk_edge _ _ _ _ (tk_linked _ _ Hok))
      by (rewrite Hn; by left).
    by destruct (Hno _ _ Hc Hne).
Qed.

(** Two calls with the same changes that attach the same ids. *)
Lemma same_calls r cs cs' t s1 s2 mode mode' added added' t1 t2 :
  deliverable cs -> cs ≡ₚ cs' -> added ≡ₚ added' ->
  call r cs t s1 mode added t1 -> call r cs' t s2 mode' added' t2 ->
  (forall x, is_Some (att t1 !! x) <-> is_Some (att t2 !! x)) -> same_changes (att t1) (att t2).
Proof.
  intros Hcs Hp Hadd C1 C2 Hdom. split; [done|]. intros x c1 c2 Hc1 Hc2.
  destruct (att t !! x) as [c|] eqn:Hx.
  - destruct (call_more _ _ _ _ _ _ _ C1 _ _ Hx) as (e1 & He1 & Hp1).
    destruct (call_more _ _ _ _ _ _ _ C2 _ _ Hx) as (e2 & He2 & Hp2). simplify_eq.
    by rewrite <- Hp1.
  - assert (x ∈ added) as Hin.
    { destruct (call_added _ _ _ _ _ _ _ C1) as (_ & Hd1 & _).
      destruct (proj1 (Hd1 x)) as [[? ?]|?]; [eauto|congruence|done]. }
    destruct (call_new _ _ _ _ _ _ _ C1 x Hin) as (d1 & e1 & Hd & He1 & <- & Hp1 & _).
    rewrite Hadd in Hin.
    destruct (call_new _ _ _ _ _ _ _ C2 _ Hin) as (d2 & e2 & Hd' & He2 & Hid & Hp2 & _).
    simplify_eq. rewrite <- Hp in Hd'. rewrite (dl_unique _ Hcs _ _ Hd' Hd Hid) in Hp2.
    by rewrite Hp1, Hp2.
Qed.

(** C20: adding changes ends.  On every tree that [Add] and [AddMergedHead] have built from
    delivered changes (which are not linked, have no order id, have different ids and name
    at least one predecessor, whether or not the tree has it: [deliverable]), adding
    delivered changes succeeds, with no nil change and no exhausted order ids; the heads are
    then, in sorted order, exactly the changes that no other change names as a predecessor,
    and no change is left waiting.  (A change that names no predecessor is attached and is
    then no head, by [tree_orphan_unvisited].) *)
Theorem tree_add_total r t cs :
  tree_reachable r t -> deliverable cs ->
  exists mode added t', Add cs t = (t', Ok (mode, added)) /\ t_unAttached t' = ∅ /\
    Sorted String.le (t_headIds t') /\
    forall x, x ∈ t_headIds t' <-> is_Some (t_attached t' !! x) /\
      forall y c, t_attached t' !! y = Some c -> y <> r -> x ∉ ch_PreviousIds c.
Proof.
  intros Hr Hcs. apply reachable_ok in Hr.
  destruct (Add_call r cs t Hr Hcs) as (t1 & mode & added & t' & Hcall).
  pose proof (ca_ok _ _ _ _ _ _ _ Hcall) as Hok'.
  exists mode, added, t'. split_and!; [apply Hcall|apply Hok'| |].
  - rewrite (tk_heads _ _ Hok'). apply Sorted_merge_sort. apply _.
  - intros x. by apply heads_spec.
Qed.

(** C19: the iteration is topological and complete, on every tree that [Add] and
    [AddMergedHead] have built from changes that name at least one predecessor each (besides
    the first).  It visits every attached change exactly once, each after the predecessors
    it names, and the order ids increase along it.  (A change that names no predecessor is
    attached and never visited, by [tree_orphan_unvisited].) *)
Theorem tree_iteration r t :
  tree_reachable r t ->
  NoDup (order t r) /\ (forall x, x ∈ order t r <-> is_Some (t_attached t !! x)) /\
  (forall i j x y c, order t r !! i = Some x -> order t r !! j = Some y ->
     t_attached t !! y = Some c -> y <> r -> x ∈ ch_PreviousIds c -> i < j) /\
  (forall i j x y cx cy, order t r !! i = Some x -> order t r !! j = Some y -> i < j ->
     t_attached t !! x = Some cx -> t_attached t !! y = Some cy ->
     slt (ch_OrderId cx) (ch_OrderId cy)).
Proof.
  intros Hok%reachable_ok. pose proof (tk_linked _ _ Hok) as Hl. pose proof (tk_conn _ _ Hok) as Hconn.
  destruct (order_spec r _ Hl Hconn) as (Hnd & Hin & Hsl). split_and!; [done..| |].
  - intros i j x y c Hi Hj Hc Hne Hx. eapply successor_position; [done|done| |done|done].
    apply (lk_edge _ _ _ _ Hl). eauto.
  - intros i j x y cx cy Hi Hj Hij Hx Hy. destruct (order_root r _ Hl Hconn) as [rest Ho].
    pose proof (tk_orders _ _ Hok) as Hch. rewrite Ho in Hi, Hj, Hch. simpl in Hch.
    assert (forall k z cz, (r :: rest) !! k = Some z -> att t !! z = Some cz ->
      (orderOf (att t) r :: (orderOf (att t) <$> rest)) !! k = Some (ch_OrderId cz)) as Hk.
    { intros k z cz Hz Hcz. rewrite <- fmap_cons, list_lookup_fmap, Hz. simpl. unfold orderOf.
      by rewrite Hcz. }
    exact (chain_increasing _ _ _ _ _ _ Hch (Hk _ _ _ Hi Hx) (Hk _ _ _ Hj Hy) Hij).
Qed.

(** C21: trees converge. Two trees with the same first change that hold the same changes,
    however these came in, are iterated in the same order and have the same heads. *)
Theorem tree_converges r t t' :
  tree_reachable r t -> tree_reachable r t' -> same_changes (t_attached t) (t_attached t') ->
  order t r = order t' r /\ t_headIds t = t_headIds t' /\
  t_lastIteratedHeadId t = t_lastIteratedHeadId t'.
Proof.
  intros Hok%reachable_ok Hok'%reachable_ok Hs.
  assert (order t r = order t' r) as Hord by (apply same_changes_order; [apply Hok|apply Hok'|done]).
  split_and!; [done| |].
  - rewrite (tk_heads _ _ Hok), (tk_heads _ _ Hok'). f_equal.
    apply same_order_heads; [apply Hok|apply Hok'|done].
  - pose proof (tk_last _ _ Hok) as H1. rewrite Hord, (tk_last _ _ Hok') in H1. congruence.
Qed.

(** C2: no change is lost. After a call of [Add] the attached changes are exactly those
    whose ancestors are all in the tree or among the delivered changes, in whatever
    order these were passed, as long as the changes name snapshots that are in the
    tree or among their own ancestors. *)
Theorem tree_add_attaches r t cs mode added t' :
  tree_reachable r t -> deliverable cs -> snapshots_below (t_attached t) cs ->
  Add cs t = (t', Ok (mode, added)) ->
  forall x, is_Some (t_attached t' !! x) <-> attachable (t_attached t) cs x.
Proof.
  intros Hr Hcs Hsn Hrun x. destruct (call_of _ _ _ _ _ _ Hr Hcs Hrun) as (Hok & t1 & Hcall). split.
  - by eapply attached_sound.
  - by eapply attached_complete.
Qed.

(** Delivery order does not matter. The same changes passed to [Add] in two orders
    give trees with the same iteration and the same heads. *)
Theorem tree_delivery_order r t cs cs' mode mode' added added' t1 t2 :
  tree_reachable r t -> deliverable cs -> snapshots_below (t_attached t) cs -> cs ≡ₚ cs' ->
  Add cs t = (t1, Ok (mode, added)) -> Add cs' t = (t2, Ok (mode', added')) ->
  order t1 r = order t2 r /\ t_headIds t1 = t_headIds t2 /\ added ≡ₚ added'.
Proof.
  intros Hr Hcs Hsn Hp Hrun1 Hrun2.
  pose proof (deliverable_perm _ _ Hp Hcs) as Hcs'.
  pose proof (snapshots_below_perm (att t) _ _ Hp Hsn) as Hsn'.
  destruct (call_of _ _ _ _ _ _ Hr Hcs Hrun1) as (Hok & s1 & C1).
  destruct (call_of _ _ _ _ _ _ Hr Hcs' Hrun2) as (_ & s2 & C2).
  pose proof (attachable_perm (att t) _ _ Hp) as Hatt.
  assert (forall x, is_Some (att t1 !! x) <-> is_Some (att t2 !! x)) as Hdom.
  { intros x. split; intros Hx.
    - eapply (attached_complete r cs'); [done..|]. apply Hatt. by eapply attached_sound.
    - eapply (attached_complete r cs); [done..|]. apply Hatt. by eapply attached_sound. }
  destruct (call_added _ _ _ _ _ _ _ C1) as (Hnd1 & Hd1 & Hnew1).
  destruct (call_added _ _ _ _ _ _ _ C2) as (Hnd2 & Hd2 & Hnew2).
  assert (added ≡ₚ added') as Hadd.
  { apply NoDup_Permutation; [done..|]. intros x. specialize (Hdom x). rewrite Hd1, Hd2 in Hdom.
    split; intros Hx.
    - destruct (proj1 Hdom) as [[? ?]|?]; [by right| |done]. rewrite (Hnew1 _ Hx) in *. done.
    - destruct (proj2 Hdom) as [[? ?]|?]; [by right| |done]. rewrite (Hnew2 _ Hx) in *. done. }
  assert (same_changes (att t1) (att t2)) as Hs
    by exact (same_calls _ _ _ _ _ _ _ _ _ _ _ _ Hcs Hp Hadd C1 C2 Hdom).
  pose proof (ca_ok _ _ _ _ _ _ _ C1) as Ok1. pose proof (ca_ok _ _ _ _ _ _ _ C2) as Ok2.
  split_and!; [apply same_changes_order; [apply Ok1|apply Ok2|done]| |done].
  rewrite (tk_heads _ _ Ok1), (tk_heads _ _ Ok2). f_equal.
  apply same_order_heads; [apply Ok1|apply Ok2|done].
Qed.

(** The past is not reordered. Adding changes keeps the relative order of the
    changes that were there, and their order ids. *)
Theorem tree_order_stable r t cs mode added t' :
  tree_reachable r t -> deliverable cs -> Add cs t = (t', Ok (mode, added)) ->
  filter (fun x => is_Some (t_attached t !! x)) (order t' r) = order t r /\
  forall x c c', t_attached t !! x = Some c -> t_attached t' !! x = Some c' ->
    ch_OrderId c' = ch_OrderId c.
Proof.
  intros Hr Hcs Hrun. destruct (call_of _ _ _ _ _ _ Hr Hcs Hrun) as (Hok & t1 & Hcall). split.
  - by eapply call_order.
  - intros x c c' Hx Hx'. pose proof (call_orderOf _ _ _ _ _ _ _ Hok Hcall x) as Ho.
    unfold orderOf in Ho. rewrite Hx, Hx' in Ho. apply Ho. eauto.
Qed.

(** The append mode appends. When [Add] reports [Append], the new iteration is the
    old one followed by the added changes, so that iterating from the last iterated
    head misses nothing. *)
Theorem tree_append_mode r t cs added t' :
  tree_reachable r t -> deliverable cs -> Add cs t = (t', Ok (Append, added)) ->
  exists l, order t' r = order t r ++ l /\ l ≡ₚ added.
Proof.
  intros Hr Hcs Hrun. destruct (call_of _ _ _ _ _ _ Hr Hcs Hrun) as (Hok & t1 & Hcall).
  by eapply append_order.
Qed.
End theorems.
