(* ===== verification/TreeExample.v ===== *)
(** A concrete tree: an order-id generator that has the assumed laws (words over [a] and
    [b] that end in [b], as binary fractions), a small tree, and the theorems on the
    change tree applied to it. *)

From Stdlib Require Import ZArith Lia String Ascii Permutation.
From stdpp Require Import base option list gmap strings sorting relations.
From S2P Require Import Prelude Crypto TreeModels Tree TreeOrder TreeAdd TreeStable TreeHeads TreeCalls TreeMain.

Local Open Scope string_scope.

(** ** An order-id generator *)

Fixpoint wordb (s : string) : bool :=
  match s with
  | "" => false
  | String c "" => Ascii.eqb c "b"
  | String c s => (Ascii.eqb c "a" || Ascii.eqb c "b") && wordb s
  end.

(** A word between two words. *)
Fixpoint mid (p q : string) : string :=
  match q, p with
  | String d q, String c p => String c (if Ascii.eqb c d then mid p q else p ++ "b")
  | String d q, "" => String "a" (if Ascii.eqb d "a" then mid "" q else "b")
  | "", _ => ""
  end.

#[global] Instance wordIds : LexId := {|
  lexId_Next s := s ++ "b";
  lexId_NextBefore p q := Ok (mid p q);
|}.

Lemma slt_compare a b : slt a b <-> String.compare a b = Lt.
Proof.
  unfold strict, String.le, String.leb. rewrite (String.compare_antisym b a).
  destruct (String.compare a b); simpl; naive_solver.
Qed.

Lemma ascii_compare_refl c : Ascii.compare c c = Eq.
Proof. unfold Ascii.compare. apply N.compare_refl. Qed.

Definition letter (c : ascii) : bool := Ascii.eqb c "a" || Ascii.eqb c "b".

Lemma wordb_cons c s :
  wordb (String c s) = true <-> (s = "" /\ c = "b"%char) \/ (letter c = true /\ wordb s = true).
Proof.
  destruct s as [|d s].
  - simpl. rewrite Ascii.eqb_eq. split; [auto|]. by intros [[_ ?]|[_ ?]].
  - change (wordb (String c (String d s))) with (letter c && wordb (String d s)).
    rewrite andb_true_iff. split; [auto|]. by intros [[? _]|?].
Qed.

Lemma wordb_snoc s : s = "" \/ wordb s = true -> wordb (s ++ "b") = true.
Proof.
  induction s as [|c s IH]; [done|]. intros [?|[[-> ->]|[Hc Hs]]%wordb_cons]; [done|done|].
  simpl. apply wordb_cons. right. auto.
Qed.

Lemma compare_snoc s : String.compare s (s ++ "b") = Lt.
Proof. induction s as [|c s IH]; simpl; [done|]. by rewrite ascii_compare_refl. Qed.

Lemma mid_spec p q :
  p = "" \/ wordb p = true -> wordb q = true -> String.compare p q = Lt ->
  wordb (mid p q) = true /\ String.compare p (mid p q) = Lt /\ String.compare (mid p q) q = Lt.
Proof.
  revert p. induction q as [|d q IH]; intros p Hp Hq; [done|].
  destruct p as [|c p].
  - intros _. change (mid "" (String d q)) with (String "a" (if Ascii.eqb d "a" then mid "" q else "b")).
    apply wordb_cons in Hq as [[-> ->]|[Hd Hq]]; [done|].
    destruct (Ascii.eqb d "a") eqn:Ha.
    + apply Ascii.eqb_eq in Ha as ->. destruct (IH "") as (H1 & H2 & H3); [by left|done|by destruct q|].
      split_and!; [apply wordb_cons; by right|done|done].
    + unfold letter in Hd. rewrite Ha in Hd. apply Ascii.eqb_eq in Hd as ->. done.
  - simpl. destruct Hp as [?|Hp]; [done|]. apply wordb_cons in Hp.
    assert (p = "" \/ wordb p = true) as Hp' by (destruct Hp as [[? _]|[_ ?]]; auto).
    assert (letter c = true) as Hc by (destruct Hp as [[_ ->]|[? _]]; done).
    destruct (Ascii.compare c d) eqn:Hcd; [|intros _|done].
    + apply Ascii.compare_eq_iff in Hcd as ->. rewrite Ascii.eqb_refl, ascii_compare_refl. intros Hlt.
      assert (wordb q = true) as Hq'.
      { apply wordb_cons in Hq as [[-> _]|[_ ?]]; [|done]. by destruct p. }
      destruct (IH p Hp' Hq' Hlt) as (H1 & H2 & H3). split_and!; [|done..]. apply wordb_cons. by right.
    + assert (Ascii.eqb c d = false) as ->.
      { apply Ascii.eqb_neq. intros ->. rewrite ascii_compare_refl in Hcd. done. }
      rewrite ascii_compare_refl. split_and!; [|apply compare_snoc|done].
      apply wordb_cons. right. split; [done|]. by apply wordb_snoc.
Qed.

#[global] Instance wordIds_laws : LexIdLaws.
Proof.
  refine {| lexid s := wordb s = true |}.
  - by intros [].
  - done.
  - intros s Hs. split; [apply wordb_snoc; by right|]. apply slt_compare, compare_snoc.
  - intros p q Hp Hq Hlt%slt_compare. destruct (mid_spec p q) as (H1 & H2 & H3); [by right|done..|].
    exists (mid p q). split_and!; [done..| |]; by apply slt_compare.
Defined.

(** ** A tree *)

Definition exChange (id : string) (prev : list string) : Change :=
  mkChange id prev "r" false zeroInfo "" 1 [] [].
Definition exFirst : Change := mkChange "r" [] "" true zeroInfo "" 1 [] [].
Definition exX := exChange "x" ["r"].
Definition exY := exChange "y" ["r"].
Definition exZ := exChange "z" ["y"; "x"].
Definition exW := exChange "w" ["z"].

Definition addTo (cs : list Change) (t : Tree) : Tree := fst (Add cs t).
Definition exTree0 : Tree := addTo [exFirst] emptyTree.
Definition exTree : Tree := addTo [exZ; exX; exY] exTree0.

Lemma exTree0_run : Add [exFirst] emptyTree = (exTree0, Ok (Rebuild, ["r"])).
Proof. vm_compute. reflexivity. Qed.
Lemma exTree_run : Add [exZ; exX; exY] exTree0 = (exTree, Ok (Append, ["x"; "y"; "z"])).
Proof. vm_compute. reflexivity. Qed.

Lemma exTree0_reachable : tree_reachable "r" exTree0.
Proof. exact (reach_new exFirst _ _ _ eq_refl (or_introl eq_refl) exTree0_run). Qed.

(** Deliverability of concrete changes. *)
Definition deliverableb (cs : list Change) : bool :=
  forallb (fun c => bool_decide (ch_Next c = []) && bool_decide (ch_OrderId c = "") &&
    negb (bool_decide (ch_PreviousIds c = []))) cs && bool_decide (NoDup (ch_Id <$> cs)).

Lemma deliverableb_spec cs : deliverableb cs = true -> deliverable cs.
Proof.
  intros [Hall Hnd]%andb_true_iff. apply bool_decide_eq_true in Hnd.
  assert (forall c, c ∈ cs -> ch_Next c = [] /\ ch_OrderId c = "" /\ ch_PreviousIds c <> []) as Hc.
  { intros c Hc. rewrite forallb_forall in Hall. apply list_elem_of_In, Hall in Hc.
    rewrite !andb_true_iff, negb_true_iff, !bool_decide_eq_true, bool_decide_eq_false in Hc. tauto. }
  split; try (intros c Hin; by apply Hc). intros c d Hin Hin' Hid.
  apply list_elem_of_lookup in Hin as [i Hi], Hin' as [j Hj].
  assert (i = j) as ->; [|congruence]. eapply (NoDup_lookup _ i j (ch_Id c) Hnd).
  - by rewrite list_lookup_fmap, Hi.
  - by rewrite list_lookup_fmap, Hj, Hid.
Qed.

Lemma exTree_reachable : tree_reachable "r" exTree.
Proof.
  eapply reach_add; [exact exTree0_reachable| |exact exTree_run]. by apply deliverableb_spec.
Qed.

(** ** The theorems at this tree *)

Lemma tree_add_total_witness :
  exists mode added t', Add [exW] exTree = (t', Ok (mode, added)) /\ t_unAttached t' = ∅.
Proof.
  destruct (tree_add_total "r" exTree [exW] exTree_reachable (deliverableb_spec [exW] eq_refl))
    as (mode & added & t' & Hrun & Hun & _). eauto.
Defined.

Lemma tree_iteration_witness :
  iterOrder (t_attached exTree) (Some "r") = ["r"; "x"; "y"; "z"] /\
  NoDup (iterOrder (t_attached exTree) (Some "r")).
Proof. split; [vm_compute; reflexivity|]. apply (tree_iteration "r" exTree exTree_reachable). Defined.

(** The same tree, one change at a time. *)
Definition exTree1 : Tree := addTo [exY] exTree0.
Definition exTree2 : Tree := addTo [exX] exTree1.
Definition exTree3 : Tree := addTo [exZ] exTree2.

Lemma addTo_reachable cs t :
  tree_reachable "r" t -> deliverableb cs = true -> tree_reachable "r" (addTo cs t).
Proof.
  intros Hr Hcs%deliverableb_spec.
  destruct (Add_call "r" cs t (reachable_ok _ _ Hr) Hcs) as (t1 & mode & added & t' & Hcall).
  pose proof (ca_run _ _ _ _ _ _ _ Hcall) as Hrun. unfold addTo. rewrite Hrun. by eapply reach_add.
Qed.

Lemma exTree3_reachable : tree_reachable "r" exTree3.
Proof. repeat (apply addTo_reachable; [|done]). apply exTree0_reachable. Qed.

Lemma same_changes_fmap (m m' : changes) :
  ch_PreviousIds <$> m = ch_PreviousIds <$> m' -> same_changes m m'.
Proof.
  intros Heq. assert (forall x, ch_PreviousIds <$> m !! x = ch_PreviousIds <$> m' !! x) as Hx.
  { intros x. by rewrite <- !lookup_fmap, Heq. }
  split.
  - intros x. specialize (Hx x). destruct (m !! x), (m' !! x); simpl in Hx; try done; naive_solver.
  - intros x c c' Hc Hc'. specialize (Hx x). rewrite Hc, Hc' in Hx. by injection Hx as ->.
Qed.

Lemma tree_converges_witness :
  iterOrder (t_attached exTree) (Some "r") = iterOrder (t_attached exTree3) (Some "r") /\
  t_headIds exTree = t_headIds exTree3.
Proof.
  destruct (tree_converges "r" exTree exTree3 exTree_reachable exTree3_reachable) as (H1 & H2 & _).
  - apply same_changes_fmap. vm_compute. reflexivity.
  - split; [exact H1|exact H2].
Defined.

Lemma snapshots_in_tree (m : changes) cs :
  forallb (fun c => bool_decide (is_Some (m !! ch_SnapshotId c))) cs = true -> snapshots_below m cs.
Proof.
  intros Hall c Hc. left. rewrite forallb_forall in Hall. apply list_elem_of_In, Hall in Hc.
  by apply bool_decide_eq_true in Hc.
Qed.

Lemma tree_add_attaches_witness :
  is_Some (t_attached exTree !! "z") <-> attachable (t_attached exTree0) [exZ; exX; exY] "z".
Proof.
  apply (tree_add_attaches "r" exTree0 [exZ; exX; exY] Append ["x"; "y"; "z"] exTree).
  - exact exTree0_reachable.
  - by apply deliverableb_spec.
  - apply snapshots_in_tree. vm_compute. reflexivity.
  - exact exTree_run.
Defined.

Lemma exTree_run' :
  Add [exY; exZ; exX] exTree0 = (addTo [exY; exZ; exX] exTree0, Ok (Append, ["y"; "x"; "z"])).
Proof. vm_compute. reflexivity. Qed.

Lemma tree_delivery_order_witness :
  t_headIds exTree = t_headIds (addTo [exY; exZ; exX] exTree0) /\ t_headIds exTree = ["z"].
Proof.
  split; [|vm_compute; reflexivity].
  apply (tree_delivery_order "r" exTree0 [exZ; exX; exY] [exY; exZ; exX] Append Append
    ["x"; "y"; "z"] ["y"; "x"; "z"]).
  - exact exTree0_reachable.
  - by apply deliverableb_spec.
  - apply snapshots_in_tree. vm_compute. reflexivity.
  - apply (Permutation_app_comm [exZ; exX] [exY]).
  - exact exTree_run.
  - exact exTree_run'.
Defined.

(** A change next to those already there: the order of the others stays. *)
Definition exV := exChange "v" ["r"].
Lemma exTreeV_run : Add [exV] exTree = (addTo [exV] exTree, Ok (Rebuild, ["v"])).
Proof. vm_compute. reflexivity. Qed.

Lemma tree_order_stable_witness :
  iterOrder (t_attached (addTo [exV] exTree)) (Some "r") = ["r"; "v"; "x"; "y"; "z"] /\
  filter (fun x => is_Some (t_attached exTree !! x))
    (iterOrder (t_attached (addTo [exV] exTree)) (Some "r")) = iterOrder (t_attached exTree) (Some "r").
Proof.
  split; [vm_compute; reflexivity|].
  apply (tree_order_stable "r" exTree [exV] Rebuild ["v"] (addTo [exV] exTree)).
  - exact exTree_reachable.
  - by apply deliverableb_spec.
  - exact exTreeV_run.
Defined.

Lemma tree_append_mode_witness :
  exists l, iterOrder (t_attached exTree) (Some "r") =
      (iterOrder (t_attached exTree0) (Some "r") ++ l)%list /\
    l ≡ₚ ["x"; "y"; "z"].
Proof.
  apply (tree_append_mode "r" exTree0 [exZ; exX; exY] ["x"; "y"; "z"] exTree).
  - exact exTree0_reachable.
  - by apply deliverableb_spec.
  - exact exTree_run.
Defined.

(** A change that names no predecessor is attached, but nothing leads to it: the iteration
    does not visit it and it is not a head. *)
Definition exOrphan : Change := exChange "o" [].

Theorem tree_orphan_unvisited :
  exists t mode added, Add [exOrphan] exTree = (t, Ok (mode, added)) /\ "o" ∈ added /\ is_Some (t_attached t !! "o") /\
    iterOrder (t_attached t) (Some "r") = ["r"; "x"; "y"; "z"] /\ t_headIds t = ["z"].
Proof.
  eexists _, _, _. split; [vm_compute; reflexivity|]. split_and!; [by left|by eexists|vm_compute; reflexivity..].
Qed.
