(* ===== verification/TreeDfs.v ===== *)
(** The depth-first markings of the tree and of the load iterator visit exactly what can
    be reached. *)

From Stdlib Require Import ZArith Lia String.
From stdpp Require Import base option list gmap strings relations.
From S2P Require Import Prelude Crypto TreeModels Tree TreeOrder TreeMain.

Section dfs.
Variables (m : changes) (next : string -> list string).
Hypothesis Hnext : forall x, m !! x = None -> next x = [].

Lemma dfsLoop_total fuel stack visited :
  todo m next visited + length stack <= fuel -> exists vs, dfsLoop next fuel stack visited = Some vs.
Proof.
  revert stack visited. induction fuel as [|fuel IH]; intros [|x stack] visited Hf; simpl in *.
  1, 3: by eexists.
  - lia.
  - case_decide as Hx; [apply IH; lia|]. apply IH. rewrite length_app, length_rev.
    destruct (m !! x) as [c|] eqn:Hm.
    + rewrite (todo_discover m next visited x) in Hf; [|by eexists|done].
      pose proof (length_filter (fun n => n ∉ {[x]} ∪ visited) (next x)). lia.
    + rewrite (Hnext x Hm). simpl.
      assert (todo m next ({[x]} ∪ visited) = todo m next visited) as ->; [|lia].
      unfold todo. f_equal. apply map_eq. intros y. apply option_eq. intros c.
      rewrite !map_lookup_filter_Some. simpl. split; [set_solver|]. intros [Hy Hv]. split; [done|].
      intros [->%elem_of_singleton|?]%elem_of_union; [congruence|done].
Qed.

(** What was visited is closed under [next]. *)
Lemma dfsLoop_closed fuel stack visited vs :
  (forall x y, x ∈ visited -> y ∈ next x -> y ∈ visited \/ y ∈ stack) ->
  dfsLoop next fuel stack visited = Some vs ->
  visited ⊆ vs /\ (forall x, x ∈ stack -> x ∈ vs) /\ forall x y, x ∈ vs -> y ∈ next x -> y ∈ vs.
Proof.
  revert stack visited. induction fuel as [|fuel IH]; intros [|x stack] visited Hinv Hd; simpl in Hd.
  1, 3: injection Hd as <-; split_and!; [done|by intros ? []%not_elem_of_nil|];
    intros u v Hu Hv; by destruct (Hinv u v Hu Hv) as [|[]%not_elem_of_nil].
  - done.
  - case_decide as Hx.
    + destruct (IH stack visited) as (Hsub & Hst & Hcl); [|done|].
      { intros u v Hu Hv. destruct (Hinv u v Hu Hv) as [|[->|]%elem_of_cons]; auto. }
      split_and!; [done| |done]. intros y [->|Hy]%elem_of_cons; [by apply Hsub|by apply Hst].
    + apply IH in Hd as (Hsub & Hst & Hcl).
      * split_and!; [set_solver| |done]. intros y [->|Hy]%elem_of_cons; [set_solver|].
        apply Hst. rewrite elem_of_app. by right.
      * intros u v Hu Hv. destruct (decide (v ∈ ({[x]} ∪ visited : gset string))) as [|Hnv]; [by left|right].
        rewrite elem_of_app, elem_of_rev, list_elem_of_filter.
        apply elem_of_union in Hu as [->%elem_of_singleton|Hu]; [by left|].
        destruct (Hinv u v Hu Hv) as [|[->|]%elem_of_cons]; [set_solver|set_solver|by right].
Qed.

Lemma dfsLoop_reaches stack vs fuel :
  dfsLoop next fuel stack ∅ = Some vs ->
  forall y, y ∈ vs <-> exists x, x ∈ stack /\ rtc (fun x y => y ∈ next x) x y.
Proof.
  intros Hd y. split.
  - revert y. apply (dfsLoop_reach next (fun y => exists x, x ∈ stack /\ rtc (fun x y => y ∈ next x) x y)
      fuel stack ∅ vs); [| |done|done].
    + intros u v (x & Hx & Hr) Hv. exists x. split; [done|]. by eapply rtc_r.
    + apply Forall_forall. intros x Hx. by exists x.
  - destruct (dfsLoop_closed fuel stack ∅ vs ltac:(set_solver) Hd) as (_ & Hst & Hcl).
    intros (x & Hx & Hr). apply Hst in Hx. clear Hd Hst. revert Hx. induction Hr as [|x z y Hxz _ IH]; [done|].
    intros Hx. apply IH. by eapply Hcl.
Qed.

Lemma todo_edges : todo m next ∅ = edges m next.
Proof. unfold todo. f_equal. apply map_filter_id. intros. set_solver. Qed.

Lemma dfsLoop_spec stack :
  exists vs, dfsLoop next (edges m next + length stack) stack ∅ = Some vs /\
    forall y, y ∈ vs <-> exists x, x ∈ stack /\ rtc (fun x y => y ∈ next x) x y.
Proof.
  destruct (dfsLoop_total (edges m next + length stack) stack ∅) as [vs Hvs]; [rewrite todo_edges; lia|].
  exists vs. split; [done|]. by eapply dfsLoop_reaches.
Qed.
End dfs.
