(* ===== verification/ChangeBuilder.v ===== *)
(** Building and reading changes (src/commonspace/object/tree/objecttree: changebuilder.go,
    change.go): a change is signed, wrapped and named by the hash of its bytes, and read
    back with the id and the signature checked.  Generated protobuf code is the class
    [TreeCodec]; signing and sealing are the class [SealPrims]. *)

From Stdlib Require Import ZArith Lia String.
From stdpp Require Import base option list gmap strings.
From S2P Require Import Prelude Crypto AclModels AclState AclValidator AclApply AclStorage AclKeep.
From S2P Require Import AclList TreeModels.

Local Open Scope Z_scope.

Class TreeCodec := {
  RawTreeChange_MarshalVT : RawTreeChange -> res bytes;
  RawTreeChange_UnmarshalVT : bytes -> res RawTreeChange;
  RootChange_MarshalVT : RootChange -> res bytes;
  RootChange_UnmarshalVT : bytes -> res RootChange;
  TreeChange_MarshalVT : TreeChange -> res bytes;
  TreeChange_UnmarshalVT : bytes -> res TreeChange;
  NoDataTreeChange_UnmarshalVT : bytes -> res NoDataTreeChange;
  ReducedTreeChange_UnmarshalVT : bytes -> res ReducedTreeChange;
  (** TreeChangeInfo: the change type and payload *)
  TreeChangeInfo_MarshalVT : string -> bytes -> res bytes;
}.

Class SealPrims := {
  (** crypto/ed25519 [NewKeyFromSeed]: the public key of a 32-byte seed *)
  ed25519_Public : bytes -> bytes;
  (** crypto/ed25519 [Sign(privateKey, message)] *)
  ed25519_Sign : bytes -> bytes -> bytes;
  (** AES-256-GCM [Seal(nonce, plaintext)] under a 32-byte key *)
  gcm_Seal : bytes -> bytes -> bytes -> bytes;
}.

Definition ErrIncorrectSignature := GoError "change has incorrect signature".
Definition ErrIncorrectCid := GoError "change has incorrect CID".
Definition ErrEmptyChange := GoError "change payload should not be empty".
Definition ErrMissingEncryptKey := GoError "encrypted change requires a read key".

Section seal.
Context `{CryptoPrims} `{SealPrims}.

(** util/crypto: [Ed25519PrivKey.Sign], [AESKey.Encrypt] with the nonce it drew. *)
Definition PrivKey_Sign (k : PrivKey) (msg : bytes) : res bytes := Ok (ed25519_Sign (privKey k) msg).
Definition SymKey_EncryptWith (nonce : bytes) (k : SymKey) (plaintext : bytes) : res bytes :=
  let ciphertext := gcm_Seal (String.substring 0 KeyBytes (symRaw k)) nonce plaintext in
  Ok (nonce ++ ciphertext)%string.
End seal.

(** ** Contents *)

Record BuilderContent := mkBuilderContent {
  bc_TreeHeadIds : list string;
  bc_AclHeadId : string;
  bc_SnapshotBaseId : string;
  bc_ReadKeyId : string;
  bc_IsSnapshot : bool;
  bc_Unencrypted : bool;
  bc_PrivKey : PrivKey;
  bc_ReadKey : option SymKey;
  bc_Content : bytes;
  bc_Timestamp : Z;
  bc_DataType : string;
}.

Record InitialContent := mkInitialContent {
  ic_AclHeadId : string;
  ic_PrivKey : PrivKey;
  ic_SpaceId : string;
  ic_Seed : bytes;
  ic_ChangeType : string;
  ic_ChangePayload : bytes;
  ic_Timestamp : Z;
}.

Record InitialDerivedContent := mkInitialDerivedContent {
  idc_SpaceId : string;
  idc_ChangeType : string;
  idc_ChangePayload : bytes;
  idc_ParentId : string;
}.

(** The builder; its reused message buffer and its key cache are transparent. *)
Record changeBuilder := mkChangeBuilder {
  cb_rootChange : option RawTreeChangeWithId;
  cb_hasData : bool;
  (** wrapped into a [nonVerifiableChangeBuilder] *)
  cb_nonVerifiable : bool;
}.

Definition NewChangeBuilder (root : option RawTreeChangeWithId) : changeBuilder :=
  mkChangeBuilder root true false.
Definition NewEmptyDataChangeBuilder (root : option RawTreeChangeWithId) : changeBuilder :=
  mkChangeBuilder root false false.

Section builder.
Context `{CryptoPrims} `{SealPrims} `{ListCodec} `{TreeCodec}.
Implicit Types (c : changeBuilder) (raw : RawTreeChange) (id : string).

Definition cb_isRoot c id : bool :=
  match cb_rootChange c with Some root => bool_decide (rtc_Id root = id) | None => false end.

Definition NewChangeFromRoot id (identity : option PubKey) (ch : RootChange)
    (signature : option bytes) (isDerived : bool) : Change :=
  let data := match TreeChangeInfo_MarshalVT (rc_ChangeType ch) (rc_ChangePayload ch) with
              | Ok data => Some data
              | Err _ => None
              end in
  mkChange id [] "" true
    (mkChangeInfo (rc_AclHeadId ch) (rc_Timestamp ch) "" identity data signature "" isDerived false
       (rc_ParentId ch) 0 None)
    "" 0 [] [].

(** ** Reading *)

Definition unmarshallRoot raw id : res Change :=
  unmarshalled ← RootChange_UnmarshalVT (rt_Payload raw);
  key ← (if rc_IsDerived unmarshalled then Ok None
         else key ← UnmarshalEd25519PublicKeyProto (rc_Identity unmarshalled); Ok (Some key));
  Ok (NewChangeFromRoot id key unmarshalled (rt_Signature raw) (rc_IsDerived unmarshalled)).

Definition unmarshallRawChange c raw id : res Change :=
  if cb_isRoot c id then unmarshallRoot raw id
  else if cb_hasData c then
    change ← TreeChange_UnmarshalVT (rt_Payload raw);
    key ← UnmarshalEd25519PublicKeyProto (tc_Identity change);
    Ok (mkChange id (tc_TreeHeadIds change) (tc_SnapshotBaseId change) (tc_IsSnapshot change)
          (mkChangeInfo (tc_AclHeadId change) (tc_Timestamp change) (tc_ReadKeyId change) (Some key)
             (tc_ChangesData change) (rt_Signature raw) (tc_DataType change) false false "" 0 None)
          "" 0 [] [])
  else
    change ← NoDataTreeChange_UnmarshalVT (rt_Payload raw);
    key ← UnmarshalEd25519PublicKeyProto (nd_Identity change);
    Ok (mkChange id (nd_TreeHeadIds change) (nd_SnapshotBaseId change) (nd_IsSnapshot change)
          (mkChangeInfo (nd_AclHeadId change) (nd_Timestamp change) (nd_ReadKeyId change) (Some key)
             None (rt_Signature raw) (nd_DataType change) false false "" 0 None)
          "" 0 [] []).

(** [ch.Identity.Verify]: an identity is nil only in derived roots. *)
Definition verifySignature (ch : Change) raw : res unit :=
  match ci_Identity (ch_Info ch) with
  | None => Err (GoPanic "nil PubKey")
  | Some key =>
      res ← PubKey_Verify key (rt_Payload raw) (default "" (rt_Signature raw));
      fail_if (negb res) ErrIncorrectSignature
  end.

Definition cb_Unmarshall c (rawIdChange : RawTreeChangeWithId) (verify : bool) : res Change :=
  let verify := verify && negb (cb_nonVerifiable c) in
  rawChange ← opt_or (rtc_RawChange rawIdChange) ErrEmptyChange;
  fail_if (verify && negb (VerifyCid rawChange (rtc_Id rawIdChange))) ErrIncorrectCid ;;
  raw ← RawTreeChange_UnmarshalVT rawChange;
  ch ← unmarshallRawChange c raw (rtc_Id rawIdChange);
  (if verify && negb (ci_IsDerived (ch_Info ch)) then verifySignature ch raw else Ok tt) ;;
  Ok ch.

Definition unmarshallReducedRawChange c raw id : res Change :=
  if cb_isRoot c id then unmarshallRoot raw id
  else
    unmarshalled ← ReducedTreeChange_UnmarshalVT (rt_Payload raw);
    Ok (mkChange id (rd_TreeHeadIds unmarshalled) "" false zeroInfo "" 0 [] []).

Definition cb_UnmarshallReduced c (rawIdChange : RawTreeChangeWithId) : res Change :=
  rawChange ← opt_or (rtc_RawChange rawIdChange) ErrEmptyChange;
  raw ← RawTreeChange_UnmarshalVT rawChange;
  unmarshallReducedRawChange c raw (rtc_Id rawIdChange).

(** [UnmarshallRoot] of a raw root *)
Definition cb_UnmarshallRoot (rawRoot : RawTreeChangeWithId) : res RootChange :=
  raw ← RawTreeChange_UnmarshalVT (default "" (rtc_RawChange rawRoot));
  RootChange_UnmarshalVT (rt_Payload raw).

(** [IsDerivedRoot] *)
Definition IsDerivedRoot (root : RawTreeChangeWithId) : res bool :=
  rawChange ← RawTreeChange_UnmarshalVT (default "" (rtc_RawChange root));
  Ok (bool_decide (rt_Signature rawChange = None)).

(** ** Building *)

(** Sign, wrap and name a marshalled message. *)
Definition wrapSigned (key : PrivKey) (marshalledChange : bytes) : res (bytes * string * bytes) :=
  signature ← PrivKey_Sign key marshalledChange;
  marshalledRawChange ← RawTreeChange_MarshalVT (mkRawTreeChange marshalledChange (Some signature));
  id ← NewCidFromBytes marshalledRawChange;
  Ok (marshalledRawChange, id, signature).

Definition BuildRoot (payload : InitialContent) : res (Change * RawTreeChangeWithId) :=
  identity ← PubKey_Marshall (GetPublic (ic_PrivKey payload));
  let change := mkRootChange (ic_AclHeadId payload) (ic_SpaceId payload) (ic_ChangeType payload)
    (ic_Timestamp payload) (ic_Seed payload) identity (ic_ChangePayload payload) false "" in
  marshalledChange ← RootChange_MarshalVT change;
  '(marshalledRawChange, id, signature) ← wrapSigned (ic_PrivKey payload) marshalledChange;
  Ok (NewChangeFromRoot id (Some (GetPublic (ic_PrivKey payload))) change (Some signature) false,
      mkRawTreeChangeWithId (Some marshalledRawChange) id).

Definition BuildDerivedRoot (payload : InitialDerivedContent) : res (Change * RawTreeChangeWithId) :=
  let change := mkRootChange "" (idc_SpaceId payload) (idc_ChangeType payload) 0 "" ""
    (idc_ChangePayload payload) true (idc_ParentId payload) in
  marshalledChange ← RootChange_MarshalVT change;
  marshalledRawChange ← RawTreeChange_MarshalVT (mkRawTreeChange marshalledChange None);
  id ← NewCidFromBytes marshalledRawChange;
  Ok (NewChangeFromRoot id None change None true,
      mkRawTreeChangeWithId (Some marshalledRawChange) id).

(** The nonce is the one the encryption draws. *)
Definition Build_ (nonce : bytes) (payload : BuilderContent) : res (Change * RawTreeChangeWithId) :=
  identity ← PubKey_Marshall (GetPublic (bc_PrivKey payload));
  data ← (if bc_Unencrypted payload then Ok (bc_Content payload)
          else
            readKey ← opt_or (bc_ReadKey payload) ErrMissingEncryptKey;
            SymKey_EncryptWith nonce readKey (bc_Content payload));
  let change := mkTreeChange (bc_TreeHeadIds payload) (bc_AclHeadId payload)
    (bc_SnapshotBaseId payload) (Some data) (bc_ReadKeyId payload) (bc_Timestamp payload) identity
    (bc_IsSnapshot payload) (bc_DataType payload) in
  marshalledChange ← TreeChange_MarshalVT change;
  '(marshalledRawChange, id, signature) ← wrapSigned (bc_PrivKey payload) marshalledChange;
  Ok (mkChange id (tc_TreeHeadIds change) (tc_SnapshotBaseId change) (tc_IsSnapshot change)
        (mkChangeInfo (tc_AclHeadId change) (tc_Timestamp change) (tc_ReadKeyId change)
           (Some (GetPublic (bc_PrivKey payload))) (tc_ChangesData change) (Some signature)
           (tc_DataType change) false false "" 0 None)
        "" 0 [] [],
      mkRawTreeChangeWithId (Some marshalledRawChange) id).

(** The raw form of a change that was read. *)
Definition cb_Marshall c (ch : Change) : res RawTreeChangeWithId :=
  if cb_isRoot c (ch_Id ch) then opt_or (cb_rootChange c) (GoPanic "nil rootChange")
  else
    key ← opt_or (ci_Identity (ch_Info ch)) (GoPanic "nil PubKey");
    identity ← PubKey_Marshall key;
    marshalled ← TreeChange_MarshalVT (mkTreeChange (ch_PreviousIds ch) (ci_AclHeadId (ch_Info ch))
      (ch_SnapshotId ch) (ci_Data (ch_Info ch)) (ci_ReadKeyId (ch_Info ch)) (ci_Timestamp (ch_Info ch))
      identity (ch_IsSnapshot ch) (ci_DataType (ch_Info ch)));
    marshalledRawChange ← RawTreeChange_MarshalVT (mkRawTreeChange marshalled (ci_Signature (ch_Info ch)));
    Ok (mkRawTreeChangeWithId (Some marshalledRawChange) (ch_Id ch)).
End builder.

(** ** What the primitives promise *)

(** An empty bytes field is left out of the encoding and read back as nil. *)
Class TreeCodecLaws `{TreeCodec} := {
  RawTreeChange_law m b : rt_Signature m <> Some "" ->
    RawTreeChange_MarshalVT m = Ok b -> RawTreeChange_UnmarshalVT b = Ok m;
  RootChange_law m b : RootChange_MarshalVT m = Ok b -> RootChange_UnmarshalVT b = Ok m;
  TreeChange_law m b : tc_ChangesData m <> Some "" ->
    TreeChange_MarshalVT m = Ok b -> TreeChange_UnmarshalVT b = Ok m;
  (** the shorter messages leave fields out and keep the numbers of the others *)
  NoData_law b m : TreeChange_UnmarshalVT b = Ok m -> NoDataTreeChange_UnmarshalVT b =
    Ok (mkNoDataTreeChange (tc_TreeHeadIds m) (tc_AclHeadId m) (tc_SnapshotBaseId m) (tc_ReadKeyId m)
          (tc_Timestamp m) (tc_Identity m) (tc_IsSnapshot m) (tc_DataType m));
  Reduced_law b m : TreeChange_UnmarshalVT b = Ok m ->
    ReducedTreeChange_UnmarshalVT b = Ok (mkReducedTreeChange (tc_TreeHeadIds m));
}.

(** A private key as [GenerateKey] makes it: a seed followed by its public key. *)
Definition genuine `{SealPrims} (k : PrivKey) : Prop :=
  String.length (privKey k) = 64%nat /\
  pubKey (GetPublic k) = ed25519_Public (String.substring 0 32 (privKey k)).

Class SealLaws `{CryptoPrims} `{SealPrims} := {
  (** a key pair signs what its public half verifies *)
  Sign_law k msg : genuine k ->
    ed25519_Verify (pubKey (GetPublic k)) msg (ed25519_Sign (privKey k) msg) = true;
  Sign_nonempty k msg : String.length k = 64%nat -> ed25519_Sign k msg <> "";
  Seal_law key nonce msg : gcm_Open key nonce (gcm_Seal key nonce msg) = Ok msg;
  Key_law ty data : 0 <= ty <= 2 -> Key_UnmarshalVT (Key_MarshalVT ty data) = Ok (ty, data);
  (** the empty message has the zero type and no data *)
  Key_empty : Key_UnmarshalVT "" = Ok (KeyType_Ed25519Public, ""%string);
}.
