(* ===== verification/ToyCodec.v ===== *)
(** Concrete encodings for running the model: a self-delimiting serialisation of
    strings, integers, lists and tuples, and with it an instance of the codec and of the
    sealing primitives of trees, with their laws. *)

From Stdlib Require Import ZArith Lia String Ascii.
From stdpp Require Import base option list gmap strings countable.
From S2P Require Import Prelude Crypto AclModels AclState AclValidator AclApply AclSpec AclRefine.
From S2P Require Import AclExample AclStorage AclKeep AclList TreeModels ChangeBuilder.

Local Open Scope Z_scope.
Local Open Scope string_scope.

(** ** Serialisation *)

Class Ser (A : Type) := {
  ser : A -> string;
  des : string -> option (A * string);
  ser_law a r : des (ser a ++ r) = Some (a, r);
}.

Fixpoint ser_nat (n : nat) : string := match n with O => "." | S n => String "1" (ser_nat n) end.
Fixpoint des_nat (s : string) : option (nat * string) :=
  match s with
  | EmptyString => None
  | String c s => if Ascii.eqb c "." then Some (0%nat, s) else '(n, r) ← des_nat s; Some (S n, r)
  end.
Lemma ser_nat_law n r : des_nat (ser_nat n ++ r) = Some (n, r).
Proof. induction n as [|n IH]; simpl; [done|]. by rewrite IH. Qed.
#[global] Instance nat_ser : Ser nat := {| ser := ser_nat; des := des_nat; ser_law := ser_nat_law |}.

Fixpoint takeChars (n : nat) (s : string) : option (string * string) :=
  match n, s with
  | O, _ => Some (EmptyString, s)
  | S n, String c s => '(a, r) ← takeChars n s; Some (String c a, r)
  | S _, EmptyString => None
  end.
Lemma takeChars_app a r : takeChars (String.length a) (a ++ r) = Some (a, r).
Proof. induction a as [|c a IH]; simpl; [done|]. by rewrite IH. Qed.
Lemma append_assoc_str (a b c : string) : (a ++ b) ++ c = a ++ (b ++ c).
Proof. induction a as [|x a IH]; [done|]. exact (f_equal (String x) IH). Qed.

#[global] Program Instance string_ser : Ser string := {|
  ser a := ser (String.length a) ++ a;
  des s := '(n, r) ← des s; takeChars n r;
|}.
Next Obligation.
  intros a r. simpl. rewrite append_assoc_str, ser_nat_law. apply takeChars_app.
Qed.

#[global] Program Instance pair_ser {A B} `{Ser A} `{Ser B} : Ser (A * B) := {|
  ser ab := ser ab.1 ++ ser ab.2;
  des s := '(a, r) ← des s; '(b, r) ← des r; Some ((a, b), r);
|}.
Next Obligation.
  intros A B ? ? [a b] r. simpl. rewrite append_assoc_str, ser_law. simpl. by rewrite ser_law.
Qed.

Fixpoint des_list {A} `{Ser A} (n : nat) (s : string) : option (list A * string) :=
  match n with
  | O => Some ([], s)
  | S n => '(a, r) ← des s; '(l, r) ← des_list n r; Some (a :: l, r)
  end.
#[global] Program Instance list_ser {A} `{Ser A} : Ser (list A) := {|
  ser l := ser (length l) ++ foldr (fun a s => ser a ++ s) "" l;
  des s := '(n, r) ← des s; des_list n r;
|}.
Next Obligation.
  intros A ? l r. simpl. rewrite append_assoc_str, ser_nat_law. simpl.
  induction l as [|a l IH]; simpl; [done|]. rewrite append_assoc_str, ser_law. simpl. by rewrite IH.
Qed.

#[global] Program Instance option_ser {A} `{Ser A} : Ser (option A) := {|
  ser o := match o with None => "n" | Some a => String "s" (ser a) end;
  des s := match s with
           | String c s => if Ascii.eqb c "n" then Some (None, s) else '(a, r) ← des s; Some (Some a, r)
           | EmptyString => None
           end;
|}.
Next Obligation. intros A ? [a|] r; simpl; [|done]. by rewrite ser_law. Qed.

(** Any countable type, through its positive number. *)
Fixpoint bits (p : positive) : list bool :=
  match p with xH => [] | xO p => false :: bits p | xI p => true :: bits p end.
Fixpoint unbits (l : list bool) : positive :=
  match l with [] => xH | false :: l => xO (unbits l) | true :: l => xI (unbits l) end.
Lemma unbits_bits p : unbits (bits p) = p.
Proof. induction p as [p IH|p IH|]; simpl; [by rewrite IH..|done]. Qed.

#[global] Program Instance bool_ser : Ser bool := {|
  ser b := if b then "t" else "f";
  des s := match s with String c s => Some (Ascii.eqb c "t", s) | EmptyString => None end;
|}.
Next Obligation. by intros [] r. Qed.

Definition ser_Z (z : Z) : string := ser (bits (encode z)).
Definition des_Z (s : string) : option (Z * string) :=
  '(l, r) ← (des s : option (list bool * string)); z ← decode (unbits l); Some (z, r).
Lemma ser_Z_law z r : des_Z (ser_Z z ++ r) = Some (z, r).
Proof.
  unfold des_Z, ser_Z. rewrite ser_law. unfold mbind at 1, option_bind at 1. rewrite unbits_bits.
  by rewrite decode_encode.
Qed.
#[global] Instance Z_ser : Ser Z := {| ser := ser_Z; des := des_Z; ser_law := ser_Z_law |}.

Lemma append_nil_r_str (s : string) : s ++ "" = s.
Proof. induction s as [|x s IH]; [done|]. exact (f_equal (String x) IH). Qed.

(** A message is the serialisation of the tuple of its fields. *)
Definition message {A} `{Ser A} {M} (mk : A -> M) (s : string) : res M :=
  match des s with
  | Some (a, "") => Ok (mk a)
  | _ => Err (GoError "unexpected EOF")
  end.

Lemma message_law {A} `{Ser A} {M} (mk : A -> M) a : message mk (ser a) = Ok (mk a).
Proof.
  unfold message. rewrite <- (append_nil_r_str (ser a)). by rewrite ser_law.
Qed.

(** ** Trees *)

(** [nonEmpty]: an empty optional field is not written. *)
Definition nonEmpty (o : option bytes) : option bytes := if decide (o = Some "") then None else o.

Definition ser_raw (m : RawTreeChange) : string := ser (rt_Payload m, nonEmpty (rt_Signature m)).
Definition ser_root (m : RootChange) : string :=
  ser (rc_AclHeadId m, rc_SpaceId m, rc_ChangeType m, rc_Timestamp m, rc_Seed m, rc_Identity m,
       rc_ChangePayload m, rc_IsDerived m, rc_ParentId m).
Definition ser_change (m : TreeChange) : string :=
  ser (tc_TreeHeadIds m, tc_AclHeadId m, tc_SnapshotBaseId m, nonEmpty (tc_ChangesData m), tc_ReadKeyId m,
       tc_Timestamp m, tc_Identity m, tc_IsSnapshot m, tc_DataType m).

Definition des_raw : string -> res RawTreeChange := message (fun '(p, s) => mkRawTreeChange p s).
Definition des_root : string -> res RootChange :=
  message (fun '(a, s, t, n, d, i, p, x, y) => mkRootChange a s t n d i p x y).
Definition des_change : string -> res TreeChange :=
  message (fun '(h, a, s, d, r, t, i, x, y) => mkTreeChange h a s d r t i x y).

Definition toyTreeCodec : TreeCodec := {|
  RawTreeChange_MarshalVT := fun m => Ok (ser_raw m);
  RawTreeChange_UnmarshalVT := des_raw;
  RootChange_MarshalVT := fun m => Ok (ser_root m);
  RootChange_UnmarshalVT := des_root;
  TreeChange_MarshalVT := fun m => Ok (ser_change m);
  TreeChange_UnmarshalVT := des_change;
  NoDataTreeChange_UnmarshalVT := fun b =>
    m ← des_change b;
    Ok (mkNoDataTreeChange (tc_TreeHeadIds m) (tc_AclHeadId m) (tc_SnapshotBaseId m) (tc_ReadKeyId m)
          (tc_Timestamp m) (tc_Identity m) (tc_IsSnapshot m) (tc_DataType m));
  ReducedTreeChange_UnmarshalVT := fun b => m ← des_change b; Ok (mkReducedTreeChange (tc_TreeHeadIds m));
  TreeChangeInfo_MarshalVT := fun t p => Ok (ser (t, p));
|}.

(** A signature is the public key and the message, a sealed text the key and the text. *)
Definition toySeal : SealPrims := {|
  ed25519_Public := fun seed => seed;
  ed25519_Sign := fun k msg => substring 32 32 k ++ msg;
  gcm_Seal := fun key nonce msg => key ++ msg;
|}.

#[global] Existing Instances toyTreeCodec toySeal.

#[global] Instance toyTreeCodec_laws : TreeCodecLaws.
Proof.
  split.
  - intros [p s] b Hs [= <-]. simpl in Hs. unfold RawTreeChange_UnmarshalVT, toyTreeCodec, ser_raw, des_raw.
    simpl rt_Payload. simpl rt_Signature. unfold nonEmpty. rewrite decide_False by done. by rewrite message_law.
  - intros [] b [= <-]. unfold RootChange_UnmarshalVT, toyTreeCodec, ser_root, des_root. by rewrite message_law.
  - intros [h a s d r t i x y] b Hs [= <-]. simpl in Hs. unfold TreeChange_UnmarshalVT, toyTreeCodec, ser_change, des_change.
    simpl tc_ChangesData. unfold nonEmpty. rewrite decide_False by done. by rewrite message_law.
  - intros b m Hm. simpl in *. by rewrite Hm.
  - intros b m Hm. simpl in *. by rewrite Hm.
Qed.

Lemma strip_app p s : strip p (p ++ s) = Some s.
Proof. induction p as [|a p IH]; simpl; [done|]. by rewrite Ascii.eqb_refl. Qed.

Lemma substring_length i n s : (i + n <= String.length s)%nat -> String.length (substring i n s) = n.
Proof.
  revert i n. induction s as [|a s IH]; intros [|i] [|n] Hl; simpl in *; try done; try lia.
  - by rewrite IH by lia.
  - apply (IH i 0%nat). lia.
  - apply (IH i (S n)). lia.
Qed.

#[global] Instance toySeal_laws : SealLaws.
Proof.
  split.
  - intros k msg _. by apply bool_decide_eq_true.
  - intros k msg Hk Hs. apply (f_equal String.length) in Hs.
    assert (String.length (substring 32 32 k) = 32%nat) as Hl by (apply substring_length; lia).
    simpl in Hs. destruct (substring 32 32 k); [simpl in Hl; lia|done].
  - intros key nonce msg. simpl. unfold toy_gcm_open. by rewrite strip_app.
  - intros ty data Hty. simpl. unfold toy_unmarshal, toy_marshal. rewrite nat_ascii_embedding by lia.
    by rewrite Z2Nat.id by lia.
  - done.
Qed.
