(* ===== verification/ChangeMain.v ===== *)
(** Changes: what was built is read back, what is read is authentic. *)

From Stdlib Require Import ZArith Lia String.
From stdpp Require Import base option list gmap strings.
From S2P Require Import Prelude Crypto AclModels AclState AclValidator AclApply AclStorage AclKeep.
From S2P Require Import AclList AclExample AclListSync TreeModels ChangeBuilder ToyCodec.

Local Open Scope Z_scope.

Section change.
Context `{CryptoPrims} `{SealPrims} `{ListCodec} `{TreeCodec} `{!SealLaws} `{!TreeCodecLaws}.
Implicit Types (c : changeBuilder) (ch : Change).

(** A key pair whose public half is a point of the curve. *)
Definition key_pair_ok (k : PrivKey) : Prop :=
  genuine k /\ UnmarshalEd25519PublicKey (pubKey (GetPublic k)) = Ok (GetPublic k).

Lemma identity_roundtrip k :
  key_pair_ok k ->
  exists b, PubKey_Marshall (GetPublic k) = Ok b /\ UnmarshalEd25519PublicKeyProto b = Ok (GetPublic k).
Proof.
  intros [_ Hk]. eexists. split; [done|]. unfold UnmarshalEd25519PublicKeyProto. rewrite Key_law by (unfold KeyType_Ed25519Public; lia). exact Hk.
Qed.

Lemma wrapSigned_reads k payload raw id sig :
  key_pair_ok k -> wrapSigned k payload = Ok (raw, id, sig) ->
  RawTreeChange_UnmarshalVT raw = Ok (mkRawTreeChange payload (Some sig)) /\ VerifyCid raw id = true /\
  PubKey_Verify (GetPublic k) payload sig = Ok true.
Proof.
  intros [[Hlen Hpub] _] Hw. unfold wrapSigned, PrivKey_Sign in Hw. go_inv. split_and!.
  - apply RawTreeChange_law; [|done]. simpl. intros [= Hs]. by apply (Sign_nonempty (privKey k) payload Hlen).
  - unfold VerifyCid. unfold NewCidFromBytes in *.
    match goal with Hc : sha256Cid _ = Ok _ |- _ => rewrite Hc end. by apply bool_decide_eq_true.
  - unfold PubKey_Verify. f_equal. by apply Sign_law.
Qed.

(** [Decrypt] opens what [Encrypt] sealed. *)
Lemma decrypt_encrypt nonce k msg data :
  String.length nonce = NonceBytes -> SymKey_EncryptWith nonce k msg = Ok data ->
  data <> "" /\ SymKey_Decrypt k data = Ok msg.
Proof.
  intros Hn [= <-]. set (x := gcm_Seal _ _ _). split.
  - intros Hx. apply (f_equal String.length) in Hx. rewrite length_append, Hn in Hx. done.
  - unfold SymKey_Decrypt. rewrite length_append, Hn. rewrite bool_decide_false by lia. simpl fail_if.
    unfold mbind at 1, res_bind. replace (NonceBytes + String.length x - NonceBytes)%nat with (String.length x) by lia.
    rewrite <- Hn, substring_prefix, substring_suffix. apply Seal_law.
Qed.

(** The change as a builder without data reads it. *)
Definition withoutData ch : Change :=
  let i := ch_Info ch in
  mkChange (ch_Id ch) (ch_PreviousIds ch) (ch_SnapshotId ch) (ch_IsSnapshot ch)
    (mkChangeInfo (ci_AclHeadId i) (ci_Timestamp i) (ci_ReadKeyId i) (ci_Identity i) None (ci_Signature i)
       (ci_DataType i) (ci_IsDerived i) (ci_IsNew i) (ci_ParentId i) (ci_AddSeq i) (ci_rawChange i))
    (ch_OrderId ch) (ch_SnapshotCounter ch) (ch_Next ch) (ch_Previous ch).

(** A change that was built is read back as it was built.  Every builder of the tree
    accepts its bytes with the id and the signature checked: one with data returns the
    very change, one without data the change less its data, the reduced reading its id and
    predecessors; and an encrypted change decrypts to the content under its read key. *)
Theorem change_build_roundtrip nonce payload ch raw c :
  key_pair_ok (bc_PrivKey payload) -> String.length nonce = NonceBytes ->
  (bc_Unencrypted payload = true -> bc_Content payload <> "") ->
  Build_ nonce payload = Ok (ch, raw) -> cb_isRoot c (ch_Id ch) = false ->
  cb_Unmarshall c raw true = Ok (if cb_hasData c then ch else withoutData ch) /\
  (exists red, cb_UnmarshallReduced c raw = Ok red /\ ch_Id red = ch_Id ch /\
     ch_PreviousIds red = bc_TreeHeadIds payload) /\
  match ci_Data (ch_Info ch) with
  | None => False
  | Some data =>
      if bc_Unencrypted payload then data = bc_Content payload
      else exists key, bc_ReadKey payload = Some key /\ SymKey_Decrypt key data = Ok (bc_Content payload)
  end.
Proof.
  intros Hk Hn Hne Hb Hroot. destruct (identity_roundtrip _ Hk) as (idb & Hid & Hidr).
  unfold Build_ in Hb. rewrite Hid in Hb. go_inv. destruct a2 as [[rawb id] sig]. injection Hb as <- <-.
  destruct (wrapSigned_reads _ _ _ _ _ Hk Hb3) as (Hraw & Hcid & [= Hver]).
  assert (a0 <> "" /\ if bc_Unencrypted payload then a0 = bc_Content payload
     else exists key, bc_ReadKey payload = Some key /\ SymKey_Decrypt key a0 = Ok (bc_Content payload)) as [Hd Hdec].
  { destruct (bc_Unencrypted payload); [injection Hb1 as <-; auto|].
    destruct (bc_ReadKey payload) as [key|]; [|done]. simpl in Hb1.
    destruct (decrypt_encrypt _ _ _ _ Hn Hb1). eauto. }
  apply TreeChange_law in Hb2; [|simpl; congruence].
  simpl in Hroot. split_and!; [| |done].
  - unfold cb_Unmarshall. simpl. rewrite Hcid, andb_false_r. simpl. rewrite Hraw. simpl.
    unfold unmarshallRawChange. rewrite Hroot.
    destruct (cb_hasData c); simpl; rewrite ?(NoData_law _ _ Hb2), ?Hb2; simpl; rewrite Hidr; simpl;
      (destruct (cb_nonVerifiable c); [done|]); simpl; unfold verifySignature; simpl; rewrite Hver; done.
  - eexists. unfold cb_UnmarshallReduced, unmarshallReducedRawChange. simpl. rewrite Hraw. simpl.
    rewrite Hroot, (Reduced_law _ _ Hb2). done.
Qed.

(** What reading with verification establishes. *)
Lemma Unmarshall_verified c r ch :
  cb_nonVerifiable c = false -> cb_Unmarshall c r true = Ok ch ->
  exists rawb raw, rtc_RawChange r = Some rawb /\ sha256Cid rawb = Ok (rtc_Id r) /\
    RawTreeChange_UnmarshalVT rawb = Ok raw /\ unmarshallRawChange c raw (rtc_Id r) = Ok ch /\
    (ci_IsDerived (ch_Info ch) = false -> exists key, ci_Identity (ch_Info ch) = Some key /\
       ed25519_Verify (pubKey key) (rt_Payload raw) (default "" (rt_Signature raw)) = true).
Proof.
  intros Hnv Hu. unfold cb_Unmarshall in Hu. rewrite Hnv in Hu. go_inv. eexists _, _. split_and!; [done| |done|done|].
  - match goal with Hv : _ && _ = false |- _ => rewrite andb_true_l in Hv; apply negb_false_iff in Hv; unfold VerifyCid in Hv end.
    destruct (sha256Cid a) as [i|]; [|done].
    match goal with Hv : bool_decide _ = true |- _ => apply bool_decide_eq_true in Hv as -> end. done.
  - intros Hd. match goal with Hv : context [verifySignature] |- _ => rewrite Hd in Hv; simpl in Hv; unfold verifySignature in Hv end.
    destruct (ci_Identity (ch_Info ch)) as [key|]; [|done]. exists key. split; [done|].
    unfold PubKey_Verify in *. simpl in *. by destruct (ed25519_Verify _ _ _).
Qed.

(** A non-root change is what its payload says. *)
Lemma unmarshallRawChange_id c raw id ch : unmarshallRawChange c raw id = Ok ch -> ch_Id ch = id.
Proof.
  unfold unmarshallRawChange, unmarshallRoot. intros Hu. destruct (cb_isRoot c id), (cb_hasData c); go_inv; done.
Qed.

(** A change that was read is not in a tree yet. *)
Lemma Unmarshall_fresh c r v ch :
  cb_Unmarshall c r v = Ok ch ->
  ch_Id ch = rtc_Id r /\ ch_Next ch = [] /\ ch_OrderId ch = "" /\ ci_rawChange (ch_Info ch) = None.
Proof.
  unfold cb_Unmarshall, unmarshallRawChange, unmarshallRoot. intros Hu.
  repeat match type of Hu with context [if ?b then _ else _] => destruct b end; go_inv; done.
Qed.

(** C23: reading a change with verification authenticates it.  Two changes of a tree that are
    read under the same id are the same change, when the hash that names them does not
    collide; and a change of an author is signed by the key it names: its bytes hold a
    payload and a signature of it that the author's key verifies. *)
Theorem change_authentic c r r' ch ch' :
  (forall b b' i, sha256Cid b = Ok i -> sha256Cid b' = Ok i -> b = b') ->
  cb_nonVerifiable c = false -> cb_Unmarshall c r true = Ok ch -> cb_Unmarshall c r' true = Ok ch' ->
  ch_Id ch = rtc_Id r /\ (ch_Id ch = ch_Id ch' -> ch = ch') /\
  (ci_IsDerived (ch_Info ch) = false ->
   exists rawb raw key, rtc_RawChange r = Some rawb /\ RawTreeChange_UnmarshalVT rawb = Ok raw /\
     ci_Identity (ch_Info ch) = Some key /\
     PubKey_Verify key (rt_Payload raw) (default "" (rt_Signature raw)) = Ok true).
Proof.
  intros Hcid Hnv Hu Hu'.
  destruct (Unmarshall_verified _ _ _ Hnv Hu) as (rawb & raw & Hr & Hid & Hraw & Hun & Hsig).
  destruct (Unmarshall_verified _ _ _ Hnv Hu') as (rawb' & raw' & Hr' & Hid' & Hraw' & Hun' & _).
  pose proof (unmarshallRawChange_id _ _ _ _ Hun) as Hch. pose proof (unmarshallRawChange_id _ _ _ _ Hun') as Hch'.
  split_and!; [done| |].
  - intros Heq. assert (rtc_Id r = rtc_Id r') as Hii by congruence. rewrite <- Hii in Hid', Hun'.
    rewrite (Hcid _ _ _ Hid Hid') in Hraw. congruence.
  - intros Hd. destruct (Hsig Hd) as (key & Hkey & Hver). exists rawb, raw, key.
    unfold PubKey_Verify. rewrite Hver. done.
Qed.
End change.

(** ** Witnesses *)

Local Open Scope string_scope.

Definition exContent : BuilderContent :=
  mkBuilderContent ["t0"] "r3" "t0" "k1" false false (privOf alice) (Some key1) "hello" 7 "text".
Definition exBuilt : Change * RawTreeChangeWithId :=
  match Build_ "123456789012" exContent with
  | Ok x => x
  | Err _ => (mkChange "" [] "" false zeroInfo "" 0 [] [], mkRawTreeChangeWithId None "")
  end.
Definition exBuilder : changeBuilder := NewChangeBuilder (Some (mkRawTreeChangeWithId (Some "root") "t0")).

Lemma change_build_roundtrip_witness :
  Build_ "123456789012" exContent = Ok exBuilt /\
  cb_Unmarshall exBuilder exBuilt.2 true = Ok exBuilt.1.
Proof.
  split; [vm_compute; reflexivity|].
  refine (proj1 (change_build_roundtrip "123456789012" exContent exBuilt.1 exBuilt.2 exBuilder _ _ _ _ _)).
  - repeat split; vm_compute; reflexivity.
  - reflexivity.
  - intros Hu. discriminate Hu.
  - vm_compute. reflexivity.
  - vm_compute. reflexivity.
Defined.

Lemma change_authentic_witness :
  cb_Unmarshall exBuilder exBuilt.2 true = Ok exBuilt.1 /\
  exists rawb raw key, rtc_RawChange exBuilt.2 = Some rawb /\ RawTreeChange_UnmarshalVT rawb = Ok raw /\
     ci_Identity (ch_Info exBuilt.1) = Some key /\
     PubKey_Verify key (rt_Payload raw) (default "" (rt_Signature raw)) = Ok true.
Proof.
  split; [vm_compute; reflexivity|].
  refine (proj2 (proj2 (change_authentic exBuilder exBuilt.2 exBuilt.2 exBuilt.1 exBuilt.1 _ _ _ _)) _).
  - intros b b' i. simpl. congruence.
  - reflexivity.
  - vm_compute. reflexivity.
  - vm_compute. reflexivity.
  - vm_compute. reflexivity.
Defined.
