(* ===== verification/TreeStorage.v ===== *)
(** Storage of the changes of a tree (src/commonspace/object/tree/objecttree/storage.go):
    the [Storage] interface as a class of operations, and the laws its users rely on.
    A storage is seen as its log: the stored changes in the order of their order ids.  A sorted list meets the laws; concrete runs use it. *)

From Stdlib Require Import ZArith Lia String.
From stdpp Require Import base option list gmap strings sorting.
From S2P Require Import Prelude Crypto TreeModels.

Local Open Scope Z_scope.

(** [StorageIterator] over a variable [V] of the caller: it says whether to go on. *)
Abbreviation TreeIterator V := (StorageChange -> ST V bool).

Class TreeStorage (T : Type) := {
  tst_Id : T -> string;
  tst_Root : T -> res StorageChange;
  tst_Heads : T -> res (list string);
  tst_CommonSnapshot : T -> res string;
  tst_Has : T -> string -> res bool;
  tst_Get : T -> string -> res StorageChange;
  tst_GetAfterOrder : T -> string -> forall V, TreeIterator V -> ST V unit;
  tst_GetAfterAddSeq : T -> Z -> forall V, TreeIterator V -> ST V unit;
  tst_AddAll : list StorageChange -> list string -> string -> ST T unit;
  tst_Delete : ST T unit;
}.

(** [for iter.Next() { cont, err := storageIter(ctx, change); if !cont { return err } }] *)
Fixpoint visitChanges {V} (iter : TreeIterator V) (l : list StorageChange) : ST V unit :=
  match l with
  | [] => mret tt
  | sc :: l => cont ← iter sc; if (cont : bool) then visitChanges iter l else mret tt
  end.

(** Order ids are compared as Go compares strings. *)
Abbreviation ole := String.le.
Definition olt (a b : string) : Prop := String.le a b /\ a <> b.
#[global] Instance olt_dec a b : Decision (olt a b).
Proof. unfold olt. apply _. Defined.

(** The part of a log from an order id on. *)
Definition fromOrder (o : string) (log : list StorageChange) : list StorageChange :=
  filter (fun sc => ole o (sc_OrderId sc)) log.

Definition orderLe (a b : StorageChange) : Prop := ole (sc_OrderId a) (sc_OrderId b).
#[global] Instance orderLe_dec : RelDecision orderLe.
Proof. intros a b. unfold orderLe. apply _. Defined.

(** A log: distinct ids, sorted by the order ids. *)
Record tlog_ok (log : list StorageChange) : Prop := mkTlogOk {
  tl_ids : NoDup (sc_Id <$> log);
  tl_order : StronglySorted orderLe log;
}.

(** A stored change as it is read back: [AddAll] gave it its sequence number; the tree id
    is a key of the document that [changeFromDoc] does not read. *)
Definition stored (seq : Z) (sc : StorageChange) : StorageChange :=
  mkStorageChange (sc_RawChange sc) (sc_PrevIds sc) (sc_Id sc) (sc_SnapshotCounter sc)
    (sc_SnapshotId sc) (sc_OrderId sc) (sc_ChangeSize sc) "" seq.

Class TreeStorageLaws (T : Type) `{TreeStorage T} := {
  tst_log : T -> list StorageChange;
  tst_wf : T -> Prop;
  tst_log_ok s : tst_wf s -> tlog_ok (tst_log s);
  tst_Get_law s sc : tst_wf s -> sc ∈ tst_log s -> tst_Get s (sc_Id sc) = Ok sc;
  tst_After_law s o V (iter : TreeIterator V) v : tst_wf s ->
    tst_GetAfterOrder s o V iter v = visitChanges iter (fromOrder o (tst_log s)) v;
  (** changes are stored with the heads and the common snapshot, or not at all *)
  tst_AddAll_Ok s chs heads sn s' : tst_wf s ->
    tst_AddAll chs heads sn s = (s', Ok tt) ->
    tst_wf s' /\ tst_Id s' = tst_Id s /\ tst_Heads s' = Ok heads /\ tst_CommonSnapshot s' = Ok sn /\
    exists seq, tst_log s' ≡ₚ tst_log s ++ (stored seq <$> chs);
  tst_AddAll_Err s chs heads sn s' e : tst_wf s -> tst_AddAll chs heads sn s = (s', Err e) ->
    tst_wf s' /\ tst_Id s' = tst_Id s /\ tst_Heads s' = tst_Heads s /\
    tst_CommonSnapshot s' = tst_CommonSnapshot s /\ tst_log s' = tst_log s;
}.

(** A visitor that always goes on is a loop. *)
Lemma visitChanges_each {V} (f : StorageChange -> ST V unit) l v :
  visitChanges (fun sc => f sc ;; mret true) l v = st_each f l v.
Proof.
  revert v. induction l as [|sc l IH]; intros v; [done|]. simpl. unfold mbind, st_bind.
  destruct (f sc v) as [v' [[]|e]]; simpl; [apply IH|done].
Qed.

(** Sorting by distinct keys gives a strict order. *)
Lemma strict_order l :
  NoDup (sc_OrderId <$> l) -> StronglySorted orderLe l ->
  StronglySorted (fun a b => olt (sc_OrderId a) (sc_OrderId b)) l.
Proof.
  intros Hnd Hs. induction Hs as [|x l Hs IH Hall]; [constructor|]. csimpl in Hnd. apply NoDup_cons in Hnd as [Hx Hnd].
  constructor; [by apply IH|]. rewrite Forall_forall in *. intros y Hy. split; [by apply Hall|].
  intros Heq. apply Hx. rewrite Heq. by apply list_elem_of_fmap_2.
Qed.

(** * A storage of changes kept in memory as a sorted list, with the laws of [TreeStorage];
    concrete runs use it. *)

Record listStore := mkListStore {
  ls_id : string;
  ls_heads : list string;
  ls_common : string;
  ls_log : list StorageChange;
}.

Definition ls_find (log : list StorageChange) (id : string) : res StorageChange :=
  match list_find (fun sc => sc_Id sc = id) log with
  | Some (_, sc) => Ok sc
  | None => Err (GoError "document not found")
  end.

Definition ls_AddAll (chs : list StorageChange) (heads : list string) (sn : string) : ST listStore unit := fun s =>
  if decide (NoDup (sc_Id <$> ls_log s ++ chs)) then
    (mkListStore (ls_id s) heads sn
       (merge_sort orderLe (ls_log s ++ (stored 1 <$> chs))), Ok tt)
  else (s, Err (GoError "document exists")).

#[global] Instance listStore_ops : TreeStorage listStore := {|
  tst_Id := ls_id;
  tst_Root := fun s => ls_find (ls_log s) (ls_id s);
  tst_Heads := fun s => Ok (ls_heads s);
  tst_CommonSnapshot := fun s => Ok (ls_common s);
  tst_Has := fun s id => Ok (bool_decide (id ∈ sc_Id <$> ls_log s));
  tst_Get := fun s id => ls_find (ls_log s) id;
  tst_GetAfterOrder := fun s o V iter => visitChanges iter (fromOrder o (ls_log s));
  tst_GetAfterAddSeq := fun s n V iter =>
    visitChanges iter (filter (fun sc => n < sc_AddSeq sc) (ls_log s));
  tst_AddAll := ls_AddAll;
  tst_Delete := assigns (fun s => mkListStore (ls_id s) (ls_heads s) (ls_common s) []);
|}.

Lemma ls_find_in log sc : NoDup (sc_Id <$> log) -> sc ∈ log -> ls_find log (sc_Id sc) = Ok sc.
Proof.
  intros Hnd Hin. unfold ls_find.
  destruct (list_find (fun x => sc_Id x = sc_Id sc) log) as [[i x]|] eqn:Hf.
  - apply list_find_Some in Hf as (Hi & Hid & _). f_equal. apply list_elem_of_lookup in Hin as [j Hj].
    assert (i = j) as ->; [|congruence].
    eapply NoDup_lookup; [exact Hnd|by rewrite list_lookup_fmap, Hi|by rewrite list_lookup_fmap, Hj, Hid].
  - apply list_find_None in Hf. rewrite Forall_forall in Hf. by destruct (Hf sc Hin).
Qed.

Lemma orderLe_total : Total orderLe.
Proof. intros a b. unfold orderLe. apply (total String.le). Qed.
Lemma orderLe_trans : Transitive orderLe.
Proof. intros a b c. unfold orderLe. apply transitivity. Qed.

#[global] Instance listStore_laws : TreeStorageLaws listStore.
Proof.
  refine {| tst_log := ls_log; tst_wf := fun s => tlog_ok (ls_log s) |}.
  - done.
  - intros s sc Hok. apply ls_find_in, Hok.
  - done.
  - intros s chs heads sn s' Hok Hrun. unfold tst_AddAll, listStore_ops, ls_AddAll in Hrun.
    case_decide as Hids; [|done]. injection Hrun as <-. simpl.
    assert (merge_sort orderLe (ls_log s ++ (stored 1 <$> chs)) ≡ₚ
      ls_log s ++ (stored 1 <$> chs)) as Hp by apply merge_sort_Permutation.
    split_and!; [split|done|done|done|by exists 1].
    + rewrite Hp. rewrite fmap_app in *. by rewrite <- list_fmap_compose.
    + apply StronglySorted_merge_sort; [apply orderLe_trans|apply orderLe_total].
  - intros s chs heads sn s' e Hok Hrun. unfold tst_AddAll, listStore_ops, ls_AddAll in Hrun.
    case_decide; [done|]. by injection Hrun as <- _.
Defined.
