(* ===== verification/TreeSnapshots.v ===== *)
(** Snapshots (src/commonspace/object/tree/objecttree: util.go, the snapshot half of
    treebuilder.go, [SnapshotPath] of objecttree.go; util/slice): the snapshot from which
    a tree has to be loaded so that given heads can be attached. *)

From Stdlib Require Import ZArith Lia String.
From stdpp Require Import base option list gmap strings sorting relations.
From S2P Require Import Prelude Crypto TreeModels Tree TreeStorage.

Local Open Scope Z_scope.

(** golang.org/x/exp/slices: [SortFunc] sorts, in an unspecified order of equals. *)
Class SortFunc := {
  sortFunc : forall {A}, (A -> string) -> list A -> list A;
  sortFunc_perm : forall {A} (key : A -> string) l, sortFunc key l ≡ₚ l;
  sortFunc_sorted : forall {A} (key : A -> string) l,
    StronglySorted (fun a b => String.le (key a) (key b)) (sortFunc key l);
}.

(** ** util/slice *)

(** [DiscardDuplicatesSortedFunc]: the first of every run of equals. *)
Fixpoint discardAfter {A} (equal : A -> A -> bool) (prev : A) (l : list A) : list A :=
  match l with
  | [] => []
  | x :: l => if equal x prev then discardAfter equal x l else x :: discardAfter equal x l
  end.
Definition DiscardDuplicatesSortedFunc {A} (equal : A -> A -> bool) (sorted : list A) : list A :=
  match sorted with [] => [] | x :: l => x :: discardAfter equal x l end.

(** [DiscardDuplicatesSorted] on strings *)
Definition DiscardDuplicatesSorted (sorted : list string) : list string :=
  DiscardDuplicatesSortedFunc (fun a b => bool_decide (a = b)) sorted.

(** [UnsortedEquals] *)
Definition UnsortedEquals (s1 s2 : list string) : bool :=
  bool_decide (length s1 = length s2) && bool_decide (sortStrings s1 = sortStrings s2).

(** ** The common snapshot of two paths (util.go) *)

Definition ErrNoCommonSnapshot := GoError "trees doesn't have a common snapshot".

(** Both paths from the right, up to the first match of the two loops. *)
Fixpoint firstMatch (our their : list string) : option (list string * list string) :=
  match our with
  | [] => None
  | x :: our' =>
      match list_find (fun y => y = x) their with
      | Some (j, _) => Some (our, drop j their)
      | None => firstMatch our' their
      end
  end.

(** The last of the elements that match one by one. *)
Fixpoint lastMatch (found : string) (our their : list string) : string :=
  match our, their with
  | x :: our, y :: their => if decide (x = y) then lastMatch x our their else found
  | _, _ => found
  end.

Definition commonSnapshotForTwoPaths (ourPath theirPath : list string) : res string :=
  match firstMatch (rev ourPath) (rev theirPath) with
  | Some (x :: our, _ :: their) => Ok (lastMatch x our their)
  | _ => Err ErrNoCommonSnapshot
  end.

(** ** The snapshot of new heads (treebuilder.go) *)

Definition outOfFuel := GoError "still running".

Section snapshots.
Context {T : Type} `{TreeStorage T} `{SortFunc}.
Implicit Types (st : T) (cache : gmap string Change).

(** The snapshot of a head: its own id for the root of the tree. *)
Definition headSnapshot (storageId id snapshotId : string) (prevIds : list string) : res string :=
  if decide (snapshotId <> "") then Ok snapshotId
  else if decide (prevIds = [] /\ id = storageId) then Ok id
  else Err (GoError "head with empty snapshot id").

(** The snapshots of the heads that are in the cache. *)
Fixpoint cachedSnapshots st cache (heads : list string) : res (list string) :=
  match heads with
  | [] => Ok []
  | h :: heads =>
      match cache !! h with
      | None => cachedSnapshots st cache heads
      | Some head =>
          s ← headSnapshot (tst_Id st) (ch_Id head) (ch_SnapshotId head) (ch_PreviousIds head);
          ss ← cachedSnapshots st cache heads;
          Ok (s :: ss)
      end
  end.

(** The snapshots of stored heads, and the largest of their order ids. *)
Fixpoint storedSnapshots st (maxOrder : string) (heads : list string) : res (string * list string) :=
  match heads with
  | [] => Ok (maxOrder, [])
  | h :: heads =>
      ch ← tst_Get st h;
      let maxOrder := if decide (olt maxOrder (sc_OrderId ch)) then sc_OrderId ch else maxOrder in
      s ← headSnapshot (tst_Id st) (sc_Id ch) (sc_SnapshotId ch) (sc_PrevIds ch);
      '(maxOrder, ss) ← storedSnapshots st maxOrder heads;
      Ok (maxOrder, s :: ss)
  end.

(** One round over [current]: new snapshots to follow, the lowest ones, what was visited. *)
Fixpoint followRound cache (current : list string) (visited : gset string)
    : list string * list string * gset string :=
  match current with
  | [] => ([], [], visited)
  | id :: current =>
      match cache !! id with
      | Some ch =>
          if decide (ch_SnapshotId ch <> "") then
            if decide (id ∈ visited) then followRound cache current visited
            else
              let '(next, low, visited) := followRound cache current ({[ id ]} ∪ visited) in
              (ch_SnapshotId ch :: next, low, visited)
          else
            let '(next, low, visited) := followRound cache current visited in
            (next, id :: low, visited)
      | None =>
          let '(next, low, visited) := followRound cache current visited in
          (next, id :: low, visited)
      end
  end.

(** [for len(next) > 0]: a round that goes on visits a new change of the cache. *)
Fixpoint followSnapshots (fuel : nat) cache (next snapshots : list string) (visited : gset string)
    : res (list string) :=
  match next, fuel with
  | [], _ => Ok snapshots
  | _, O => Err outOfFuel
  | _, S fuel =>
      let '(next', low, visited') := followRound cache next visited in
      followSnapshots fuel cache next' (snapshots ++ low) visited'
  end.

(** [lowestSnapshots]; a nil cache is [None]. *)
Definition lowestSnapshots st (cache : option (gmap string Change)) (heads : list string)
    (ourSnapshot : string) : res (string * list string) :=
  '(maxOrder, snapshots, next) ←
    match cache with
    | Some cache => next ← cachedSnapshots st cache heads; Ok ("", [], next)
    | None => '(maxOrder, snapshots) ← storedSnapshots st "" heads; Ok (maxOrder, snapshots, [])
    end;
  let next := DiscardDuplicatesSorted (sortStrings next) in
  let c := default ∅ cache in
  snapshots ← followSnapshots (S (size c)) c next snapshots ∅;
  let snapshots := if decide (ourSnapshot <> "") then snapshots ++ [ourSnapshot] else snapshots in
  Ok (maxOrder, DiscardDuplicatesSorted (sortStrings snapshots)).

(** ** The snapshot where branches meet *)

(** The snapshots that can be read; the others are logged and left out. *)
Definition readSnapshots st (snapshots : list string) : list StorageChange :=
  omap (fun id => match tst_Get st id with Ok ch => Some ch | Err _ => None end) snapshots.

(** Go down to the older snapshots, to the level [lowest]. *)
Fixpoint equalize (fuel : nat) st (lowest : Z) (ch : StorageChange) : res StorageChange :=
  if decide (lowest < sc_SnapshotCounter ch) then
    match fuel with
    | O => Err outOfFuel
    | S fuel => ch ← tst_Get st (sc_SnapshotId ch); equalize fuel st lowest ch
    end
  else Ok ch.

(** [for { ... }]: drop duplicates, return when one is left, else go down one level. *)
Fixpoint meetSnapshots (fuel : nat) st (current : list StorageChange) : res string :=
  let current := DiscardDuplicatesSortedFunc
    (fun a b => bool_decide (sc_SnapshotId a = sc_SnapshotId b)) (sortFunc sc_SnapshotId current) in
  match current, fuel with
  | [c], _ => Ok (sc_Id c)
  | _, O => Err outOfFuel
  | _, S fuel =>
      current ← res_map (fun ch => tst_Get st (sc_SnapshotId ch)) current;
      meetSnapshots fuel st current
  end.

Definition lowestCounter (current : list StorageChange) : Z :=
  foldr (fun ch n => Z.min (sc_SnapshotCounter ch) n) (2 ^ 63 - 1) current.

Definition commonSnapshot (fuel : nat) st (snapshots : list string) : res string :=
  let current := readSnapshots st snapshots in
  current ← res_map (equalize fuel st (lowestCounter current)) current;
  meetSnapshots fuel st current.

(** The common snapshot of several, or the only one. *)
Definition onlyOrCommon (fuel : nat) st (lowest : list string) : res string :=
  match lowest with
  | [s] => Ok s
  | _ => commonSnapshot fuel st lowest
  end.

(** [SnapshotPath] of objecttree.go without its cache: from a snapshot to the root. *)
Fixpoint pathFrom (fuel : nat) st (current : string) : res (list string) :=
  if decide (current = "") then Ok []
  else match fuel with
       | O => Err outOfFuel
       | S fuel =>
           sn ← tst_Get st current;
           path ← pathFrom fuel st (sc_SnapshotId sn);
           Ok (current :: path)
       end.
End snapshots.

(** * The snapshot two replicas have in common, and the snapshot the tree builder starts
    from. *)

(** ** Paths *)

(** A path of snapshots: each is the snapshot of the one before it. *)
Fixpoint path_chain (parent : string -> string) (path : list string) : Prop :=
  match path with
  | x :: ((y :: _) as rest) => parent x = y /\ path_chain parent rest
  | _ => True
  end.

Lemma path_app_inv parent a b : path_chain parent (a ++ b) -> path_chain parent b.
Proof.
  induction a as [|x a IH]; [done|]. destruct a as [|y a]; simpl.
  - destruct b; [done|]. by intros [_ ?].
  - intros [_ Hc]. by apply IH.
Qed.

Lemma path_step parent a x y b : path_chain parent (a ++ x :: y :: b) -> parent x = y.
Proof. intros Hc%path_app_inv. by destruct Hc. Qed.

(** Two paths through the same snapshot go on alike. *)
Lemma path_determined parent x a b r :
  path_chain parent (x :: a) -> path_chain parent (x :: b) -> last (x :: a) = Some r -> last (x :: b) = Some r ->
  NoDup (x :: a) -> NoDup (x :: b) -> a = b.
Proof.
  revert x b. induction a as [|y a IH]; intros x b Ha Hb La Lb Na Nb.
  - injection La as <-. destruct b as [|z b]; [done|]. exfalso. apply NoDup_cons in Nb as [Hx _].
    apply Hx. simpl in Lb. by apply last_Some_elem_of.
  - destruct b as [|z b].
    + injection Lb as <-. exfalso. apply NoDup_cons in Na as [Hx _]. apply Hx. by apply last_Some_elem_of.
    + destruct Ha as [Hy Ha], Hb as [Hz Hb]. rewrite Hy in Hz. subst z. f_equal.
      apply NoDup_cons in Na as [_ Na]. apply NoDup_cons in Nb as [_ Nb]. by eapply IH.
Qed.

Lemma lastMatch_spec found o t :
  exists s c o2 t2, lastMatch found o t = s /\ found :: o = c ++ s :: o2 /\ found :: t = c ++ s :: t2 /\
    match o2, t2 with x :: _, y :: _ => x <> y | _, _ => True end.
Proof.
  revert found t. induction o as [|x o IH]; intros found t; simpl.
  - exists found, [], [], t. done.
  - destruct t as [|y t]; [exists found, [], (x :: o), []; done|]. case_decide as Hxy.
    + subst y. destruct (IH x t) as (s & c & o2 & t2 & Hs & Ho & Ht & Hne).
      exists s, (found :: c), o2, t2. simpl. by rewrite <- Ho, <- Ht.
    + exists found, [], (x :: o), (y :: t). done.
Qed.

Lemma firstMatch_same r o t : firstMatch (r :: o) (r :: t) = Some (r :: o, r :: t).
Proof. simpl. rewrite decide_True by done. done. Qed.

Lemma rev_last (l : list string) r : last l = Some r -> exists o, rev l = r :: o.
Proof.
  intros Hl. apply last_Some in Hl as [l' ->]. exists (rev l'). by rewrite rev_app_distr.
Qed.

(** The common snapshot of two snapshot paths of the same tree.  It is on both paths,
    they continue alike from there to the root, and above it they have no snapshot in
    common: it is the latest snapshot both replicas have. *)
Theorem snapshot_paths_meet parent ours theirs r :
  path_chain parent ours -> path_chain parent theirs -> NoDup ours -> NoDup theirs ->
  last ours = Some r -> last theirs = Some r ->
  exists s a b c, commonSnapshotForTwoPaths ours theirs = Ok s /\
    ours = a ++ s :: c /\ theirs = b ++ s :: c /\ forall x, x ∈ a -> x ∉ b.
Proof.
  intros Co Ct No Nt Lo Lt. unfold commonSnapshotForTwoPaths.
  destruct (rev_last _ _ Lo) as [o Ho]. destruct (rev_last _ _ Lt) as [t Ht].
  rewrite Ho, Ht, firstMatch_same. destruct (lastMatch_spec r o t) as (s & c & o2 & t2 & -> & Eo & Et & Hne).
  assert (ours = rev o2 ++ s :: rev c) as Eours.
  { rewrite <- (rev_involutive ours), Ho, Eo, rev_app_distr. simpl. by rewrite <- app_assoc. }
  assert (theirs = rev t2 ++ s :: rev c) as Etheirs.
  { rewrite <- (rev_involutive theirs), Ht, Et, rev_app_distr. simpl. by rewrite <- app_assoc. }
  exists s, (rev o2), (rev t2), (rev c). split_and!; [done..|].
  intros x Hxo Hxt. apply list_elem_of_split in Hxo as (a1 & a2 & Ha). apply list_elem_of_split in Hxt as (b1 & b2 & Hb).
  rewrite Ha in Eours. rewrite Hb in Etheirs. rewrite Eours in Co, No, Lo. rewrite Etheirs in Ct, Nt, Lt.
  rewrite <- app_assoc in Co, No, Lo, Ct, Nt, Lt. simpl in *.
  apply path_app_inv in Co, Ct. apply NoDup_app in No as (_ & _ & No). apply NoDup_app in Nt as (_ & _ & Nt).
  rewrite last_app_cons in Lo, Lt.
  pose proof (path_determined _ _ _ _ _ Co Ct Lo Lt No Nt) as Heq.
  apply app_inj_2 in Heq as [Heq _]; [|done]. subst b2.
  assert (forall l1 l2, rev l2 = l1 ++ x :: a2 -> exists h, head l2 = Some h /\ last (x :: a2) = Some h) as Hhead.
  { intros l1 l2 Hl. assert (l2 = rev (x :: a2) ++ rev l1) as ->.
    { rewrite <- (rev_involutive l2), Hl, rev_app_distr. done. }
    destruct (last (x :: a2)) as [h|] eqn:Hlast; [|by apply last_None in Hlast].
    exists h. split; [|done]. destruct (rev_last _ _ Hlast) as [u ->]. done. }
  destruct (Hhead _ _ Ha) as (h & Hh & Hl). destruct (Hhead _ _ Hb) as (h' & Hh' & Hl').
  destruct o2, t2; try done. simpl in *. congruence.
Qed.

Lemma snapshot_paths_meet_witness :
  let parent := fun s => match s with "s3" => "s2" | "s4" => "s2" | "s2" => "r" | _ => "" end%string in
  exists s a b c, commonSnapshotForTwoPaths ["s3"; "s2"; "r"] ["s4"; "s2"; "r"] = Ok s /\
    ["s3"; "s2"; "r"] = a ++ s :: c /\ ["s4"; "s2"; "r"] = b ++ s :: c /\ forall x : string, x ∈ a -> x ∉ b.
Proof.
  cbv zeta. apply (snapshot_paths_meet
    (fun s => match s with "s3" => "s2" | "s4" => "s2" | "s2" => "r" | _ => "" end)%string _ _ "r"); try done;
    apply (bool_decide_unpack _); vm_compute; exact I.
Defined.

(** ** Where branches of snapshots meet *)

Section meet.
Context {T : Type} `{TreeStorage T} `{SortFunc}.
Variable st : T.
Implicit Types (x y : string) (sc : StorageChange).

(** Stored snapshots: a tree in which the counter is the depth. *)
Inductive snapshotAt : string -> Z -> StorageChange -> Prop :=
| snapshotAt_root sc : tst_Get st (tst_Id st) = Ok sc -> sc_Id sc = tst_Id st -> sc_SnapshotId sc = "" ->
    sc_SnapshotCounter sc = 1 -> snapshotAt (tst_Id st) 1 sc
| snapshotAt_next x n sc p : tst_Get st x = Ok sc -> sc_Id sc = x -> sc_SnapshotId sc <> "" ->
    sc_SnapshotCounter sc = n + 1 -> snapshotAt (sc_SnapshotId sc) n p -> snapshotAt x (n + 1) sc.

(** [y] is the snapshot of the snapshot [x]. *)
Definition below x y : Prop := exists sc, tst_Get st x = Ok sc /\ sc_SnapshotId sc = y /\ y <> "".

Lemma snapshotAt_get x n sc :
  snapshotAt x n sc -> tst_Get st x = Ok sc /\ sc_Id sc = x /\ sc_SnapshotCounter sc = n /\ 1 <= n.
Proof. induction 1 as [|x n sc p ? ? ? ? Hp IH]; [done|]. split_and!; try done. destruct IH as (_ & _ & _ & ?). lia. Qed.

Lemma snapshotAt_inv x n sc :
  snapshotAt x n sc -> 1 < n -> exists p, snapshotAt (sc_SnapshotId sc) (n - 1) p /\ below x (sc_SnapshotId sc).
Proof.
  inversion 1 as [|? m ? p ? ? ? ? Hp]; subst; [lia|]. intros _. exists p.
  replace (m + 1 - 1) with m by lia. split; [done|]. by exists sc.
Qed.

Lemma snapshotAt_first x sc : snapshotAt x 1 sc -> x = tst_Id st /\ sc_SnapshotId sc = "".
Proof.
  inversion 1 as [|? n ? p ? ? ? ? Hp Heq]; subst; [done|]. apply snapshotAt_get in Hp. lia.
Qed.

Lemma below_det x y y' : below x y -> below x y' -> y = y'.
Proof. intros (sc & H1 & <- & _) (sc' & H2 & <- & _). congruence. Qed.

Lemma equalize_spec fuel L x n sc :
  snapshotAt x n sc -> 1 <= L <= n -> n - L <= Z.of_nat fuel ->
  exists y sy, equalize fuel st L sc = Ok sy /\ snapshotAt y L sy /\ rtc below x y.
Proof.
  revert x n sc. induction fuel as [|fuel IH]; intros x n sc Hx HL Hf;
    destruct (snapshotAt_get _ _ _ Hx) as (_ & _ & Hc & _); simpl; rewrite Hc.
  - rewrite decide_False by lia. assert (n = L) as -> by lia. exists x, sc. split_and!; done.
  - case_decide as Hlt; cycle 1.
    { assert (n = L) as -> by lia. exists x, sc. done. }
    destruct (snapshotAt_inv _ _ _ Hx) as (p & Hp & Hb); [lia|].
    destruct (snapshotAt_get _ _ _ Hp) as (-> & _).
    destruct (IH _ _ _ Hp) as (y & sy & He & Hy & Hr); [lia|lia|].
    exists y, sy. split_and!; [done|done|]. by eapply rtc_l.
Qed.

(** *** Duplicates *)

Abbreviation sameSnapshot := (fun a b : StorageChange => bool_decide (sc_SnapshotId a = sc_SnapshotId b)).

Lemma discardAfter_covers prev l c :
  c ∈ prev :: l -> exists d, d ∈ prev :: discardAfter sameSnapshot prev l /\ sc_SnapshotId d = sc_SnapshotId c.
Proof.
  revert prev. induction l as [|x l IH]; intros prev Hc; [by exists c|].
  apply elem_of_cons in Hc as [->|Hc]; [exists prev; split; [by left|done]|].
  destruct (IH x Hc) as (d & Hd & Hs). simpl. case_bool_decide as Hx; [|exists d; split; [by right|done]].
  apply elem_of_cons in Hd as [->|Hd]; [exists prev; split; [by left|congruence]|].
  exists d. split; [by right|done].
Qed.

Lemma discardAfter_sub prev l d : d ∈ discardAfter sameSnapshot prev l -> d ∈ l.
Proof.
  revert prev. induction l as [|x l IH]; intros prev; simpl; [done|].
  case_bool_decide; [intros Hd; right; by eapply IH|]. intros [->|Hd]%elem_of_cons; [by left|right; by eapply IH].
Qed.

Definition meeting (current : list StorageChange) : list StorageChange :=
  DiscardDuplicatesSortedFunc sameSnapshot (sortFunc sc_SnapshotId current).

Lemma meeting_sub current d : d ∈ meeting current -> d ∈ current.
Proof.
  unfold meeting. rewrite <- (sortFunc_perm sc_SnapshotId current) at 2.
  destruct (sortFunc sc_SnapshotId current) as [|x l]; [done|]. simpl.
  intros [->|Hd]%elem_of_cons; [by left|right]. by eapply discardAfter_sub.
Qed.

Lemma meeting_covers current c : c ∈ current -> exists d, d ∈ meeting current /\ sc_SnapshotId d = sc_SnapshotId c.
Proof.
  unfold meeting. rewrite <- (sortFunc_perm sc_SnapshotId current) at 1.
  destruct (sortFunc sc_SnapshotId current) as [|x l]; [intros []%not_elem_of_nil|]. apply discardAfter_covers.
Qed.

(** Neighbours that are kept differ, when equal ones are next to each other. *)
Lemma meeting_one current c :
  c ∈ current -> (forall d, d ∈ current -> sc_SnapshotId d = sc_SnapshotId c) ->
  exists d, meeting current = [d] /\ d ∈ current.
Proof.
  intros Hc Hall.
  assert (forall d, d ∈ sortFunc sc_SnapshotId current -> sc_SnapshotId d = sc_SnapshotId c) as Hall'.
  { intros d Hd. apply Hall. by rewrite <- (sortFunc_perm sc_SnapshotId current). }
  assert (c ∈ sortFunc sc_SnapshotId current) as Hc' by by rewrite sortFunc_perm.
  assert (forall d, d ∈ meeting current -> d ∈ current) as Hsub by apply meeting_sub.
  unfold meeting in *. destruct (sortFunc sc_SnapshotId current) as [|x l]; [by apply not_elem_of_nil in Hc'|].
  simpl in *. assert (discardAfter sameSnapshot x l = []) as Hn.
  { clear Hsub Hc'. revert x Hall'. induction l as [|y l IH]; intros x Hall'; [done|]. simpl.
    rewrite bool_decide_true; cycle 1.
    { rewrite (Hall' y), (Hall' x); [done|by left|by right; left]. }
    apply IH. intros d Hd. apply Hall'. by right. }
  rewrite Hn in *. exists x. split; [done|]. apply Hsub. by left.
Qed.

(** *** The loop *)

(** Every snapshot of [current] is below a snapshot with the same snapshot as [r]. *)
Definition besideAll (r : string) (xs : list string) : Prop :=
  exists n sr, snapshotAt r n sr /\ forall x, x ∈ xs -> exists y sy,
    rtc below x y /\ snapshotAt y n sy /\ sc_SnapshotId sy = sc_SnapshotId sr.

Lemma meetSnapshots_unfold fuel current :
  meetSnapshots fuel st current =
  match meeting current, fuel with
  | [c], _ => Ok (sc_Id c)
  | _, O => Err outOfFuel
  | _, S fuel =>
      current ← res_map (fun ch => tst_Get st (sc_SnapshotId ch)) (meeting current);
      meetSnapshots fuel st current
  end.
Proof. by destruct fuel. Qed.

(** One level down. *)
Lemma parents_read n ds :
  (forall d, d ∈ ds -> snapshotAt (sc_Id d) n d) -> 1 < n ->
  exists ps, res_map (fun ch => tst_Get st (sc_SnapshotId ch)) ds = Ok ps /\
    Forall2 (fun d p => tst_Get st (sc_SnapshotId d) = Ok p) ds ps /\
    Forall (fun sc => snapshotAt (sc_Id sc) (n - 1) sc) ps.
Proof.
  intros Hall Hn. destruct (res_map_total (fun ch => tst_Get st (sc_SnapshotId ch)) ds) as [ps Hps].
  { intros d Hd. destruct (snapshotAt_inv _ _ _ (Hall d Hd) Hn) as (p & Hp & _).
    exists p. by apply snapshotAt_get in Hp as [? _]. }
  exists ps. split; [done|]. apply res_map_Ok in Hps. split; [done|].
  apply Forall_forall. intros p Hp. apply list_elem_of_lookup in Hp as [i Hi].
  destruct (Forall2_lookup_r _ _ _ _ _ Hps Hi) as (d & Hd & Hg). apply list_elem_of_lookup_2 in Hd.
  destruct (snapshotAt_inv _ _ _ (Hall d Hd) Hn) as (p' & Hp' & _).
  destruct (snapshotAt_get _ _ _ Hp') as (Hg' & Hid & _). rewrite Hg in Hg'. injection Hg' as ->.
  by rewrite Hid.
Qed.

Lemma meetSnapshots_spec fuel n current :
  current <> [] -> Forall (fun sc => snapshotAt (sc_Id sc) n sc) current -> n <= Z.of_nat fuel ->
  exists r, meetSnapshots fuel st current = Ok r /\ besideAll r (sc_Id <$> current).
Proof.
  revert n current. induction fuel as [|fuel IH]; intros n current Hne Hall Hf.
  { destruct current as [|c current]; [done|]. apply Forall_cons in Hall as [Hc _].
    apply snapshotAt_get in Hc as (_ & _ & _ & ?). lia. }
  rewrite Forall_forall in Hall. rewrite meetSnapshots_unfold.
  assert (forall d, d ∈ meeting current -> snapshotAt (sc_Id d) n d) as HallM by (intros d Hd; by apply Hall, meeting_sub).
  destruct (meeting current) as [|d0 [|d1 ds]] eqn:Hm.
  - destruct current as [|c current]; [done|]. destruct (meeting_covers (c :: current) c) as (d & Hd & _); [by left|].
    rewrite Hm in Hd. by apply not_elem_of_nil in Hd.
  - exists (sc_Id d0). split; [done|]. exists n, d0. split; [apply HallM; by left|].
    intros x (c & -> & Hc)%list_elem_of_fmap. exists (sc_Id c), c. split_and!; [done|by apply Hall|].
    destruct (meeting_covers current c Hc) as (d & Hd & Hs). rewrite Hm in Hd. apply list_elem_of_singleton in Hd as ->. done.
  - assert (1 < n) as Hn.
    { destruct (Z_lt_le_dec 1 n) as [|Hle]; [done|exfalso].
      assert (n = 1) as ->.
      { destruct (snapshotAt_get _ _ _ (HallM d0 ltac:(by left))) as (_ & _ & _ & ?). lia. }
      destruct (meeting_one current d0) as (d & Hd & _); [by apply meeting_sub; rewrite Hm; left| |by rewrite Hm in Hd].
      intros d Hd. destruct (snapshotAt_first _ _ (Hall d Hd)) as [_ ->].
      by destruct (snapshotAt_first _ _ (HallM d0 ltac:(by left))) as [_ ->]. }
    rewrite <- Hm in *. clear d0 d1 ds Hm.
    destruct (parents_read n (meeting current) HallM Hn) as (ps & Hps & Hps' & Hallp). rewrite Hps.
    destruct (IH (n - 1) ps) as (r & Hr & m & sr & Hsr & Hbes); [| done | lia |].
    { destruct current as [|c current]; [done|]. destruct (meeting_covers (c :: current) c) as (d & Hd & _); [by left|].
      intros ->. apply Forall2_nil_inv_r in Hps'. rewrite Hps' in Hd. by apply not_elem_of_nil in Hd. }
    exists r. simpl. split; [done|]. exists m, sr. split; [done|].
    intros x (c & -> & Hc)%list_elem_of_fmap. destruct (meeting_covers current c Hc) as (d & Hd & Hs).
    destruct (snapshotAt_inv _ _ _ (Hall c Hc) Hn) as (p & Hp & Hb). rewrite <- Hs in Hp, Hb.
    apply list_elem_of_lookup in Hd as [i Hi]. destruct (Forall2_lookup_l _ _ _ _ _ Hps' Hi) as (p' & Hp' & Hg).
    destruct (snapshotAt_get _ _ _ Hp) as (Hg' & Hid & _). rewrite Hg in Hg'. injection Hg' as ->.
    destruct (Hbes (sc_Id p)) as (y & sy & Hry & Hsy & Heq).
    { apply list_elem_of_fmap. exists p. split; [done|]. by eapply list_elem_of_lookup_2. }
    exists y, sy. split_and!; [|done|done]. eapply rtc_l; [done|]. by rewrite <- Hid.
Qed.

(** *** The whole function *)

Lemma rtc_level x y n sc :
  rtc below x y -> snapshotAt x n sc -> exists m sy, snapshotAt y m sy /\ m <= n /\ (m = n -> y = x).
Proof.
  intros Hr. revert n sc. induction Hr as [x|x z y (sc' & Hg & Hz & Hne) _ IH]; intros n sc Hx; [by exists n, sc|].
  destruct (snapshotAt_get _ _ _ Hx) as (Hg' & _). rewrite Hg in Hg'. injection Hg' as ->.
  assert (1 < n) as Hn.
  { destruct (snapshotAt_get _ _ _ Hx) as (_ & _ & _ & ?). destruct (decide (n = 1)) as [->|]; [|lia].
    destruct (snapshotAt_first _ _ Hx). congruence. }
  destruct (snapshotAt_inv _ _ _ Hx Hn) as (p & Hp & _). rewrite Hz in Hp.
  destruct (IH _ _ Hp) as (m & sy & Hy & Hm & _). exists m, sy. split_and!; [done|lia|lia].
Qed.

Lemma snapshotAt_level x n n' sc sc' : snapshotAt x n sc -> snapshotAt x n' sc' -> n = n' /\ sc = sc'.
Proof.
  intros H1 H2. destruct (snapshotAt_get _ _ _ H1) as (G1 & _ & <- & _).
  destruct (snapshotAt_get _ _ _ H2) as (G2 & _ & <- & _). rewrite G1 in G2. by injection G2 as ->.
Qed.

Lemma same_level_same x y z n sy sz m sx :
  snapshotAt x m sx -> rtc below x y -> rtc below x z -> snapshotAt y n sy -> snapshotAt z n sz -> y = z.
Proof.
  intros Hx Hy. revert m sx Hx. induction Hy as [x|x w y Hxw Hwy IH]; intros m sx Hx Hz Sy Sz.
  - destruct (rtc_level _ _ _ _ Hz Sy) as (k & sk & Sk & Hk & Heq).
    destruct (snapshotAt_level _ _ _ _ _ Sk Sz) as [-> _]. symmetry. by apply Heq.
  - inversion Hz as [|? w' ? Hxw' Hwz]; subst.
    + destruct (rtc_level _ _ _ _ (rtc_l _ _ _ _ Hxw Hwy) Sz) as (k & sk & Sk & Hk & Heq).
      destruct (snapshotAt_level _ _ _ _ _ Sk Sy) as [-> _]. by apply Heq.
    + rewrite (below_det _ _ _ Hxw' Hxw) in Hwz. destruct (rtc_level _ _ _ _ (rtc_once _ _ Hxw) Hx) as (k & sk & Sk & _).
      by eapply IH.
Qed.

(** Snapshots that are stored, at most [fuel] deep. *)
Definition all_stored (fuel : nat) (ss : list string) : Prop :=
  Forall (fun s => exists n sc, snapshotAt s n sc /\ n <= Z.of_nat fuel /\ n < 2 ^ 63) ss.

Lemma readSnapshots_spec fuel ss :
  all_stored fuel ss ->
  exists scs, readSnapshots st ss = scs /\ sc_Id <$> scs = ss /\
    Forall (fun sc => exists n, snapshotAt (sc_Id sc) n sc /\ n <= Z.of_nat fuel /\ n < 2 ^ 63) scs.
Proof.
  induction 1 as [|s ss (n & sc & Hs & Hn & Hb) _ (scs & Hr & Hid & Hall)]; [by exists []|].
  destruct (snapshotAt_get _ _ _ Hs) as (Hg & Heq & _). exists (sc :: scs).
  unfold readSnapshots in *. csimpl. rewrite Hg. split_and!; [by rewrite Hr|by rewrite Heq, Hid|].
  constructor; [|done]. exists n. by rewrite Heq.
Qed.

Lemma lowestCounter_le scs sc : sc ∈ scs -> lowestCounter scs <= sc_SnapshotCounter sc.
Proof.
  induction scs as [|x scs IH]; [intros []%not_elem_of_nil|]. unfold lowestCounter in *. csimpl.
  intros [->|Hx]%elem_of_cons; [lia|]. specialize (IH Hx). lia.
Qed.

Lemma lowestCounter_ge scs L :
  L <= 2 ^ 63 - 1 -> Forall (fun sc => L <= sc_SnapshotCounter sc) scs -> L <= lowestCounter scs.
Proof. intros HL. induction 1 as [|sc scs Hsc _ IH]; [done|]. unfold lowestCounter in *. csimpl. lia. Qed.

Lemma equalize_all fuel ss :
  all_stored fuel ss ->
  exists L ys, res_map (equalize fuel st (lowestCounter (readSnapshots st ss))) (readSnapshots st ss) = Ok ys /\
    L = lowestCounter (readSnapshots st ss) /\
    Forall2 (fun s (y : StorageChange) => rtc below s (sc_Id y) /\ snapshotAt (sc_Id y) L y) ss ys.
Proof.
  intros Hall. destruct (readSnapshots_spec fuel ss Hall) as (scs & -> & Hid & Hscs).
  set (L := lowestCounter scs). exists L.
  assert (forall sc, sc ∈ scs -> exists y : StorageChange, equalize fuel st L sc = Ok y /\ rtc below (sc_Id sc) (sc_Id y) /\
    snapshotAt (sc_Id y) L y) as Heq.
  { intros sc Hsc. pose proof Hscs as Hscs'. rewrite Forall_forall in Hscs. destruct (Hscs sc Hsc) as (n & Hs & Hn & Hb).
    destruct (snapshotAt_get _ _ _ Hs) as (_ & _ & Hc & _).
    pose proof (lowestCounter_le scs sc Hsc) as Hlow. fold L in Hlow.
    assert (1 <= L).
    { apply lowestCounter_ge; [lia|]. eapply Forall_impl; [exact Hscs'|]. intros sc' (n' & Hs' & _).
      destruct (snapshotAt_get _ _ _ Hs') as (_ & _ & -> & ?). done. }
    destruct (equalize_spec fuel L (sc_Id sc) n sc Hs) as (y & sy & He & Hy & Hr); [lia|lia|].
    exists sy. destruct (snapshotAt_get _ _ _ Hy) as (_ & -> & _). done. }
  destruct (res_map_total (equalize fuel st L) scs) as [ys Hys]; [intros sc Hsc; destruct (Heq sc Hsc) as (y & ? & _); eauto|].
  exists ys. split_and!; [done|done|]. rewrite <- Hid, Forall2_fmap_l.
  eapply res_map_rel; [exact Hys|]. intros sc y Hsc Hy. destruct (Heq sc Hsc) as (y' & Hy' & ? & ?).
  rewrite Hy in Hy'. by injection Hy' as ->.
Qed.

Lemma commonSnapshot_beside fuel ss :
  ss <> [] -> all_stored fuel ss -> exists r, commonSnapshot fuel st ss = Ok r /\ besideAll r ss.
Proof.
  intros Hne Hall. destruct (equalize_all fuel ss Hall) as (L & ys & Hys & HL & Hf). unfold commonSnapshot.
  rewrite Hys. simpl.
  destruct (meetSnapshots_spec fuel L ys) as (r & Hr & n & sr & Hsr & Hbes).
  - intros ->. by apply Forall2_nil_inv_r in Hf.
  - apply Forall_forall. intros y Hy. apply list_elem_of_lookup in Hy as [i Hi].
    by destruct (Forall2_lookup_r _ _ _ _ _ Hf Hi) as (? & _ & _ & ?).
  - destruct ss as [|s ss]; [done|]. apply Forall2_cons_inv_l in Hf as (y & ys' & [Hr Hy] & _ & ->).
    apply Forall_cons in Hall as [(n & sc & Hs & Hn & _) _].
    destruct (rtc_level _ _ _ _ Hr Hs) as (m & sm & Hm & Hle & _).
    destruct (snapshotAt_level _ _ _ _ _ Hm Hy) as [-> _]. lia.
  - exists r. split; [done|]. exists n, sr. split; [done|]. intros x Hx.
    apply list_elem_of_lookup in Hx as [i Hi]. destruct (Forall2_lookup_l _ _ _ _ _ Hf Hi) as (y & Hy & Hr1 & _).
    destruct (Hbes (sc_Id y)) as (z & sz & Hr2 & Hz & Heq).
    { apply list_elem_of_fmap. exists y. split; [done|]. by eapply list_elem_of_lookup_2. }
    exists z, sz. split_and!; [|done|done]. by etrans.
Qed.

Lemma commonSnapshot_line fuel ss m :
  m ∈ ss -> all_stored fuel ss -> (forall s, s ∈ ss -> rtc below s m) -> commonSnapshot fuel st ss = Ok m.
Proof.
  intros Hm Hall Hline. destruct (equalize_all fuel ss Hall) as (L & ys & Hys & HL & Hf). unfold commonSnapshot.
  rewrite Hys. simpl. pose proof (proj1 (Forall_forall _ _) Hall) as Hall'.
  destruct (Hall' m Hm) as (n & sm & Sm & Hn & Hb).
  assert (L = n) as ->.
  { destruct (readSnapshots_spec fuel ss Hall) as (scs & Hscs & Hid & Hall2). rewrite Hscs in HL.
    destruct (snapshotAt_get _ _ _ Sm) as (Gm & Im & Cm & _). apply Z.le_antisymm.
    - rewrite HL, <- Cm. apply lowestCounter_le. rewrite <- Hid in Hm. apply list_elem_of_fmap in Hm as (sc & Hsc & Hin).
      rewrite Forall_forall in Hall2. destruct (Hall2 sc Hin) as (k & Sk & _). rewrite <- Hsc in Sk.
      by destruct (snapshotAt_level _ _ _ _ _ Sk Sm) as [_ <-].
    - rewrite HL. apply lowestCounter_ge; [lia|]. apply Forall_forall. intros sc Hin.
      rewrite Forall_forall in Hall2. destruct (Hall2 sc Hin) as (k & Sk & _).
      destruct (snapshotAt_get _ _ _ Sk) as (_ & _ & -> & _).
      assert (sc_Id sc ∈ ss) as Hs by (rewrite <- Hid; by apply list_elem_of_fmap_2).
      destruct (rtc_level _ _ _ _ (Hline _ Hs) Sk) as (j & sj & Sj & Hj & _).
      by destruct (snapshotAt_level _ _ _ _ _ Sj Sm) as [-> _]. }
  assert (forall y : StorageChange, y ∈ ys -> y = sm) as Hys'.
  { intros y Hy. apply list_elem_of_lookup in Hy as [i Hi]. destruct (Forall2_lookup_r _ _ _ _ _ Hf Hi) as (s & Hs & Hr & Sy).
    apply list_elem_of_lookup_2 in Hs. destruct (Hall' s Hs) as (k & sk & Sk & _).
    pose proof (same_level_same _ _ _ _ _ _ _ _ Sk Hr (Hline s Hs) Sy Sm) as Heq. rewrite Heq in Sy.
    by destruct (snapshotAt_level _ _ _ _ _ Sy Sm). }
  destruct ys as [|y ys]; [apply Forall2_nil_inv_r in Hf; subst; by apply not_elem_of_nil in Hm|].
  destruct (meeting_one (y :: ys) y) as (d & Hd & Hin); [by left| |].
  { intros d Hd. by rewrite (Hys' d Hd), (Hys' y ltac:(by left)). }
  rewrite meetSnapshots_unfold, Hd, (Hys' d Hin). by destruct (snapshotAt_get _ _ _ Sm) as (_ & -> & _).
Qed.

(** The loop never ends when no snapshot can be read. *)
Lemma meetSnapshots_none fuel : meetSnapshots fuel st [] = Err outOfFuel.
Proof.
  rewrite meetSnapshots_unfold. unfold meeting.
  assert (sortFunc sc_SnapshotId [] = []) as -> by (apply Permutation_nil; by rewrite sortFunc_perm).
  simpl. induction fuel as [|fuel IH]; [done|]. simpl. rewrite meetSnapshots_unfold. unfold meeting.
  assert (sortFunc sc_SnapshotId [] = []) as -> by (apply Permutation_nil; by rewrite sortFunc_perm). exact IH.
Qed.
End meet.

(** The snapshot the tree builder starts from.  For stored snapshots that lie on one
    path of snapshots, [commonSnapshot] ends and returns the oldest of them; for any stored
    snapshots it ends, and every one of them is below a snapshot with the same parent as
    the one it returns. *)
Theorem tree_common_snapshot {T} `{TreeStorage T} `{SortFunc} (st : T) fuel ss :
  ss <> [] -> all_stored st fuel ss ->
  (forall m, m ∈ ss -> (forall s, s ∈ ss -> rtc (below st) s m) -> commonSnapshot fuel st ss = Ok m) /\
  exists r, commonSnapshot fuel st ss = Ok r /\ besideAll st r ss.
Proof.
  intros Hne Hall. split.
  - intros m Hm Hline. by apply commonSnapshot_line.
  - by apply commonSnapshot_beside.
Qed.

(** ** Concrete snapshots *)

#[global] Instance mergeSortFunc : SortFunc.
Proof.
  refine {| sortFunc := fun A key l => merge_sort (fun a b => String.le (key a) (key b)) l |}.
  - intros A key l. apply merge_sort_Permutation.
  - intros A key l. apply StronglySorted_merge_sort; [intros a b c; apply transitivity|intros a b; apply (total String.le)].
Defined.

(** The snapshots of the comment on [commonSnapshot]. *)
Definition exSnapshot (id snapshot order : string) (counter : Z) : StorageChange :=
  mkStorageChange (Some id) [] id counter snapshot order 1 "sn1" 1.

Definition exSnapshots : listStore := mkListStore "sn1" [] "sn1"
  [exSnapshot "sn1" "" "a" 1; exSnapshot "sn2" "sn1" "b" 2; exSnapshot "sn3" "sn2" "c" 3;
   exSnapshot "sn4" "sn2" "d" 3; exSnapshot "sn5" "sn3" "e" 4; exSnapshot "sn6" "sn4" "f" 4;
   exSnapshot "sn7" "sn4" "g" 4; exSnapshot "sn8" "sn5" "h" 5].

Lemma ex_snapshotAt_next x n sc p :
  tst_Get exSnapshots x = Ok sc -> sc_Id sc = x -> sc_SnapshotId sc <> "" -> sc_SnapshotCounter sc = n + 1 ->
  snapshotAt exSnapshots (sc_SnapshotId sc) n p -> snapshotAt exSnapshots x (n + 1) sc.
Proof. apply snapshotAt_next. Qed.

Lemma ex_sn2 : snapshotAt exSnapshots "sn2" 2 (exSnapshot "sn2" "sn1" "b" 2).
Proof. apply (ex_snapshotAt_next "sn2" 1 _ (exSnapshot "sn1" "" "a" 1)); try done.
  exact (snapshotAt_root exSnapshots (exSnapshot "sn1" "" "a" 1) eq_refl eq_refl eq_refl eq_refl).
Qed.
Lemma ex_sn3 : snapshotAt exSnapshots "sn3" 3 (exSnapshot "sn3" "sn2" "c" 3).
Proof. by apply (ex_snapshotAt_next "sn3" 2 _ _ eq_refl eq_refl ltac:(done) eq_refl ex_sn2). Qed.
Lemma ex_sn5 : snapshotAt exSnapshots "sn5" 4 (exSnapshot "sn5" "sn3" "e" 4).
Proof. by apply (ex_snapshotAt_next "sn5" 3 _ _ eq_refl eq_refl ltac:(done) eq_refl ex_sn3). Qed.

Lemma tree_common_snapshot_witness :
  (forall m, m ∈ ["sn5"; "sn2"] -> (forall s, s ∈ ["sn5"; "sn2"] -> rtc (below exSnapshots) s m) ->
     commonSnapshot 5 exSnapshots ["sn5"; "sn2"] = Ok m) /\
  exists r, commonSnapshot 5 exSnapshots ["sn5"; "sn2"] = Ok r /\ besideAll exSnapshots r ["sn5"; "sn2"].
Proof.
  apply (tree_common_snapshot exSnapshots 5 ["sn5"; "sn2"]); [done|].
  constructor; [|constructor; [|constructor]].
  - exists 4, (exSnapshot "sn5" "sn3" "e" 4). split; [apply ex_sn5|lia].
  - exists 2, (exSnapshot "sn2" "sn1" "b" 2). split; [apply ex_sn2|lia].
Defined.

(** Branches do not meet where the comment says.  In the tree of snapshots of the
    comment on [commonSnapshot], the branches of sn8, sn6 and sn7 meet in sn2, but the
    function returns sn3, which is not above sn6. *)
Theorem tree_common_snapshot_sibling :
  commonSnapshot 10 exSnapshots ["sn8"; "sn6"; "sn7"] = Ok "sn3" /\
  pathFrom 10 exSnapshots "sn6" = Ok ["sn6"; "sn4"; "sn2"; "sn1"].
Proof. split; vm_compute; reflexivity. Qed.

(** Without any snapshot to start from, which is what the history before the root asks
    for, the search never ends. *)
Theorem tree_common_snapshot_hangs {T} `{TreeStorage T} `{SortFunc} (st : T) fuel :
  commonSnapshot fuel st [] = Err outOfFuel.
Proof. unfold commonSnapshot. simpl. apply meetSnapshots_none. Qed.
