(* ===== verification/TreeLoad.v ===== *)
(** Serving the changes a peer is missing (src/commonspace/object/tree/objecttree/
    loaditerator.go): the changes after a common snapshot, less those the peer's heads
    are above of, in batches of bounded size. *)

From Stdlib Require Import ZArith Lia String.
From stdpp Require Import base option list gmap strings sorting.
From S2P Require Import Prelude Crypto AclModels AclState AclValidator AclApply AclStorage AclKeep.
From S2P Require Import AclList TreeModels Tree ChangeBuilder TreeStorage.

Local Open Scope Z_scope.

Record rawCacheEntry := mkRawCacheEntry {
  rce_change : Change;
  rce_removed : bool;
  rce_size : Z;
}.

Record IteratorBatch := mkIteratorBatch {
  ib_Batch : list RawTreeChangeWithId;
  ib_Heads : list string;
  ib_SnapshotPath : list string;
  ib_Root : RawTreeChangeWithId;
}.

Abbreviation rawCache := (gmap string rawCacheEntry).

Record loadIterator := mkLoadIterator {
  li_cache : rawCache;
  li_heads : list string;
  li_lastHeads : list string;
  li_snapshotPath : list string;
  li_orderId : string;
  li_root : RawTreeChangeWithId;
  li_isExhausted : bool;
}.

Definition newLoadIterator (root : RawTreeChangeWithId) (snapshotPath : list string) : loadIterator :=
  mkLoadIterator ∅ [] [] snapshotPath "" root false.

Section load.
Context `{CryptoPrims} `{SealPrims} `{ListCodec} `{TreeCodec} {T : Type} `{TreeStorage T}.
Implicit Types (st : T) (c : changeBuilder) (l : loadIterator).

Definition rawSize (sc : StorageChange) : Z := Z.of_nat (String.length (default "" (sc_RawChange sc))).

(** ** Loading *)

(** The changes from an order id on, with their predecessors. *)
Definition loadCache st c (orderId : string) : res rawCache :=
  runs (tst_GetAfterOrder st orderId rawCache (fun change =>
    ch ← lifts (cb_UnmarshallReduced c (sc_Raw change));
    assigns (<[sc_Id change := mkRawCacheEntry ch false (rawSize change)]>) ;;
    mret true)) ∅.

(** The predecessors of a loaded change that are loaded. *)
Definition prevLoaded (cache : rawCache) (id : string) : list string :=
  match cache !! id with
  | Some entry => filter (fun p => is_Some (cache !! p)) (ch_PreviousIds (rce_change entry))
  | None => []
  end.

(** [dfs] with the visitor that marks changes as removed; the stack, top first. *)
Definition removedBy (cache : rawCache) (breakpoints : list string) : gset string :=
  let existing := filter (fun b => is_Some (cache !! b)) breakpoints in
  default ∅ (dfsLoop (prevLoaded cache)
    (edges (rce_change <$> cache) (prevLoaded cache) + length (rev existing)) (rev existing) ∅).

Definition markRemoved (removed : gset string) (id : string) (e : rawCacheEntry) : rawCacheEntry :=
  if decide (id ∈ removed) then mkRawCacheEntry (rce_change e) true (rce_size e) else e.

Definition load st c (commonSnapshot : string) (heads breakpoints : list string) l : res loadIterator :=
  cs ← tst_Get st commonSnapshot;
  cache ← loadCache st c (sc_OrderId cs);
  let removed := removedBy cache breakpoints in
  Ok (mkLoadIterator (map_imap (fun id e => Some (markRemoved removed id e)) cache) heads [sc_Id cs]
        (li_snapshotPath l) (sc_OrderId cs) (li_root l) (li_isExhausted l)).

(** ** Batches *)

(** The variables the visitor of [NextBatch] writes. *)
Record batchState := mkBatchState {
  bs_orderId : string;
  bs_isExhausted : bool;
  bs_curSize : Z;
  bs_Batch : list RawTreeChangeWithId;
  bs_Heads : list string;
}.

(** A change on top of the heads. *)
Definition overHeads (heads : list string) (sc : StorageChange) : list string :=
  let heads := filter (fun s => s ∉ sc_PrevIds sc) heads in
  if slices_Contains heads (sc_Id sc) then heads else heads ++ [sc_Id sc].

Definition visitBatch (cache : rawCache) (maxSize : Z) (sc : StorageChange) : ST batchState bool := fun b =>
  let b := mkBatchState (sc_OrderId sc) (bs_isExhausted b) (bs_curSize b) (bs_Batch b) (bs_Heads b) in
  match cache !! sc_Id sc with
  | None => (b, Ok true)
  | Some rawEntry =>
      if rce_removed rawEntry then
        (mkBatchState (bs_orderId b) (bs_isExhausted b) (bs_curSize b) (bs_Batch b)
           (overHeads (bs_Heads b) sc), Ok true)
      else if (maxSize <=? bs_curSize b + rce_size rawEntry) && negb (bool_decide (bs_Batch b = [])) then
        (mkBatchState (bs_orderId b) false (bs_curSize b) (bs_Batch b) (bs_Heads b), Ok false)
      else
        (mkBatchState (bs_orderId b) (bs_isExhausted b) (bs_curSize b + rce_size rawEntry)
           (bs_Batch b ++ [sc_Raw sc]) (overHeads (bs_Heads b) sc), Ok true)
  end.

Definition NextBatch st (maxSize : Z) : ST loadIterator IteratorBatch := fun l =>
  if li_isExhausted l then (l, Ok (mkIteratorBatch [] [] (li_snapshotPath l) (li_root l)))
  else
    let '(b, r) := tst_GetAfterOrder st (li_orderId l) batchState (visitBatch (li_cache l) maxSize)
                     (mkBatchState (li_orderId l) true 0 [] []) in
    let l' lastHeads := mkLoadIterator (li_cache l) (li_heads l) lastHeads (li_snapshotPath l)
                          (bs_orderId b) (li_root l) (bs_isExhausted b) in
    match r with
    | Err e => (l' (li_lastHeads l), Err e)
    | Ok _ => (l' (bs_Heads b),
               Ok (mkIteratorBatch (bs_Batch b) (bs_Heads b) (li_snapshotPath l) (li_root l)))
    end.

(** A client calls [NextBatch] until a batch is empty. *)
Fixpoint drain (fuel : nat) st (maxSize : Z) l : res (list IteratorBatch) :=
  match NextBatch st maxSize l with
  | (_, Err e) => Err e
  | (l, Ok batch) =>
      if decide (ib_Batch batch = []) then Ok []
      else match fuel with
           | O => Err (GoError "still running")
           | S fuel => bs ← drain fuel st maxSize l; Ok (batch :: bs)
           end
  end.
End load.
