(* ===== verification/TreeLoadMain.v ===== *)
(** The load iterator serves exactly the changes a peer is missing. *)

From Stdlib Require Import ZArith Lia String.
From stdpp Require Import base option list gmap strings sorting relations.
From S2P Require Import Prelude Crypto AclModels AclState AclValidator AclApply AclStorage AclKeep.
From S2P Require Import AclList AclExample AclListSync TreeModels Tree TreeOrder TreeMain TreeDfs.
From S2P Require Import ChangeBuilder ToyCodec TreeStorage TreeLoad.

Local Open Scope Z_scope.

(** ** Parts of a log *)

Lemma olt_le_trans a b c : olt a b -> String.le b c -> olt a c.
Proof.
  intros [Hab Hne] Hbc. split; [by etrans|]. intros ->. apply Hne. by apply (anti_symm String.le).
Qed.

Lemma fromOrder_suffix o log L1 c L2 :
  StronglySorted (fun a b => olt (sc_OrderId a) (sc_OrderId b)) log ->
  fromOrder o log = L1 ++ c :: L2 -> fromOrder (sc_OrderId c) log = c :: L2.
Proof.
  intros Hs HR.
  assert (String.le o (sc_OrderId c)) as Hoc.
  { assert (c ∈ fromOrder o log) as Hc by (rewrite HR; apply elem_of_app; right; by left).
    by apply list_elem_of_filter in Hc as [? _]. }
  assert (fromOrder (sc_OrderId c) log = fromOrder (sc_OrderId c) (fromOrder o log)) as ->.
  { unfold fromOrder. rewrite list_filter_filter. apply filter_ext_in. intros x _. split; [|naive_solver].
    intros Hx. split; [done|]. by etrans. }
  assert (StronglySorted (fun a b => olt (sc_OrderId a) (sc_OrderId b)) (L1 ++ c :: L2)) as Hs'.
  { rewrite <- HR. unfold fromOrder. clear -Hs. induction Hs as [|x l Hs IH Hall]; [constructor|].
    rewrite filter_cons. case_decide; [|done]. constructor; [done|]. rewrite Forall_forall in *.
    intros y [_ Hy]%list_elem_of_filter. by apply Hall. }
  rewrite HR. unfold fromOrder. rewrite filter_app.
  assert (forall x, x ∈ L1 -> olt (sc_OrderId x) (sc_OrderId c)) as Hlow.
  { clear -Hs'. induction L1 as [|y L1 IH]; [intros ? []%not_elem_of_nil|]. simpl in Hs'.
    apply StronglySorted_inv in Hs' as [Hs' Hall]. intros x [->|Hx]%elem_of_cons; [|by apply IH].
    rewrite Forall_forall in Hall. apply Hall, elem_of_app. right. by left. }
  rewrite filter_none; cycle 1.
  { apply Forall_forall. intros x Hx Hle. destruct (Hlow x Hx) as [Hxc Hne]. apply Hne. by apply (anti_symm String.le). }
  simpl. apply filter_all. constructor; [done|]. clear -Hs'. induction L1 as [|y L1 IH]; simpl in Hs'.
  - apply StronglySorted_inv in Hs' as [_ Hall]. eapply Forall_impl; [exact Hall|]. by intros x [? _].
  - apply StronglySorted_inv in Hs' as [Hs' _]. by apply IH.
Qed.

(** ** Batches *)

Section batches.
Context `{CryptoPrims} `{SealPrims} `{ListCodec} `{TreeCodec} {T : Type} `{TreeStorageLaws T}.
Variables (st : T) (cache : rawCache) (maxSize : Z).
Hypothesis Hwf : tst_wf st.
Hypothesis Hdistinct : NoDup (sc_OrderId <$> tst_log st).
Hypothesis Hsizes : forall sc e, sc ∈ tst_log st -> cache !! sc_Id sc = Some e -> rce_size e = rawSize sc.
Implicit Types (sc : StorageChange) (b : batchState) (l : loadIterator).

(** The changes that are sent. *)
Definition kept sc : Prop := rce_removed <$> cache !! sc_Id sc = Some false.
#[global] Instance kept_dec sc : Decision (kept sc).
Proof. unfold kept. apply _. Defined.

Definition bytesOf (l : list RawTreeChangeWithId) : Z :=
  foldr (fun r n => Z.of_nat (String.length (default "" (rtc_RawChange r))) + n) 0 l.

Lemma bytesOf_app (l1 l2 : list RawTreeChangeWithId) : bytesOf (l1 ++ l2) = bytesOf l1 + bytesOf l2.
Proof. unfold bytesOf. induction l1; simpl; lia. Qed.

(** A batch is a single change, or smaller than the maximum. *)
Definition batch_small (l : list RawTreeChangeWithId) : Prop :=
  (length l <= 1)%nat \/ bytesOf l < maxSize.

Lemma visitBatch_run L b :
  (forall sc, sc ∈ L -> sc ∈ tst_log st) -> bs_isExhausted b = true ->
  bs_curSize b = bytesOf (bs_Batch b) -> batch_small (bs_Batch b) ->
  exists L1 L2 b', visitChanges (visitBatch cache maxSize) L b = (b', Ok tt) /\ L = L1 ++ L2 /\
    bs_Batch b' = bs_Batch b ++ (sc_Raw <$> filter kept L1) /\ batch_small (bs_Batch b') /\
    (L2 = [] /\ bs_isExhausted b' = true \/
     exists c L', L2 = c :: L' /\ kept c /\ bs_isExhausted b' = false /\ bs_orderId b' = sc_OrderId c /\
       bs_Batch b' <> []).
Proof.
  revert b. induction L as [|c L IH]; intros b Hlog Hex Hsz Hsm.
  { exists [], [], b. rewrite filter_nil. csimpl. rewrite app_nil_r. split_and!; [done..|by left]. }
  assert (forall sc, sc ∈ L -> sc ∈ tst_log st) as Hlog' by (intros sc Hsc; apply Hlog; by right).
  (* the rest of the loop after a change that was passed by *)
  assert (forall b1 add, bs_isExhausted b1 = true -> bs_curSize b1 = bytesOf (bs_Batch b1) ->
    batch_small (bs_Batch b1) -> bs_Batch b1 = bs_Batch b ++ add -> add = (sc_Raw <$> filter kept [c]) ->
    exists L1 L2 b', visitChanges (visitBatch cache maxSize) L b1 = (b', Ok tt) /\ c :: L = L1 ++ L2 /\
    bs_Batch b' = bs_Batch b ++ (sc_Raw <$> filter kept L1) /\ batch_small (bs_Batch b') /\
    (L2 = [] /\ bs_isExhausted b' = true \/
     exists c L', L2 = c :: L' /\ kept c /\ bs_isExhausted b' = false /\ bs_orderId b' = sc_OrderId c /\
       bs_Batch b' <> [])) as Hgo.
  { intros b1 add Hex1 Hsz1 Hsm1 Hb1 Hadd. destruct (IH b1 Hlog' Hex1 Hsz1 Hsm1) as (L1 & L2 & b' & Hrun & HL & Hb' & Hsm' & Hend).
    exists (c :: L1), L2, b'. split_and!; [done|by rewrite HL| |done|done].
    rewrite Hb', Hb1, Hadd, <- app_assoc, (filter_cons _ c L1), (filter_cons _ c []), filter_nil. by case_decide. }
  simpl. unfold mbind, st_bind, visitBatch.
  assert (kept c <-> rce_removed <$> cache !! sc_Id c = Some false) as Hkept by done.
  destruct (cache !! sc_Id c) as [e|] eqn:He; cycle 1.
  { apply (Hgo _ []); try done; [by rewrite app_nil_r|]. rewrite filter_cons_False; [done|]. naive_solver. }
  simpl in Hkept. destruct (rce_removed e) eqn:Hrm.
  { apply (Hgo _ []); try done; simpl; [by rewrite app_nil_r|]. rewrite filter_cons_False; [done|]. naive_solver. }
  pose proof (Hsizes c e (Hlog c (list_elem_of_here _ _)) He) as Hse.
  destruct ((maxSize <=? _) && _) eqn:Hbig.
  - apply andb_true_iff in Hbig as [_ Hne]. apply negb_true_iff, bool_decide_eq_false in Hne. simpl in Hne.
    eexists [], (c :: L), _. rewrite filter_nil, app_nil_r. split_and!; [done|done|done|done|]. right.
    exists c, L. split_and!; try done. naive_solver.
  - apply (Hgo _ [sc_Raw c]); simpl; [done| | |done|].
    + rewrite bytesOf_app, Hsz, Hse. unfold bytesOf, rawSize. simpl. lia.
    + unfold batch_small. rewrite length_app, bytesOf_app. apply andb_false_iff in Hbig as [Hb|Hb].
      * right. apply Z.leb_gt in Hb. simpl in Hb. rewrite Hsz, Hse in Hb. unfold bytesOf, rawSize in *. simpl. lia.
      * left. apply negb_false_iff, bool_decide_eq_true in Hb. simpl in Hb. by rewrite Hb.
    + rewrite filter_cons_True; [done|]. naive_solver.
Qed.

Lemma NextBatch_exhausted l :
  li_isExhausted l = true -> NextBatch st maxSize l = (l, Ok (mkIteratorBatch [] [] (li_snapshotPath l) (li_root l))).
Proof. unfold NextBatch. by intros ->. Qed.

Lemma drain_exhausted fuel l : li_isExhausted l = true -> drain fuel st maxSize l = Ok [].
Proof. intros Hl. destruct fuel; simpl; by rewrite NextBatch_exhausted. Qed.

Definition batches_ok (bs : list IteratorBatch) : Prop :=
  Forall (fun ib => ib_Batch ib <> [] /\ batch_small (ib_Batch ib)) bs.

Lemma drain_spec fuel l :
  li_cache l = cache -> li_isExhausted l = false ->
  (length (filter kept (fromOrder (li_orderId l) (tst_log st))) <= fuel)%nat ->
  exists bs, drain fuel st maxSize l = Ok bs /\ batches_ok bs /\
    concat (ib_Batch <$> bs) = sc_Raw <$> filter kept (fromOrder (li_orderId l) (tst_log st)).
Proof.
  revert l. induction fuel as [|fuel IH]; intros l Hc Hex Hf.
  all: set (R := fromOrder (li_orderId l) (tst_log st)) in *.
  all: destruct (visitBatch_run R (mkBatchState (li_orderId l) true 0 [] [])) as (L1 & L2 & b' & Hrun & HR & Hb' & Hsm & Hend);
    [intros sc [_ Hsc]%list_elem_of_filter; exact Hsc|done|done|left; simpl; lia|].
  all: simpl in Hb'; simpl; unfold NextBatch; rewrite Hex, Hc, tst_After_law by done; fold R; rewrite Hrun.
  all: destruct (decide (bs_Batch b' = [])) as [Hnil|Hne]; simpl;
    [rewrite decide_True by done|rewrite decide_False by done].
  1, 3: destruct Hend as [[-> _]|(? & ? & _ & _ & _ & _ & ?)]; [|done];
    exists []; split_and!; [done|constructor|]; rewrite HR, app_nil_r, <- Hb', Hnil; done.
  - exfalso. apply Hne. rewrite Hb'. rewrite HR, filter_app, length_app in Hf.
    by destruct (filter kept L1); [|simpl in Hf; lia].
  - destruct Hend as [[-> Hex']|(c & L' & HL2 & Hkc & Hex' & Hord & _)].
    + rewrite drain_exhausted by done. eexists. split_and!; [done| |].
      * constructor; [done|constructor].
      * simpl. rewrite HR, !app_nil_r. exact Hb'.
    + subst L2. destruct (IH (mkLoadIterator cache (li_heads l) (bs_Heads b') (li_snapshotPath l) (bs_orderId b')
        (li_root l) (bs_isExhausted b'))) as (bs & Hdr & Hbs & Hcat); simpl; [done|done| |].
      * rewrite Hord, (fromOrder_suffix _ _ _ _ _ (strict_order _ Hdistinct (tl_order _ (tst_log_ok _ Hwf))) HR).
        rewrite HR, filter_app, length_app in Hf.
        destruct (filter kept L1) eqn:HL1; [by destruct Hne|]. simpl in Hf. lia.
      * rewrite Hdr. eexists. split_and!; [done| |].
        -- constructor; [done|done].
        -- csimpl. rewrite Hcat. simpl.
           rewrite Hord, (fromOrder_suffix _ _ _ _ _ (strict_order _ Hdistinct (tl_order _ (tst_log_ok _ Hwf))) HR).
           by rewrite HR, (filter_app _ L1), fmap_app, Hb'.
Qed.
End batches.

(** ** Loading *)

Section loading.
Context `{CryptoPrims} `{SealPrims} `{ListCodec} `{TreeCodec} {T : Type} `{TreeStorageLaws T}.
Implicit Types (st : T) (c : changeBuilder) (sc : StorageChange) (loaded : list StorageChange).

(** The changes of a list can be decoded. *)
Definition decodable c loaded : Prop :=
  Forall (fun sc => exists ch, cb_UnmarshallReduced c (sc_Raw sc) = Ok ch) loaded.

(** What the cache holds for a change. *)
Definition entryOf c sc : option rawCacheEntry :=
  match cb_UnmarshallReduced c (sc_Raw sc) with
  | Ok ch => Some (mkRawCacheEntry ch false (rawSize sc))
  | Err _ => None
  end.

(** A change of a list and one of its predecessors in the list. *)
Definition prevIn c loaded (x y : string) : Prop :=
  exists sc ch, sc ∈ loaded /\ sc_Id sc = x /\ cb_UnmarshallReduced c (sc_Raw sc) = Ok ch /\
    y ∈ ch_PreviousIds ch /\ y ∈ sc_Id <$> loaded.

(** The changes below the heads of a peer. *)
Definition peerHas c loaded (heads : list string) (id : string) : Prop :=
  exists h, h ∈ heads /\ h ∈ sc_Id <$> loaded /\ rtc (prevIn c loaded) h id.

Definition cacheOf c loaded (m : rawCache) : rawCache :=
  foldl (fun m sc => match entryOf c sc with Some e => <[sc_Id sc := e]> m | None => m end) m loaded.

Lemma loadCache_run st c o :
  tst_wf st -> decodable c (fromOrder o (tst_log st)) ->
  loadCache st c o = Ok (cacheOf c (fromOrder o (tst_log st)) ∅).
Proof.
  intros Hwf. unfold loadCache, runs. rewrite tst_After_law by done.
  generalize (∅ : rawCache). induction (fromOrder o (tst_log st)) as [|sc loaded IH]; intros m Hd; [done|].
  apply Forall_cons in Hd as [[ch Hch] Hd]. simpl. unfold mbind, st_bind, lifts. rewrite Hch. simpl.
  unfold entryOf. rewrite Hch. by apply IH.
Qed.

Lemma cacheOf_lookup c loaded m sc :
  NoDup (sc_Id <$> loaded) -> decodable c loaded -> sc ∈ loaded -> cacheOf c loaded m !! sc_Id sc = entryOf c sc.
Proof.
  assert (forall loaded m id, id ∉ sc_Id <$> loaded -> cacheOf c loaded m !! id = m !! id) as Hother.
  { clear. intros loaded. induction loaded as [|x loaded IH]; intros m id Hid; [done|]. csimpl in Hid.
    apply not_elem_of_cons in Hid as [Hx Hid]. simpl. rewrite IH by done.
    destruct (entryOf c x); [by rewrite lookup_insert_ne|done]. }
  intros Hnd Hd. revert m. induction loaded as [|x loaded IH]; intros m; [by intros []%not_elem_of_nil|].
  csimpl in Hnd. apply NoDup_cons in Hnd as [Hx Hnd]. apply Forall_cons in Hd as [[ch Hch] Hd].
  intros [->|Hsc]%elem_of_cons; [|by apply IH]. simpl. rewrite Hother by done.
  unfold entryOf. by rewrite Hch, lookup_insert_eq.
Qed.

Lemma cacheOf_only c loaded id : is_Some (cacheOf c loaded ∅ !! id) -> id ∈ sc_Id <$> loaded.
Proof.
  intros Hs. destruct (decide (id ∈ sc_Id <$> loaded)) as [|Hid]; [done|exfalso].
  revert Hs. assert ((∅ : rawCache) !! id = None) as Hm by apply lookup_empty. revert Hm.
  generalize (∅ : rawCache). induction loaded as [|x loaded IH]; intros m Hm; simpl; [rewrite Hm; by intros []|].
  csimpl in Hid. apply not_elem_of_cons in Hid as [Hx Hid]. apply IH; [done|].
  destruct (entryOf c x); [by rewrite lookup_insert_ne|done].
Qed.

Section cache.
Variables (c : changeBuilder) (loaded : list StorageChange).
Hypothesis Hnd : NoDup (sc_Id <$> loaded).
Hypothesis Hdec : decodable c loaded.
Let cache := cacheOf c loaded ∅.

Lemma cache_some id : is_Some (cache !! id) <-> id ∈ sc_Id <$> loaded.
Proof.
  split; [apply cacheOf_only|]. intros (sc & -> & Hsc)%list_elem_of_fmap. unfold cache.
  rewrite cacheOf_lookup by done. unfold entryOf.
  destruct (proj1 (Forall_forall _ _) Hdec sc Hsc) as [ch ->]. by eexists.
Qed.

Lemma prevLoaded_prevIn x y : y ∈ prevLoaded cache x <-> prevIn c loaded x y.
Proof.
  unfold prevLoaded. split.
  - destruct (cache !! x) as [e|] eqn:Hx; [|by intros []%not_elem_of_nil].
    intros [Hy%cache_some Hpy]%list_elem_of_filter.
    assert (is_Some (cache !! x)) as (sc & -> & Hsc)%cache_some%list_elem_of_fmap by by eexists.
    unfold cache in Hx. rewrite cacheOf_lookup in Hx by done. unfold entryOf in Hx.
    destruct (cb_UnmarshallReduced c (sc_Raw sc)) as [ch|] eqn:Hch; [|done]. injection Hx as <-.
    by exists sc, ch.
  - intros (sc & ch & Hsc & <- & Hch & Hy & Hly). unfold cache. rewrite cacheOf_lookup by done.
    unfold entryOf. rewrite Hch. apply list_elem_of_filter. split; [by apply cache_some|done].
Qed.

Lemma removedBy_spec heads id : id ∈ removedBy cache heads <-> peerHas c loaded heads id.
Proof.
  unfold removedBy. cbv zeta.
  destruct (dfsLoop_spec (rce_change <$> cache) (prevLoaded cache)) with
    (stack := rev (filter (fun b => is_Some (cache !! b)) heads)) as (vs & -> & Hvs).
  { intros x. rewrite lookup_fmap, fmap_None. unfold prevLoaded. by intros ->. }
  simpl. rewrite Hvs. unfold peerHas. split.
  - intros (h & Hh & Hr). rewrite elem_of_rev, list_elem_of_filter, cache_some in Hh. exists h.
    split_and!; [apply Hh|apply Hh|]. eapply rtc_subrel; [|exact Hr]. intros x y. apply prevLoaded_prevIn.
  - intros (h & Hh & Hl & Hr). exists h. split; [by rewrite elem_of_rev, list_elem_of_filter, cache_some|].
    eapply rtc_subrel; [|exact Hr]. intros x y. apply prevLoaded_prevIn.
Qed.

Lemma marked_kept heads sc :
  sc ∈ loaded ->
  kept (map_imap (fun id e => Some (markRemoved (removedBy cache heads) id e)) cache) sc <->
  ~ peerHas c loaded heads (sc_Id sc).
Proof.
  intros Hsc. rewrite <- removedBy_spec. unfold kept. rewrite map_lookup_imap. unfold cache at 2.
  rewrite cacheOf_lookup by done. unfold entryOf.
  destruct (proj1 (Forall_forall _ _) Hdec sc Hsc) as [ch ->]. simpl. unfold markRemoved.
  case_decide; simpl; naive_solver.
Qed.

Lemma marked_size removed sc e :
  sc ∈ loaded -> map_imap (fun id e => Some (markRemoved removed id e)) cache !! sc_Id sc = Some e ->
  rce_size e = rawSize sc.
Proof.
  intros Hsc. rewrite map_lookup_imap. unfold cache. rewrite cacheOf_lookup by done. unfold entryOf.
  destruct (cb_UnmarshallReduced c (sc_Raw sc)); [|done]. simpl. unfold markRemoved.
  case_decide; by intros [= <-].
Qed.
End cache.

Lemma loaded_in st o sc sc' :
  tst_wf st -> sc ∈ tst_log st -> sc' ∈ fromOrder o (tst_log st) -> sc_Id sc = sc_Id sc' ->
  sc ∈ fromOrder o (tst_log st).
Proof.
  intros Hwf Hsc [Ho Hsc']%list_elem_of_filter Hid. apply list_elem_of_filter. split; [|done].
  enough (sc = sc') as -> by done.
  pose proof (tst_Get_law _ _ Hwf Hsc) as H1'. rewrite Hid, (tst_Get_law _ _ Hwf Hsc') in H1'. by injection H1'.
Qed.

Lemma fromOrder_NoDup o log : tlog_ok log -> NoDup (sc_Id <$> fromOrder o log).
Proof.
  intros [Hnd _]. eapply sublist_NoDup; [exact Hnd|]. apply fmap_sublist, sublist_filter.
Qed.

(** The load iterator serves what a peer is missing, and ends.  For a storage with
    distinct order ids whose changes from a common snapshot on can be decoded, [load] succeeds and calling
    [NextBatch] until a batch is empty ends after at most one call per stored change.  The
    batches are not empty, and each is a single change or smaller than the maximal size;
    together they are, in the order of the storage and without repetition, exactly the
    stored changes from the snapshot on that are not below the heads of the peer; so a
    peer that holds its heads with all their predecessors holds every change afterwards. *)
Theorem tree_load_complete st c cs heads breakpoints maxSize l :
  tst_wf st -> NoDup (sc_OrderId <$> tst_log st) -> cs ∈ tst_log st -> decodable c (fromOrder (sc_OrderId cs) (tst_log st)) ->
  li_isExhausted l = false ->
  let loaded := fromOrder (sc_OrderId cs) (tst_log st) in
  exists l' bs sent, load st c (sc_Id cs) heads breakpoints l = Ok l' /\
    drain (length loaded) st maxSize l' = Ok bs /\
    batches_ok maxSize bs /\
    sent `sublist_of` loaded /\ concat (ib_Batch <$> bs) = sc_Raw <$> sent /\
    (forall sc, sc ∈ loaded -> sc ∈ sent <-> ~ peerHas c loaded breakpoints (sc_Id sc)) /\
    (forall have : gset string,
      (forall x y, x ∈ have -> prevIn c loaded x y -> y ∈ have) ->
      (forall b, b ∈ breakpoints -> b ∈ have) ->
      forall sc, sc ∈ loaded -> sc_Id sc ∈ have \/ sc_Raw sc ∈ concat (ib_Batch <$> bs)).
Proof.
  intros Hwf Hord Hcs Hdec Hl loaded. pose proof (tst_log_ok _ Hwf) as Hlog.
  assert (NoDup (sc_Id <$> loaded)) as Hnd by by apply fromOrder_NoDup.
  unfold load. rewrite tst_Get_law by done. simpl. rewrite loadCache_run by done. simpl. fold loaded.
  set (cache := map_imap _ _).
  assert (forall sc, sc ∈ loaded -> kept cache sc <-> ~ peerHas c loaded breakpoints (sc_Id sc)) as Hkept
    by (intros; by apply marked_kept).
  destruct (drain_spec st cache maxSize Hwf Hord) with (fuel := length loaded) (l := mkLoadIterator cache heads
    [sc_Id cs] (li_snapshotPath l) (sc_OrderId cs) (li_root l) (li_isExhausted l)) as (bs & Hbs & Hok & Hcat).
  - intros sc e Hsc He. eapply (marked_size c loaded Hnd Hdec); [|exact He].
    assert (sc_Id sc ∈ sc_Id <$> loaded) as (sc' & Hid & Hsc')%list_elem_of_fmap.
    { apply (cacheOf_only c). unfold cache in He. rewrite map_lookup_imap in He.
      destruct (cacheOf c loaded ∅ !! sc_Id sc); [by eexists|done]. }
    by eapply loaded_in.
  - done.
  - done.
  - apply length_filter.
  - eexists _, bs, (filter (kept cache) loaded). split; [reflexivity|]. split; [exact Hbs|].
    assert (forall sc, sc ∈ loaded -> sc ∈ filter (kept cache) loaded <-> ~ peerHas c loaded breakpoints (sc_Id sc))
      as Hsent.
    { intros sc Hsc. rewrite list_elem_of_filter, Hkept by done. naive_solver. }
    split_and!; [done|apply sublist_filter|done|done|].
    intros have Hclosed Hheads sc Hsc.
    destruct (decide (kept cache sc)) as [Hk|Hk].
    + right. rewrite Hcat. apply list_elem_of_fmap_2, list_elem_of_filter. by split.
    + left. rewrite Hkept in Hk by done.
      assert (sc_Id sc ∈ removedBy (cacheOf c loaded ∅) breakpoints) as Hr.
      { apply dec_stable. by rewrite removedBy_spec. }
      apply removedBy_spec in Hr as (h & Hh & _ & Hr); [|done|done].
      apply Hheads in Hh. clear -Hclosed Hh Hr. induction Hr as [|x y z Hxy _ IH]; [done|].
      by apply IH, (Hclosed x).
Qed.
End loading.

(** ** Witness *)

Local Open Scope string_scope.

(** A root, two branches and their merge. *)
Definition exStored (id order : string) (prev : list string) : StorageChange :=
  mkStorageChange (Some (ser_raw (mkRawTreeChange
      (ser_change (mkTreeChange prev "" "c0" None "" 0 (idOf alice) false "")) None)))
    prev id 0 "c0" order 1 "c0" 1.
Definition exRootStored : StorageChange :=
  mkStorageChange (Some (ser_raw (mkRawTreeChange
      (ser_root (mkRootChange "" "space" "" 0 "" (idOf alice) "" true "")) None)))
    [] "c0" 0 "" "a" 1 "c0" 1.
Definition exTreeStore : listStore := mkListStore "c0" ["c3"] "c0"
  [exRootStored; exStored "c1" "b" ["c0"]; exStored "c2" "c" ["c0"]; exStored "c3" "d" ["c1"; "c2"]].
Definition exTreeBuilder : changeBuilder := NewChangeBuilder (Some (sc_Raw exRootStored)).

(** A peer at the first branch is sent the second branch and the merge. *)
Lemma tree_load_complete_witness :
  exists l' bs sent,
    load exTreeStore exTreeBuilder "c0" ["c3"] ["c1"] (newLoadIterator (sc_Raw exRootStored) ["c0"]) = Ok l' /\
    drain 4 exTreeStore 10 l' = Ok bs /\ concat (ib_Batch <$> bs) = sc_Raw <$> sent /\
    sent `sublist_of` ls_log exTreeStore.
Proof.
  destruct (tree_load_complete exTreeStore exTreeBuilder exRootStored ["c3"] ["c1"] 10
    (newLoadIterator (sc_Raw exRootStored) ["c0"])) as (l' & bs & sent & Hl & Hd & _ & Hs & Hc & _).
  - split; [apply (bool_decide_unpack _); vm_compute; exact I|].
    repeat constructor.
  - apply (bool_decide_unpack _). vm_compute. exact I.
  - apply list_elem_of_here.
  - vm_compute. repeat constructor; eexists; reflexivity.
  - reflexivity.
  - exists l', bs, sent. split; [exact Hl|]. split; [exact Hd|]. split; [exact Hc|exact Hs].
Defined.

Definition exServed : res (list (list string)) :=
  l' ← load exTreeStore exTreeBuilder "c0" ["c3"] ["c1"] (newLoadIterator (sc_Raw exRootStored) ["c0"]);
  bs ← drain 4 exTreeStore 10 l';
  Ok (map (fun b => map rtc_Id (ib_Batch b)) bs).
Example exTreeServed : exServed = Ok [["c2"]; ["c3"]].
Proof. vm_compute. reflexivity. Qed.
