(* ===== verification/TreeBuild.v ===== *)
(** What an object tree is made with: the keys of the tree, the validation of its changes
    against the ACL, and building it from the storage
    (src/util/crypto/derived.go; util.go, objecttreevalidator.go and treebuilder.go of
    src/commonspace/object/tree/objecttree). *)

From Stdlib Require Import ZArith Lia String Ascii.
From stdpp Require Import base option list gmap strings sorting.
From S2P Require Import Prelude Crypto AclModels AclState AclValidator AclApply AclStorage AclKeep AclList.
From S2P Require Import TreeModels Tree ChangeBuilder TreeStorage TreeSnapshots.

(** * The keys of an object tree (derived.go, deriveTreeKey of util.go): every read key of
    the space gives the tree a key of its own, derived along the path of the tree.
    HMAC-SHA512 is the class [HmacPrims]. *)

Local Open Scope string_scope.

Class HmacPrims := {
  (** the 64-byte sum of a message under a key *)
  hmac_sha512 : bytes -> bytes -> bytes;
}.

(** [fmt.Sprintf(crypto.AnysyncTreePath, id)] *)
Definition AnysyncTreePath (id : string) : string := "m/SLIP-0021/anysync/tree/" ++ id.

(** [strings.CutPrefix], the cut string *)
Definition CutPrefix (s prefix : string) : string :=
  if String.prefix prefix s then substring (String.length prefix) (String.length s - String.length prefix) s
  else s.

(** [strings.Split(s, "/")] *)
Fixpoint SplitSlash (s : string) : list string :=
  match s with
  | EmptyString => [EmptyString]
  | String c s =>
      if Ascii.eqb c "/" then EmptyString :: SplitSlash s
      else match SplitSlash s with
           | part :: parts => String c part :: parts
           | [] => [String c EmptyString]
           end
  end.

(** The labels of the path, each after a zero byte; the sum buffer is transparent. *)
Record KeyDeriver := mkKeyDeriver { kd_labels : list bytes }.

Definition NewKeyDeriver (path : string) : KeyDeriver :=
  mkKeyDeriver ((fun p => String Ascii.zero p) <$> SplitSlash (CutPrefix path "m/")).

Definition slip21SeedModifier : string := "Symmetric key seed".

Section keys.
Context `{CryptoPrims} `{HmacPrims}.

Definition DeriveKey (d : KeyDeriver) (seed : bytes) : res SymKey :=
  let sum := fold_left (fun sum label => hmac_sha512 (substring 0 32 sum) label) (kd_labels d)
               (hmac_sha512 slip21SeedModifier seed) in
  UnmarshallAESKey (substring 32 32 sum).

Definition SymKey_Raw (k : SymKey) : res bytes := Ok (symRaw k).

Definition deriveTreeKey (key : SymKey) (cid : string) : res SymKey :=
  raw ← SymKey_Raw key;
  DeriveSymmetricKey raw (AnysyncTreePath cid).
End keys.

(** * Validation of the changes of a tree against the ACL
    (src/commonspace/object/tree/objecttree/objecttreevalidator.go): a change counts when
    its author could write at the ACL record it names, and it does not go back in the
    history of the ACL. *)

Local Open Scope list_scope.
Local Open Scope Z_scope.

Definition ErrHasInvalidChanges := GoError "the change is invalid".

(** [Tree.RootId] *)
Definition RootId (t : Tree) : string := default "" (t_root t).

Section validator.
Context `{CryptoPrims} `{AclCodec} `{SharedKeyPrims} `{MapRange} `{ProtoWire} `{ListCodec} {TA : Type} `{AclStorage TA}.
Implicit Types (acl : aclList TA) (t : Tree) (c : Change).

(** [objectTreeValidator] and [noOpTreeValidator] *)
Inductive treeValidator :=
| objectTreeValidator (validateKeys shouldFilter : bool)
    (contentValidator : option (Change -> aclList TA -> res unit))
| noOpTreeValidator (filterFunc : option (Change -> bool)) (fail : bool).

Definition newTreeValidator (validateKeys filterChanges : bool) : treeValidator :=
  objectTreeValidator validateKeys filterChanges None.
Definition NewTreeValidatorWithContentCheck (validateKeys filterChanges : bool)
    (check : Change -> aclList TA -> res unit) : treeValidator :=
  objectTreeValidator validateKeys filterChanges (Some check).

(** [keys, exists := state.Keys()[id]; exists && keys.ReadKey != nil] *)
Definition hasReadKey acl (id : string) : bool :=
  match st_keys (al_aclState acl) !! id with
  | Some keys => bool_decide (is_Some (ReadKey keys))
  | None => false
  end.

(** One predecessor: its ACL record is not after the one of the change. *)
Definition validatePrevious acl t c (id : string) : res unit :=
  prevChange ← opt_or (t_attached t !! id) nilChange;
  if decide (ci_AclHeadId (ch_Info prevChange) = ci_AclHeadId (ch_Info c)) then Ok tt
  else if ci_IsDerived (ch_Info prevChange) then Ok tt
  else
    after ← IsAfter acl (ci_AclHeadId (ch_Info c)) (ci_AclHeadId (ch_Info prevChange));
    fail_if (negb after) (GoError "current acl head id should be after each of the previous ones").

Definition validateChange (validateKeys : bool) (contentValidator : option (Change -> aclList TA -> res unit))
    t acl c : res unit :=
  if ci_IsDerived (ch_Info c) then Ok tt
  else
    key ← opt_or (ci_Identity (ch_Info c)) (GoPanic "nil PubKey");
    perms ← PermissionsAtRecord (al_indexes acl) (al_aclState acl) (ci_AclHeadId (ch_Info c)) key;
    fail_if (negb (CanWrite perms)) ErrInsufficientPermissions ;;
    if decide (ch_Id c = RootId t) then Ok tt
    else
      fail_if (validateKeys && negb (hasReadKey acl (ci_ReadKeyId (ch_Info c)))) ErrNoReadKey ;;
      match contentValidator with Some check => check c acl | None => Ok tt end ;;
      res_each (validatePrevious acl t c) (ch_PreviousIds c).

(** The changes of the iteration from the root on. *)
Definition iterated t : list Change :=
  omap (fun id => t_attached t !! id) (iterOrder (t_attached t) (t_root t)).

Definition ValidateFullTree (v : treeValidator) t acl : res unit :=
  match v with
  | objectTreeValidator validateKeys _ check => res_each (validateChange validateKeys check t acl) (iterated t)
  | noOpTreeValidator _ fail => fail_if fail (GoError "failed")
  end.

Definition ValidateNewChanges (v : treeValidator) t acl (newChanges : list Change) : res unit :=
  match v with
  | objectTreeValidator validateKeys _ check => res_each (validateChange validateKeys check t acl) newChanges
  | noOpTreeValidator _ fail => fail_if fail (GoError "failed")
  end.

(** Whether something was left out, the changes and the snapshots that stay. *)
Definition FilterChanges (v : treeValidator) acl (changes snapshots : list Change)
    : bool * list Change * list Change :=
  match v with
  | objectTreeValidator _ shouldFilter _ =>
      if negb shouldFilter then (false, changes, snapshots)
      else
        let isRoot c := bool_decide (ch_PreviousIds c = []) in
        let readable c := HasHead acl (ci_AclHeadId (ch_Info c)) && hasReadKey acl (ci_ReadKeyId (ch_Info c)) in
        (existsb (fun c => negb (isRoot c || readable c)) changes,
         List.filter (fun c => isRoot c || readable c) changes,
         List.filter (fun c => isRoot c || readable c && ch_IsSnapshot c) changes)
  | noOpTreeValidator None _ => (false, changes, snapshots)
  | noOpTreeValidator (Some filterFunc) _ =>
      (existsb (fun c => negb (filterFunc c)) changes,
       List.filter filterFunc changes,
       List.filter (fun c => filterFunc c && ch_IsSnapshot c) changes)
  end.
End validator.

Arguments treeValidator TA : clear implicits.

(** * Building a tree from the storage (src/commonspace/object/tree/objecttree/
    treebuilder.go): the stored changes from a common snapshot on, and new changes. *)

Definition ErrEmpty := GoError "database is empty".

Record treeBuilderOpts := mkTreeBuilderOpts {
  tb_full : bool;
  tb_useHeadsSnapshot : bool;
  tb_theirHeads : list string;
  tb_ourHeads : list string;
  tb_ourSnapshotPath : list string;
  tb_theirSnapshotPath : list string;
  tb_newChanges : list Change;
}.

Definition with_Info i c := mkChange (ch_Id c) (ch_PreviousIds c) (ch_SnapshotId c) (ch_IsSnapshot c)
  i (ch_OrderId c) (ch_SnapshotCounter c) (ch_Next c) (ch_Previous c).
Definition with_rawChange r i := mkChangeInfo (ci_AclHeadId i) (ci_Timestamp i) (ci_ReadKeyId i)
  (ci_Identity i) (ci_Data i) (ci_Signature i) (ci_DataType i) (ci_IsDerived i) (ci_IsNew i)
  (ci_ParentId i) (ci_AddSeq i) r.
Definition with_AddSeq n i := mkChangeInfo (ci_AclHeadId i) (ci_Timestamp i) (ci_ReadKeyId i)
  (ci_Identity i) (ci_Data i) (ci_Signature i) (ci_DataType i) (ci_IsDerived i) (ci_IsNew i)
  (ci_ParentId i) n (ci_rawChange i).
Definition with_IsNew b i := mkChangeInfo (ci_AclHeadId i) (ci_Timestamp i) (ci_ReadKeyId i)
  (ci_Identity i) (ci_Data i) (ci_Signature i) (ci_DataType i) (ci_IsDerived i) b
  (ci_ParentId i) (ci_AddSeq i) (ci_rawChange i).

(** A change as the storage keeps it. *)
Definition storedChange (sc : StorageChange) (ch : Change) : Change :=
  with_Info (with_AddSeq (sc_AddSeq sc) (ch_Info ch))
    (with_SnapshotCounter (sc_SnapshotCounter sc) (with_OrderId (sc_OrderId sc) ch)).

Section build.
Context `{CryptoPrims} `{SealPrims} `{ListCodec} `{TreeCodec} `{LexId} `{SortFunc} `{MapRange}
  {T : Type} `{TreeStorage T}.
Implicit Types (st : T) (c : changeBuilder) (opts : treeBuilderOpts).

(** [cache[ch.Id] = ch] *)
Definition newCache (newChanges : list Change) : gmap string Change :=
  fold_left (fun cache ch => <[ch_Id ch := ch]> cache) newChanges ∅.

(** The snapshot to start from, and the last order id to read. *)
Definition startSnapshot (fuel : nat) st opts : res (string * string) :=
  if tb_useHeadsSnapshot opts then
    '(maxOrder, lowest) ← lowestSnapshots st None (tb_ourHeads opts) "";
    snapshot ← onlyOrCommon fuel st lowest;
    Ok (snapshot, maxOrder)
  else if tb_full opts then Ok (tst_Id st, "")
  else
    snapshot ←
      match tb_theirSnapshotPath opts, tb_ourSnapshotPath opts with
      | [], [] => tst_CommonSnapshot st
      | [], our :: _ =>
          '(_, lowest) ← lowestSnapshots st (Some (newCache (tb_newChanges opts))) (tb_theirHeads opts) our;
          onlyOrCommon fuel st lowest
      | _, _ => commonSnapshotForTwoPaths (tb_ourSnapshotPath opts) (tb_theirSnapshotPath opts)
      end;
    Ok (snapshot, "").

(** The visitor: it collects changes, and takes the stored ones out of the cache. *)
Definition visitStored c (order : string) (sc : StorageChange)
    : ST (list Change * gmap string Change) bool :=
  if decide (order <> "" /\ olt order (sc_OrderId sc)) then mret false
  else
    ch ← lifts (cb_Unmarshall c (sc_Raw sc) false);
    assigns (fun '(changes, cache) =>
      (changes ++ [storedChange sc ch], delete (ch_Id ch) cache)) ;;
    mret true.

(** [tr := &Tree{}; added := tr.AddFast(changes...)] *)
Definition addFresh (cs : list Change) : res (Tree * list Change) :=
  match AddFast cs emptyTree with
  | (tr, Ok added) => Ok (tr, omap (fun id => t_attached tr !! id) added)
  | (_, Err e) => Err e
  end.

Definition buildWithAdded (fuel : nat) st c opts : res (Tree * list Change) :=
  '(snapshot, order) ← startSnapshot fuel st opts;
  snapshotCh ← tst_Get st snapshot;
  '(changes, cache) ← runs (tst_GetAfterOrder st (sc_OrderId snapshotCh) _ (visitStored c order))
                        ([], newCache (tb_newChanges opts));
  let newChanges := (map_range cache).*2 in
  fail_if (bool_decide (changes = [])) ErrEmpty ;;
  '(tr, added) ← addFresh (changes ++ newChanges);
  tr ← (if tb_useHeadsSnapshot opts then runs (LeaveOnlyBefore (tb_ourHeads opts)) tr else Ok tr);
  Ok (tr, List.filter (fun change => bool_decide (is_Some (cache !! ch_Id change))) added).

Definition build_ (fuel : nat) st c opts : res Tree :=
  '(tr, _) ← buildWithAdded fuel st c opts;
  Ok tr.

Definition BuildFull (fuel : nat) st c : res Tree :=
  build_ fuel st c (mkTreeBuilderOpts true false [] [] [] [] []).

(** ** History (historytree.go) *)

Definition rebuildFromHeads (fuel : nat) st c (heads : list string) : res Tree :=
  build_ fuel st c (mkTreeBuilderOpts false true [] heads [] [] []).
Definition rebuildCurrent (fuel : nat) st c : res Tree :=
  build_ fuel st c (mkTreeBuilderOpts false false [] [] [] [] []).
Definition rebuildFromPrevious (fuel : nat) st c (beforeId : string) : res Tree :=
  change ← tst_Get st beforeId;
  build_ fuel st c (mkTreeBuilderOpts false true [] (sc_PrevIds change) [] [] []).

Definition history_rebuild (fuel : nat) st c (heads : list string) (includeBeforeId : bool) : res Tree :=
  match heads with
  | [] => BuildFull fuel st c
  | [h] =>
      if decide (h = "") then rebuildCurrent fuel st c
      else if negb includeBeforeId then rebuildFromPrevious fuel st c h
      else rebuildFromHeads fuel st c heads
  | _ => rebuildFromHeads fuel st c heads
  end.
End build.
