(* ===== verification/ObjectTree.v ===== *)
(** The object tree (src/commonspace/object/tree/objecttree: objecttree.go, flusher.go,
    signablecontent.go, derivedtree.go, objecttreefactory.go): a change tree in memory,
    its storage, its builder and validator, and the keys its contents are sealed with.
    Locks and logging have no counterpart; the tree that is not built yet is the empty
    tree. *)

From Stdlib Require Import ZArith Lia String.
From stdpp Require Import base option list gmap strings sorting.
From S2P Require Import Prelude Crypto AclModels AclState AclValidator AclApply AclStorage AclKeep.
From S2P Require Import AclList TreeModels Tree ChangeBuilder TreeStorage TreeSnapshots TreeLoad TreeBuild.


Local Open Scope Z_scope.

Definition ErrDeleted := GoError "object tree is deleted".
Definition ErrMissingKey := GoError "missing current read key".
Definition ErrNoChangeInTree := GoError "no such change in tree".
Definition ErrDerived := GoError "expect >= 2 changes in derived tree".

Record SignableChangeContent := mkSignableChangeContent {
  scc_Data : bytes;
  scc_Key : PrivKey;
  scc_IsSnapshot : bool;
  scc_ShouldBeEncrypted : bool;
  scc_Timestamp : Z;
  scc_DataType : string;
}.

Record AddResult := mkAddResult {
  ar_OldHeads : list string;
  ar_Heads : list string;
  ar_Added : list StorageChange;
  ar_Mode : Mode;
}.

(** Nil heads are [None]. *)
Record RawChangesPayload := mkRawChangesPayload {
  rp_NewHeads : option (list string);
  rp_RawChanges : list RawTreeChangeWithId;
  rp_SnapshotPath : list string;
}.

(** [defaultFlusher], or [newChangeFlusher] with the changes it marked. *)
Inductive Flusher :=
| defaultFlusher
| newChangeFlusher (newChanges : list string).

Section object_tree.
Context `{CryptoPrims} `{AclCodec} `{SharedKeyPrims} `{MapRange} `{ProtoWire} `{ListCodec}
  {TA : Type} `{AclStorage TA} `{SealPrims} `{TreeCodec} `{HmacPrims} `{LexId} `{SortFunc}
  {T : Type} `{TreeStorage T}.

Record objectTree := mkObjectTree {
  ot_storage : T;
  ot_changeBuilder : changeBuilder;
  ot_validator : treeValidator TA;
  ot_aclList : aclList TA;
  ot_flusher : Flusher;
  ot_id : string;
  ot_rawRoot : RawTreeChangeWithId;
  ot_root : option Change;
  ot_tree : Tree;
  ot_keys : gmap string SymKey;
  ot_currentReadKey : option SymKey;
  ot_isDeleted : bool;
  ot_deferredUpdater : bool;
  ot_snapshotPath : list string;
}.
Implicit Types (ot : objectTree).

Abbreviation OM := (ST objectTree).

Definition set_storage v ot := mkObjectTree v (ot_changeBuilder ot) (ot_validator ot) (ot_aclList ot)
  (ot_flusher ot) (ot_id ot) (ot_rawRoot ot) (ot_root ot) (ot_tree ot) (ot_keys ot) (ot_currentReadKey ot)
  (ot_isDeleted ot) (ot_deferredUpdater ot) (ot_snapshotPath ot).
Definition set_flusher v ot := mkObjectTree (ot_storage ot) (ot_changeBuilder ot) (ot_validator ot)
  (ot_aclList ot) v (ot_id ot) (ot_rawRoot ot) (ot_root ot) (ot_tree ot) (ot_keys ot)
  (ot_currentReadKey ot) (ot_isDeleted ot) (ot_deferredUpdater ot) (ot_snapshotPath ot).
Definition set_roots raw root ot := mkObjectTree (ot_storage ot) (ot_changeBuilder ot) (ot_validator ot)
  (ot_aclList ot) (ot_flusher ot) (ot_id ot) raw root (ot_tree ot) (ot_keys ot)
  (ot_currentReadKey ot) (ot_isDeleted ot) (ot_deferredUpdater ot) (ot_snapshotPath ot).
Definition set_tree v ot := mkObjectTree (ot_storage ot) (ot_changeBuilder ot) (ot_validator ot)
  (ot_aclList ot) (ot_flusher ot) (ot_id ot) (ot_rawRoot ot) (ot_root ot) v (ot_keys ot)
  (ot_currentReadKey ot) (ot_isDeleted ot) (ot_deferredUpdater ot) (ot_snapshotPath ot).
Definition set_treeKeys v ot := mkObjectTree (ot_storage ot) (ot_changeBuilder ot) (ot_validator ot)
  (ot_aclList ot) (ot_flusher ot) (ot_id ot) (ot_rawRoot ot) (ot_root ot) (ot_tree ot) v
  (ot_currentReadKey ot) (ot_isDeleted ot) (ot_deferredUpdater ot) (ot_snapshotPath ot).
Definition set_currentReadKey v ot := mkObjectTree (ot_storage ot) (ot_changeBuilder ot)
  (ot_validator ot) (ot_aclList ot) (ot_flusher ot) (ot_id ot) (ot_rawRoot ot) (ot_root ot) (ot_tree ot)
  (ot_keys ot) v (ot_isDeleted ot) (ot_deferredUpdater ot) (ot_snapshotPath ot).
Definition set_isDeleted v ot := mkObjectTree (ot_storage ot) (ot_changeBuilder ot) (ot_validator ot)
  (ot_aclList ot) (ot_flusher ot) (ot_id ot) (ot_rawRoot ot) (ot_root ot) (ot_tree ot) (ot_keys ot)
  (ot_currentReadKey ot) v (ot_deferredUpdater ot) (ot_snapshotPath ot).
Definition set_snapshotPath v ot := mkObjectTree (ot_storage ot) (ot_changeBuilder ot)
  (ot_validator ot) (ot_aclList ot) (ot_flusher ot) (ot_id ot) (ot_rawRoot ot) (ot_root ot) (ot_tree ot)
  (ot_keys ot) (ot_currentReadKey ot) (ot_isDeleted ot) (ot_deferredUpdater ot) v.

(** Run a method of the tree or of the storage. *)
Definition onTree {A} (m : ST Tree A) : OM A := fun ot =>
  let '(t, r) := m (ot_tree ot) in (set_tree t ot, r).
Definition onStore {A} (m : ST T A) : OM A := fun ot =>
  let '(s, r) := m (ot_storage ot) in (set_storage s ot, r).

Definition notDeleted : OM unit := calls (fun ot => fail_if (ot_isDeleted ot) ErrDeleted).

(** ** Keys *)

(** The keys that are not there yet. *)
Definition deriveMissing (d : KeyDeriver) (x : string * AclKeys) : OM unit :=
  let '(key, value) := x in
  exists_ ← reads (fun ot => bool_decide (is_Some (ot_keys ot !! key)));
  if (exists_ : bool) then mret tt
  else match ReadKey value with
       | None => mret tt
       | Some readKey =>
           raw ← lifts (SymKey_Raw readKey);
           treeKey ← lifts (DeriveKey d raw);
           assigns (fun ot => set_treeKeys (<[key := treeKey]> (ot_keys ot)) ot)
       end.

Definition readKeysFromAclState (state : AclState) : OM unit :=
  same ← reads (fun ot => bool_decide (size (ot_keys ot) = size (st_keys state)));
  if (same : bool) then mret tt
  else if negb (HadReadPermissions state (GetPublic (st_key state))) then mret tt
  else
    id ← reads ot_id;
    st_each (deriveMissing (NewKeyDeriver (AnysyncTreePath id))) (map_range (st_keys state)) ;;
    curKeyId ← lifts (CurrentReadKeyId state);
    derived ← reads (fun ot => ot_keys ot !! curKeyId);
    match derived with
    | Some derived => assigns (set_currentReadKey (Some derived))
    | None =>
        curKey ← lifts (CurrentReadKey state);
        match curKey with
        | None => mret tt
        | Some curKey => k ← lifts (deriveTreeKey curKey id); assigns (set_currentReadKey (Some k))
        end
    end.

(** The closure [decrypt] of [IterateFrom]. *)
Definition decryptChange ot (c : Change) : res (option bytes) :=
  if decide (ci_ReadKeyId (ch_Info c) = "") then Ok (ci_Data (ch_Info c))
  else
    readKey ← opt_or (ot_keys ot !! ci_ReadKeyId (ch_Info c)) ErrNoReadKey;
    data ← opt_or (ci_Data (ch_Info c)) (GoError "no data in change");
    decrypted ← SymKey_Decrypt readKey data;
    Ok (Some decrypted).

(** ** Validation *)

Definition validateTree (newChanges : list Change) : OM unit :=
  state ← reads (fun ot => al_aclState (ot_aclList ot));
  readKeysFromAclState state ;;
  calls (fun ot =>
    match newChanges with
    | [] => ValidateFullTree (ot_validator ot) (ot_tree ot) (ot_aclList ot)
    | _ => ValidateNewChanges (ot_validator ot) (ot_tree ot) (ot_aclList ot) newChanges
    end).

(** ** Snapshots *)

Definition snapshotPathIsActual ot : bool :=
  match ot_snapshotPath ot with
  | [] => false
  | s :: _ => bool_decide (s = RootId (ot_tree ot))
  end.

Definition SnapshotPath (fuel : nat) : OM (list string) :=
  notDeleted ;;
  actual ← reads snapshotPathIsActual;
  if (actual : bool) then reads ot_snapshotPath
  else
    path ← calls (fun ot => pathFrom fuel (ot_storage ot) (RootId (ot_tree ot)));
    assigns (set_snapshotPath path) ;;
    mret path.

Definition rebuildFromStorage (fuel : nat) (theirHeads : option (list string))
    (theirSnapshotPath : list string) (newChanges : list Change) : OM (list Change) :=
  oldTree ← reads ot_tree;
  ourPath ← (match theirHeads with Some _ => SnapshotPath fuel | None => mret [] end);
  '(tr, added) ← calls (fun ot => buildWithAdded fuel (ot_storage ot) (ot_changeBuilder ot)
    (mkTreeBuilderOpts false false (default [] theirHeads) [] ourPath theirSnapshotPath newChanges));
  assigns (set_tree tr) ;;
  (match theirHeads with
   | None => mret tt
   | Some _ =>
       let rootExists := bool_decide (is_Some (t_attached tr !! RootId oldTree)) in
       if UnsortedEquals (t_headIds oldTree) (t_headIds tr) && rootExists &&
          negb (bool_decide (RootId tr = RootId oldTree))
       then onTree (makeRootAndRemove (RootId oldTree))
       else mret tt
   end) ;;
  onTree clearPossibleRoots ;;
  validateTree [] ;;
  mret added.

(** ** Adding content *)

Definition prepareBuilderContent (now : Z) (content : SignableChangeContent) : OM BuilderContent :=
  state ← reads (fun ot => al_aclState (ot_aclList ot));
  lifts (fail_if (negb (CanWrite (Permissions state (GetPublic (scc_Key content)))))
           ErrInsufficientPermissions) ;;
  '(readKey, readKeyId) ←
    (if scc_ShouldBeEncrypted content then
       readKeysFromAclState state ;;
       readKeyId ← lifts (CurrentReadKeyId state);
       readKey ← calls (fun ot => opt_or (ot_currentReadKey ot) ErrMissingKey);
       mret (Some readKey, readKeyId)
     else mret (None, ""));
  head ← calls (fun ot => Head (ot_aclList ot));
  reads (fun ot => mkBuilderContent (t_headIds (ot_tree ot)) (rec_Id head) (RootId (ot_tree ot)) readKeyId
    (scc_IsSnapshot content) (negb (scc_ShouldBeEncrypted content)) (scc_Key content) readKey
    (scc_Data content) (if decide (scc_Timestamp content <= 0) then now else scc_Timestamp content)
    (scc_DataType content)).

Definition storageChangeOf (raw : option bytes) (ch : Change) : StorageChange :=
  mkStorageChange raw (ch_PreviousIds ch) (ch_Id ch) (ch_SnapshotCounter ch) (ch_SnapshotId ch)
    (ch_OrderId ch) (Z.of_nat (String.length (default "" raw))) "" 0.

(** The order id, and for a snapshot the counter, that the new change gets. *)
Definition placeNew (content : SignableChangeContent) (objChange : Change) : OM (Change * string) :=
  root ← calls (fun ot => opt_or (t_root (ot_tree ot)) nilChange);
  rootCh ← calls (fun ot => opt_or (t_attached (ot_tree ot) !! root) nilChange);
  lst ← calls (fun ot => opt_or (t_attached (ot_tree ot) !! t_lastIteratedHeadId (ot_tree ot)) nilChange);
  let objChange := with_OrderId (lexId_Next (ch_OrderId lst)) objChange in
  mret (if scc_IsSnapshot content
        then (with_SnapshotCounter (ch_SnapshotCounter rootCh + 1) objChange, ch_Id objChange)
        else (objChange, root)).

(** The change to store, with the heads it replaces and the common snapshot. *)
Definition readContent (nonce : bytes) (now : Z) (content : SignableChangeContent)
    (validator : option (StorageChange -> res unit))
    : OM (list string * Change * string * StorageChange) :=
  notDeleted ;;
  payload ← prepareBuilderContent now content;
  oldHeads ← reads (fun ot => t_headIds (ot_tree ot));
  '(objChange, rawChange) ← lifts (Build_ nonce payload);
  validateTree [objChange] ;;
  '(objChange, commonSnapshot) ← placeNew content objChange;
  let storageChange := storageChangeOf (rtc_RawChange rawChange) objChange in
  lifts (match validator with Some validator => validator storageChange | None => Ok tt end) ;;
  mret (oldHeads, objChange, commonSnapshot, storageChange).

(** The tree takes the change only once it is stored. *)
Definition storeContent (content : SignableChangeContent)
    (x : list string * Change * string * StorageChange) : OM AddResult :=
  let '(oldHeads, objChange, commonSnapshot, storageChange) := x in
  onStore (tst_AddAll [storageChange] [ch_Id objChange] commonSnapshot) ;;
  (if scc_IsSnapshot content then assigns (set_tree emptyTree) else mret tt) ;;
  onTree (fun t => match AddMergedHead objChange t with
                   | (t, Ok u) => (t, Ok u)
                   | (t, Err _) => (t, Err (GoPanic "AddMergedHead"))
                   end) ;;
  mret (mkAddResult oldHeads [ch_Id objChange] [storageChange]
          (if scc_IsSnapshot content then Rebuild else Append)).

Definition AddContentWithValidator (nonce : bytes) (now : Z) (content : SignableChangeContent)
    (validator : option (StorageChange -> res unit)) : OM AddResult :=
  x ← readContent nonce now content validator;
  storeContent content x.

Definition AddContent (nonce : bytes) (now : Z) (content : SignableChangeContent) : OM AddResult :=
  AddContentWithValidator nonce now content None.

Definition UnpackChange ot (raw : RawTreeChangeWithId) : res (option bytes) :=
  fail_if (ot_isDeleted ot) ErrDeleted ;;
  unmarshalled ← cb_Unmarshall (ot_changeBuilder ot) raw true;
  Ok (ci_Data (ch_Info unmarshalled)).

Definition PrepareChange (nonce : bytes) (now : Z) (content : SignableChangeContent)
    : OM RawTreeChangeWithId :=
  notDeleted ;;
  payload ← prepareBuilderContent now content;
  '(_, res) ← lifts (Build_ nonce payload);
  mret res.

(** ** Adding changes of peers *)

(** [ch.IsNew], [ch.rawChange] of a change that may be in the tree *)
Definition alterInfo (f : ChangeInfo -> ChangeInfo) (id : string) : OM unit :=
  assigns (fun ot => set_tree (set_attached
    (alter (fun c => with_Info (f (ch_Info c)) c) id (t_attached (ot_tree ot))) (ot_tree ot)) ot).

Definition MarkNewChange (id : string) : OM unit :=
  fl ← reads ot_flusher;
  match fl with
  | defaultFlusher => mret tt
  | newChangeFlusher newChanges =>
      alterInfo (with_IsNew true) id ;;
      assigns (set_flusher (newChangeFlusher (newChanges ++ [id])))
  end.

Definition FlushAfterBuild : OM unit :=
  fl ← reads ot_flusher;
  match fl with
  | defaultFlusher => onTree reduceTree ;; mret tt
  | newChangeFlusher _ => mret tt
  end.

Definition Flush : OM unit :=
  fl ← reads ot_flusher;
  match fl with
  | defaultFlusher => mret tt
  | newChangeFlusher newChanges =>
      st_each (alterInfo (with_IsNew false)) newChanges ;;
      assigns (set_flusher (newChangeFlusher [])) ;;
      onTree reduceTree ;;
      mret tt
  end.

Definition createAddResult (oldHeads : list string) (mode : Mode) (changes : list Change) : OM AddResult :=
  newHeads ← reads (fun ot => t_headIds (ot_tree ot));
  st_each (fun ch =>
    MarkNewChange (ch_Id ch) ;;
    lifts (opt_or (ci_rawChange (ch_Info ch)) (GoPanic "nil RawTreeChangeWithId")) ;;
    alterInfo (with_rawChange None) (ch_Id ch)) changes ;;
  mret (mkAddResult oldHeads newHeads
    ((fun ch => storageChangeOf (ci_rawChange (ch_Info ch) ≫= rtc_RawChange) ch) <$> changes) mode).

(** The loop that filters, verifies and unmarshals. *)
Fixpoint newChanges_ (rawChanges : list RawTreeChangeWithId) : OM (list Change) :=
  match rawChanges with
  | [] => mret []
  | ch :: rawChanges =>
      t ← reads ot_tree;
      if decide (is_Some (t_attached t !! rtc_Id ch)) then newChanges_ rawChanges
      else
        change ← (match t_unAttached t !! rtc_Id ch with
                  | Some unAttached => mret unAttached
                  | None => calls (fun ot => cb_Unmarshall (ot_changeBuilder ot) ch true)
                  end);
        let change := with_Info (with_rawChange (Some ch) (ch_Info change)) change in
        (* an unattached change is the tree's own object *)
        assigns (fun ot => set_tree (set_unAttached
          (alter (fun _ => change) (rtc_Id ch) (t_unAttached (ot_tree ot))) (ot_tree ot)) ot) ;;
        changes ← newChanges_ rawChanges;
        mret (change :: changes)
  end.

(** [rollback]: the tree without the changes that were added. *)
Definition rollbackTree (added : list string) (prevHeads : list string) (lastIteratedId : string) (t : Tree) : Tree :=
  let visited := filter (fun id => is_Some (t_attached t !! id)) added in
  set_heads prevHeads lastIteratedId (set_attached
    ((fun c => with_Next (filter (fun n => n ∉ visited) (ch_Next c)) c) <$>
       filter (fun x => x.1 ∉ visited) (t_attached t)) t).

(** Whether the storage has to be read: the snapshot of the change is elsewhere. *)
Definition snapshotNotInTree (t : Tree) (newSnapshots : list Change) (ch : Change) : res bool :=
  if decide (ch_SnapshotId ch = RootId t) then Ok false
  else
    fail_if (match t_attached t !! ch_SnapshotId ch with
             | Some oldSn => negb (ch_IsSnapshot oldSn)
             | None => false
             end) ErrHasInvalidChanges ;;
    Ok (negb (existsb (fun sn => bool_decide (ch_SnapshotId ch = ch_Id sn)) newSnapshots)).

Fixpoint shouldRebuild (t : Tree) (newSnapshots changes : list Change) : res bool :=
  match changes with
  | [] => Ok false
  | ch :: changes =>
      notInTree ← snapshotNotInTree t newSnapshots ch;
      if (notInTree : bool) then Ok true else shouldRebuild t newSnapshots changes
  end.

(** Rebuild from the storage alone; an error is logged. *)
Definition rebuildPlain (fuel : nat) : OM unit := fun ot =>
  match rebuildFromStorage fuel None [] [] ot with
  | (ot, Err (GoPanic s)) => (ot, Err (GoPanic s))
  | (ot, _) => (ot, Ok tt)
  end.

(** [if err != nil { h(); return err }] *)
Definition orElse {A} (m : OM A) (h : OM unit) : OM A := fun ot =>
  match m ot with
  | (ot, Err (GoError s)) =>
      match h ot with
      | (ot, Err e) => (ot, Err e)
      | (ot, Ok _) => (ot, Err (GoError s))
      end
  | x => x
  end.

(** [err = fmt.Errorf("%w: %w", ErrHasInvalidChanges, err)] *)
Definition invalidChanges {A} (m : OM A) : OM A := fun ot =>
  match m ot with
  | (ot, Err (GoError _)) => (ot, Err ErrHasInvalidChanges)
  | x => x
  end.

(** The normal mode: add to the tree in memory. *)
Definition addToTree (fuel : nat) (prevHeads : list string) (lastIteratedId : string)
    (changes : list Change) : OM AddResult :=
  '(mode, added) ← onTree (Add changes);
  match mode with
  | Nothing => mret (mkAddResult prevHeads prevHeads [] Nothing)
  | _ =>
      addedChanges ← reads (fun ot => omap (fun id => t_attached (ot_tree ot) !! id) added);
      orElse (invalidChanges (validateTree addedChanges))
        (assigns (fun ot => set_tree (rollbackTree added prevHeads lastIteratedId (ot_tree ot)) ot)) ;;
      orElse (createAddResult prevHeads mode addedChanges)
        (assigns (fun ot => set_tree (rollbackTree added prevHeads lastIteratedId (ot_tree ot)) ot) ;;
         rebuildPlain fuel)
  end.

Definition addChangesToTree (fuel : nat) (payload : RawChangesPayload) : OM AddResult :=
  prevHeads ← reads (fun ot => t_headIds (ot_tree ot));
  lastIteratedId ← reads (fun ot => t_lastIteratedHeadId (ot_tree ot));
  changes ← newChanges_ (rp_RawChanges payload);
  if decide (changes = []) then mret (mkAddResult prevHeads prevHeads [] Nothing)
  else
    '(filteredHeads, changes, snapshots) ← reads (fun ot =>
      FilterChanges (ot_validator ot) (ot_aclList ot) changes (List.filter ch_IsSnapshot changes));
    let headsToUse := if (filteredHeads : bool) then Some [] else rp_NewHeads payload in
    rebuild ← calls (fun ot => shouldRebuild (ot_tree ot) snapshots changes);
    if (rebuild : bool) then
      added ← orElse (rebuildFromStorage fuel headsToUse (rp_SnapshotPath payload) changes) (rebuildPlain fuel);
      orElse (createAddResult prevHeads Rebuild added) (rebuildPlain fuel)
    else addToTree fuel prevHeads lastIteratedId changes.

Definition AddRawChangesWithUpdater (fuel : nat) (payload : RawChangesPayload)
    (updater : option (objectTree -> Mode -> res unit)) : OM AddResult :=
  notDeleted ;;
  lastHeadId ← reads (fun ot => t_lastIteratedHeadId (ot_tree ot));
  addResult ← addChangesToTree fuel payload;
  FlushAfterBuild ;;
  gone ← reads (fun ot => bool_decide (t_attached (ot_tree ot) !! lastHeadId = None));
  let mode := if (gone : bool) then Rebuild else ar_Mode addResult in
  let addResult := mkAddResult (ar_OldHeads addResult) (ar_Heads addResult) (ar_Added addResult) mode in
  deferred ← reads ot_deferredUpdater;
  let update := calls (fun ot => match updater with Some updater => updater ot mode | None => Ok tt end) in
  (if (deferred : bool) then mret tt else orElse update (rebuildPlain fuel)) ;;
  rootId ← reads (fun ot => RootId (ot_tree ot));
  orElse (onStore (tst_AddAll (ar_Added addResult) (ar_Heads addResult) rootId)) (rebuildPlain fuel) ;;
  (if (deferred : bool) then update else mret tt) ;;
  Flush ;;
  mret addResult.

Definition AddRawChanges (fuel : nat) (payload : RawChangesPayload) : OM AddResult :=
  AddRawChangesWithUpdater fuel payload None.

(** ** Queries and deletion *)

Definition GetChange ot (id : string) : res Change :=
  fail_if (ot_isDeleted ot) ErrDeleted ;;
  opt_or (t_attached (ot_tree ot) !! id) ErrNoChangeInTree.

Definition HasChanges ot (chs : list string) : bool :=
  if ot_isDeleted ot then false
  else forallb (fun ch => bool_decide (is_Some (t_attached (ot_tree ot) !! ch))) chs.

Definition Delete : OM unit :=
  deleted ← reads ot_isDeleted;
  if (deleted : bool) then mret tt
  else assigns (set_isDeleted true) ;; onStore tst_Delete.

Definition ChangesAfterCommonSnapshotLoader (fuel : nat) (theirPath theirHeads : list string) : OM loadIterator :=
  notDeleted ;;
  ourPath ← SnapshotPath fuel;
  first ← lifts (opt_or (last ourPath) (GoPanic "index out of range"));
  commonSnapshot ← lifts (match theirPath with
                          | [] => Ok first
                          | _ => commonSnapshotForTwoPaths ourPath theirPath
                          end);
  calls (fun ot => load (ot_storage ot) (ot_changeBuilder ot) commonSnapshot (t_headIds (ot_tree ot)) theirHeads
                     (newLoadIterator (ot_rawRoot ot) ourPath)).

Definition IsDerived ot : res bool :=
  root ← opt_or (ot_root ot) nilChange;
  Ok (ci_IsDerived (ch_Info root)).

Definition IsEmptyTree ot : res bool :=
  if decide (size (t_attached (ot_tree ot)) = 1%nat) then
    root ← opt_or (t_root (ot_tree ot)) nilChange;
    Ok (bool_decide (root = ot_id ot))
  else Ok false.

Definition IsEmptyDerivedTree ot : res bool :=
  derived ← IsDerived ot;
  if (derived : bool) then IsEmptyTree ot else Ok false.

(** ** Building object trees (objecttreefactory.go) *)

(** A tree that is not built yet, over a storage. *)
Definition newObjectTree (cb : changeBuilder) (v : treeValidator TA) (storage : T) (acl : aclList TA) : objectTree :=
  mkObjectTree storage cb v acl defaultFlusher (tst_Id storage) (mkRawTreeChangeWithId None "") None emptyTree
    ∅ None false false [].

Definition readRoot (verify : bool) : OM unit :=
  root ← calls (fun ot => tst_Root (ot_storage ot));
  header ← calls (fun ot => cb_Unmarshall (ot_changeBuilder ot) (sc_Raw root) verify);
  assigns (set_roots (sc_Raw root) (Some header)).

Definition buildObjectTree (fuel : nat) (ot : objectTree) : res objectTree :=
  runs (rebuildFromStorage fuel None [] [] ;; readRoot true) ot.

(** The builder over the stored root. *)
Definition rootBuilder (withData verifiable : bool) (storage : T) : res changeBuilder :=
  rootChange ← tst_Root storage;
  Ok (mkChangeBuilder (Some (sc_Raw rootChange)) withData (negb verifiable)).

Definition BuildObjectTree (fuel : nat) (storage : T) (acl : aclList TA) : res objectTree :=
  cb ← rootBuilder true true storage;
  buildObjectTree fuel (newObjectTree cb (newTreeValidator false false) storage acl).

Definition BuildEmptyDataObjectTree (fuel : nat) (storage : T) (acl : aclList TA) : res objectTree :=
  cb ← rootBuilder false true storage;
  buildObjectTree fuel (newObjectTree cb (newTreeValidator false false) storage acl).

Definition BuildMigratableObjectTree (fuel : nat) (storage : T) (acl : aclList TA) : res objectTree :=
  cb ← rootBuilder false false storage;
  buildObjectTree fuel (newObjectTree cb (newTreeValidator false false) storage acl).

Definition BuildKeyFilterableObjectTree (fuel : nat) (storage : T) (acl : aclList TA) : res objectTree :=
  cb ← rootBuilder true true storage;
  buildObjectTree fuel (newObjectTree cb (newTreeValidator true true) storage acl).

Definition BuildEmptyDataKeyFilterableObjectTree (fuel : nat) (storage : T) (acl : aclList TA)
    : res objectTree :=
  cb ← rootBuilder false true storage;
  buildObjectTree fuel (newObjectTree cb (newTreeValidator true true) storage acl).

Definition BuildObjectTreeWithContentValidator (contentValidator : Change -> aclList TA -> res unit)
    (fuel : nat) (storage : T) (acl : aclList TA) : res objectTree :=
  cb ← rootBuilder true true storage;
  buildObjectTree fuel
    (newObjectTree cb (NewTreeValidatorWithContentCheck false false contentValidator) storage acl).

(** [buildHistoryTree] over the builder and validator of its dependencies *)
Definition buildHistoryTree (fuel : nat) (cb : changeBuilder) (v : treeValidator TA) (storage : T)
    (acl : aclList TA) (heads : list string) (includeBeforeId : bool) : res objectTree :=
  runs (tr ← calls (fun ot => history_rebuild fuel (ot_storage ot) (ot_changeBuilder ot) heads includeBeforeId);
        assigns (set_tree tr) ;;
        state ← reads (fun ot => al_aclState (ot_aclList ot));
        readKeysFromAclState state ;;
        readRoot false)
    (newObjectTree cb v storage acl).

Definition BuildNonVerifiableHistoryTree (fuel : nat) (storage : T) (acl : aclList TA) (heads : list string)
    (includeBeforeId buildEmptyData : bool) : res objectTree :=
  cb ← rootBuilder (negb buildEmptyData) false storage;
  buildHistoryTree fuel cb (noOpTreeValidator None false) storage acl heads includeBeforeId.

Definition BuildHistoryTree (fuel : nat) (storage : T) (acl : aclList TA) (heads : list string)
    (includeBeforeId buildEmptyData : bool) : res objectTree :=
  cb ← rootBuilder (negb buildEmptyData) true storage;
  buildHistoryTree fuel cb (newTreeValidator false false) storage acl heads includeBeforeId.

(** [CreateObjectTreeRoot] of a payload at the head of the ACL *)
Definition CreateObjectTreeRoot (payload : InitialContent) (acl : aclList TA) : res RawTreeChangeWithId :=
  head ← Head acl;
  '(_, root) ← BuildRoot (mkInitialContent (rec_Id head) (ic_PrivKey payload) (ic_SpaceId payload)
    (ic_Seed payload) (ic_ChangeType payload) (ic_ChangePayload payload) (ic_Timestamp payload));
  Ok root.

Definition DeriveObjectTreeRoot (payload : InitialDerivedContent) : res RawTreeChangeWithId :=
  '(_, root) ← BuildDerivedRoot payload;
  Ok root.

(** ** Validating the changes of a new tree (objecttreevalidator.go)

    The storage is the one the creator makes for the root. *)

Definition ValidateRawTreeDefault (fuel : nat) (storage : T) (acl : aclList TA)
    (heads : option (list string)) (changes : list RawTreeChangeWithId) : res objectTree :=
  tree ← BuildEmptyDataObjectTree fuel storage acl;
  '(tree, res) ← (match AddRawChanges fuel (mkRawChangesPayload heads changes []) tree with
                  | (tree, Ok res) => Ok (tree, res)
                  | (_, Err e) => Err e
                  end);
  fail_if (negb (UnsortedEquals (ar_Heads res) (default [] heads))) ErrHasInvalidChanges ;;
  derived ← IsEmptyDerivedTree tree;
  fail_if derived ErrDerived ;;
  Ok tree.

Definition ValidateFilterRawTree (fuel : nat) (storage : T) (acl : aclList TA)
    (heads : option (list string)) (changes : list RawTreeChangeWithId) : res objectTree :=
  let state := al_aclState acl in
  fail_if (negb (HadReadPermissions state (st_pubKey state))) ErrNoReadKey ;;
  tree ← BuildEmptyDataKeyFilterableObjectTree fuel storage acl;
  tree ← runs (AddRawChanges fuel (mkRawChangesPayload heads changes [])) tree;
  empty ← IsEmptyTree tree;
  fail_if empty ErrNoChangeInTree ;;
  Ok tree.
End object_tree.

Arguments objectTree TA T : clear implicits.
