(* ===== verification/ObjectTreeContent.v ===== *)
(** A tree takes back the changes that did not validate, and stores the content its owner
    adds. *)

From Stdlib Require Import ZArith Lia String.
From stdpp Require Import base option list gmap strings sorting.
From S2P Require Import Prelude Crypto AclModels AclState AclValidator AclApply AclStorage AclKeep AclList.
From S2P Require Import TreeModels Tree TreeOrder TreeAdd TreeStable TreeHeads TreeCalls TreeMerged TreeMain.
From S2P Require Import ChangeBuilder ChangeMain TreeStorage TreeSnapshots TreeLoad TreeBuild ObjectTree.

(** ** The tree in memory *)

Section rollback.
Context `{LexIdLaws}.
Variables (r : string) (cs : list Change) (t t1 t' : Tree) (mode : Mode) (added : list string).
Hypothesis Hok : tree_ok r t.
Hypothesis Hcs : deliverable cs.
Hypothesis Hcall : call r cs t t1 mode added t'.

(** The old changes are what they were, up to their successors. *)
Lemma call_kept x c :
  att t !! x = Some c ->
  exists c', att t' !! x = Some c' /\ core c' = core c /\ ch_Previous c' = ch_Previous c.
Proof.
  intros Hx. pose proof (call_grows _ _ _ _ _ _ _ Hcall) as Hg.
  destruct (gr_old _ _ _ Hg _ _ Hx) as (c1 & Hc1 & Hcore).
  destruct (ca_reordered _ _ _ _ _ _ _ Hcall) as (l & Hre & Hl). exists c1. split_and!; [|done|].
  - rewrite (ro_same _ _ _ Hre); [done|]. intros Hin. rewrite Forall_forall in Hl. apply Hl in Hin.
    pose proof (grown_orderOf cs (set_addedBuf [] t) t1 Hg x ltac:(by eexists)) as Ho. simpl in Ho. rewrite Ho in Hin.
    revert Hin. apply (old_ordered r); [done|]. by apply (order_spec r _ (tk_linked _ _ Hok) (tk_conn _ _ Hok)).
  - by eapply (gr_previous _ _ _ Hg).
Qed.

Lemma call_old_next x :
  x ∉ added -> filter (fun n => n ∉ added) (nextOf (att t') x) = nextOf (att t) x.
Proof.
  intros Hx. destruct (call_added _ _ _ _ _ _ _ Hcall) as (_ & Hdom & Hnew).
  pose proof (tk_linked _ _ (ca_ok _ _ _ _ _ _ _ Hcall)) as Hl'. pose proof (tk_linked _ _ Hok) as Hl.
  apply sorted_occ_unique.
  - apply sorted_ids_filter, (lk_sorted _ _ Hl').
  - apply (lk_sorted _ _ Hl).
  - intros y. rewrite occ_filter, (lk_next _ _ Hl'), (lk_next _ _ Hl). unfold links.
    destruct (decide (y ∉ added)) as [Hy|Hy].
    + destruct (att t !! y) as [c|] eqn:Hc.
      * destruct (call_kept _ _ Hc) as (c' & -> & Hcore & _).
        assert (ch_PreviousIds c' = ch_PreviousIds c) as -> by (by apply (f_equal ch_PreviousIds) in Hcore; destruct c, c').
        done.
      * destruct (att t' !! y) eqn:Hc'; [|done]. destruct (proj1 (Hdom y)) as [[? ?]|?]; [by eexists|congruence|done].
    + apply dec_stable in Hy. by rewrite (Hnew _ Hy).
Qed.

Lemma rollback_restores :
  let t2 := rollbackTree added (t_headIds t) (t_lastIteratedHeadId t) t' in
  t_root t2 = t_root t /\ t_headIds t2 = t_headIds t /\
  t_lastIteratedHeadId t2 = t_lastIteratedHeadId t /\ att t2 = att t.
Proof.
  destruct (call_added _ _ _ _ _ _ _ Hcall) as (_ & Hdom & Hnew). simpl. split_and!; [|done|done|].
  { rewrite (tk_root _ _ (ca_ok _ _ _ _ _ _ _ Hcall)). symmetry. apply Hok. }
  assert (filter (fun id => is_Some (att t' !! id)) added = added) as ->.
  { apply filter_all, Forall_forall. intros x Hx. apply Hdom. by right. }
  apply map_eq. intros x. rewrite lookup_fmap.
  destruct (decide (x ∈ added)) as [Hx|Hx].
  - rewrite (Hnew _ Hx). apply fmap_None, map_lookup_filter_None. right. intros c _ Hc. by apply Hc.
  - destruct (att t !! x) as [c|] eqn:Hc.
    + destruct (call_kept _ _ Hc) as (c' & Hc' & Hcore & Hprev).
      rewrite (proj2 (map_lookup_filter_Some _ _ x c')) by done. simpl. f_equal.
      pose proof (call_old_next x Hx) as Hn. unfold nextOf in Hn. rewrite Hc, Hc' in Hn. rewrite Hn.
      destruct c, c'. unfold core, with_Next, with_Previous in *. simpl in *. congruence.
    + assert (att t' !! x = None) as Hc'.
      { apply eq_None_not_Some. intros Hs. apply Hdom in Hs as [[? ?]|?]; [congruence|done]. }
      apply fmap_None, map_lookup_filter_None. by left.
Qed.
End rollback.

(** ** The object tree *)

Section object_tree.
Context `{CryptoPrims} `{AclCodec} `{SharedKeyPrims} `{MapRange} `{ProtoWire} `{ListCodec}
  {TA : Type} `{AclStorage TA} `{SealPrims} `{TreeCodec} `{HmacPrims} `{LexIdLaws} `{SortFunc}
  {T : Type} `{TreeStorage T}.
Implicit Types (ot : objectTree TA T).

(** Nothing but keys was read. *)
Definition keysOnly ot ot' : Prop :=
  exists ks k, ot' = set_currentReadKey k (set_treeKeys ks ot).

#[global] Instance keysOnly_preorder : PreOrder keysOnly.
Proof.
  split.
  - intros ot. exists (ot_keys ot), (ot_currentReadKey ot). by destruct ot.
  - intros ot1 ot2 ot3 (ks & k & ->) (ks' & k' & ->). by exists ks', k'.
Qed.

Lemma set_treeKeys_only ks ot : keysOnly ot (set_treeKeys ks ot).
Proof. exists ks, (ot_currentReadKey ot). by destruct ot. Qed.
Lemma set_currentReadKey_only k ot : keysOnly ot (set_currentReadKey k ot).
Proof. exists (ot_keys ot), k. by destruct ot. Qed.
Hint Resolve set_treeKeys_only set_currentReadKey_only : core.

Lemma readKeys_frame state : frames keysOnly (readKeysFromAclState state).
Proof. unfold readKeysFromAclState, deriveMissing. frame; auto. Qed.

Lemma validateTree_frame l : frames keysOnly (validateTree l).
Proof. unfold validateTree. frame. apply readKeys_frame. Qed.

Lemma keysOnly_same ot ot' :
  keysOnly ot ot' -> ot_tree ot' = ot_tree ot /\ ot_storage ot' = ot_storage ot /\
    ot_aclList ot' = ot_aclList ot /\ ot_validator ot' = ot_validator ot.
Proof. by intros (ks & k & ->). Qed.

Lemma onTree_run {A} (m : ST Tree A) ot t r : m (ot_tree ot) = (t, r) -> onTree m ot = (set_tree t ot, r).
Proof. unfold onTree. by intros ->. Qed.

(** ** Errors of the normal mode *)

Definition sameTree (t t' : Tree) : Prop :=
  t_root t' = t_root t /\ t_headIds t' = t_headIds t /\
  t_lastIteratedHeadId t' = t_lastIteratedHeadId t /\ t_attached t' = t_attached t.

(** A failing first part, with a handler that does not fail. *)
Lemma orElse_Err {A} (m : ST (objectTree TA T) A) f ot ot' s :
  orElse m (assigns f) ot = (ot', Err (GoError s)) ->
  exists ot1, m ot = (ot1, Err (GoError s)) /\ ot' = f ot1.
Proof.
  unfold orElse, assigns. destruct (m ot) as [ot1 [a|[s'|s']]]; [done| |done].
  intros [= <- <-]. by exists ot1.
Qed.

Lemma invalidChanges_Err {A} (m : ST (objectTree TA T) A) ot ot' s :
  invalidChanges m ot = (ot', Err (GoError s)) ->
  GoError s = ErrHasInvalidChanges /\ exists e, m ot = (ot', Err e).
Proof.
  unfold invalidChanges. destruct (m ot) as [ot1 [a|[s'|s']]] eqn:Hm; [done| |done].
  intros [= <- <-]. split; [done|]. by eexists.
Qed.

(** Marking the changes fails only where a change lost its raw form. *)
Lemma createAddResult_Err oldHeads mode changes ot ot' e :
  createAddResult oldHeads mode changes ot = (ot', Err e) -> exists s, e = GoPanic s.
Proof.
  unfold createAddResult. erewrite st_bind_run by done.
  match goal with |- context [st_each ?f changes] => set (step := f) end.
  assert (forall l ot ot' e, st_each step l ot = (ot', Err e) -> exists s, e = GoPanic s) as Hstep.
  { clear. induction l as [|ch l IH]; intros ot ot' e; [done|]. simpl. unfold mbind at 1, st_bind at 1.
    destruct (step ch ot) as [ot1 [[]|e1]] eqn:Hs; [apply IH|]. intros [= <- <-]. unfold step in Hs.
    unfold MarkNewChange, reads, lifts, alterInfo, assigns, mbind, st_bind in Hs. simpl in Hs.
    destruct (ot_flusher ot), (ci_rawChange (ch_Info ch)); simpl in Hs; simplify_eq; by eexists. }
  unfold mbind, st_bind. destruct (st_each step changes ot) as [ot1 [[]|e1]] eqn:Hs; [done|].
  intros [= <- <-]. by eapply Hstep.
Qed.

Lemma addToTree_Err fuel r cs ot ot' s :
  tree_ok r (ot_tree ot) -> deliverable cs ->
  addToTree fuel (t_headIds (ot_tree ot)) (t_lastIteratedHeadId (ot_tree ot)) cs ot = (ot', Err (GoError s)) ->
  sameTree (ot_tree ot) (ot_tree ot') /\ ot_storage ot' = ot_storage ot /\
  GoError s = ErrHasInvalidChanges.
Proof.
  intros Hok Hcs. destruct (Add_call r cs (ot_tree ot) Hok Hcs) as (t1 & mode & added & t' & Hcall).
  unfold addToTree. erewrite st_bind_run by (apply onTree_run; apply (ca_run _ _ _ _ _ _ _ Hcall)).
  assert (forall m, (addedChanges ← reads (fun ot => omap (fun id => t_attached (ot_tree ot) !! id) added);
      orElse (invalidChanges (validateTree addedChanges))
        (assigns (fun ot0 => set_tree (rollbackTree added (t_headIds (ot_tree ot))
           (t_lastIteratedHeadId (ot_tree ot)) (ot_tree ot0)) ot0)) ;;
      orElse (createAddResult (t_headIds (ot_tree ot)) m addedChanges)
        (assigns (fun ot0 => set_tree (rollbackTree added (t_headIds (ot_tree ot))
           (t_lastIteratedHeadId (ot_tree ot)) (ot_tree ot0)) ot0) ;;
         rebuildPlain fuel)) (set_tree t' ot) = (ot', Err (GoError s)) ->
    sameTree (ot_tree ot) (ot_tree ot') /\ ot_storage ot' = ot_storage ot /\
    GoError s = ErrHasInvalidChanges) as Hmode.
  { intros m. erewrite st_bind_run by done. set (l := omap _ _). unfold mbind at 1, st_bind at 1.
    destruct (orElse (invalidChanges (validateTree l)) _ _) as [ot1 [[]|e]] eqn:Hv.
    - intros Hc. unfold orElse in Hc at 1. destruct (createAddResult _ m l ot1) as [ot2 [x|e]] eqn:Hcr; [done|].
      destruct (createAddResult_Err _ _ _ _ _ _ Hcr) as [s' ->]. done.
    - intros [= <- ->]. apply orElse_Err in Hv as (ot2 & Hv & ->).
      apply invalidChanges_Err in Hv as (-> & e & Hv).
      apply (frames_run _ _ _ _ _ (validateTree_frame l)), keysOnly_same in Hv as (Ht & Hst & _ & _).
      simpl in Ht, Hst. simpl. rewrite Ht, Hst. split_and!; [|done..].
      exact (rollback_restores r cs _ t1 t' mode added Hok Hcall). }
  destruct mode; [apply Hmode|apply Hmode|done].
Qed.

(** ** Deliveries *)

(** With nothing waiting, writing to a waiting change does nothing. *)
Lemma touch_idle ot ch id :
  t_unAttached (ot_tree ot) = ∅ ->
  set_tree (set_unAttached (alter (fun _ => ch) id (t_unAttached (ot_tree ot))) (ot_tree ot)) ot = ot.
Proof.
  intros Hun. rewrite Hun.
  replace (alter _ _ _) with (∅ : gmap string Change) by (symmetry; apply map_eq; intros y;
    rewrite lookup_alter, !lookup_empty; by case_decide).
  rewrite <- Hun. destruct ot as [? ? ? ? ? ? ? ? t]. by destruct t.
Qed.

(** The change of a raw change, as it is given to the tree. *)
Definition readsAs ot (r : RawTreeChangeWithId) (ch : Change) : Prop :=
  exists ch0, cb_Unmarshall (ot_changeBuilder ot) r true = Ok ch0 /\
    ch = with_Info (with_rawChange (Some r) (ch_Info ch0)) ch0.

(** With nothing waiting, reading the raw changes changes nothing. *)
Lemma newChanges_same raws ot :
  t_unAttached (ot_tree ot) = ∅ -> (newChanges_ raws ot).1 = ot.
Proof.
  intros Hun. induction raws as [|r raws IH]; [done|]. simpl. unfold mbind at 1, st_bind at 1, reads at 1.
  case_decide; [apply IH|]. rewrite Hun, lookup_empty. unfold mbind at 1, st_bind at 1, calls at 1.
  destruct (cb_Unmarshall _ r true) as [ch|e]; [|done]. unfold mbind, st_bind, assigns.
  rewrite touch_idle by done. destruct (newChanges_ raws ot) as [ot1 [chs|e]]; done.
Qed.

(** What was read: new changes with the ids of the raw ones. *)
Lemma newChanges_read raws ot ot' chs :
  t_unAttached (ot_tree ot) = ∅ -> newChanges_ raws ot = (ot', Ok chs) ->
  ch_Id <$> chs `sublist_of` rtc_Id <$> raws /\
  Forall (fun ch => t_attached (ot_tree ot) !! ch_Id ch = None /\ exists r, r ∈ raws /\ readsAs ot r ch) chs.
Proof.
  intros Hun. revert ot' chs. induction raws as [|r raws IH]; intros ot' chs; simpl.
  { intros [= <- <-]. by split; constructor. }
  intros Hr. go_step Hr. apply reads_Ok in Hr0 as [-> ->].
  assert (forall ot' chs, newChanges_ raws ot = (ot', Ok chs) ->
    ch_Id <$> chs `sublist_of` rtc_Id <$> raws /\
    Forall (fun ch => t_attached (ot_tree ot) !! ch_Id ch = None /\
      exists r0, r0 ∈ r :: raws /\ readsAs ot r0 ch) chs) as IH'.
  { intros ot1 chs1 Hr1. destruct (IH _ _ Hr1) as [Hs Hf]. split; [done|].
    eapply Forall_impl; [exact Hf|]. intros ch (? & r0 & ? & ?). split; [done|]. exists r0. split; [by right|done]. }
  case_decide as Hin.
  { destruct (IH' _ _ Hr) as [Hs Hf]. split; [by apply sublist_cons|done]. }
  rewrite Hun, lookup_empty in Hr. go_step Hr. go_step Hr0. go_step Hr.
  apply assigns_Ok in Hr1 as ->. go_step Hr. apply ret_Ok in Hr as [-> ->].
  destruct (Unmarshall_fresh _ _ _ _ Hr0) as (Hid & _).
  rewrite touch_idle in Hr1 by done. destruct (IH' _ _ Hr1) as [Hs Hf]. split.
  - csimpl. rewrite Hid. by apply sublist_skip.
  - constructor; [|done]. simpl. rewrite Hid. split; [by apply eq_None_not_Some|].
    exists r. split; [by left|]. by exists a.
Qed.

Lemma FilterChanges_sub v (acl : aclList TA) changes snapshots b cs sns :
  FilterChanges v acl changes snapshots = (b, cs, sns) -> forall c, c ∈ cs -> c ∈ changes.
Proof.
  unfold FilterChanges. intros Hf c Hc.
  assert (forall p : Change -> bool, c ∈ List.filter p changes -> c ∈ changes) as Hsub.
  { intros p Hp. apply list_elem_of_In in Hp. apply filter_In in Hp as [Hp _]. by apply list_elem_of_In. }
  repeat case_match; simplify_eq; eauto.
Qed.

(** A payload as peers send it: distinct ids, and every change names predecessors. *)
Definition payload_ok ot (payload : RawChangesPayload) : Prop :=
  NoDup (rtc_Id <$> rp_RawChanges payload) /\
  forall r ch, r ∈ rp_RawChanges payload -> readsAs ot r ch -> ch_PreviousIds ch <> [].

Lemma payload_deliverable ot payload ot' chs :
  t_unAttached (ot_tree ot) = ∅ -> payload_ok ot payload ->
  newChanges_ (rp_RawChanges payload) ot = (ot', Ok chs) -> deliverable chs.
Proof.
  intros Hun [Hnd Hprev] Hr. destruct (newChanges_read _ _ _ _ Hun Hr) as [Hs Hf]. rewrite Forall_forall in Hf.
  assert (NoDup (ch_Id <$> chs)) as Hnd' by by eapply sublist_NoDup.
  split.
  - intros c Hc. destruct (Hf c Hc) as (_ & r & _ & ch0 & Hch & ->).
    destruct (Unmarshall_fresh _ _ _ _ Hch) as (_ & Hn & _). by destruct ch0.
  - intros c Hc. destruct (Hf c Hc) as (_ & r & _ & ch0 & Hch & ->).
    destruct (Unmarshall_fresh _ _ _ _ Hch) as (_ & _ & Ho & _). by destruct ch0.
  - intros c Hc. destruct (Hf c Hc) as (_ & r & Hr' & Hread). by eapply Hprev.
  - intros c d (i & Hi)%list_elem_of_lookup (j & Hj)%list_elem_of_lookup Hid.
    assert (i = j) as ->; [|congruence].
    eapply NoDup_lookup; [exact Hnd'|by rewrite list_lookup_fmap, Hi|by rewrite list_lookup_fmap, Hj, Hid].
Qed.

Lemma deliverable_sub cs cs' : (forall c, c ∈ cs' -> c ∈ cs) -> deliverable cs -> deliverable cs'.
Proof. intros Hs [H1' H2' H3' H4']. split; eauto. Qed.

(** The changes of the payload name snapshots the tree in memory has. *)
Definition inMemory ot (payload : RawChangesPayload) : Prop :=
  forall changes b cs sns, newChanges_ (rp_RawChanges payload) ot = (ot, Ok changes) ->
    FilterChanges (ot_validator ot) (ot_aclList ot) changes (List.filter ch_IsSnapshot changes) = (b, cs, sns) ->
    shouldRebuild (ot_tree ot) sns cs <> Ok true.

(** A delivery that is refused leaves the object tree as it was.  When a delivery
    fails, because a change cannot be read, is not authentic, names a snapshot that is
    none, or does not validate against the ACL, then the tree in memory has the same root,
    heads, last iterated head and attached changes with the same links as before, and the
    storage was not touched. *)
Theorem object_tree_rollback r fuel payload ot ot' s :
  tree_ok r (ot_tree ot) -> payload_ok ot payload -> inMemory ot payload ->
  addChangesToTree fuel payload ot = (ot', Err (GoError s)) ->
  sameTree (ot_tree ot) (ot_tree ot') /\ ot_storage ot' = ot_storage ot.
Proof.
  intros Hok Hp Hmem. pose proof (tk_idle _ _ Hok) as Hun. unfold addChangesToTree.
  erewrite st_bind_run by done. erewrite st_bind_run by done. unfold mbind at 1, st_bind at 1.
  pose proof (newChanges_same (rp_RawChanges payload) ot Hun) as Hsame.
  destruct (newChanges_ (rp_RawChanges payload) ot) as [ot1 [changes|e]] eqn:Hread; simpl in Hsame; subst ot1;
    [|by intros [= <- _]].
  case_decide; [done|]. unfold mbind at 1, st_bind at 1, reads at 1.
  destruct (FilterChanges _ _ _ _) as [[b cs] sns] eqn:Hf. unfold mbind at 1, st_bind at 1, calls at 1.
  specialize (Hmem _ _ _ _ Hread Hf).
  destruct (shouldRebuild _ sns cs) as [[]|e] eqn:Hre; [done| |by intros [= <- _]].
  intros Hadd. apply (addToTree_Err fuel r cs) in Hadd as (Hst & Hstore & _); [done|done|].
  eapply deliverable_sub; [by eapply FilterChanges_sub|]. by eapply payload_deliverable.
Qed.
End object_tree.

(** * Adding content of one's own to an object tree. *)

#[local] Arguments iterOrder : simpl never.

Section content.
Context `{CryptoPrims} `{AclCodec} `{SharedKeyPrims} `{MapRange} `{ProtoWire} `{ListCodec}
  {TA : Type} `{AclStorage TA} `{SealPrims} `{TreeCodec} `{HmacPrims} `{LexIdLaws} `{SortFunc}
  {T : Type} `{TreeStorageLaws T}.
Implicit Types (ot : objectTree TA T).

(** What is built names the heads and the root of the tree. *)
Lemma Build_fields nonce payload ch raw :
  Build_ nonce payload = Ok (ch, raw) ->
  ch_PreviousIds ch = bc_TreeHeadIds payload /\ ch_SnapshotId ch = bc_SnapshotBaseId payload /\
  ch_Next ch = [] /\ ch_IsSnapshot ch = bc_IsSnapshot payload.
Proof.
  unfold Build_. intros Hb. go_inv. destruct a2 as [[? ?] ?]. go_inv. done.
Qed.

Lemma prepare_frame now content : frames (A:=BuilderContent) keysOnly (prepareBuilderContent (TA:=TA) (T:=T) now content).
Proof.
  unfold prepareBuilderContent. frame; try (apply readKeys_frame). 
Qed.

Lemma prepare_fields now content ot ot' payload :
  prepareBuilderContent now content ot = (ot', Ok payload) ->
  bc_TreeHeadIds payload = t_headIds (ot_tree ot) /\ bc_SnapshotBaseId payload = RootId (ot_tree ot) /\
  bc_IsSnapshot payload = scc_IsSnapshot content.
Proof.
  intros Hp. pose proof (frames_run _ _ _ _ _ (prepare_frame now content) Hp) as Hk.
  apply keysOnly_same in Hk as (Ht & _). rewrite <- Ht. unfold prepareBuilderContent in Hp.
  go_step Hp. go_step Hp. go_step Hp. destruct a1 as [rk rid]. go_step Hp. apply reads_Ok in Hp as [-> ->]. done.
Qed.

Lemma placeNew_frame content ch : frames keysOnly (placeNew (TA:=TA) (T:=T) content ch).
Proof. unfold placeNew. frame. Qed.

Lemma readContent_frame nonce now content v : frames keysOnly (readContent (TA:=TA) (T:=T) nonce now content v).
Proof. unfold readContent, notDeleted. frame; auto using prepare_frame, validateTree_frame, placeNew_frame. Qed.

(** The change that is stored: on top of the heads, after the last order id. *)
Lemma readContent_Ok r nonce now content v ot ot' old ch common sc :
  tree_ok r (ot_tree ot) ->
  readContent nonce now content v ot = (ot', Ok (old, ch, common, sc)) ->
  old = t_headIds (ot_tree ot) /\ ch_PreviousIds ch = t_headIds (ot_tree ot) /\ ch_SnapshotId ch = r /\
  ch_Next ch = [] /\ ch_OrderId ch = lexId_Next (orderOf (att (ot_tree ot)) (t_lastIteratedHeadId (ot_tree ot))) /\
  common = (if scc_IsSnapshot content then ch_Id ch else r) /\
  exists raw, sc = storageChangeOf raw ch.
Proof.
  intros Hok Hr. unfold readContent in Hr. go_step Hr.
  apply calls_Ok in Hr0 as [-> _]. go_step Hr. rename Hr0 into Hprep.
  destruct (prepare_fields _ _ _ _ _ Hprep) as (Hheads & Hroot & _).
  apply (frames_run _ _ _ _ _ (prepare_frame now content)), keysOnly_same in Hprep as (Ht & _).
  go_step Hr. apply reads_Ok in Hr0 as [-> ->]. go_step Hr. apply lifts_Ok in Hr0 as [-> Hb]. destruct a1 as [ch0 raw].
  destruct (Build_fields _ _ _ _ Hb) as (Hp & Hs & Hn & _). go_step Hr. rename Hr0 into Hv.
  apply (frames_run _ _ _ _ _ (validateTree_frame _)), keysOnly_same in Hv as (Ht' & _).
  go_step Hr. rename Hr0 into Hpl. destruct a2 as [ch1 cm]. go_step Hr. go_step Hr0. apply ret_Ok in Hr as [-> [= -> -> -> ->]].
  unfold placeNew in Hpl. go_inv. rewrite Ht', Ht in *. rewrite (tk_root _ _ Hok) in *.
  match goal with Hx : Some _ = Some _ |- _ => injection Hx as <- end.
  match goal with Hx : _ !! t_lastIteratedHeadId _ = Some _ |- _ => unfold orderOf; rewrite Hx end.
  unfold RootId in Hroot. rewrite (tk_root _ _ Hok) in Hroot. simpl in Hroot.
  destruct (scc_IsSnapshot content); injection Hpl as <- <-;
    (split_and!; [done|simpl; congruence|simpl; congruence|done|done|done|by eexists]).
Qed.

(** The storage is as it was. *)
Definition sameStore (s s' : T) : Prop :=
  tst_log s' = tst_log s /\ tst_Heads s' = tst_Heads s /\ tst_CommonSnapshot s' = tst_CommonSnapshot s.

(** The tree after the change [sc] was added on top of the heads of [t]. *)
Record extended (snapshot : bool) (r : string) (t : Tree) (sc : StorageChange) (r' : string) (t' : Tree) : Prop := {
  ex_ok : tree_ok r' t';
  ex_heads : t_headIds t' = [sc_Id sc];
  ex_order : orderOf (att t') (sc_Id sc) = sc_OrderId sc;
  ex_iteration : if snapshot then r' = sc_Id sc /\ iterOrder (att t') (Some r') = [sc_Id sc]
                 else r' = r /\ iterOrder (att t') (Some r') = iterOrder (att t) (Some r) ++ [sc_Id sc];
}.

(** The order id after the last one is one. *)
Lemma next_lexid r t : tree_ok r t -> lexid (lexId_Next (orderOf (att t) (t_lastIteratedHeadId t))).
Proof.
  intros Hok. apply lexid_next. pose proof (tk_last _ _ Hok) as Hlast.
  destruct (order_root r _ (tk_linked _ _ Hok) (tk_conn _ _ Hok)) as [rest Hrest].
  pose proof (tk_orders _ _ Hok) as Hch. rewrite Hrest in Hlast, Hch. simpl in Hch.
  rewrite last_cons in Hlast. destruct (last rest) as [z|] eqn:Hz; injection Hlast as <-; [|apply Hok].
  apply chain_valid in Hch. rewrite Forall_forall in Hch. apply Hch, list_elem_of_fmap_2.
  by apply last_Some_elem_of.
Qed.

Lemma merged_extends (snapshot : bool) r t ch raw :
  tree_ok r t -> att t !! ch_Id ch = None -> ch_Next ch = [] -> ch_PreviousIds ch = t_headIds t ->
  ch_SnapshotId ch = r -> ch_OrderId ch = lexId_Next (orderOf (att t) (t_lastIteratedHeadId t)) ->
  exists t', AddMergedHead ch (if snapshot then emptyTree else t) = (t', Ok tt) /\
    extended snapshot r t (storageChangeOf raw ch) (if snapshot then ch_Id ch else r) t' /\
    exists c', att t' !! ch_Id ch = Some c' /\ ch_Info c' = ch_Info ch.
Proof.
  intros Hok Hnew Hn Hp Hs Ho. destruct snapshot.
  - assert (lexid (ch_OrderId ch)) as Hlex by (rewrite Ho; by eapply next_lexid).
    destruct (merged_root ch Hn Hlex) as (t' & Hrun & Hok' & Hh & Ha). exists t'. split; [done|]. split; [split; try done|].
    + rewrite Ha. unfold orderOf. by rewrite lookup_singleton_eq.
    + split; [done|]. rewrite Ha. by apply root_order.
    + exists ch. by rewrite Ha, lookup_singleton_eq.
  - destruct (AddMergedHead_spec r t ch) as (t' & Hrun & Hok' & Hh & _ & Hord & (c' & Hc' & _ & Ho' & Hi') & _); try done.
    { rewrite Hs. apply (lk_root _ _ (tk_linked _ _ Hok)). }
    exists t'. split; [done|]. split; [|by exists c']. split; try done. unfold orderOf. simpl. by rewrite Hc'.
Qed.

(** Storing: the tree takes the change exactly when the storage does. *)
Lemma storeContent_run r content old ch raw ot ot' res :
  tree_ok r (ot_tree ot) -> tst_wf (ot_storage ot) ->
  (forall x, is_Some (t_attached (ot_tree ot) !! x) -> x ∈ sc_Id <$> tst_log (ot_storage ot)) ->
  ch_Next ch = [] -> ch_PreviousIds ch = t_headIds (ot_tree ot) -> ch_SnapshotId ch = r ->
  ch_OrderId ch = lexId_Next (orderOf (att (ot_tree ot)) (t_lastIteratedHeadId (ot_tree ot))) ->
  storeContent content (old, ch, if scc_IsSnapshot content then ch_Id ch else r, storageChangeOf raw ch) ot = (ot', res) ->
  match res with
  | Err _ => sameTree (ot_tree ot) (ot_tree ot') /\ sameStore (ot_storage ot) (ot_storage ot')
  | Ok ar => exists seq r',
      ar_Added ar = [storageChangeOf raw ch] /\ ar_Heads ar = [ch_Id ch] /\
      extended (scc_IsSnapshot content) r (ot_tree ot) (storageChangeOf raw ch) r' (ot_tree ot') /\
      tst_Heads (ot_storage ot') = Ok [ch_Id ch] /\ tst_CommonSnapshot (ot_storage ot') = Ok r' /\
      tst_log (ot_storage ot') ≡ₚ stored seq (storageChangeOf raw ch) :: tst_log (ot_storage ot) /\
      (exists c', att (ot_tree ot') !! ch_Id ch = Some c' /\ ch_Info c' = ch_Info ch) /\ ot_keys ot' = ot_keys ot /\
      ch_Id ch ∉ sc_Id <$> tst_log (ot_storage ot)
  end.
Proof.
  intros Hok Hwf Hkept Hn Hp Hs Ho Hst.
  unfold storeContent in Hst. unfold mbind at 1, st_bind at 1, onStore at 1 in Hst.
  destruct (tst_AddAll _ _ _ (ot_storage ot)) as [st' [[]|e]] eqn:Hadd; cycle 1.
  { injection Hst as <- <-. apply tst_AddAll_Err in Hadd as (_ & _ & Hh & Hc & Hl); [|done]. by split. }
  apply tst_AddAll_Ok in Hadd as (Hwf' & _ & Hh & Hc & seq & Hlog); [|done].
  assert (ch_Id ch ∉ sc_Id <$> tst_log (ot_storage ot)) as Hunstored.
  { intros Hin. apply tst_log_ok in Hwf' as [Hnd _]. rewrite Hlog, fmap_app, NoDup_app in Hnd.
    destruct Hnd as (_ & Hdis & _). apply (Hdis (ch_Id ch)); [done|]. simpl. by left. }
  assert (att (ot_tree ot) !! ch_Id ch = None) as Hnew.
  { destruct (att (ot_tree ot) !! ch_Id ch) eqn:Hx; [|done]. destruct Hunstored. apply Hkept. by eexists. }
  destruct (merged_extends (scc_IsSnapshot content) r (ot_tree ot) ch raw Hok Hnew Hn Hp Hs Ho) as (t' & Hm & Hex & Hc').
  assert (exists ot2, (if scc_IsSnapshot content then assigns (set_tree emptyTree) else mret tt) (set_storage st' ot)
    = (ot2, Ok tt) /\ ot_tree ot2 = (if scc_IsSnapshot content then emptyTree else ot_tree ot) /\ ot_storage ot2 = st' /\
    ot_keys ot2 = ot_keys ot) as (ot2 & Hot2 & Ht2 & Hst2 & Hk2).
  { destruct (scc_IsSnapshot content); eexists; (split; [done|]); done. }
  rewrite (st_bind_run _ _ _ _ _ Hot2) in Hst. unfold mbind at 1, st_bind at 1, onTree at 1 in Hst.
  rewrite Ht2, Hm in Hst. injection Hst as <- <-.
  eexists seq, _. split_and!; [done|done|exact Hex|simpl; by rewrite Hst2|simpl; by rewrite Hst2| |exact Hc'|exact Hk2|exact Hunstored].
  simpl. rewrite Hst2, Hlog. simpl. by rewrite Permutation_app_comm.
Qed.

(** C6: own content is added to the storage and to the tree, or to neither.  When adding
    content to a tree whose changes are stored fails, at the permissions, the keys, the validator or the storage, the tree
    and the storage are as they were, and never because the tree would not take what was
    stored (which panics).  When it succeeds, the new change names all the heads as its
    predecessors and is the only head, in the tree and in the storage; it is stored with
    the order id the tree has for it, with the root of the tree as the common snapshot; and
    it comes at the end of the iteration, which for a snapshot starts anew. *)
Theorem object_tree_add_content r nonce now content v ot ot' res :
  tree_ok r (ot_tree ot) -> tst_wf (ot_storage ot) ->
  (forall x, is_Some (t_attached (ot_tree ot) !! x) -> x ∈ sc_Id <$> tst_log (ot_storage ot)) ->
  AddContentWithValidator nonce now content v ot = (ot', res) ->
  match res with
  | Err e => sameTree (ot_tree ot) (ot_tree ot') /\ sameStore (ot_storage ot) (ot_storage ot')
  | Ok ar => exists sc seq r',
      ar_Added ar = [sc] /\ sc_PrevIds sc = t_headIds (ot_tree ot) /\ ar_Heads ar = [sc_Id sc] /\
      extended (scc_IsSnapshot content) r (ot_tree ot) sc r' (ot_tree ot') /\
      tst_Heads (ot_storage ot') = Ok [sc_Id sc] /\ tst_CommonSnapshot (ot_storage ot') = Ok r' /\
      tst_log (ot_storage ot') ≡ₚ stored seq sc :: tst_log (ot_storage ot)
  end.
Proof.
  intros Hok Hwf Hkept Hrun. unfold AddContentWithValidator in Hrun.
  assert (forall ot1, keysOnly ot ot1 -> ot_tree ot1 = ot_tree ot /\ ot_storage ot1 = ot_storage ot) as Hk.
  { intros ot1 Hk%keysOnly_same. tauto. }
  apply st_bind_cases in Hrun as [(e & Hr & ->)|(ot1 & [[[old ch] common] sc] & Hr & Hst)].
  { apply (frames_run _ _ _ _ _ (readContent_frame _ _ _ _)), Hk in Hr as [-> ->]. by split. }
  destruct (readContent_Ok r _ _ _ _ _ _ _ _ _ _ Hok Hr)
    as (_ & Hp & Hs & Hn & Ho & -> & raw & ->).
  apply (frames_run _ _ _ _ _ (readContent_frame _ _ _ _)), Hk in Hr as [Ht Hstore].
  rewrite <- Ht, <- Hstore in *.
  destruct res as [ar|e]; (eapply storeContent_run in Hst; [|done..]); [|done].
  destruct Hst as (seq & r' & Ha & Hh & Hex & Hhd & Hcs & Hlog & _).
  eexists _, seq, r'. split_and!; try done.
Qed.
End content.
