(* ===== verification/ObjectTreeAgree.v ===== *)
(** What an object tree shows is authorised, and its storage agrees with it. *)

From Stdlib Require Import ZArith Lia String.
From stdpp Require Import base option list gmap strings sorting.
From S2P Require Import Prelude Crypto AclModels AclState AclValidator AclApply AclStorage AclKeep.
From S2P Require Import AclList TreeModels Tree TreeOrder TreeAdd TreeStable.
From S2P Require Import ChangeBuilder ChangeMain TreeStorage TreeSnapshots TreeLoad TreeBuild.
From S2P Require Import ObjectTree ObjectTreeContent.

#[local] Arguments iterOrder : simpl never.

(** ** Marks on changes *)

(** The same change, up to the marks [IsNew] and [rawChange]. *)
Definition remarked (c c' : Change) : Prop :=
  ch_Id c' = ch_Id c /\ ch_OrderId c' = ch_OrderId c /\
  ci_IsDerived (ch_Info c') = ci_IsDerived (ch_Info c) /\
  ci_Identity (ch_Info c') = ci_Identity (ch_Info c) /\ ci_AclHeadId (ch_Info c') = ci_AclHeadId (ch_Info c).

#[global] Instance remarked_preorder : PreOrder remarked.
Proof. split; [by intros c|]. unfold remarked. intros c1 c2 c3. intuition congruence. Qed.

(** The same tree, up to the marks. *)
Record remarks (t t' : Tree) : Prop := mkRemarks {
  rm_att x c' : att t' !! x = Some c' -> exists c, att t !! x = Some c /\ remarked c c';
  rm_order : iterOrder (att t') (t_root t') = iterOrder (att t) (t_root t);
  rm_root : t_root t' = t_root t;
  rm_heads : t_headIds t' = t_headIds t;
  rm_roots : t_possibleRoots t' = t_possibleRoots t;
}.

#[global] Instance remarks_preorder : PreOrder remarks.
Proof.
  split.
  - intros t. split; try done. intros x c' Hx. by exists c'.
  - intros t1 t2 t3 [A1 O1 R1 H1 P1] [A2 O2 R2 H2 P2]. split; [|congruence..].
    intros x c3 Hx. destruct (A2 _ _ Hx) as (c2 & Hx2 & M2). destruct (A1 _ _ Hx2) as (c1 & Hx1 & M1).
    exists c1. split; [done|by etrans].
Qed.

Lemma edges_alter f x m next : edges (alter f x m) next = edges m next.
Proof.
  destruct (m !! x) as [c|] eqn:Hx.
  - rewrite (edges_delete (alter f x m) next x (f c)), (edges_delete m next x c); [|done|by rewrite lookup_alter_eq, Hx].
    by rewrite delete_alter_eq.
  - f_equal. apply map_eq. intros y. rewrite lookup_alter. case_decide; [subst; by rewrite Hx|done].
Qed.

Lemma iterOrder_alter f x m start :
  (forall c, ch_Next (f c) = ch_Next c) -> iterOrder (alter f x m) start = iterOrder m start.
Proof.
  intros Hf. assert (forall y, nextOf (alter f x m) y = nextOf m y) as Hn.
  { intros y. rewrite nextOf_alter. case_decide; [|done]. unfold nextOf. by destruct (m !! y). }
  unfold iterOrder. destruct start as [s|]; [|done]. unfold topSort. f_equal. f_equal.
  rewrite (topLoop_ext _ (nextOf m)) by done. f_equal. rewrite edges_alter.
  f_equal. unfold edges. rewrite !map_fold_foldr.
  induction (map_to_list m) as [|[k v] l IH]; [done|]. cbn. rewrite Hn. do 3 f_equal. exact IH.
Qed.

Lemma remarks_alter f x t :
  (forall c, remarked c (f c) /\ ch_Next (f c) = ch_Next c) -> remarks t (set_attached (alter f x (att t)) t).
Proof.
  intros Hf. split; simpl; try done.
  - intros y c' Hy. rewrite lookup_alter in Hy. case_decide as Hxy; [|by exists c'].
    subst y. destruct (att t !! x) as [c|] eqn:Hc; [|done]. injection Hy as <-. exists c. split; [done|apply Hf].
  - apply iterOrder_alter. intros c. apply Hf.
Qed.

(** A smaller tree with the same heads. *)
Record shrinks (t t' : Tree) : Prop := mkShrinks {
  sh_att x c : att t' !! x = Some c -> att t !! x = Some c;
  sh_heads : t_headIds t' = t_headIds t;
  sh_idle : t_unAttached t = ∅ -> t_unAttached t' = ∅;
}.

#[global] Instance shrinks_preorder : PreOrder shrinks.
Proof.
  split; [by intros t|]. intros t1 t2 t3 [A1 H1 I1] [A2 H2 I2]. split; [auto|congruence|auto].
Qed.

Section reduce.
Context `{LexId}.

Lemma makeRoot_shrinks start : frames shrinks (makeRootAndRemove start).
Proof.
  unfold makeRootAndRemove, attachedChange, clearUnattached. frame; split; simpl; try done.
  intros x c'. rewrite map_lookup_filter_Some. by intros [? _].
Qed.

Lemma reduceTree_shrinks : frames shrinks reduceTree.
Proof.
  unfold reduceTree, attachedChange, clearPossibleRoots. frame; auto using makeRoot_shrinks; by split.
Qed.

(** Without possible roots there is nothing to reduce. *)
Lemma reduceTree_none t : t_possibleRoots t = [] -> reduceTree t = (t, Ok false).
Proof. intros Hr. unfold reduceTree. erewrite st_bind_run by done. by rewrite decide_True. Qed.
End reduce.

(** ** Building from the storage *)

Section build.
Context `{CryptoPrims} `{SealPrims} `{ListCodec} `{TreeCodec} `{LexId} `{SortFunc} `{MapRange}
  {T : Type} `{TreeStorageLaws T}.
Implicit Types (st : T) (cb : changeBuilder).

(** A change read from the storage. *)
Definition storedFrom cb (log : list StorageChange) (d : Change) : Prop :=
  exists sc ch, sc ∈ log /\ cb_Unmarshall cb (sc_Raw sc) false = Ok ch /\ d = storedChange sc ch.

Lemma visitStored_run cb order L acc cache changes cache' :
  visitChanges (visitStored cb order) L (acc, cache) = ((changes, cache'), Ok tt) ->
  (exists l, changes = acc ++ l /\ Forall (storedFrom cb L) l) /\ cache' ⊆ cache.
Proof.
  revert acc cache. induction L as [|sc L IH]; intros acc cache; simpl.
  { intros [= <- <-]. split; [|done]. exists []. by rewrite app_nil_r. }
  unfold mbind at 1, st_bind at 1, visitStored at 1. case_decide.
  { intros [= <- <-]. split; [|done]. exists []. by rewrite app_nil_r. }
  unfold mbind at 1, st_bind at 1, lifts at 1. destruct (cb_Unmarshall cb (sc_Raw sc) false) as [ch|e] eqn:Hch; [|done].
  unfold mbind at 1, st_bind at 1, assigns at 1. simpl. intros Hr.
  destruct (IH _ _ Hr) as [(l & -> & Hl) Hsub]. split.
  - exists (storedChange sc ch :: l). rewrite <- app_assoc. split; [done|]. constructor.
    + exists sc, ch. split; [by left|done].
    + eapply Forall_impl; [exact Hl|]. intros d (sc' & ch' & Hin & ?). exists sc', ch'. split; [by right|done].
  - etrans; [exact Hsub|apply delete_subseteq].
Qed.

Lemma newCache_ids cs : forall x c, newCache cs !! x = Some c -> ch_Id c = x.
Proof.
  unfold newCache. assert (forall m : gmap string Change, (forall x c, m !! x = Some c -> ch_Id c = x) ->
    forall x c, fold_left (fun cache ch => <[ch_Id ch := ch]> cache) cs m !! x = Some c -> ch_Id c = x) as Hg.
  { induction cs as [|d cs IH]; intros m Hm; [done|]. simpl. apply IH.
    intros x c [[<- <-]|[_ Hx]]%lookup_insert_Some; [done|by apply Hm]. }
  apply Hg. intros x c. by rewrite lookup_empty.
Qed.

(** A built tree holds stored changes, with their order ids, and the added ones. *)
Lemma buildWithAdded_spec fuel st cb opts tr added :
  tst_wf st -> tb_useHeadsSnapshot opts = false -> buildWithAdded fuel st cb opts = Ok (tr, added) ->
  t_unAttached tr = ∅ /\ ids_ok (att tr) /\
  forall x c, att tr !! x = Some c -> c ∈ added \/ exists d, storedFrom cb (tst_log st) d /\ stays d c.
Proof.
  intros Hwf Hno Hb. unfold buildWithAdded in Hb. go_step Hb. destruct a as [snapshot order]. go_step Hb.
  rename a into snapshotCh. go_step Hb. destruct a as [changes cache]. rename Hb2 into Hv.
  go_step Hb. go_step Hb2. apply bool_decide_eq_false in Hb2.
  go_step Hb. rename Hb3 into Hfresh. destruct a0 as [tr0 added0]. rewrite Hno in Hb. go_step Hb.
  injection Hb3 as <-. injection Hb as <- <-.
  apply runs_Ok in Hv as [[] Hv]. rewrite tst_After_law in Hv by done.
  destruct (visitStored_run _ _ _ _ _ _ _ Hv) as [(l & -> & Hl) Hsub]. simpl in Hb2, Hfresh.
  unfold addFresh in Hfresh. destruct (AddFast _ emptyTree) as [tr1 [ids|e]] eqn:Hadd; [|done].
  injection Hfresh as <- <-.
  apply AddFast_extends in Hadd as [[Ha Hi] Hun]; [|by destruct l|done].
  assert (ids_ok (att emptyTree)) as Hie by (intros x c; simpl; by rewrite lookup_empty).
  split_and!; [done|by apply Hi|].
  intros x c Hx. destruct (Ha _ _ Hx) as [[Hin (d & Hd & Hs)]|(c0 & Hc0 & _)]; [|simpl in Hc0; by rewrite lookup_empty in Hc0].
  destruct (decide (is_Some (cache !! ch_Id c))) as [Hcache|Hcache].
  - left. apply list_elem_of_In, filter_In. split; [|by apply bool_decide_eq_true].
    apply list_elem_of_In, list_elem_of_omap. by exists x.
  - right. exists d. split; [|done]. apply elem_of_app in Hd as [Hd|Hd].
    + rewrite Forall_forall in Hl. destruct (Hl _ Hd) as (sc & ch & Hsc & Hch). exists sc, ch.
      apply list_elem_of_filter in Hsc as [_ Hsc]. done.
    + exfalso. apply list_elem_of_fmap in Hd as ([k d'] & -> & Hd). rewrite map_range_perm in Hd.
      apply elem_of_map_to_list in Hd. simpl in Hs. destruct Hs as [Hid _]. apply Hcache. rewrite Hid.
      pose proof (newCache_ids _ _ _ (lookup_weaken _ _ _ _ Hd Hsub)) as ->. by eexists.
Qed.
End build.

(** ** The object tree *)

Section agree.
Context `{CryptoPrims} `{AclCodec} `{SharedKeyPrims} `{MapRange} `{ProtoWire} `{ListCodec}
  {TA : Type} `{AclStorage TA} `{SealPrims} `{TreeCodec} `{HmacPrims} `{LexId} `{SortFunc}
  {T : Type} `{TreeStorageLaws T}.
Implicit Types (ot : objectTree TA T) (acl : aclList TA).

(** The author of a change could write at the ACL record the change names. *)
Definition authorised acl (c : Change) : Prop :=
  ci_IsDerived (ch_Info c) = true \/
  exists key perms, ci_Identity (ch_Info c) = Some key /\
    PermissionsAtRecord (al_indexes acl) (al_aclState acl) (ci_AclHeadId (ch_Info c)) key = Ok perms /\
    CanWrite perms = true.

Lemma authorised_remarked acl c c' : remarked c c' -> authorised acl c -> authorised acl c'.
Proof. intros (_ & _ & Hd & Hi & Ha). unfold authorised. by rewrite Hd, Hi, Ha. Qed.

Lemma authorised_stays acl c c' : stays c c' -> authorised acl c -> authorised acl c'.
Proof. intros (_ & Hi & _). unfold authorised. by rewrite Hi. Qed.

Lemma validateChange_authorised vk check t acl c u :
  validateChange vk check t acl c = Ok u -> authorised acl c.
Proof.
  unfold validateChange. destruct (ci_IsDerived (ch_Info c)) eqn:Hd; [by left|]. intros Hv. right.
  apply res_bind_Ok in Hv as (key & Hkey%opt_or_Ok & Hv). apply res_bind_Ok in Hv as (perms & Hperms & Hv).
  apply res_bind_Ok in Hv as (? & Hw%fail_if_Ok%negb_false_iff & _). by exists key, perms.
Qed.

(** The validator of trees in use. *)
Definition validates ot : Prop := exists vk sf check, ot_validator ot = objectTreeValidator vk sf check.

Lemma res_each_elem {A} (f : A -> res unit) l u x : res_each f l = Ok u -> x ∈ l -> f x = Ok tt.
Proof. intros Hf%res_each_Ok Hx. rewrite Forall_forall in Hf. by apply Hf. Qed.

(** What validation establishes. *)
Lemma validateTree_Ok l ot ot' u :
  validates ot -> validateTree l ot = (ot', Ok u) ->
  keysOnly ot ot' /\ forall c, c ∈ (match l with [] => iterated (ot_tree ot) | _ => l end) -> authorised (ot_aclList ot) c.
Proof.
  intros (vk & sf & check & Hval) Hv. pose proof (frames_run _ _ _ _ _ (validateTree_frame l) Hv) as Hk.
  split; [done|]. unfold validateTree in Hv. go_step Hv. apply reads_Ok in Hv0 as [-> ->]. go_step Hv.
  apply (frames_run _ _ _ _ _ (readKeys_frame _)), keysOnly_same in Hv0 as (Ht & _ & Hacl & Hvv).
  apply calls_Ok in Hv as [-> Hv]. rewrite Ht, Hacl, Hvv, Hval in Hv. intros c Hc.
  destruct l as [|c0 l]; simpl in Hv; [apply (res_each_elem _ _ _ c) in Hv|apply (res_each_elem _ (c0 :: l) u c) in Hv];
    try done; by eapply validateChange_authorised.
Qed.

(** Either every change is authorised, or those that are iterated, and then the tree is
    not reduced. *)
Definition shown_ok acl t : Prop :=
  (forall x c, att t !! x = Some c -> authorised acl c) \/
  (t_possibleRoots t = [] /\ forall c, c ∈ iterated t -> authorised acl c).

Lemma iterated_elem t c : c ∈ iterated t -> exists x, x ∈ iterOrder (att t) (t_root t) /\ att t !! x = Some c.
Proof. unfold iterated. intros (x & Hx & Hc)%list_elem_of_omap. by exists x. Qed.

Lemma shown_iterated acl t c : shown_ok acl t -> c ∈ iterated t -> authorised acl c.
Proof. intros [Ha|[_ Hi]] Hc; [|by apply Hi]. apply iterated_elem in Hc as (x & _ & Hx). by eapply Ha. Qed.

Lemma shown_remarks acl t t' : remarks t t' -> shown_ok acl t -> shown_ok acl t'.
Proof.
  intros [Ha Ho Hr _ Hp] [Hall|[Hpr Hit]].
  - left. intros x c' Hx. destruct (Ha _ _ Hx) as (c & Hc & Hm). by eapply authorised_remarked, Hall.
  - right. split; [congruence|]. intros c' (x & Hx & Hc')%iterated_elem. rewrite Ho in Hx.
    destruct (Ha _ _ Hc') as (c & Hc & Hm). eapply authorised_remarked; [done|]. apply Hit.
    apply list_elem_of_omap. by exists x.
Qed.

Lemma reduce_shown acl t t' r : reduceTree t = (t', r) -> shown_ok acl t -> shown_ok acl t'.
Proof.
  intros Hr [Hall|[Hpr Hit]].
  - left. apply (frames_run _ _ _ _ _ reduceTree_shrinks) in Hr as [Ha _ _]. intros x c Hx. by eapply Hall, Ha.
  - rewrite (reduceTree_none t Hpr) in Hr. injection Hr as <- _. by right.
Qed.

(** The object tree but for its tree, its keys, its flusher and its cached path. *)
Definition sameSetup ot ot' : Prop :=
  ot_aclList ot' = ot_aclList ot /\ ot_validator ot' = ot_validator ot /\ ot_storage ot' = ot_storage ot /\
  ot_changeBuilder ot' = ot_changeBuilder ot.

#[global] Instance sameSetup_preorder : PreOrder sameSetup.
Proof. split; [by intros ot|]. unfold sameSetup. intros ot1 ot2 ot3. intuition congruence. Qed.

Lemma keysOnly_setup ot ot' : keysOnly ot ot' -> sameSetup ot ot'.
Proof. by intros (ks & k & ->). Qed.

(** Marking changes. *)
Definition marksOnly ot ot' : Prop := sameSetup ot ot' /\ remarks (ot_tree ot) (ot_tree ot').

#[global] Instance marksOnly_preorder : PreOrder marksOnly.
Proof.
  split; [by intros ot|]. intros ot1 ot2 ot3 [S1 R1] [S2 R2]. split; [by etrans|by etrans].
Qed.

Lemma alterInfo_marks f id :
  (forall i, ci_IsDerived (f i) = ci_IsDerived i /\ ci_Identity (f i) = ci_Identity i /\
     ci_AclHeadId (f i) = ci_AclHeadId i) ->
  frames marksOnly (alterInfo (TA:=TA) (T:=T) f id).
Proof.
  intros Hf. unfold alterInfo. frame. split; [done|]. simpl. apply remarks_alter. intros c.
  destruct (Hf (ch_Info c)) as (H1' & H2' & H3'). by destruct c.
Qed.

Lemma createAddResult_marks old mode l : frames marksOnly (createAddResult (TA:=TA) (T:=T) old mode l).
Proof.
  unfold createAddResult, MarkNewChange. frame; try (by apply alterInfo_marks); by split.
Qed.

Lemma createAddResult_Ok old mode l ot ot' ar :
  createAddResult old mode l ot = (ot', Ok ar) ->
  marksOnly ot ot' /\ ar_Heads ar = t_headIds (ot_tree ot) /\
  ar_Added ar = (fun ch => storageChangeOf (ci_rawChange (ch_Info ch) ≫= rtc_RawChange) ch) <$> l.
Proof.
  intros Hc. split; [exact (frames_run _ _ _ _ _ (createAddResult_marks old mode l) Hc)|].
  unfold createAddResult in Hc. go_step Hc. apply reads_Ok in Hc0 as [-> ->]. go_step Hc.
  apply ret_Ok in Hc as [-> ->]. done.
Qed.

(** ** Adding changes *)

(** Where a change of the tree comes from: it was added, it was there, or it was stored. *)
Definition comesFrom ot (ar : AddResult) (x : string) (c' : Change) : Prop :=
  (exists sc, sc ∈ ar_Added ar /\ sc_Id sc = x /\ sc_OrderId sc = ch_OrderId c') \/
  (exists c, att (ot_tree ot) !! x = Some c /\ (ch_OrderId c <> "" -> ch_OrderId c' = ch_OrderId c)) \/
  (exists sc, sc ∈ tst_log (ot_storage ot) /\ sc_Id sc = x /\
     (sc_OrderId sc <> "" -> ch_OrderId c' = sc_OrderId sc)).

Record added_ok ot (ar : AddResult) ot' : Prop := mkAddedOk {
  ao_setup : sameSetup ot ot';
  ao_heads : ar_Heads ar = t_headIds (ot_tree ot');
  ao_shown : validates ot -> (forall x c, att (ot_tree ot) !! x = Some c -> authorised (ot_aclList ot) c) ->
    shown_ok (ot_aclList ot) (ot_tree ot');
  ao_from : tst_wf (ot_storage ot) -> ids_ok (att (ot_tree ot)) ->
    forall x c', att (ot_tree ot') !! x = Some c' -> comesFrom ot ar x c';
}.

Lemma orElse_Ok {A} (m : ST (objectTree TA T) A) h ot ot' a :
  orElse m h ot = (ot', Ok a) -> m ot = (ot', Ok a).
Proof.
  unfold orElse. destruct (m ot) as [ot1 [b|[s|s]]]; [done| |done]. by destruct (h ot1) as [ot2 [u|e]].
Qed.

Lemma invalidChanges_Ok {A} (m : ST (objectTree TA T) A) ot ot' a :
  invalidChanges m ot = (ot', Ok a) -> m ot = (ot', Ok a).
Proof. unfold invalidChanges. by destruct (m ot) as [ot1 [b|[s|s]]]. Qed.

(** The results of marking what was added. *)
Lemma marked_from ot ar x c c' l :
  ar_Added ar = (fun ch => storageChangeOf (ci_rawChange (ch_Info ch) ≫= rtc_RawChange) ch) <$> l ->
  c ∈ l -> remarked c c' -> ch_Id c = x -> comesFrom ot ar x c'.
Proof.
  intros Ha Hc (_ & Ho & _) Hid. left. exists (storageChangeOf (ci_rawChange (ch_Info c) ≫= rtc_RawChange) c).
  rewrite Ha. split_and!; [apply list_elem_of_fmap; by exists c|done|done].
Qed.

Lemma addToTree_Ok fuel heads lst cs ot ot' ar :
  heads = t_headIds (ot_tree ot) -> t_unAttached (ot_tree ot) = ∅ ->
  addToTree fuel heads lst cs ot = (ot', Ok ar) -> added_ok ot ar ot'.
Proof.
  intros -> Hun Hadd. unfold addToTree in Hadd. go_step Hadd. rename Hadd0 into Hrun.
  unfold onTree in Hrun. destruct (Add cs (ot_tree ot)) as [t' r] eqn:HA. injection Hrun as <- ->.
  destruct a as [mode added]. destruct (Add_extends _ _ _ _ _ Hun HA) as ([Ha Hi] & _ & Hnot).
  assert (mode = Nothing \/ (addedChanges ← reads (fun ot => omap (fun id => t_attached (ot_tree ot) !! id) added);
      orElse (invalidChanges (validateTree addedChanges))
        (assigns (fun ot0 => set_tree (rollbackTree added (t_headIds (ot_tree ot)) lst (ot_tree ot0)) ot0)) ;;
      orElse (createAddResult (t_headIds (ot_tree ot)) mode addedChanges)
        (assigns (fun ot0 => set_tree (rollbackTree added (t_headIds (ot_tree ot)) lst (ot_tree ot0)) ot0) ;;
         rebuildPlain fuel)) (set_tree t' ot) = (ot', Ok ar)) as [Hno|Hadd'].
  { destruct mode; [by right|by right|by left]. }
  - subst mode. destruct (Hnot eq_refl) as [-> Hh]. apply ret_Ok in Hadd as [-> ->].
    assert (forall x c', att t' !! x = Some c' -> exists c, att (ot_tree ot) !! x = Some c /\ stays c c') as Hold.
    { intros x c' Hx. by destruct (Ha _ _ Hx) as [[[]%not_elem_of_nil _]|?]. }
    split; simpl; [done|done| |].
    + intros _ Hauth. left. intros x c' Hx. destruct (Hold _ _ Hx) as (c & Hc & Hs).
      by eapply authorised_stays, Hauth.
    + intros _ _ x c' Hx. destruct (Hold _ _ Hx) as (c & Hc & _ & _ & Ho). right. left. eauto.
  - go_step Hadd'. apply reads_Ok in Hadd'0 as [-> ->]. go_step Hadd'. rename Hadd'0 into Hval.
    apply orElse_Ok, invalidChanges_Ok in Hval. apply orElse_Ok in Hadd'. simpl in Hval, Hadd'.
    set (l := omap _ _) in *. rename s into ot1.
    destruct (createAddResult_Ok _ _ _ _ _ _ Hadd') as ([Hset Hrm] & Hheads & Hadd2).
    pose proof (frames_run _ _ _ _ _ (validateTree_frame l) Hval) as Hk.
    destruct (keysOnly_same _ _ Hk) as (Ht1 & _ & _ & _). simpl in Ht1. rewrite Ht1 in Hrm, Hheads.
    split.
    + etrans; [|exact Hset]. by apply keysOnly_setup in Hk.
    + by rewrite Hheads, (rm_heads _ _ Hrm).
    + intros Hvl Hauth. eapply shown_remarks; [exact Hrm|]. left. intros x c' Hx.
      destruct (Ha _ _ Hx) as [[Hin _]|(c & Hc & Hs)]; [|by eapply authorised_stays, Hauth].
      assert (c' ∈ l) as Hl by (apply list_elem_of_omap; by exists x).
      destruct (validateTree_Ok l (set_tree t' ot) _ _ Hvl Hval) as [_ Hv]. apply Hv.
      clear -Hl. clearbody l. destruct l; [by apply not_elem_of_nil in Hl|done].
    + intros _ Hids x c' Hx. destruct (rm_att _ _ Hrm _ _ Hx) as (c1 & Hc1 & Hm).
      destruct (Ha _ _ Hc1) as [[Hin _]|(c & Hc & _ & _ & Ho)].
      * eapply marked_from; [done| |done|by apply (Hi Hids)]. apply list_elem_of_omap. by exists x.
      * right. left. exists c. split; [done|]. destruct Hm as (_ & -> & _). done.
Qed.

(** ** Rebuilding *)

Lemma SnapshotPath_frame fuel :
  frames (fun ot ot' => sameSetup ot ot' /\ ot_tree ot' = ot_tree ot) (SnapshotPath (TA:=TA) (T:=T) fuel).
Proof.
  assert (PreOrder (fun ot ot' : objectTree TA T => sameSetup ot ot' /\ ot_tree ot' = ot_tree ot)) as Hpre.
  { split; [by intros ot|]. intros ot1 ot2 ot3 [S1 T1] [S2 T2]. split; [by etrans|congruence]. }
  unfold SnapshotPath, notDeleted. frame. by split.
Qed.

(** The tree after a rebuild, before it is validated. *)
Lemma rebuild_Ok fuel th path new ot ot' added :
  rebuildFromStorage fuel th path new ot = (ot', Ok added) ->
  sameSetup ot ot' /\ t_possibleRoots (ot_tree ot') = [] /\
  (validates ot -> forall c, c ∈ iterated (ot_tree ot') -> authorised (ot_aclList ot) c) /\
  (tst_wf (ot_storage ot) -> t_unAttached (ot_tree ot') = ∅ /\ forall x c, att (ot_tree ot') !! x = Some c ->
     ch_Id c = x /\ (c ∈ added \/ exists d, storedFrom (ot_changeBuilder ot) (tst_log (ot_storage ot)) d /\ stays d c)).
Proof.
  intros Hr. unfold rebuildFromStorage in Hr. go_step Hr. apply reads_Ok in Hr0 as [-> ->]. go_step Hr.
  rename s into ot1, Hr0 into Hpath.
  assert (sameSetup ot ot1 /\ ot_tree ot1 = ot_tree ot) as [Hs1 Ht1].
  { destruct th; [exact (frames_run _ _ _ _ _ (SnapshotPath_frame fuel) Hpath)|]. by apply ret_Ok in Hpath as [-> _]. }
  clear Hpath. go_step Hr. apply calls_Ok in Hr0 as [-> Hb]. destruct a0 as [tr added0].
  go_step Hr. apply assigns_Ok in Hr0 as ->. go_step Hr. rename s into ot2, Hr0 into Hroot.
  assert (sameSetup ot1 ot2 /\ shrinks tr (ot_tree ot2)) as [Hs2 Hsh].
  { destruct th as [th|]; [|by apply ret_Ok in Hroot as [-> _]].
    destruct (_ && _ && _) in Hroot; [|by apply ret_Ok in Hroot as [-> _]].
    unfold onTree in Hroot. destruct (makeRootAndRemove _ _) as [t2 r2] eqn:Hm. injection Hroot as <- ->.
    split; [done|]. exact (frames_run _ _ _ _ _ (makeRoot_shrinks _) Hm). }
  go_step Hr. unfold onTree in Hr0. injection Hr0 as <-.
  go_step Hr. apply ret_Ok in Hr as [-> ->]. rename Hr0 into Hval.
  pose proof (frames_run _ _ _ _ _ (validateTree_frame _) Hval) as Hk.
  destruct (keysOnly_same _ _ Hk) as (Ht & _ & _ & _). simpl in Ht.
  destruct Hs1 as (Ha1 & Hv1 & Hst1 & Hc1). destruct Hs2 as (Ha2 & Hv2 & Hst2 & Hc2). split_and!.
  - etrans; [|by apply keysOnly_setup in Hk]. split_and!; simpl; congruence.
  - by rewrite Ht.
  - intros (vk & sf & check & Hvl) c Hc. apply validateTree_Ok in Hval as [_ Hall];
      [|exists vk, sf, check; simpl; by rewrite Hv2, Hv1]. simpl in Hall. rewrite Ha2, Ha1 in Hall. apply Hall. by rewrite Ht in Hc.
  - intros Hwf. rewrite <- Hst1 in Hwf. apply (buildWithAdded_spec _ _ _ _ _ _ Hwf) in Hb as (Hun & Hids & Hfrom); [|done].
    rewrite Ht. simpl. split; [by apply (sh_idle _ _ Hsh)|]. intros x c Hx. apply (sh_att _ _ Hsh) in Hx.
    split; [by apply Hids|]. rewrite <- Hc1, <- Hst1. by eapply Hfrom.
Qed.

Lemma storedFrom_comes ot ar x c c' :
  ch_Id c = x -> remarked c c' ->
  (exists d, storedFrom (ot_changeBuilder ot) (tst_log (ot_storage ot)) d /\ stays d c) -> comesFrom ot ar x c'.
Proof.
  intros Hid (_ & Hm & _) (d & (sc & ch & Hsc & Hch & ->) & Hs). right. right. exists sc.
  destruct Hs as (Hi & _ & Ho). destruct (Unmarshall_fresh _ _ _ _ Hch) as (Hci & _). simpl in Hi, Ho.
  split_and!; [done|simpl in Hci; congruence|]. intros Hne. rewrite Hm. auto.
Qed.

Lemma addChanges_Ok fuel payload ot ot' ar :
  t_unAttached (ot_tree ot) = ∅ -> addChangesToTree fuel payload ot = (ot', Ok ar) -> added_ok ot ar ot'.
Proof.
  intros Hun Hadd. unfold addChangesToTree in Hadd. go_step Hadd. apply reads_Ok in Hadd0 as [-> ->].
  go_step Hadd. apply reads_Ok in Hadd0 as [-> ->]. go_step Hadd. rename Hadd0 into Hread.
  pose proof (newChanges_same (rp_RawChanges payload) ot Hun) as Hsame. rewrite Hread in Hsame. simpl in Hsame. subst s.
  case_decide.
  { apply ret_Ok in Hadd as [-> ->]. split; [done|done|by intros _ Hauth; left|].
    intros _ _ x c Hx. right. left. by exists c. }
  go_step Hadd. apply reads_Ok in Hadd0 as [-> Hf]. destruct a0 as [[b cs] sns].
  go_step Hadd. apply calls_Ok in Hadd0 as [-> _]. destruct a0; [|by eapply addToTree_Ok].
  go_step Hadd. apply orElse_Ok in Hadd0. apply orElse_Ok in Hadd. rename s into ot1, a0 into added.
  destruct (rebuild_Ok _ _ _ _ _ _ _ Hadd0) as (Hs1 & Hp1 & Hv1 & Hw1).
  destruct (createAddResult_Ok _ _ _ _ _ _ Hadd) as ([Hs2 Hrm] & Hheads & Had).
  split.
  - by etrans.
  - by rewrite Hheads, (rm_heads _ _ Hrm).
  - intros Hvl _. eapply shown_remarks; [exact Hrm|]. right. by split; [|apply Hv1].
  - intros Hwf _ x c' Hx. destruct (rm_att _ _ Hrm _ _ Hx) as (c & Hc & Hm).
    destruct (proj2 (Hw1 Hwf) _ _ Hc) as [Hid [Hin|Hst]].
    + by eapply marked_from.
    + by eapply storedFrom_comes.
Qed.

(** ** Flushing *)

(** Marks are set and the tree is reduced. *)
Record lessens ot ot' : Prop := mkLessens {
  le_setup : sameSetup ot ot';
  le_att x c' : att (ot_tree ot') !! x = Some c' -> exists c, att (ot_tree ot) !! x = Some c /\ remarked c c';
  le_heads : t_headIds (ot_tree ot') = t_headIds (ot_tree ot);
  le_shown acl : shown_ok acl (ot_tree ot) -> shown_ok acl (ot_tree ot');
}.

#[global] Instance lessens_preorder : PreOrder lessens.
Proof.
  split.
  - intros ot. split; try done. intros x c' Hx. by exists c'.
  - intros ot1 ot2 ot3 [S1 A1 Q1 P1] [S2 A2 Q2 P2]. split; [by etrans| |congruence|auto].
    intros x c3 Hx. destruct (A2 _ _ Hx) as (c2 & Hx2 & M2). destruct (A1 _ _ Hx2) as (c1 & Hx1 & M1).
    exists c1. split; [done|by etrans].
Qed.

Lemma marks_lessens ot ot' : marksOnly ot ot' -> lessens ot ot'.
Proof.
  intros [Hs Hr]. split; [done|apply (rm_att _ _ Hr)|apply (rm_heads _ _ Hr)|]. intros acl. by apply shown_remarks.
Qed.

Lemma reduce_lessens : frames lessens (onTree (TA:=TA) (T:=T) reduceTree).
Proof.
  intros ot. unfold onTree. destruct (reduceTree (ot_tree ot)) as [t' r] eqn:Hr. simpl.
  pose proof (frames_run _ _ _ _ _ reduceTree_shrinks Hr) as [Ha Hh _]. split; simpl; [done| |done|].
  - intros x c' Hx%Ha. by exists c'.
  - intros acl. by eapply reduce_shown.
Qed.

Lemma set_flusher_lessens fl ot : lessens ot (set_flusher fl ot).
Proof. split; [done| |done|done]. intros x c' Hx. by exists c'. Qed.

Lemma alterInfo_lessens b id : frames lessens (alterInfo (TA:=TA) (T:=T) (with_IsNew b) id).
Proof. intros ot. apply marks_lessens. by apply (alterInfo_marks (with_IsNew b) id). Qed.

Lemma FlushAfterBuild_lessens : frames lessens (FlushAfterBuild (TA:=TA) (T:=T)).
Proof. unfold FlushAfterBuild. frame. apply reduce_lessens. Qed.

Lemma Flush_lessens : frames lessens (Flush (TA:=TA) (T:=T)).
Proof. unfold Flush. frame; auto using alterInfo_lessens, set_flusher_lessens, reduce_lessens. Qed.

(** The default flusher stays. *)
Definition keepsDefault ot ot' : Prop := ot_flusher ot = defaultFlusher -> ot_flusher ot' = defaultFlusher.
#[local] Instance keepsDefault_preorder : PreOrder keepsDefault.
Proof. split; [by intros ot Hd|]. intros ot1 ot2 ot3 K1 K2 Hd. by apply K2, K1. Qed.

Lemma orElse_frame (R : objectTree TA T -> objectTree TA T -> Prop) `{!PreOrder R} {A} (m : ST _ A) h :
  frames R m -> frames R h -> frames R (orElse m h).
Proof.
  intros Hm Hh ot. unfold orElse. specialize (Hm ot). destruct (m ot) as [ot1 [a|[s|s]]]; try done. simpl in Hm.
  specialize (Hh ot1). destruct (h ot1) as [ot2 [u|e]]; simpl in *; by etrans.
Qed.

Lemma onTree_default {A} (m : ST Tree A) : frames keepsDefault (onTree m).
Proof. intros ot. unfold onTree. destruct (m (ot_tree ot)). by intros Hd. Qed.

Lemma keysOnly_default {A} (m : ST (objectTree TA T) A) : frames keysOnly m -> frames keepsDefault m.
Proof. intros Hm ot. destruct (Hm ot) as (ks & k & ->). by intros Hd. Qed.

Lemma rebuild_default fuel th path new : frames keepsDefault (rebuildFromStorage (TA:=TA) (T:=T) fuel th path new).
Proof.
  unfold rebuildFromStorage, SnapshotPath, notDeleted.
  frame; auto using onTree_default; try (by intros Hd). apply keysOnly_default, validateTree_frame.
Qed.

Lemma rebuildPlain_default fuel : frames keepsDefault (rebuildPlain (TA:=TA) (T:=T) fuel).
Proof.
  intros ot. unfold rebuildPlain. pose proof (rebuild_default fuel None [] [] ot) as Hr.
  by destruct (rebuildFromStorage fuel None [] [] ot) as [ot1 [a|[s|s]]].
Qed.

Lemma createAddResult_default old mode l : frames keepsDefault (createAddResult (TA:=TA) (T:=T) old mode l).
Proof.
  intros ot. unfold createAddResult, mbind, st_bind, reads. simpl.
  match goal with |- keepsDefault _ (let '(_, _) := st_each ?f l ot in _).1 => set (step := f) end.
  assert (frames keepsDefault (st_each step l)) as Hs.
  { apply frames_each; [exact _|]. intros ch _ ot1 Hd. unfold step, MarkNewChange, alterInfo, reads, lifts, assigns.
    unfold mbind, st_bind. rewrite Hd. simpl. by destruct (ci_rawChange (ch_Info ch)). }
  specialize (Hs ot). by destruct (st_each step l ot) as [ot1 [[]|e]].
Qed.

Lemma newChanges_default raws : frames keepsDefault (newChanges_ (TA:=TA) (T:=T) raws).
Proof. induction raws; simpl; frame; auto; by intros Hd. Qed.

Lemma addChanges_default fuel payload : frames keepsDefault (addChangesToTree (TA:=TA) (T:=T) fuel payload).
Proof.
  unfold addChangesToTree, addToTree. frame; try (apply orElse_frame; [exact _| |]); frame;
    auto using newChanges_default, rebuild_default, rebuildPlain_default, createAddResult_default, onTree_default;
    try (by intros Hd).
  all: intros ot1; unfold invalidChanges;
    match goal with |- context [validateTree ?l] => pose proof (keysOnly_default _ (validateTree_frame l) ot1) as Hv end;
    by destruct (validateTree _ ot1) as [? [?|[?|?]]].
Qed.

(** The parts of a successful delivery. *)
Lemma AddRaw_parts fuel payload upd ot ot' ar :
  AddRawChangesWithUpdater fuel payload upd ot = (ot', Ok ar) ->
  exists ar0 ot1 ot2 st', addChangesToTree fuel payload ot = (ot1, Ok ar0) /\ lessens ot1 ot2 /\
    ar_Added ar = ar_Added ar0 /\ ar_Heads ar = ar_Heads ar0 /\
    tst_AddAll (ar_Added ar) (ar_Heads ar) (RootId (ot_tree ot2)) (ot_storage ot2) = (st', Ok tt) /\
    lessens (set_storage st' ot2) ot' /\
    (ot_flusher ot = defaultFlusher -> ot_tree ot' = ot_tree ot2).
Proof.
  intros Hadd. unfold AddRawChangesWithUpdater in Hadd. go_step Hadd. apply calls_Ok in Hadd0 as [-> _].
  go_step Hadd. apply reads_Ok in Hadd0 as [-> ->]. go_step Hadd. rename s into ot1, a0 into ar0. cbv zeta in Hadd.
  go_step Hadd. rename s into ot2, Hadd1 into Hflush.
  go_step Hadd. apply reads_Ok in Hadd1 as [-> ->]. go_step Hadd. apply reads_Ok in Hadd1 as [-> ->].
  go_step Hadd. rename s into ot3.
  assert (ot3 = ot2) as ->.
  { destruct (ot_deferredUpdater ot2); [by apply ret_Ok in Hadd1 as [-> _]|].
    apply orElse_Ok in Hadd1. by apply calls_Ok in Hadd1 as [-> _]. }
  clear Hadd1. go_step Hadd. apply reads_Ok in Hadd1 as [-> ->]. go_step Hadd. apply orElse_Ok in Hadd1.
  unfold onStore in Hadd1. destruct (tst_AddAll _ _ _ (ot_storage ot2)) as [st' r] eqn:Hstore.
  injection Hadd1 as <- ->. go_step Hadd.
  assert (s = set_storage st' ot2) as ->.
  { destruct (ot_deferredUpdater ot2); [by apply calls_Ok in Hadd1 as [-> _]|by apply ret_Ok in Hadd1 as [-> _]]. }
  clear Hadd1. go_step Hadd. apply ret_Ok in Hadd as [-> ->]. destruct a2.
  exists ar0, ot1, ot2, st'. split_and!; try done.
  - exact (frames_run _ _ _ _ _ FlushAfterBuild_lessens Hflush).
  - exact (frames_run _ _ _ _ _ Flush_lessens Hadd1).
  - intros Hfl. apply (frames_run _ _ _ _ _ (addChanges_default fuel payload) Hadd0) in Hfl.
    unfold FlushAfterBuild in Hflush. erewrite st_bind_run in Hflush by done. rewrite Hfl in Hflush.
    go_step Hflush. apply ret_Ok in Hflush as [-> _]. unfold onTree in Hflush0.
    destruct (reduceTree (ot_tree ot1)) as [t2 r2]. injection Hflush0 as <- _.
    unfold Flush in Hadd1. erewrite st_bind_run in Hadd1 by done. simpl in Hadd1. rewrite Hfl in Hadd1.
    by injection Hadd1 as <-.
Qed.

(** C5: an object tree shows only what its authors were allowed to write.  When changes of
    peers were added to a tree whose changes are authorised, then every change the
    iteration of the new tree delivers, whether it was added, was there before or was
    loaded from the storage to connect them, is a derived root or names an author whose
    permissions at the ACL record it refers to allow writing. *)
Theorem object_tree_authorised fuel payload upd ot ot' ar :
  validates ot -> t_unAttached (ot_tree ot) = ∅ ->
  (forall x c, t_attached (ot_tree ot) !! x = Some c -> authorised (ot_aclList ot) c) ->
  AddRawChangesWithUpdater fuel payload upd ot = (ot', Ok ar) ->
  forall c, c ∈ iterated (ot_tree ot') -> authorised (ot_aclList ot') c.
Proof.
  intros Hvl Hun Hauth Hadd c Hc.
  destruct (AddRaw_parts _ _ _ _ _ _ Hadd) as (ar0 & ot1 & ot2 & st' & Hch & Hl1 & _ & _ & _ & Hl2 & _).
  pose proof (addChanges_Ok _ _ _ _ _ Hun Hch) as [(Ha1 & _) _ Hshown _].
  destruct (le_setup _ _ Hl1) as (Ha2 & _). destruct (le_setup _ _ Hl2) as (Ha3 & _). simpl in Ha3.
  rewrite Ha3, Ha2, Ha1. eapply shown_iterated; [|exact Hc].
  apply (le_shown _ _ Hl2). simpl. apply (le_shown _ _ Hl1). by apply Hshown.
Qed.

(** Every change in memory is stored under its order id. *)
Definition agrees ot : Prop :=
  forall x c, t_attached (ot_tree ot) !! x = Some c ->
    exists sc, sc ∈ tst_log (ot_storage ot) /\ sc_Id sc = x /\ sc_OrderId sc = ch_OrderId c.

(** C4: memory and storage agree.  When changes of peers were added to a tree that agrees
    with its storage, on order ids that are not empty, then the storage has gained exactly
    the changes that are reported as added; it has the heads of the tree, which are
    reported too, and (with the default flusher) its root as the common snapshot; and
    again every change of the tree is stored under the order id the tree iterates it by. *)
Theorem object_tree_agrees fuel payload upd ot ot' ar :
  tst_wf (ot_storage ot) -> Forall (fun sc => sc_OrderId sc <> "") (tst_log (ot_storage ot)) ->
  t_unAttached (ot_tree ot) = ∅ -> ids_ok (t_attached (ot_tree ot)) -> agrees ot ->
  AddRawChangesWithUpdater fuel payload upd ot = (ot', Ok ar) ->
  agrees ot' /\ tst_wf (ot_storage ot') /\ ar_Heads ar = t_headIds (ot_tree ot') /\
  tst_Heads (ot_storage ot') = Ok (t_headIds (ot_tree ot')) /\
  (ot_flusher ot = defaultFlusher -> tst_CommonSnapshot (ot_storage ot') = Ok (RootId (ot_tree ot'))) /\
  exists seq, tst_log (ot_storage ot') ≡ₚ
    tst_log (ot_storage ot) ++ (stored seq <$> ar_Added ar).
Proof.
  intros Hwf Hord Hun Hids Hag Hadd.
  destruct (AddRaw_parts _ _ _ _ _ _ Hadd)
    as (ar0 & ot1 & ot2 & st' & Hch & Hl1 & Hadded & Hheads & Hstore & Hl2 & Hfl).
  pose proof (addChanges_Ok _ _ _ _ _ Hun Hch) as [(Ha1 & _ & Hst1 & _) Hh1 _ Hfrom].
  destruct (le_setup _ _ Hl1) as (_ & _ & Hst2 & _). destruct (le_setup _ _ Hl2) as (_ & _ & Hst3 & _). simpl in Hst3.
  rewrite Hst2, Hst1 in Hstore. apply tst_AddAll_Ok in Hstore as (Hwf' & _ & Hhs & Hcs & seq & Hlog); [|done].
  assert (t_headIds (ot_tree ot') = ar_Heads ar) as Hh.
  { rewrite (le_heads _ _ Hl2). simpl. by rewrite (le_heads _ _ Hl1), Hheads. }
  rewrite Hst3. split_and!; [|done|done|by rewrite Hh| |by exists seq].
  - intros x c'. rewrite Hst3. setoid_rewrite Hlog. intros Hx.
    destruct (le_att _ _ Hl2 _ _ Hx) as (c2 & Hc2 & _ & Ho2 & _). simpl in Hc2.
    destruct (le_att _ _ Hl1 _ _ Hc2) as (c1 & Hc1 & _ & Ho1 & _). rewrite Ho2, Ho1.
    destruct (Hfrom Hwf Hids _ _ Hc1) as [(sc & Hsc & Hid & Ho)|[(c & Hc & Ho)|(sc & Hsc & Hid & Ho)]].
    + exists (stored seq sc). rewrite Hadded. split_and!; [|done|done].
      apply elem_of_app. right. by apply list_elem_of_fmap_2.
    + destruct (Hag _ _ Hc) as (sc & Hsc & Hid & Hso). exists sc. split_and!; [apply elem_of_app; by left|done|].
      rewrite Ho; [done|]. rewrite <- Hso. rewrite Forall_forall in Hord. by apply Hord.
    + exists sc. split_and!; [apply elem_of_app; by left|done|]. rewrite Ho; [done|].
      rewrite Forall_forall in Hord. by apply Hord.
  - intros Hdf. by rewrite (Hfl Hdf).
Qed.
End agree.
