(* ===== verification/ObjectTreeRead.v ===== *)
(** Reading an object tree (src/commonspace/object/tree/objecttree/objecttree.go: IterateRoot,
    IterateFrom, IterateAfterAddSeq): contents are decrypted and converted to models as the
    iteration comes to them.  Models live on the changes; here they are a map beside the
    tree.  Encrypted content is read back by whoever holds its read key. *)

From Stdlib Require Import ZArith Lia String.
From stdpp Require Import base option list gmap strings sorting.
From S2P Require Import Prelude Crypto AclModels AclState AclValidator AclApply AclStorage AclKeep.
From S2P Require Import AclList TreeModels Tree TreeOrder TreeAdd TreeStable TreeHeads TreeCalls.
From S2P Require Import TreeMerged TreeMain ChangeBuilder ChangeMain TreeStorage TreeSnapshots TreeLoad.
From S2P Require Import TreeBuild ObjectTree ObjectTreeContent.


(** ** Iteration *)

(** The suffix of the iteration from a change on. *)
Fixpoint skipTo (startId : string) (l : list string) : list string :=
  match l with
  | [] => []
  | id :: l' => if decide (id = startId) then l else skipTo startId l'
  end.

(** The ids [Tree.IterateSkip] visits: none when the start is not in the tree. *)
Definition IterateSkip (t : Tree) (startId : string) : list string :=
  if decide (is_Some (t_attached t !! startId)) then skipTo startId (iterOrder (t_attached t) (t_root t)) else [].

(** Visit until the visitor says stop. *)
Fixpoint visitWhile {S} (f : string -> ST S bool) (ids : list string) : ST S unit :=
  match ids with
  | [] => mret tt
  | id :: ids => more ← f id; if (more : bool) then visitWhile f ids else mret tt
  end.

Definition with_Data d i := mkChangeInfo (ci_AclHeadId i) (ci_Timestamp i) (ci_ReadKeyId i)
  (ci_Identity i) d (ci_Signature i) (ci_DataType i) (ci_IsDerived i) (ci_IsNew i)
  (ci_ParentId i) (ci_AddSeq i) (ci_rawChange i).

Section iterate.
Context `{CryptoPrims} `{AclCodec} `{SharedKeyPrims} `{MapRange} `{ProtoWire} `{ListCodec}
  {TA : Type} `{AclStorage TA} `{SealPrims} `{TreeCodec} `{HmacPrims} `{LexId} `{SortFunc}
  {T : Type} `{TreeStorage T}.
(** The models and the state of the closure [iterate]. *)
Context {M V : Type}.

Record reading := mkReading {
  rd_tree : objectTree TA T;
  rd_models : gmap string M;
  rd_state : V;
}.
(** [convert] may be nil and may return a nil model; [iterate] says whether to go on. *)
Variable convert : option (Change -> option bytes -> res (option M)).
Variable iterate : Change -> option M -> V -> V * bool.
Abbreviation RM := (ST reading).

Definition deliver (c : Change) (model : option M) : RM bool := fun r =>
  let '(v, more) := iterate c model (rd_state r) in (mkReading (rd_tree r) (rd_models r) v, Ok more).

(** [c.Model = model; c.Data = nil] *)
Definition setModel (c : Change) (model : option M) : RM unit := assigns (fun r =>
  mkReading (set_tree (set_attached
      (<[ch_Id c := with_Info (with_Data None (ch_Info c)) c]> (t_attached (ot_tree (rd_tree r))))
      (ot_tree (rd_tree r))) (rd_tree r))
    (match model with Some model => <[ch_Id c := model]> (rd_models r) | None => rd_models r end) (rd_state r)).

Definition visitChange (toModel : Change -> option bytes -> res (option M)) (id : string) : RM bool :=
  c ← calls (fun r => opt_or (t_attached (ot_tree (rd_tree r)) !! id) nilChange);
  saved ← reads (fun r => rd_models r !! id);
  root ← reads (fun r => bool_decide (id = ot_id (rd_tree r)));
  match saved with
  | Some model => deliver c (Some model)
  | None =>
      if (root : bool) then deliver c None
      else
        decrypted ← calls (fun r => decryptChange (rd_tree r) c);
        model ← lifts (toModel c decrypted);
        setModel c model ;;
        deliver (with_Info (with_Data None (ch_Info c)) c) model
  end.

Definition IterateFrom (id : string) : RM unit :=
  calls (fun r => fail_if (ot_isDeleted (rd_tree r)) ErrDeleted) ;;
  ids ← reads (fun r => IterateSkip (ot_tree (rd_tree r)) id);
  match convert with
  | None => visitWhile (fun id =>
      c ← calls (fun r => opt_or (t_attached (ot_tree (rd_tree r)) !! id) nilChange);
      model ← reads (fun r => rd_models r !! id);
      deliver c model) ids
  | Some toModel => visitWhile (visitChange toModel) ids
  end.

Definition IterateRoot : RM unit :=
  root ← reads (fun r => RootId (ot_tree (rd_tree r)));
  IterateFrom root.

(** ** What was stored since a sequence number *)

Definition deliverTo (c : Change) (model : option M) : ST V bool := fun v =>
  let '(v, more) := iterate c model v in (v, Ok more).

Definition visitAdded (ot : objectTree TA T) (sc : StorageChange) : ST V bool :=
  ch ← lifts (cb_Unmarshall (ot_changeBuilder ot) (sc_Raw sc) false);
  let ch := storedChange sc ch in
  match convert with
  | Some toModel =>
      if decide (ch_Id ch = ot_id ot) then deliverTo ch None
      else
        decrypted ← lifts (decryptChange ot ch);
        model ← lifts (toModel ch decrypted);
        deliverTo (with_Info (with_Data None (ch_Info ch)) ch) model
  | None => deliverTo ch None
  end.

Definition IterateAfterAddSeq (ot : objectTree TA T) (addSeq : Z) : ST V unit :=
  lifts (fail_if (ot_isDeleted ot) ErrDeleted) ;;
  tst_GetAfterAddSeq (ot_storage ot) addSeq V (visitAdded ot).
End iterate.

(** ** Keys *)

Section keys.
Context `{CryptoPrims} `{AclCodec} `{SharedKeyPrims} `{MapRange} `{ProtoWire} `{ListCodec}
  {TA : Type} `{AclStorage TA} `{!SealPrims} `{!SealLaws} `{TreeCodec} `{!TreeCodecLaws} `{HmacPrims} `{LexIdLaws} `{SortFunc}
  {T : Type} `{TreeStorageLaws T}.
Implicit Types (ot : objectTree TA T) (state : AclState).

Abbreviation stateOf ot := (al_aclState (ot_aclList ot)).
Definition treeKeyOf (id : string) (rk : SymKey) : res SymKey :=
  raw ← SymKey_Raw rk; DeriveKey (NewKeyDeriver (AnysyncTreePath id)) raw.

(** Every key of the tree is derived from the read key with its id; with all keys there,
    the current one is the key of the latest read key change. *)
Record keys_ok ot : Prop := mkKeysOk {
  kk_derived id k : ot_keys ot !! id = Some k ->
    exists ks rk, st_keys (stateOf ot) !! id = Some ks /\ ReadKey ks = Some rk /\ treeKeyOf (ot_id ot) rk = Ok k;
  kk_current id k : size (ot_keys ot) = size (st_keys (stateOf ot)) ->
    CurrentReadKeyId (stateOf ot) = Ok id -> ot_keys ot !! id = Some k -> ot_currentReadKey ot = Some k;
}.

(** A tree without keys yet. *)
Lemma keys_ok_new ot : ot_keys ot = ∅ -> keys_ok ot.
Proof. intros He. split; intros id k; rewrite He, ?lookup_empty; done. Qed.

(** The keys of [ot] are derived, and more of them in [ot']. *)
Definition more_keys state (treeId : string) ot ot' : Prop :=
  ot_keys ot ⊆ ot_keys ot' /\ ot_currentReadKey ot' = ot_currentReadKey ot /\
  forall id k, ot_keys ot' !! id = Some k -> ot_keys ot !! id = None ->
    exists ks rk, st_keys state !! id = Some ks /\ ReadKey ks = Some rk /\ treeKeyOf treeId rk = Ok k.

#[local] Instance more_keys_preorder state treeId : PreOrder (more_keys state treeId).
Proof.
  split.
  - intros ot. split_and!; [done|done|]. intros. congruence.
  - intros ot1 ot2 ot3 (Hs & Hc & Hn) (Hs' & Hc' & Hn'). split_and!; [by etrans|congruence|].
    intros id k Hk3 Hk1. destruct (ot_keys ot2 !! id) as [k2|] eqn:Hk2; [|by eauto].
    pose proof (lookup_weaken _ _ _ _ Hk2 Hs') as Hk. assert (k2 = k) as -> by congruence. eauto.
Qed.

Lemma deriveMissing_more state treeId key ks :
  st_keys state !! key = Some ks ->
  frames (more_keys state treeId) (deriveMissing (TA:=TA) (T:=T) (NewKeyDeriver (AnysyncTreePath treeId)) (key, ks)).
Proof.
  intros Hks ot. unfold deriveMissing, reads, lifts, assigns, mbind, st_bind. cbn [SymKey_Raw].
  destruct (ot_keys ot !! key) as [k0|] eqn:Hk0; simpl; [done|].
  destruct (ReadKey ks) as [rk|] eqn:Hrk; simpl; [|done].
  destruct (DeriveKey _ _) as [k|e] eqn:Hd; simpl; [|done]. split_and!; [by apply insert_subseteq|done|].
  intros id k'. simpl. rewrite lookup_insert_Some. intros [[<- <-]|[_ ?]] ?; [|congruence].
  exists ks, rk. split_and!; [done|done|]. exact Hd.
Qed.

(** After a run that went through, a known read key has its tree key. *)
Lemma deriveMissing_has d key ks ot ot' u :
  deriveMissing d (key, ks) ot = (ot', Ok u) -> is_Some (ReadKey ks) -> is_Some (ot_keys ot' !! key).
Proof.
  intros Hr [rk Hrk]. unfold deriveMissing in Hr. rewrite Hrk in Hr. go_step Hr. apply reads_Ok in Hr0 as [-> ->].
  case_bool_decide; [by apply ret_Ok in Hr as [-> _]|]. go_step Hr. apply lifts_Ok in Hr0 as [-> _].
  go_step Hr. apply lifts_Ok in Hr0 as [-> _]. apply assigns_Ok in Hr as ->. simpl. rewrite lookup_insert_eq. eauto.
Qed.

Lemma deriveAll_has state treeId l ot ot' u key ks :
  Forall (fun x => st_keys state !! x.1 = Some x.2) l -> (key, ks) ∈ l -> is_Some (ReadKey ks) ->
  st_each (deriveMissing (NewKeyDeriver (AnysyncTreePath treeId))) l ot = (ot', Ok u) -> is_Some (ot_keys ot' !! key).
Proof.
  intros Hl Hin Hrk. revert ot. induction Hl as [|[key' ks'] l Hx Hl IH]; [by apply not_elem_of_nil in Hin|].
  intros ot Hr. simpl in Hr. go_step Hr. apply elem_of_cons in Hin as [[= <- <-]|Hin]; [|by eapply IH].
  destruct (deriveMissing_has _ _ _ _ _ _ Hr0 Hrk) as [k Hk]. exists k.
  assert (frames (more_keys state treeId) (st_each (deriveMissing (TA:=TA) (T:=T) (NewKeyDeriver (AnysyncTreePath treeId))) l)) as Hf.
  { apply frames_each; [exact _|]. intros [x y] Hxy. rewrite Forall_forall in Hl. apply deriveMissing_more, (Hl _ Hxy). }
  apply (frames_run _ _ _ _ _ Hf) in Hr as (Hsub & _). by eapply lookup_weaken.
Qed.

(** The key of the current read key change is known to the ACL. *)
Definition current_known state (id : string) : Prop :=
  CurrentReadKeyId state = Ok id /\ exists ks, st_keys state !! id = Some ks /\ is_Some (ReadKey ks).

(** The read key an ACL state has under the id of a record. *)
Definition readKeyOf state (id : string) : option SymKey := st_keys state !! id ≫= ReadKey.

(** With as many keys as the ACL has, all are there. *)
Lemma keys_ok_full ot id : keys_ok ot -> size (ot_keys ot) = size (st_keys (stateOf ot)) ->
  is_Some (st_keys (stateOf ot) !! id) -> is_Some (ot_keys ot !! id).
Proof.
  intros [Hd _] Hsize Hid. apply elem_of_dom. apply elem_of_dom in Hid.
  assert (dom (ot_keys ot) ⊆ dom (st_keys (stateOf ot))) as Hsub.
  { intros x [k Hx]%elem_of_dom. destruct (Hd _ _ Hx) as (ks & _ & Hks & _). apply elem_of_dom. eauto. }
  apply set_subseteq_size_eq in Hsub; [set_solver|]. by rewrite !size_dom, Hsize.
Qed.

Lemma readKeys_ok ot ot' u :
  keys_ok ot -> readKeysFromAclState (stateOf ot) ot = (ot', Ok u) ->
  HadReadPermissions (stateOf ot) (GetPublic (st_key (stateOf ot))) = true ->
  keys_ok ot' /\ (forall id, current_known (stateOf ot) id ->
    exists k, ot_keys ot' !! id = Some k /\ ot_currentReadKey ot' = Some k) /\
  forall id, is_Some (readKeyOf (stateOf ot) id) -> is_Some (ot_keys ot' !! id).
Proof.
  intros Hok Hr Hread. pose proof (frames_run _ _ _ _ _ (readKeys_frame _) Hr) as (ks' & k' & Heq).
  unfold readKeysFromAclState in Hr. go_step Hr. apply reads_Ok in Hr0 as [-> ->].
  case_bool_decide as Hsize.
  { apply ret_Ok in Hr as [-> _]. split_and!; [done| |].
    - intros id (Hcur & ks & Hks & _).
      destruct (keys_ok_full ot id Hok Hsize) as [k Hk]; [eauto|]. exists k. split; [done|]. by eapply kk_current.
    - intros id [rk (ks & Hks & _)%bind_Some]. apply keys_ok_full; eauto. }
  rewrite Hread in Hr. simpl in Hr. go_step Hr. apply reads_Ok in Hr0 as [-> ->]. go_step Hr. rename Hr0 into Hloop.
  assert (Forall (fun x => st_keys (stateOf ot) !! x.1 = Some x.2) (map_range (st_keys (stateOf ot)))) as Hall.
  { apply Forall_forall. intros [x y] Hx. rewrite map_range_perm in Hx. by apply elem_of_map_to_list in Hx. }
  assert (frames (more_keys (stateOf ot) (ot_id ot))
    (st_each (deriveMissing (TA:=TA) (T:=T) (NewKeyDeriver (AnysyncTreePath (ot_id ot)))) (map_range (st_keys (stateOf ot))))) as Hf.
  { apply frames_each; [exact _|]. intros [x y] Hxy. rewrite Forall_forall in Hall. apply deriveMissing_more, (Hall _ Hxy). }
  pose proof (frames_run _ _ _ _ _ Hf Hloop) as (Hsub & Hcur & Hnew).
  go_step Hr. apply lifts_Ok in Hr0 as [-> Hid]. go_step Hr. apply reads_Ok in Hr0 as [-> ->].
  assert (ot_keys ot' = ot_keys s /\ forall k, ot_keys s !! a0 = Some k -> ot_currentReadKey ot' = Some k) as [Hkeys Hset].
  { destruct (ot_keys s !! a0) as [k|]; [by apply assigns_Ok in Hr as ->; split; [|intros ? [= <-]]|].
    go_step Hr. apply lifts_Ok in Hr0 as [-> _]. destruct a1; [|by apply ret_Ok in Hr as [-> _]].
    go_step Hr. apply lifts_Ok in Hr0 as [-> _]. by apply assigns_Ok in Hr as ->. }
  clear Hr. subst ot'. simpl in Hkeys, Hset.
  assert (forall id ks, st_keys (stateOf ot) !! id = Some ks -> is_Some (ReadKey ks) -> is_Some (ot_keys s !! id)) as Hhas.
  { intros id ks Hks Hrk. eapply (deriveAll_has _ _ _ _ _ _ id ks Hall); [|done|exact Hloop].
    rewrite map_range_perm. by apply elem_of_map_to_list. }
  split_and!; [split| |].
  - intros id k. simpl. rewrite Hkeys. intros Hk. destruct (ot_keys ot !! id) as [k0|] eqn:Hk0; [|by eauto].
    pose proof (lookup_weaken _ _ _ _ Hk0 Hsub) as Hk1. assert (k0 = k) as -> by congruence. by eapply kk_derived.
  - intros id k _. simpl. rewrite Hkeys. intros Hc. assert (id = a0) as -> by congruence. apply Hset.
  - intros id (Hc & ks & Hks & Hrk). assert (id = a0) as -> by congruence. simpl.
    destruct (Hhas _ _ Hks Hrk) as [k Hk]. exists k. rewrite Hkeys. auto.
  - intros id [rk (ks & Hks & Hrk)%bind_Some]. simpl. rewrite Hkeys. eapply Hhas; eauto.
Qed.

(** A key with its id opens what the same read key sealed. *)
Lemma keys_ok_same ot ot2 id k k2 :
  keys_ok ot -> keys_ok ot2 -> ot_id ot2 = ot_id ot -> readKeyOf (stateOf ot2) id = readKeyOf (stateOf ot) id ->
  ot_keys ot !! id = Some k -> ot_keys ot2 !! id = Some k2 -> k2 = k.
Proof.
  intros Hok Hok2 Hid Hst Hk Hk2. destruct (kk_derived _ Hok _ _ Hk) as (ks & rk & Hks & Hrk & Hd).
  destruct (kk_derived _ Hok2 _ _ Hk2) as (ks2 & rk2 & Hks2 & Hrk2 & Hd2).
  unfold readKeyOf in Hst. rewrite Hks, Hks2 in Hst. simpl in Hst. rewrite Hid in Hd2. congruence.
Qed.

Lemma keysOnly_state ot ot' : keysOnly ot ot' -> stateOf ot' = stateOf ot /\ ot_id ot' = ot_id ot.
Proof. by intros (ks & k & ->). Qed.

Lemma prepare_encrypted now content ot ot' payload rid :
  keys_ok ot -> HadReadPermissions (stateOf ot) (GetPublic (st_key (stateOf ot))) = true ->
  current_known (stateOf ot) rid -> scc_ShouldBeEncrypted content = true ->
  prepareBuilderContent now content ot = (ot', Ok payload) ->
  keys_ok ot' /\ bc_ReadKeyId payload = rid /\ bc_Unencrypted payload = false /\ bc_Content payload = scc_Data content /\
  bc_PrivKey payload = scc_Key content /\ exists k, ot_keys ot' !! rid = Some k /\ bc_ReadKey payload = Some k.
Proof.
  intros Hok Hread Hknown Henc Hp. unfold prepareBuilderContent in Hp. rewrite Henc in Hp.
  go_step Hp. apply reads_Ok in Hp0 as [-> ->]. go_step Hp. apply lifts_Ok in Hp0 as [-> _].
  go_step Hp. rename Hp0 into Hk. destruct a0 as [rk rid']. go_step Hk. rename Hk0 into Hkeys.
  destruct (readKeys_ok _ _ _ Hok Hkeys Hread) as (Hok' & Hcur & _). destruct (Hcur rid Hknown) as (k & Hk1 & Hk2).
  destruct Hknown as [Hid _]. go_step Hk. apply lifts_Ok in Hk0 as [-> Hid']. go_step Hk.
  apply calls_Ok in Hk0 as [-> Hrk]. rewrite Hk2 in Hrk. injection Hrk as <-. apply ret_Ok in Hk as [-> [= -> ->]].
  go_step Hp. apply calls_Ok in Hp0 as [-> _]. apply reads_Ok in Hp as [-> ->]. simpl.
  assert (a1 = rid) as -> by congruence. split_and!; try done. by exists k.
Qed.

(** What was built is read from its bytes with the data that the key opens. *)
Lemma Build_sealed nonce payload ch raw k :
  key_pair_ok (bc_PrivKey payload) ->
  String.length nonce = NonceBytes -> bc_Unencrypted payload = false -> bc_ReadKey payload = Some k ->
  Build_ nonce payload = Ok (ch, raw) ->
  rtc_Id raw = ch_Id ch /\ ci_ReadKeyId (ch_Info ch) = bc_ReadKeyId payload /\
  (forall c, cb_hasData c = true -> cb_isRoot c (ch_Id ch) = false -> cb_Unmarshall c raw true = Ok ch) /\
  exists data, ci_Data (ch_Info ch) = Some data /\ SymKey_Decrypt k data = Ok (bc_Content payload).
Proof.
  intros Hkey Hn Hu Hk Hb. split_and!.
  3: { intros c Hc Hroot. destruct (change_build_roundtrip nonce payload ch raw c Hkey Hn) as [Hread _]; try done.
       { by rewrite Hu. } by rewrite Hc in Hread. }
  all: unfold Build_ in Hb; rewrite Hu, Hk in Hb; simpl in Hb; go_inv;
    match goal with x : (bytes * string * bytes)%type |- _ => destruct x as [[? ?] ?] end; go_inv; try done.
  eexists. split; [done|]. by eapply decrypt_encrypt.
Qed.

(** The change that is stored, sealed with the current key, and its bytes. *)
Lemma readContent_sealed nonce now content v ot ot' old ch common sc rid :
  keys_ok ot -> key_pair_ok (scc_Key content) ->
  HadReadPermissions (stateOf ot) (GetPublic (st_key (stateOf ot))) = true ->
  current_known (stateOf ot) rid -> scc_ShouldBeEncrypted content = true -> String.length nonce = NonceBytes ->
  readContent nonce now content v ot = (ot', Ok (old, ch, common, sc)) ->
  keys_ok ot' /\ ci_ReadKeyId (ch_Info ch) = rid /\
  (forall c, cb_hasData c = true -> cb_isRoot c (sc_Id sc) = false ->
    exists ch0, cb_Unmarshall c (sc_Raw sc) true = Ok ch0 /\ ch_Info ch0 = ch_Info ch) /\
  exists k data, ot_keys ot' !! rid = Some k /\ ci_Data (ch_Info ch) = Some data /\
    SymKey_Decrypt k data = Ok (scc_Data content).
Proof.
  intros Hok Hpair Hread Hknown Henc Hn Hr. unfold readContent in Hr. go_step Hr. apply calls_Ok in Hr0 as [-> _].
  go_step Hr. rename Hr0 into Hprep, s into ot1. pose proof (frames_run _ _ _ _ _ (prepare_frame now content) Hprep) as Hk1.
  destruct (prepare_encrypted _ _ _ _ _ rid Hok Hread Hknown Henc Hprep) as (Hok1 & Hrid & Hu & Hcont & Hpk & k & Hkey & Hrk).
  apply keysOnly_state in Hk1 as [Hs1 Hid1]. go_step Hr. apply reads_Ok in Hr0 as [-> ->].
  go_step Hr. apply lifts_Ok in Hr0 as [-> Hb]. destruct a1 as [ch0 raw]. rewrite <- Hpk in Hpair.
  destruct (Build_sealed _ _ _ _ _ Hpair Hn Hu Hrk Hb) as (Hrawid & Hcr & Hun & data & Hdata & Hdec).
  go_step Hr. rename Hr0 into Hv, s into ot2. pose proof (frames_run _ _ _ _ _ (validateTree_frame _) Hv) as Hk2.
  apply keysOnly_state in Hk2 as [Hs2 Hid2]. unfold validateTree in Hv. go_step Hv. apply reads_Ok in Hv0 as [-> ->].
  go_step Hv. rename Hv0 into Hrun. apply calls_Ok in Hv as [-> _].
  destruct (readKeys_ok _ _ _ Hok1 Hrun) as (Hok2 & Hcur2 & _); [by rewrite Hs1|].
  destruct (Hcur2 rid) as (k2 & Hkey2 & _); [unfold current_known; by rewrite Hs1|].
  assert (k2 = k) as -> by (eapply (keys_ok_same ot1 s); try done; by rewrite Hs2).
  go_step Hr. rename Hr0 into Hpl. destruct a3 as [ch1 cm]. go_step Hr. apply lifts_Ok in Hr0 as [-> _]. apply ret_Ok in Hr as [-> [= -> -> -> ->]].
  unfold placeNew in Hpl. go_inv. split; [done|].
  assert (ch_Id ch1 = ch_Id ch0 /\ ch_Info ch1 = ch_Info ch0) as [Hid Hinfo]
    by (destruct (scc_IsSnapshot content); injection Hpl as <- <-; done).
  split_and!; [congruence| |].
  - intros c Hc Hroot. exists ch0. split; [|done]. simpl in Hroot. rewrite Hid in Hroot.
    replace (sc_Raw _) with raw; [by apply Hun|]. unfold sc_Raw, storageChangeOf. simpl.
    rewrite Hid, <- Hrawid. by destruct raw.
  - exists k, data. rewrite Hinfo. split_and!; [done|done|congruence].
Qed.

(** A replica of the tree: it has keys of its ACL only, its builder reads data and knows the
    root by the id of the tree. *)
Record replica ot ot2 : Prop := mkReplica {
  rp_id : ot_id ot2 = ot_id ot;
  rp_keys : keys_ok ot2;
  rp_data : cb_hasData (ot_changeBuilder ot2) = true;
  rp_root id : cb_isRoot (ot_changeBuilder ot2) id = true -> id = ot_id ot2;
}.

(** C22: encrypted content travels to whoever has the read key.  Let an account that had read
    permissions, with a key pair of its own, in whose ACL state the read key of the current
    key record [rid] is known, add encrypted content to a tree whose changes and root are
    stored.  The one change that is added, now in the tree and the head, is encrypted under
    [rid] and decrypts to the content in this tree.  And on every replica of the tree whose
    account had read permissions and whose ACL state has the same read key under [rid],
    however many others it has, the bytes that were added are read with their id and
    signature checked, and once the replica has taken over the keys of its ACL state (as it
    does whenever it validates changes) what it read decrypts to the content. *)
Theorem object_tree_content_decrypts nonce now content ot ot' ar rid r :
  tree_ok r (ot_tree ot) -> tst_wf (ot_storage ot) ->
  (forall x, is_Some (t_attached (ot_tree ot) !! x) -> x ∈ sc_Id <$> tst_log (ot_storage ot)) ->
  ot_id ot ∈ sc_Id <$> tst_log (ot_storage ot) ->
  keys_ok ot -> HadReadPermissions (stateOf ot) (GetPublic (st_key (stateOf ot))) = true ->
  current_known (stateOf ot) rid -> rid <> "" -> key_pair_ok (scc_Key content) ->
  String.length nonce = NonceBytes -> scc_ShouldBeEncrypted content = true ->
  AddContent nonce now content ot = (ot', Ok ar) ->
  exists sc c, ar_Added ar = [sc] /\ ar_Heads ar = [sc_Id sc] /\ t_attached (ot_tree ot') !! sc_Id sc = Some c /\
    ci_ReadKeyId (ch_Info c) = rid /\ decryptChange ot' c = Ok (Some (scc_Data content)) /\
    forall (ot2 ot3 : objectTree TA T) u, replica ot ot2 ->
      HadReadPermissions (stateOf ot2) (GetPublic (st_key (stateOf ot2))) = true ->
      readKeyOf (stateOf ot2) rid = readKeyOf (stateOf ot) rid ->
      readKeysFromAclState (stateOf ot2) ot2 = (ot3, Ok u) ->
      exists c2, cb_Unmarshall (ot_changeBuilder ot2) (sc_Raw sc) true = Ok c2 /\
        decryptChange ot3 c2 = Ok (Some (scc_Data content)).
Proof.
  intros Hok Hwf Hkept Hroot Hkeys Hread Hknown Hrid Hpair Hn Henc Hadd. unfold AddContent, AddContentWithValidator in Hadd.
  apply st_bind_cases in Hadd as [(e & _ & ?)|(ot1 & [[[old ch] common] sc] & Hr & Hst)]; [done|].
  destruct (readContent_Ok r _ _ _ _ _ _ _ _ _ _ Hok Hr) as (_ & Hp & Hs & Hnx & Ho & -> & raw & ->).
  destruct (readContent_sealed _ _ _ _ _ _ _ _ _ _ _ Hkeys Hpair Hread Hknown Henc Hn Hr)
    as (Hkeys1 & Hcr & Hun & k & data & Hk & Hdata & Hdec).
  pose proof (frames_run _ _ _ _ _ (readContent_frame _ _ _ _) Hr) as Hk1.
  pose proof (keysOnly_state _ _ Hk1) as [Hstate Hid]. apply keysOnly_same in Hk1 as (Ht & Hsto & _).
  rewrite <- Ht, <- Hsto in *.
  eapply (storeContent_run r _ _ _ _ _ _ (Ok ar)) in Hst; [|done..].
  destruct Hst as (seq & r' & Ha & Hh & _ & _ & _ & _ & (c' & Hc' & Hi) & Hks & Hfresh).
  eexists _, c'. rewrite Hi. split_and!; [exact Ha|done|done|done| |].
  - unfold decryptChange. rewrite Hi, Hcr, decide_False, Hks, Hk, Hdata by done. simpl. by rewrite Hdec.
  - intros ot2 ot3 u [Hid2 Hok2 Hd2 Hr2] Hread2 Hsame Hrun.
    destruct (Hun (ot_changeBuilder ot2) Hd2) as (c2 & Hc2 & Hi2).
    { apply not_true_is_false. intros Hx%Hr2. apply Hfresh. simpl in Hx. rewrite Hx, Hid2. exact Hroot. }
    exists c2. split; [exact Hc2|]. destruct (readKeys_ok _ _ _ Hok2 Hrun Hread2) as (Hok3 & _ & Hhas).
    pose proof (frames_run _ _ _ _ _ (readKeys_frame _) Hrun) as Hk3. apply keysOnly_state in Hk3 as [Hs3 Hid3].
    assert (is_Some (readKeyOf (stateOf ot2) rid)) as Hsome.
    { rewrite Hsame. destruct Hknown as (_ & ks & Hks' & Hrk). unfold readKeyOf. by rewrite Hks'. }
    destruct (Hhas rid Hsome) as [k3 Hk3]. unfold decryptChange. rewrite Hi2, Hcr, decide_False, Hk3, Hdata by done. simpl.
    assert (k3 = k) as -> by (eapply (keys_ok_same ot1 ot3); try done; congruence). by rewrite Hdec.
Qed.
End keys.
