(* ===== verification/ObjectTreeExample.v ===== *)
(** A concrete object tree: alice's space of the ACL examples, a tree she creates in it,
    changes of hers and of bob, and the theorems on object trees applied to them. *)

From Stdlib Require Import ZArith Lia String.
From stdpp Require Import base option list gmap strings sorting pretty.
From S2P Require Import Prelude Crypto AclModels AclState AclValidator AclApply AclSpec AclRefine.
From S2P Require Import AclExample AclStorage AclKeep AclList AclListInv AclListMain AclListSync.
From S2P Require Import TreeModels Tree TreeOrder TreeAdd TreeStable TreeHeads TreeCalls.
From S2P Require Import TreeMain TreeExample ChangeBuilder ToyCodec ChangeMain TreeStorage.
From S2P Require Import TreeSnapshots TreeLoad TreeBuild ObjectTree.
From S2P Require Import ObjectTreeContent ObjectTreeAgree ObjectTreeRead.

Local Open Scope Z_scope.
Local Open Scope string_scope.

(** A sum of 64 bytes. *)
Fixpoint padTo (n : nat) (s : string) : string :=
  match n, s with
  | O, _ => ""
  | S n, EmptyString => String (Ascii.ascii_of_nat 48) (padTo n "")
  | S n, String c s => String c (padTo n s)
  end.
#[global] Instance toyHmac : HmacPrims := {| hmac_sha512 := fun key msg => padTo 64 (msg ++ key) |}.

(** bob is a writer at the head of the list. *)
Definition exAcl : aclList inMemoryStorage := exListOf ["r1"; "r2"; "r3"].
(** The same records read with bob's key. *)
Definition bobAcl : aclList inMemoryStorage :=
  match BuildAclListWithIdentity 10 (privOf bob) (al_storage exAcl) ValidateFull with Ok a => a | Err _ => exNoList end.

(** Raw changes are named by a short checksum. *)
Fixpoint checksum (acc : Z) (s : string) : Z :=
  match s with
  | EmptyString => acc
  | String c s => checksum ((31 * acc + Z.of_nat (Ascii.nat_of_ascii c)) mod 65521) s
  end.
#[local] Instance cidListCodec : ListCodec := {|
  RawRecord_UnmarshalVT := RawRecord_UnmarshalVT;
  Record_UnmarshalVT := Record_UnmarshalVT;
  sha256Cid := fun b => Ok ("cid" ++ pretty (checksum 7 b));
|}.

Definition exTreeRoot : RawTreeChangeWithId :=
  match CreateObjectTreeRoot (mkInitialContent "" (privOf alice) "space" "seed" "page" "payload" 5) exAcl with
  | Ok root => root
  | Err _ => mkRawTreeChangeWithId None ""
  end.
Definition exRootRow : StorageChange :=
  mkStorageChange (rtc_RawChange exTreeRoot) [] (rtc_Id exTreeRoot) 1 "" "b"
    (Z.of_nat (String.length (rtc_Id exTreeRoot))) (rtc_Id exTreeRoot) 1.
Definition exTreeStorage : listStore :=
  mkListStore (rtc_Id exTreeRoot) [rtc_Id exTreeRoot] (rtc_Id exTreeRoot) [exRootRow].

Abbreviation exTreeT := (objectTree inMemoryStorage listStore).
Definition exNoTree : exTreeT :=
  newObjectTree (NewChangeBuilder None) (newTreeValidator false false) exTreeStorage exAcl.
Definition exObjTree : exTreeT :=
  match BuildObjectTree 10 exTreeStorage exAcl with Ok ot => ot | Err _ => exNoTree end.

(** A change on top of the root by an account. *)
Definition exChange (author text : string) : RawTreeChangeWithId :=
  match Build_ "123456789012" (mkBuilderContent [rtc_Id exTreeRoot] "r3" (rtc_Id exTreeRoot) "" false true
    (privOf author) None text 7 "text") with
  | Ok (_, raw) => raw
  | Err _ => mkRawTreeChangeWithId None ""
  end.
Definition exPayload (raws : list RawTreeChangeWithId) : RawChangesPayload :=
  mkRawChangesPayload (Some (rtc_Id <$> raws)) raws [rtc_Id exTreeRoot].


(** The tree has its root alone. *)
Definition exRootChange : Change :=
  default (mkChange "" [] "" false zeroInfo "" 0 [] []) (t_attached (ot_tree exObjTree) !! rtc_Id exTreeRoot).

Lemma exObjTree_attached x c :
  t_attached (ot_tree exObjTree) !! x = Some c -> x = rtc_Id exTreeRoot /\ c = exRootChange.
Proof.
  assert (t_attached (ot_tree exObjTree) = {[ rtc_Id exTreeRoot := exRootChange ]}) as -> by (vm_compute; reflexivity).
  intros [<- <-]%lookup_singleton_Some. done.
Qed.

Lemma exObjTree_ok : tree_ok (rtc_Id exTreeRoot) (ot_tree exObjTree).
Proof.
  assert (ch_Id exRootChange = rtc_Id exTreeRoot) as <- by (vm_compute; reflexivity).
  apply reachable_ok, (reach_new exRootChange Rebuild [rtc_Id exTreeRoot]).
  - vm_compute. reflexivity.
  - right. vm_compute. reflexivity.
  - vm_compute. reflexivity.
Qed.

(** bob's change comes with one of dave, who is no member: none of them is taken. *)
Definition exRefused : RawChangesPayload := exPayload [exChange bob "hi"; exChange dave "me too"].

Lemma exRefused_ok : payload_ok exObjTree exRefused.
Proof.
  split; [apply (bool_decide_unpack _); vm_compute; exact I|].
  intros r ch Hr (ch0 & Hch & ->). revert Hch.
  apply elem_of_cons in Hr as [->|Hr]; [|apply list_elem_of_singleton in Hr as ->].
  all: vm_compute; intros [= <-]; discriminate.
Qed.

Lemma exRefused_inMemory : inMemory exObjTree exRefused.
Proof.
  intros changes b cs sns Hread Hf. vm_compute in Hread. injection Hread as <-.
  vm_compute in Hf. injection Hf as <- <- <-. vm_compute. discriminate.
Qed.

Lemma object_tree_rollback_witness :
  let ot' := (addChangesToTree 10 exRefused exObjTree).1 in
  (addChangesToTree 10 exRefused exObjTree).2 = Err ErrHasInvalidChanges /\
  sameTree (ot_tree exObjTree) (ot_tree ot') /\ ot_storage ot' = ot_storage exObjTree.
Proof.
  split; [vm_compute; reflexivity|].
  apply (object_tree_rollback (rtc_Id exTreeRoot) 10 exRefused exObjTree _ "the change is invalid").
  - exact exObjTree_ok.
  - exact exRefused_ok.
  - exact exRefused_inMemory.
  - vm_compute. reflexivity.
Defined.

(** Changes of both members are taken. *)
Definition exDelivered : RawChangesPayload := exPayload [exChange bob "hi"; exChange alice "hello"].
Definition exAfter : exTreeT := (AddRawChanges 10 exDelivered exObjTree).1.
Definition exResult : AddResult :=
  match (AddRawChanges 10 exDelivered exObjTree).2 with Ok ar => ar | Err _ => mkAddResult [] [] [] Nothing end.

Lemma object_tree_authorised_witness :
  length (iterated (ot_tree exAfter)) = 3%nat /\
  forall c, c ∈ iterated (ot_tree exAfter) -> authorised (ot_aclList exAfter) c.
Proof.
  split; [vm_compute; reflexivity|].
  apply (object_tree_authorised 10 exDelivered None exObjTree exAfter exResult).
  - exists false, false, None. vm_compute. reflexivity.
  - vm_compute. reflexivity.
  - intros x c [_ ->]%exObjTree_attached. right. exists (pubOf alice), AclPermissionsOwner.
    split_and!; vm_compute; reflexivity.
  - vm_compute. reflexivity.
Defined.

Lemma exTreeStorage_log : tst_log (ot_storage exObjTree) = [exRootRow].
Proof. vm_compute. reflexivity. Qed.

Lemma exTreeStorage_wf : tst_wf (ot_storage exObjTree).
Proof.
  change (tlog_ok (tst_log (ot_storage exObjTree))). rewrite exTreeStorage_log.
  split; [apply NoDup_singleton|repeat constructor].
Qed.

Lemma object_tree_agrees_witness :
  length (ar_Added exResult) = 2%nat /\ agrees exAfter /\ ar_Heads exResult = t_headIds (ot_tree exAfter).
Proof.
  split; [vm_compute; reflexivity|].
  destruct (object_tree_agrees 10 exDelivered None exObjTree exAfter exResult) as (Hag & _ & Hh & _).
  - exact exTreeStorage_wf.
  - apply (bool_decide_unpack _); vm_compute; exact I.
  - vm_compute. reflexivity.
  - intros x c [-> ->]%exObjTree_attached. vm_compute. reflexivity.
  - intros x c [-> ->]%exObjTree_attached. exists exRootRow. split_and!; [|vm_compute; reflexivity..].
    rewrite exTreeStorage_log. apply list_elem_of_singleton. reflexivity.
  - vm_compute. reflexivity.
  - split; [exact Hag|exact Hh].
Defined.

(** alice adds encrypted content. *)
Definition exText : SignableChangeContent := mkSignableChangeContent "hello" (privOf alice) false true 7 "text".
Definition exWritten : exTreeT := (AddContent "123456789012" 3 exText exObjTree).1.

Definition exWrittenResult : AddResult :=
  match (AddContent "123456789012" 3 exText exObjTree).2 with Ok ar => ar | Err _ => mkAddResult [] [] [] Nothing end.

Lemma exWritten_run : AddContent "123456789012" 3 exText exObjTree = (exWritten, Ok exWrittenResult).
Proof. vm_compute. reflexivity. Qed.
Lemma exWritten_run_validator :
  AddContentWithValidator "123456789012" 3 exText None exObjTree = (exWritten, Ok exWrittenResult).
Proof. vm_compute. reflexivity. Qed.

Lemma exObjTree_stored x :
  is_Some (t_attached (ot_tree exObjTree) !! x) -> x ∈ sc_Id <$> tst_log (ot_storage exObjTree).
Proof. intros [c [-> ->]%exObjTree_attached]. rewrite exTreeStorage_log. by apply list_elem_of_singleton. Qed.

Lemma object_tree_add_content_witness :
  tree_ok (rtc_Id exTreeRoot) (ot_tree exWritten) /\ t_headIds (ot_tree exWritten) = ar_Heads exWrittenResult /\
  iterOrder (t_attached (ot_tree exWritten)) (Some (rtc_Id exTreeRoot)) = rtc_Id exTreeRoot :: ar_Heads exWrittenResult.
Proof.
  pose proof (object_tree_add_content (rtc_Id exTreeRoot) "123456789012" 3 exText None exObjTree exWritten
    (Ok exWrittenResult) exObjTree_ok exTreeStorage_wf exObjTree_stored exWritten_run_validator) as Hx.
  cbv beta iota in Hx. destruct Hx as (sc & seq & r' & _ & _ & Hh & [Hok Hhead _ [-> Hit]] & _).
  split; [exact Hok|]. split; [congruence|]. rewrite Hit, Hh.
  assert (iterOrder (t_attached (ot_tree exObjTree)) (Some (rtc_Id exTreeRoot)) = [rtc_Id exTreeRoot]) as ->
    by (vm_compute; reflexivity). reflexivity.
Defined.

(** The read key of the space is the one of its root record. *)
Lemma root_keys_ok (ot : exTreeT) k :
  ot_keys ot = {[ "root" := k ]} -> readKeyOf (al_aclState (ot_aclList ot)) "root" = Some key1 ->
  treeKeyOf (ot_id ot) key1 = Ok k -> ot_currentReadKey ot = Some k -> keys_ok ot.
Proof.
  intros Hk Hrk Hd Hc. split; rewrite Hk; intros id k'.
  - intros [<- <-]%lookup_singleton_Some. apply bind_Some in Hrk as (ks & Hks & Hrk). by exists ks, key1.
  - by intros _ _ [<- <-]%lookup_singleton_Some.
Qed.

Definition exTreeKey : SymKey := default key1 (ot_keys exObjTree !! "root").
Lemma exObjTree_keys : keys_ok exObjTree.
Proof. apply (root_keys_ok _ exTreeKey); vm_compute; reflexivity. Qed.

(** bob's replica. *)
Definition bobTree : exTreeT :=
  match BuildObjectTree 10 exTreeStorage bobAcl with Ok ot => ot | Err _ => exNoTree end.
Lemma bobTree_replica : replica exObjTree bobTree.
Proof.
  split; [vm_compute; reflexivity| |vm_compute; reflexivity|].
  - apply (root_keys_ok _ exTreeKey); vm_compute; reflexivity.
  - intros id Hid. unfold cb_isRoot in Hid.
    assert (cb_rootChange (ot_changeBuilder bobTree) = Some exTreeRoot) as Hb by (vm_compute; reflexivity).
    rewrite Hb in Hid. apply bool_decide_eq_true in Hid as <-. vm_compute. reflexivity.
Qed.

Lemma object_tree_content_decrypts_witness :
  st_key (al_aclState (ot_aclList bobTree)) = privOf bob /\
  exists sc c2, ar_Added exWrittenResult = [sc] /\
    cb_Unmarshall (ot_changeBuilder bobTree) (sc_Raw sc) true = Ok c2 /\
    decryptChange bobTree c2 = Ok (Some "hello").
Proof.
  split; [vm_compute; reflexivity|].
  destruct (object_tree_content_decrypts "123456789012" 3 exText exObjTree exWritten exWrittenResult "root"
    (rtc_Id exTreeRoot) exObjTree_ok exTreeStorage_wf exObjTree_stored) as (sc & c & Ha & _ & _ & _ & _ & Hall).
  - rewrite exTreeStorage_log. apply list_elem_of_singleton. vm_compute. reflexivity.
  - exact exObjTree_keys.
  - vm_compute. reflexivity.
  - split; [vm_compute; reflexivity|]. eexists. split; [vm_compute; reflexivity|]. eexists. vm_compute. reflexivity.
  - discriminate.
  - repeat split; vm_compute; reflexivity.
  - vm_compute. reflexivity.
  - reflexivity.
  - exact exWritten_run.
  - destruct (Hall bobTree bobTree tt bobTree_replica) as (c2 & Hc2 & Hd); [vm_compute; reflexivity..|].
    exists sc, c2. split; [exact Ha|]. split; [exact Hc2|exact Hd].
Defined.
