(* ===== verification/KeyValueStore.v ===== *)
(** The key-value store of a space (src/commonspace/object/keyvalue/keyvaluestorage/storage.go,
    syncstorage/syncclient.go): local writes are sealed, signed with the keys of the peer and
    of the account and stamped with the head of the ACL; rows of other peers are verified and
    filtered before the inner store (KeyValue.v) takes them.  What is sent to the network and
    to the indexer is recorded as events, whose errors the code only logs.  Locks have no
    counterpart. *)

From Stdlib Require Import ZArith Lia String Ascii.
From stdpp Require Import base option list gmap strings.
From S2P Require Import Prelude Crypto AclModels AclState AclValidator AclApply AclStorage AclKeep.
From S2P Require Import AclList Ldiff HeadDiff KeyValue ChangeBuilder TreeBuild.

Local Open Scope Z_scope.

Definition ErrCoveredByWatermark := GoError "key is covered by a newer deletion watermark".
Definition ErrEmptyDeletePrefix := GoError "empty delete prefix".

(** [fmt.Sprintf(crypto.AnysyncKeyValuePath, id)] *)
Definition AnysyncKeyValuePath (id : string) : string := ("m/SLIP-0021/anysync/keyvalue/" ++ id)%string.

(** [slice.DiscardFromSlice] *)
Definition DiscardFromSlice {A} (elements : list A) (isDiscarded : A -> bool) : list A :=
  List.filter (fun x => negb (isDiscarded x)) elements.

Definition with_KeyPeerId id (kv : KeyValue) := mkKeyValue id (kv_ReadKeyId kv) (kv_Key kv) (kv_Value kv)
  (kv_TimestampMicro kv) (kv_Identity kv) (kv_PeerId kv) (kv_AclId kv) (kv_DeletePrefix kv) (kv_IdentityPubKey kv).
Definition with_ReadKeyId id (kv : KeyValue) := mkKeyValue (kv_KeyPeerId kv) id (kv_Key kv) (kv_Value kv)
  (kv_TimestampMicro kv) (kv_Identity kv) (kv_PeerId kv) (kv_AclId kv) (kv_DeletePrefix kv) (kv_IdentityPubKey kv).

(** Calls of the sync client and of the indexer. *)
Inductive Event :=
| Broadcast (objectId : string) (keyValues : list KeyValue)
| Index (keyValues : list KeyValue)
| RemoveIndex (keyPeerIds : list string).

Section storage.
Context `{CryptoPrims} `{AclCodec} `{SharedKeyPrims} `{MapRange} `{ProtoWire} `{ListCodec}
  {TA : Type} `{AclStorage TA} `{SealPrims} `{KvCodec}
  {C : Type} `{KvDb C} {D : Type} `{HeadDiff D}.

Record storage := mkStorage {
  sg_inner : kvStorage C D;
  sg_PeerKey : PrivKey;
  sg_SignKey : PrivKey;
  sg_aclList : aclList TA;
  (** the indexer is a [DeletionAwareIndexer] *)
  sg_deletionAware : bool;
  sg_storageId : string;
  sg_readKeys : gmap string SymKey;
  sg_currentReadKey : option SymKey;
  sg_events : list Event;
}.
Implicit Types (s : storage).

Abbreviation KM := (ST storage).

Definition set_inner v s := mkStorage v (sg_PeerKey s) (sg_SignKey s) (sg_aclList s) (sg_deletionAware s)
  (sg_storageId s) (sg_readKeys s) (sg_currentReadKey s) (sg_events s).
Definition set_readKeys v s := mkStorage (sg_inner s) (sg_PeerKey s) (sg_SignKey s) (sg_aclList s) (sg_deletionAware s)
  (sg_storageId s) v (sg_currentReadKey s) (sg_events s).
Definition set_curReadKey v s := mkStorage (sg_inner s) (sg_PeerKey s) (sg_SignKey s) (sg_aclList s)
  (sg_deletionAware s) (sg_storageId s) (sg_readKeys s) v (sg_events s).
Definition emit (e : Event) : KM unit := assigns (fun s =>
  mkStorage (sg_inner s) (sg_PeerKey s) (sg_SignKey s) (sg_aclList s) (sg_deletionAware s)
    (sg_storageId s) (sg_readKeys s) (sg_currentReadKey s) (sg_events s ++ [e])).

Definition onInner {A} (m : ST (kvStorage C D) A) : KM A := fun s =>
  let '(i, r) := m (sg_inner s) in (set_inner i s, r).

Abbreviation aclStateOf s := (al_aclState (sg_aclList s)).

(** [New] *)
Definition NewStorage (storageId : string) (c : C) (peerKey signKey : PrivKey) (acl : aclList TA)
    (deletionAware : bool) : res storage :=
  inner ← loadStorage storageId c;
  Ok (mkStorage inner peerKey signKey acl deletionAware storageId ∅ None []).

(** ** Keys *)

Definition kvDeriveKey (key : SymKey) (id : string) : res SymKey :=
  raw ← SymKey_Raw key;
  DeriveSymmetricKey raw (AnysyncKeyValuePath id).

(** One round of the loop over [state.Keys()]. *)
Definition deriveReadKey (x : string * AclKeys) : KM unit :=
  let '(key, value) := x in
  exists_ ← reads (fun s => bool_decide (is_Some (sg_readKeys s !! key)));
  if (exists_ : bool) then mret tt
  else match ReadKey value with
       | None => mret tt
       | Some readKey =>
           id ← reads sg_storageId;
           treeKey ← lifts (kvDeriveKey readKey id);
           assigns (fun s => set_readKeys (<[key := treeKey]> (sg_readKeys s)) s)
       end.

Definition kvReadKeysFromAclState (state : AclState) : KM unit :=
  same ← reads (fun s => bool_decide (size (sg_readKeys s) = size (st_keys state)));
  if (same : bool) then mret tt
  else if negb (HadReadPermissions state (GetPublic (st_key state))) then mret tt
  else
    st_each deriveReadKey (map_range (st_keys state)) ;;
    curKeyId ← lifts (CurrentReadKeyId state);
    derived ← reads (fun s => sg_readKeys s !! curKeyId);
    match derived with
    | Some derived => assigns (set_curReadKey (Some derived))
    | None =>
        curKey ← lifts (CurrentReadKey state);
        match curKey with
        | None => mret tt
        | Some curKey =>
            id ← reads sg_storageId;
            k ← lifts (kvDeriveKey curKey id);
            assigns (set_curReadKey (Some k))
        end
    end.

Definition Prepare : KM unit := fun s => kvReadKeysFromAclState (aclStateOf s) s.

Definition kvDecrypt s (kv : KeyValue) : res bytes :=
  fail_if (bool_decide (kv_ReadKeyId kv = "")) (GoError "no read key id") ;;
  key ← opt_or (sg_readKeys s !! kv_ReadKeyId kv) (GoError ("no read key for " ++ kv_ReadKeyId kv));
  msg ← StoreKeyInner_UnmarshalVT (va_Value (kv_Value kv));
  SymKey_Decrypt key (ski_Value msg).

(** ** Local writes *)

Definition prepareWrite (allowed : AclPermissions -> bool) : KM (string * string) :=
  head ← calls (fun s => Head (sg_aclList s));
  state ← reads (fun s => aclStateOf s);
  lifts (fail_if (negb (allowed (Permissions state (st_pubKey state)))) ErrInsufficientPermissions) ;;
  readKeyId ← lifts (CurrentReadKeyId state);
  kvReadKeysFromAclState state ;;
  mret (rec_Id head, readKeyId).

Definition removeIndexes (droppedIds : list string) : KM unit :=
  aware ← reads sg_deletionAware;
  if bool_decide (droppedIds = []) || negb (aware : bool) then mret tt else emit (RemoveIndex droppedIds).

(** The row of a local write at the time [now]. *)
Definition ownRow (peerIdKey identityKey : PrivKey) (now : Z) (key : string) (value : bytes) (deletePrefix headId readKeyId : string)
    : res KeyValue :=
  protoPeerKey ← PubKey_Marshall (GetPublic peerIdKey);
  protoIdentityKey ← PubKey_Marshall (GetPublic identityKey);
  innerBytes ← StoreKeyInner_MarshalVT
    (mkStoreKeyInner protoPeerKey protoIdentityKey value now headId key deletePrefix);
  peerSig ← PrivKey_Sign peerIdKey innerBytes;
  identitySig ← PrivKey_Sign identityKey innerBytes;
  Ok (mkKeyValue (KeyPeerId key (PubKey_PeerId (GetPublic peerIdKey))) readKeyId key
        (mkValue innerBytes peerSig identitySig) now (PubKey_Account (GetPublic identityKey))
        (PubKey_PeerId (GetPublic peerIdKey)) headId deletePrefix None).

Definition signAndStore (now : Z) (key : string) (value : bytes) (deletePrefix headId readKeyId : string) : KM unit :=
  calls (fun s => fail_if (now <? WatermarkTs (sg_inner s) key) ErrCoveredByWatermark) ;;
  keyValue ← calls (fun s => ownRow (sg_PeerKey s) (sg_SignKey s) now key value deletePrefix headId readKeyId);
  res ← onInner (Set_rows [keyValue]);
  removeIndexes (sr_DroppedIds res) ;;
  if decide (sr_Applied res = []) then mret tt
  else
    (if decide (deletePrefix = "") then emit (Index [keyValue]) else mret tt) ;;
    id ← reads sg_storageId;
    emit (Broadcast id [keyValue]).

(** [Set]; the nonce is the one the encryption draws. *)
Definition kvSet (now : Z) (nonce : bytes) (key : string) (value : bytes) : KM unit :=
  '(headId, readKeyId) ← prepareWrite CanWrite;
  cur ← calls (fun s => opt_or (sg_currentReadKey s) (GoPanic "nil pointer dereference"));
  value ← lifts (SymKey_EncryptWith nonce cur value);
  signAndStore now key value "" headId readKeyId.

Definition DeletePrefix (now : Z) (prefix : string) : KM unit :=
  lifts (fail_if (bool_decide (prefix = "")) ErrEmptyDeletePrefix) ;;
  '(headId, readKeyId) ← prepareWrite IsOwner;
  signAndStore now prefix "" prefix headId readKeyId.

(** ** Rows of other peers *)

(** The rows that decode and verify. *)
Fixpoint decodeRows (keyValue : list StoreKeyValue) : list KeyValue :=
  match keyValue with
  | [] => []
  | kv :: keyValue =>
      match KeyValueFromProto kv true with
      | Ok innerKv => innerKv :: decodeRows keyValue
      | Err _ => decodeRows keyValue
      end
  end.

(** One round of the loop over the decoded rows: a row that is not wanted loses its id. *)
Definition admitRow s (kv : KeyValue) : res KeyValue :=
  let state := aclStateOf s in
  isOwner ← (if decide (kv_DeletePrefix kv <> "") then
               identity ← opt_or (kv_IdentityPubKey kv) (GoPanic "nil pointer dereference");
               Ok (IsOwner (Permissions state identity))
             else Ok true);
  if negb isOwner then Ok (with_KeyPeerId "" kv)
  else
    let stale := match hd_Element (kvs_diff (sg_inner s)) (kv_KeyPeerId kv) with
                 | Ok el => String.leb (headOf (kv_TimestampMicro kv)) (el_Head el)
                 | Err _ => false
                 end in
    if stale then Ok (with_KeyPeerId "" kv)
    else match ReadKeyForAclId (al_indexes (sg_aclList s)) state (kv_AclId kv) with
         | Ok readKeyId => Ok (with_ReadKeyId readKeyId kv)
         | Err _ => Ok (with_KeyPeerId "" (with_ReadKeyId "" kv))
         end.

Definition SetRaw (keyValue : list StoreKeyValue) : KM unit :=
  if decide (keyValue = []) then mret tt
  else
    let keyValues := decodeRows keyValue in
    state ← reads (fun s => aclStateOf s);
    kvReadKeysFromAclState state ;;
    keyValues ← calls (fun s => res_map (admitRow s) keyValues);
    let keyValues := DiscardFromSlice keyValues (fun value => bool_decide (kv_KeyPeerId value = "")) in
    if decide (keyValues = []) then mret tt
    else
      res ← onInner (Set_rows keyValues);
      removeIndexes (sr_DroppedIds res) ;;
      if decide (sr_Applied res = []) then mret tt
      else
        id ← reads sg_storageId;
        emit (Broadcast id (sr_Applied res)) ;;
        let indexable := DiscardFromSlice (sr_Applied res) (fun value => bool_decide (kv_DeletePrefix value <> "")) in
        if decide (indexable = []) then mret tt else emit (Index indexable).

(** ** Reading *)

(** The rows [GetAll] hands to its callback. *)
Definition GetAll s (key : string) : res (list KeyValue) :=
  rows ← IteratePrefix (sg_inner s) key;
  Ok (List.filter (fun kv => bool_decide (kv_DeletePrefix kv = "")) rows).

(** [Iterate] with a callback on a value of the caller: the callback gets a key and the run
    of its rows, and says whether to go on. *)
Section iterate.
Context {V : Type} (f : string -> list KeyValue -> V -> V * res bool).

Fixpoint iterateRows (rows : list KeyValue) (curKey : string) (values : list KeyValue) (v : V) : V * res unit :=
  match rows with
  | [] => match values with
          | [] => (v, Ok tt)
          | _ => let '(v, r) := f curKey values v in
                 (v, match r with Ok _ => Ok tt | Err e => Err e end)
          end
  | kv :: rows =>
      if decide (kv_DeletePrefix kv <> "") then iterateRows rows curKey values v
      else if decide (kv_Key kv = curKey) then iterateRows rows curKey (values ++ [kv]) v
      else if decide (curKey = "") then iterateRows rows (kv_Key kv) [kv] v
      else match f curKey values v with
           | (v, Err e) => (v, Err e)
           | (v, Ok false) => (v, Ok tt)
           | (v, Ok true) => iterateRows rows (kv_Key kv) [kv] v
           end
  end.

Definition kvIterate s (v : V) : V * res unit :=
  match IterateValues (sg_inner s) with
  | Err e => (v, Err e)
  | Ok rows => iterateRows rows "" [] v
  end.
End iterate.
End storage.

Arguments storage TA C D : clear implicits.
