(* ===== verification/KeyValueRaw.v ===== *)
(** Rows of other peers: what [SetRaw] lets through is what decodes, verifies and is allowed
    by the access-control list, and skipping the rows the diff already has newer does not
    change what is stored. *)

From Stdlib Require Import ZArith Lia String Ascii Permutation.
From stdpp Require Import base option list gmap strings sorting.
From S2P Require Import Prelude Crypto AclModels AclState AclValidator AclApply AclStorage AclKeep.
From S2P Require Import AclList Ldiff HeadDiff KeyValue KeyValueInv KeyValueMain KeyValueDiff.
From S2P Require Import ChangeBuilder TreeBuild KeyValueStore.

Local Open Scope Z_scope.

(** ** Heads are ordered like the times they stand for *)

Lemma bigEndian_compare n a b :
  0 <= a < 256 ^ Z.of_nat n -> 0 <= b < 256 ^ Z.of_nat n ->
  String.compare (bigEndian n a) (bigEndian n b) = (a ?= b).
Proof.
  revert a b. induction n as [|n IH]; intros a b Ha Hb; simpl bigEndian.
  - simpl in *. symmetry. apply Z.compare_eq_iff. lia.
  - rewrite Nat2Z.inj_succ, Z.pow_succ_r in Ha, Hb by lia. set (m := 256 ^ Z.of_nat n) in *.
    assert (0 < m) as Hm by (apply Z.pow_pos_nonneg; lia).
    assert (forall x, 0 <= x < 256 * m -> 0 <= x / m < 256) as Hdiv.
    { intros x Hx. split; [apply Z.div_pos; lia|apply Z.div_lt_upper_bound; lia]. }
    simpl. unfold Ascii.compare. rewrite !N_ascii_embedding by (pose proof (Hdiv a Ha); pose proof (Hdiv b Hb); lia).
    rewrite Z2N.inj_compare by (pose proof (Hdiv a Ha); pose proof (Hdiv b Hb); lia).
    pose proof (Z.div_mod a m) as Ea. pose proof (Z.div_mod b m) as Eb.
    pose proof (Z.mod_pos_bound a m Hm). pose proof (Z.mod_pos_bound b m Hm).
    destruct (Z.compare_spec (a / m) (b / m)) as [Heq|Hlt|Hgt].
    + rewrite IH by lia. destruct (Z.compare_spec (a mod m) (b mod m)); symmetry; rewrite ?Z.compare_eq_iff, ?Z.compare_lt_iff, ?Z.compare_gt_iff; nia.
    + symmetry. apply Z.compare_lt_iff. nia.
    + symmetry. apply Z.compare_gt_iff. nia.
Qed.

(** Comparing heads compares times. *)
Lemma headOf_compare a b : 0 <= a < 2 ^ 64 -> 0 <= b < 2 ^ 64 -> String.compare (headOf a) (headOf b) = (a ?= b).
Proof. intros Ha Hb. unfold headOf, u64. rewrite !Z.mod_small by done. by apply bigEndian_compare. Qed.

Lemma headOf_le a b : 0 <= a < 2 ^ 64 -> 0 <= b < 2 ^ 64 -> String.leb (headOf a) (headOf b) = true <-> a <= b.
Proof. intros Ha Hb. rewrite leb_compare, headOf_compare by done. apply Z.compare_le_iff. Qed.

Lemma headOf_lt a b : 0 <= a < 2 ^ 64 -> 0 <= b < 2 ^ 64 -> String.ltb (headOf a) (headOf b) = true <-> a < b.
Proof.
  intros Ha Hb. unfold String.ltb. rewrite headOf_compare by done. rewrite <- Z.compare_lt_iff.
  by destruct (a ?= b).
Qed.

(** ** Rows that change nothing *)

Section absorb.
Context {C : Type} `{KvDbLaws C} {D : Type} `{MapRange}.
Implicit Types (s : kvStorage C D) (v u : KeyValue) (us vs : list KeyValue).

Lemma store_ok_same us vs s : (forall v, v ∈ us <-> v ∈ vs) -> store_ok us s -> store_ok vs s.
Proof.
  intros Hsame [Hwf Hd Hc]. assert (forall v, kept us v <-> kept vs v) as Hk.
  { intros v. unfold kept, newest, coveredIn. by setoid_rewrite Hsame. }
  split; [done| |].
  - intros id d. rewrite (Hd id d). by setoid_rewrite Hk.
  - intros key t Ht. rewrite (Hc key t Ht). unfold coveredIn. by setoid_rewrite Hsame.
Qed.

(** The rows [us] have a row of the same id that is not older, or cover the row. *)
Definition outdone us v : Prop :=
  (exists u, u ∈ us /\ kv_KeyPeerId u = kv_KeyPeerId v /\ kv_TimestampMicro v <= kv_TimestampMicro u) \/
  coveredIn us (kv_Key v) (kv_TimestampMicro v).

Lemma outdone_covers us v key t :
  rows_ok (us ++ [v]) -> outdone us v -> covers v key t -> coveredIn us key t.
Proof.
  intros Hok Hout Hc. assert (v ∈ us ++ [v]) as Hvin by (apply elem_of_app; right; by left).
  assert (forall u, u ∈ us -> u ∈ us ++ [v]) as Hsub by (intros u Hu; apply elem_of_app; by left).
  destruct Hc as (Hdp & Hp & Hlt). destruct Hout as [(u & Hu & Hid & Hle)|Hcov].
  - exists u. split; [done|].
    assert (kv_DeletePrefix u <> "") as Hdu by (intros He; apply Hdp; by apply (ro_kind _ Hok u v); auto).
    split_and!; [done| |lia]. rewrite <- (ro_watermark _ Hok u), (ro_key _ Hok u v), (ro_watermark _ Hok v) by auto. done.
  - eapply covers_covered; [exact Hdp|by apply (ro_watermark _ Hok)|exact Hcov|done].
Qed.

Lemma store_ok_outdone us v s :
  rows_ok (us ++ [v]) -> outdone us v -> store_ok us s -> store_ok (us ++ [v]) s.
Proof.
  intros Hok Hout [Hwf Hd Hc].
  assert (forall key t, covers v key t -> coveredIn us key t) as Hcov by (intros; by eapply outdone_covers).
  split; [done| |].
  - apply documents_ignored; [done|done|by auto|]. destruct Hout as [(u & Hu & Hid & Hle)|Hcv]; [|by left].
    assert (v ∈ us ++ [v]) as Hvin by (apply elem_of_app; right; by left).
    assert (forall u, u ∈ us -> u ∈ us ++ [v]) as Hsub by (intros x Hx; apply elem_of_app; by left).
    destruct (newest_exists us u Hu) as (m & Hm & Hidm). pose proof Hm as [Hmin Hmax].
    specialize (Hmax u Hu (eq_sym Hidm)).
    destruct (decide (Exists (fun w => covers w (kv_Key m) (kv_TimestampMicro m)) us)) as [Hex|Hno].
    + left. apply Exists_exists in Hex. rewrite (ro_key _ Hok v m) by (auto; congruence).
      eapply coveredIn_earlier; [|exact Hex]. lia.
    + right. exists m. split_and!; [|congruence|lia]. split; [done|]. intros (w & Hw & Hcw). apply Hno, Exists_exists. eauto.
  - intros key t Ht. rewrite (Hc key t Ht), coveredIn_snoc. split; [by left|]. intros [?|?]; auto.
Qed.

Lemma outdone_more us v w : outdone us v -> outdone (us ++ [w]) v.
Proof.
  intros [(u & Hu & ?)|Hc]; [left|right].
  - exists u. split; [|done]. apply elem_of_app. by left.
  - apply coveredIn_snoc. by left.
Qed.

(** Rows that are outdone change nothing. *)
Lemma store_ok_absorb us vs s :
  rows_ok (us ++ vs) -> Forall (outdone us) vs -> store_ok us s -> store_ok (us ++ vs) s.
Proof.
  revert us. induction vs as [|v vs IH]; intros us Hok Hout Hs; [by rewrite app_nil_r|].
  apply Forall_cons in Hout as [Hv Hout]. replace (us ++ v :: vs) with ((us ++ [v]) ++ vs) in * by by rewrite <- app_assoc.
  apply IH; [done| |].
  - eapply Forall_impl; [exact Hout|]. intros x. apply outdone_more.
  - apply store_ok_outdone; [|done|done]. eapply rows_ok_sub; [|exact Hok]. intros x Hx. apply elem_of_app. by left.
Qed.
End absorb.

(** ** What the diff has is stored *)

Section advertised.
Context {C : Type} `{KvDbLaws C} {D : Type} `{HeadDiffLaws D} `{MapRange}.
Implicit Types (s : kvStorage C D) (v : KeyValue) (x : C * updateResult) (m : gmap string string).

Definition atMost m (docs : gmap string KvDoc) : Prop :=
  forall id h, m !! id = Some h -> exists d, docs !! id = Some d /\ h = headOf (doc_t d).

Definition advertisesOnly s : Prop := hd_ok (kvs_diff s) /\ atMost (hd_contents (kvs_diff s)) (db_docs (kvs_db s)).

Lemma advertises_only s : advertises s -> advertisesOnly s.
Proof.
  intros [Hok Hc]. split; [done|]. intros id h. rewrite Hc. unfold headsOf. rewrite lookup_fmap.
  intros (d & Hd & ->)%fmap_Some. eauto.
Qed.

Lemma atMost_step n v m x x' :
  updated n v x x' -> atMost (dropHeads (ur_removed x.2) (writeHeads (ur_elements x.2) m)) (db_docs x.1) ->
  atMost (dropHeads (ur_removed x'.2) (writeHeads (ur_elements x'.2) m)) (db_docs x'.1).
Proof.
  intros Hup Hat.
  assert (forall x1, writes v x x1 -> atMost (dropHeads (ur_removed x1.2) (writeHeads (ur_elements x1.2) m)) (db_docs x1.1)) as Hw.
  { intros x1 [Hd _ He Hr] id h. rewrite He, Hr, Hd. unfold writeHeads. rewrite fold_left_app. simpl.
    fold (writeHeads (ur_elements x.2) m). rewrite dropHeads_lookup. specialize (Hat id h). rewrite dropHeads_lookup in Hat.
    case_decide; [done|]. destruct (decide (id = kv_KeyPeerId v)) as [->|Hne].
    - rewrite !lookup_insert_eq. intros [= <-]. by eexists.
    - rewrite !lookup_insert_ne by done. apply Hat. }
  destruct Hup as [|d|x'|x1 x' older ? ? Hwr ? Hdr]; [done|done|by apply Hw|]. specialize (Hw _ Hwr).
  intros id h. rewrite (dr_removed _ _ _ _ Hdr), (dr_elements _ _ _ _ Hdr), (dr_docs _ _ _ _ Hdr). unfold dropHeads.
  rewrite fold_left_app. fold (dropHeads (ur_removed x1.2) (writeHeads (ur_elements x1.2) m)).
  fold (dropHeads (anyEncToElement <$> older) (dropHeads (ur_removed x1.2) (writeHeads (ur_elements x1.2) m))).
  rewrite dropHeads_lookup. rewrite <- list_fmap_compose. change (el_Id ∘ anyEncToElement) with doc_id.
  case_decide; [done|]. apply Hw.
Qed.

Lemma atMost_batch docs n us m x x' :
  db_wf x.1 -> pre_ok docs x.2 -> unrecorded docs x ->
  atMost (dropHeads (ur_removed x.2) (writeHeads (ur_elements x.2) m)) (db_docs x.1) ->
  updateValues n us x = (x', Ok tt) ->
  db_wf x'.1 /\ atMost (dropHeads (ur_removed x'.2) (writeHeads (ur_elements x'.2) m)) (db_docs x'.1).
Proof.
  unfold updateValues. revert x. induction us as [|u us IH]; intros x Hwf Hpre Hun Hat Hrun; simpl in Hrun.
  - by injection Hrun as <-.
  - apply st_bind_Ok in Hrun as (x1 & [] & Hu & Hrun).
    destruct (updateValue_cases _ _ _ _ _ _ Hwf Hpre Hun Hu) as [Hpre1 Hu1]. destruct (Hu1 eq_refl) as (Hwf1 & Hun1 & Hup).
    eapply IH; [done..| |exact Hrun]. by eapply atMost_step.
Qed.

Lemma advertisesOnly_set vals s s' r :
  db_wf (kvs_db s) -> Forall (fun v => hd_storable (kv_KeyPeerId v)) vals -> advertisesOnly s ->
  Set_rows vals s = (s', Ok r) -> advertisesOnly s'.
Proof.
  intros Hwf Hst [Hdok Hat] Hrun. apply Set_rows_Ok in Hrun as (x & d & Hup & Hdiff & Hd' & _ & _ & Hdocs).
  pose proof (empty_pre (db_docs (kvs_db s))) as Hpre.
  assert (unrecorded (db_docs (kvs_db s)) (kvs_db s, emptyResult)) as Hun by done.
  pose proof (updateValues_ids _ _ _ (kvs_db s, emptyResult) _ Hwf Hpre Hun Hst (Forall_nil_2 _) Hup) as Hids.
  destruct (diffBody_run _ _ _ _ Hdok Hids Hdiff) as [Hok' Hc'].
  destruct (atMost_batch _ _ _ (hd_contents (kvs_diff s)) (kvs_db s, emptyResult) _ Hwf Hpre Hun Hat Hup) as [Hwf' Hat'].
  destruct (Hdocs Hwf') as [_ Heq]. split; [by rewrite Hd'|]. by rewrite Hd', Hc', Heq.
Qed.
End advertised.

(** ** Rows that are let through *)

Section raw.
Context `{CryptoPrims} `{AclCodec} `{SharedKeyPrims} `{MapRange} `{ProtoWire} `{ListCodec}
  {TA : Type} `{AclStorage TA} `{SealPrims} `{KvCodec}
  {C : Type} `{KvDbLaws C} {D : Type} `{HeadDiffLaws D}.
Implicit Types (s : storage TA C D) (a : aclList TA) (kv v : KeyValue) (vs : list KeyValue) (protos : list StoreKeyValue).

(** What the list says of a decoded row: a watermark has to be the owner's, and the row to
    name a record of the list, which fixes its read key. *)
Definition allowed a kv : option KeyValue :=
  let isOwner := match kv_IdentityPubKey kv with
                 | Some i => IsOwner (Permissions (al_aclState a) i)
                 | None => false
                 end in
  if bool_decide (kv_DeletePrefix kv <> "") && negb isOwner then None
  else match ReadKeyForAclId (al_indexes a) (al_aclState a) (kv_AclId kv) with
       | Ok readKeyId => Some (with_ReadKeyId readKeyId kv)
       | Err _ => None
       end.
Definition allowedRows a protos : list KeyValue := omap (allowed a) (decodeRows protos).

(** The diff has a head that is not older. *)
Definition staleRow s kv : bool :=
  match hd_Element (kvs_diff (sg_inner s)) (kv_KeyPeerId kv) with
  | Ok el => String.leb (headOf (kv_TimestampMicro kv)) (el_Head el)
  | Err _ => false
  end.
Definition freshRows s protos : list KeyValue :=
  List.filter (fun v => negb (staleRow s v)) (allowedRows (sg_aclList s) protos).

(** The row of a message that decoded. *)
Record decoded (proto : StoreKeyValue) kv : Prop := mkDecoded {
  de_KeyPeerId : kv_KeyPeerId kv = skv_KeyPeerId proto;
  de_id : kv_KeyPeerId kv = KeyPeerId (kv_Key kv) (kv_PeerId kv);
  de_Value : kv_Value kv = mkValue (skv_Value proto) (skv_PeerSignature proto) (skv_IdentitySignature proto);
  de_watermark : kv_DeletePrefix kv <> "" -> kv_Key kv = kv_DeletePrefix kv;
  de_signed : exists identity peer, kv_IdentityPubKey kv = Some identity /\
    kv_Identity kv = PubKey_Account identity /\ kv_PeerId kv = PubKey_PeerId peer /\
    verifies identity (skv_Value proto) (skv_IdentitySignature proto) = true /\
    verifies peer (skv_Value proto) (skv_PeerSignature proto) = true;
}.

Lemma KeyValueFromProto_decoded proto kv : KeyValueFromProto proto true = Ok kv -> decoded proto kv.
Proof.
  intros Hkv. unfold KeyValueFromProto in Hkv. go_inv.
  repeat match goal with
  | Hb : bool_decide _ = false |- _ => apply bool_decide_eq_false in Hb; simpl in Hb
  | Hb : negb _ = false |- _ => apply negb_false_iff in Hb
  end.
  split; simpl; try done; [by apply dec_stable| |by eauto 10].
  intros Hdp. apply dec_stable. intros Hne. by match goal with Hb : ~ (_ /\ _) |- _ => apply Hb end.
Qed.

Lemma decoded_nonempty proto kv : decoded proto kv -> kv_KeyPeerId kv <> "".
Proof. intros Hd. rewrite (de_id _ _ Hd). unfold KeyPeerId. by destruct (kv_Key kv). Qed.

Lemma decodeRows_elem protos kv :
  kv ∈ decodeRows protos <-> exists proto, proto ∈ protos /\ KeyValueFromProto proto true = Ok kv.
Proof.
  induction protos as [|p protos IH]; simpl; [by rewrite elem_of_nil; split; [|intros (? & ?%not_elem_of_nil & _)]|].
  destruct (KeyValueFromProto p true) as [kv'|e] eqn:Hp; rewrite ?elem_of_cons, IH; split.
  - intros [->|(q & Hq & Hkv)]; [exists p|exists q]; (split; [|done]); [by left|by right].
  - intros (q & [->|Hq]%elem_of_cons & Hkv); [left; congruence|right; eauto].
  - intros (q & Hq & Hkv). exists q. split; [by right|done].
  - intros (q & [->|Hq]%elem_of_cons & Hkv); [congruence|eauto].
Qed.

Lemma allowed_fields a kv v : allowed a kv = Some v -> exists rk, v = with_ReadKeyId rk kv.
Proof. unfold allowed. destruct (_ && _); [done|]. destruct (ReadKeyForAclId _ _ _); [|done]. intros [= <-]. eauto. Qed.

Lemma admitRow_spec s kv r :
  kv_KeyPeerId kv <> "" -> admitRow s kv = Ok r ->
  match allowed (sg_aclList s) kv with
  | Some v => if staleRow s v then kv_KeyPeerId r = "" else r = v /\ kv_KeyPeerId r <> ""
  | None => kv_KeyPeerId r = ""
  end.
Proof.
  intros Hid. unfold admitRow, allowed. intros Hr. apply res_bind_Ok in Hr as (isOwner & Ho & Hr).
  assert (isOwner = negb (bool_decide (kv_DeletePrefix kv <> "") && negb
    match kv_IdentityPubKey kv with Some i => IsOwner (Permissions (al_aclState (sg_aclList s)) i) | None => false end)) as ->.
  { destruct (decide (kv_DeletePrefix kv <> "")) as [Hd|Hd].
    - rewrite (bool_decide_eq_true_2 _ Hd). destruct (kv_IdentityPubKey kv); simpl in Ho |- *; [injection Ho as <-; by destruct (IsOwner _)|done].
    - rewrite (bool_decide_eq_false_2 _ Hd). by injection Ho as <-. }
  destruct (_ && negb _); simpl in Hr; [by injection Hr as <-|]. fold (staleRow s kv) in Hr.
  destruct (ReadKeyForAclId _ _ _) as [rk|e].
  - change (staleRow s (with_ReadKeyId rk kv)) with (staleRow s kv). destruct (staleRow s kv); injection Hr as <-; done.
  - destruct (staleRow s kv); by injection Hr as <-.
Qed.

Lemma admitRows_spec s kvs rs :
  Forall (fun kv => kv_KeyPeerId kv <> "") kvs -> res_map (admitRow s) kvs = Ok rs ->
  DiscardFromSlice rs (fun value => bool_decide (kv_KeyPeerId value = "")) =
  List.filter (fun v => negb (staleRow s v)) (omap (allowed (sg_aclList s)) kvs).
Proof.
  intros Hne Hrs%res_map_Ok. induction Hrs as [|kv r kvs rs Hr Hrs IH]; [done|].
  apply Forall_cons in Hne as [Hkv Hne]. specialize (IH Hne). unfold DiscardFromSlice in *. simpl.
  pose proof (admitRow_spec _ _ _ Hkv Hr) as Hspec. destruct (allowed _ kv) as [v|]; simpl; [destruct (staleRow s v); simpl|].
  - by rewrite bool_decide_true.
  - destruct Hspec as [-> Hv]. rewrite bool_decide_false by done. simpl. by rewrite IH.
  - by rewrite bool_decide_true.
Qed.

(** ** Frames *)

(** Only keys were read or events sent. *)
Definition sameStore s s' : Prop :=
  sg_inner s' = sg_inner s /\ sg_aclList s' = sg_aclList s /\ sg_PeerKey s' = sg_PeerKey s /\
  sg_SignKey s' = sg_SignKey s /\ sg_storageId s' = sg_storageId s.
#[global] Instance sameStore_preorder : PreOrder sameStore.
Proof. split; [by split|]. intros s1 s2 s3 (?&?&?&?&?) (?&?&?&?&?). split_and!; congruence. Qed.

Lemma kvReadKeys_frame state : frames sameStore (kvReadKeysFromAclState state).
Proof. unfold kvReadKeysFromAclState, deriveReadKey. frame; done. Qed.
Lemma emit_frame e : frames sameStore (emit e).
Proof. unfold emit. by frame. Qed.
Lemma removeIndexes_frame ids : frames sameStore (removeIndexes ids).
Proof. unfold removeIndexes. frame; apply emit_frame. Qed.

(** The rows of an event, and the events of a run. *)
Definition eventRows (e : Event) : list KeyValue :=
  match e with Broadcast _ kvs | Index kvs => kvs | RemoveIndex _ => [] end.
Definition emits (rows : list KeyValue) s s' : Prop :=
  exists evs, sg_events s' = (sg_events s ++ evs)%list /\ forall e v, e ∈ evs -> v ∈ eventRows e -> v ∈ rows.
#[global] Instance emits_preorder rows : PreOrder (emits rows).
Proof.
  split.
  - intros s. exists []. rewrite app_nil_r. split; [done|]. by intros e v ?%not_elem_of_nil.
  - intros s1 s2 s3 (l & Hl & Hin) (l' & Hl' & Hin'). exists (l ++ l')%list. rewrite Hl', Hl, app_assoc. split; [done|].
    intros e v [?|?]%elem_of_app; eauto.
Qed.
Lemma emit_emits rows e : (forall v, v ∈ eventRows e -> v ∈ rows) -> frames (emits rows) (emit e).
Proof. intros Hp s. exists [e]. split; [done|]. intros e' v ->%list_elem_of_singleton. apply Hp. Qed.
Lemma removeIndexes_emits rows ids : frames (emits rows) (removeIndexes ids).
Proof. unfold removeIndexes. frame. apply emit_emits. by intros v ?%not_elem_of_nil. Qed.
Lemma kvReadKeys_events state : frames (fun s s' => sg_events s' = sg_events s) (kvReadKeysFromAclState state).
Proof.
  assert (PreOrder (fun s s' => sg_events s' = sg_events s)) by (split; [done|by intros ??? -> ->]).
  unfold kvReadKeysFromAclState, deriveReadKey. frame; done.
Qed.

Lemma onInner_Ok {A} (m : ST (kvStorage C D) A) s s' r :
  onInner m s = (s', Ok r) -> m (sg_inner s) = (sg_inner s', Ok r) /\ s' = set_inner (sg_inner s') s.
Proof. unfold onInner. destruct (m (sg_inner s)) as [i r']. by intros [= <- ->]. Qed.

Lemma SetRaw_Ok protos s s' :
  SetRaw protos s = (s', Ok tt) ->
  sg_aclList s' = sg_aclList s /\
  if decide (freshRows s protos = []) then sg_inner s' = sg_inner s /\ sg_events s' = sg_events s
  else exists r, Set_rows (freshRows s protos) (sg_inner s) = (sg_inner s', Ok r) /\ emits (sr_Applied r) s s'.
Proof.
  unfold SetRaw. case_decide as Hp; [intros [= <-]; split; [done|]; subst; by rewrite decide_True|].
  intros Hrun. go_step Hrun. apply reads_Ok in Hrun0 as [-> ->]. go_step Hrun.
  pose proof (frames_run _ _ _ _ _ (kvReadKeys_events _) Hrun0) as Hev.
  apply (frames_run sameStore _ _ _ _ (kvReadKeys_frame _)) in Hrun0 as (Hi & Ha & _).
  go_step Hrun. unfold calls in Hrun0. injection Hrun0 as <- Hrs.
  apply admitRows_spec in Hrs; cycle 1.
  { apply Forall_forall. intros kv (proto & _ & Hd%KeyValueFromProto_decoded)%decodeRows_elem. by eapply decoded_nonempty. }
  rewrite Hrs in Hrun. replace (List.filter _ _) with (freshRows s protos) in Hrun.
  2: { unfold freshRows, allowedRows, staleRow. by rewrite Hi, Ha. }
  case_decide as Hf; [by injection Hrun as <-|]. go_step Hrun. apply onInner_Ok in Hrun0 as [Hset Heq]. rewrite Hi in Hset.
  match type of Hrun with ?m ?s1 = _ => assert (sameStore s1 s') as (Hi' & Ha' & _) end.
  { eapply (frames_run sameStore); [|exact Hrun]. frame; auto using removeIndexes_frame, emit_frame. }
  match type of Hrun with ?m ?s1 = _ => assert (emits (sr_Applied a1) s1 s') as (evs & Hevs & Hin) end.
  { eapply (frames_run (emits _)); [|exact Hrun]. frame; try apply removeIndexes_emits; apply emit_emits; simpl; [done|].
    intros v Hv%list_elem_of_In. apply filter_In in Hv as [Hv _]. by apply list_elem_of_In. }
  rewrite Heq in Ha', Hevs. simpl in Ha', Hevs. split; [congruence|]. exists a1. rewrite Hi'. split; [done|].
  exists evs. by rewrite Hevs, Hev.
Qed.
(** ** [SetRaw] refines the specification *)

Lemma stale_outdone vs s v :
  rows_ok (vs ++ [v]) -> store_ok vs (sg_inner s) -> advertisesOnly (sg_inner s) -> staleRow s v = true -> outdone vs v.
Proof.
  intros Hok [Hwf Hd _] [Hdok Hat] Hst. unfold staleRow in Hst. rewrite hd_Element_law in Hst by done.
  destruct (hd_contents _ !! kv_KeyPeerId v) as [h|] eqn:Hh; [|done]. simpl in Hst.
  apply Hat in Hh as (d & Hdoc & ->). apply Hd in Hdoc as (u & [[Hu _] _] & Hid & ->). left. exists u. split_and!; [done|done|].
  assert (u ∈ vs ++ [v]) as Huin by (apply elem_of_app; by left).
  assert (v ∈ vs ++ [v]) as Hvin by (apply elem_of_app; right; by left).
  rewrite (doc_t_exact _ _ Hok Huin) in Hst. pose proof (ro_time _ Hok u Huin). pose proof (ro_time _ Hok v Hvin).
  by apply headOf_le in Hst; [..|lia|lia].
Qed.

(** The store after [SetRaw] is that of its rows and of all the rows the list allows,
    those included that were skipped because the diff has them newer. *)
Lemma SetRaw_refines vs protos s s' :
  store_ok vs (sg_inner s) -> advertisesOnly (sg_inner s) -> rows_ok (vs ++ allowedRows (sg_aclList s) protos) ->
  Forall (fun v => hd_storable (kv_KeyPeerId v)) (allowedRows (sg_aclList s) protos) ->
  SetRaw protos s = (s', Ok tt) ->
  store_ok (vs ++ allowedRows (sg_aclList s) protos) (sg_inner s') /\ advertisesOnly (sg_inner s') /\
  sg_aclList s' = sg_aclList s.
Proof.
  intros Hs Hadv Hok Hst Hrun. apply SetRaw_Ok in Hrun as [Hacl Hset].
  set (all := allowedRows (sg_aclList s) protos) in *. set (fresh := freshRows s protos) in *.
  set (stale := List.filter (staleRow s) all).
  assert (forall v, v ∈ all <-> v ∈ fresh \/ v ∈ stale) as Hpart.
  { intros v. unfold fresh, stale, freshRows. fold all. rewrite !list_elem_of_In, !filter_In.
    destruct (staleRow s v); naive_solver. }
  assert (forall l, (forall v, v ∈ l -> v ∈ all) -> forall v, v ∈ vs ++ l -> v ∈ vs ++ all) as Hsub.
  { intros l Hl v. rewrite !elem_of_app. intros [?|?]; auto. }
  assert (store_ok (vs ++ fresh) (sg_inner s') /\ advertisesOnly (sg_inner s')) as [Hs' Hadv'].
  { case_decide as Hf.
    - destruct Hset as [Hset _]. by rewrite Hset, Hf, app_nil_r.
    - destruct Hset as (r & Hset & _). split.
      + eapply store_ok_set; [|exact Hs|exact Hset]. eapply rows_ok_sub; [|exact Hok]. apply Hsub. intros v. rewrite Hpart. tauto.
      + eapply advertisesOnly_set; [by destruct Hs| |exact Hadv|exact Hset]. rewrite Forall_forall in Hst |- *. intros v Hv.
        apply Hst, Hpart. by left. }
  split_and!; [|done|done]. apply (store_ok_same ((vs ++ fresh) ++ stale)).
  { intros v. rewrite !elem_of_app, Hpart. tauto. }
  apply store_ok_absorb; [| |done].
  - eapply rows_ok_sub; [|exact Hok]. intros v. rewrite !elem_of_app, Hpart. tauto.
  - apply Forall_forall. intros v Hv. assert (outdone vs v) as Hout.
    { apply (stale_outdone vs s); [|done|done|by apply list_elem_of_In, filter_In in Hv as [_ ?]].
      eapply rows_ok_sub; [|exact Hok]. apply Hsub. intros x ->%list_elem_of_singleton. apply Hpart. by right. }
    destruct Hout as [(u & Hu & Hid & Hle)|Hcov]; [left|right].
    + exists u. split; [apply elem_of_app; by left|done].
    + destruct Hcov as (w & Hw & Hc). exists w. split; [apply elem_of_app; by left|done].
Qed.
(** ** What is stored and relayed is vouched for *)

Lemma applied_frame m v :
  frames (fun x x' : C * updateResult => forall u, u ∈ ur_applied x'.2 -> u ∈ ur_applied x.2 \/ u = v) (updateValue m v).
Proof.
  assert (PreOrder (fun x x' : C * updateResult => forall u, u ∈ ur_applied x'.2 -> u ∈ ur_applied x.2 \/ u = v)) as Hpre.
  { split; [by left|]. intros x1 x2 x3 H12 H23 u Hu. destruct (H23 u Hu) as [Hu2|]; [|by right]. auto. }
  assert (forall (A : Type) (n : ST C A), frames (fun x x' : C * updateResult =>
    forall u, u ∈ ur_applied x'.2 -> u ∈ ur_applied x.2 \/ u = v) (onDb n)) as Hdb.
  { intros A n x. unfold onDb. destruct (n x.1). by left. }
  unfold updateValue, applyWatermark, onResult. frame; try apply Hdb;
    repeat match goal with
    | Hu : _ ∈ ur_applied _ |- _ => progress (unfold recordPre in Hu; simpl in Hu)
    | Hu : _ ∈ ur_applied (match ?o with _ => _ end) |- _ => destruct o
    | Hu : _ ∈ (_ ++ [_])%list |- _ => apply elem_of_app in Hu as [Hu|Hu%list_elem_of_singleton]
    end; auto.
Qed.

Lemma updateValues_origin docs m us x x' :
  db_wf x.1 -> pre_ok docs x.2 -> unrecorded docs x -> updateValues m us x = (x', Ok tt) ->
  (forall u, u ∈ ur_applied x'.2 -> u ∈ ur_applied x.2 \/ u ∈ us) /\
  (forall id d, db_docs x'.1 !! id = Some d -> db_docs x.1 !! id = Some d \/ exists u, u ∈ us /\ d = kv_AnyEnc u) /\ db_wf x'.1.
Proof.
  unfold updateValues. revert x. induction us as [|v us IH]; intros x Hwf Hpre Hun Hrun; simpl in Hrun.
  - injection Hrun as <-. split_and!; [by left|by left|done].
  - apply st_bind_Ok in Hrun as (x1 & [] & Hu & Hrun).
    destruct (updateValue_cases _ _ _ _ _ _ Hwf Hpre Hun Hu) as [Hpre1 Hu1]. destruct (Hu1 eq_refl) as (Hwf1 & Hun1 & Hup).
    destruct (IH _ Hwf1 Hpre1 Hun1 Hrun) as (Ha & Hd & Hwf'). split_and!; [..|done].
    + intros u Hin. destruct (Ha u Hin) as [Hin1|?]; [|right; by right].
      destruct (frames_run _ _ _ _ _ (applied_frame m v) Hu u Hin1) as [?| ->]; [by left|right; by left].
    + assert (forall x2 id d, writes v x x2 -> db_docs x2.1 !! id = Some d -> db_docs x.1 !! id = Some d \/ d = kv_AnyEnc v) as Hw.
      { intros x2 id d [Hx _ _ _]. rewrite Hx, lookup_insert_Some. intros [[_ <-]|[_ ?]]; auto. }
      intros id d Hin. destruct (Hd id d Hin) as [Hin1|(u & Hu2 & ->)]; [|right; exists u; split; [by right|done]].
      assert (db_docs x.1 !! id = Some d \/ d = kv_AnyEnc v) as [?| ->]; [|by left|right; exists v; split; [by left|done]].
      destruct Hup as [|e|x1|x2 x1 older ? ? Hwr ? Hdr]; [by left|by left|by eapply Hw|].
      rewrite (dr_docs _ _ _ _ Hdr) in Hin1. case_decide; [done|]. by eapply Hw.
Qed.

Lemma Set_rows_applied vals i i' r :
  Set_rows vals i = (i', Ok r) -> exists x, updateValues (kvs_watermarks i) vals (kvs_db i, emptyResult) = (x, Ok tt) /\
    (forall v, v ∈ sr_Applied r -> v ∈ ur_applied x.2).
Proof.
  unfold Set_rows, setBody. destruct (db_WriteTx (kvs_db i)); [|done].
  destruct (updateValues _ _ _) as [x [[]|e]] eqn:Hup; [|by destruct e as [?|?]; [destruct (restoreDiff _ _) as [? []]|]].
  destruct ((hd_Set _ ;; _) _) as [d [[]|e]]; [|by destruct e as [?|?]; [destruct (restoreDiff _ _) as [? []]|]].
  case_decide as Hpre.
  - destruct (db_Commit x.1) as [|e]; [|by destruct e as [?|?]; [destruct (restoreDiff _ _) as [? []]|]].
    intros [= _ <-]. exists x. split; [done|]. by intros v ?%not_elem_of_nil.
  - destruct (hd_Hash d) as [hash|e]; [|by destruct e as [?|?]; [destruct (restoreDiff _ _) as [? []]|]].
    destruct (db_UpdateHeads _ _ x.1) as [c [[]|e]]; [|by destruct e as [?|?]; [destruct (restoreDiff _ _) as [? []]|]].
    simpl. destruct (db_Commit c) as [|e]; [|by destruct e as [?|?]; [destruct (restoreDiff _ _) as [? []]|]].
    intros [= _ <-]. by exists x.
Qed.

(** The account and the device signed the bytes of the row, its id is that of its key and
    its device, a watermark is the owner's, and the list knows the record it names. *)
Record vouched a (protos : list StoreKeyValue) v : Prop := mkVouched {
  vo_signed : exists proto identity peer, proto ∈ protos /\ kv_IdentityPubKey v = Some identity /\
    va_Value (kv_Value v) = skv_Value proto /\
    verifies identity (va_Value (kv_Value v)) (va_IdentitySignature (kv_Value v)) = true /\
    verifies peer (va_Value (kv_Value v)) (va_PeerSignature (kv_Value v)) = true /\
    kv_KeyPeerId v = KeyPeerId (kv_Key v) (PubKey_PeerId peer) /\
    (kv_DeletePrefix v <> "" -> IsOwner (Permissions (al_aclState a) identity) = true);
  vo_record : ReadKeyForAclId (al_indexes a) (al_aclState a) (kv_AclId v) = Ok (kv_ReadKeyId v);
}.

Lemma allowed_vouched a protos v : v ∈ allowedRows a protos -> vouched a protos v.
Proof.
  intros (kv & (proto & Hp & Hd%KeyValueFromProto_decoded)%decodeRows_elem & Hal)%list_elem_of_omap.
  destruct (de_signed _ _ Hd) as (identity & peer & Hi & _ & Hpeer & Hvi & Hvp). pose proof (de_id _ _ Hd) as Hid.
  unfold allowed in Hal. rewrite Hi in Hal. destruct (_ && _) eqn:Hw; [done|].
  destruct (ReadKeyForAclId _ _ _) as [rk|] eqn:Hrk; [|done]. injection Hal as <-. split; [|done].
  exists proto, identity, peer. simpl. rewrite (de_Value _ _ Hd). simpl. split_and!; try done; [by rewrite Hid, Hpeer|].
  intros Hdp. rewrite bool_decide_true in Hw by done. simpl in Hw. by apply negb_false_iff in Hw.
Qed.

(** What [SetRaw] stores and relays is vouched for.  Every document it adds and every row
    it broadcasts or indexes is one of the messages it was given, with valid signatures of
    the account and of the device over the same bytes, under the id of its key and device,
    naming a record of the access-control list; and a watermark is signed by the owner. *)
Theorem kv_raw_vouched protos s s' :
  db_wf (kvs_db (sg_inner s)) -> SetRaw protos s = (s', Ok tt) ->
  (forall id d, db_docs (kvs_db (sg_inner s')) !! id = Some d -> db_docs (kvs_db (sg_inner s)) !! id = Some d \/
     exists v, vouched (sg_aclList s) protos v /\ d = kv_AnyEnc v) /\
  exists evs, sg_events s' = sg_events s ++ evs /\
    forall e v, e ∈ evs -> v ∈ eventRows e -> vouched (sg_aclList s) protos v.
Proof.
  intros Hwf Hrun. apply SetRaw_Ok in Hrun as [_ Hset]. case_decide as Hf.
  { destruct Hset as [-> Hev]. split; [by left|]. exists []. rewrite app_nil_r. split; [done|]. by intros e v ?%not_elem_of_nil. }
  assert (forall v, v ∈ freshRows s protos -> vouched (sg_aclList s) protos v) as Hv.
  { intros v Hv%list_elem_of_In. apply filter_In in Hv as [Hv%list_elem_of_In _]. by apply allowed_vouched. }
  destruct Hset as (r & Hset & evs & Hev & Hall).
  pose proof (Set_rows_applied _ _ _ _ Hset) as (x & Hup & Happ).
  destruct (updateValues_origin (db_docs (kvs_db (sg_inner s))) _ _ (kvs_db (sg_inner s), emptyResult) _ Hwf (empty_pre _) ltac:(done) Hup) as (Ha & Hd & Hwf').
  apply Set_rows_Ok in Hset as (x' & d & Hup' & _ & _ & _ & _ & Hdocs). rewrite Hup in Hup'. injection Hup' as <-.
  destruct (Hdocs Hwf') as [_ Heq]. split.
  - intros id e. rewrite Heq. intros He. destruct (Hd id e He) as [?|(u & Hu & ->)]; [by left|right]. exists u. auto.
  - exists evs. split; [done|]. intros e v He Hin. apply Hv. destruct (Ha v) as [Hn|?]; [by eapply Happ, Hall|by apply not_elem_of_nil in Hn|done].
Qed.
End raw.
