(* ===== verification/KeyValuePull.v ===== *)
(** The exchange of key-value rows (src/commonspace/object/keyvalue: keyvalue.go,
    remotediff.go): a peer compares its diff with the other's over the wire, pushes the rows
    the other lacks or has older, and pulls the rows it lacks or has older itself.  The
    connection to the other peer is a record of functions; a value of the wire that is
    empty is nil. *)

From Stdlib Require Import ZArith Lia String Ascii Permutation.
From stdpp Require Import base option list gmap strings sorting.
From S2P Require Import Prelude Crypto AclModels AclState AclValidator AclApply AclStorage AclKeep AclList.
From S2P Require Import Ldiff LdiffRanges LdiffExchange LdiffMain LdiffCompare HeadDiff KeyValue KeyValueInv.
From S2P Require Import KeyValueMain KeyValueDiff ChangeBuilder TreeBuild KeyValueStore KeyValueRaw.

Local Open Scope Z_scope.

(** ** The diff over the wire (remotediff.go) *)

Record HeadSyncRange := mkHeadSyncRange { hsr_From : Z; hsr_To : Z; hsr_Limit : Z; hsr_Elements : bool }.
Record HeadSyncResult := mkHeadSyncResult { hsres_Hash : bytes; hsres_Elements : list Element; hsres_Count : Z }.
Record StoreDiffRequest := mkStoreDiffRequest { sdr_SpaceId : string; sdr_Ranges : list HeadSyncRange }.
Record StoreDiffResponse := mkStoreDiffResponse { sdr_Results : list HeadSyncResult }.

(** [uint32(x)] *)
Definition u32 (x : Z) : Z := x mod 2 ^ 32.

(** [remote.Ranges], with the call of the peer *)
Definition remoteRanges (storeDiff : StoreDiffRequest -> res StoreDiffResponse) (spaceId : string) : Remote := fun ranges =>
  let pbRanges := List.map (fun rg => mkHeadSyncRange (r_From rg) (r_To rg) (u32 (r_Limit rg)) (r_Elements rg)) ranges in
  resp ← storeDiff (mkStoreDiffRequest spaceId pbRanges);
  Ok (List.map (fun rr => mkRangeResult (hsres_Hash rr) (hsres_Elements rr) (hsres_Count rr)) (sdr_Results resp)).

Section range_request.
Context `{SkipList} `{DiffHashes}.

Definition HandleRangeRequest (d : diff) (req : StoreDiffRequest) : res StoreDiffResponse :=
  let ranges := List.map (fun rg => mkRange (hsr_From rg) (hsr_To rg) (hsr_Elements rg) (hsr_Limit rg)) (sdr_Ranges req) in
  results ← Ranges d ranges;
  Ok (mkStoreDiffResponse
    (List.map (fun rr => mkHeadSyncResult (rr_Hash rr) (rr_Elements rr) (u32 (rr_Count rr))) results)).
End range_request.

(** ** The service (keyvalue.go) *)

Definition ErrUnexpectedMessageType := GoError "unexpected message type".
Definition ErrEOF := GoError "EOF".
Definition ErrSpaceNotFound := GoError "space not found".
Definition applyBatchSize : nat := 100.
Arguments applyBatchSize : simpl never.

(** The first message, which names the space; a request for a row; and the empty message,
    which ends a stream. *)
Definition spaceMessage (spaceId : string) : StoreKeyValue := mkStoreKeyValue "" "" "" "" spaceId.
Definition rowRequest (id : string) : StoreKeyValue := mkStoreKeyValue id "" "" "" "".
Definition endOfStream : StoreKeyValue := mkStoreKeyValue "" "" "" "" "".

(** What a client can do with a peer: ask for ranges, and open a stream, send messages and
    read what comes back. *)
Record KvPeer := mkKvPeer {
  peer_AcquireConn : res unit;
  peer_StoreDiff : StoreDiffRequest -> res StoreDiffResponse;
  peer_StoreElements : list StoreKeyValue -> res (list StoreKeyValue);
}.

(** Generated code *)
Class KvStoreCodec := { StoreKeyValues_UnmarshalVT : bytes -> res (list StoreKeyValue) }.

Section service.
Context `{CryptoPrims} `{AclCodec} `{SharedKeyPrims} `{MapRange} `{ProtoWire} `{ListCodec}
  {TA : Type} `{AclStorage TA} `{SealPrims} `{KvCodec} `{KvStoreCodec}
  {C : Type} `{KvDb C} `{SkipListLaws} `{DiffHashes}.
#[local] Existing Instance ldiff_HeadDiff.

Abbreviation KS := (storage TA C diff).
Implicit Types (s : KS).

Definition HandleStoreDiffRequest s (req : StoreDiffRequest) : res StoreDiffResponse :=
  HandleRangeRequest (kvs_diff (sg_inner s)) req.

(** *** Serving rows *)

(** The loop that reads the requests: rows to save, ids to send. *)
Fixpoint recvRequests (msgs : list StoreKeyValue) (save : list StoreKeyValue) (send : list string)
    : res (list StoreKeyValue * list string) :=
  match msgs with
  | [] => Err ErrEOF
  | msg :: msgs =>
      if decide (skv_KeyPeerId msg = "") then Ok (save, send)
      else if decide (skv_Value msg <> "") then recvRequests msgs (save ++ [msg]) send
      else recvRequests msgs save (send ++ [skv_KeyPeerId msg])
  end.

(** An id comes before another when its head is greater, or equal and the id less; an id the
    diff does not have reads as the empty head. *)
Definition headIn (d : diff) (id : string) : string :=
  match hd_Element d id with Ok el => el_Head el | Err _ => "" end.
Definition newestFirst (d : diff) (a b : string) : Prop :=
  match String.compare (headIn d b) (headIn d a) with
  | Lt => True
  | Gt => False
  | Eq => String.leb a b = true
  end.
#[global] Instance newestFirst_dec d a b : Decision (newestFirst d a b).
Proof. unfold newestFirst. destruct (String.compare _ _); apply _. Defined.

Definition sortIdsNewestFirst (d : diff) (ids : list string) : list string := merge_sort (newestFirst d) ids.

(** Rows that are not found are skipped; [sendErr n] is the error of the [n]th send. *)
Fixpoint sendRows s (sendErr : nat -> option error) (ids : list string) (sent : list StoreKeyValue)
    : list StoreKeyValue * res unit :=
  match ids with
  | [] => (sent, Ok tt)
  | id :: ids =>
      match GetKeyPeerId (sg_inner s) id with
      | Ok (Some kv) =>
          match sendErr (length sent) with
          | Some e => (sent, Err e)
          | None => sendRows s sendErr ids (sent ++ [kv_Proto kv])
          end
      | _ => sendRows s sendErr ids sent
      end
  end.

(** What the peer receives, and the state and result of the handler. *)
Definition HandleStoreElementsRequest (msgs : list StoreKeyValue) (sendErr : nat -> option error) s
    : list StoreKeyValue * (KS * res unit) :=
  match recvRequests msgs [] [] with
  | Err e => ([], (s, Err e))
  | Ok (messagesToSave, messagesToSend) =>
      let ids := sortIdsNewestFirst (kvs_diff (sg_inner s)) messagesToSend in
      let '(sent, sendRes) := sendRows s sendErr ids [] in
      let '(sent, sendRes) :=
        match sendRes with
        | Err e => (sent, Err e)
        | Ok _ => match sendErr (length sent) with
                  | Some e => (sent, Err e)
                  | None => (sent ++ [endOfStream], Ok tt)
                  end
        end in
      match SetRaw messagesToSave s with
      | (s, Err e) => (sent, (s, Err e))
      | (s, Ok _) => (sent, (s, sendRes))
      end
  end.

Definition HandleMessage (update : option bytes) : ST KS unit :=
  bytes ← lifts (opt_or update ErrUnexpectedMessageType);
  keyValues ← lifts (StoreKeyValues_UnmarshalVT bytes);
  SetRaw keyValues.

(** *** Pulling and pushing rows *)

(** The rows to push; rows dropped in the meantime are skipped. *)
Fixpoint pushRows s (ids : list string) : res (list StoreKeyValue) :=
  match ids with
  | [] => Ok []
  | id :: ids =>
      kv ← GetKeyPeerId (sg_inner s) id;
      msgs ← pushRows s ids;
      match kv with
      | Some kv => Ok (kv_Proto kv :: msgs)
      | None => Ok msgs
      end
  end.

(** The loop that applies what is received, in batches. *)
Fixpoint recvRows (msgs : list StoreKeyValue) (batch : list StoreKeyValue) : ST KS unit :=
  match msgs with
  | [] => lifts (Err ErrEOF)
  | msg :: msgs =>
      if decide (skv_KeyPeerId msg = "") then SetRaw batch
      else
        let batch := batch ++ [msg] in
        if (applyBatchSize <=? length batch)%nat then SetRaw batch ;; recvRows msgs []
        else recvRows msgs batch
  end.

(** [fuel] bounds the rounds of the comparison, [ctxErr] is the state of the context. *)
Definition syncWithPeer (fuel : nat) (ctxErr : nat -> option error) (spaceId : string) (p : KvPeer) : ST KS unit :=
  lifts (peer_AcquireConn p) ;;
  '(newIds, changedIds, theirChangedIds, removedIds) ←
    calls (fun s => CompareDiff fuel ctxErr (kvs_diff (sg_inner s)) (remoteRanges (peer_StoreDiff p) spaceId));
  pushed ← calls (fun s => pushRows s (removedIds ++ changedIds));
  let asked := List.map rowRequest (theirChangedIds ++ newIds) in
  replies ← lifts (peer_StoreElements p ([spaceMessage spaceId] ++ pushed ++ asked ++ [endOfStream]));
  recvRows replies [].

(** A peer that serves the state [s].  Its endpoint (outside of the repository; the test
    server of keyvalue_test.go is one) reads the first message to find the space and hands
    the rest of the stream to the service of the space. *)
Definition servedBy (spaceId : string) s : KvPeer := mkKvPeer (Ok tt) (HandleStoreDiffRequest s)
  (fun msgs => match msgs with
    | [] => Err ErrEOF
    | first :: msgs =>
        fail_if (bool_decide (skv_SpaceId first <> spaceId)) ErrSpaceNotFound ;;
        Ok (HandleStoreElementsRequest msgs (fun _ => None) s).1
    end).
End service.

(** * A pull is complete: after an exchange of key-value rows the client holds what it held
    and what the other peer holds. *)

(** ** Ranges over the wire *)

Section wire.
Context `{SkipListLaws} `{DiffHashes} `{MapRange}.

Lemma getRange_count d r :
  container_ok d -> counts_fit d -> 0 <= rr_Count (getRange d r) < 2 ^ 32.
Proof.
  intros Hok [Hlen Hfit]. assert (forall a b, 0 <= Z.of_nat (length (rangeElements (d_sl d) a b)) <= Z.of_nat (length (d_sl d))) as Hle.
  { intros a b. rewrite rangeElements_filter by apply Hok. rewrite length_fmap.
    split; [lia|]. apply inj_le, length_filter. }
  specialize (Hle (r_From r) (r_To r)).
  unfold getRange. destruct (_ !! _) as [rng|] eqn:Hr; [destruct (r_Elements r)|]; cbn [rr_Count]; [lia| |lia].
  destruct (co_counts _ Hok _ _ Hr) as [Hc _]. specialize (Hfit _ _ Hr). cbn beta in Hfit. unfold countIn in Hc. lia.
Qed.

(** The answers of the peer are those of its diff. *)
Lemma remoteRanges_served d spaceId rs :
  container_ok d -> counts_fit d ->
  remoteRanges (HandleRangeRequest d) spaceId rs = Ok (getRange d <$> rs).
Proof.
  intros Hok Hfit. unfold remoteRanges, HandleRangeRequest. simpl. f_equal.
  induction rs as [|r rs IH]; [done|]. simpl. f_equal; [|exact IH].
  pose proof (getRange_count d r Hok Hfit) as Hc. simpl.
  change (getRange d (mkRange (r_From r) (r_To r) (r_Elements r) (u32 (r_Limit r)))) with (getRange d r).
  destruct (getRange d r) as [h els n]. simpl in *. unfold u32. by rewrite Z.mod_small by lia.
Qed.

Lemma CompareDiff_remote fuel ctx d (dl dl' : Remote) :
  (forall rs, dl rs = dl' rs) -> CompareDiff fuel ctx d dl = CompareDiff fuel ctx d dl'.
Proof.
  intros Heq. unfold CompareDiff. assert (forall rs c, diffLoop fuel ctx d dl compareElementsGreater rs c =
    diffLoop fuel ctx d dl' compareElementsGreater rs c) as ->; [|done].
  induction fuel as [|fuel IH]; intros [|r rs] c; simpl; try done. destruct (ctx fuel); [done|]. rewrite Heq.
  destruct (dl' (r :: rs)); [|done]. simpl. destruct (fail_if _ _); [|done]. apply IH.
Qed.
End wire.

Section pull.
Context `{CryptoPrims} `{AclCodec} `{SharedKeyPrims} `{MapRange} `{ProtoWire} `{ListCodec}
  {TA : Type} `{AclStorage TA} `{SealPrims} `{KvCodec}
  {C : Type} `{KvDbLaws C} `{SkipListLaws} `{DiffHashes}.
#[local] Existing Instances ldiff_HeadDiff ldiff_HeadDiffLaws.

Abbreviation KS := (storage TA C diff).
Implicit Types (c s : KS) (v : KeyValue) (vs us : list KeyValue) (protos : list StoreKeyValue) (a : aclList TA).

Abbreviation diffIn s := (kvs_diff (sg_inner s)).
Abbreviation docsIn s := (db_docs (kvs_db (sg_inner s))).

(** A row another peer signed and the list allows. *)
Definition authentic a v : Prop := exists proto kv, KeyValueFromProto proto true = Ok kv /\ allowed a kv = Some v.

(** What is sent of the stored row comes back as the row. *)
Lemma authentic_sent a v :
  authentic a v -> allowedRows a [kv_Proto (keyValueFromDoc (kv_AnyEnc v))] = [v] /\
    skv_KeyPeerId (kv_Proto (keyValueFromDoc (kv_AnyEnc v))) <> "".
Proof.
  intros (proto & kv & Hkv & Hal). pose proof (KeyValueFromProto_decoded _ _ Hkv) as Hd.
  pose proof (decoded_nonempty _ _ Hd) as Hne.
  destruct (allowed_fields _ _ _ Hal) as [rk ->]. split; [|done].
  replace (kv_Proto _) with (mkStoreKeyValue (skv_KeyPeerId proto) (skv_Value proto) (skv_IdentitySignature proto)
    (skv_PeerSignature proto) "").
  - change (KeyValueFromProto proto true) with (KeyValueFromProto (mkStoreKeyValue (skv_KeyPeerId proto) (skv_Value proto)
      (skv_IdentitySignature proto) (skv_PeerSignature proto) "") true) in Hkv.
    unfold allowedRows. simpl. rewrite Hkv. simpl. by rewrite Hal.
  - unfold kv_Proto. simpl. by rewrite (de_KeyPeerId _ _ Hd), (de_Value _ _ Hd).
Qed.

Lemma decodeRows_app protos protos' : decodeRows (protos ++ protos') = decodeRows protos ++ decodeRows protos'.
Proof.
  induction protos as [|p protos IH]; [done|]. simpl. destruct (KeyValueFromProto p true); [|done]. by rewrite IH.
Qed.
Lemma allowedRows_app a protos protos' : allowedRows a (protos ++ protos') = allowedRows a protos ++ allowedRows a protos'.
Proof. unfold allowedRows. by rewrite decodeRows_app, omap_app. Qed.

(** ** Receiving rows *)

Lemma recvRows_cons m msgs batch :
  recvRows (m :: msgs) batch =
  if decide (skv_KeyPeerId m = "") then SetRaw (TA:=TA) (C:=C) batch
  else if (applyBatchSize <=? length (batch ++ [m]))%nat then SetRaw (batch ++ [m]) ;; recvRows msgs []
  else recvRows msgs (batch ++ [m]).
Proof. done. Qed.

Lemma recvRows_refines vs msgs batch c c' :
  store_ok vs (sg_inner c) -> advertisesOnly (sg_inner c) ->
  rows_ok (vs ++ allowedRows (sg_aclList c) (batch ++ msgs)) ->
  Forall (fun v => hd_storable (kv_KeyPeerId v)) (allowedRows (sg_aclList c) (batch ++ msgs)) ->
  Forall (fun m => skv_KeyPeerId m <> "") msgs ->
  recvRows (msgs ++ [endOfStream]) batch c = (c', Ok tt) ->
  store_ok (vs ++ allowedRows (sg_aclList c) (batch ++ msgs)) (sg_inner c').
Proof.
  intros Hs Hadv Hok Hst Hne. revert vs batch c Hs Hadv Hok Hst.
  induction Hne as [|m msgs Hm Hne IH]; intros vs batch c Hs Hadv Hok Hst Hrun;
    rewrite ?app_nil_l, <- ?app_comm_cons, recvRows_cons in Hrun.
  - rewrite app_nil_r in *. by eapply SetRaw_refines.
  - rewrite decide_False in Hrun by done. replace (batch ++ m :: msgs) with ((batch ++ [m]) ++ msgs) in *
      by by rewrite <- app_assoc.
    destruct (applyBatchSize <=? _)%nat.
    + apply st_bind_Ok in Hrun as (c1 & [] & Hset & Hrun). rewrite allowedRows_app, app_assoc in *.
      rewrite Forall_app in Hst. destruct Hst as [Hst1 Hst2].
      destruct (SetRaw_refines vs (batch ++ [m]) c c1) as (Hs1 & Hadv1 & Hacl); [done|done| |done|done|].
      { eapply rows_ok_sub; [|exact Hok]. intros v Hv. apply elem_of_app. by left. }
      rewrite <- Hacl. rewrite <- Hacl in Hs1, Hok, Hst2. eapply (IH _ [] c1); [done..|exact Hrun].
    + by eapply IH.
Qed.
(** ** Serving rows *)

Lemma recvRequests_ids msgs rest save send :
  Forall (fun m => skv_KeyPeerId m <> "") msgs ->
  exists save' send', recvRequests (msgs ++ rest) save send = recvRequests rest save' send' /\
    (forall id, id ∈ send -> id ∈ send') /\
    (forall m, m ∈ msgs -> skv_Value m = "" -> skv_KeyPeerId m ∈ send').
Proof.
  intros Hne. revert save send. induction Hne as [|m msgs Hm Hne IH]; intros save send.
  - exists save, send. split_and!; [done|done|by intros ? ?%not_elem_of_nil].
  - simpl. rewrite decide_False by done. destruct (decide (skv_Value m <> "")) as [Hv|Hv].
    + destruct (IH (save ++ [m]) send) as (save' & send' & -> & Hs & Ha). exists save', send'. split_and!; [done|done|].
      intros m' [->|Hm']%elem_of_cons He; [done|auto].
    + destruct (IH save (send ++ [skv_KeyPeerId m])) as (save' & send' & -> & Hs & Ha). exists save', send'. split_and!; [done| |].
      * intros id Hid. apply Hs, elem_of_app. by left.
      * intros m' [->|Hm']%elem_of_cons He; [|auto]. apply Hs, elem_of_app. right. by left.
Qed.

Abbreviation readable s := (forall id, exists o, db_FindId (kvs_db (sg_inner s)) id = Ok o).

Lemma GetKeyPeerId_docs s id :
  db_wf (kvs_db (sg_inner s)) -> readable s -> GetKeyPeerId (sg_inner s) id = Ok (option_map keyValueFromDoc (docsIn s !! id)).
Proof.
  intros Hwf Hr. destruct (Hr id) as [o Ho]. unfold GetKeyPeerId. rewrite Ho. simpl.
  by rewrite (db_FindId_law _ _ _ Hwf Ho).
Qed.

Lemma sendRows_docs s ids sent :
  db_wf (kvs_db (sg_inner s)) -> readable s ->
  sendRows s (fun _ => None) ids sent =
  (sent ++ omap (fun id => (fun d => kv_Proto (keyValueFromDoc d)) <$> docsIn s !! id) ids, Ok tt).
Proof.
  intros Hwf Hr. revert sent. induction ids as [|id ids IH]; intros sent; [simpl; by rewrite app_nil_r|].
  cbn [sendRows]. rewrite GetKeyPeerId_docs by done. csimpl. destruct (docsIn s !! id) as [d|]; simpl; rewrite IH; [|done].
  by rewrite <- app_assoc.
Qed.

(** The replies to a request: the rows of the ids asked for, and the end of the stream. *)
Lemma served_replies spaceId s pushed ids :
  db_wf (kvs_db (sg_inner s)) -> readable s -> Forall (fun m => skv_KeyPeerId m <> "") pushed -> Forall (fun id => id <> "") ids ->
  exists asked,
    peer_StoreElements (servedBy spaceId s) ([spaceMessage spaceId] ++ pushed ++ List.map rowRequest ids ++ [endOfStream]) =
      Ok (omap (fun id => (fun d => kv_Proto (keyValueFromDoc d)) <$> docsIn s !! id) asked ++ [endOfStream]) /\
    forall id, id ∈ ids -> id ∈ asked.
Proof.
  intros Hwf Hr Hp Hi. simpl. rewrite bool_decide_eq_false_2 by (intros Hne; by apply Hne). simpl. unfold HandleStoreElementsRequest.
  destruct (recvRequests_ids (pushed ++ List.map rowRequest ids) [endOfStream] [] [])
    as (save & send & Hrecv & _ & Hin).
  { apply Forall_app. split; [done|]. clear -Hi. by induction Hi; constructor. }
  rewrite <- app_assoc in Hrecv. rewrite Hrecv. simpl.
  rewrite sendRows_docs by done. simpl.
  exists (sortIdsNewestFirst (kvs_diff (sg_inner s)) send). split.
  - by destruct (SetRaw save s) as [s' [[]|e]].
  - intros id Hid. unfold sortIdsNewestFirst. rewrite merge_sort_Permutation.
    apply (Hin (rowRequest id)); [|done]. apply elem_of_app. right. apply list_elem_of_In, in_map_iff.
    exists id. split; [done|]. by apply list_elem_of_In.
Qed.

Lemma pushRows_ids c ids msgs vs :
  store_ok vs (sg_inner c) -> Forall (fun v => kv_KeyPeerId v <> "") vs -> pushRows c ids = Ok msgs ->
  Forall (fun m => skv_KeyPeerId m <> "") msgs.
Proof.
  intros [Hwf Hd _] Hne. revert msgs. induction ids as [|id ids IH]; intros msgs Hrun; simpl in Hrun.
  - injection Hrun as <-. constructor.
  - apply res_bind_Ok in Hrun as (kv & Hkv & Hrun). apply res_bind_Ok in Hrun as (ms & Hms & Hrun).
    specialize (IH _ Hms). destruct kv as [kv|]; injection Hrun as <-; [|done]. constructor; [|done].
    unfold GetKeyPeerId in Hkv. apply res_bind_Ok in Hkv as (o & Ho & [= Hkv]). apply db_FindId_law in Ho; [|done].
    destruct o as [d|]; [|done]. injection Hkv as <-. symmetry in Ho. apply Hd in Ho as (v & [[Hv _] _] & _ & ->). simpl.
    rewrite Forall_forall in Hne. by apply Hne.
Qed.

(** ** The pull *)

(** Two peers that can exchange rows: stores of the rows [vs1] and [vs2], with up-to-date
    diffs that do not collide, and rows the client's list allows. *)
Record syncable vs1 vs2 c s : Prop := mkSyncable {
  sy_client : store_ok vs1 (sg_inner c);
  sy_server : store_ok vs2 (sg_inner s);
  sy_clientDiff : advertises (sg_inner c);
  sy_serverDiff : advertises (sg_inner s);
  sy_clientRanges : container_ok (diffIn c);
  sy_serverRanges : container_ok (diffIn s);
  sy_collision : no_collision (diffIn c) (diffIn s);
  sy_factor : d_divideFactor (diffIn s) = d_divideFactor (diffIn c);
  sy_threshold : d_compareThreshold (diffIn s) = d_compareThreshold (diffIn c);
  sy_size : counts_fit (diffIn s);
  sy_rows : rows_ok (vs1 ++ vs2);
  sy_ids : Forall (fun v => kv_KeyPeerId v <> "") vs1;
  sy_storable : Forall (fun v => storable (kv_KeyPeerId v)) vs2;
  sy_authentic : Forall (authentic (sg_aclList c)) vs2;
  sy_readable : readable s;
}.

(** Every row the server keeps is asked for, or the client has one that is not older. *)
Lemma wanted_or_outdone vs1 vs2 c s news theirChanged k :
  syncable vs1 vs2 c s ->
  (forall id, id ∈ news <-> is_Some (contents (diffIn s) !! id) /\ contents (diffIn c) !! id = None) ->
  (forall id, id ∈ theirChanged <-> theirs_greater (contents (diffIn c)) (contents (diffIn s)) id) ->
  kept vs2 k -> kv_KeyPeerId k ∈ theirChanged ++ news \/
    exists u, u ∈ vs1 /\ kv_KeyPeerId u = kv_KeyPeerId k /\ kv_TimestampMicro k <= kv_TimestampMicro u.
Proof.
  intros Hsy Hnew Hth Hk. destruct (sy_server _ _ _ _ Hsy) as [_ Hd2 _]. destruct (sy_client _ _ _ _ Hsy) as [_ Hd1 _].
  destruct (sy_clientDiff _ _ _ _ Hsy) as [_ Hc1]. destruct (sy_serverDiff _ _ _ _ Hsy) as [_ Hc2].
  change (hd_contents ?d) with (contents d) in Hc1, Hc2. pose proof (sy_rows _ _ _ _ Hsy) as Hok. pose proof Hk as [[Hkin _] _].
  assert (k ∈ vs1 ++ vs2) as Hkall by (apply elem_of_app; by right).
  assert (contents (diffIn s) !! kv_KeyPeerId k = Some (headOf (kv_TimestampMicro k))) as Hks.
  { rewrite Hc2. unfold headsOf. rewrite lookup_fmap. rewrite (proj2 (Hd2 (kv_KeyPeerId k) (kv_AnyEnc k))) by eauto.
    cbn. by rewrite f64_exact by by apply (ro_time _ Hok). }
  destruct (contents (diffIn c) !! kv_KeyPeerId k) as [h|] eqn:Hkc.
  - pose proof Hkc as Hkc'. rewrite Hc1 in Hkc'. unfold headsOf in Hkc'. rewrite lookup_fmap in Hkc'.
    apply fmap_Some in Hkc' as (d & Hd & ->). apply Hd1 in Hd as (u & [[Hu _] _] & Hid & ->).
    assert (u ∈ vs1 ++ vs2) as Huall by (apply elem_of_app; by left).
    rewrite (doc_t_exact _ _ Hok Huall) in Hkc. pose proof (ro_time _ Hok u Huall). pose proof (ro_time _ Hok k Hkall).
    destruct (decide (kv_TimestampMicro k <= kv_TimestampMicro u)) as [Hle|Hgt]; [right; eauto|left].
    apply elem_of_app. left. apply Hth. exists (headOf (kv_TimestampMicro u)), (headOf (kv_TimestampMicro k)).
    split_and!; [done|done|]. apply headOf_lt; lia.
  - left. apply elem_of_app. right. apply Hnew. eauto.
Qed.

(** With the rows that were asked for, the client's rows outdo all of the server's. *)
Lemma pulled_outdone vs1 vs2 us :
  rows_ok (vs1 ++ vs2) ->
  (forall k, kept vs2 k -> exists u, u ∈ us /\ u ∈ vs1 ++ vs2 /\ kv_KeyPeerId u = kv_KeyPeerId k /\ kv_TimestampMicro k <= kv_TimestampMicro u) ->
  Forall (outdone us) vs2.
Proof.
  intros Hok Hkept. assert (rows_ok vs2) as Hok2 by (eapply rows_ok_sub; [|exact Hok]; intros; apply elem_of_app; by right).
  assert (forall v, v ∈ vs2 -> v ∈ vs1 ++ vs2) as Hin2 by (intros; apply elem_of_app; by right).
  apply Forall_forall. intros v Hv. destruct (newest_exists vs2 v Hv) as (m & Hm & Hid). pose proof Hm as [Hmin Hmax].
  specialize (Hmax v Hv (eq_sym Hid)).
  destruct (decide (Exists (fun w => covers w (kv_Key m) (kv_TimestampMicro m)) vs2)) as [Hex|Hno].
  - right. apply Exists_exists in Hex. destruct (covered_by_kept vs2 _ _ Hok2 Hex) as (w & Hk & Hdp & Hp & Hlt).
    pose proof Hk as [[Hw _] _]. destruct (Hkept w Hk) as (u & Hu & Huall & Hidu & Hle).
    rewrite (ro_key _ Hok2 v m) by (done || congruence). exists u. split; [done|].
    assert (kv_DeletePrefix u <> "") as Hdu by (intros He; apply Hdp; by apply (ro_kind _ Hok u w); auto).
    split_and!; [done| |lia]. rewrite <- (ro_watermark _ Hok u), (ro_key _ Hok u w), (ro_watermark _ Hok w) by auto. done.
  - left. assert (kept vs2 m) as Hk.
    { split; [done|]. intros (w & Hw & Hc). apply Hno, Exists_exists. eauto. }
    destruct (Hkept m Hk) as (u & Hu & _ & Hidu & Hle). exists u. split_and!; [done|congruence|lia].
Qed.
Lemma allowedRows_elem a protos v : v ∈ allowedRows a protos <-> exists m, m ∈ protos /\ v ∈ allowedRows a [m].
Proof.
  induction protos as [|p protos IH]; [by split; [intros ?%not_elem_of_nil|intros (? & ?%not_elem_of_nil & _)]|].
  change (p :: protos) with ([p] ++ protos). rewrite allowedRows_app, elem_of_app, IH. split.
  - intros [Hv|(m & Hm & Hv)]; [exists p|exists m]; (split; [|done]); apply elem_of_app; [left; by left|by right].
  - intros (m & [->%list_elem_of_singleton|Hm]%elem_of_app & Hv); [by left|right; eauto].
Qed.

(** The rows the replies stand for. *)
Lemma replies_rows vs2 s a asked v :
  documents vs2 (docsIn s) -> Forall (authentic a) vs2 ->
  v ∈ allowedRows a (omap (fun id => (fun d => kv_Proto (keyValueFromDoc d)) <$> docsIn s !! id) asked) <->
  kept vs2 v /\ kv_KeyPeerId v ∈ asked.
Proof.
  intros Hd Hau. rewrite Forall_forall in Hau. rewrite allowedRows_elem. split.
  - intros (m & (id & Hid & Hm)%list_elem_of_omap & Hv). apply fmap_Some in Hm as (d & Hdoc & ->).
    apply Hd in Hdoc as (k & Hk & <- & ->). pose proof Hk as [[Hkin _] _].
    destruct (authentic_sent a k (Hau k Hkin)) as [Heq _]. rewrite Heq in Hv. by apply list_elem_of_singleton in Hv as ->.
  - intros [Hk Hid]. pose proof Hk as [[Hkin _] _]. exists (kv_Proto (keyValueFromDoc (kv_AnyEnc v))). split.
    + apply list_elem_of_omap. exists (kv_KeyPeerId v). split; [done|]. rewrite (proj2 (Hd (kv_KeyPeerId v) (kv_AnyEnc v))) by eauto. done.
    + destruct (authentic_sent a v (Hau v Hkin)) as [-> _]. by left.
Qed.

Lemma served_contents vs2 s id :
  documents vs2 (docsIn s) -> Forall (fun v => storable (kv_KeyPeerId v)) vs2 -> advertises (sg_inner s) ->
  is_Some (contents (diffIn s) !! id) -> id <> "".
Proof.
  intros Hd Hst [_ Hc] [h Hh]. change (hd_contents ?d) with (contents d) in Hc. rewrite Hc in Hh. unfold headsOf in Hh.
  rewrite lookup_fmap in Hh. apply fmap_Some in Hh as (d & Hdoc & _). apply Hd in Hdoc as (k & [[Hk _] _] & <- & _).
  rewrite Forall_forall in Hst. by destruct (Hst k Hk).
Qed.

Lemma pull_compared vs1 vs2 spaceId c s :
  syncable vs1 vs2 c s ->
  exists news changed theirChanged removed,
    CompareDiff 66 (fun _ => None) (diffIn c) (remoteRanges (HandleStoreDiffRequest s) spaceId) =
      Ok (news, changed, theirChanged, removed) /\
    (forall id, id ∈ news <-> is_Some (contents (diffIn s) !! id) /\ contents (diffIn c) !! id = None) /\
    (forall id, id ∈ theirChanged <-> theirs_greater (contents (diffIn c)) (contents (diffIn s)) id).
Proof.
  intros [_ _ _ _ Hrc Hrs Hcol Hf Ht Hsize _ _ _ _ _].
  destruct (CompareDiff_ok (diffIn c) (getRange (diffIn s)) (contents (diffIn c)) (contents (diffIn s))
    (exchange_containers _ _ Hrc Hrs Hcol Hf Ht)) as (news & changed & theirs & removed & Hcmp & Hnew & _ & Hth & _).
  exists news, changed, theirs, removed. split; [|done]. rewrite <- Hcmp. apply CompareDiff_remote.
  intros rs. by apply remoteRanges_served.
Qed.

Lemma syncWithPeer_run fuel ctx spaceId p c c' news changed theirs removed :
  CompareDiff fuel ctx (diffIn c) (remoteRanges (peer_StoreDiff p) spaceId) = Ok (news, changed, theirs, removed) ->
  syncWithPeer fuel ctx spaceId p c = (c', Ok tt) ->
  exists pushed replies, pushRows c (removed ++ changed) = Ok pushed /\
    peer_StoreElements p ([spaceMessage spaceId] ++ pushed ++ List.map rowRequest (theirs ++ news) ++ [endOfStream]) = Ok replies /\
    recvRows replies [] c = (c', Ok tt).
Proof.
  intros Hcmp Hrun. unfold syncWithPeer in Hrun. go_step Hrun. unfold lifts in Hrun0. injection Hrun0 as <- _.
  go_step Hrun. unfold calls in Hrun0. injection Hrun0 as <- Hids. rewrite Hcmp in Hids. injection Hids as <-.
  go_step Hrun. unfold calls in Hrun0. injection Hrun0 as <- Hpush. go_step Hrun. unfold lifts in Hrun0.
  injection Hrun0 as <- Hrep. by eauto.
Qed.

(** The rows of the replies complete the client's store. *)
Lemma pull_applies vs1 vs2 c c' s asked news theirs :
  syncable vs1 vs2 c s ->
  (forall id, id ∈ news <-> is_Some (contents (diffIn s) !! id) /\ contents (diffIn c) !! id = None) ->
  (forall id, id ∈ theirs <-> theirs_greater (contents (diffIn c)) (contents (diffIn s)) id) ->
  (forall id, id ∈ theirs ++ news -> id ∈ asked) ->
  recvRows (omap (fun id => (fun d => kv_Proto (keyValueFromDoc d)) <$> docsIn s !! id) asked ++ [endOfStream]) [] c = (c', Ok tt) ->
  store_ok (vs1 ++ vs2) (sg_inner c').
Proof.
  intros Hsy Hnew Hth Hin Hrun. pose proof Hsy as [Hc [Hwf Hd _] Hdc _ _ _ _ _ _ _ Hok _ Hst Hau _].
  set (msgs := omap _ asked) in *.
  assert (forall v, v ∈ allowedRows (sg_aclList c) msgs <-> kept vs2 v /\ kv_KeyPeerId v ∈ asked) as Hrows
    by (intros v; by apply replies_rows).
  set (R := allowedRows (sg_aclList c) msgs) in *.
  assert (forall v, v ∈ R -> v ∈ vs2) as HR by (intros v Hv; apply Hrows in Hv as [[[? _] _] _]; done).
  apply (recvRows_refines vs1) in Hrun; [|done|by apply advertises_only| | |].
  - rewrite app_nil_l in Hrun. fold R in Hrun. apply (store_ok_same ((vs1 ++ R) ++ vs2)).
    { intros v. rewrite !elem_of_app. naive_solver. }
    apply store_ok_absorb; [| |exact Hrun].
    { eapply rows_ok_sub; [|exact Hok]. intros v. rewrite !elem_of_app. naive_solver. }
    apply (pulled_outdone vs1); [done|]. intros k Hk.
    destruct (wanted_or_outdone vs1 vs2 c s news theirs k Hsy Hnew Hth Hk) as [Hw|(u & Hu & Hid & Hle)].
    + exists k. assert (k ∈ R) as HkR by (apply Hrows; auto). split_and!; [apply elem_of_app; by right| |done|done].
      apply elem_of_app. right. auto.
    + exists u. split_and!; [apply elem_of_app; by left|apply elem_of_app; by left|done|done].
  - eapply rows_ok_sub; [|exact Hok]. intros v. rewrite app_nil_l. fold R. rewrite !elem_of_app. naive_solver.
  - rewrite app_nil_l. fold R. rewrite Forall_forall in Hst |- *. intros v Hv. by apply Hst, HR.
  - apply Forall_forall. intros m (id & _ & Hm)%list_elem_of_omap. apply fmap_Some in Hm as (d & Hdoc & ->).
    apply Hd in Hdoc as (k & [[Hk _] _] & _ & ->). rewrite Forall_forall in Hau. by destruct (authentic_sent _ _ (Hau k Hk)).
Qed.

End pull.
