(* ===== verification/KeyValueExample.v ===== *)
(** Concrete key-value stores: a database in memory, two devices of alice, and the theorems
    on key-value stores applied to them; and runs that show where replicas part. *)

From Stdlib Require Import ZArith Lia String Ascii.
From stdpp Require Import base option list gmap strings sorting.
From S2P Require Import Prelude Crypto AclModels AclState AclValidator AclApply AclSpec AclRefine.
From S2P Require Import AclExample AclStorage AclKeep AclList AclListInv AclListMain AclListSync.
From S2P Require Import Ldiff LdiffRanges LdiffExchange LdiffMain LdiffCompare HeadDiff.
From S2P Require Import KeyValue KeyValueInv KeyValueMain KeyValueDiff.
From S2P Require Import ChangeBuilder ToyCodec TreeBuild KeyValueStore KeyValueRaw KeyValuePull.

Local Open Scope Z_scope.
Local Open Scope string_scope.

(** ** A database *)

Record mapDb := mkMapDb { md_docs : gmap string KvDoc; md_heads : gmap string string; md_failing : bool }.

Definition idLe (a b : KvDoc) : Prop := String.leb (doc_id a) (doc_id b) = true.
#[local] Instance idLe_dec a b : Decision (idLe a b).
Proof. unfold idLe. apply _. Defined.
#[local] Instance idLe_total : Total idLe.
Proof. intros a b. unfold idLe. rewrite <- !Is_true_true. apply (total String.le). Qed.
#[local] Instance idLe_trans : Transitive idLe.
Proof. intros a b c. unfold idLe. rewrite <- !Is_true_true. apply (transitivity (R:=String.le)). Qed.

Definition listDocs (c : mapDb) : list KvDoc := (map_to_list (md_docs c)).*2.

#[global] Instance mapDb_ops : KvDb mapDb := {|
  db_FindId c id := Ok (md_docs c !! id);
  db_All c := Ok (listDocs c);
  db_From c p := Ok (merge_sort idLe (filter (fun d => String.leb p (doc_id d) = true) (listDocs c)));
  db_UpsertOne d c := (mkMapDb (<[doc_id d := d]> (md_docs c)) (md_heads c) (md_failing c), Ok tt);
  db_DeleteId id c := (mkMapDb (delete id (md_docs c)) (md_heads c) (md_failing c), Ok tt);
  db_UpdateHeads n h c := (mkMapDb (md_docs c) (<[n := h]> (md_heads c)) (md_failing c), Ok tt);
  db_WriteTx c := Ok tt;
  db_Commit c := if md_failing c then Err (GoError "disk is full") else Ok tt;
|}.

#[global] Instance mapDb_laws : KvDbLaws mapDb.
Proof.
  refine {| db_docs := md_docs; db_wf c := map_Forall (fun id d => doc_id d = id) (md_docs c) |}.
  - intros c id d Hwf Hd. by apply Hwf in Hd.
  - by intros c id o _ [= <-].
  - by intros c l _ [= <-].
  - intros c p l Hwf [= <-]. split_and!.
    + by apply (StronglySorted_merge_sort idLe).
    + rewrite merge_sort_Permutation. apply NoDup_filter. unfold listDocs.
      apply (NoDup_fmap_1 doc_id). replace (doc_id <$> _) with ((map_to_list (md_docs c)).*1); [apply NoDup_fst_map_to_list|].
      rewrite <- list_fmap_compose. apply list_fmap_ext. intros i [id d] Hi. apply list_elem_of_lookup_2 in Hi.
      apply elem_of_map_to_list in Hi. simpl. by apply Hwf in Hi.
    + intros d. rewrite merge_sort_Permutation, list_elem_of_filter. unfold listDocs. rewrite list_elem_of_fmap. split.
      * intros [Hp ([id d'] & -> & Hin)]. apply elem_of_map_to_list in Hin. simpl in *. pose proof (Hwf _ _ Hin) as Hid. simpl in Hid. by subst id.
      * intros [Hd Hp]. split; [done|]. exists (doc_id d, d). split; [done|]. by apply elem_of_map_to_list.
  - intros d c c' Hwf [= <-]. split; [|done]. by apply map_Forall_insert_2.
  - intros id c c' Hwf [= <-]. split; [|done]. by apply map_Forall_delete.
  - intros n h c c' Hwf [= <-]. done.
Defined.

Definition noDb : mapDb := mkMapDb ∅ ∅ false.

(** ** Checking rows *)

#[local] Instance Value_eq_dec : EqDecision Value.
Proof. solve_decision. Defined.
#[local] Instance KvDoc_eq_dec : EqDecision KvDoc.
Proof. solve_decision. Defined.

Definition rows_okb (vs : list KeyValue) : bool :=
  forallb (fun v => (0 <=? kv_TimestampMicro v)%Z && (kv_TimestampMicro v <=? 2 ^ 53)%Z &&
    String.prefix (kv_Key v) (kv_KeyPeerId v) &&
    bool_decide (kv_DeletePrefix v = "" \/ kv_Key v = kv_DeletePrefix v) &&
    forallb (fun v' => bool_decide (kv_KeyPeerId v <> kv_KeyPeerId v' \/
      (kv_Key v = kv_Key v' /\ (kv_DeletePrefix v = "" -> kv_DeletePrefix v' = "") /\
       (kv_TimestampMicro v = kv_TimestampMicro v' -> kv_AnyEnc v = kv_AnyEnc v')))) vs) vs.

Lemma rows_okb_ok vs : rows_okb vs = true -> rows_ok vs.
Proof.
  unfold rows_okb. rewrite forallb_forall. intros Hall.
  assert (forall v, v ∈ vs -> 0 <= kv_TimestampMicro v <= 2 ^ 53 /\ String.prefix (kv_Key v) (kv_KeyPeerId v) = true /\
    (kv_DeletePrefix v = "" \/ kv_Key v = kv_DeletePrefix v) /\
    forall v', v' ∈ vs -> kv_KeyPeerId v <> kv_KeyPeerId v' \/
      (kv_Key v = kv_Key v' /\ (kv_DeletePrefix v = "" -> kv_DeletePrefix v' = "") /\
       (kv_TimestampMicro v = kv_TimestampMicro v' -> kv_AnyEnc v = kv_AnyEnc v'))) as Hv.
  { intros v Hv%list_elem_of_In. specialize (Hall v Hv). rewrite !andb_true_iff, forallb_forall in Hall.
    destruct Hall as [[[[H1 H2] H3] H4] H5]. split_and!; [lia..|done|by apply bool_decide_eq_true in H4|].
    intros v' Hv'%list_elem_of_In. specialize (H5 v' Hv'). by apply bool_decide_eq_true in H5. }
  split.
  - intros v Hin. by destruct (Hv v Hin).
  - intros v Hin. by destruct (Hv v Hin) as (_ & ? & _).
  - intros v Hin Hdp. by destruct (Hv v Hin) as (_ & _ & [?|?] & _).
  - intros v v' Hin Hin' Hid. destruct (Hv v Hin) as (_ & _ & _ & Hp). by destruct (Hp v' Hin') as [?|(? & _)].
  - intros v v' Hin Hin' Hid. destruct (Hv v Hin) as (_ & _ & _ & Hp). by destruct (Hp v' Hin') as [?|(_ & ? & _)].
  - intros v v' Hin Hin' Hid. destruct (Hv v Hin) as (_ & _ & _ & Hp). by destruct (Hp v' Hin') as [?|(_ & _ & ?)].
Qed.

(** ** Codec *)

#[global] Instance toyKvCodec : KvCodec := {|
  StoreKeyInner_UnmarshalVT := message (fun '(a, b, c, d, e, f, g) => mkStoreKeyInner a b c d e f g);
  StoreKeyInner_MarshalVT m := Ok (ser (ski_Peer m, ski_Identity m, ski_Value m, ski_TimestampMicro m, ski_AclHeadId m,
    ski_Key m, ski_DeletePrefix m));
  PubKey_Account := pubKey;
  PubKey_PeerId := pubKey;
|}.
#[global] Instance toyKvStoreCodec : KvStoreCodec := {|
  StoreKeyValues_UnmarshalVT :=
    message (fun l : list (string * string * string * string) => List.map (fun '(a, b, c, d) => mkStoreKeyValue a b c d "") l);
|}.

#[local] Existing Instances ldiff_HeadDiff ldiff_HeadDiffLaws.

(** ** Rows of alice *)

Abbreviation exKv := (storage inMemoryStorage mapDb diff).
Abbreviation exInner := (kvStorage mapDb diff).

Definition exKvAcl : aclList inMemoryStorage := exListOf ["r1"; "r2"; "r3"].

(** A row written on a device. *)
Definition exMessage (device author : string) (t : Z) (key value prefix : string) : StoreKeyValue :=
  match ownRow (privOf device) (privOf author) t key value prefix "r3" "" with
  | Ok kv => kv_Proto kv
  | Err _ => endOfStream
  end.
Definition exRows (msgs : list StoreKeyValue) : list KeyValue := allowedRows exKvAcl msgs.

Definition exEmpty : exInner := match loadStorage "default" noDb with Ok s => s | Err _ => mkKvStorage exOurs noDb "" ∅ end.
Definition exStore (batches : list (list KeyValue)) : exInner := fold_left (fun s b => fst (Set_rows b s)) batches exEmpty.
Definition exDevice (device : string) (inner : exInner) : exKv :=
  mkStorage inner (privOf device) (privOf alice) exKvAcl true "default" ∅ None [].

(** Device [m] wrote [aa] and [bb] and deleted the prefix [a]; device [n] wrote [cc] and, before, [ab]. *)
Definition exA1 := exMessage "m" alice 100 "aa" "one" "".
Definition exB1 := exMessage "m" alice 110 "bb" "two" "".
Definition exDel := exMessage "m" alice 150 "a" "" "a".
Definition exC1 := exMessage "n" alice 120 "cc" "three" "".
Definition exA2 := exMessage "n" alice 130 "ab" "four" "".

Example exRows_len : length (exRows [exA1; exB1; exDel; exC1; exA2]) = 5%nat.
Proof. vm_compute. reflexivity. Qed.

(** ** Replicas *)

Definition went_through {S A} (x : S * res A) : bool := match x.2 with Ok _ => true | Err _ => false end.

Lemma went_through_run {S A} (x : S * res A) : went_through x = true -> exists a, x = (x.1, Ok a).
Proof. destruct x as [s [a|e]]; [|done]. by exists a. Qed.

Fixpoint batches_ok (batches : list (list KeyValue)) (s : exInner) : bool :=
  match batches with
  | [] => true
  | b :: batches => went_through (Set_rows b s) && batches_ok batches (Set_rows b s).1
  end.

Lemma batches_replica batches vs s :
  replica vs s -> batches_ok batches s = true ->
  replica (vs ++ concat batches)%list (fold_left (fun s b => fst (Set_rows b s)) batches s).
Proof.
  revert vs s. induction batches as [|b batches IH]; intros vs s Hr Hok; simpl in *; [by rewrite app_nil_r|].
  apply andb_true_iff in Hok as [Hb Hok]. rewrite app_assoc. apply IH; [|done].
  apply went_through_run in Hb as [r Hb]. by eapply replica_set.
Qed.

Lemma exStore_replica batches : batches_ok batches exEmpty = true -> replica (concat batches) (exStore batches).
Proof.
  intros Hok. apply (batches_replica batches []); [|done]. apply (replica_new "default" noDb).
  - apply map_Forall_empty.
  - done.
  - vm_compute. reflexivity.
Qed.

Definition exForwardMsgs := [[exA1; exB1]; [exC1]; [exA2; exDel]].
Definition exBackwardMsgs := [[exDel; exA2]; [exC1; exC1]; [exB1]; [exA1]].
Definition exForward : list (list KeyValue) := List.map exRows exForwardMsgs.
Definition exBackward : list (list KeyValue) := List.map exRows exBackwardMsgs.

Lemma exRows_concat msgs v : v ∈ concat (List.map exRows msgs) <-> exists m, m ∈ concat msgs /\ v ∈ exRows [m].
Proof.
  unfold exRows. rewrite <- (allowedRows_elem exKvAcl (concat msgs) v). induction msgs as [|b msgs IH]; [done|].
  simpl. by rewrite allowedRows_app, !elem_of_app, IH.
Qed.

Lemma kv_converges_witness :
  let s := exStore exForward in let s' := exStore exBackward in
  db_docs (kvs_db s) = db_docs (kvs_db s') /\
  (forall id d, db_docs (kvs_db s) !! id = Some d <-> exists v, kept (concat exForward) v /\ kv_KeyPeerId v = id /\ d = kv_AnyEnc v) /\
  (forall key t, 0 <= t -> coveredBy (kvs_watermarks s) key t = coveredBy (kvs_watermarks s') key t).
Proof.
  apply (kv_converges (concat exForward) (concat exBackward) (exStore exForward) (exStore exBackward)).
  - apply rows_okb_ok. vm_compute. reflexivity.
  - intros v. unfold exForward, exBackward. rewrite !exRows_concat.
    assert (forall m, m ∈ concat exForwardMsgs <-> m ∈ concat exBackwardMsgs) as Hm; [|by setoid_rewrite Hm].
    intros m. unfold exForwardMsgs, exBackwardMsgs. generalize exA1 exA2 exB1 exC1 exDel. intros.
    simpl. rewrite !elem_of_cons. tauto.
  - apply exStore_replica. vm_compute. reflexivity.
  - apply exStore_replica. vm_compute. reflexivity.
Defined.

(** ** The diff *)

Lemma exStore_ok batches : rows_okb (concat batches) = true -> batches_ok batches exEmpty = true ->
  store_ok (concat batches) (exStore batches).
Proof. intros Hok Hb. apply replica_ok; [by apply exStore_replica|by apply rows_okb_ok]. Qed.

(** Every check of a concrete container is a computation. *)
#[local] Instance key_ok_dec e : Decision (key_ok e).
Proof. unfold key_ok. apply _. Defined.
#[local] Instance no_collision_dec d1 d2 : Decision (no_collision d1 d2).
Proof.
  unfold no_collision. apply map_Forall_dec. intros t rng1. destruct (hrs_ranges (d_ranges d2) !! t); apply _.
Defined.

Lemma run_advertises (s : exInner) :
  sortedb (d_sl (kvs_diff s)) = true -> bool_decide (Forall key_ok (d_sl (kvs_diff s))) = true ->
  bool_decide (contents (kvs_diff s) = headsOf (db_docs (kvs_db s))) = true -> advertises s.
Proof.
  intros Hs Hk Hc. apply bool_decide_eq_true in Hk, Hc. split; [|done]. split; [by apply sortedb_sorted|done].
Qed.

Ltac run := vm_compute; reflexivity.

Definition exServerBatches : list (list KeyValue) := List.map exRows [[exA1; exB1]; [exDel]].
Definition exClientBatches : list (list KeyValue) := List.map exRows [[exC1; exA2]].
Definition exServer : exKv := exDevice "m" (exStore exServerBatches).
Definition exClient : exKv := exDevice "n" (exStore exClientBatches).

Lemma storable_rows vs :
  forallb (fun v => bool_decide (storable (kv_KeyPeerId v))) vs = true -> Forall (fun v => storable (kv_KeyPeerId v)) vs.
Proof. rewrite forallb_forall. intros Hall. apply Forall_forall. intros v Hv%list_elem_of_In. by eapply bool_decide_eq_true, Hall. Qed.

Fixpoint tidyb (us : list KeyValue) : bool :=
  match us with
  | [] => true
  | w :: us => (bool_decide (kv_DeletePrefix w = "") || forallb (fun v => negb (String.prefix (kv_DeletePrefix w) (kv_Key v))) us) && tidyb us
  end.
Lemma tidyb_ok us : tidyb us = true -> tidy us.
Proof.
  induction us as [|w us IH]; [done|]. simpl. rewrite andb_true_iff, orb_true_iff, bool_decide_eq_true, forallb_forall.
  intros [Hw Ht]. split; [|auto]. intros Hdp. destruct Hw as [?|Hw]; [done|]. apply Forall_forall.
  intros v Hv%list_elem_of_In. by apply negb_true_iff, Hw.
Qed.

Lemma kv_diff_agrees_witness : advertises (Set_rows (exRows [exA2; exDel]) (exStore exServerBatches)).1.
Proof.
  destruct (went_through_run (Set_rows (exRows [exA2; exDel]) (exStore exServerBatches))) as [r Hr]; [run|].
  apply (kv_diff_agrees (concat exServerBatches) (exRows [exA2; exDel]) (exStore exServerBatches) _ r).
  - apply exStore_ok; run.
  - apply rows_okb_ok. run.
  - apply storable_rows. run.
  - apply tidyb_ok. run.
  - apply run_advertises; run.
  - exact Hr.
Defined.

(** A device whose disk is full. *)
Definition exFull : exInner :=
  let s := exStore exServerBatches in
  mkKvStorage (kvs_diff s) (mkMapDb (md_docs (kvs_db s)) (md_heads (kvs_db s)) true) (kvs_storageName s) (kvs_watermarks s).

Lemma kv_set_atomic_witness :
  let s' := (Set_rows (exRows [exC1; exDel]) exFull).1 in
  (Set_rows (exRows [exC1; exDel]) exFull).2 = Err (GoError "disk is full") /\
  kvs_db s' = kvs_db exFull /\ kvs_watermarks s' = kvs_watermarks exFull /\ advertises s'.
Proof.
  assert ((Set_rows (exRows [exC1; exDel]) exFull).2 = Err (GoError "disk is full")) as He by run.
  split; [exact He|].
  apply (kv_set_atomic (exRows [exC1; exDel]) exFull _ "disk is full").
  - assert (map_Forall (fun id d => doc_id d = id) (md_docs (kvs_db exFull))) as Hwf.
    { apply (bool_decide_unpack _). vm_compute. exact I. }
    exact Hwf.
  - assert (map_Forall (fun id (_ : KvDoc) => storable id) (db_docs (kvs_db exFull))) as Hst.
    { apply (bool_decide_unpack _). vm_compute. exact I. }
    intros id doc Hd. exact (Hst id doc Hd).
  - apply storable_rows. run.
  - apply run_advertises; run.
  - rewrite <- He. apply surjective_pairing.
Defined.

(** ** A pull *)

Lemma exRows_authentic msgs : Forall (authentic exKvAcl) (concat (List.map exRows msgs)).
Proof.
  apply Forall_forall. intros v (m & _ & Hv)%exRows_concat. unfold exRows, allowedRows in Hv.
  apply list_elem_of_omap in Hv as (kv & (proto & _ & Hp)%decodeRows_elem & Hal). by exists proto, kv.
Qed.

(** A container none of whose ranges has to be cut. *)
Definition container_smallb (d : diff) : bool :=
  sortedb (d_sl d) && bool_decide (Forall key_ok (d_sl d)) && (2 <=? d_divideFactor d)%Z && (1 <=? d_compareThreshold d)%Z &&
  match hrs_ranges (d_ranges d) !! topTuple with Some _ => true | None => false end &&
  forallb (fun x => (hr_elements x.2 =? countIn d x.1)%Z && (bool_decide (hr_hash x.2 <> "") || (hr_elements x.2 =? 0)%Z) &&
    (hr_elements x.2 <=? d_compareThreshold d)%Z) (map_to_list (hrs_ranges (d_ranges d))).

Lemma container_small d : container_smallb d = true -> container_ok d.
Proof.
  unfold container_smallb. rewrite !andb_true_iff. intros (((((Hs & Hk) & Hf) & Ht) & Htop) & Hall).
  rewrite forallb_forall in Hall.
  assert (map_Forall (fun t rng => countIn d t <= hr_elements rng /\ (hr_hash rng = "" -> countIn d t = 0) /\
    hr_elements rng <= d_compareThreshold d) (hrs_ranges (d_ranges d))) as Hm.
  { intros t rng Hr. apply elem_of_map_to_list, list_elem_of_In, Hall in Hr. simpl in Hr.
    rewrite !andb_true_iff, orb_true_iff, bool_decide_eq_true in Hr. destruct Hr as [[Hc Hz] Hle].
    split_and!; [lia| |lia]. intros He. destruct Hz; [done|lia]. }
  split; [split; [by apply sortedb_sorted|by apply bool_decide_eq_true in Hk]|lia|lia| | |].
  - destruct (_ !! topTuple); [by eexists|done].
  - intros t rng Hr. destruct (Hm t rng Hr) as (? & ? & _). done.
  - intros t rng Hr Hlt. destruct (Hm t rng Hr) as (_ & _ & ?). lia.
Qed.

Lemma exClient_ranges : container_ok (kvs_diff (exStore exClientBatches)).
Proof. apply container_small. run. Qed.
Lemma exServer_ranges : container_ok (kvs_diff (exStore exServerBatches)).
Proof. apply container_small. run. Qed.

Lemma exSyncable : syncable (concat exClientBatches) (concat exServerBatches) exClient exServer.
Proof.
  split.
  - apply exStore_ok; run.
  - apply exStore_ok; run.
  - apply run_advertises; run.
  - apply run_advertises; run.
  - exact exClient_ranges.
  - exact exServer_ranges.
  - apply (bool_decide_unpack _). vm_compute. exact I.
  - run.
  - run.
  - counts_solve.
  - apply rows_okb_ok. run.
  - assert (forall vs, forallb (fun v => bool_decide (kv_KeyPeerId v <> "")) vs = true -> Forall (fun v => kv_KeyPeerId v <> "") vs) as Hall.
    { intros vs Hvs. rewrite forallb_forall in Hvs. apply Forall_forall. intros v Hv%list_elem_of_In. by eapply bool_decide_eq_true, Hvs. }
    apply Hall. run.
  - apply storable_rows. run.
  - apply exRows_authentic.
  - intros id. by eexists.
Qed.

Definition exPulled : exKv := (syncWithPeer 66 (fun _ => None) "space" (servedBy "space" exServer) exClient).1.

(** The client has now [bb], [cc] and the watermark, and neither [aa] nor [ab]. *)
Example exPulled_keys : List.map doc_k (listDocs (kvs_db (sg_inner exPulled))) = ["cc"; "a"; "bb"].
Proof. run. Qed.


(** A forged row among genuine ones. *)
Definition exForged : StoreKeyValue :=
  mkStoreKeyValue (skv_KeyPeerId exB1) (skv_Value exB1) (skv_IdentitySignature exA1) (skv_PeerSignature exB1) "".
Definition exMixed : list StoreKeyValue := [exForged; exA1; exDel; exMessage "m" bob 300 "c" "" "c"].

Example exMixed_rows : List.map doc_k (listDocs (kvs_db (sg_inner (SetRaw exMixed exClient).1))) = ["cc"; "a"].
Proof. run. Qed.

Lemma kv_raw_vouched_witness :
  let s' := (SetRaw exMixed exClient).1 in
  (forall id d, db_docs (kvs_db (sg_inner s')) !! id = Some d -> db_docs (kvs_db (sg_inner exClient)) !! id = Some d \/
     exists v, vouched (sg_aclList exClient) exMixed v /\ d = kv_AnyEnc v) /\
  exists evs, sg_events s' = (sg_events exClient ++ evs)%list /\
    forall e v, e ∈ evs -> v ∈ eventRows e -> vouched (sg_aclList exClient) exMixed v.
Proof.
  apply (kv_raw_vouched exMixed exClient).
  - apply (so_wf (concat exClientBatches) (exStore exClientBatches)). apply exStore_ok; run.
  - assert ((SetRaw exMixed exClient).2 = Ok tt) as He by run. rewrite <- He. apply surjective_pairing.
Defined.

(** ** Where replicas part *)

(** A newer row that comes in the batch of the watermark that drops the older one is stored,
    and is missing in the diff: peers never learn of it. *)
Definition exNewer := exMessage "m" alice 200 "aa" "again" "".
Definition exLost : exInner := exStore (List.map exRows [[exA1]; [exDel; exNewer]]).
Lemma kv_diff_loses_row :
  let id := KeyPeerId "aa" (rep 32 "m") in
  option_map doc_t (md_docs (kvs_db exLost) !! id) = Some 200 /\
  Element_ (kvs_diff exLost) id = Err ErrElementNotFound.
Proof. split; run. Qed.

(** A peer that writes a value under the key of its own watermark replaces the watermark:
    a replica that sees the value first never applies the watermark, and a replica that
    applied it forgets it on its restart. *)
Definition exOverDel := exMessage "m" alice 200 "a" "value" "".
Definition exKeysOf (s : exInner) : list string := List.map doc_k (listDocs (kvs_db s)).
Lemma kv_watermark_forgotten :
  let before := exStore (List.map exRows [[exA2]; [exDel]; [exOverDel]]) in
  let after := exStore (List.map exRows [[exA2]; [exOverDel]; [exDel]]) in
  exKeysOf before = ["a"] /\ exKeysOf after = ["a"; "ab"] /\
  coveredBy (kvs_watermarks before) "ab" 130 = true /\
  match loadStorage "default" (kvs_db before) with
  | Ok restarted => coveredBy (kvs_watermarks restarted) "ab" 130 = false
  | Err _ => False
  end.
Proof. split_and!; run. Qed.

(** A time beyond 2^53 is rounded when it is stored: the row is applied again every time it
    is received. *)
Definition exLate := exMessage "m" alice (2 ^ 53 + 1) "cc" "late" "".
Lemma kv_late_row_reapplied :
  let s := exStore [exRows [exLate]] in
  match (Set_rows (exRows [exLate]) s).2 with
  | Ok r => length (sr_Applied r) = 1%nat
  | Err _ => False
  end.
Proof. run. Qed.

(** A negative time has a great head: a replica that got it keeps it, one that got a later
    row before refuses it. *)
Definition exNegative := exMessage "m" alice (-1) "cc" "past" "".
Definition exLater := exMessage "m" alice 5 "cc" "later" "".
Definition exTimes (s : exKv) : list Z := List.map doc_t (listDocs (kvs_db (sg_inner s))).
Definition exReceive (msgs : list StoreKeyValue) : exKv :=
  fold_left (fun s m => (SetRaw [m] s).1) msgs (exDevice "n" exEmpty).
Lemma kv_negative_time_diverges :
  exTimes (exReceive [exNegative; exLater]) = [-1] /\ exTimes (exReceive [exLater; exNegative]) = [5].
Proof. split; run. Qed.

(** Rows of an account that never was a member are taken. *)
Lemma kv_stranger_writes :
  Permissions (al_aclState exKvAcl) (pubOf dave) = AclPermissionsNone /\
  exTimes (exReceive [exMessage "m" dave 7 "cc" "stranger" ""]) = [7].
Proof. split; run. Qed.

(** The row of the empty key is left out of an iteration that finds another key. *)
Definition exNoKey := exMessage "m" alice 9 "" "no key" "".
Lemma kv_iterate_skips_empty_key :
  let s := exDevice "n" (exStore [exRows [exNoKey; exC1]]) in
  exKeysOf (sg_inner s) = ["cc"; ""] /\
  (kvIterate (fun key rows seen => ((seen ++ [key])%list, Ok true)) s []).1 = ["cc"].
Proof. split; run. Qed.
