(* ===== verification/AclBuild.v ===== *)
(** The record builder, building half
    (src/commonspace/object/acl/list/aclrecordbuilder.go): the payloads of the [Build...]
    methods, the content each method makes from the current state, the signing of a
    record and the check it passes before it leaves the builder, batches and the two
    kinds of root.

    A method reads the clock, draws random keys and seals with fresh randomness: the
    current time and the drawn keys are arguments, the sealed texts come from the
    primitives.  A key that is an interface value may be nil where the code tests it or
    a caller can leave it out: it is an [option], and a method called on [None] panics. *)

From Stdlib Require Import ZArith Lia String.
From stdpp Require Import base option list gmap strings.
From S2P Require Import Prelude Crypto AclModels AclState AclValidator AclApply AclStorage AclKeep AclList ChangeBuilder.

Local Open Scope Z_scope.

(** ** Payloads *)

Record ReadKeyChangePayload := mkReadKeyChangePayload {
  rkp_MetadataKey : option PrivKey;
  rkp_ReadKey : option SymKey;
}.

Record RootContent := mkRootContent {
  rcn_PrivKey : PrivKey;
  rcn_MasterKey : PrivKey;
  rcn_SpaceId : string;
  rcn_Change : ReadKeyChangePayload;
  rcn_Metadata : bytes;
  rcn_Options : option AclSpaceOptions;
}.

Record RequestJoinPayload := mkRequestJoinPayload {
  rjp_InviteKey : PrivKey;
  rjp_Metadata : bytes;
}.

Record InviteJoinPayload := mkInviteJoinPayload {
  ijp_InviteKey : PrivKey;
  ijp_Permissions : AclPermissions;
  ijp_Metadata : bytes;
}.

Record RequestAcceptPayload := mkRequestAcceptPayload {
  rap_RequestRecordId : string;
  rap_Permissions : AclPermissions;
}.

Record PermissionChangePayload := mkPermissionChangePayload {
  pcp_Identity : PubKey;
  pcp_Permissions : AclPermissions;
}.

Record InviteChangePayload := mkInviteChangePayload {
  icp_IniviteRecordId : string;
  icp_Permissions : AclPermissions;
}.

Record AccountAdd := mkAccountAdd {
  add_Identity : PubKey;
  add_Permissions : AclPermissions;
  add_Metadata : bytes;
}.

Record OwnershipChangePayload := mkOwnershipChangePayload {
  ocp_NewOwner : PubKey;
  ocp_OldOwnerPermissions : AclPermissions;
}.

Record AccountRemovePayload := mkAccountRemovePayload {
  arp_Identities : list PubKey;
  arp_Change : ReadKeyChangePayload;
}.

Record BatchRequestPayload := mkBatchRequestPayload {
  brp_Additions : list AccountAdd;
  brp_Changes : list PermissionChangePayload;
  brp_Removals : AccountRemovePayload;
  brp_Approvals : list RequestAcceptPayload;
  brp_Declines : list string;
  brp_InviteRevokes : list string;
  brp_InviteChanges : list InviteChangePayload;
  brp_NewInvites : list AclPermissions;
  brp_ReadKeyChange : option ReadKeyChangePayload;
}.

Record InviteResult := mkInviteResult {
  ir_InviteRec : RawRecord;
  ir_InviteKey : PrivKey;
}.

Record BatchResult := mkBatchResult {
  br_Rec : RawRecord;
  br_Invites : list PrivKey;
}.

Definition ErrReadKeyChangeNotAlone :=
  GoError "a batch read key change can only accompany invite revokes and declines".
Definition ErrIncorrectInviteKey := GoError "incorrect invite key".

(** ** Generated and third-party code the builder calls *)

(** The generated encoders of the messages a record is made of. *)
Class BuildCodec := {
  AclData_MarshalVT : AclData -> res bytes;
  AclRoot_MarshalVT : AclRoot -> res bytes;
  Record_MarshalVT : ConsensusRecord -> res bytes;
  RawRecord_MarshalVT : RawRecord -> res bytes;
}.

(** [EncryptX25519] for the curve25519 form of an ed25519 public key. *)
Class BoxPrims := { x25519_Encrypt : bytes -> bytes -> bytes }.

(** [x, err := f(); if err != nil { return nil, e }] *)
Definition or_error {A} (r : res A) (e : error) : res A :=
  match r with
  | Err (GoError _) => Err e
  | r => r
  end.

(** A method call on an interface value that may be nil. *)
Definition non_nil {A} (o : option A) : res A := opt_or o (GoPanic "nil pointer dereference").

Section build.
Context `{CryptoPrims} `{AclCodec} `{SharedKeyPrims} `{MapRange} `{ProtoWire} `{ListCodec}.
Context `{SealPrims} `{BuildCodec} `{BoxPrims}.
Implicit Types (a : aclRecordBuilder) (st : AclState).

(** [Ed25519PubKey.Encrypt], [Ed25519PrivKey.Marshall] *)
Definition PubKey_Encrypt (k : PubKey) (msg : bytes) : res bytes :=
  Point_SetBytes (pubKey k) ;;
  Ok (x25519_Encrypt (pubKey k) msg).
Definition PrivKey_Marshall (k : PrivKey) : res bytes :=
  Ok (Key_MarshalVT KeyType_Ed25519Private (privKey k)).

Definition builderState a : res AclState := non_nil (rb_state a).
Definition builderSignKey a : res PrivKey := non_nil (rb_accountKeys a).

(** ** Signing a record *)

(** Decode the record in full and apply it, as a new record, to a copy of the state. *)
Definition preflightCheck a (rawRecord : RawRecord) : res unit :=
  aclRec ← Unmarshall rawRecord;
  st ← builderState a;
  let cp := Copy (verifier_ShouldValidate (rb_verifier a)) st in
  let cp := set_contentValidator newAdmissionValidator cp in
  runs (ApplyRecord aclRec) cp ;;
  Ok tt.

Definition buildRecords (now : Z) a (aclContent : list AclContentValue) : res RawRecord :=
  marshalledData ← AclData_MarshalVT aclContent;
  signKey ← builderSignKey a;
  protoKey ← PubKey_Marshall (GetPublic signKey);
  st ← builderState a;
  marshalledRec ← Record_MarshalVT
    (mkConsensusRecord (st_lastRecordId st) protoKey marshalledData now);
  signature ← PrivKey_Sign signKey marshalledRec;
  let rawRec := mkRawRecord marshalledRec signature "" "" 0 in
  preflightCheck a rawRec ;;
  Ok rawRec.

Definition buildRecord (now : Z) a (aclContent : AclContentValue) : res RawRecord :=
  buildRecords now a [aclContent].

(** ** Contents *)

Definition buildPermissionChange st (perm : PermissionChangePayload)
    : res AclAccountPermissionChange :=
  fail_if (PubKey_Equals (pcp_Identity perm) (st_pubKey st)) ErrInsufficientPermissions ;;
  fail_if (IsOwner (pcp_Permissions perm)) ErrIsOwner ;;
  protoIdentity ← PubKey_Marshall (pcp_Identity perm);
  Ok (mkAclAccountPermissionChange protoIdentity (pcp_Permissions perm)).

Definition checkManages st : res unit :=
  fail_if (negb (CanManageAccounts (Permissions st (st_pubKey st)))) ErrInsufficientPermissions.

Definition buildPermissionChanges st (changes : list PermissionChangePayload)
    : res AclContentValue :=
  checkManages st ;;
  changes ← res_map (buildPermissionChange st) changes;
  Ok (CPermissionChanges changes).

(** The keys a batch supplies, or those of the state. *)
Definition metadataKeyOr st (mkKey : option PubKey) : res PubKey :=
  match mkKey with
  | Some k => Ok k
  | None => k ← CurrentMetadataKey st; non_nil k
  end.
Definition readKeyOr st (readKey : option SymKey) : res SymKey :=
  match readKey with
  | Some k => Ok k
  | None => k ← or_error (CurrentReadKey st) ErrNoReadKey; non_nil k
  end.

Definition buildAccountAdd st (mkKey : option PubKey) (readKey : option SymKey)
    (acc : AccountAdd) : res AclAccountAdd :=
  fail_if (negb (NoPermissions (Permissions st (add_Identity acc)))) ErrDuplicateAccounts ;;
  fail_if (IsOwner (add_Permissions acc)) ErrIsOwner ;;
  mkKey ← metadataKeyOr st mkKey;
  encMeta ← PubKey_Encrypt mkKey (add_Metadata acc);
  fail_if (bool_decide (MaxMetadataLen < String.length encMeta)%nat) ErrMetadataTooLarge ;;
  readKey ← readKeyOr st readKey;
  protoKey ← SymKey_Marshall readKey;
  enc ← PubKey_Encrypt (add_Identity acc) protoKey;
  protoIdentity ← PubKey_Marshall (add_Identity acc);
  Ok (mkAclAccountAdd protoIdentity (add_Permissions acc) encMeta enc).

Definition buildAccountsAdd st (additions : list AccountAdd) (mkKey : option PubKey)
    (readKey : option SymKey) : res AclContentValue :=
  accs ← res_map (buildAccountAdd st mkKey readKey) additions;
  Ok (CAccountsAdd accs).

(** [drawn] is the key pair [GenerateRandomEd25519KeyPair] returned. *)
Definition buildInvite st (drawn : res PrivKey) : res (PrivKey * AclContentValue) :=
  checkManages st ;;
  privKey ← drawn;
  invitePubKey ← PubKey_Marshall (GetPublic privKey);
  Ok (privKey, CInvite (mkAclAccountInvite invitePubKey AclInviteType_RequestToJoin
                          AclPermissionsNone None)).

Definition buildInviteChange st (inviteChange : InviteChangePayload) : res AclContentValue :=
  checkManages st ;;
  Ok (CInviteChange (mkAclAccountInviteChange (icp_IniviteRecordId inviteChange)
                       (icp_Permissions inviteChange))).

(** The invite carries the read key, encrypted for the invite's key. *)
Definition buildInviteAnyone st (drawn : res PrivKey) (permissions : AclPermissions)
    : res (PrivKey * AclContentValue) :=
  checkManages st ;;
  privKey ← drawn;
  let pubKey := GetPublic privKey in
  invitePubKey ← PubKey_Marshall pubKey;
  curReadKey ← CurrentReadKey st;
  curReadKey ← non_nil curReadKey;
  raw ← SymKey_Marshall curReadKey;
  encReadKey ← PubKey_Encrypt pubKey raw;
  Ok (privKey, CInvite (mkAclAccountInvite invitePubKey AclInviteType_AnyoneCanJoin permissions
                          (Some encReadKey))).

Definition buildInviteRevoke st (inviteRecordId : string) : res AclContentValue :=
  checkManages st ;;
  opt_or (st_invites st !! inviteRecordId) ErrNoSuchInvite ;;
  Ok (CInviteRevoke inviteRecordId).

(** The current read key is encrypted for the account that asked to join. *)
Definition buildRequestAccept st (payload : RequestAcceptPayload) (readKey : option SymKey)
    : res AclContentValue :=
  checkManages st ;;
  request ← opt_or (st_requestRecords st !! rap_RequestRecordId payload) ErrNoSuchRequest;
  readKey ← readKeyOr st readKey;
  protoKey ← SymKey_Marshall readKey;
  enc ← PubKey_Encrypt (rr_RequestIdentity request) protoKey;
  requestIdentityProto ← PubKey_Marshall (rr_RequestIdentity request);
  Ok (CRequestAccept (mkAclAccountRequestAccept requestIdentityProto
                        (rap_RequestRecordId payload) enc (rap_Permissions payload))).

Definition buildRequestDecline st (requestRecordId : string) : res AclContentValue :=
  checkManages st ;;
  rec ← opt_or (st_requestRecords st !! requestRecordId) ErrNoSuchRequest;
  fail_if (negb (bool_decide (rr_Type rec = RequestTypeJoin))) ErrNoSuchRequest ;;
  Ok (CRequestDecline requestRecordId).

(** ** Rotating the read key *)

Definition encryptFor (protoKey : bytes) (pk : PubKey) : res AclEncryptedReadKey :=
  protoIdentity ← PubKey_Marshall pk;
  enc ← PubKey_Encrypt pk protoKey;
  Ok (mkAclEncryptedReadKey protoIdentity enc).

(** The members the new key is encrypted for, and the open invites. *)
Definition keepsAccess (removedIdentities : gset string) (x : string * AccountState) : bool :=
  negb (bool_decide (x.1 ∈ removedIdentities)) && negb (NoPermissions (as_Permissions x.2)).
Definition opensSpace (revokedInvites : gset string) (x : string * Invite) : bool :=
  (inv_Type x.2 =? AclInviteType_AnyoneCanJoin) && negb (bool_decide (x.1 ∈ revokedInvites)).

Definition buildReadKeyChange st (payload : ReadKeyChangePayload)
    (removedIdentities revokedInvites : gset string) : res AclReadKeyChange :=
  readKey ← non_nil (rkp_ReadKey payload);
  protoKey ← SymKey_Marshall readKey;
  aclReadKeys ← res_map (fun x => pk ← non_nil (as_PubKey x.2); encryptFor protoKey pk)
    (List.filter (keepsAccess removedIdentities) (map_range (st_accountStates st)));
  invites ← res_map (fun x => encryptFor protoKey (inv_Key x.2))
    (List.filter (opensSpace revokedInvites) (map_range (st_invites st)));
  metadataKey ← non_nil (rkp_MetadataKey payload);
  mkPubKey ← PubKey_Marshall (GetPublic metadataKey);
  mkPrivKeyProto ← PrivKey_Marshall metadataKey;
  encPrivKey ← SymKey_Encrypt readKey mkPrivKeyProto;
  curKey ← CurrentReadKey st;
  curKey ← non_nil curKey;
  curKeyProto ← SymKey_Marshall curKey;
  encOldKey ← SymKey_Encrypt readKey curKeyProto;
  Ok (mkAclReadKeyChange aclReadKeys mkPubKey (Some encPrivKey) (Some encOldKey) invites).

Definition checkRemoval st (key : PubKey) : res unit :=
  let permissions := Permissions st key in
  fail_if (IsOwner permissions) ErrInsufficientPermissions ;;
  fail_if (NoPermissions permissions) ErrNoSuchAccount.

Definition buildAccountRemove st (payload : AccountRemovePayload) : res AclContentValue :=
  res_each (checkRemoval st) (arp_Identities payload) ;;
  let deletedMap := list_to_set (mapKeyFromPubKey <$> arp_Identities payload) in
  checkManages st ;;
  marshalledIdentities ← res_map PubKey_Marshall (arp_Identities payload);
  rkChange ← buildReadKeyChange st (arp_Change payload) deletedMap ∅;
  Ok (CAccountRemove (mkAclAccountRemove marshalledIdentities (Some rkChange))).

(** ** The methods *)

(** A method that makes one content from the state and signs it. *)
Definition buildWith (now : Z) a (content : AclState -> res AclContentValue) : res RawRecord :=
  st ← builderState a;
  content ← content st;
  buildRecord now a content.

Definition BuildOwnershipChange (now : Z) a (ownershipChange : OwnershipChangePayload)
    : res RawRecord :=
  newOwnerBytes ← PubKey_Marshall (ocp_NewOwner ownershipChange);
  buildRecord now a (COwnershipChange
    (mkAclOwnershipChange newOwnerBytes (ocp_OldOwnerPermissions ownershipChange))).

Definition BuildPermissionChanges (now : Z) a (changes : list PermissionChangePayload)
    : res RawRecord :=
  buildWith now a (fun st => buildPermissionChanges st changes).

Definition BuildAccountsAdd (now : Z) a (additions : list AccountAdd) : res RawRecord :=
  buildWith now a (fun st => buildAccountsAdd st additions None None).

Definition BuildInvite (now : Z) (drawn : res PrivKey) a : res InviteResult :=
  st ← builderState a;
  '(privKey, content) ← buildInvite st drawn;
  rawRec ← buildRecord now a content;
  Ok (mkInviteResult rawRec privKey).

Definition BuildInviteChange (now : Z) a (inviteChange : InviteChangePayload) : res RawRecord :=
  buildWith now a (fun st => buildInviteChange st inviteChange).

Definition BuildInviteAnyone (now : Z) (drawn : res PrivKey) a (permissions : AclPermissions)
    : res InviteResult :=
  st ← builderState a;
  '(privKey, content) ← buildInviteAnyone st drawn permissions;
  rawRec ← buildRecord now a content;
  Ok (mkInviteResult rawRec privKey).

Definition BuildInviteRevoke (now : Z) a (inviteRecordId : string) : res RawRecord :=
  buildWith now a (fun st => buildInviteRevoke st inviteRecordId).

(** The id of the last invite, in range order, that a test accepts; "" without one. *)
Definition lastInvite st (test : Invite -> bool) : string :=
  foldl (fun inviteId x => if test x.2 then x.1 else inviteId) "" (map_range (st_invites st)).

(** What the two ways to join share: the invite must be known and not taken by a member;
    the metadata is sealed for the space and the invite key signs the new identity. *)
Definition joinWith a st (inviteKey : PrivKey) (metadata : bytes) (inviteId : string)
    : res (PrivKey * bytes * bytes) :=
  invite ← opt_or (st_invites st !! inviteId) ErrNoSuchInvite;
  fail_if (negb (PubKey_Equals (GetPublic inviteKey) (inv_Key invite))) ErrIncorrectInviteKey ;;
  signKey ← builderSignKey a;
  fail_if (negb (NoPermissions (Permissions st (GetPublic signKey)))) ErrInsufficientPermissions ;;
  mkKey ← CurrentMetadataKey st;
  mkKey ← non_nil mkKey;
  encMeta ← PubKey_Encrypt mkKey metadata;
  fail_if (bool_decide (MaxMetadataLen < String.length encMeta)%nat) ErrMetadataTooLarge ;;
  rawIdentity ← PubKey_Raw (GetPublic signKey);
  signature ← PrivKey_Sign inviteKey rawIdentity;
  Ok (signKey, encMeta, signature).

Definition BuildRequestJoin (now : Z) a (payload : RequestJoinPayload) : res RawRecord :=
  st ← builderState a;
  let inviteKey := rjp_InviteKey payload in
  let inviteId := lastInvite st (fun inv => PubKey_Equals (inv_Key inv) (GetPublic inviteKey)) in
  '(signKey, encMeta, signature) ← joinWith a st inviteKey (rjp_Metadata payload) inviteId;
  protoIdentity ← PubKey_Marshall (GetPublic signKey);
  buildRecord now a
    (CRequestJoin (mkAclAccountRequestJoin protoIdentity inviteId signature encMeta)).

(** The joining account takes the read key out of the invite and seals it for itself. *)
Definition BuildInviteJoinWithoutApprove (now : Z) a (payload : InviteJoinPayload)
    : res RawRecord :=
  st ← builderState a;
  let inviteKey := ijp_InviteKey payload in
  let inviteId := lastInvite st (fun inv =>
    PubKey_Equals (inv_Key inv) (GetPublic inviteKey) &&
    (inv_Type inv =? AclInviteType_AnyoneCanJoin)) in
  '(signKey, encMeta, signature) ← joinWith a st inviteKey (ijp_Metadata payload) inviteId;
  key ← decryptReadKeyFromInviteWithoutApprove st (Some inviteKey);
  readKey ← SymKey_Marshall key;
  encReadKey ← PubKey_Encrypt (GetPublic signKey) readKey;
  protoIdentity ← PubKey_Marshall (GetPublic signKey);
  buildRecord now a
    (CInviteJoin (mkAclAccountInviteJoin protoIdentity inviteId signature encMeta
                    (Some encReadKey) (ijp_Permissions payload))).

Definition BuildRequestAccept (now : Z) a (payload : RequestAcceptPayload) : res RawRecord :=
  buildWith now a (fun st => buildRequestAccept st payload None).

Definition BuildRequestDecline (now : Z) a (requestRecordId : string) : res RawRecord :=
  buildWith now a (fun st => buildRequestDecline st requestRecordId).

Definition BuildRequestCancel (now : Z) a (requestRecordId : string) : res RawRecord :=
  buildWith now a (fun st =>
    rec ← opt_or (st_requestRecords st !! requestRecordId) ErrNoSuchRequest;
    fail_if (negb (PubKey_Equals (rr_RequestIdentity rec) (st_pubKey st)))
      ErrInsufficientPermissions ;;
    Ok (CRequestCancel requestRecordId)).

Definition BuildPermissionChange (now : Z) a (payload : PermissionChangePayload)
    : res RawRecord :=
  buildWith now a (fun st =>
    let permissions := Permissions st (st_pubKey st) in
    fail_if (negb (CanManageAccounts permissions) ||
             PubKey_Equals (pcp_Identity payload) (st_pubKey st)) ErrInsufficientPermissions ;;
    fail_if (IsOwner (pcp_Permissions payload)) ErrIsOwner ;;
    protoIdentity ← PubKey_Marshall (pcp_Identity payload);
    Ok (CPermissionChange
          (mkAclAccountPermissionChange protoIdentity (pcp_Permissions payload)))).

Definition BuildReadKeyChange (now : Z) a (payload : ReadKeyChangePayload) : res RawRecord :=
  buildWith now a (fun st =>
    checkManages st ;;
    rkChange ← buildReadKeyChange st payload ∅ ∅;
    Ok (CReadKeyChange rkChange)).

Definition BuildAccountRemove (now : Z) a (payload : AccountRemovePayload) : res RawRecord :=
  buildWith now a (fun st => buildAccountRemove st payload).

Definition BuildRequestRemove (now : Z) a : res RawRecord :=
  buildWith now a (fun st =>
    let permissions := Permissions st (st_pubKey st) in
    fail_if (NoPermissions permissions) ErrNoSuchAccount ;;
    fail_if (IsOwner permissions) ErrIsOwner ;;
    match Record_ st (st_pubKey st) with
    | Err e => fail_if (negb (bool_decide (e = ErrNoSuchRecord))) ErrPendingRequest
    | Ok _ => Err ErrPendingRequest
    end ;;
    Ok CAccountRequestRemove).

Definition BuildSpaceOptionsChange (now : Z) a (options : option AclSpaceOptions)
    : res RawRecord :=
  buildWith now a (fun st =>
    fail_if (negb (IsOwner (Permissions st (st_pubKey st)))) ErrInsufficientPermissions ;;
    Ok (CSpaceOptionsChange options)).

(** ** Batches *)

(** [if len(xs) > 0 { content, err = f(); contentList = append(contentList, content) }] *)
Definition whenAny {A} (xs : list A) (f : res AclContentValue) : res (list AclContentValue) :=
  match xs with
  | [] => Ok []
  | _ => content ← f; Ok [content]
  end.

Definition nonEmptyList {A} (xs : list A) : bool := match xs with [] => false | _ => true end.

Definition rotationNotAlone (payload : BatchRequestPayload) : bool :=
  nonEmptyList (brp_Additions payload) || nonEmptyList (arp_Identities (brp_Removals payload)) ||
  nonEmptyList (brp_Approvals payload) || nonEmptyList (brp_Changes payload) ||
  nonEmptyList (brp_InviteChanges payload) || nonEmptyList (brp_NewInvites payload).

(** The new invites; [drawn i] is the key pair drawn for the [i]-th. *)
Definition buildNewInvite st (drawn : nat -> res PrivKey) (i : nat) (perms : AclPermissions)
    : res (PrivKey * AclContentValue) :=
  if NoPermissions perms then buildInvite st (drawn i)
  else buildInviteAnyone st (drawn i) perms.
Fixpoint buildNewInvites st (drawn : nat -> res PrivKey) (i : nat) (l : list AclPermissions)
    : res (list (PrivKey * AclContentValue)) :=
  match l with
  | [] => Ok []
  | perms :: l =>
      x ← buildNewInvite st drawn i perms;
      xs ← buildNewInvites st drawn (S i) l;
      Ok (x :: xs)
  end.

(** The rotation comes after the revokes, so that it may leave the revoked invites out. *)
Definition batchContents st (drawn : nat -> res PrivKey) (payload : BatchRequestPayload)
    : res (list AclContentValue * list PrivKey) :=
  fail_if (bool_decide (is_Some (brp_ReadKeyChange payload)) && rotationNotAlone payload)
    ErrReadKeyChangeNotAlone ;;
  let removals := brp_Removals payload in
  removed ← whenAny (arp_Identities removals) (buildAccountRemove st removals);
  added ← whenAny (brp_Additions payload)
    (mk ← non_nil (rkp_MetadataKey (arp_Change removals));
     buildAccountsAdd st (brp_Additions payload) (Some (GetPublic mk))
       (rkp_ReadKey (arp_Change removals)));
  changed ← whenAny (brp_Changes payload) (buildPermissionChanges st (brp_Changes payload));
  approved ← res_map (fun acc => buildRequestAccept st acc (rkp_ReadKey (arp_Change removals)))
    (brp_Approvals payload);
  declined ← res_map (buildRequestDecline st) (brp_Declines payload);
  revoked ← res_map (buildInviteRevoke st) (brp_InviteRevokes payload);
  rotated ← match brp_ReadKeyChange payload with
            | None => Ok []
            | Some rk =>
                rkChange ← buildReadKeyChange st rk ∅ (list_to_set (brp_InviteRevokes payload));
                Ok [CReadKeyChange rkChange]
            end;
  inviteChanges ← res_map (buildInviteChange st) (brp_InviteChanges payload);
  invites ← buildNewInvites st drawn 0 (brp_NewInvites payload);
  Ok (removed ++ added ++ changed ++ approved ++ declined ++ revoked ++ rotated ++
      inviteChanges ++ invites.*2, invites.*1)%list.

Definition BuildBatchRequest (now : Z) (drawn : nat -> res PrivKey) a
    (payload : BatchRequestPayload) : res BatchResult :=
  st ← builderState a;
  '(contentList, invites) ← batchContents st drawn payload;
  rec ← buildRecords now a contentList;
  Ok (mkBatchResult rec invites).

(** ** Roots *)

Definition marshalAclRoot (aclRoot : AclRoot) (key : PrivKey) : res RawRecordWithId :=
  marshalledRoot ← AclRoot_MarshalVT aclRoot;
  signature ← PrivKey_Sign key marshalledRoot;
  marshalledRaw ← RawRecord_MarshalVT (mkRawRecord marshalledRoot signature "" "" 0);
  aclHeadId ← NewCidFromBytes marshalledRaw;
  Ok (mkRawRecordWithId marshalledRaw aclHeadId).

(** The fields a root has in every space. *)
Definition signedRoot (content : RootContent) : res (bytes * bytes * bytes) :=
  rawIdentity ← PubKey_Raw (GetPublic (rcn_PrivKey content));
  identity ← PubKey_Marshall (GetPublic (rcn_PrivKey content));
  masterKey ← PubKey_Marshall (GetPublic (rcn_MasterKey content));
  identitySignature ← PrivKey_Sign (rcn_MasterKey content) rawIdentity;
  Ok (identity, masterKey, identitySignature).

(** Without a read key the space is derived: its key comes from the owner's. *)
Definition BuildRoot (now : Z) (content : RootContent) : res RawRecordWithId :=
  '(identity, masterKey, identitySignature) ← signedRoot content;
  aclRoot ←
    match rkp_ReadKey (rcn_Change content) with
    | None =>
        Ok (mkAclRoot identity None "" "" "" None (rcn_Options content) 0
              (rcn_SpaceId content) masterKey identitySignature)
    | Some readKey =>
        metadataKey ← non_nil (rkp_MetadataKey (rcn_Change content));
        metadataPrivProto ← PrivKey_Marshall metadataKey;
        encryptedMetadataPrivKey ← SymKey_Encrypt readKey metadataPrivProto;
        metadataPubKey ← PubKey_Marshall (GetPublic metadataKey);
        rkProto ← SymKey_Marshall readKey;
        encryptedReadKey ← PubKey_Encrypt (GetPublic (rcn_PrivKey content)) rkProto;
        enc ← PubKey_Encrypt (GetPublic metadataKey) (rcn_Metadata content);
        Ok (mkAclRoot identity (Some encryptedReadKey) metadataPubKey encryptedMetadataPrivKey
              enc None (rcn_Options content) now (rcn_SpaceId content) masterKey
              identitySignature)
    end;
  marshalAclRoot aclRoot (rcn_PrivKey content).

Definition BuildOneToOneRoot (content : RootContent) (oneToOneInfo : option AclOneToOneInfo)
    : res RawRecordWithId :=
  '(identity, masterKey, identitySignature) ← signedRoot content;
  marshalAclRoot (mkAclRoot identity None "" "" "" oneToOneInfo None 0 "" masterKey
                    identitySignature) (rcn_PrivKey content).
End build.
