(* ===== verification/AclBuildMain.v ===== *)
(** What the record builder makes: a record it returns says what was asked, is signed by
    this account and follows the last record, and the network's admission check accepts
    it; a removal always succeeds when the removal is allowed, and hands the new read key
    to exactly the members that stay. *)

From Stdlib Require Import ZArith Lia String.
From stdpp Require Import base option list gmap strings sorting.
From S2P Require Import Prelude Crypto AclModels AclState AclValidator AclApply AclSpec AclRefine AclHistory AclRotation.
From S2P Require Import AclStorage AclKeep AclList ChangeBuilder ChangeMain AclBuild.

Local Open Scope Z_scope.

(** ** Laws of the generated encoders and of the sealing primitives *)

(** An empty optional field is not written, and decodes as nil. *)
Definition rkc_wf (ch : AclReadKeyChange) : Prop :=
  rkc_EncryptedMetadataPrivKey ch <> Some ""%string /\ rkc_EncryptedOldReadKey ch <> Some ""%string.
Definition content_wf (c : AclContentValue) : Prop :=
  match c with
  | CInvite ch => ai_EncryptedReadKey ch <> Some ""%string
  | CInviteJoin ch => aij_EncryptedReadKey ch <> Some ""%string
  | CReadKeyChange ch => rkc_wf ch
  | CAccountRemove ch => match arm_ReadKeyChange ch with None => True | Some ch => rkc_wf ch end
  | _ => True
  end.

Class BuildCodecLaws `{AclCodec} `{ListCodec} `{BuildCodec} := {
  AclData_law d : Forall content_wf d ->
    exists b, AclData_MarshalVT d = Ok b /\ AclData_UnmarshalVT b = Ok d;
  AclRoot_law r : root_EncryptedReadKey r <> Some ""%string ->
    (forall info, root_OneToOneInfo r = Some info -> oto_Owner info <> Some ""%string) ->
    exists b, AclRoot_MarshalVT r = Ok b /\ AclRoot_UnmarshalVT b = Ok r;
  Record_law r : exists b, Record_MarshalVT r = Ok b /\ Record_UnmarshalVT b = Ok r;
  RawRecord_law r : exists b, RawRecord_MarshalVT r = Ok b /\ RawRecord_UnmarshalVT b = Ok r;
  (** hashing does not fail *)
  Cid_law b : exists c, sha256Cid b = Ok c /\ c <> ""%string;
}.

Class BoxLaws `{CryptoPrims} `{SealPrims} `{SharedKeyPrims} `{BoxPrims} := {
  (** a box opens under the private key of the public key it was sealed for *)
  Box_law k msg : genuine k ->
    x25519_Decrypt (privKey k) (x25519_Encrypt (pubKey (GetPublic k)) msg) = Ok msg;
  Box_nonempty pk msg : String.length pk = 32%nat -> x25519_Encrypt pk msg <> ""%string;
  (** AES-GCM with a 32-byte key *)
  Aes_law k msg : String.length (symRaw k) = KeyBytes ->
    exists c, SymKey_Encrypt k msg = Ok c /\ c <> ""%string /\ SymKey_Decrypt k c = Ok msg;
}.

Section build.
Context `{CryptoPrims} `{AclCodec} `{SharedKeyPrims} `{MapRange} `{ProtoWire} `{ListCodec}.
Context `{SealPrims} `{BuildCodec} `{BoxPrims} `{!SealLaws} `{!BuildCodecLaws} `{!BoxLaws}.
Implicit Types (a : aclRecordBuilder) (st : AclState).

(** The state a new record is checked against. *)
Definition admissionCopy st : AclState :=
  set_contentValidator newAdmissionValidator (Copy true st).

(** [rec] is the record of these contents, written by [k] after the state [st]. *)
Definition recordOf (now : Z) (k : PrivKey) st (contents : AclData) (raw : RawRecord)
    (rec : AclRecord) : Prop :=
  Unmarshall raw = Ok rec /\ rec_Id rec <> ""%string /\
  rec_Identity rec = GetPublic k /\ rec_PrevId rec = st_lastRecordId st /\
  rec_Timestamp rec = now /\ rec_Model rec = ModelData contents /\
  PubKey_Verify (GetPublic k) (raw_Payload raw) (raw_Signature raw) = Ok true.

Lemma buildRecords_run now a st k contents :
  rb_state a = Some st -> rb_accountKeys a = Some k -> key_pair_ok k ->
  Forall content_wf contents ->
  exists raw rec, recordOf now k st contents raw rec /\
    buildRecords now a contents = (runs (ApplyRecord rec) (admissionCopy st) ;; Ok raw).
Proof.
  intros Hst Hk Hpair Hwf. destruct (AclData_law contents Hwf) as (d & Hd & Hd').
  destruct (identity_roundtrip k Hpair) as (idb & Hid & Hid').
  destruct (Record_law (mkConsensusRecord (st_lastRecordId st) idb d now)) as (r & Hr & Hr').
  destruct (Cid_law r) as (c & Hc & Hne). destruct Hpair as [Hg Hcurve].
  set (sig := ed25519_Sign (privKey k) r).
  assert (Hv : PubKey_Verify (GetPublic k) r sig = Ok true)
    by (unfold PubKey_Verify; f_equal; by apply Sign_law).
  assert (Hu : Unmarshall (mkRawRecord r sig "" "" 0) =
    Ok (mkAclRecord c (st_lastRecordId st) now 0 d (GetPublic k) (ModelData contents) sig)).
  { unfold Unmarshall, pubKeyFromProto, NewCidFromBytes. cbn [raw_Payload raw_Signature].
    rewrite Hr'. cbn [mbind res_bind cr_Identity cr_Data]. rewrite Hid'. cbn [mbind res_bind].
    rewrite Hd'. cbn [mbind res_bind]. rewrite Hv. cbn [mbind res_bind negb fail_if]. by rewrite Hc. }
  eexists _, _. split; [split_and!; [exact Hu|by simpl..|exact Hv]|].
  unfold buildRecords, builderSignKey, builderState, non_nil. rewrite Hd, Hk. cbn [mbind res_bind opt_or].
  rewrite Hid. cbn [mbind res_bind]. rewrite Hst. cbn [mbind res_bind opt_or]. rewrite Hr.
  unfold PrivKey_Sign. cbn [mbind res_bind]. fold sig.
  unfold preflightCheck. rewrite Hu. unfold builderState, non_nil. rewrite Hst.
  cbn [mbind res_bind opt_or]. unfold admissionCopy. by destruct (runs _ _).
Qed.

(** ** Sealing the new key *)

Definition curvePoint (pk : PubKey) : Prop := UnmarshalEd25519PublicKey (pubKey pk) = Ok pk.

(** The entry of a rotation for one public key. *)
Definition sealedFor (protoKey : bytes) (pk : PubKey) : AclEncryptedReadKey :=
  mkAclEncryptedReadKey (Key_MarshalVT KeyType_Ed25519Public (pubKey pk))
    (x25519_Encrypt (pubKey pk) protoKey).

Lemma curvePoint_proto pk :
  curvePoint pk -> pubKeyFromProto (Key_MarshalVT KeyType_Ed25519Public (pubKey pk)) = Ok pk.
Proof.
  intros Hpk. unfold pubKeyFromProto, UnmarshalEd25519PublicKeyProto.
  rewrite Key_law by (unfold KeyType_Ed25519Public; lia). exact Hpk.
Qed.

Lemma encryptFor_Ok protoKey pk : curvePoint pk -> encryptFor protoKey pk = Ok (sealedFor protoKey pk).
Proof.
  unfold curvePoint, UnmarshalEd25519PublicKey. intros Hpk. go_inv.
  unfold encryptFor, PubKey_Encrypt, PubKey_Marshall.
  cbn [mbind res_bind]. by match goal with Hp : Point_SetBytes _ = Ok _ |- _ => rewrite Hp end.
Qed.

Lemma keyOfEncrypted_sealed protoKey pk :
  curvePoint pk -> keyOfEncrypted (sealedFor protoKey pk) = Ok (mapKeyFromPubKey pk).
Proof. intros Hpk. unfold keyOfEncrypted, sealedFor. simpl. by rewrite curvePoint_proto. Qed.

(** Whoever holds the private key of a recipient opens its entry. *)
Lemma sealed_opens k key :
  key_pair_ok k -> String.length (symRaw key) = KeyBytes ->
  unmarshallDecryptReadKey
    (erk_EncryptedReadKey (sealedFor (Key_MarshalVT KeyType_AES (symRaw key)) (GetPublic k)))
    (PrivKey_Decrypt k) = Ok key.
Proof.
  intros [Hg _] Hlen. unfold unmarshallDecryptReadKey, PrivKey_Decrypt, sealedFor. simpl erk_EncryptedReadKey.
  rewrite Box_law by done. unfold UnmarshallAESKeyProto.
  rewrite Key_law by (unfold KeyType_AES; lia). cbn [mbind res_bind].
  rewrite bool_decide_false by (by intros []). cbn [fail_if mbind res_bind]. unfold UnmarshallAESKey.
  rewrite bool_decide_false by (rewrite Hlen; by intros []). by destruct key.
Qed.

Lemma res_map_pure {A B} (f : A -> res B) (g : A -> B) l :
  (forall x, x ∈ l -> f x = Ok (g x)) -> res_map f l = Ok (g <$> l).
Proof.
  induction l as [|x l IH]; intros Hf; [done|]. simpl. rewrite Hf by (by left).
  cbn [mbind res_bind]. rewrite IH; [done|]. intros y Hy. apply Hf. by right.
Qed.

(** The keys of a state that the code handed to [Encrypt] are points of the curve. *)
Definition keys_valid st : Prop :=
  (forall k acc, st_accountStates st !! k = Some acc ->
     NoPermissions (as_Permissions acc) = false -> curvePoint (mkPubKey k)) /\
  (forall id inv, st_invites st !! id = Some inv -> curvePoint (inv_Key inv)).

Lemma elem_of_range `{Countable K} {V} (m : gmap K V) x : x ∈ map_range m <-> m !! x.1 = Some x.2.
Proof. rewrite map_range_perm. destruct x. apply elem_of_map_to_list. Qed.

Lemma elem_of_List_filter {A} (f : A -> bool) l x : x ∈ List.filter f l <-> x ∈ l /\ f x = true.
Proof. rewrite !list_elem_of_In. apply filter_In. Qed.

(** The members and the invites a rotation covers. *)
Definition membersFor (removed : gset string) st : list PubKey :=
  (fun x => mkPubKey x.1) <$> List.filter (keepsAccess removed) (map_range (st_accountStates st)).
Definition invitesFor (revoked : gset string) st : list PubKey :=
  (fun x => inv_Key x.2) <$> List.filter (opensSpace revoked) (map_range (st_invites st)).

Lemma membersFor_elem removed st pk :
  accts_ok (st_accountStates st) ->
  pk ∈ membersFor removed st <-> mapKeyFromPubKey pk ∉ removed /\ NoPermissions (Permissions st pk) = false.
Proof.
  intros Hok. unfold membersFor. rewrite list_elem_of_fmap. unfold Permissions. split.
  - intros ([k acc] & -> & Hin). apply elem_of_List_filter in Hin as [Hin Hk].
    apply elem_of_range in Hin. simpl in Hin. unfold keepsAccess in Hk. simpl in Hk.
    apply andb_true_iff in Hk as [Hr Hp]. apply negb_true_iff in Hr, Hp. apply bool_decide_eq_false in Hr.
    cbn. by rewrite Hin.
  - destruct (st_accountStates st !! mapKeyFromPubKey pk) as [acc|] eqn:Hacc; [|by intros []].
    intros [Hr Hp]. exists (mapKeyFromPubKey pk, acc). split; [by destruct pk|].
    apply elem_of_List_filter. split; [by apply elem_of_range|].
    unfold keepsAccess. simpl. rewrite bool_decide_false by done. by rewrite Hp.
Qed.

Lemma activeUsersOf_members removed l :
  Forall (fun ka => acct_ok ka.1 ka.2) l ->
  activeUsersOf removed l.*2 = Ok (List.filter (keepsAccess removed) l).*1.
Proof.
  induction 1 as [|[k acc] l [Hpk _] Hok IH]; [done|]. simpl in Hpk. cbn [fmap list_fmap snd activeUsersOf List.filter].
  unfold keepsAccess at 1. cbn [fst snd]. destruct (NoPermissions (as_Permissions acc)) eqn:Hn.
  - rewrite andb_false_r. exact IH.
  - rewrite Hpk. cbn [mbind res_bind opt_or]. rewrite IH. cbn [mbind res_bind]. rewrite andb_true_r.
    unfold mapKeyFromPubKey, PubKey_Storage. cbn [pubKey].
    case_decide as Hd; [by rewrite bool_decide_true|by rewrite bool_decide_false].
Qed.

Lemma accts_range_ok st : accts_ok (st_accountStates st) ->
  Forall (fun ka => acct_ok ka.1 ka.2) (map_range (st_accountStates st)).
Proof. intros Hok. apply Forall_forall. intros x Hx%elem_of_range. by apply Hok. Qed.

(** ** A rotation is complete and valid *)

(** What a payload must hold: a fresh AES key and a metadata key pair. *)
Definition rotation_ok (payload : ReadKeyChangePayload) (newKey : SymKey) (mk : PrivKey) : Prop :=
  rkp_ReadKey payload = Some newKey /\ String.length (symRaw newKey) = KeyBytes /\
  rkp_MetadataKey payload = Some mk /\ key_pair_ok mk.

Definition rotationOf (newKey : SymKey) (mk : PrivKey) (members invites : list PubKey)
    (encMk encOld : bytes) : AclReadKeyChange :=
  let protoKey := Key_MarshalVT KeyType_AES (symRaw newKey) in
  mkAclReadKeyChange (sealedFor protoKey <$> members)
    (Key_MarshalVT KeyType_Ed25519Public (pubKey (GetPublic mk)))
    (Some encMk) (Some encOld) (sealedFor protoKey <$> invites).

Lemma buildReadKeyChange_Ok st payload removed revoked newKey mk curKey :
  accts_ok (st_accountStates st) -> keys_valid st -> rotation_ok payload newKey mk ->
  CurrentReadKey st = Ok (Some curKey) ->
  exists encMk encOld,
    buildReadKeyChange st payload removed revoked =
      Ok (rotationOf newKey mk (membersFor removed st) (invitesFor revoked st) encMk encOld) /\
    encMk <> ""%string /\ encOld <> ""%string /\
    SymKey_Decrypt newKey encMk = Ok (Key_MarshalVT KeyType_Ed25519Private (privKey mk)) /\
    SymKey_Decrypt newKey encOld = Ok (Key_MarshalVT KeyType_AES (symRaw curKey)).
Proof.
  intros Hok [Hmem Hinv] (Hrk & Hlen & Hmk & _) Hcur. unfold buildReadKeyChange, non_nil.
  destruct (Aes_law newKey (Key_MarshalVT KeyType_Ed25519Private (privKey mk)) Hlen) as (c1 & He1 & Hc1 & Hd1).
  destruct (Aes_law newKey (Key_MarshalVT KeyType_AES (symRaw curKey)) Hlen) as (c2 & He2 & Hc2 & Hd2).
  exists c1, c2. split; [|done]. rewrite Hrk. cbn [opt_or mbind res_bind SymKey_Marshall].
  set (pk := Key_MarshalVT KeyType_AES (symRaw newKey)).
  erewrite (res_map_pure _ (fun x : string * AccountState => sealedFor pk (mkPubKey x.1))); cycle 1.
  { intros [k acc] [Hin Hk]%elem_of_List_filter. apply elem_of_range in Hin. simpl in Hin.
    destruct (Hok _ _ Hin) as [Hpk _]. simpl. rewrite Hpk. cbn [opt_or mbind res_bind].
    apply encryptFor_Ok. apply (Hmem _ _ Hin). unfold keepsAccess in Hk. simpl in Hk.
    by apply andb_true_iff in Hk as [_ Hp%negb_true_iff]. }
  cbn [mbind res_bind]. erewrite (res_map_pure _ (fun x : string * Invite => sealedFor pk (inv_Key x.2))); cycle 1.
  { intros [id inv] [Hin _]%elem_of_List_filter. apply elem_of_range in Hin.
    apply encryptFor_Ok. by apply (Hinv id). }
  rewrite Hmk. cbn [opt_or mbind res_bind PubKey_Marshall PrivKey_Marshall]. rewrite He1.
  cbn [mbind res_bind]. rewrite Hcur. cbn [mbind res_bind opt_or SymKey_Marshall]. rewrite He2. cbn [mbind res_bind].
  unfold rotationOf, membersFor, invitesFor. by rewrite <- !list_fmap_compose.
Qed.

Lemma activeInvitesOf_invites st :
  activeInvitesOf st = mapKeyFromPubKey <$> invitesFor ∅ st.
Proof.
  unfold activeInvitesOf, invitesFor. induction (map_range (st_invites st)) as [|[id inv] l IH]; [done|].
  cbn [fmap list_fmap omap list_omap snd List.filter]. unfold opensSpace at 1. cbn [fst snd].
  rewrite bool_decide_false by set_solver. rewrite andb_true_r.
  destruct (inv_Type inv =? AclInviteType_AnyoneCanJoin); cbn [fmap list_fmap snd]; by rewrite <- IH.
Qed.

Lemma sortedEqual_refl l : sortedEqual l l = true.
Proof. by apply bool_decide_eq_true. Qed.

Lemma rotation_valid st removed newKey mk encMk encOld :
  accts_ok (st_accountStates st) -> keys_valid st -> key_pair_ok mk ->
  validateReadKeyChange st
    (Some (rotationOf newKey mk (membersFor removed st) (invitesFor ∅ st) encMk encOld)) removed = Ok tt.
Proof.
  intros Hok [Hmem Hinv] [_ Hmk]. unfold validateReadKeyChange, when_validating. destruct (ShouldValidate st); [|done].
  cbn [opt_or mbind res_bind rotationOf rkc_MetadataPubKey rkc_EncryptedMetadataPrivKey
       rkc_EncryptedOldReadKey rkc_AccountKeys rkc_InviteKeys].
  rewrite curvePoint_proto by done. rewrite !bool_decide_false by done. cbn [orb fail_if mbind res_bind].
  rewrite (activeUsersOf_members _ _ (accts_range_ok _ Hok)). cbn [mbind res_bind].
  assert (Hmap : forall (l : list PubKey) pr, (forall pk, pk ∈ l -> curvePoint pk) ->
    res_map keyOfEncrypted (sealedFor pr <$> l) = Ok (mapKeyFromPubKey <$> l)).
  { intros l pr Hl. rewrite (res_map_pure _ (fun e => match keyOfEncrypted e with Ok k => k | Err _ => ""%string end)).
    - f_equal. rewrite <- list_fmap_compose. apply list_fmap_ext. intros i pk Hpk. simpl.
      by rewrite keyOfEncrypted_sealed by (by eapply Hl, list_elem_of_lookup_2).
    - intros e (pk & -> & Hpk)%list_elem_of_fmap. by rewrite keyOfEncrypted_sealed by auto. }
  rewrite !Hmap; cycle 1.
  { intros pk ([k acc] & -> & [Hin%elem_of_range Hk]%elem_of_List_filter)%list_elem_of_fmap.
    apply (Hmem _ _ Hin). unfold keepsAccess in Hk. by apply andb_true_iff in Hk as [_ Hp%negb_true_iff]. }
  { intros pk ([id inv] & -> & [Hin%elem_of_range _]%elem_of_List_filter)%list_elem_of_fmap. by apply (Hinv id). }
  cbn [mbind res_bind]. rewrite activeInvitesOf_invites.
  assert (Heq : (mapKeyFromPubKey <$> membersFor removed st) =
    (List.filter (keepsAccess removed) (map_range (st_accountStates st))).*1)
    by (unfold membersFor; rewrite <- list_fmap_compose; by apply list_fmap_ext).
  rewrite Heq, !sortedEqual_refl. by rewrite !bool_decide_true by done.
Qed.

(** ** Applying a rotation *)

Lemma ownReadKey_member k newKey acc l :
  key_pair_ok k -> String.length (symRaw newKey) = KeyBytes -> (forall pk, pk ∈ l -> curvePoint pk) ->
  ownReadKey k (GetPublic k) acc (sealedFor (Key_MarshalVT KeyType_AES (symRaw newKey)) <$> l) =
  Ok (if decide (GetPublic k ∈ l) then Some newKey else acc).
Proof.
  intros Hk Hlen. revert acc. induction l as [|pk l IH]; intros acc Hl; [done|].
  cbn [fmap list_fmap ownReadKey]. change (erk_Identity (sealedFor ?p pk)) with
    (Key_MarshalVT KeyType_Ed25519Public (pubKey pk)).
  rewrite curvePoint_proto by (apply Hl; by left).
  destruct (PubKey_Equals (GetPublic k) pk) eqn:He.
  - apply PubKey_Equals_true in He as <-. rewrite sealed_opens by done. cbn [mbind res_bind].
    rewrite IH by (intros; apply Hl; by right). rewrite (decide_True (P := GetPublic k ∈ GetPublic k :: l)) by (by left).
    by case_decide.
  - apply PubKey_Equals_false in He. rewrite IH by (intros; apply Hl; by right). f_equal.
    destruct (decide (GetPublic k ∈ l)); [by rewrite decide_True by (by right)|].
    by rewrite decide_False by (by intros [?|?]%elem_of_cons).
Qed.

Lemma updateInviteKey_run pr pk s :
  curvePoint pk -> exists invs, updateInviteKey (sealedFor pr pk) s = (set_invites invs s, Ok tt).
Proof.
  intros Hpk. unfold updateInviteKey.
  change (erk_Identity (sealedFor pr pk)) with (Key_MarshalVT KeyType_Ed25519Public (pubKey pk)).
  rewrite curvePoint_proto by done. unfold lifts, assigns, mbind, st_bind. cbn.
  destruct (findInviteByKey s pk) as [[key invite]|]; [by eexists|].
  exists (st_invites s). by destruct s.
Qed.

Lemma updateInviteKeys_run pr l s :
  (forall pk, pk ∈ l -> curvePoint pk) ->
  exists invs, st_each updateInviteKey (sealedFor pr <$> l) s = (set_invites invs s, Ok tt).
Proof.
  revert s. induction l as [|pk l IH]; intros s Hl.
  - exists (st_invites s). by destruct s.
  - cbn [fmap list_fmap st_each]. destruct (updateInviteKey_run pr pk s) as [invs Hrun]; [apply Hl; by left|].
    rewrite (st_bind_run _ _ _ _ _ Hrun). destruct (IH (set_invites invs s)) as [invs' Hrun'];
      [intros; apply Hl; by right|]. by exists invs'.
Qed.

Lemma metadata_unseals newKey mk enc :
  key_pair_ok mk -> SymKey_Decrypt newKey enc = Ok (Key_MarshalVT KeyType_Ed25519Private (privKey mk)) ->
  unmarshallDecryptPrivKey enc (SymKey_Decrypt newKey) = Ok mk.
Proof.
  intros [[Hlen _] _] Hd. unfold unmarshallDecryptPrivKey. rewrite Hd. unfold UnmarshalEd25519PrivateKeyProto.
  rewrite Key_law by (unfold KeyType_Ed25519Private; lia). cbn [mbind res_bind].
  rewrite bool_decide_false by (by intros []). cbn [fail_if mbind res_bind]. unfold UnmarshalEd25519PrivateKey.
  rewrite decide_False by lia. rewrite decide_True by done. by destruct mk.
Qed.

Lemma rotation_applies k s record newKey mk members invites encMk encOld :
  st_key s = k -> st_pubKey s = GetPublic k -> key_pair_ok k -> key_pair_ok mk ->
  String.length (symRaw newKey) = KeyBytes ->
  (forall pk, pk ∈ members -> curvePoint pk) -> (forall pk, pk ∈ invites -> curvePoint pk) ->
  GetPublic k ∈ members ->
  SymKey_Decrypt newKey encMk = Ok (Key_MarshalVT KeyType_Ed25519Private (privKey mk)) ->
  exists s', applyReadKeyChange (Some (rotationOf newKey mk members invites encMk encOld)) record false s = (s', Ok tt) /\
    CurrentReadKey s' = Ok (Some newKey).
Proof.
  intros Hk Hp Hpair Hmk Hlen Hm Hi Hin Hd.
  destruct (updateInviteKeys_run (Key_MarshalVT KeyType_AES (symRaw newKey)) invites
    (set_readKeyChanges (st_readKeyChanges s ++ [rec_Id record]) s) Hi) as [invs Hrun].
  eexists. split.
  - unfold applyReadKeyChange. rewrite (st_bind_run _ _ _ s tt) by done.
    erewrite st_bind_run by reflexivity. erewrite st_bind_run by reflexivity.
    erewrite st_bind_run by (unfold lifts; cbn [rotationOf rkc_MetadataPubKey]; rewrite curvePoint_proto by apply Hmk; reflexivity).
    erewrite st_bind_run by (unfold calls; cbn [st_key st_pubKey set_readKeyChanges rotationOf rkc_AccountKeys];
      rewrite Hk, Hp, ownReadKey_member by done; reflexivity).
    erewrite st_bind_run by exact Hrun. rewrite decide_True by done.
    erewrite st_bind_run by (unfold lifts; cbn [rotationOf rkc_EncryptedMetadataPrivKey slice default];
      unfold slice, default; simpl; rewrite (metadata_unseals newKey mk) by done; reflexivity).
    reflexivity.
  - unfold CurrentReadKey, CurrentReadKeyId. cbn. rewrite last_snoc. cbn. by rewrite lookup_insert_eq.
Qed.

(** ** Removals *)

(** Who may be removed by [author]: a member other than the author and the owner, an
    admin only by the owner. *)
Definition removable st (author pk : PubKey) : Prop :=
  pk <> author /\ curvePoint pk /\
  NoPermissions (Permissions st pk) = false /\ IsOwner (Permissions st pk) = false /\
  (IsAdmin (Permissions st pk) = true -> IsOwner (Permissions st author) = true).

Definition marshalled (pk : PubKey) : bytes := Key_MarshalVT KeyType_Ed25519Public (pubKey pk).

Lemma marshalled_proto pk : curvePoint pk -> pubKeyFromProto (marshalled pk) = Ok pk.
Proof. apply curvePoint_proto. Qed.

Lemma validateRemovals_run st author seen ids :
  Forall (removable st author) ids -> NoDup ids ->
  (forall pk, pk ∈ ids -> mapKeyFromPubKey pk ∉ seen) ->
  validateRemovals st author (Permissions st author) seen (marshalled <$> ids) =
  Ok (seen ∪ list_to_set (mapKeyFromPubKey <$> ids)).
Proof.
  intros Hr. revert seen. induction Hr as [|pk ids (Hne & Hc & Hn & Ho & Ha) Hr IH]; intros seen Hnd Hseen.
  { simpl. f_equal. set_solver. }
  apply NoDup_cons in Hnd as [Hnot Hnd].
  cbn [fmap list_fmap validateRemovals]. rewrite marshalled_proto by done.
  cbn [mbind res_bind]. apply PubKey_Equals_false in Hne. rewrite Hne, Hn, Ho.
  cbn [fail_if mbind res_bind].
  assert (Had : IsAdmin (Permissions st pk) && negb (IsOwner (Permissions st author)) = false).
  { destruct (IsAdmin (Permissions st pk)); [|done]. by rewrite Ha. }
  rewrite Had. cbn [fail_if mbind res_bind]. rewrite bool_decide_false by (apply Hseen; by left).
  cbn [fail_if mbind res_bind]. rewrite IH; [|done|].
  - f_equal. cbn [list_to_set]. set_solver.
  - intros pk' Hpk'. apply not_elem_of_union. split; [|apply Hseen; by right].
    rewrite elem_of_singleton. intros Heq%mapKeyFromPubKey_inj. by subst.
Qed.

(** What a removal keeps: the accounts have entries, the account's own keys stay. *)
Definition removal_frame (ids : list PubKey) (k : PrivKey) (pub : PubKey) st : Prop :=
  (forall pk, pk ∈ ids -> is_Some (st_accountStates st !! mapKeyFromPubKey pk)) /\
  st_key st = k /\ st_pubKey st = pub.

Lemma applyRemoval_run ids k pub pk record s :
  removal_frame ids k pub s -> pk ∈ ids -> curvePoint pk ->
  exists s', applyRemoval (marshalled pk) record s = (s', Ok tt) /\ removal_frame ids k pub s'.
Proof.
  intros (Hs & Hk & Hp) Hin Hc. destruct (Hs _ Hin) as [acc Hacc]. unfold applyRemoval.
  rewrite marshalled_proto by done. unfold lifts, calls, assigns, reads, mbind, st_bind. cbn.
  rewrite Hacc. cbn. set (s1 := put_account _ _ s).
  assert (Hf : removal_frame ids k pub s1).
  { split; [|done]. intros pk' Hpk'. unfold s1. cbn. destruct (decide (mapKeyFromPubKey pk' = mapKeyFromPubKey pk)) as [Heq|].
    - rewrite Heq, lookup_insert_eq. done.
    - rewrite lookup_insert_ne by done. by apply Hs. }
  destruct (st_pendingRequests s !! mapKeyFromPubKey pk); by eexists.
Qed.

Lemma applyRemovals_run ids0 ids k pub record s :
  removal_frame ids0 k pub s -> (forall pk, pk ∈ ids -> pk ∈ ids0 /\ curvePoint pk) ->
  exists s', st_each (fun raw => applyRemoval raw record) (marshalled <$> ids) s = (s', Ok tt) /\
    removal_frame ids0 k pub s'.
Proof.
  revert s. induction ids as [|pk ids IH]; intros s Hf Hids; [by exists s|].
  cbn [fmap list_fmap st_each]. destruct (Hids pk) as [Hin Hc]; [by left|].
  destruct (applyRemoval_run _ _ _ _ record _ Hf Hin Hc) as (s1 & Hrun & Hf1).
  rewrite (st_bind_run _ _ _ _ _ Hrun). apply IH; [done|]. intros pk' Hpk'. apply Hids. by right.
Qed.

(** The account of a builder: it signs with the key of its state. *)
Definition builder_of a st (k : PrivKey) : Prop :=
  rb_state a = Some st /\ rb_accountKeys a = Some k /\ key_pair_ok k /\ st_key st = k /\
  st_pubKey st = GetPublic k.

Lemma buildAccountRemove_Ok st payload newKey mk curKey :
  accts_ok (st_accountStates st) -> keys_valid st -> rotation_ok (arp_Change payload) newKey mk ->
  CurrentReadKey st = Ok (Some curKey) ->
  CanManageAccounts (Permissions st (st_pubKey st)) = true ->
  Forall (removable st (st_pubKey st)) (arp_Identities payload) ->
  let removed := list_to_set (mapKeyFromPubKey <$> arp_Identities payload) in
  exists encMk encOld,
    buildAccountRemove st payload = Ok (CAccountRemove (mkAclAccountRemove (marshalled <$> arp_Identities payload)
      (Some (rotationOf newKey mk (membersFor removed st) (invitesFor ∅ st) encMk encOld)))) /\
    encMk <> ""%string /\ encOld <> ""%string /\
    SymKey_Decrypt newKey encMk = Ok (Key_MarshalVT KeyType_Ed25519Private (privKey mk)).
Proof.
  intros Hok Hv Hrot Hcur Hman Hrem removed.
  destruct (buildReadKeyChange_Ok st (arp_Change payload) removed ∅ newKey mk curKey Hok Hv Hrot Hcur)
    as (encMk & encOld & Hb & H1' & H2' & H3' & _).
  exists encMk, encOld. split; [|done]. unfold buildAccountRemove.
  assert (Heach : res_each (checkRemoval st) (arp_Identities payload) = Ok tt).
  { apply res_each_Ok. eapply Forall_impl; [exact Hrem|]. intros pk (_ & _ & Hn & Ho & _).
    unfold checkRemoval. by rewrite Ho, Hn. }
  rewrite Heach. cbn [mbind res_bind]. unfold checkManages. rewrite Hman. cbn [negb fail_if mbind res_bind].
  rewrite (res_map_pure _ marshalled) by done. cbn [mbind res_bind]. fold removed. by rewrite Hb.
Qed.

Lemma applyAccountRemove_run st payload record newKey mk k encMk encOld :
  accts_ok (st_accountStates st) -> keys_valid st -> rotation_ok (arp_Change payload) newKey mk ->
  st_key st = k -> st_pubKey st = GetPublic k -> key_pair_ok k -> rec_Identity record = GetPublic k ->
  CanManageAccounts (Permissions st (GetPublic k)) = true ->
  Forall (removable st (GetPublic k)) (arp_Identities payload) -> NoDup (arp_Identities payload) ->
  SymKey_Decrypt newKey encMk = Ok (Key_MarshalVT KeyType_Ed25519Private (privKey mk)) ->
  let removed := list_to_set (mapKeyFromPubKey <$> arp_Identities payload) in
  exists st', applyAccountRemove (mkAclAccountRemove (marshalled <$> arp_Identities payload)
      (Some (rotationOf newKey mk (membersFor removed st) (invitesFor ∅ st) encMk encOld))) record st = (st', Ok tt) /\
    CurrentReadKey st' = Ok (Some newKey).
Proof.
  intros Hok Hv (Hrk & Hlen & Hmk & Hmkp) Hkey Hpub Hk Hid Hman Hrem Hnd Hd removed.
  unfold applyAccountRemove. erewrite st_bind_run; cycle 1.
  { unfold calls, ValidateAccountRemove. rewrite Hid. unfold when_validating. cbn [arm_Identities arm_ReadKeyChange].
    rewrite Hman, validateRemovals_run by (done || set_solver). cbn [negb fail_if mbind res_bind].
    rewrite union_empty_l_L. fold removed. rewrite rotation_valid by done. by destruct (ShouldValidate st). }
  destruct (applyRemovals_run (arp_Identities payload) (arp_Identities payload) k (GetPublic k) record st)
    as (s1 & Hrun & _ & Hk1 & Hp1).
  { split; [|done]. intros pk Hpk. rewrite Forall_forall in Hrem. destruct (Hrem _ Hpk) as (_ & _ & Hn & _).
    unfold Permissions in Hn. by destruct (st_accountStates st !! mapKeyFromPubKey pk). }
  { intros pk Hpk. rewrite Forall_forall in Hrem. by destruct (Hrem _ Hpk) as (_ & Hc & _). }
  cbn [arm_Identities arm_ReadKeyChange]. rewrite (st_bind_run _ _ _ _ _ Hrun).
  apply (rotation_applies k); try done.
  - intros pk Hpk. pose proof Hpk as Hpk'. apply membersFor_elem in Hpk' as [_ Hn]; [|done]. destruct Hv as [Hv _].
    unfold Permissions in Hn. destruct (st_accountStates st !! mapKeyFromPubKey pk) as [acc|] eqn:Ha; [|done].
    specialize (Hv _ _ Ha Hn). by destruct pk.
  - intros pk ([id inv] & -> & [Hin%elem_of_range _]%elem_of_List_filter)%list_elem_of_fmap. by apply (proj2 Hv id).
  - apply membersFor_elem; [done|]. split.
    + unfold removed. rewrite elem_of_list_to_set, list_elem_of_fmap. intros (pk & Heq%mapKeyFromPubKey_inj & Hin). subst pk.
      rewrite Forall_forall in Hrem. by destruct (Hrem _ Hin) as [[] _].
    + by destruct (Permissions st (GetPublic k)) as [|[]|].
Qed.

(** The entry of [rkc] for the account of [priv] holds the key [newKey]. *)
Definition opensWith (rkc : AclReadKeyChange) (newKey : SymKey) (priv : PrivKey) : Prop :=
  exists e, e ∈ rkc_AccountKeys rkc /\ pubKeyFromProto (erk_Identity e) = Ok (GetPublic priv) /\
    unmarshallDecryptReadKey (erk_EncryptedReadKey e) (PrivKey_Decrypt priv) = Ok newKey.

Lemma members_open newKey mk removed invites st encMk encOld priv :
  accts_ok (st_accountStates st) -> keys_valid st -> String.length (symRaw newKey) = KeyBytes ->
  key_pair_ok priv ->
  opensWith (rotationOf newKey mk (membersFor removed st) invites encMk encOld) newKey priv <->
  mapKeyFromPubKey (GetPublic priv) ∉ removed /\ NoPermissions (Permissions st (GetPublic priv)) = false.
Proof.
  intros Hok [Hv _] Hlen Hp. rewrite <- (membersFor_elem removed st _ Hok). split.
  - intros (e & He & Hid & _). cbn [rotationOf rkc_AccountKeys] in He.
    apply list_elem_of_fmap in He as (pk & -> & Hpk). pose proof Hpk as Hpk'.
    apply membersFor_elem in Hpk' as [_ Hn]; [|done].
    cbn [sealedFor erk_Identity] in Hid. rewrite curvePoint_proto in Hid.
    + by injection Hid as <-.
    + unfold Permissions in Hn. destruct (st_accountStates st !! mapKeyFromPubKey pk) as [acc|] eqn:Ha; [|done].
      specialize (Hv _ _ Ha Hn). by destruct pk.
  - intros Hin. eexists. split; [apply list_elem_of_fmap; by eexists|]. split.
    + apply curvePoint_proto. apply Hp.
    + by apply sealed_opens.
Qed.

Lemma ApplyRecord_single record c s s1 :
  st_isOneToOne s = false -> rec_PrevId record = st_lastRecordId s -> rec_Id record <> ""%string ->
  rec_Model record = ModelData [c] -> c <> CPermissionChanges [] ->
  applyChangeContent c record s = (s1, Ok tt) ->
  ApplyRecord record s = (set_lastRecordId (rec_Id record) s1, Ok tt).
Proof.
  intros Ho Hp Hne Hm Hc Hrun. unfold ApplyRecord.
  erewrite st_bind_run by (unfold calls; by rewrite Ho).
  erewrite st_bind_run by (unfold calls; by rewrite bool_decide_true).
  erewrite st_bind_run by (unfold lifts; by rewrite bool_decide_false).
  erewrite st_bind_run by (unfold lifts, recordData; by rewrite Hm).
  unfold applyChangeData. erewrite (st_bind_run _ _ s s1); [reflexivity|].
  erewrite st_bind_run; cycle 1.
  { unfold calls, ValidateAclData. destruct (cv_admission _); [|reflexivity]. simpl.
    by destruct c as [| | | | | | | | |[]| | | | | | |]. }
  cbn [st_each]. erewrite st_bind_run by exact Hrun. done.
Qed.

(** A built record is what was asked for, or the builder says why not.  For a builder
    with a state and a key pair there are a raw record and its decoding such that the
    record carries exactly the given contents, under the builder's identity, after the last
    record of the state and under a signature that verifies, and the builder returns it if
    the admission check of the network applies it to a copy of the state, and the error of
    that check otherwise. *)
Theorem acl_build_faithful now a st k contents :
  rb_state a = Some st -> rb_accountKeys a = Some k -> key_pair_ok k ->
  Forall content_wf contents ->
  exists raw rec, recordOf now k st contents raw rec /\
    buildRecords now a contents =
      match ApplyRecord rec (admissionCopy st) with (_, Ok _) => Ok raw | (_, Err e) => Err e end.
Proof.
  intros Hst Hk Hp Hwf. destruct (buildRecords_run now a st k contents Hst Hk Hp Hwf) as (raw & rec & Hr & ->).
  exists raw, rec. split; [done|]. unfold runs. by destruct (ApplyRecord _ _) as [? []].
Qed.

(** C10: a removal the rules allow is always built, and it takes the space away from the
    removed accounts only.  A manager who holds the current read key and removes members
    it may remove gets a record; applied under full validation, the record leaves the
    removed accounts without permissions, makes the new key the current read key, and the
    accounts that can open the new key from the record are exactly those that still have
    permissions. *)
Theorem acl_build_remove now a st k payload newKey mk curKey :
  builder_of a st k -> st_isOneToOne st = false -> accts_ok (st_accountStates st) ->
  keys_valid st -> CurrentReadKey st = Ok (Some curKey) ->
  rotation_ok (arp_Change payload) newKey mk ->
  CanManageAccounts (Permissions st (GetPublic k)) = true ->
  Forall (removable st (GetPublic k)) (arp_Identities payload) -> NoDup (arp_Identities payload) ->
  exists raw rec ch rkc st', BuildAccountRemove now a payload = Ok raw /\
    recordOf now k st [CAccountRemove ch] raw rec /\ arm_ReadKeyChange ch = Some rkc /\
    ApplyRecord rec (admissionCopy st) = (st', Ok tt) /\
    CurrentReadKey st' = Ok (Some newKey) /\
    (forall pk, pk ∈ arp_Identities payload -> Permissions st' pk = AclPermissionsNone) /\
    (forall priv, key_pair_ok priv ->
       opensWith rkc newKey priv <-> NoPermissions (Permissions st' (GetPublic priv)) = false).
Proof.
  intros (Hst & Hk & Hp & Hkey & Hpub) Ho Hok Hv Hcur Hrot Hman Hrem Hnd.
  rewrite <- Hpub in Hman, Hrem.
  destruct (buildAccountRemove_Ok st payload newKey mk curKey Hok Hv Hrot Hcur Hman Hrem)
    as (encMk & encOld & Hb & Hne1 & Hne2 & Hd).
  rewrite Hpub in Hman, Hrem. set (rkc := rotationOf _ _ _ _ _ _) in Hb.
  set (ch := mkAclAccountRemove _ _) in Hb.
  destruct (buildRecords_run now a st k [CAccountRemove ch] Hst Hk Hp) as (raw & rec & Hr & Hbr).
  { constructor; [|constructor]. split; by intros [= ?]. }
  pose proof Hr as (_ & Hid & Hauthor & Hprev & _ & Hmodel & _).
  destruct (applyAccountRemove_run (admissionCopy st) payload rec newKey mk k encMk encOld) as (s1 & Hrun & Hcur1);
    try done; [by subst k|].
  pose proof (applyAccountRemove_rotates _ _ (admissionCopy st) s1 eq_refl Hok Hrun) as (_ & Hgone & Hcov).
  assert (Happ : ApplyRecord rec (admissionCopy st) = (set_lastRecordId (rec_Id rec) s1, Ok tt))
    by (by eapply ApplyRecord_single).
  exists raw, rec, ch, rkc, (set_lastRecordId (rec_Id rec) s1). split_and!; try done.
  - unfold BuildAccountRemove, buildWith, builderState, non_nil. rewrite Hst. cbn [opt_or mbind res_bind].
    rewrite Hb. cbn [mbind res_bind]. unfold buildRecord. rewrite Hbr. unfold runs. by rewrite Happ.
  - intros pk Hpk. change (Permissions (set_lastRecordId _ ?x) pk) with (Permissions x pk).
    apply (Hgone (marshalled pk) pk); [by apply list_elem_of_fmap_2|].
    apply marshalled_proto. rewrite Forall_forall in Hrem. by destruct (Hrem _ Hpk) as (_ & ? & _).
  - intros priv Hpriv. change (Permissions (set_lastRecordId _ ?x) ?y) with (Permissions x y).
    destruct Hcov as (rkc' & covered & [= <-] & Hcovered & <-).
    unfold rkc at 1. rewrite (members_open newKey mk) by (done || apply Hrot).
    destruct (validateReadKeyChange_covers (admissionCopy st) (Some rkc)
      (list_to_set (mapKeyFromPubKey <$> arp_Identities payload)) eq_refl Hok) as (? & covered' & [= <-] & Hc' & Hiff).
    { exact (rotation_valid (admissionCopy st) _ newKey mk encMk encOld Hok Hv (proj2 (proj2 (proj2 Hrot)))). }
    assert (Hcov : res_map keyOfEncrypted (rkc_AccountKeys rkc) = Ok covered) by exact Hcovered.
    rewrite Hcov in Hc'. injection Hc' as <-. rewrite Hiff. change (Permissions (admissionCopy st) ?y) with (Permissions st y).
    naive_solver.
Qed.

(** ** Roots *)

(** A signed root reads back under its own id. *)
Lemma marshalAclRoot_reads root k verifier keys :
  key_pair_ok k -> root_Identity root = marshalled (GetPublic k) ->
  root_EncryptedReadKey root <> Some ""%string ->
  (forall info, root_OneToOneInfo root = Some info -> oto_Owner info <> Some ""%string) ->
  exists raw sig, marshalAclRoot root k = Ok raw /\ rwi_Id raw <> ""%string /\
    UnmarshallWithId (NewAclRecordBuilder (rwi_Id raw) keys verifier) raw =
      Ok (mkAclRecord (rwi_Id raw) "" (root_Timestamp root) 0 "" (GetPublic k) (ModelRoot root) sig).
Proof.
  intros Hk Hid Hrk Hinfo. destruct (AclRoot_law root Hrk Hinfo) as (b & Hb & Hb').
  set (sig := ed25519_Sign (privKey k) b).
  assert (Hv : PubKey_Verify (GetPublic k) b sig = Ok true)
    by (unfold PubKey_Verify; f_equal; apply Sign_law, Hk).
  destruct (RawRecord_law (mkRawRecord b sig "" "" 0)) as (r & Hr & Hr').
  destruct (Cid_law r) as (c & Hc & Hne).
  exists (mkRawRecordWithId r c), sig. split_and!; [|done|].
  - unfold marshalAclRoot, PrivKey_Sign, NewCidFromBytes. rewrite Hb. cbn [mbind res_bind]. fold sig.
    rewrite Hr. cbn [mbind res_bind]. by rewrite Hc.
  - cbn [rwi_Id]. unfold UnmarshallWithId. cbn [rwi_Id rwi_Payload]. rewrite Hr'. cbn [mbind res_bind raw_Payload].
    assert (Hbid : rb_id (NewAclRecordBuilder c keys verifier) = c) by (by destruct keys).
    rewrite decide_True by done. rewrite Hb'. cbn [mbind res_bind]. rewrite Hid, marshalled_proto by apply Hk.
    cbn [mbind res_bind rec_Identity raw_Signature]. unfold verifyRaw. cbn [raw_Payload raw_Signature rwi_Payload rwi_Id].
    rewrite Hv. cbn [mbind res_bind negb fail_if].
    unfold VerifyCid. rewrite Hc. by rewrite bool_decide_true.
Qed.

Lemma PubKey_Encrypt_Ok pk msg : curvePoint pk -> PubKey_Encrypt pk msg = Ok (x25519_Encrypt (pubKey pk) msg).
Proof.
  unfold curvePoint, UnmarshalEd25519PublicKey. intros Hpk. go_inv. unfold PubKey_Encrypt.
  by match goal with Hp : Point_SetBytes _ = Ok _ |- _ => rewrite Hp end.
Qed.

(** The root message [BuildRoot] makes for a space with a read key. *)
Definition rootOf (now : Z) (content : RootContent) (readKey : SymKey) (mk : PrivKey) (encMk : bytes) : AclRoot :=
  let k := rcn_PrivKey content in
  mkAclRoot (marshalled (GetPublic k))
    (Some (x25519_Encrypt (pubKey (GetPublic k)) (Key_MarshalVT KeyType_AES (symRaw readKey))))
    (marshalled (GetPublic mk)) encMk (x25519_Encrypt (pubKey (GetPublic mk)) (rcn_Metadata content))
    None (rcn_Options content) now (rcn_SpaceId content) (marshalled (GetPublic (rcn_MasterKey content)))
    (ed25519_Sign (privKey (rcn_MasterKey content)) (pubKey (GetPublic k))).

Lemma BuildRoot_Ok now content readKey mk :
  key_pair_ok (rcn_PrivKey content) -> rotation_ok (rcn_Change content) readKey mk ->
  exists encMk, unmarshallDecryptPrivKey encMk (SymKey_Decrypt readKey) = Ok mk /\
    BuildRoot now content = marshalAclRoot (rootOf now content readKey mk encMk) (rcn_PrivKey content).
Proof.
  intros Hk (Hrk & Hlen & Hmk & Hmkp).
  destruct (Aes_law readKey (Key_MarshalVT KeyType_Ed25519Private (privKey mk)) Hlen) as (c & He & Hne & Hd).
  exists c. split; [by apply metadata_unseals|]. unfold BuildRoot, signedRoot, PubKey_Raw, PubKey_Marshall, PrivKey_Sign, non_nil.
  cbn [mbind res_bind]. rewrite Hrk, Hmk. cbn [opt_or mbind res_bind]. unfold PrivKey_Marshall, SymKey_Marshall.
  cbn [mbind res_bind]. rewrite He. cbn [mbind res_bind].
  rewrite !PubKey_Encrypt_Ok by (apply Hk || apply Hmkp). done.
Qed.

(** A new space reads back.  The root [BuildRoot] makes is accepted under its id and
    starts the space as asked: its author is the owner, the current read key and metadata
    key are the given ones, the owner's metadata decrypts to what was given and the space
    options are those of the request. *)
Theorem acl_build_root now content readKey mk verifier shouldValidate :
  key_pair_ok (rcn_PrivKey content) -> rotation_ok (rcn_Change content) readKey mk ->
  let k := rcn_PrivKey content in
  exists raw rec st, BuildRoot now content = Ok raw /\
    UnmarshallWithId (NewAclRecordBuilder (rwi_Id raw) (Some k) verifier) raw = Ok rec /\
    newAclStateWithKeys rec k shouldValidate = Ok st /\
    st_lastRecordId st = rwi_Id raw /\
    Permissions st (GetPublic k) = AclPermissionsOwner /\
    CurrentReadKey st = Ok (Some readKey) /\ CurrentMetadataKey st = Ok (Some (GetPublic mk)) /\
    GetMetadata st (GetPublic k) true = Ok (rcn_Metadata content) /\
    CurrentOptions st = rcn_Options content.
Proof.
  intros Hk Hrot k. destruct (BuildRoot_Ok now content readKey mk Hk Hrot) as (encMk & Hmk & Hb).
  destruct (marshalAclRoot_reads (rootOf now content readKey mk encMk) k verifier (Some k)) as (raw & sig & Hraw & Hne & Hu);
    [done|done|intros [= Hs]; apply Box_nonempty in Hs; [done|]; by apply (UnmarshalEd25519PublicKey_length _ _ (proj2 Hk))|done|].
  destruct Hrot as (_ & Hlen & _ & Hmkp).
  assert (Hkey : unmarshallDecryptReadKey (x25519_Encrypt (pubKey (GetPublic k)) (Key_MarshalVT KeyType_AES (symRaw readKey)))
    (PrivKey_Decrypt k) = Ok readKey) by (exact (sealed_opens k readKey Hk Hlen)).
  assert (Hst : exists st,
    newAclStateWithKeys (mkAclRecord (rwi_Id raw) "" now 0 "" (GetPublic k)
      (ModelRoot (rootOf now content readKey mk encMk)) sig) k shouldValidate = Ok st /\
    st_lastRecordId st = rwi_Id raw /\ Permissions st (GetPublic k) = AclPermissionsOwner /\
    CurrentReadKey st = Ok (Some readKey) /\ CurrentMetadataKey st = Ok (Some (GetPublic mk)) /\
    GetMetadata st (GetPublic k) true = Ok (rcn_Metadata content) /\
    CurrentOptions st = rcn_Options content).
  { unfold newAclStateWithKeys, applyRoot. cbn [rec_Model rootOf root_OneToOneInfo root_EncryptedReadKey rec_Id rec_Identity root_MetadataPubKey].
    unfold lifts, reads, assigns, calls, mbind, st_bind. rewrite marshalled_proto by apply Hmkp.
    cbn [emptyAclState put_keys set_keys st_pubKey st_key st_keys]. rewrite (proj2 (PubKey_Equals_true _ _) eq_refl).
    unfold saveKeysFromRoot, lifts, reads, assigns, calls, mbind, st_bind. cbn [root_EncryptedReadKey rootOf st_key].
    change (rcn_PrivKey content) with k. cbn [st_key put_keys set_keys emptyAclState]. rewrite Hkey.
    cbn [root_EncryptedMetadataPrivKey rootOf]. rewrite Hmk.
    cbn [root_Options rootOf]. destruct (rcn_Options content);
      (eexists; split; [reflexivity|]; unfold Permissions, CurrentReadKey, CurrentMetadataKey, CurrentReadKeyId, GetMetadata;
       cbn; rewrite !lookup_insert_eq; cbn; rewrite ?lookup_insert_eq; cbn).
    all: split_and!; try done. all: unfold PrivKey_Decrypt; apply Box_law, Hmkp. }
  destruct Hst as (st & Hst & Hrest). eexists raw, _, st. by rewrite Hb.
Qed.
End build.
