(* ===== verification/AclBuildExample.v ===== *)
(** The record builder on a concrete space: encoders and decoders of every message of a
    record, sealing primitives with their laws, records built by the owner of the space of
    AclExample, and two batches that do not do what they should. *)

From Stdlib Require Import ZArith Lia String Ascii.
From stdpp Require Import base option list gmap strings countable.
From S2P Require Import Prelude Crypto AclModels AclState AclValidator AclApply AclSpec AclRefine AclExample AclHistory.
From S2P Require Import AclStorage AclKeep AclList AclListSync ChangeBuilder ToyCodec ChangeMain AclBuild AclBuildMain.

Local Open Scope Z_scope.
Local Open Scope string_scope.

(** ** Encodings *)

Definition unser {A} `{Ser A} {M} (mk : A -> M) (s : string) : option M :=
  match des s with Some (a, "") => Some (mk a) | _ => None end.
Lemma unser_law {A} `{Ser A} {M} (mk : A -> M) a : unser mk (ser a) = Some (mk a).
Proof. unfold unser. rewrite <- (append_nil_r_str (ser a)). by rewrite ser_law. Qed.

Definition ser_rkc (ch : AclReadKeyChange) : string :=
  ser ((fun k => (erk_Identity k, erk_EncryptedReadKey k)) <$> rkc_AccountKeys ch, rkc_MetadataPubKey ch,
       nonEmpty (rkc_EncryptedMetadataPrivKey ch), nonEmpty (rkc_EncryptedOldReadKey ch),
       (fun k => (erk_Identity k, erk_EncryptedReadKey k)) <$> rkc_InviteKeys ch).
Definition mk_erks (l : list (bytes * bytes)) : list AclEncryptedReadKey :=
  (fun x => mkAclEncryptedReadKey x.1 x.2) <$> l.
Definition des_rkc : string -> option AclReadKeyChange :=
  unser (fun '(ks, m, p, o, iv) => mkAclReadKeyChange (mk_erks ks) m p o (mk_erks iv)).

Lemma mk_erks_law l : mk_erks ((fun k => (erk_Identity k, erk_EncryptedReadKey k)) <$> l) = l.
Proof. induction l as [|[] l IH]; [done|]. unfold mk_erks in *. cbn. by rewrite IH. Qed.

Lemma nonEmpty_id o : o <> Some "" -> nonEmpty o = o.
Proof. intros. unfold nonEmpty. by rewrite decide_False. Qed.

Lemma rkc_law ch : rkc_wf ch -> des_rkc (ser_rkc ch) = Some ch.
Proof.
  intros [H1 H2]. unfold des_rkc, ser_rkc. rewrite unser_law, !nonEmpty_id by done. rewrite !mk_erks_law. by destruct ch.
Qed.

(** A content value: its tag and the encoding of its message. *)
Definition enc_content (c : AclContentValue) : nat * string :=
  match c with
  | CInvite ch => (0%nat, ser (ai_InviteKey ch, ai_InviteType ch, ai_Permissions ch, nonEmpty (ai_EncryptedReadKey ch)))
  | CInviteRevoke id => (1%nat, id)
  | CRequestJoin ch => (2%nat, ser (arj_InviteIdentity ch, arj_InviteRecordId ch, arj_InviteIdentitySignature ch, arj_Metadata ch))
  | CRequestAccept ch => (3%nat, ser (ara_Identity ch, ara_RequestRecordId ch, ara_EncryptedReadKey ch, ara_Permissions ch))
  | CPermissionChange ch => (4%nat, ser (apc_Identity ch, apc_Permissions ch))
  | CAccountRemove ch => (5%nat, ser (arm_Identities ch, ser_rkc <$> arm_ReadKeyChange ch))
  | CReadKeyChange ch => (6%nat, ser_rkc ch)
  | CRequestDecline id => (7%nat, id)
  | CAccountRequestRemove => (8%nat, "")
  | CPermissionChanges l => (9%nat, ser ((fun ch => (apc_Identity ch, apc_Permissions ch)) <$> l))
  | CAccountsAdd l => (10%nat, ser ((fun a => (aa_Identity a, aa_Permissions a, aa_Metadata a, aa_EncryptedReadKey a)) <$> l))
  | CRequestCancel id => (11%nat, id)
  | CInviteJoin ch => (12%nat, ser (aij_Identity ch, aij_InviteRecordId ch, aij_InviteIdentitySignature ch, aij_Metadata ch,
                                nonEmpty (aij_EncryptedReadKey ch), aij_Permissions ch))
  | CInviteChange ch => (13%nat, ser (aic_InviteRecordId ch, aic_Permissions ch))
  | COwnershipChange ch => (14%nat, ser (owc_NewOwnerIdentity ch, owc_OldOwnerPermissions ch))
  | CSpaceOptionsChange o => (15%nat, ser (o : option bool))
  | CUnset => (16%nat, "")
  end.

Definition dec_content (x : nat * string) : option AclContentValue :=
  let '(n, s) := x in
  match n with
  | 0 => unser (fun '(k, t, p, e) => CInvite (mkAclAccountInvite k t p e)) s
  | 1 => Some (CInviteRevoke s)
  | 2 => unser (fun '(i, r, g, m) => CRequestJoin (mkAclAccountRequestJoin i r g m)) s
  | 3 => unser (fun '(i, r, e, p) => CRequestAccept (mkAclAccountRequestAccept i r e p)) s
  | 4 => unser (fun '(i, p) => CPermissionChange (mkAclAccountPermissionChange i p)) s
  | 5 => '(ids, r) ← unser (fun x : list bytes * option string => x) s;
         match r with
         | None => Some (CAccountRemove (mkAclAccountRemove ids None))
         | Some r => r ← des_rkc r; Some (CAccountRemove (mkAclAccountRemove ids (Some r)))
         end
  | 6 => r ← des_rkc s; Some (CReadKeyChange r)
  | 7 => Some (CRequestDecline s)
  | 8 => Some CAccountRequestRemove
  | 9 => unser (fun l => CPermissionChanges ((fun x => mkAclAccountPermissionChange x.1 x.2) <$> l)) s
  | 10 => unser (fun l => CAccountsAdd ((fun '(i, p, m, e) => mkAclAccountAdd i p m e) <$> l)) s
  | 11 => Some (CRequestCancel s)
  | 12 => unser (fun '(i, r, g, m, e, p) => CInviteJoin (mkAclAccountInviteJoin i r g m e p)) s
  | 13 => unser (fun '(i, p) => CInviteChange (mkAclAccountInviteChange i p)) s
  | 14 => unser (fun '(i, p) => COwnershipChange (mkAclOwnershipChange i p)) s
  | 15 => unser (fun o : option bool => CSpaceOptionsChange o) s
  | 16 => Some CUnset
  | _ => None
  end%nat.

Lemma content_law c : content_wf c -> dec_content (enc_content c) = Some c.
Proof.
  destruct c as [ch| |ch|ch|ch|ch|ch| | |l|l| |ch|ch|ch|o|]; intros Hwf; cbn [enc_content dec_content];
    rewrite ?unser_law; cbn [content_wf] in Hwf; rewrite ?nonEmpty_id by done; try done; try by destruct ch.
  - destruct ch as [ids [r|]]; [|done]. cbn [arm_Identities arm_ReadKeyChange fmap option_fmap option_map] in *.
    unfold mbind at 1, option_bind at 1. by rewrite rkc_law.
  - by rewrite rkc_law.
  - f_equal. f_equal. clear. induction l as [|[] l IH]; [done|]. cbn. by rewrite IH.
  - f_equal. f_equal. clear. induction l as [|[] l IH]; [done|]. cbn. by rewrite IH.
Qed.

Fixpoint dec_contents (l : list (nat * string)) : option AclData :=
  match l with [] => Some [] | x :: l => c ← dec_content x; d ← dec_contents l; Some (c :: d) end.
Lemma contents_law d : Forall content_wf d -> dec_contents (enc_content <$> d) = Some d.
Proof. induction 1 as [|c d Hc _ IH]; [done|]. cbn [fmap list_fmap dec_contents]. rewrite content_law by done. simpl. by rewrite IH. Qed.

Definition eof {A} (o : option A) : res A := opt_or o (GoError "unexpected EOF").

Definition ser_aclroot (r : AclRoot) : string :=
  ser (root_Identity r, nonEmpty (root_EncryptedReadKey r), root_MetadataPubKey r, root_EncryptedMetadataPrivKey r,
       root_EncryptedOwnerMetadata r,
       (fun i => (nonEmpty (oto_Owner i), oto_Writers i)) <$> root_OneToOneInfo r,
       (root_Options r : option bool), root_Timestamp r, root_SpaceId r, root_MasterKey r, root_IdentitySignature r).
Definition des_aclroot : string -> option AclRoot :=
  unser (fun '(a, b, c, d, e, f, g, h, i, j, k) =>
    mkAclRoot a b c d e ((fun x => mkAclOneToOneInfo x.1 x.2) <$> f) g h i j k).

(** These decoders replace the tables of AclExample and AclListSync. *)
#[local] Instance fullCodec : AclCodec := {|
  AclData_UnmarshalVT := fun b => l ← eof (unser (fun x : list (nat * string) => x) b); eof (dec_contents l);
  AclRoot_UnmarshalVT := fun b => eof (des_aclroot b);
|}.
Definition listCodecWith (cid : bytes -> string) : ListCodec := {|
  RawRecord_UnmarshalVT := message (fun '(p, s, i, t, n) => mkRawRecord p s i t n);
  Record_UnmarshalVT := message (fun '(p, i, d, t) => mkConsensusRecord p i d t);
  sha256Cid := fun b => Ok (cid b);
|}.
#[local] Instance fullListCodec : ListCodec :=
  listCodecWith (fun b => String "c" (pretty.pretty (String.length b))).
#[local] Instance toyBuildCodec : BuildCodec := {|
  AclData_MarshalVT := fun d => Ok (ser (enc_content <$> d));
  AclRoot_MarshalVT := fun r => Ok (ser_aclroot r);
  Record_MarshalVT := fun r => Ok (ser (cr_PrevId r, cr_Identity r, cr_Data r, cr_Timestamp r));
  RawRecord_MarshalVT := fun r => Ok (ser (raw_Payload r, raw_Signature r, raw_AcceptorIdentity r,
                                       raw_AcceptorSignature r, raw_AcceptorTimestamp r));
|}.
#[local] Instance toyBox : BoxPrims := {| x25519_Encrypt := fun pk msg => pk ++ msg |}.

Lemma codec_laws cid : (forall b, cid b <> "") -> @BuildCodecLaws fullCodec (listCodecWith cid) toyBuildCodec.
Proof.
  intros Hcid. split.
  - intros d Hd. eexists. split; [reflexivity|]. unfold AclData_UnmarshalVT, fullCodec. rewrite unser_law.
    change (eof (dec_contents (enc_content <$> d)) = Ok d). by rewrite contents_law.
  - intros [a b c d e f g h i j k] Hb Hi. eexists. split; [reflexivity|]. unfold AclRoot_UnmarshalVT, fullCodec, ser_aclroot, des_aclroot.
    rewrite unser_law. cbn in *. rewrite nonEmpty_id by done. destruct f as [[o w]|]; [|done].
    simpl. rewrite nonEmpty_id; [done|]. by apply (Hi (mkAclOneToOneInfo o w)).
  - intros []. eexists. split; [reflexivity|]. cbn [Record_UnmarshalVT listCodecWith]. by rewrite message_law.
  - intros []. eexists. split; [reflexivity|]. cbn [RawRecord_UnmarshalVT listCodecWith]. by rewrite message_law.
  - intros b. exists (cid b). split; [done|apply Hcid].
Qed.
#[local] Instance fullCodec_laws : BuildCodecLaws.
Proof. by apply codec_laws. Qed.

Lemma substring_over (s : string) n : (String.length s <= n)%nat -> substring 0 n s = s.
Proof. revert n. induction s as [|c s IH]; intros [|n] Hn; simpl in *; try done; [lia|]. rewrite IH; [done|lia]. Qed.

#[local] Instance toyBox_laws : BoxLaws.
Proof.
  split.
  - intros k msg _. cbn. unfold toy_box_open. by rewrite strip_app.
  - intros pk msg Hpk Hs. apply (f_equal String.length) in Hs. cbn in Hs. rewrite length_append, Hpk in Hs. done.
  - intros [k] msg Hk. eexists. split; [done|]. cbn [symRaw] in *. split; [done|].
    unfold SymKey_Decrypt. rewrite bool_decide_false by (simpl; unfold NonceBytes; lia). cbn [fail_if mbind res_bind].
    cbn [gcm_Open toyCrypto]. unfold toy_gcm_open. cbn [symRaw]. rewrite substring_over by (rewrite Hk; lia).
    change (String.length ("............" ++ k ++ msg)) with (12 + String.length (k ++ msg))%nat.
    unfold NonceBytes. replace (12 + String.length (k ++ msg) - 12)%nat with (String.length (k ++ msg)) by lia.
    pose proof (substring_suffix "............" (k ++ msg)) as Hs. cbn [String.length] in Hs. rewrite Hs. by rewrite strip_app.
Qed.

(** ** The owner removes a member *)

(** The space of AclExample after bob joined as a writer, on alice's device. *)
Definition joinedState : AclState := exState [exRoot; exInvite; exAsk; exAccept].
Definition aliceBuilder : aclRecordBuilder :=
  mkAclRecordBuilder "root" (Some (privOf alice)) ValidateFull (Some joinedState) None None.
Definition newKeys : ReadKeyChangePayload := mkReadKeyChangePayload (Some (privOf "N")) (Some key2).
Definition removeBob : AccountRemovePayload := mkAccountRemovePayload [pubOf bob] newKeys.

Lemma pair_ok s : String.length s = 1%nat -> key_pair_ok (privOf s).
Proof.
  destruct s as [|c []]; [done| |done]. intros _. split; [split|]; reflexivity.
Qed.

#[local] Instance acct_ok_dec k acc : Decision (acct_ok k acc).
Proof. unfold acct_ok. apply _. Defined.
#[local] Instance curvePoint_dec pk : Decision (curvePoint pk).
Proof. unfold curvePoint. apply _. Defined.

Lemma joined_accts : accts_ok (st_accountStates joinedState).
Proof. apply (bool_decide_eq_true_1 (map_Forall acct_ok (st_accountStates joinedState))). vm_compute. reflexivity. Qed.

Definition keys_validb (st : AclState) : bool :=
  bool_decide (map_Forall (fun k _ => curvePoint (mkPubKey k)) (st_accountStates st)) &&
  bool_decide (map_Forall (fun _ inv => curvePoint (inv_Key inv)) (st_invites st)).
Lemma keys_validb_sound st : keys_validb st = true -> keys_valid st.
Proof.
  intros [Ha%bool_decide_eq_true Hi%bool_decide_eq_true]%andb_true_iff. split; [intros k acc Hk _; by apply (Ha k acc)|exact Hi].
Qed.
Lemma joined_keys : keys_valid joinedState.
Proof. apply keys_validb_sound. vm_compute. reflexivity. Qed.

Lemma removeBob_rotation : rotation_ok (arp_Change removeBob) key2 (privOf "N").
Proof. split_and!; [done..|by apply pair_ok]. Qed.

Lemma bob_removable : Forall (removable joinedState (GetPublic (privOf alice))) [pubOf bob].
Proof.
  constructor; [|constructor]. split_and!; [by intros [=]|reflexivity|vm_compute; reflexivity|vm_compute; reflexivity|].
  intros Ha. vm_compute in Ha. discriminate Ha.
Qed.

Lemma acl_build_remove_witness :
  exists raw rec ch rkc st', BuildAccountRemove 5 aliceBuilder removeBob = Ok raw /\
    recordOf 5 (privOf alice) joinedState [CAccountRemove ch] raw rec /\ arm_ReadKeyChange ch = Some rkc /\
    ApplyRecord rec (admissionCopy joinedState) = (st', Ok tt) /\
    CurrentReadKey st' = Ok (Some key2) /\
    (forall pk, pk ∈ [pubOf bob] -> Permissions st' pk = AclPermissionsNone) /\
    (forall priv, key_pair_ok priv ->
       opensWith rkc key2 priv <-> NoPermissions (Permissions st' (GetPublic priv)) = false).
Proof.
  apply (acl_build_remove 5 aliceBuilder joinedState (privOf alice) removeBob key2 (privOf "N") key1).
  - split_and!; [reflexivity|reflexivity|by apply pair_ok|vm_compute; reflexivity|vm_compute; reflexivity].
  - vm_compute. reflexivity.
  - exact joined_accts.
  - exact joined_keys.
  - vm_compute. reflexivity.
  - exact removeBob_rotation.
  - vm_compute. reflexivity.
  - exact bob_removable.
  - apply (bool_decide_eq_true_1 (NoDup [pubOf bob])). vm_compute. reflexivity.
Defined.

Lemma acl_build_faithful_witness :
  exists raw rec, recordOf 5 (privOf alice) joinedState [CInviteRevoke "r1"] raw rec /\
    buildRecords 5 aliceBuilder [CInviteRevoke "r1"] =
      match ApplyRecord rec (admissionCopy joinedState) with (_, Ok _) => Ok raw | (_, Err e) => Err e end.
Proof.
  apply (acl_build_faithful 5 aliceBuilder joinedState (privOf alice) [CInviteRevoke "r1"]).
  - reflexivity.
  - reflexivity.
  - by apply pair_ok.
  - by constructor.
Defined.

Definition newSpace : RootContent :=
  mkRootContent (privOf alice) (privOf "W") "space" newKeys "alice's name" (Some true).

Lemma acl_build_root_witness :
  exists raw rec st, BuildRoot 3 newSpace = Ok raw /\
    UnmarshallWithId (NewAclRecordBuilder (rwi_Id raw) (Some (privOf alice)) ValidateFull) raw = Ok rec /\
    newAclStateWithKeys rec (privOf alice) true = Ok st /\
    st_lastRecordId st = rwi_Id raw /\
    Permissions st (GetPublic (privOf alice)) = AclPermissionsOwner /\
    CurrentReadKey st = Ok (Some key2) /\ CurrentMetadataKey st = Ok (Some (GetPublic (privOf "N"))) /\
    GetMetadata st (GetPublic (privOf alice)) true = Ok "alice's name" /\
    CurrentOptions st = Some true.
Proof.
  apply (acl_build_root 3 newSpace key2 (privOf "N") ValidateFull true); [by apply pair_ok|].
  split_and!; [done..|by apply pair_ok].
Defined.

(** ** Batches *)

Definition noRemovals : AccountRemovePayload := mkAccountRemovePayload [] (mkReadKeyChangePayload None None).

(** Adding dave in a batch that removes nobody, and so brings no new metadata key. *)
Definition addDave : BatchRequestPayload :=
  mkBatchRequestPayload [mkAccountAdd (pubOf dave) AclPermissionsReader "dave"] [] noRemovals [] [] [] [] [] None.
(** The same addition as a record of its own. *)
Lemma acl_batch_add_panics :
  BuildBatchRequest 5 (fun _ => Ok (privOf "J")) aliceBuilder addDave =
    Err (GoPanic "nil pointer dereference") /\
  exists raw, BuildAccountsAdd 5 aliceBuilder (brp_Additions addDave) = Ok raw.
Proof. split; [vm_compute; reflexivity|]. eexists. vm_compute. reflexivity. Qed.

(** Removing bob and opening an invite in one batch: after the record the current read key
    is the new one, and the invite hands out the key bob still has. *)
Definition removeAndInvite : BatchRequestPayload :=
  mkBatchRequestPayload [] [] removeBob [] [] [] [] [AclPermissionsReader] None.

Definition afterBatch (payload : BatchRequestPayload) : res AclState :=
  b ← BuildBatchRequest 5 (fun _ => Ok (privOf "J")) aliceBuilder payload;
  rec ← Unmarshall (br_Rec b);
  runs (ApplyRecord rec) (admissionCopy joinedState).

Lemma acl_batch_stale_invite :
  exists st, afterBatch removeAndInvite = Ok st /\ CurrentReadKey st = Ok (Some key2) /\
    decryptReadKeyFromInviteWithoutApprove st (Some (privOf "J")) = Ok key1.
Proof. eexists. split; [vm_compute; reflexivity|]. split; vm_compute; reflexivity. Qed.
