(* ===== verification/SpacePayload.v ===== *)
(** The payloads a space is created from (src/commonspace/spacepayloads/payloads.go): the
    signed header, the ACL root and the root of the settings tree, for new, derived and
    one-to-one spaces in both header versions, and the checks a received payload passes.
    The clock and the random seeds are arguments; the generated encoders of the header
    messages are the class [SpaceCodec]. *)

From Stdlib Require Import ZArith Lia String Ascii.
From stdpp Require Import base option list gmap strings.
From S2P Require Import Prelude Crypto AclModels AclState AclValidator AclApply AclStorage AclKeep AclList.
From S2P Require Import TreeModels ChangeBuilder AclBuild.

Local Open Scope Z_scope.

(** ** Messages and payloads *)

Record SpaceHeader := mkSpaceHeader {
  sh_Identity : bytes;
  sh_Timestamp : Z;
  sh_SpaceType : string;
  sh_ReplicationKey : Z;
  sh_Seed : bytes;
  sh_SpaceHeaderPayload : bytes;
  sh_AclPayload : bytes;
  sh_SettingPayload : bytes;
  sh_Version : Z;
  sh_FileprotoVersion : Z;
}.

Record RawSpaceHeader := mkRawSpaceHeader {
  rsh_SpaceHeader : bytes;
  rsh_Signature : bytes;
}.

Record RawSpaceHeaderWithId := mkRawSpaceHeaderWithId {
  rshi_RawHeader : bytes;
  rshi_Id : string;
}.

Record SpaceStorageCreatePayload := mkSpaceStorageCreatePayload {
  ssp_AclWithId : RawRecordWithId;
  ssp_SpaceHeaderWithId : option RawSpaceHeaderWithId;
  ssp_SpaceSettingsWithId : RawTreeChangeWithId;
}.

Record SpaceCreatePayload := mkSpaceCreatePayload {
  scp_SigningKey : PrivKey;
  scp_SpaceType : string;
  scp_ReplicationKey : Z;
  scp_SpacePayload : bytes;
  scp_MasterKey : PrivKey;
  scp_ReadKey : option SymKey;
  scp_MetadataKey : option PrivKey;
  scp_Metadata : bytes;
  scp_Options : option AclSpaceOptions;
  scp_FileProtoVersion : Z;
}.

Record SpaceDerivePayload := mkSpaceDerivePayload {
  sdp_SigningKey : PrivKey;
  sdp_MasterKey : PrivKey;
  sdp_SpaceType : string;
  sdp_SpacePayload : bytes;
  sdp_FileProtoVersion : Z;
}.

Definition SpaceReserved : string := "any-sync.space".
Definition SpaceTypeOneToOne : string := "anytype.onetoone".
Definition SpaceTypeOneToOneAny : string := "any.onetoone".

Definition IsOneToOneType (spaceType : string) : bool :=
  bool_decide (spaceType = SpaceTypeOneToOne) || bool_decide (spaceType = SpaceTypeOneToOneAny).

Definition SpaceHeaderVersion0 : Z := 0.
Definition SpaceHeaderVersion1 : Z := 1.
Definition SpaceFileProtoVersionV2 : Z := 2.

Definition ErrIncorrectSpaceHeader := GoError "incorrect space header".
Definition ErrIncorrectOneToOnePayload := GoError "incorrect onetoone payload".

Class SpaceCodec := {
  SpaceHeader_MarshalVT : SpaceHeader -> res bytes;
  SpaceHeader_UnmarshalVT : bytes -> res SpaceHeader;
  RawSpaceHeader_MarshalVT : RawSpaceHeader -> res bytes;
  RawSpaceHeader_UnmarshalVT : bytes -> res RawSpaceHeader;
  AclOneToOneInfo_MarshalVT : AclOneToOneInfo -> res bytes;
  AclOneToOneInfo_UnmarshalVT : bytes -> res AclOneToOneInfo;
}.

(** ** Library functions *)

(** hash/fnv [New64]: FNV-1 over 64-bit words. *)
Definition fnvOffset64 : Z := 14695981039346656037.
Definition fnvPrime64 : Z := 1099511628211.
Fixpoint fnv64 (h : Z) (data : bytes) : Z :=
  match data with
  | EmptyString => h
  | String c data => fnv64 (Z.lxor (h * fnvPrime64 mod 2 ^ 64) (Z.of_nat (nat_of_ascii c))) data
  end.

(** strconv [FormatUint(n, 36)]: 13 digits hold every 64-bit number. *)
Definition digit36 (d : Z) : ascii :=
  ascii_of_nat (Z.to_nat (if d <? 10 then 48 + d else 87 + d)).
Fixpoint format36 (fuel : nat) (n : Z) (acc : string) : string :=
  let acc := String (digit36 (n mod 36)) acc in
  if n <? 36 then acc
  else match fuel with O => acc | S fuel => format36 fuel (n / 36) acc end.
Definition FormatUint36 (n : Z) : string := format36 12 n "".

(** [strings.Index(s, ".")] and the parts before and after it. *)
Fixpoint splitDot (s : string) : option (string * string) :=
  match s with
  | EmptyString => None
  | String c s =>
      if Ascii.eqb c "." then Some (EmptyString, s)
      else '(a, b) ← splitDot s; Some (String c a, b)
  end.

Definition NewSpaceId (id : string) (repKey : Z) : string := id ++ String "." (FormatUint36 repKey).

Section payloads.
Context `{CryptoPrims} `{AclCodec} `{SharedKeyPrims} `{MapRange} `{ProtoWire} `{ListCodec}.
Context `{SealPrims} `{BuildCodec} `{BoxPrims} `{TreeCodec} `{SpaceCodec}.

(** ** Parts the constructors share *)

(** Marshal, sign and wrap a header. *)
Definition signHeader (key : PrivKey) (header : SpaceHeader) : res bytes :=
  marshalled ← SpaceHeader_MarshalVT header;
  signature ← PrivKey_Sign key marshalled;
  RawSpaceHeader_MarshalVT (mkRawSpaceHeader marshalled signature).

(** [hasher := fnv.New64(); hasher.Write(pubKey); hasher.Sum64()] *)
Definition replicationKey (pub : PubKey) : res Z :=
  pubKey ← PubKey_Raw pub;
  Ok (fnv64 fnvOffset64 pubKey).

(** The root of the settings tree. *)
Definition settingsRoot (aclHeadId : string) (key : PrivKey) (spaceId : string) (seed : bytes)
    (timestamp : Z) : res RawTreeChangeWithId :=
  '(_, root) ← ChangeBuilder.BuildRoot
    (mkInitialContent aclHeadId key spaceId seed SpaceReserved "" timestamp);
  Ok root.

(** Version 0: the header comes first, the roots name the space.  The error of the content
    id is overwritten by the next call. *)
Definition payloadV0 (key : PrivKey) (header : SpaceHeader)
    (aclRootOf : string -> res RawRecordWithId) (seed : bytes) (timestamp : Z)
    : res SpaceStorageCreatePayload :=
  rawHeader ← signHeader key header;
  let id := match NewCidFromBytes rawHeader with Ok id => id | Err _ => ""%string end in
  let spaceId := NewSpaceId id (sh_ReplicationKey header) in
  aclRoot ← aclRootOf spaceId;
  settings ← settingsRoot (rwi_Id aclRoot) key spaceId seed timestamp;
  Ok (mkSpaceStorageCreatePayload aclRoot (Some (mkRawSpaceHeaderWithId rawHeader spaceId)) settings).

(** Version 1: the roots come first and are embedded in the header. *)
Definition payloadV1 (key : PrivKey) (header : bytes -> bytes -> SpaceHeader)
    (aclRoot : res RawRecordWithId) (seed : bytes) (timestamp : Z)
    : res SpaceStorageCreatePayload :=
  aclRoot ← aclRoot;
  settings ← settingsRoot (rwi_Id aclRoot) key "" seed timestamp;
  let header := header (rwi_Payload aclRoot) (slice (rtc_RawChange settings)) in
  rawHeader ← signHeader key header;
  id ← NewCidFromBytes rawHeader;
  let spaceId := NewSpaceId id (sh_ReplicationKey header) in
  Ok (mkSpaceStorageCreatePayload aclRoot (Some (mkRawSpaceHeaderWithId rawHeader spaceId)) settings).

(** ** Constructors *)

Definition createHeader (payload : SpaceCreatePayload) (identity : bytes) (now : Z) (seed : bytes)
    (version : Z) (aclPayload settingPayload : bytes) : SpaceHeader :=
  mkSpaceHeader identity now (scp_SpaceType payload) (scp_ReplicationKey payload) seed
    (scp_SpacePayload payload) aclPayload settingPayload version (scp_FileProtoVersion payload).

Definition createRootContent (payload : SpaceCreatePayload) (spaceId : string) : RootContent :=
  mkRootContent (scp_SigningKey payload) (scp_MasterKey payload) spaceId
    (mkReadKeyChangePayload (scp_MetadataKey payload) (scp_ReadKey payload))
    (scp_Metadata payload) (scp_Options payload).

(** The three readings of the clock: for the header, the ACL root and the settings. *)
Record clock := mkClock { ck_header : Z; ck_acl : Z; ck_settings : Z }.

Definition StoragePayloadForSpaceCreate (now : clock) (headerSeed settingsSeed : bytes)
    (payload : SpaceCreatePayload) : res SpaceStorageCreatePayload :=
  identity ← PubKey_Marshall (GetPublic (scp_SigningKey payload));
  payloadV0 (scp_SigningKey payload)
    (createHeader payload identity (ck_header now) headerSeed SpaceHeaderVersion0 "" "")
    (fun spaceId => AclBuild.BuildRoot (ck_acl now) (createRootContent payload spaceId)) settingsSeed
    (ck_settings now).

Definition StoragePayloadForSpaceCreateV1 (now : clock) (headerSeed settingsSeed : bytes)
    (payload : SpaceCreatePayload) : res SpaceStorageCreatePayload :=
  identity ← PubKey_Marshall (GetPublic (scp_SigningKey payload));
  payloadV1 (scp_SigningKey payload)
    (createHeader payload identity (ck_header now) headerSeed SpaceHeaderVersion1)
    (AclBuild.BuildRoot (ck_acl now) (createRootContent payload "")) settingsSeed (ck_settings now).

Definition deriveHeader (payload : SpaceDerivePayload) (identity : bytes) (repKey : Z)
    (version : Z) (aclPayload settingPayload : bytes) : SpaceHeader :=
  mkSpaceHeader identity 0 (sdp_SpaceType payload) repKey "" (sdp_SpacePayload payload)
    aclPayload settingPayload version (sdp_FileProtoVersion payload).

Definition deriveRootContent (payload : SpaceDerivePayload) (spaceId : string) : RootContent :=
  mkRootContent (sdp_SigningKey payload) (sdp_MasterKey payload) spaceId
    (mkReadKeyChangePayload None None) "" None.

(** Derived spaces: nothing in them is random or dated. *)
Definition StoragePayloadForSpaceDerive (payload : SpaceDerivePayload)
    : res SpaceStorageCreatePayload :=
  identity ← PubKey_Marshall (GetPublic (sdp_SigningKey payload));
  repKey ← replicationKey (GetPublic (sdp_SigningKey payload));
  payloadV0 (sdp_SigningKey payload) (deriveHeader payload identity repKey SpaceHeaderVersion0 "" "")
    (fun spaceId => AclBuild.BuildRoot 0 (deriveRootContent payload spaceId)) "" 0.

Definition StoragePayloadForSpaceDeriveV1 (payload : SpaceDerivePayload)
    : res SpaceStorageCreatePayload :=
  identity ← PubKey_Marshall (GetPublic (sdp_SigningKey payload));
  repKey ← replicationKey (GetPublic (sdp_SigningKey payload));
  payloadV1 (sdp_SigningKey payload) (deriveHeader payload identity repKey SpaceHeaderVersion1)
    (AclBuild.BuildRoot 0 (deriveRootContent payload "")) "" 0.

(** ** One-to-one spaces *)

(** The writers are sorted, so that both accounts make the same message. *)
Definition makeOneToOneInfo (sharedSk : PrivKey) (aPk bPk : PubKey) : res AclOneToOneInfo :=
  w0 ← PubKey_Marshall aPk;
  w1 ← PubKey_Marshall bPk;
  let writers := if String.ltb w1 w0 then [w1; w0] else [w0; w1] in
  sharedPkBytes ← PubKey_Marshall (GetPublic sharedSk);
  Ok (mkAclOneToOneInfo (Some sharedPkBytes) writers).

Definition oneToOneHeader (spaceType : string) (identity infoBytes : bytes) (repKey : Z)
    (aclPayload settingPayload : bytes) : SpaceHeader :=
  mkSpaceHeader identity 0 spaceType repKey "" infoBytes aclPayload settingPayload
    SpaceHeaderVersion1
    (if bool_decide (spaceType = SpaceTypeOneToOneAny) then SpaceFileProtoVersionV2 else 0).

Definition StoragePayloadForOneToOneSpaceWithType (aSk : PrivKey) (bPk : PubKey)
    (spaceType : string) : res SpaceStorageCreatePayload :=
  fail_if (negb (IsOneToOneType spaceType)) (GoError "not a 1-1 space type") ;;
  sharedSk ← GenerateSharedKey aSk bPk AnysyncOneToOneSpacePath;
  oneToOneInfo ← makeOneToOneInfo sharedSk (GetPublic aSk) bPk;
  oneToOneInfoBytes ← AclOneToOneInfo_MarshalVT oneToOneInfo;
  identity ← PubKey_Marshall (GetPublic sharedSk);
  repKey ← replicationKey (GetPublic sharedSk);
  payloadV1 sharedSk (oneToOneHeader spaceType identity oneToOneInfoBytes repKey)
    (BuildOneToOneRoot (mkRootContent sharedSk sharedSk "" (mkReadKeyChangePayload None None) "" None)
       (Some oneToOneInfo)) "" 0.

Definition StoragePayloadForOneToOneSpace (aSk : PrivKey) (bPk : PubKey)
    : res SpaceStorageCreatePayload :=
  StoragePayloadForOneToOneSpaceWithType aSk bPk SpaceTypeOneToOne.

(** ** Validation *)

(** [res, err := k.Verify(...); if err != nil || !res { return ErrIncorrectSpaceHeader }] *)
Definition mustVerify (k : PubKey) (data sig : bytes) : res unit :=
  match PubKey_Verify k data sig with
  | Ok true => Ok tt
  | _ => Err ErrIncorrectSpaceHeader
  end.

(** The two payloads are checked when they are not nil. *)
Definition differs (payload : option bytes) (embedded : bytes) : bool :=
  match payload with None => false | Some p => negb (bool_decide (p = embedded)) end.

Definition ValidateSpaceHeader (rawHeaderWithId : option RawSpaceHeaderWithId)
    (identity : option PubKey) (aclPayload settingsPayload : option bytes) : res bool :=
  raw ← opt_or rawHeaderWithId ErrIncorrectSpaceHeader;
  '(cid, repKey) ← opt_or (splitDot (rshi_Id raw)) ErrIncorrectSpaceHeader;
  fail_if (negb (VerifyCid (rshi_RawHeader raw) cid)) ErrIncorrectCid ;;
  rawSpaceHeader ← RawSpaceHeader_UnmarshalVT (rshi_RawHeader raw);
  header ← SpaceHeader_UnmarshalVT (rsh_SpaceHeader rawSpaceHeader);
  payloadIdentity ← UnmarshalEd25519PublicKeyProto (sh_Identity header);
  mustVerify payloadIdentity (rsh_SpaceHeader rawSpaceHeader) (rsh_Signature rawSpaceHeader) ;;
  fail_if (negb (bool_decide (repKey = FormatUint36 (sh_ReplicationKey header))))
    ErrIncorrectSpaceHeader ;;
  let isV1 := bool_decide (sh_Version header = SpaceHeaderVersion1) in
  fail_if (isV1 && (differs aclPayload (sh_AclPayload header) ||
                    differs settingsPayload (sh_SettingPayload header)))
    ErrIncorrectSpaceHeader ;;
  (if IsOneToOneType (sh_SpaceType header) then
     match AclOneToOneInfo_UnmarshalVT (sh_SpaceHeaderPayload header) with
     | Err _ => Err ErrIncorrectOneToOnePayload
     | Ok _ => Ok tt
     end
   else fail_if (match identity with
                 | None => false
                 | Some identity => negb (PubKey_Equals payloadIdentity identity)
                 end) ErrIncorrectIdentity) ;;
  Ok (negb isV1).

Definition validateCreateSpaceAclPayload (rawWithId : RawRecordWithId) : res string :=
  fail_if (negb (VerifyCid (rwi_Payload rawWithId) (rwi_Id rawWithId))) ErrIncorrectCid ;;
  rawAcl ← RawRecord_UnmarshalVT (rwi_Payload rawWithId);
  aclRoot ← AclRoot_UnmarshalVT (raw_Payload rawAcl);
  payloadIdentity ← UnmarshalEd25519PublicKeyProto (root_Identity aclRoot);
  mustVerify payloadIdentity (raw_Payload rawAcl) (raw_Signature rawAcl) ;;
  masterKey ← UnmarshalEd25519PublicKeyProto (root_MasterKey aclRoot);
  rawIdentity ← PubKey_Raw payloadIdentity;
  mustVerify masterKey rawIdentity (root_IdentitySignature aclRoot) ;;
  Ok (root_SpaceId aclRoot).

(** The id of the ACL root and the space the settings root names. *)
Definition validateCreateSpaceSettingsPayload (rawWithId : RawTreeChangeWithId)
    : res (string * string) :=
  let rawChange := slice (rtc_RawChange rawWithId) in
  fail_if (negb (VerifyCid rawChange (rtc_Id rawWithId))) ErrIncorrectSpaceHeader ;;
  raw ← RawTreeChange_UnmarshalVT rawChange;
  rootChange ← RootChange_UnmarshalVT (rt_Payload raw);
  payloadIdentity ← UnmarshalEd25519PublicKeyProto (rc_Identity rootChange);
  mustVerify payloadIdentity (rt_Payload raw) (slice (rt_Signature raw)) ;;
  Ok (rc_AclHeadId rootChange, rc_SpaceId rootChange).

(** The payload of a record as a slice: the decoders leave an empty field nil.  (A caller that
    hands in an empty slice that is not nil is not modelled.) *)
Definition payloadSlice (b : bytes) : option bytes := if decide (b = "")%string then None else Some b.

Definition ValidateSpaceStorageCreatePayload (payload : SpaceStorageCreatePayload) : res unit :=
  needCheckSpaceId ← ValidateSpaceHeader (ssp_SpaceHeaderWithId payload) None
    (payloadSlice (rwi_Payload (ssp_AclWithId payload)))
    (rtc_RawChange (ssp_SpaceSettingsWithId payload));
  aclSpaceId ← validateCreateSpaceAclPayload (ssp_AclWithId payload);
  '(aclHeadId, settingsSpaceId) ← validateCreateSpaceSettingsPayload (ssp_SpaceSettingsWithId payload);
  header ← non_nil (ssp_SpaceHeaderWithId payload);
  fail_if (needCheckSpaceId && (negb (bool_decide (aclSpaceId = rshi_Id header)) ||
                                negb (bool_decide (aclSpaceId = settingsSpaceId))))
    ErrIncorrectSpaceHeader ;;
  fail_if (negb (bool_decide (aclHeadId = rwi_Id (ssp_AclWithId payload)))) ErrIncorrectSpaceHeader.
End payloads.
