(* ===== verification/SpacePayloadMain.v ===== *)
(** What holds of the payloads of a space: every payload the constructors make passes the
    check of the receiver, both accounts of a one-to-one space make the same payload and
    derive the same keys from it, and the id of a version 1 space fixes its ACL root and
    its settings. *)

From Stdlib Require Import ZArith Lia String Ascii.
From stdpp Require Import base option list gmap strings.
From S2P Require Import Prelude Crypto AclModels AclState AclValidator AclApply AclExample AclStorage AclKeep.
From S2P Require Import AclList AclListSync TreeModels ChangeBuilder ToyCodec ChangeMain AclBuild AclBuildMain.
From S2P Require Import AclBuildExample SpacePayload.

Local Open Scope Z_scope.

(** Laws of the generated encoders and of content ids. *)
Class SpaceCodecLaws `{SpaceCodec} `{ListCodec} `{TreeCodec} := {
  SpaceHeader_law h : exists b, SpaceHeader_MarshalVT h = Ok b /\ SpaceHeader_UnmarshalVT b = Ok h;
  RawSpaceHeader_law h :
    exists b, RawSpaceHeader_MarshalVT h = Ok b /\ RawSpaceHeader_UnmarshalVT b = Ok h;
  OneToOneInfo_law i : oto_Owner i <> Some ""%string ->
    exists b, AclOneToOneInfo_MarshalVT i = Ok b /\ AclOneToOneInfo_UnmarshalVT b = Ok i;
  RawTreeChange_total m : exists b, RawTreeChange_MarshalVT m = Ok b;
  RootChange_total m : exists b, RootChange_MarshalVT m = Ok b;
  (** a content id is written in lower-case base 32 *)
  Cid_dotless b c : sha256Cid b = Ok c -> splitDot c = None;
}.

Lemma splitDot_app c r : splitDot c = None -> splitDot (c ++ String "." r) = Some (c, r).
Proof.
  induction c as [|x c IH]; simpl; [done|]. destruct (Ascii.eqb x "."); [done|].
  destruct (splitDot c) as [[]|]; [done|]. intros _. by rewrite IH.
Qed.

(** The laws of the primitives of key agreement. *)
Class OneToOneLaws `{CryptoPrims} `{SharedKeyPrims} `{SealPrims} := {
  (** both sides of a Diffie-Hellman exchange compute the same secret *)
  X25519_law a b : key_pair_ok a -> key_pair_ok b ->
    exists s, curve25519_X25519 (Ed25519PrivateKeyToCurve25519 (privKey a)) (Point_BytesMontgomery (pubKey (GetPublic b))) = Ok s /\
      curve25519_X25519 (Ed25519PrivateKeyToCurve25519 (privKey b)) (Point_BytesMontgomery (pubKey (GetPublic a))) = Ok s;
  hkdf_law secret info : exists seed, hkdf_Read32 secret info = Ok seed /\ String.length seed = 32%nat;
  (** the paths of one-to-one spaces are SLIP-0021 paths *)
  Path_law path : path ∈ [AnysyncOneToOneSpacePath; AnysyncReadOneToOneSpacePath; AnysyncMetadataOneToOnePath] ->
    slip21_IsValidPath path = true;
  Derive_law seed path : (32 <= String.length seed)%nat -> slip21_IsValidPath path = true ->
    exists raw, slip21_Derive seed path = Ok raw /\ String.length raw = KeyBytes;
  NewKeyFromSeed_law seed : String.length seed = 32%nat -> key_pair_ok (mkPrivKey (ed25519_NewKeyFromSeed seed));
}.

Section payloads.
Context `{CryptoPrims} `{AclCodec} `{SharedKeyPrims} `{MapRange} `{ProtoWire} `{ListCodec}.
Context `{SealPrims} `{BuildCodec} `{BoxPrims} `{TreeCodec} `{SpaceCodec}.
Context `{!SealLaws} `{!BuildCodecLaws} `{!BoxLaws} `{!TreeCodecLaws} `{!SpaceCodecLaws}.

Lemma VerifyCid_Ok b c : sha256Cid b = Ok c -> VerifyCid b c = true.
Proof. intros Hc. unfold VerifyCid. rewrite Hc. by apply bool_decide_true. Qed.

Lemma mustVerify_Ok k msg : genuine k -> mustVerify (GetPublic k) msg (ed25519_Sign (privKey k) msg) = Ok tt.
Proof. intros Hk. unfold mustVerify, PubKey_Verify. by rewrite Sign_law. Qed.

(** The settings root passes its check. *)
Lemma settingsRoot_valid aclHeadId k spaceId seed ts :
  key_pair_ok k ->
  exists raw id, settingsRoot aclHeadId k spaceId seed ts = Ok (mkRawTreeChangeWithId (Some raw) id) /\
    validateCreateSpaceSettingsPayload (mkRawTreeChangeWithId (Some raw) id) = Ok (aclHeadId, spaceId).
Proof.
  intros Hk. pose proof Hk as [[Hlen Hpub] Hcurve].
  unfold settingsRoot, ChangeBuilder.BuildRoot, PubKey_Marshall. cbn [mbind res_bind ic_PrivKey ic_AclHeadId ic_SpaceId ic_ChangeType ic_Timestamp ic_Seed ic_ChangePayload].
  set (change := mkRootChange _ _ _ _ _ _ _ _ _). destruct (RootChange_total change) as [b Hb]. rewrite Hb.
  cbn [mbind res_bind]. unfold wrapSigned, PrivKey_Sign. cbn [mbind res_bind].
  set (sig := ed25519_Sign (privKey k) b).
  destruct (RawTreeChange_total (mkRawTreeChange b (Some sig))) as [r Hr]. rewrite Hr. cbn [mbind res_bind].
  destruct (Cid_law r) as (c & Hc & _). unfold NewCidFromBytes. rewrite Hc. cbn [mbind res_bind].
  exists r, c. split; [done|]. unfold validateCreateSpaceSettingsPayload. cbn [rtc_RawChange rtc_Id].
  change (slice (Some r)) with r. rewrite (VerifyCid_Ok _ _ Hc). cbn [negb fail_if mbind res_bind].
  assert (Hraw : RawTreeChange_UnmarshalVT r = Ok (mkRawTreeChange b (Some sig))).
  { apply RawTreeChange_law; [|done]. intros [= Hs]. by apply (Sign_nonempty (privKey k) b Hlen). }
  rewrite Hraw. cbn [mbind res_bind rt_Payload rt_Signature]. rewrite (RootChange_law _ _ Hb). cbn [mbind res_bind].
  change (rc_Identity change) with (marshalled (GetPublic k)).
  change (UnmarshalEd25519PublicKeyProto ?x) with (pubKeyFromProto x). rewrite marshalled_proto by done.
  cbn [mbind res_bind]. change (slice (Some sig)) with sig. unfold sig. by rewrite mustVerify_Ok.
Qed.

(** An ACL root whose identity is vouched for by the master key passes its check. *)
Lemma aclRoot_valid root k master :
  key_pair_ok k -> key_pair_ok master ->
  root_Identity root = marshalled (GetPublic k) -> root_MasterKey root = marshalled (GetPublic master) ->
  root_IdentitySignature root = ed25519_Sign (privKey master) (pubKey (GetPublic k)) ->
  root_EncryptedReadKey root <> Some ""%string ->
  (forall info, root_OneToOneInfo root = Some info -> oto_Owner info <> Some ""%string) ->
  exists raw, marshalAclRoot root k = Ok raw /\ validateCreateSpaceAclPayload raw = Ok (root_SpaceId root).
Proof.
  intros Hk Hm Hid Hmk Hsig Hrk Hinfo. destruct (AclRoot_law root Hrk Hinfo) as (b & Hb & Hb').
  destruct (RawRecord_law (mkRawRecord b (ed25519_Sign (privKey k) b) "" "" 0)) as (r & Hr & Hr').
  destruct (Cid_law r) as (c & Hc & _). exists (mkRawRecordWithId r c). split.
  - unfold marshalAclRoot, PrivKey_Sign, NewCidFromBytes. rewrite Hb. cbn [mbind res_bind].
    rewrite Hr. cbn [mbind res_bind]. by rewrite Hc.
  - unfold validateCreateSpaceAclPayload. cbn [rwi_Payload rwi_Id]. rewrite (VerifyCid_Ok _ _ Hc).
    cbn [negb fail_if mbind res_bind]. rewrite Hr'. cbn [mbind res_bind raw_Payload raw_Signature]. rewrite Hb'.
    cbn [mbind res_bind]. rewrite Hid, Hmk. change (UnmarshalEd25519PublicKeyProto ?x) with (pubKeyFromProto x).
    rewrite !marshalled_proto by (apply Hk || apply Hm). cbn [mbind res_bind]. rewrite mustVerify_Ok by apply Hk.
    cbn [mbind res_bind]. unfold PubKey_Raw. cbn [mbind res_bind]. rewrite Hsig, mustVerify_Ok by apply Hm. done.
Qed.

(** A signed header passes its check under the id made from it. *)
Lemma header_valid k h acl settings :
  key_pair_ok k -> sh_Identity h = marshalled (GetPublic k) ->
  (sh_Version h = SpaceHeaderVersion1 ->
     differs acl (sh_AclPayload h) = false /\ differs settings (sh_SettingPayload h) = false) ->
  (IsOneToOneType (sh_SpaceType h) = true ->
     exists info, AclOneToOneInfo_UnmarshalVT (sh_SpaceHeaderPayload h) = Ok info) ->
  exists raw c, signHeader k h = Ok raw /\ sha256Cid raw = Ok c /\
    ValidateSpaceHeader (Some (mkRawSpaceHeaderWithId raw (NewSpaceId c (sh_ReplicationKey h)))) None acl settings =
      Ok (negb (bool_decide (sh_Version h = SpaceHeaderVersion1))).
Proof.
  intros Hk Hid Hemb Hone. destruct (SpaceHeader_law h) as (b & Hb & Hb').
  destruct (RawSpaceHeader_law (mkRawSpaceHeader b (ed25519_Sign (privKey k) b))) as (r & Hr & Hr').
  destruct (Cid_law r) as (c & Hc & _). exists r, c. split_and!; [|done|].
  - unfold signHeader, PrivKey_Sign. rewrite Hb. cbn [mbind res_bind]. exact Hr.
  - unfold ValidateSpaceHeader. cbn [opt_or mbind res_bind rshi_Id rshi_RawHeader]. unfold NewSpaceId.
    rewrite (splitDot_app _ _ (Cid_dotless _ _ Hc)). cbn [opt_or mbind res_bind]. rewrite (VerifyCid_Ok _ _ Hc).
    cbn [negb fail_if mbind res_bind]. rewrite Hr'. cbn [mbind res_bind rsh_SpaceHeader rsh_Signature]. rewrite Hb'.
    cbn [mbind res_bind]. rewrite Hid. change (UnmarshalEd25519PublicKeyProto ?x) with (pubKeyFromProto x).
    rewrite marshalled_proto by apply Hk. cbn [mbind res_bind]. rewrite mustVerify_Ok by apply Hk.
    cbn [mbind res_bind]. rewrite (bool_decide_true (FormatUint36 _ = _)) by done. cbn [negb fail_if mbind res_bind].
    case_bool_decide as Hv.
    + destruct (Hemb Hv) as [-> ->]. cbn. destruct (IsOneToOneType _) eqn:Ho; [|done].
      destruct (Hone eq_refl) as [info ->]. done.
    + cbn. destruct (IsOneToOneType _) eqn:Ho; [|done]. destruct (Hone eq_refl) as [info ->]. done.
Qed.

(** ** Both header versions *)

Lemma payloadV0_valid k h aclRootOf seed ts :
  key_pair_ok k -> sh_Identity h = marshalled (GetPublic k) -> sh_Version h = SpaceHeaderVersion0 ->
  IsOneToOneType (sh_SpaceType h) = false ->
  (forall spaceId, exists raw, aclRootOf spaceId = Ok raw /\ validateCreateSpaceAclPayload raw = Ok spaceId) ->
  exists p, payloadV0 k h aclRootOf seed ts = Ok p /\ ValidateSpaceStorageCreatePayload p = Ok tt.
Proof.
  intros Hk Hid Hv Hone Hacl. unfold payloadV0.
  destruct (header_valid k h None None Hk Hid) as (raw & c & Hs & Hc & _); [by rewrite Hv|by rewrite Hone|].
  rewrite Hs. cbn [mbind res_bind]. unfold NewCidFromBytes. rewrite Hc.
  set (spaceId := NewSpaceId c _). destruct (Hacl spaceId) as (acl & Ha & Hav). rewrite Ha. cbn [mbind res_bind].
  destruct (settingsRoot_valid (rwi_Id acl) k spaceId seed ts Hk) as (sraw & sid & Hset & Hsv). rewrite Hset.
  cbn [mbind res_bind]. eexists. split; [done|]. unfold ValidateSpaceStorageCreatePayload.
  cbn [ssp_SpaceHeaderWithId ssp_AclWithId ssp_SpaceSettingsWithId rtc_RawChange].
  destruct (header_valid k h (payloadSlice (rwi_Payload acl)) (Some sraw) Hk Hid) as (raw' & c' & Hs' & Hc' & Hh);
    [by rewrite Hv|by rewrite Hone|].
  rewrite Hs in Hs'. injection Hs' as <-. rewrite Hc in Hc'. injection Hc' as <-. fold spaceId in Hh. rewrite Hh.
  cbn [mbind res_bind]. rewrite Hav. cbn [mbind res_bind]. rewrite Hsv. cbn [mbind res_bind]. unfold non_nil.
  cbn [opt_or mbind res_bind rshi_Id]. rewrite (bool_decide_true (spaceId = spaceId)), (bool_decide_true (rwi_Id acl = _)) by done.
  by destruct (bool_decide _).
Qed.

Lemma payloadV1_valid k h aclRoot acl spaceId seed ts :
  key_pair_ok k -> (forall x y, sh_Identity (h x y) = marshalled (GetPublic k)) ->
  (forall x y, sh_Version (h x y) = SpaceHeaderVersion1) ->
  (forall x y, sh_AclPayload (h x y) = x) -> (forall x y, sh_SettingPayload (h x y) = y) ->
  (forall x y, IsOneToOneType (sh_SpaceType (h x y)) = true ->
     exists info, AclOneToOneInfo_UnmarshalVT (sh_SpaceHeaderPayload (h x y)) = Ok info) ->
  aclRoot = Ok acl -> validateCreateSpaceAclPayload acl = Ok spaceId ->
  exists p, payloadV1 k h aclRoot seed ts = Ok p /\ ValidateSpaceStorageCreatePayload p = Ok tt /\
    ssp_AclWithId p = acl.
Proof.
  intros Hk Hid Hv Hea Hes Hone -> Hav. unfold payloadV1. cbn [mbind res_bind].
  destruct (settingsRoot_valid (rwi_Id acl) k "" seed ts Hk) as (sraw & sid & Hset & Hsv). rewrite Hset.
  cbn [mbind res_bind rtc_RawChange]. change (slice (Some sraw)) with sraw.
  destruct (header_valid k (h (rwi_Payload acl) sraw) (payloadSlice (rwi_Payload acl)) (Some sraw) Hk (Hid _ _))
    as (raw & c & Hs & Hc & Hh); [|apply Hone|].
  { intros _. rewrite Hea, Hes. split; simpl; [|by rewrite bool_decide_true].
    unfold payloadSlice. case_decide; [done|]. simpl. by rewrite bool_decide_true. }
  rewrite Hs. cbn [mbind res_bind]. unfold NewCidFromBytes. rewrite Hc. cbn [mbind res_bind].
  eexists. split; [done|]. split; [|done]. unfold ValidateSpaceStorageCreatePayload.
  cbn [ssp_SpaceHeaderWithId ssp_AclWithId ssp_SpaceSettingsWithId rtc_RawChange]. rewrite Hh.
  cbn [mbind res_bind]. rewrite Hav. cbn [mbind res_bind]. rewrite Hsv. cbn [mbind res_bind]. unfold non_nil.
  cbn [opt_or mbind res_bind rshi_Id]. rewrite Hv. rewrite (bool_decide_true (SpaceHeaderVersion1 = _)) by done.
  cbn. by rewrite bool_decide_true.
Qed.

(** ** The constructors *)

Lemma createRoot_valid now payload spaceId readKey mk :
  key_pair_ok (scp_SigningKey payload) -> key_pair_ok (scp_MasterKey payload) ->
  rotation_ok (mkReadKeyChangePayload (scp_MetadataKey payload) (scp_ReadKey payload)) readKey mk ->
  exists raw, AclBuild.BuildRoot now (createRootContent payload spaceId) = Ok raw /\
    validateCreateSpaceAclPayload raw = Ok spaceId.
Proof.
  intros Hk Hm Hrot. destruct (BuildRoot_Ok now (createRootContent payload spaceId) readKey mk Hk Hrot) as (encMk & _ & ->).
  apply (aclRoot_valid (rootOf now (createRootContent payload spaceId) readKey mk encMk) _ (scp_MasterKey payload)); try done.
  intros [= Hs]. apply Box_nonempty in Hs; [done|]. by apply (UnmarshalEd25519PublicKey_length _ _ (proj2 Hk)).
Qed.

Lemma deriveRoot_valid now payload spaceId :
  key_pair_ok (sdp_SigningKey payload) -> key_pair_ok (sdp_MasterKey payload) ->
  exists raw, AclBuild.BuildRoot now (deriveRootContent payload spaceId) = Ok raw /\
    validateCreateSpaceAclPayload raw = Ok spaceId.
Proof.
  intros Hk Hm. unfold AclBuild.BuildRoot, signedRoot, PubKey_Raw, PubKey_Marshall, PrivKey_Sign.
  cbn [mbind res_bind deriveRootContent rcn_Change rkp_ReadKey rcn_PrivKey rcn_MasterKey rcn_Options rcn_SpaceId].
  set (root := mkAclRoot _ _ _ _ _ _ _ _ _ _ _).
  by apply (aclRoot_valid root (sdp_SigningKey payload) (sdp_MasterKey payload)).
Qed.

(** C12: a space someone creates is a space everyone accepts.  With key pairs for signing and
    for the master key, a read key and a metadata key, and a type that is not reserved for
    one-to-one spaces, each of the four constructors returns a payload, and the payload
    passes the check of whoever receives it. *)
Theorem space_payload_valid now seed1 seed2 create derive readKey mk :
  key_pair_ok (scp_SigningKey create) -> key_pair_ok (scp_MasterKey create) ->
  rotation_ok (mkReadKeyChangePayload (scp_MetadataKey create) (scp_ReadKey create)) readKey mk ->
  IsOneToOneType (scp_SpaceType create) = false ->
  key_pair_ok (sdp_SigningKey derive) -> key_pair_ok (sdp_MasterKey derive) ->
  IsOneToOneType (sdp_SpaceType derive) = false ->
  Forall (fun made => exists p, made = Ok p /\ ValidateSpaceStorageCreatePayload p = Ok tt)
    [StoragePayloadForSpaceCreate now seed1 seed2 create;
     StoragePayloadForSpaceCreateV1 now seed1 seed2 create;
     StoragePayloadForSpaceDerive derive;
     StoragePayloadForSpaceDeriveV1 derive].
Proof.
  intros Hk Hm Hrot Hc Hk' Hm' Hd. repeat constructor.
  - apply payloadV0_valid; try done. intros spaceId. by eapply createRoot_valid.
  - destruct (createRoot_valid (ck_acl now) create "" readKey mk Hk Hm Hrot) as (acl & Hacl & Hv).
    destruct (payloadV1_valid (scp_SigningKey create)
      (createHeader create (marshalled (GetPublic (scp_SigningKey create))) (ck_header now) seed1 SpaceHeaderVersion1)
      (AclBuild.BuildRoot (ck_acl now) (createRootContent create "")) acl "" seed2 (ck_settings now) Hk)
      as (p & Hp & Hpv & _); try done; [simpl; by rewrite Hc|].
    by exists p.
  - unfold StoragePayloadForSpaceDerive. cbn [mbind res_bind PubKey_Marshall replicationKey PubKey_Raw].
    apply payloadV0_valid; try done. intros spaceId. by apply deriveRoot_valid.
  - destruct (deriveRoot_valid 0 derive "" Hk' Hm') as (acl & Hacl & Hv).
    destruct (payloadV1_valid (sdp_SigningKey derive)
      (deriveHeader derive (marshalled (GetPublic (sdp_SigningKey derive)))
         (fnv64 fnvOffset64 (pubKey (GetPublic (sdp_SigningKey derive)))) SpaceHeaderVersion1)
      (AclBuild.BuildRoot 0 (deriveRootContent derive "")) acl "" "" 0 Hk')
      as (p & Hp & Hpv & _); try done; [simpl; by rewrite Hd|].
    by exists p.
Qed.

(** ** One-to-one spaces *)

Context `{!OneToOneLaws}.

(** The order of the two public keys does not matter. *)
Lemma buildSortedContext_comm a b : buildSortedContext a b = buildSortedContext b a.
Proof.
  unfold buildSortedContext. rewrite (String.compare_antisym b a).
  destruct (String.compare a b) eqn:Hc; simpl; [|done|done]. apply String.compare_eq_iff in Hc. by rewrite Hc.
Qed.

Lemma go_copy_full dst src : String.length src = String.length dst -> go_copy dst src = src.
Proof.
  intros Hl. unfold go_copy. rewrite Hl, Nat.sub_diag, <- Hl, substring_all.
  assert (forall (s : string) n, String.substring n 0 s = "") as ->.
  { induction s as [|c s IH]; intros [|n]; simpl; (done || apply IH). }
  apply append_nil_r_str.
Qed.

(** Two accounts derive the same key pair from each other. *)
Lemma GenerateSharedKey_agree a b path : key_pair_ok a -> key_pair_ok b -> path <> ""%string ->
  slip21_IsValidPath path = true ->
  exists k, GenerateSharedKey a (GetPublic b) path = Ok k /\
    GenerateSharedKey b (GetPublic a) path = Ok k /\ key_pair_ok k.
Proof.
  intros Ha Hb Hne Hpath. destruct (X25519_law a b Ha Hb) as (s & Hs & Hs').
  assert (forall k, key_pair_ok k -> Ed25519PublicKeyToCurve25519 (pubKey (GetPublic k)) =
    Ok (Point_BytesMontgomery (pubKey (GetPublic k)))) as Hcurve.
  { intros k [_ Hk]. unfold UnmarshalEd25519PublicKey in Hk. go_inv. unfold Ed25519PublicKeyToCurve25519.
    by match goal with Hp : Point_SetBytes _ = Ok _ |- _ => rewrite Hp end. }
  destruct (hkdf_law s (buildSortedContext (pubKey (GetPublic a)) (pubKey (GetPublic b)))) as (seed & Hseed & Hlen).
  destruct (Derive_law seed path) as (raw & Hraw & Hrlen); [lia|done|].
  exists (mkPrivKey (ed25519_NewKeyFromSeed raw)).
  split_and!; [| |by apply NewKeyFromSeed_law].
  all: unfold GenerateSharedKey; rewrite (bool_decide_eq_false_2 _ Hne), Hpath;
    cbn [negb fail_if mbind res_bind PrivKey_Raw PubKey_Raw]; rewrite Hcurve by done; cbn [mbind res_bind].
  - rewrite Hs. cbn [mbind res_bind]. rewrite Hseed. cbn [mbind res_bind]. rewrite Hraw. cbn [mbind res_bind].
    by rewrite go_copy_full by (by rewrite Hlen, Hrlen).
  - rewrite Hs'. cbn [mbind res_bind]. rewrite buildSortedContext_comm, Hseed. cbn [mbind res_bind]. rewrite Hraw.
    cbn [mbind res_bind]. by rewrite go_copy_full by (by rewrite Hlen, Hrlen).
Qed.

(** The message of a pair of accounts, in either order. *)
Definition infoOf (shared : PrivKey) (a b : PubKey) : AclOneToOneInfo :=
  let w0 := marshalled a in
  let w1 := marshalled b in
  mkAclOneToOneInfo (Some (marshalled (GetPublic shared))) (if String.ltb w1 w0 then [w1; w0] else [w0; w1]).

Lemma infoOf_comm shared a b : infoOf shared a b = infoOf shared b a.
Proof.
  unfold infoOf. f_equal. destruct (String.ltb (marshalled b) (marshalled a)) eqn:Hba, (String.ltb (marshalled a) (marshalled b)) eqn:Hab; try done.
  - unfold String.ltb in *. rewrite String.compare_antisym in Hab. destruct (String.compare (marshalled b) (marshalled a)); done.
  - unfold String.ltb in *. rewrite String.compare_antisym in Hab.
    destruct (String.compare (marshalled b) (marshalled a)) eqn:Hc; try done.
    apply String.compare_eq_iff in Hc. by rewrite Hc.
Qed.

Lemma marshalled_nonempty pk : curvePoint pk -> marshalled pk <> ""%string.
Proof.
  intros Hpk%UnmarshalEd25519PublicKey_length He.
  pose proof (Key_law KeyType_Ed25519Public (pubKey pk)) as Hk. unfold marshalled in He. rewrite He, Key_empty in Hk.
  assert (Hd : Ok (KeyType_Ed25519Public, ""%string) = Ok (KeyType_Ed25519Public, pubKey pk))
    by (apply Hk; unfold KeyType_Ed25519Public; lia).
  injection Hd as Hd. by rewrite <- Hd in Hpk.
Qed.

(** One of the two accounts reads the root: it finds itself, derives the shared keys from
    the other writer and checks the owner. *)
Lemma oneToOne_keys me other shared mshared rootId info st :
  key_pair_ok me -> key_pair_ok other -> key_pair_ok shared -> key_pair_ok mshared ->
  GenerateSharedKey me (GetPublic other) AnysyncOneToOneSpacePath = Ok shared ->
  GenerateSharedKey me (GetPublic other) AnysyncMetadataOneToOnePath = Ok mshared ->
  info = infoOf shared (GetPublic me) (GetPublic other) -> st_key st = me ->
  exists readKey enc, DeriveSymmetricKey (privKey shared) AnysyncReadOneToOneSpacePath = Ok readKey /\
    deriveOneToOneKeys rootId info st = (put_keys rootId (mkAclKeys (Some readKey) (Some mshared)
      (Some (GetPublic mshared)) None enc) st, Ok tt).
Proof.
  intros Hme Hother [[Hslen _] _] Hmsh Hsk Hmk Hinfo Hkey.
  destruct (Derive_law (privKey shared) AnysyncReadOneToOneSpacePath) as (raw & Hraw & Hlen);
    [rewrite Hslen; lia|apply Path_law; set_solver|].
  assert (Hrk : DeriveSymmetricKey (privKey shared) AnysyncReadOneToOneSpacePath = Ok (mkSymKey raw)).
  { unfold DeriveSymmetricKey. rewrite Hraw. cbn [mbind res_bind]. unfold UnmarshallAESKey.
    rewrite bool_decide_false by (rewrite Hlen; by intros []). done. }
  destruct (Aes_law (mkSymKey raw) (privKey mshared) Hlen) as (enc & Henc & _).
  exists (mkSymKey raw), enc. split; [done|].
  assert (Hbob : (if decide (marshalled (GetPublic me) = nth 0 (oto_Writers info) ""%string)
    then nth 1 (oto_Writers info) ""%string else nth 0 (oto_Writers info) ""%string) = marshalled (GetPublic other)).
  { subst info. simpl. destruct (String.ltb _ _); simpl; by case_decide. }
  unfold deriveOneToOneKeys. erewrite st_bind_run by reflexivity. cbn [id]. rewrite Hkey.
  erewrite st_bind_run by reflexivity.
  change (Key_MarshalVT KeyType_Ed25519Public (pubKey (GetPublic me))) with (marshalled (GetPublic me)).
  cbv zeta. rewrite Hbob. change (UnmarshalEd25519PublicKeyProto ?x) with (pubKeyFromProto x).
  rewrite marshalled_proto by apply Hother. erewrite st_bind_run by reflexivity.
  rewrite Hsk. erewrite st_bind_run by reflexivity. erewrite st_bind_run by reflexivity.
  erewrite st_bind_run by (unfold lifts; subst info; rewrite bool_decide_true by done; reflexivity).
  erewrite st_bind_run by reflexivity. rewrite Hrk. erewrite st_bind_run by reflexivity.
  rewrite Hmk. erewrite st_bind_run by reflexivity. erewrite st_bind_run by reflexivity.
  rewrite Henc. erewrite st_bind_run by reflexivity. reflexivity.
Qed.

(** The accounts after the writers were added. *)
Definition writersAdded (rootId : string) (pks : list PubKey) (m : gmap string AccountState) : gmap string AccountState :=
  foldl (fun m pk => <[mapKeyFromPubKey pk := rootAccount rootId pk AclPermissionsWriter ""]> m) m pks.

Lemma addWriters_run rootId pks st :
  Forall curvePoint pks ->
  st_each (addWriter rootId) (marshalled <$> pks) st =
  (set_accountStates (writersAdded rootId pks (st_accountStates st)) st, Ok tt).
Proof.
  intros Hpks. revert st. induction Hpks as [|pk pks Hpk _ IH]; intros st; [by destruct st|].
  cbn [fmap list_fmap st_each].
  rewrite (st_bind_run _ _ st (put_account (mapKeyFromPubKey pk) (rootAccount rootId pk AclPermissionsWriter "") st) tt).
  - rewrite IH. reflexivity.
  - unfold addWriter. change (UnmarshalEd25519PublicKeyProto ?x) with (pubKeyFromProto x).
    rewrite marshalled_proto by done. reflexivity.
Qed.

Lemma writersAdded_writer rootId pks m pk :
  pk ∈ pks -> exists acc, writersAdded rootId pks m !! mapKeyFromPubKey pk = Some acc /\
    as_Permissions acc = AclPermissionsWriter.
Proof.
  assert (Hkeep : forall pks m, (exists acc, m !! mapKeyFromPubKey pk = Some acc /\ as_Permissions acc = AclPermissionsWriter) ->
    exists acc, writersAdded rootId pks m !! mapKeyFromPubKey pk = Some acc /\ as_Permissions acc = AclPermissionsWriter).
  { intros l. induction l as [|q l IH]; intros m' Hm'; [done|]. apply IH.
    destruct (decide (mapKeyFromPubKey q = mapKeyFromPubKey pk)) as [->|];
      [rewrite lookup_insert_eq|rewrite lookup_insert_ne by done]; [by eexists|done]. }
  revert m. induction pks as [|q l IH]; intros m Hin; [by apply not_elem_of_nil in Hin|].
  apply elem_of_cons in Hin as [->|Hin]; [|by apply IH].
  apply (Hkeep l). rewrite lookup_insert_eq. by eexists.
Qed.

(** The writers of the message are the two accounts. *)
Lemma infoOf_writers shared a b :
  curvePoint a -> curvePoint b ->
  exists pks, oto_Writers (infoOf shared a b) = marshalled <$> pks /\ Forall curvePoint pks /\
    length pks = 2%nat /\ a ∈ pks /\ b ∈ pks.
Proof.
  intros Ha Hb. unfold infoOf. cbn [oto_Writers]. destruct (String.ltb _ _).
  - exists [b; a]. split_and!; [done|by repeat constructor|done|set_solver..].
  - exists [a; b]. split_and!; [done|by repeat constructor|done|set_solver..].
Qed.

Lemma oneToOne_state me other shared mshared record root shouldValidate :
  key_pair_ok me -> key_pair_ok other -> key_pair_ok shared -> key_pair_ok mshared ->
  GenerateSharedKey me (GetPublic other) AnysyncOneToOneSpacePath = Ok shared ->
  GenerateSharedKey me (GetPublic other) AnysyncMetadataOneToOnePath = Ok mshared ->
  rec_Model record = ModelRoot root ->
  root_OneToOneInfo root = Some (infoOf shared (GetPublic me) (GetPublic other)) ->
  exists readKey st, DeriveSymmetricKey (privKey shared) AnysyncReadOneToOneSpacePath = Ok readKey /\
    newAclStateWithKeys record me shouldValidate = Ok st /\
    CurrentReadKey st = Ok (Some readKey) /\ CurrentMetadataKey st = Ok (Some (GetPublic mshared)) /\
    st_isOneToOne st = true /\
    Permissions st (GetPublic me) = AclPermissionsWriter /\ Permissions st (GetPublic other) = AclPermissionsWriter.
Proof.
  intros Hme Hother Hsh Hmsh Hsk Hmk Hmodel Hinfo.
  destruct (infoOf_writers shared (GetPublic me) (GetPublic other)) as (pks & Hwr & Hpks & Hl & Hin1 & Hin2);
    [apply Hme|apply Hother|].
  set (info := infoOf shared (GetPublic me) (GetPublic other)) in *.
  set (st0 := emptyAclState (rec_Id record) me shouldValidate).
  destruct (oneToOne_keys me other shared mshared (rec_Id record) info st0) as (readKey & enc & Hrk & Hrun); try done.
  assert (Hfind : findMeAndValidateOneToOne info st0 = Ok true).
  { unfold findMeAndValidateOneToOne, PubKey_Marshall.
    rewrite (bool_decide_true (length _ = _)) by (by rewrite Hwr, length_fmap).
    rewrite (bool_decide_false (oto_Owner _ = _)) by done.
    cbn [negb fail_if mbind res_bind]. f_equal. apply bool_decide_true. rewrite Hwr. exact (list_elem_of_fmap_2 marshalled _ _ Hin1). }
  exists readKey. unfold newAclStateWithKeys, applyRoot. fold st0. rewrite Hmodel, Hinfo.
  unfold setOneToOneAcl. erewrite st_bind_run by (unfold calls; rewrite Hfind; reflexivity).
  rewrite (st_bind_run _ _ _ _ _ Hrun).
  change (slice (oto_Owner info)) with (marshalled (GetPublic shared)).
  change (UnmarshalEd25519PublicKeyProto ?x) with (pubKeyFromProto x). rewrite marshalled_proto by apply Hsh.
  erewrite st_bind_run by reflexivity. erewrite st_bind_run by reflexivity.
  rewrite Hwr. erewrite st_bind_run by (apply addWriters_run; exact Hpks).
  erewrite st_bind_run by reflexivity. erewrite st_bind_run by reflexivity.
  eexists. split; [done|]. split; [reflexivity|].
  unfold CurrentReadKey, CurrentMetadataKey, CurrentReadKeyId, Permissions.
  cbn [st_accountStates set_isOneToOne set_lastRecordId set_readKeyChanges set_accountStates].
  match goal with |- context [writersAdded ?r pks ?m] =>
    destruct (writersAdded_writer r pks m _ Hin1) as (acc1 & -> & ->);
    destruct (writersAdded_writer r pks m _ Hin2) as (acc2 & -> & ->) end.
  cbn. by rewrite !lookup_insert_eq.
Qed.

(** C11: both accounts of a one-to-one space make the same space.  Whichever of two accounts
    builds the payload, it is the same one and it passes the check; its ACL root reads back
    under its id, and from it each account derives the same read key and metadata key and
    finds both accounts to be writers. *)
Theorem space_one_to_one_agree a b spaceType verifier shouldValidate :
  key_pair_ok a -> key_pair_ok b -> IsOneToOneType spaceType = true ->
  exists p rec readKey mk sta stb,
    StoragePayloadForOneToOneSpaceWithType a (GetPublic b) spaceType = Ok p /\
    StoragePayloadForOneToOneSpaceWithType b (GetPublic a) spaceType = Ok p /\
    ValidateSpaceStorageCreatePayload p = Ok tt /\
    UnmarshallWithId (NewAclRecordBuilder (rwi_Id (ssp_AclWithId p)) None verifier) (ssp_AclWithId p) = Ok rec /\
    newAclStateWithKeys rec a shouldValidate = Ok sta /\ newAclStateWithKeys rec b shouldValidate = Ok stb /\
    Forall (fun st => CurrentReadKey st = Ok (Some readKey) /\ CurrentMetadataKey st = Ok (Some mk) /\
              Permissions st (GetPublic a) = AclPermissionsWriter /\
              Permissions st (GetPublic b) = AclPermissionsWriter) [sta; stb].
Proof.
  intros Ha Hb Hty.
  destruct (GenerateSharedKey_agree a b AnysyncOneToOneSpacePath Ha Hb) as (shared & Hab & Hba & Hsh);
    [done|apply Path_law; set_solver|].
  destruct (GenerateSharedKey_agree a b AnysyncMetadataOneToOnePath Ha Hb) as (msh & Hmab & Hmba & Hmsh);
    [done|apply Path_law; set_solver|].
  set (info := infoOf shared (GetPublic a) (GetPublic b)).
  assert (Howner : oto_Owner info <> Some ""%string) by (intros [= He]; by apply (marshalled_nonempty (GetPublic shared)) in He; [|apply Hsh]).
  destruct (OneToOneInfo_law info Howner) as (ib & Hib & Hib').
  set (content := mkRootContent shared shared "" (mkReadKeyChangePayload None None) "" None).
  set (root := mkAclRoot (marshalled (GetPublic shared)) None "" "" "" (Some info) None 0 "" (marshalled (GetPublic shared))
    (ed25519_Sign (privKey shared) (pubKey (GetPublic shared)))).
  assert (Hroot : BuildOneToOneRoot content (Some info) = marshalAclRoot root shared) by done.
  assert (Hinfo : forall i, root_OneToOneInfo root = Some i -> oto_Owner i <> Some ""%string) by (by intros i [= <-]).
  destruct (aclRoot_valid root shared shared) as (raw & Hraw & Hrv); try done.
  destruct (marshalAclRoot_reads root shared verifier None) as (raw' & sig & Hraw' & _ & Hu); try done.
  rewrite Hraw in Hraw'. injection Hraw' as <-.
  destruct (payloadV1_valid shared (oneToOneHeader spaceType (marshalled (GetPublic shared)) ib
    (fnv64 fnvOffset64 (pubKey (GetPublic shared)))) (BuildOneToOneRoot content (Some info)) raw "" "" 0 Hsh)
    as (p & Hp & Hv & Hacl); try done; [by eexists|].
  set (rec := mkAclRecord _ _ _ _ _ _ _ _) in Hu.
  destruct (oneToOne_state a b shared msh rec root shouldValidate) as (rk & sta & Hrk & Hsta & Ha1 & Ha2 & _ & Ha3 & Ha4); try done.
  destruct (oneToOne_state b a shared msh rec root shouldValidate) as (rk' & stb & Hrk' & Hstb & Hb1 & Hb2 & _ & Hb3 & Hb4); try done.
  { cbn [root_OneToOneInfo root]. unfold info. by rewrite infoOf_comm. }
  rewrite Hrk in Hrk'. injection Hrk' as <-.
  exists p, rec, rk, (GetPublic msh), sta, stb. rewrite Hacl. split_and!; try done; [| |repeat constructor; done].
  - unfold StoragePayloadForOneToOneSpaceWithType. rewrite Hty, Hab. cbn [negb fail_if mbind res_bind].
    change (makeOneToOneInfo shared (GetPublic a) (GetPublic b)) with (Ok info). cbn [mbind res_bind]. rewrite Hib. exact Hp.
  - unfold StoragePayloadForOneToOneSpaceWithType. rewrite Hty, Hba. cbn [negb fail_if mbind res_bind].
    change (makeOneToOneInfo shared (GetPublic b) (GetPublic a)) with (Ok (infoOf shared (GetPublic b) (GetPublic a))).
    rewrite infoOf_comm. cbn [mbind res_bind]. fold info. rewrite Hib. exact Hp.
Qed.

(** ** What the id of a space fixes *)

Definition headerOf (p : SpaceStorageCreatePayload) : res SpaceHeader :=
  raw ← opt_or (ssp_SpaceHeaderWithId p) ErrIncorrectSpaceHeader;
  rawSpaceHeader ← RawSpaceHeader_UnmarshalVT (rshi_RawHeader raw);
  SpaceHeader_UnmarshalVT (rsh_SpaceHeader rawSpaceHeader).
Definition spaceIdOf (p : SpaceStorageCreatePayload) : option string := rshi_Id <$> ssp_SpaceHeaderWithId p.
Definition carriesRoots (p : SpaceStorageCreatePayload) : Prop :=
  rwi_Payload (ssp_AclWithId p) <> ""%string /\ is_Some (rtc_RawChange (ssp_SpaceSettingsWithId p)).

Lemma VerifyCid_inv b c : VerifyCid b c = true -> sha256Cid b = Ok c.
Proof. unfold VerifyCid. destruct (sha256Cid b); [|done]. by intros ->%bool_decide_eq_true. Qed.

(** The id of an accepted space is the content id of its header. *)
Lemma payload_id p h :
  ValidateSpaceStorageCreatePayload p = Ok tt -> headerOf p = Ok h ->
  exists w c r, ssp_SpaceHeaderWithId p = Some w /\ splitDot (rshi_Id w) = Some (c, r) /\
    sha256Cid (rshi_RawHeader w) = Ok c.
Proof.
  intros Hval _. unfold ValidateSpaceStorageCreatePayload, ValidateSpaceHeader in Hval.
  destruct (ssp_SpaceHeaderWithId p) as [w|]; [|done]. cbn [opt_or mbind res_bind] in Hval.
  destruct (splitDot (rshi_Id w)) as [[c r]|] eqn:Hs; [|done]. cbn [opt_or mbind res_bind] in Hval.
  destruct (VerifyCid (rshi_RawHeader w) c) eqn:Hc; [|done].
  exists w, c, r. split_and!; [done..|]. by apply VerifyCid_inv.
Qed.

(** What an accepted version 1 payload embeds, and the ids of its roots. *)
Lemma payload_committed p h :
  ValidateSpaceStorageCreatePayload p = Ok tt -> headerOf p = Ok h -> sh_Version h = SpaceHeaderVersion1 ->
  rwi_Payload (ssp_AclWithId p) <> ""%string -> is_Some (rtc_RawChange (ssp_SpaceSettingsWithId p)) ->
  exists w c r, ssp_SpaceHeaderWithId p = Some w /\ splitDot (rshi_Id w) = Some (c, r) /\
    sha256Cid (rshi_RawHeader w) = Ok c /\
    rwi_Payload (ssp_AclWithId p) = sh_AclPayload h /\
    rtc_RawChange (ssp_SpaceSettingsWithId p) = Some (sh_SettingPayload h) /\
    sha256Cid (sh_AclPayload h) = Ok (rwi_Id (ssp_AclWithId p)) /\
    sha256Cid (sh_SettingPayload h) = Ok (rtc_Id (ssp_SpaceSettingsWithId p)).
Proof.
  intros Hval Hh Hv Ha [rawChange Hs]. destruct (payload_id p h Hval Hh) as (w & c & r & Hw & Hsplit & Hcid).
  exists w, c, r. split; [done|]. split; [done|]. split; [done|].
  unfold headerOf in Hh. rewrite Hw in Hh. cbn [opt_or mbind res_bind] in Hh.
  unfold ValidateSpaceStorageCreatePayload, ValidateSpaceHeader in Hval. rewrite Hw, Hs in Hval.
  cbn [opt_or mbind res_bind] in Hval. rewrite Hsplit in Hval. cbn [opt_or mbind res_bind] in Hval.
  destruct (VerifyCid (rshi_RawHeader w) c); [|done]. cbn [negb fail_if mbind res_bind] in Hval.
  destruct (RawSpaceHeader_UnmarshalVT (rshi_RawHeader w)) as [rh|]; [|done]. cbn [mbind res_bind] in Hval, Hh.
  rewrite Hh in Hval. cbn [mbind res_bind] in Hval. rewrite Hv in Hval.
  rewrite (bool_decide_true (SpaceHeaderVersion1 = _)) in Hval by done.
  unfold payloadSlice in Hval. rewrite decide_False in Hval by done. cbn [andb differs] in Hval.
  unfold validateCreateSpaceAclPayload, validateCreateSpaceSettingsPayload in Hval. rewrite Hs in Hval.
  change (slice (Some rawChange)) with rawChange in Hval. go_inv.
  repeat match goal with
  | Ho : _ || _ = false |- _ => apply orb_false_iff in Ho as [? ?]
  | Hn : negb _ = false |- _ => apply negb_false_iff in Hn
  | Hn : bool_decide _ = true |- _ => apply bool_decide_eq_true in Hn
  | Hc : VerifyCid _ _ = true |- _ => apply VerifyCid_inv in Hc
  end.
  split_and!; congruence.
Qed.

(** The id of a version 1 space fixes the space.  As long as content ids do not collide,
    two payloads that pass the check under one id, whose headers are of version 1 and which
    carry their roots, have the same ACL root and the same settings root. *)
Theorem space_v1_id_commits p q hp hq :
  (forall x y c, sha256Cid x = Ok c -> sha256Cid y = Ok c -> x = y) ->
  ValidateSpaceStorageCreatePayload p = Ok tt -> ValidateSpaceStorageCreatePayload q = Ok tt ->
  headerOf p = Ok hp -> headerOf q = Ok hq -> spaceIdOf p = spaceIdOf q ->
  sh_Version hp = SpaceHeaderVersion1 ->
  carriesRoots p -> carriesRoots q ->
  ssp_AclWithId p = ssp_AclWithId q /\ ssp_SpaceSettingsWithId p = ssp_SpaceSettingsWithId q /\
  rwi_Payload (ssp_AclWithId p) = sh_AclPayload hp /\
  rtc_RawChange (ssp_SpaceSettingsWithId p) = Some (sh_SettingPayload hp).
Proof.
  intros Hinj Hp Hq Hhp Hhq Hid Hv [Hpa Hps] [Hqa Hqs].
  destruct (payload_committed p hp Hp Hhp Hv Hpa Hps) as (wp & cp & rp & Hwp & Hsp & Hcp & Hap & Hsetp & Hidap & Hidsp).
  assert (Hraw : hp = hq).
  { destruct (payload_id q hq Hq Hhq) as (wq & cq & rq & Hwq & Hsq & Hcq).
    unfold spaceIdOf in Hid. rewrite Hwp, Hwq in Hid. injection Hid as Hid. rewrite Hid, Hsq in Hsp. injection Hsp as -> ->.
    assert (Heq : rshi_RawHeader wp = rshi_RawHeader wq) by (by eapply Hinj).
    unfold headerOf in Hhp, Hhq. rewrite Hwp in Hhp. rewrite Hwq in Hhq. simpl in Hhp, Hhq. rewrite Heq in Hhp. congruence. }
  subst hq. destruct (payload_committed q hp Hq Hhq Hv Hqa Hqs) as (_ & _ & _ & _ & _ & _ & Haq & Hsetq & Hidaq & Hidsq).
  split_and!; [| |done|done].
  - destruct (ssp_AclWithId p), (ssp_AclWithId q). simpl in *. congruence.
  - destruct (ssp_SpaceSettingsWithId p), (ssp_SpaceSettingsWithId q). simpl in *. subst. simpl in *. congruence.
Qed.
End payloads.

(** * The payloads of a space on concrete keys: the header encoders with their laws, a pair of
    accounts that agree on a key, the witnesses, and a version 0 space under whose id a
    stranger's ACL root passes. *)

Local Open Scope string_scope.

#[local] Existing Instances fullCodec toyBuildCodec toyBox toyBox_laws.

(** A content id writes the bytes out in letters: it has no dot and does not collide. *)
Definition nibble (a b c d : bool) : ascii := Ascii a b c d false true true false.
Fixpoint letters (s : string) : string :=
  match s with
  | EmptyString => EmptyString
  | String (Ascii a b c d e f g h) s => String (nibble a b c d) (String (nibble e f g h) (letters s))
  end.
Lemma letters_inj s t : letters s = letters t -> s = t.
Proof.
  revert t. induction s as [|[] s IH]; intros [|[] t]; simpl; try done. intros [= <- <- <- <- <- <- <- <- Ht].
  f_equal. by apply IH.
Qed.

#[local] Instance lettersCodec : ListCodec := listCodecWith (fun b => String "c" (letters b)).
#[local] Instance lettersCodec_laws : BuildCodecLaws.
Proof. by apply codec_laws. Qed.

#[local] Instance toySpaceCodec : SpaceCodec := {|
  SpaceHeader_MarshalVT := fun h => Ok (ser (sh_Identity h, sh_Timestamp h, sh_SpaceType h, sh_ReplicationKey h, sh_Seed h,
    sh_SpaceHeaderPayload h, sh_AclPayload h, sh_SettingPayload h, sh_Version h, sh_FileprotoVersion h));
  SpaceHeader_UnmarshalVT := message (fun '(a, b, c, d, e, f, g, h, i, j) => mkSpaceHeader a b c d e f g h i j);
  RawSpaceHeader_MarshalVT := fun h => Ok (ser (rsh_SpaceHeader h, rsh_Signature h));
  RawSpaceHeader_UnmarshalVT := message (fun '(a, b) => mkRawSpaceHeader a b);
  AclOneToOneInfo_MarshalVT := fun i => Ok (ser (nonEmpty (oto_Owner i), oto_Writers i));
  AclOneToOneInfo_UnmarshalVT := message (fun '(a, b) => mkAclOneToOneInfo a b);
|}.

Lemma letters_dotless s : splitDot (letters s) = None.
Proof.
  induction s as [|[a b c d e f g h] s IH]; [done|]. cbn [letters splitDot].
  assert (Hn : forall a b c d, Ascii.eqb (nibble a b c d) "." = false) by (by intros [] [] [] []).
  rewrite !Hn, IH. done.
Qed.

#[local] Instance toySpaceCodec_laws : SpaceCodecLaws.
Proof.
  split.
  - intros []. eexists. split; [reflexivity|]. cbn [SpaceHeader_UnmarshalVT toySpaceCodec]. by rewrite message_law.
  - intros []. eexists. split; [reflexivity|]. cbn [RawSpaceHeader_UnmarshalVT toySpaceCodec]. by rewrite message_law.
  - intros [] Ho. eexists. split; [reflexivity|]. cbn [AclOneToOneInfo_UnmarshalVT toySpaceCodec]. rewrite message_law.
    cbn in *. by rewrite nonEmpty_id.
  - intros m. by eexists.
  - intros m. by eexists.
  - intros b c [= <-]. cbn [splitDot]. by rewrite letters_dotless.
Qed.

(** ** Created and derived spaces *)

Definition exCreate : SpaceCreatePayload :=
  mkSpaceCreatePayload (privOf alice) "anytype.space" 20 "" (privOf "W") (Some key2) (Some (privOf "N")) "alice's name" None 0.
Definition exDerive : SpaceDerivePayload :=
  mkSpaceDerivePayload (privOf alice) (privOf "W") "anytype.techspace" "" 0.
Definition exClock : clock := mkClock 3 4 5.

Lemma space_payload_valid_witness :
  Forall (fun made => exists p, made = Ok p /\ ValidateSpaceStorageCreatePayload p = Ok tt)
    [StoragePayloadForSpaceCreate exClock "s1" "s2" exCreate;
     StoragePayloadForSpaceCreateV1 exClock "s1" "s2" exCreate;
     StoragePayloadForSpaceDerive exDerive;
     StoragePayloadForSpaceDeriveV1 exDerive].
Proof.
  apply (space_payload_valid exClock "s1" "s2" exCreate exDerive key2 (privOf "N")).
  - by apply pair_ok.
  - by apply pair_ok.
  - split_and!; [done..|by apply pair_ok].
  - reflexivity.
  - by apply pair_ok.
  - by apply pair_ok.
  - reflexivity.
Defined.

(** The id ends in the replication key, in base 36. *)
Example exCreate_id :
  (p ← StoragePayloadForSpaceCreate exClock "s1" "s2" (mkSpaceCreatePayload (privOf alice) "t" (2 ^ 64 - 1) "" (privOf "W") None None "" None 0);
   Ok (snd <$> (spaceIdOf p ≫= splitDot))) = Ok (Some "3w5e11264sgsf").
Proof. vm_compute. reflexivity. Qed.

Definition exV1 : SpaceStorageCreatePayload :=
  match StoragePayloadForSpaceCreateV1 exClock "s1" "s2" exCreate with
  | Ok p => p
  | Err _ => mkSpaceStorageCreatePayload (mkRawRecordWithId "" "") None (mkRawTreeChangeWithId None "")
  end.
Definition exV1Header : SpaceHeader :=
  match headerOf exV1 with Ok h => h | Err _ => mkSpaceHeader "" 0 "" 0 "" "" "" "" 0 0 end.

Lemma exV1_header : headerOf exV1 = Ok exV1Header.
Proof.
  assert (Hok : match headerOf exV1 with Ok _ => true | Err _ => false end = true) by (vm_compute; reflexivity).
  unfold exV1Header. by destruct (headerOf exV1).
Qed.
Lemma exV1_valid : ValidateSpaceStorageCreatePayload exV1 = Ok tt.
Proof. vm_compute. reflexivity. Qed.
Lemma exV1_carries : carriesRoots exV1.
Proof.
  split.
  - assert (Hb : bool_decide (rwi_Payload (ssp_AclWithId exV1) = "") = false) by (vm_compute; reflexivity).
    by apply bool_decide_eq_false in Hb.
  - assert (Hb : match rtc_RawChange (ssp_SpaceSettingsWithId exV1) with Some _ => true | None => false end = true)
      by (vm_compute; reflexivity).
    by destruct (rtc_RawChange (ssp_SpaceSettingsWithId exV1)).
Qed.

Lemma space_v1_id_commits_witness :
  ssp_AclWithId exV1 = ssp_AclWithId exV1 /\ ssp_SpaceSettingsWithId exV1 = ssp_SpaceSettingsWithId exV1 /\
  rwi_Payload (ssp_AclWithId exV1) = sh_AclPayload exV1Header /\
  rtc_RawChange (ssp_SpaceSettingsWithId exV1) = Some (sh_SettingPayload exV1Header).
Proof.
  apply (space_v1_id_commits exV1 exV1 exV1Header exV1Header).
  - intros x y c Hx Hy. injection Hx as Hx. injection Hy as Hy. rewrite <- Hx in Hy. injection Hy as Hy.
    symmetry. by apply letters_inj.
  - exact exV1_valid.
  - exact exV1_valid.
  - exact exV1_header.
  - exact exV1_header.
  - reflexivity.
  - vm_compute. reflexivity.
  - exact exV1_carries.
  - exact exV1_carries.
Defined.

(** ** A version 0 id does not fix the owner *)

(** bob builds an ACL root and settings that name alice's space and puts them under her
    header: the payload passes, and its owner is bob. *)
Definition aliceV0 : SpaceStorageCreatePayload :=
  match StoragePayloadForSpaceCreate exClock "s1" "s2" exCreate with
  | Ok p => p
  | Err _ => exV1
  end.
Definition stolenV0 : SpaceStorageCreatePayload :=
  let spaceId := default "" (spaceIdOf aliceV0) in
  match acl ← AclBuild.BuildRoot 9 (mkRootContent (privOf bob) (privOf "X") spaceId newKeys "" None);
        settings ← settingsRoot (rwi_Id acl) (privOf bob) spaceId "s3" 9;
        Ok (mkSpaceStorageCreatePayload acl (ssp_SpaceHeaderWithId aliceV0) settings) with
  | Ok p => p
  | Err _ => exV1
  end.
Definition ownerOf (p : SpaceStorageCreatePayload) : res PubKey :=
  rec ← UnmarshallWithId (NewAclRecordBuilder (rwi_Id (ssp_AclWithId p)) None ValidateFull) (ssp_AclWithId p);
  Ok (rec_Identity rec).

Lemma space_v0_foreign_acl :
  ValidateSpaceStorageCreatePayload aliceV0 = Ok tt /\ ownerOf aliceV0 = Ok (pubOf alice) /\
  ValidateSpaceStorageCreatePayload stolenV0 = Ok tt /\ ownerOf stolenV0 = Ok (pubOf bob) /\
  bool_decide (ssp_SpaceHeaderWithId stolenV0 <> None) = true /\ bool_decide (spaceIdOf stolenV0 = spaceIdOf aliceV0) = true.
Proof. split_and!; vm_compute; reflexivity. Qed.

(** ** One-to-one spaces *)

(** The agreement of the toy primitives. *)
Lemma toy_agree_comm a b : toy_agree a b = toy_agree b a.
Proof.
  unfold toy_agree. rewrite (String.compare_antisym b a).
  destruct (String.compare a b) eqn:Hc; simpl; [|done|done]. apply String.compare_eq_iff in Hc. by rewrite Hc.
Qed.

Lemma toy_curve k : key_pair_ok k -> Ed25519PrivateKeyToCurve25519 (privKey k) = toy_clamp (pubKey (GetPublic k)).
Proof.
  intros [[Hlen ->] Hk]. unfold Ed25519PrivateKeyToCurve25519. cbn [sha512_Sum toyShared ed25519_Public toySeal].
  set (seed := substring 0 32 (privKey k)). assert (String.length seed = 32%nat) as Hs by (apply substring_length; lia).
  fold (toy_clamp (seed ++ seed)). clearbody seed. clear -Hs.
  do 32 (destruct seed as [|? seed]; [done|]). destruct seed; [|done]. reflexivity.
Qed.

#[local] Instance toyOneToOneLaws : OneToOneLaws.
Proof.
  split.
  - intros a b Ha Hb. eexists. rewrite !toy_curve by done. cbn [curve25519_X25519 toyShared Point_BytesMontgomery].
    split; [reflexivity|]. by rewrite toy_agree_comm.
  - intros secret info. eexists. split; [reflexivity|]. apply substring_length. rewrite !length_append. simpl. lia.
  - intros path Hp. repeat (apply elem_of_cons in Hp as [->|Hp]; [reflexivity|]). by apply not_elem_of_nil in Hp.
  - intros seed path Hs _. eexists. split; [reflexivity|]. apply substring_length. unfold KeyBytes. lia.
  - intros seed Hs. do 32 (destruct seed as [|? seed]; [done|]). destruct seed; [|done]. split; [split|]; reflexivity.
Qed.

Lemma space_one_to_one_agree_witness :
  exists p rec readKey mk sta stb,
    StoragePayloadForOneToOneSpaceWithType (privOf alice) (GetPublic (privOf bob)) SpaceTypeOneToOneAny = Ok p /\
    StoragePayloadForOneToOneSpaceWithType (privOf bob) (GetPublic (privOf alice)) SpaceTypeOneToOneAny = Ok p /\
    ValidateSpaceStorageCreatePayload p = Ok tt /\
    UnmarshallWithId (NewAclRecordBuilder (rwi_Id (ssp_AclWithId p)) None ValidateFull) (ssp_AclWithId p) = Ok rec /\
    newAclStateWithKeys rec (privOf alice) true = Ok sta /\ newAclStateWithKeys rec (privOf bob) true = Ok stb /\
    Forall (fun st => CurrentReadKey st = Ok (Some readKey) /\ CurrentMetadataKey st = Ok (Some mk) /\
              Permissions st (GetPublic (privOf alice)) = AclPermissionsWriter /\
              Permissions st (GetPublic (privOf bob)) = AclPermissionsWriter) [sta; stb].
Proof.
  apply (space_one_to_one_agree (privOf alice) (privOf bob) SpaceTypeOneToOneAny ValidateFull true).
  - by apply pair_ok.
  - by apply pair_ok.
  - reflexivity.
Defined.
