(* ===== verification/SyncTree.v ===== *)
(** The sync tree (src/commonspace/object/tree/synctree: synctree.go, synchandler.go,
    headupdate.go, request.go, requestfactory.go, responsecollector.go, response): an
    object tree that tells its peers about new heads, answers their requests and adds what
    they send.

    What the tree tells the outside (broadcasts, sync status, queued requests, the closing
    callback) is a log of events.  The network is an argument: [send] is the answer of the
    stream to a response.  Locks have no counterpart; a request is answered from one state
    of the tree, although the code gives up the lock between batches. *)

From Stdlib Require Import ZArith Lia String.
From stdpp Require Import base option list gmap strings sorting.
From S2P Require Import Prelude Crypto AclModels AclState AclValidator AclApply AclStorage AclKeep.
From S2P Require Import AclList TreeModels Tree ChangeBuilder TreeStorage TreeSnapshots TreeLoad TreeBuild.
From S2P Require Import ObjectTree.

Local Open Scope Z_scope.

(** ** Messages *)

(** The oneof of TreeSyncContentValue; [TSOther] is any other content or none. *)
Inductive TreeSyncContent :=
| TSHeadUpdate (heads : list string) (changes : list RawTreeChangeWithId) (snapshotPath : list string)
| TSFullSyncRequest (heads snapshotPath : list string) (probe : bool)
| TSFullSyncResponse (heads : list string) (changes : list RawTreeChangeWithId) (snapshotPath : list string)
| TSOther.

Record TreeSyncMessage := mkTreeSyncMessage {
  tsm_Content : TreeSyncContent;
  tsm_RootChange : option RawTreeChangeWithId;
}.

Class SyncCodec := {
  TreeSyncMessage_MarshalVT : TreeSyncMessage -> res bytes;
  TreeSyncMessage_UnmarshalVT : bytes -> res TreeSyncMessage;
}.

(** A head update as it is broadcast: prepared with and without its changes. *)
Record HeadUpdate := mkHeadUpdate {
  hu_ObjectId : string;
  hu_SpaceId : string;
  hu_EmptyPeers : list string;
  hu_heads : list string;
  hu_prepared : bytes;
  hu_emptyPrepared : bytes;
}.

Record Request := mkRequest {
  rq_PeerId : string;
  rq_SpaceId : string;
  rq_ObjectId : string;
  rq_heads : list string;
  rq_snapshotPath : list string;
  rq_root : option RawTreeChangeWithId;
  rq_probe : bool;
}.

Record Response := mkResponse {
  rsp_SpaceId : string;
  rsp_ObjectId : string;
  rsp_Heads : list string;
  rsp_SnapshotPath : list string;
  rsp_Changes : list RawTreeChangeWithId;
  rsp_Root : option RawTreeChangeWithId;
}.

Definition ErrUnexpectedMessageType := GoError "unexpected message type".
Definition ErrUnexpectedRequestType := GoError "unexpected request type".
Definition ErrSyncTreeClosed := GoError "sync tree is closed".
Definition ErrSyncTreeDeleted := GoError "sync tree is deleted".
Definition ErrTreeStorageAlreadyDeleted := GoError "tree storage already deleted".

Definition ErrNoResponsiblePeers := GoError "no responsible peers".
Definition ErrPeerIdNotFoundInContext := GoError "peer id not found in context".
Definition ErrUnknownTreeId := GoError "tree does not exist".
Definition EOF := GoError "EOF".

Definition batchSize : Z := 1024 * 1024.
Definition cidLen : Z := 59.

Definition strLen (s : string) : Z := Z.of_nat (String.length s).
Definition sliceLen {A} (l : list A) : Z := Z.of_nat (length l).

(** A decoded list of heads: an empty one is nil. *)
Definition headsSlice (heads : list string) : option (list string) :=
  match heads with [] => None | _ => Some heads end.

(** *** Sizes, encoding *)

Definition Response_MsgSize (r : Response) : Z :=
  strLen (rsp_SpaceId r) + strLen (rsp_ObjectId r) + sliceLen (rsp_SnapshotPath r) * cidLen +
  foldr (fun c n => strLen (rtc_Id c) + strLen (default "" (rtc_RawChange c)) + n) 0 (rsp_Changes r) +
  sliceLen (rsp_Heads r) * cidLen.

Definition Request_MsgSize (r : Request) : Z :=
  sliceLen (rq_heads r ++ rq_snapshotPath r)%list * 59 +
  match rq_root r with None => 0 | Some c => strLen (rtc_Id c) + strLen (default "" (rtc_RawChange c)) end.

(** [slice.ContainsSorted] on two sorted slices: every element of the second is matched in
    the first. *)
Fixpoint containsLoop (seq : list string) : list string -> bool :=
  fix go subseq :=
    match seq, subseq with
    | _, [] => true
    | [], _ => false
    | x :: seq, y :: subseq' =>
        if decide (x = y) then containsLoop seq subseq'
        else if String.ltb x y then containsLoop seq subseq
        else false
    end.
Definition ContainsSorted (seq subseq : list string) : bool :=
  if (length seq <? length subseq)%nat then false
  else containsLoop (sortStrings seq) (sortStrings subseq).

(** Read a response: the payload of the message and the object it is about. *)
Definition Response_SetProtoMessage `{SyncCodec} (payload : bytes) (spaceId objectId : string) : res Response :=
  treeMsg ← TreeSyncMessage_UnmarshalVT payload;
  match tsm_Content treeMsg with
  | TSFullSyncResponse heads changes path => Ok (mkResponse spaceId objectId heads path changes (tsm_RootChange treeMsg))
  | _ => Err (GoError "unexpected message type")
  end.

(** ** The state *)

Inductive SyncEvent :=
| EvBroadcast (headUpdate : HeadUpdate)
| EvHeadsReceive (peerId objectId : string) (heads : list string)
| EvHeadsApply (peerId objectId : string) (heads : list string) (allAdded : bool)
| EvHeadsChange (objectId : string) (heads : list string)
| EvObjectReceive (peerId objectId : string) (heads : list string)
| EvQueueRequest (request : Request)
| EvQueueSize (size : Z) (add : bool)
| EvSent (response : Response)
| EvRegister (objectId : string)
| EvUnregister (objectId : string)
| EvClosed (objectId : string).

Section sync_tree.
Context `{CryptoPrims} `{AclCodec} `{SharedKeyPrims} `{MapRange} `{ProtoWire} `{ListCodec}
  {TA : Type} `{AclStorage TA} `{SealPrims} `{TreeCodec} `{HmacPrims} `{LexId} `{SortFunc}
  {T : Type} `{TreeStorage T} `{SyncCodec}.

(** [updatelistener.UpdateListener] *)
Record UpdateListener := mkUpdateListener {
  ul_Update : objectTree TA T -> res unit;
  ul_Rebuild : objectTree TA T -> res unit;
}.

Record syncTree := mkSyncTree {
  sy_tree : objectTree TA T;
  sy_spaceId : string;
  sy_listener : option UpdateListener;
  sy_stats : bool;
  sy_isClosed : bool;
  sy_isDeleted : bool;
  sy_events : list SyncEvent;
}.
Implicit Types (s : syncTree).

Abbreviation SM := (ST syncTree).

Definition set_syncTree v s := mkSyncTree v (sy_spaceId s) (sy_listener s) (sy_stats s) (sy_isClosed s)
  (sy_isDeleted s) (sy_events s).
Definition set_closed v s := mkSyncTree (sy_tree s) (sy_spaceId s) (sy_listener s) (sy_stats s) v
  (sy_isDeleted s) (sy_events s).
Definition set_syncDeleted v s := mkSyncTree (sy_tree s) (sy_spaceId s) (sy_listener s) (sy_stats s)
  (sy_isClosed s) v (sy_events s).
Definition SetListener listener s := mkSyncTree (sy_tree s) (sy_spaceId s) (Some listener) (sy_stats s)
  (sy_isClosed s) (sy_isDeleted s) (sy_events s).
Definition emit (e : SyncEvent) : SM unit := assigns (fun s =>
  mkSyncTree (sy_tree s) (sy_spaceId s) (sy_listener s) (sy_stats s) (sy_isClosed s) (sy_isDeleted s)
    (sy_events s ++ [e])).

(** Run a method of the object tree. *)
Definition onObject {A} (m : ST (objectTree TA T) A) : SM A := fun s =>
  let '(ot, r) := m (sy_tree s) in (set_syncTree ot s, r).

(** The error of a call as a value. *)
Definition attempt {A} (m : SM A) : SM (res A) := fun s => let '(s, r) := m s in (s, Ok r).

Definition syncHeads s : list string := t_headIds (ot_tree (sy_tree s)).
Definition syncId s : string := ot_id (sy_tree s).

(** ** Requests and updates (requestfactory.go, headupdate.go, request.go) *)

Definition NewRequest (peerId spaceId objectId : string) (heads snapshotPath : list string)
    (root : option RawTreeChangeWithId) : Request :=
  mkRequest peerId spaceId objectId heads snapshotPath root false.
Definition NewProbeRequest (peerId spaceId objectId : string) : Request :=
  mkRequest peerId spaceId objectId [] [] None true.

Definition Request_Marshall (r : Request) : res bytes :=
  TreeSyncMessage_MarshalVT
    (mkTreeSyncMessage (TSFullSyncRequest (rq_heads r) (rq_snapshotPath r) (rq_probe r)) (rq_root r)).

Definition CreateNewTreeRequest (spaceId peerId objectId : string) : Request :=
  NewRequest peerId spaceId objectId [] [] None.

Definition CreateFullSyncRequest (fuel : nat) (peerId : string) : SM Request :=
  path ← onObject (SnapshotPath fuel);
  reads (fun s => NewRequest peerId (sy_spaceId s) (syncId s) (syncHeads s) path (Some (ot_rawRoot (sy_tree s)))).

(** [CreateHeadUpdate] with [Prepare]. *)
Definition CreateHeadUpdate (fuel : nat) (ignoredPeer : string) (added : list RawTreeChangeWithId)
    : SM HeadUpdate :=
  path ← onObject (SnapshotPath fuel);
  heads ← reads syncHeads;
  root ← reads (fun s => Some (ot_rawRoot (sy_tree s)));
  prepared ← lifts (TreeSyncMessage_MarshalVT (mkTreeSyncMessage (TSHeadUpdate heads added path) root));
  emptyPrepared ← lifts (TreeSyncMessage_MarshalVT (mkTreeSyncMessage (TSHeadUpdate heads [] path) root));
  reads (fun s => mkHeadUpdate (syncId s) (sy_spaceId s)
    (if decide (ignoredPeer = "") then [] else [ignoredPeer]) heads prepared emptyPrepared).

(** What one peer is sent. *)
Definition HeadUpdate_Marshall (h : HeadUpdate) (peerId : string) : bytes :=
  if slices_Contains (hu_EmptyPeers h) peerId then hu_emptyPrepared h else hu_prepared h.

(** ** The life of a sync tree *)

Definition checkAlive s : res unit :=
  if sy_isDeleted s then Err ErrSyncTreeDeleted
  else if sy_isClosed s then Err ErrSyncTreeClosed
  else Ok tt.

Definition sync_close : SM unit :=
  closed ← reads sy_isClosed;
  stats ← reads sy_stats;
  id ← reads syncId;
  (if (closed : bool) then mret tt else emit (EvClosed id) ;; assigns (set_closed true)) ;;
  (if (stats : bool) then emit (EvUnregister id) else mret tt) ;;
  lifts (fail_if closed ErrSyncTreeClosed).

Definition sync_Delete : SM unit :=
  calls checkAlive ;;
  onObject ObjectTree.Delete ;;
  assigns (set_syncDeleted true).

(** ** Adding *)

(** [AddResult.RawChanges] *)
Definition RawChanges (r : AddResult) : list RawTreeChangeWithId := sc_Raw <$> ar_Added r.

Definition sync_AddContentWithValidator (fuel : nat) (nonce : bytes) (now : Z) (content : SignableChangeContent)
    (validate : option (StorageChange -> res unit)) : SM AddResult :=
  calls checkAlive ;;
  res ← onObject (AddContentWithValidator nonce now content validate);
  id ← reads syncId;
  emit (EvHeadsChange id (ar_Heads res)) ;;
  headUpdate ← CreateHeadUpdate fuel "" (RawChanges res);
  emit (EvBroadcast headUpdate) ;;
  mret res.

(** The closure that tells the listener. *)
Definition tellListener (listener : option UpdateListener) (ot : objectTree TA T) (md : Mode) : res unit :=
  match listener, md with
  | None, _ | _, Nothing => Ok tt
  | Some l, Append => ul_Update l ot
  | Some l, Rebuild => ul_Rebuild l ot
  end.

Definition sync_AddRawChanges (fuel : nat) (changesPayload : RawChangesPayload) : SM AddResult :=
  calls checkAlive ;;
  listener ← reads sy_listener;
  onObject (AddRawChangesWithUpdater fuel changesPayload (Some (tellListener listener))).

Definition hasHeads s (heads : list string) : bool :=
  UnsortedEquals (syncHeads s) heads || HasChanges (sy_tree s) heads.

Definition AddRawChangesFromPeer (fuel : nat) (peerId : string) (changesPayload : RawChangesPayload) : SM AddResult :=
  let newHeads := default [] (rp_NewHeads changesPayload) in
  has ← reads (fun s => hasHeads s newHeads);
  id ← reads syncId;
  if (has : bool) then
    heads ← reads syncHeads;
    emit (EvHeadsApply peerId id heads true) ;;
    mret (mkAddResult newHeads newHeads [] Nothing)
  else
    prevHeads ← reads syncHeads;
    res ← sync_AddRawChanges fuel changesPayload;
    match ar_Mode res with
    | Nothing => mret res
    | _ =>
        headUpdate ← CreateHeadUpdate fuel peerId (RawChanges res);
        emit (EvBroadcast headUpdate) ;;
        curHeads ← reads syncHeads;
        let allAdded := forallb (slices_Contains curHeads) newHeads in
        (if UnsortedEquals prevHeads curHeads then mret tt
         else emit (EvHeadsApply peerId id curHeads allAdded)) ;;
        mret res
    end.

(** ** Handling messages (synchandler.go) *)

(** A head update of a peer; the request to send back, if the heads are not ours then. *)
Definition HandleHeadUpdate (fuel : nat) (peerId : res string) (objectId : string) (update : bytes)
    : SM (option Request) :=
  peerId ← lifts peerId;
  treeSyncMsg ← lifts (TreeSyncMessage_UnmarshalVT update);
  match tsm_Content treeSyncMsg with
  | TSHeadUpdate heads changes snapshotPath =>
      emit (EvHeadsReceive peerId objectId heads) ;;
      match changes with
      | [] =>
          has ← reads (fun s => hasHeads s heads);
          emit (EvHeadsApply peerId objectId heads has) ;;
          if (has : bool) then mret None
          else req ← CreateFullSyncRequest fuel peerId; mret (Some req)
      | _ =>
          res ← AddRawChangesFromPeer fuel peerId (mkRawChangesPayload (headsSlice heads) changes snapshotPath);
          if UnsortedEquals (ar_Heads res) heads then mret None
          else req ← CreateFullSyncRequest fuel peerId; mret (Some req)
      end
  | _ => lifts (Err ErrUnexpectedMessageType)
  end.

(** *** Serving (responseproducer.go, response.go) *)

Definition responseOf s (objectId : string) (snapshotPath : list string) : Response :=
  mkResponse (sy_spaceId s) objectId (syncHeads s) snapshotPath [] (Some (ot_rawRoot (sy_tree s))).

Definition NewResponse s (iterator : loadIterator) : loadIterator * res Response :=
  match NextBatch (ot_storage (sy_tree s)) batchSize iterator with
  | (iterator, Err e) => (iterator, Err e)
  | (iterator, Ok b) =>
      (iterator, Ok (mkResponse (sy_spaceId s) (syncId s) (ib_Heads b) (ib_SnapshotPath b) (ib_Batch b)
                       (Some (ib_Root b))))
  end.

(** [ProtoMessage]: the message of a response without an object is empty. *)
Definition Response_ProtoMessage (resp : Response) : res unit :=
  if decide (rsp_ObjectId resp = "") then Ok tt
  else TreeSyncMessage_MarshalVT (mkTreeSyncMessage
         (TSFullSyncResponse (rsp_Heads resp) (rsp_Changes resp) (rsp_SnapshotPath resp)) (rsp_Root resp)) ;; Ok tt.

(** Hand a response to the stream. *)
Definition sendOn (send : Response -> res unit) (resp : Response) : SM unit :=
  lifts (send resp) ;; emit (EvSent resp).
Definition sendResponse (send : Response -> res unit) (resp : Response) : SM unit :=
  lifts (Response_ProtoMessage resp) ;; sendOn send resp.

(** [for { ... }]: batches until one is empty. *)
Fixpoint streamBatches (fuel : nat) (send : Response -> res unit) (iterator : loadIterator) : SM unit :=
  '(iterator, r) ← reads (fun s => NewResponse s iterator);
  batch ← lifts r;
  match rsp_Changes batch with
  | [] => mret tt
  | _ =>
      match fuel with
      | O => lifts (Err (GoError "still running"))
      | S fuel =>
          let size := Response_MsgSize batch in
          emit (EvQueueSize size true) ;;
          (fun s => let '(s, r) := sendResponse send batch s in
                    let '(s, _) := emit (EvQueueSize size false) s in (s, r)) ;;
          streamBatches fuel send iterator
      end
  end.

(** [ContainsSorted] sorts the slices of its caller: the heads of the tree. *)
Definition sortHeads s : syncTree :=
  let ot := sy_tree s in
  let t := ot_tree ot in
  set_syncTree (set_tree (set_heads (sortStrings (t_headIds t)) (t_lastIteratedHeadId t) t) ot) s.

Definition coversHeads (theirHeads : list string) : SM bool :=
  curHeads ← reads syncHeads;
  if UnsortedEquals curHeads theirHeads then mret true
  else
    (if (length theirHeads <? length curHeads)%nat then mret tt else assigns sortHeads) ;;
    mret (ContainsSorted theirHeads curHeads).

(** The request to send back and the error, which do not exclude each other. *)
Definition HandleStreamRequest (fuel : nat) (rq : Request) (bytes : bytes) (send : Response -> res unit)
    : SM (option Request * res unit) :=
  treeSyncMsg ← lifts (TreeSyncMessage_UnmarshalVT bytes);
  match tsm_Content treeSyncMsg with
  | TSFullSyncRequest theirHeads theirPath true =>
      path ← onObject (SnapshotPath fuel);
      resp ← reads (fun s => responseOf s (rq_ObjectId rq) path);
      sendResponse send resp ;;
      mret (None, Ok tt)
  | TSFullSyncRequest theirHeads theirPath false =>
      iterator ← onObject (ChangesAfterCommonSnapshotLoader fuel theirPath theirHeads);
      covers ← coversHeads theirHeads;
      if (covers : bool) then
        curHeads ← reads syncHeads;
        returnReq ← (if bool_decide (length curHeads = length theirHeads) then mret None
                     else req ← CreateFullSyncRequest fuel (rq_PeerId rq); mret (Some req));
        path ← onObject (SnapshotPath fuel);
        resp ← reads (fun s => responseOf s (syncId s) path);
        lifts (Response_ProtoMessage resp) ;;
        err ← attempt (sendOn send resp);
        mret (returnReq, err)
      else
        returnReq ← (match theirHeads with
                     | [] => mret None
                     | _ => req ← CreateFullSyncRequest fuel (rq_PeerId rq); mret (Some req)
                     end);
        streamBatches fuel send iterator ;;
        mret (returnReq, Ok tt)
  | _ => lifts (Err ErrUnexpectedRequestType)
  end.

Definition HandleResponse (fuel : nat) (peerId : string) (rsp : Response) : SM unit :=
  match rsp_Changes rsp with
  | [] => mret tt
  | _ =>
      AddRawChangesFromPeer fuel peerId
        (mkRawChangesPayload (headsSlice (rsp_Heads rsp)) (rsp_Changes rsp) (rsp_SnapshotPath rsp)) ;;
      mret tt
  end.

Definition SyncWithPeer (fuel : nat) (peerId : string) : SM unit :=
  req ← CreateFullSyncRequest fuel peerId;
  emit (EvQueueRequest req).

(** ** Building *)

Definition CtxResponsiblePeers : string := "*".

Definition buildSyncTree (fuel : nat) (build : T -> aclList TA -> res (objectTree TA T)) (spaceId peerId : string)
    (listener : option UpdateListener) (stats : bool) (storage : T) (acl : aclList TA) : res syncTree :=
  objTree ← build storage acl;
  runs (
    (* the error of the listener is not looked at *)
    _ ← (fun s => match listener with
                  | None => (s, Ok tt)
                  | Some l => match ul_Rebuild l (sy_tree s) with
                              | Err (GoPanic m) => (s, Err (GoPanic m))
                              | _ => (s, Ok tt)
                              end
                  end) : SM unit;
    (if decide (peerId = "") then mret tt
     else
       empty ← calls (fun s => ObjectTree.IsEmptyTree (sy_tree s));
       if (empty : bool) then mret tt
       else
         headUpdate ← CreateHeadUpdate fuel "" [];
         emit (EvBroadcast headUpdate) ;;
         if decide (peerId = CtxResponsiblePeers) then mret tt
         else s ← reads id; emit (EvObjectReceive peerId (syncId s) (syncHeads s))) ;;
    id ← reads syncId;
    if stats then emit (EvRegister id) else mret tt)
  (mkSyncTree objTree spaceId listener stats false false []).

(** The head storage entry of the tree, if there is one: whether it is deleted. *)
Definition checkTreeDeleted (entry : res (option bool)) : res unit :=
  deleted ← entry;
  match deleted with
  | Some true => Err ErrTreeStorageAlreadyDeleted
  | _ => Ok tt
  end.

Definition PutSyncTree (fuel : nat) (build : T -> aclList TA -> res (objectTree TA T)) (spaceId : string)
    (listener : option UpdateListener) (stats : bool) (entry : res (option bool)) (created : res T)
    (acl : aclList TA) : res syncTree :=
  checkTreeDeleted entry ;;
  storage ← created;
  buildSyncTree fuel build spaceId CtxResponsiblePeers listener stats storage acl.

(** ** Fetching a tree (responsecollector.go) *)

(** The first response makes the tree, through the validator; the others are added. *)
Definition CollectResponse (fuel : nat)
    (validator : option RawTreeChangeWithId -> option (list string) -> list RawTreeChangeWithId ->
                 res (objectTree TA T)) (treeResp : Response)
    : ST (option (objectTree TA T)) unit := fun r =>
  match r with
  | None =>
      match validator (rsp_Root treeResp) (headsSlice (rsp_Heads treeResp)) (rsp_Changes treeResp) with
      | Ok objTree => (Some objTree, Ok tt)
      | Err e => (None, Err e)
      end
  | Some ot =>
      let '(ot, res) := AddRawChanges fuel
        (mkRawChangesPayload (headsSlice (rsp_Heads treeResp)) (rsp_Changes treeResp) []) ot in
      (Some ot, match res with Ok _ => Ok tt | Err e => Err e end)
  end.

(** ** Fetching from a peer (treeremotegetter.go, requestmanager.go) *)

(** [requestManager.SendRequest]: what the stream delivers, and the error it ends with. *)
Fixpoint recvLoop {C} (collect : Response -> ST C unit) (calledOnce : bool) (recv : list Response)
    (ending : error) : ST C unit :=
  match recv with
  | [] => if decide (ending = EOF) then (if calledOnce then mret tt else lifts (Err ending))
          else lifts (Err ending)
  | resp :: recv => collect resp ;; recvLoop collect true recv ending
  end.
Definition SendRequest {C} (collect : Response -> ST C unit) : list Response -> error -> ST C unit :=
  recvLoop collect false.

Definition getPeers (ctxPeerId : res string) (responsible : res (list string)) : res (list string) :=
  peerId ← ctxPeerId;
  if decide (peerId = CtxResponsiblePeers) then
    respPeers ← responsible;
    match respPeers with
    | [] => Err ErrNoResponsiblePeers
    | _ => Ok respPeers
    end
  else Ok [peerId].

(** The storage of the tree and the peer it came from.  [network] sends a request and says
    what comes back. *)
Definition treeRequest (fuel : nat) (probe : bool) (spaceId treeId : string)
    (network : Request -> res (list Response * error))
    (validator : option RawTreeChangeWithId -> option (list string) -> list RawTreeChangeWithId ->
                 res (objectTree TA T)) (peerId : string) : res (option (objectTree TA T)) :=
  '(recv, ending) ← network (if probe then NewProbeRequest peerId spaceId treeId
                             else CreateNewTreeRequest spaceId peerId treeId);
  runs (SendRequest (CollectResponse fuel validator) recv ending) None.

Definition treeRequestLoop (fuel : nat) (probe : bool) (spaceId treeId : string) ctxPeerId responsible
    network validator : res (option (objectTree TA T) * string) :=
  availablePeers ← getPeers ctxPeerId responsible;
  peerId ← opt_or (head availablePeers) (GoPanic "index out of range");
  collector ← treeRequest fuel probe spaceId treeId network validator peerId;
  Ok (collector, peerId).

Definition getTree (fuel : nat) (probe : bool) (spaceId treeId : string) (treeStorage : res T)
    (entry : res (option bool)) ctxPeerId responsible network validator : res (T * string) :=
  match treeStorage with
  | Ok st => Ok (st, "")
  | Err e =>
      if decide (e = ErrUnknownTreeId) then
        checkTreeDeleted entry ;;
        match treeRequestLoop fuel probe spaceId treeId ctxPeerId responsible network validator with
        | Err e => Err (if decide (e = ErrPeerIdNotFoundInContext) then ErrUnknownTreeId else e)
        | Ok (collector, peerId) =>
            ot ← opt_or collector (GoPanic "nil dereference");
            Ok (ot_storage ot, peerId)
        end
      else Err e
  end.

Definition BuildSyncTreeOrGetRemote (fuel : nat) (probe : bool) (build : T -> aclList TA -> res (objectTree TA T))
    (spaceId treeId : string) (listener : option UpdateListener) (stats : bool) (acl : aclList TA)
    (treeStorage : res T) (entry : res (option bool)) ctxPeerId responsible network validator : res syncTree :=
  '(st, peerId) ← getTree fuel probe spaceId treeId treeStorage entry ctxPeerId responsible network validator;
  buildSyncTree fuel build spaceId peerId listener stats st acl.
End sync_tree.

Arguments syncTree TA T : clear implicits.
Arguments UpdateListener TA T : clear implicits.
