(* ===== verification/SyncTreeMain.v ===== *)
(** What the sync tree promises its peers: a head update ends with the announced heads or
    with a request for them, and a full sync request is answered with the changes the
    peer is missing. *)

From Stdlib Require Import ZArith Lia String.
From stdpp Require Import base option list gmap strings sorting relations pretty.
From S2P Require Import Prelude Crypto AclModels AclState AclValidator AclApply AclSpec AclRefine AclExample.
From S2P Require Import AclStorage AclKeep AclList AclListInv AclListMain AclListSync TreeModels Tree TreeOrder.
From S2P Require Import TreeAdd TreeStable TreeHeads TreeCalls TreeMain TreeExample ChangeBuilder ToyCodec.
From S2P Require Import ChangeMain TreeStorage TreeSnapshots TreeLoad TreeLoadMain TreeBuild.
From S2P Require Import ObjectTree ObjectTreeAgree ObjectTreeExample SyncTree.

Local Open Scope Z_scope.

(** ** Slices *)

Lemma sortStrings_perm (l : list string) : sortStrings l ≡ₚ l.
Proof. apply merge_sort_Permutation. Qed.

Lemma UnsortedEquals_spec (l1 l2 : list string) : UnsortedEquals l1 l2 = true <-> l1 ≡ₚ l2.
Proof.
  unfold UnsortedEquals. rewrite andb_true_iff, !bool_decide_eq_true. split.
  - intros [_ Heq]. by rewrite <- (sortStrings_perm l1), Heq, sortStrings_perm.
  - intros Hp. split; [by apply Permutation_length|]. apply (StronglySorted_unique String.le).
    + apply StronglySorted_merge_sort; apply _.
    + apply StronglySorted_merge_sort; apply _.
    + by rewrite !sortStrings_perm.
Qed.

Lemma submseteq_skip_lt x (l1 l2 : list string) :
  x ∉ l1 -> l1 ⊆+ x :: l2 -> l1 ⊆+ l2.
Proof.
  intros Hx Hsub. destruct (submseteq_Permutation _ _ Hsub) as (l & Hl).
  assert (x ∈ l1 ++ l) as [?|(l' & Hl')%elem_of_Permutation]%elem_of_app; [rewrite <- Hl; by left|done|].
  rewrite Hl', <- Permutation_middle in Hl. apply Permutation_cons_inv in Hl. rewrite Hl. apply submseteq_inserts_r. done.
Qed.

Lemma containsLoop_spec (seq subseq : list string) :
  StronglySorted String.le seq -> StronglySorted String.le subseq ->
  containsLoop seq subseq = true <-> subseq ⊆+ seq.
Proof.
  revert subseq. induction seq as [|x seq IH]; intros subseq Hs Ht.
  { destruct subseq; simpl; split; try done. by intros ?%submseteq_nil_r. }
  apply StronglySorted_inv in Hs as [Hs Hx]. rewrite Forall_forall in Hx.
  destruct subseq as [|y subseq]; [simpl; split; [intros; apply submseteq_nil_l|done]|]. simpl.
  pose proof Ht as Ht'. apply StronglySorted_inv in Ht' as [Ht' Hy]. rewrite Forall_forall in Hy.
  destruct (decide (x = y)) as [->|Hne].
  { rewrite IH by done. split; [by constructor|]. apply submseteq_app_inv_l with (k := [y]). }
  destruct (String.ltb x y) eqn:Hlt.
  - rewrite IH by done. split; [by apply submseteq_cons|]. apply submseteq_skip_lt.
    apply not_elem_of_cons. split; [done|]. intros Hin%Hy. apply Hne.
    apply (anti_symm String.le); [|done]. unfold String.ltb in Hlt. unfold String.le, String.leb.
    by destruct (String.compare x y).
  - split; [done|]. intros Hsub. exfalso.
    assert (y ∈ x :: seq) as [->|Hin%Hx]%elem_of_cons; [|done|].
    { eapply elem_of_submseteq; [|exact Hsub]. by left. }
    unfold String.ltb in Hlt. unfold String.le, String.leb in Hin.
    destruct (String.compare x y) eqn:Hc; try done. by apply String.compare_eq_iff in Hc.
Qed.

Lemma default_headsSlice heads : default [] (headsSlice heads) = heads.
Proof. by destruct heads. Qed.

(** [ContainsSorted] compares slices with their repetitions. *)
Lemma ContainsSorted_spec (seq subseq : list string) : ContainsSorted seq subseq = true <-> subseq ⊆+ seq.
Proof.
  unfold ContainsSorted. destruct (Nat.ltb_spec (length seq) (length subseq)) as [Hl|Hl].
  { split; [done|]. intros Hs%submseteq_length. lia. }
  rewrite containsLoop_spec by (apply StronglySorted_merge_sort; apply _).
  by rewrite !sortStrings_perm.
Qed.

Section sync_main.
Context `{CryptoPrims} `{AclCodec} `{SharedKeyPrims} `{MapRange} `{ProtoWire} `{ListCodec}
  {TA : Type} `{AclStorage TA} `{SealPrims} `{TreeCodec} `{HmacPrims} `{LexId} `{SortFunc}
  {T : Type} `{TreeStorageLaws T} `{SyncCodec}.
Implicit Types (s : syncTree TA T).

(** ** What the messages leave alone *)

(** Only the cached snapshot path and the log of events change. *)
Record stays s s' : Prop := mkStays {
  sy_same : sameSetup (sy_tree s) (sy_tree s');
  sy_same_tree : ot_tree (sy_tree s') = ot_tree (sy_tree s);
  sy_same_space : sy_spaceId s' = sy_spaceId s;
  sy_same_id : syncId s' = syncId s;
  sy_same_root : ot_rawRoot (sy_tree s') = ot_rawRoot (sy_tree s);
}.

#[export] Instance stays_preorder : PreOrder stays.
Proof.
  split; [by intros s|]. intros s1 s2 s3 [? ? ? ? ?] [? ? ? ? ?]. split; [by etrans|congruence..].
Qed.

Lemma SnapshotPath_keeps fuel (ot ot' : objectTree TA T) r :
  SnapshotPath fuel ot = (ot', r) -> ot' = ot \/ exists path, ot' = set_snapshotPath path ot.
Proof.
  unfold SnapshotPath, notDeleted, mbind, st_bind, calls, reads, assigns. destruct (ot_isDeleted ot); simpl.
  { intros [= <- _]. by left. }
  destruct (snapshotPathIsActual ot); [intros [= <- _]; by left|].
  destruct (pathFrom _ _ _) as [path|e]; intros [= <- _]; [right; by exists path|by left].
Qed.

Lemma onPath_stays fuel : frames stays (onObject (SnapshotPath (TA:=TA) (T:=T) fuel)).
Proof.
  intros s. unfold onObject. destruct (SnapshotPath fuel (sy_tree s)) as [ot r] eqn:Hp.
  by destruct (SnapshotPath_keeps _ _ _ _ Hp) as [->|[path ->]].
Qed.

Lemma emit_stays e : frames stays (emit e).
Proof. by intros s. Qed.

Lemma FullSync_stays fuel peerId : frames stays (CreateFullSyncRequest fuel peerId).
Proof. unfold CreateFullSyncRequest. frame. apply onPath_stays. Qed.

Lemma FullSync_Ok fuel peerId s s' req :
  CreateFullSyncRequest fuel peerId s = (s', Ok req) ->
  stays s s' /\ rq_PeerId req = peerId /\ rq_SpaceId req = sy_spaceId s' /\ rq_ObjectId req = syncId s' /\
  rq_heads req = syncHeads s' /\ rq_root req = Some (ot_rawRoot (sy_tree s')) /\ rq_probe req = false.
Proof.
  intros Hr. split; [exact (frames_run _ _ _ _ _ (FullSync_stays fuel peerId) Hr)|].
  unfold CreateFullSyncRequest in Hr. apply st_bind_Ok in Hr as (s1 & path & _ & Hr).
  apply reads_Ok in Hr as [-> ->]. done.
Qed.

(** The head update of a tree, as its peers are sent it. *)
Definition updateOf s (peerId : string) (added : list RawTreeChangeWithId) (hu : HeadUpdate) : Prop :=
  hu_ObjectId hu = syncId s /\ hu_SpaceId hu = sy_spaceId s /\ hu_heads hu = syncHeads s /\
  exists path, forall p, TreeSyncMessage_MarshalVT (mkTreeSyncMessage
    (TSHeadUpdate (syncHeads s) (if decide (p = peerId /\ peerId <> "") then [] else added) path)
    (Some (ot_rawRoot (sy_tree s)))) = Ok (HeadUpdate_Marshall hu p).

Lemma CreateHeadUpdate_Ok fuel peerId added s s' hu :
  CreateHeadUpdate fuel peerId added s = (s', Ok hu) ->
  stays s s' /\ sy_events s' = sy_events s /\ updateOf s' peerId added hu.
Proof.
  unfold CreateHeadUpdate. intros (s1 & path & Hp & Hr)%st_bind_Ok.
  pose proof (frames_run _ _ _ _ _ (onPath_stays fuel) Hp) as Hst.
  assert (sy_events s1 = sy_events s) as Hev.
  { unfold onObject in Hp. destruct (SnapshotPath fuel (sy_tree s)). by injection Hp as <- _. }
  apply st_bind_Ok in Hr as (? & ? & [-> ->]%reads_Ok & Hr).
  apply st_bind_Ok in Hr as (? & ? & [-> ->]%reads_Ok & Hr).
  apply st_bind_Ok in Hr as (? & prepared & [-> Hprep]%lifts_Ok & Hr).
  apply st_bind_Ok in Hr as (? & empty & [-> Hempty]%lifts_Ok & Hr).
  apply reads_Ok in Hr as [-> ->]. split_and!; [done|done|].
  split_and!; [done..|]. exists path. intros p. unfold HeadUpdate_Marshall. simpl.
  destruct (decide (peerId = "")) as [->|Hne].
  - rewrite decide_False by naive_solver. simpl. done.
  - destruct (decide (p = peerId)) as [->|Hp'].
    + rewrite decide_True by done. simpl. unfold slices_Contains. rewrite bool_decide_true by (by left). done.
    + rewrite decide_False by naive_solver. unfold slices_Contains. rewrite bool_decide_false; [done|].
      by rewrite list_elem_of_singleton.
Qed.

(** ** Changes of peers *)

Lemma AddRaw_heads fuel payload upd (ot ot' : objectTree TA T) ar :
  t_unAttached (ot_tree ot) = ∅ -> AddRawChangesWithUpdater fuel payload upd ot = (ot', Ok ar) ->
  ar_Heads ar = t_headIds (ot_tree ot').
Proof.
  intros Hun Hadd.
  destruct (AddRaw_parts _ _ _ _ _ _ Hadd) as (ar0 & ot1 & ot2 & st' & Hch & Hl1 & _ & Hheads & _ & Hl2 & _).
  pose proof (addChanges_Ok _ _ _ _ _ Hun Hch) as [_ Hh1 _ _].
  by rewrite (le_heads _ _ Hl2), Hheads, Hh1, <- (le_heads _ _ Hl1).
Qed.

Lemma sync_AddRaw_Ok fuel payload s s' ar :
  sync_AddRawChanges fuel payload s = (s', Ok ar) ->
  checkAlive s = Ok tt /\ exists ot', s' = set_syncTree ot' s /\
    AddRawChangesWithUpdater fuel payload (Some (tellListener (sy_listener s))) (sy_tree s) = (ot', Ok ar).
Proof.
  unfold sync_AddRawChanges. intros (? & [] & [-> Halive]%calls_Ok & Hr)%st_bind_Ok.
  apply st_bind_Ok in Hr as (? & ? & [-> ->]%reads_Ok & Hr). unfold onObject in Hr.
  destruct (AddRawChangesWithUpdater _ _ _ _) as [ot' r]. injection Hr as <- ->. split; [done|]. by exists ot'.
Qed.

(** What a delivery tells the outside. *)
Definition relays s (peerId : string) (newHeads : list string) (ar : AddResult) s' : Prop :=
  match ar_Mode ar with
  | Nothing => sy_events s' = sy_events s
  | _ => exists hu, updateOf s' peerId (RawChanges ar) hu /\
      sy_events s' = sy_events s ++ EvBroadcast hu ::
        (if UnsortedEquals (syncHeads s) (syncHeads s') then []
         else [EvHeadsApply peerId (syncId s) (syncHeads s') (forallb (slices_Contains (syncHeads s')) newHeads)])
  end.

Lemma FromPeer_Ok fuel peerId payload s s' ar :
  let newHeads := default [] (rp_NewHeads payload) in
  t_unAttached (ot_tree (sy_tree s)) = ∅ ->
  AddRawChangesFromPeer fuel peerId payload s = (s', Ok ar) ->
  (hasHeads s newHeads = true /\ stays s s' /\ hasHeads s' newHeads = true /\
     ar = mkAddResult newHeads newHeads [] Nothing /\
     sy_events s' = sy_events s ++ [EvHeadsApply peerId (syncId s) (syncHeads s) true]) \/
  (hasHeads s newHeads = false /\ checkAlive s = Ok tt /\ ar_Heads ar = syncHeads s' /\
     relays s peerId newHeads ar s' /\
     exists ot', AddRawChangesWithUpdater fuel payload (Some (tellListener (sy_listener s))) (sy_tree s) = (ot', Ok ar) /\
       ot_tree (sy_tree s') = ot_tree ot').
Proof.
  intros newHeads Hun. unfold AddRawChangesFromPeer. fold newHeads.
  intros (? & has & [-> Hhas]%reads_Ok & Hr)%st_bind_Ok.
  apply st_bind_Ok in Hr as (? & ? & [-> ->]%reads_Ok & Hr). destruct has; symmetry in Hhas.
  { apply st_bind_Ok in Hr as (? & ? & [-> ->]%reads_Ok & Hr).
    apply st_bind_Ok in Hr as (s1 & [] & He & [-> ->]%ret_Ok). injection He as <-. left. by split_and!. }
  right. apply st_bind_Ok in Hr as (? & ? & [-> ->]%reads_Ok & Hr).
  apply st_bind_Ok in Hr as (s1 & res & (Halive & ot' & -> & Hadd)%sync_AddRaw_Ok & Hr).
  pose proof (AddRaw_heads _ _ _ _ _ _ Hun Hadd) as Hh.
  assert ((s' = set_syncTree ot' s /\ ar = res /\ ar_Mode res = Nothing) \/
    (ar_Mode res <> Nothing /\ ar = res /\ exists s2 hu, stays (set_syncTree ot' s) s2 /\ sy_events s2 = sy_events s /\
       updateOf s2 peerId (RawChanges res) hu /\ stays s2 s' /\ sy_events s' = sy_events s2 ++ EvBroadcast hu ::
        (if UnsortedEquals (syncHeads s) (syncHeads s') then []
         else [EvHeadsApply peerId (syncId s) (syncHeads s') (forallb (slices_Contains (syncHeads s')) newHeads)])))
    as Hcases.
  { destruct (ar_Mode res) eqn:Hm; [right|right|left; by apply ret_Ok in Hr as [-> ->]].
    all: split; [done|]; apply st_bind_Ok in Hr as (s2 & hu & (Hst & Hev & Hupd)%CreateHeadUpdate_Ok & Hr).
    all: apply st_bind_Ok in Hr as (s3 & [] & He & Hr); injection He as <-.
    all: apply st_bind_Ok in Hr as (? & ? & [-> ->]%reads_Ok & Hr); cbv zeta in Hr.
    all: apply st_bind_Ok in Hr as (s4 & [] & He & [-> ->]%ret_Ok); split; [done|]; exists s2, hu.
    all: unfold syncHeads in He; simpl in He; unfold syncHeads.
    all: destruct (UnsortedEquals _ _) eqn:Hu; [apply ret_Ok in He as [-> _]|injection He as <-]; simpl; rewrite Hu;
      split_and!; try done; by rewrite <- app_assoc. }
  destruct Hcases as [(-> & -> & Hm)|(Hm & -> & s2 & hu & Hst & Hev & Hupd & Hst2 & Hev')].
  { split_and!; [done|done|done| |by exists ot']. unfold relays. by rewrite Hm. }
  assert (ot_tree (sy_tree s') = ot_tree ot') as Ht.
  { by rewrite (sy_same_tree _ _ Hst2), (sy_same_tree _ _ Hst). }
  split_and!; [done|done|by rewrite Hh; unfold syncHeads; rewrite Ht| |by exists ot'].
  assert (updateOf s' peerId (RawChanges res) hu) as Hupd'.
  { destruct Hst2 as [_ H1' H2' H3' H4']. unfold updateOf, syncHeads in *. by rewrite H1', H2', H3', H4'. }
  unfold relays. destruct (ar_Mode res); [| |done]; exists hu; (split; [done|]); by rewrite Hev', Hev.
Qed.

(** C39: a head update is settled.  When the update of a peer was handled without an error,
    it was a head update, and either no request is sent back and the tree has the
    announced heads then (they are its heads, or changes of it); or a full sync request to
    that peer is sent back, it carries the present heads of the tree, and those are not
    the announced ones, so no peer is asked for what it could not have. *)
Theorem sync_head_update_settles fuel peerId objectId update s s' r :
  t_unAttached (ot_tree (sy_tree s)) = ∅ ->
  HandleHeadUpdate fuel (Ok peerId) objectId update s = (s', Ok r) ->
  exists heads changes path root,
    TreeSyncMessage_UnmarshalVT update = Ok (mkTreeSyncMessage (TSHeadUpdate heads changes path) root) /\
    match r with
    | None => hasHeads s' heads = true
    | Some req => rq_PeerId req = peerId /\ rq_ObjectId req = syncId s' /\ rq_heads req = syncHeads s' /\
        rq_probe req = false /\ ~ heads ≡ₚ syncHeads s'
    end.
Proof.
  intros Hun. unfold HandleHeadUpdate. intros (? & ? & [-> [= <-]]%lifts_Ok & Hr)%st_bind_Ok.
  apply st_bind_Ok in Hr as (? & msg & [-> Hmsg]%lifts_Ok & Hr).
  destruct msg as [[heads changes path| | |] root]; try done. exists heads, changes, path, root. split; [done|].
  simpl in Hr. apply st_bind_Ok in Hr as (s1 & [] & He & Hr). injection He as <-.
  destruct changes as [|c0 changes].
  - apply st_bind_Ok in Hr as (? & has & [-> ->]%reads_Ok & Hr).
    apply st_bind_Ok in Hr as (s2 & [] & He & Hr). injection He as <-.
    destruct (hasHeads _ heads) eqn:Hh; [by apply ret_Ok in Hr as [-> ->]|].
    apply st_bind_Ok in Hr as (s3 & req & Hreq & [-> ->]%ret_Ok).
    apply FullSync_Ok in Hreq as (Hst & Hp & _ & Hid & Hheads & _ & Hprobe). split_and!; try done.
    intros Hperm. unfold hasHeads in Hh. apply orb_false_iff in Hh as [Hh _].
    apply not_true_iff_false in Hh. apply Hh, UnsortedEquals_spec. symmetry. etrans; [exact Hperm|].
    unfold syncHeads. by rewrite (sy_same_tree _ _ Hst).
  - apply st_bind_Ok in Hr as (s2 & ar & Hadd & Hr).
    apply FromPeer_Ok in Hadd; [|done]. simpl in Hadd. rewrite default_headsSlice in Hadd.
    destruct (UnsortedEquals (ar_Heads ar) heads) eqn:Hu.
    + apply ret_Ok in Hr as [-> ->]. destruct Hadd as [(_ & _ & Hh & _)|(_ & _ & Hh & _)]; [done|].
      unfold hasHeads. rewrite <- Hh, Hu. done.
    + apply st_bind_Ok in Hr as (s3 & req & Hreq & [-> ->]%ret_Ok).
      apply FullSync_Ok in Hreq as (Hst & Hp & _ & Hid & Hheads & _ & Hprobe). split_and!; try done.
      intros Hperm. assert (ar_Heads ar ≡ₚ heads) as Hx; [|apply UnsortedEquals_spec in Hx; by rewrite Hx in Hu].
      destruct Hadd as [(_ & _ & _ & -> & _)|(_ & _ & Hh & _)]; [done|].
      rewrite Hh, Hperm. unfold syncHeads. by rewrite (sy_same_tree _ _ Hst).
Qed.

(** ** Serving a full sync request *)

Definition addEvents (evs : list SyncEvent) s : syncTree TA T :=
  mkSyncTree (sy_tree s) (sy_spaceId s) (sy_listener s) (sy_stats s) (sy_isClosed s) (sy_isDeleted s)
    (sy_events s ++ evs).

Lemma addEvents_app evs1 evs2 s : addEvents evs2 (addEvents evs1 s) = addEvents (evs1 ++ evs2) s.
Proof. unfold addEvents. simpl. by rewrite <- app_assoc. Qed.

(** The response a batch becomes, and what is told about it. *)
Definition respOf (spaceId objectId : string) (b : IteratorBatch) : Response :=
  mkResponse spaceId objectId (ib_Heads b) (ib_SnapshotPath b) (ib_Batch b) (Some (ib_Root b)).
Definition sentEvents (r : Response) : list SyncEvent :=
  [EvQueueSize (Response_MsgSize r) true; EvSent r; EvQueueSize (Response_MsgSize r) false].

Section serving.
Variable send : Response -> res unit.
Hypothesis Hsend : forall r, send r = Ok tt.
Hypothesis Hmarshal : forall m, exists b, TreeSyncMessage_MarshalVT m = Ok b.

Lemma ProtoMessage_Ok r : Response_ProtoMessage r = Ok tt.
Proof.
  unfold Response_ProtoMessage. case_decide; [done|].
  by destruct (Hmarshal (mkTreeSyncMessage (TSFullSyncResponse (rsp_Heads r) (rsp_Changes r) (rsp_SnapshotPath r))
    (rsp_Root r))) as [b ->].
Qed.

Lemma sendResponse_Ok r s : sendResponse send r s = (addEvents [EvSent r] s, Ok tt).
Proof. unfold sendResponse, sendOn. rewrite ProtoMessage_Ok, Hsend. done. Qed.

Lemma streamBatches_drain fuel l bs s :
  drain fuel (ot_storage (sy_tree s)) batchSize l = Ok bs ->
  streamBatches fuel send l s =
    (addEvents (concat (sentEvents <$> (respOf (sy_spaceId s) (syncId s) <$> bs))) s, Ok tt).
Proof.
  assert (forall s, s = addEvents [] s) as Hid by (intros []; unfold addEvents; simpl; by rewrite app_nil_r).
  revert l bs s. induction fuel as [|fuel IH]; intros l bs s Hdr; simpl in Hdr |- *.
  all: destruct (NextBatch (ot_storage (sy_tree s)) batchSize l) as [l' [b|e]] eqn:Hb; [|done].
  all: erewrite st_bind_run by (unfold reads, NewResponse; rewrite Hb; reflexivity); cbn [lifts mbind st_bind rsp_Changes].
  all: destruct (decide (ib_Batch b = [])) as [He|Hne].
  1, 3: injection Hdr as <-; simpl; rewrite He; rewrite <- Hid; reflexivity.
  - destruct (ib_Batch b); done.
  - apply res_bind_Ok in Hdr as (bs' & Hdr & [= <-]). unfold mbind, st_bind, lifts. simpl.
    destruct (ib_Batch b) eqn:Heb; [done|]. rewrite <- Heb. unfold mbind, st_bind, emit, assigns.
    rewrite sendResponse_Ok. cbn. change (mkSyncTree ?a ?b ?c ?d ?e ?f (sy_events ?s ++ ?evs)) with (addEvents evs s).
    erewrite IH by exact Hdr. f_equal. destruct b as [bb bh bp br]; simpl in Heb; subst bb.
    unfold addEvents. simpl. rewrite <- !app_assoc. done.
Qed.

Lemma SnapshotPath_actual fuel (ot ot' : objectTree TA T) path :
  SnapshotPath fuel ot = (ot', Ok path) -> path <> [] ->
  (ot' = ot \/ exists p, ot' = set_snapshotPath p ot) /\
  ot_isDeleted ot' = false /\ ot_snapshotPath ot' = path /\ snapshotPathIsActual ot' = true.
Proof.
  intros Hp Hne. split; [by eapply SnapshotPath_keeps|]. revert Hp.
  unfold SnapshotPath, notDeleted, mbind, st_bind, calls, reads, assigns.
  destruct (ot_isDeleted ot) eqn:Hd; simpl; [done|].
  destruct (snapshotPathIsActual ot) eqn:Ha; [by intros [= <- <-]|].
  destruct (pathFrom fuel _ _) as [p|e] eqn:Hpath; intros [= <- <-]. simpl. split_and!; [done|done|].
  unfold snapshotPathIsActual. simpl. destruct fuel; simpl in Hpath; case_decide; simplify_eq.
  apply res_bind_Ok in Hpath as (sn & _ & Hpath). apply res_bind_Ok in Hpath as (q & _ & [= <-]).
  by rewrite bool_decide_true.
Qed.

Lemma SnapshotPath_again fuel (ot : objectTree TA T) :
  ot_isDeleted ot = false -> snapshotPathIsActual ot = true ->
  SnapshotPath fuel ot = (ot, Ok (ot_snapshotPath ot)).
Proof.
  intros Hd Ha. unfold SnapshotPath, notDeleted, mbind, st_bind, calls, reads. rewrite Hd. simpl. by rewrite Ha.
Qed.

(** The snapshot a request is served from: the oldest one for a peer without a path. *)
Definition servedFrom (ourPath theirPath : list string) : res string :=
  match theirPath with
  | [] => opt_or (last ourPath) (GoPanic "index out of range")
  | _ => commonSnapshotForTwoPaths ourPath theirPath
  end.

Lemma coversHeads_run theirHeads s :
  exists s1, coversHeads theirHeads s = (s1, Ok (bool_decide (syncHeads s ⊆+ theirHeads))) /\
    (s1 = s \/ s1 = sortHeads s).
Proof.
  unfold coversHeads. erewrite st_bind_run by reflexivity. destruct (UnsortedEquals _ _) eqn:Hu.
  { exists s. rewrite bool_decide_true; [by split; [|left]|]. apply UnsortedEquals_spec in Hu. by rewrite Hu. }
  assert (ContainsSorted theirHeads (syncHeads s) = bool_decide (syncHeads s ⊆+ theirHeads)) as ->.
  { apply eq_bool_prop_intro. rewrite !Is_true_true, ContainsSorted_spec, bool_decide_eq_true. done. }
  unfold mbind, st_bind. destruct (_ <? _)%nat; [exists s|exists (sortHeads s)]; split; auto.
Qed.

Lemma drain_mono fuel fuel' (st : T) maxSize l bs :
  drain fuel st maxSize l = Ok bs -> (fuel <= fuel')%nat -> drain fuel' st maxSize l = Ok bs.
Proof.
  revert fuel' l bs. induction fuel as [|fuel IH]; intros fuel' l bs Hdr Hle.
  - simpl in Hdr. destruct fuel'; simpl; destruct (NextBatch st maxSize l) as [l' [b|e]]; try done; by case_decide.
  - destruct fuel' as [|fuel']; [lia|]. simpl in *. destruct (NextBatch st maxSize l) as [l' [b|e]]; [|done].
    case_decide; [done|]. apply res_bind_Ok in Hdr as (bs' & Hdr & [= <-]).
    apply (IH fuel') in Hdr; [|lia]. by rewrite Hdr.
Qed.

(** The loader starts at that snapshot. *)
Lemma loader_run fuel (ot0 ot : objectTree TA T) ourPath theirPath theirHeads cs :
  SnapshotPath fuel ot0 = (ot, Ok ourPath) -> ourPath <> [] -> servedFrom ourPath theirPath = Ok cs ->
  ChangesAfterCommonSnapshotLoader fuel theirPath theirHeads ot0 =
    (ot, load (ot_storage ot) (ot_changeBuilder ot) cs (t_headIds (ot_tree ot)) theirHeads
           (newLoadIterator (ot_rawRoot ot) ourPath)).
Proof.
  intros Hp Hne Hcs. destruct (SnapshotPath_actual _ _ _ _ Hp Hne) as (Hk & Hd & _).
  assert (ot_isDeleted ot0 = false) as Hd0 by (by destruct Hk as [->|[p ->]]).
  unfold ChangesAfterCommonSnapshotLoader, notDeleted. erewrite st_bind_run by (unfold calls; rewrite Hd0; reflexivity).
  rewrite (st_bind_run _ _ _ _ _ Hp). unfold servedFrom in Hcs.
  destruct (last ourPath) as [first|] eqn:Hl; [|by apply last_None in Hl].
  erewrite st_bind_run by reflexivity. erewrite st_bind_run; [reflexivity|]. unfold lifts.
  destruct theirPath; [injection Hcs as ->; reflexivity|by rewrite Hcs].
Qed.

(** The request back. *)
Lemma asksBack_run fuel peerId (theirHeads : list string) s :
  ot_isDeleted (sy_tree s) = false -> snapshotPathIsActual (sy_tree s) = true ->
  exists req, (match theirHeads with
               | [] => mret None
               | _ => req ← CreateFullSyncRequest fuel peerId; mret (Some req)
               end : ST (syncTree TA T) (option Request)) s = (s, Ok req) /\ (req = None <-> theirHeads = []).
Proof.
  intros Hd Ha. destruct theirHeads as [|h hs]; [by exists None|]. eexists (Some _). split; [|done].
  unfold CreateFullSyncRequest, mbind, st_bind, onObject. rewrite SnapshotPath_again by done.
  destruct s. reflexivity.
Qed.

(** C24: a full sync request is answered with what the peer is missing, and the answer ends.
    Let the request be for heads that do not include all heads of the tree, and let the
    storage have distinct order ids and its changes from the snapshot common to both paths
    on be decodable.  With a stream that takes every message, the handler sends responses
    that are not empty and are a single change or smaller than the batch size, the size of
    each counted before it is sent and discounted after; together their changes are, in the
    order of the storage and without repetition, exactly the stored changes from that
    snapshot on that are not below the heads of the peer, so a peer that holds its heads
    with all their predecessors holds every one of them afterwards.  The tree asks back
    exactly if the peer named heads, and stays as it was. *)
Theorem sync_stream_serves fuel rq bytes s ot ourPath theirHeads theirPath root cs :
  let st := ot_storage (sy_tree s) in
  let loaded := fromOrder (sc_OrderId cs) (tst_log st) in
  TreeSyncMessage_UnmarshalVT bytes = Ok (mkTreeSyncMessage (TSFullSyncRequest theirHeads theirPath false) root) ->
  SnapshotPath fuel (sy_tree s) = (ot, Ok ourPath) -> ourPath <> [] -> servedFrom ourPath theirPath = Ok (sc_Id cs) ->
  tst_wf st -> NoDup (sc_OrderId <$> tst_log st) -> cs ∈ tst_log st ->
  decodable (ot_changeBuilder (sy_tree s)) loaded ->
  ~ syncHeads s ⊆+ theirHeads -> (length loaded <= fuel)%nat ->
  exists s' req responses sent,
    HandleStreamRequest fuel rq bytes send s = (s', Ok (req, Ok tt)) /\
    sy_events s' = sy_events s ++ concat (sentEvents <$> responses) /\
    Forall (fun r => rsp_Changes r <> [] /\ batch_small batchSize (rsp_Changes r)) responses /\
    sent `sublist_of` loaded /\ concat (rsp_Changes <$> responses) = sc_Raw <$> sent /\
    (forall sc, sc ∈ loaded ->
       sc ∈ sent <-> ~ peerHas (ot_changeBuilder (sy_tree s)) loaded theirHeads (sc_Id sc)) /\
    (forall have : gset string,
      (forall x y, x ∈ have -> prevIn (ot_changeBuilder (sy_tree s)) loaded x y -> y ∈ have) ->
      (forall h, h ∈ theirHeads -> h ∈ have) ->
      forall sc, sc ∈ loaded -> sc_Id sc ∈ have \/ sc_Raw sc ∈ concat (rsp_Changes <$> responses)) /\
    (req = None <-> theirHeads = []) /\
    syncHeads s' ≡ₚ syncHeads s /\ t_attached (ot_tree (sy_tree s')) = t_attached (ot_tree (sy_tree s)) /\
    ot_storage (sy_tree s') = st.
Proof.
  intros st loaded Hmsg Hp Hne Hcs Hwf Hord Hin Hdec Hcov Hfuel.
  destruct (SnapshotPath_actual _ _ _ _ Hp Hne) as (Hk & Hd & _ & Ha).
  assert (ot_storage ot = st /\ ot_changeBuilder ot = ot_changeBuilder (sy_tree s) /\
    ot_tree ot = ot_tree (sy_tree s)) as (Hst & Hcb & Ht) by (by destruct Hk as [->|[p ->]]).
  destruct (tree_load_complete st (ot_changeBuilder (sy_tree s)) cs (syncHeads s) theirHeads batchSize
    (newLoadIterator (ot_rawRoot ot) ourPath) Hwf Hord Hin Hdec eq_refl)
    as (it & bs & sent & Hload & Hdrain & Hbs & Hsub & Hcat & Hsent & Hhave).
  unfold HandleStreamRequest. rewrite Hmsg, lifts_bind. cbn [tsm_Content].
  set (s1 := set_syncTree ot s).
  rewrite (st_bind_run _ _ _ s1 it); cycle 1.
  { unfold onObject. erewrite loader_run by done. rewrite Hst, Hcb, Ht. unfold syncHeads in Hload. by rewrite Hload. }
  destruct (coversHeads_run theirHeads s1) as (s2 & Hrun & Hs2). rewrite (st_bind_run _ _ _ _ _ Hrun).
  assert (syncHeads s1 = syncHeads s) as -> by (unfold syncHeads, s1; simpl; by rewrite Ht).
  rewrite bool_decide_false by done.
  assert (ot_isDeleted (sy_tree s2) = false /\ snapshotPathIsActual (sy_tree s2) = true) as [Hd2 Ha2]
    by (by destruct Hs2 as [->| ->]).
  destruct (asksBack_run fuel (rq_PeerId rq) theirHeads s2 Hd2 Ha2) as (req & Hreq & Hnone).
  rewrite (st_bind_run _ _ _ _ _ Hreq).
  assert (ot_storage (sy_tree s2) = st) as Hst2 by (by destruct Hs2 as [->| ->]).
  erewrite st_bind_run; cycle 1.
  { apply (streamBatches_drain fuel it bs). rewrite Hst2. by eapply drain_mono. }
  set (responses := respOf (sy_spaceId s2) (syncId s2) <$> bs).
  assert (rsp_Changes <$> responses = ib_Batch <$> bs) as Hresp.
  { unfold responses. by rewrite <- list_fmap_compose. }
  exists (addEvents (concat (sentEvents <$> responses)) s2), req, responses, sent. rewrite Hresp.
  split_and!; try done.
  - by destruct Hs2 as [->| ->].
  - unfold responses. apply Forall_fmap. exact Hbs.
  - unfold syncHeads. destruct Hs2 as [->| ->]; simpl; rewrite Ht; [done|apply sortStrings_perm].
  - destruct Hs2 as [->| ->]; simpl; by rewrite Ht.
Qed.
End serving.

(** ** Closed trees and fetched trees *)

(** A closed or deleted tree takes nothing and stays as it is. *)
Lemma sync_dead_refuses fuel nonce now content validate payload s e :
  checkAlive s = Err e ->
  sync_AddRawChanges fuel payload s = (s, Err e) /\
  sync_AddContentWithValidator fuel nonce now content validate s = (s, Err e) /\ sync_Delete s = (s, Err e).
Proof.
  intros Hdead. unfold sync_AddRawChanges, sync_AddContentWithValidator, sync_Delete, mbind, st_bind, calls.
  by rewrite Hdead.
Qed.

(** A tree is closed once; after that it refuses. *)
Lemma sync_close_once s s1 s2 r1 r2 :
  sync_close s = (s1, r1) -> sync_close s1 = (s2, r2) ->
  sy_isClosed s1 = true /\ r2 = Err ErrSyncTreeClosed /\ (r1 = Ok tt <-> sy_isClosed s = false).
Proof.
  unfold sync_close, mbind, st_bind, reads, lifts, emit, assigns, fail_if, set_closed.
  destruct s as [ot sp li [] [] de ev]; simpl; intros [= <- <-]; simpl; intros [= <- <-]; done.
Qed.

(** A stream that ended well has delivered the tree: the collector is not empty. *)
Lemma recvLoop_collects fuel validator recv ending (r r' : option (objectTree TA T)) calledOnce :
  (calledOnce = true -> r <> None) ->
  recvLoop (CollectResponse fuel validator) calledOnce recv ending r = (r', Ok tt) -> r' <> None.
Proof.
  revert r calledOnce. induction recv as [|resp recv IH]; intros r calledOnce Hr; simpl.
  - case_decide; [|done]. destruct calledOnce; [|done]. intros [= <-]. by apply Hr.
  - intros (r1 & [] & Hc & Hrun)%st_bind_Ok. eapply IH; [|exact Hrun]. intros _ ->.
    unfold CollectResponse in Hc. destruct r as [ot|].
    + destruct (AddRawChanges _ _ _) as [ot' ?]. done.
    + by destruct (validator _ _ _).
Qed.

Lemma getTree_fetched fuel probe spaceId treeId ctxPeerId responsible network validator c p :
  treeRequestLoop fuel probe spaceId treeId ctxPeerId responsible network validator = Ok (c, p) ->
  exists ot : objectTree TA T, c = Some ot.
Proof.
  unfold treeRequestLoop, treeRequest. intros (peers & _ & Hl)%res_bind_Ok.
  apply res_bind_Ok in Hl as (peer & _ & Hl). apply res_bind_Ok in Hl as (o & Hreq & [= <- <-]).
  apply res_bind_Ok in Hreq as ([recv ending] & _ & Hrun). apply runs_Ok in Hrun as [[] Hrun].
  apply recvLoop_collects in Hrun; [|done]. destruct o as [ot|]; [by exists ot|done].
Qed.
End sync_main.

(** * A concrete sync tree: the tree of the object tree examples hears of changes and serves
    them to a peer that has one of them. *)

Local Open Scope string_scope.

#[local] Existing Instance cidListCodec.

(** ** An encoding of the messages *)

Definition rawPair (r : RawTreeChangeWithId) : option bytes * string := (rtc_RawChange r, rtc_Id r).
Definition pairRaw (p : option bytes * string) : RawTreeChangeWithId := mkRawTreeChangeWithId p.1 p.2.

Definition syncFields (m : TreeSyncMessage) :
    nat * list string * list (option bytes * string) * list string * bool * option (option bytes * string) :=
  let root := rawPair <$> tsm_RootChange m in
  match tsm_Content m with
  | TSHeadUpdate heads changes path => (0%nat, heads, rawPair <$> changes, path, false, root)
  | TSFullSyncRequest heads path probe => (1%nat, heads, [], path, probe, root)
  | TSFullSyncResponse heads changes path => (2%nat, heads, rawPair <$> changes, path, false, root)
  | TSOther => (3%nat, [], [], [], false, root)
  end.
Definition syncOf '(tag, heads, changes, path, probe, root) : TreeSyncMessage :=
  mkTreeSyncMessage
    match (tag : nat) with
    | 0%nat => TSHeadUpdate heads (pairRaw <$> changes) path
    | 1%nat => TSFullSyncRequest heads path probe
    | 2%nat => TSFullSyncResponse heads (pairRaw <$> changes) path
    | _ => TSOther
    end (pairRaw <$> root).
#[local] Instance toySyncCodec : SyncCodec := {|
  TreeSyncMessage_MarshalVT := fun m => Ok (ser (syncFields m));
  TreeSyncMessage_UnmarshalVT := message syncOf;
|}.

Lemma toyMarshal (m : TreeSyncMessage) : exists b, TreeSyncMessage_MarshalVT m = Ok b.
Proof. by eexists. Qed.

(** ** Hearing of changes *)

Lemma announced_inj h1 c1 p1 r1 h2 c2 p2 r2 :
  Ok (mkTreeSyncMessage (TSHeadUpdate h1 c1 p1) r1) = Ok (mkTreeSyncMessage (TSHeadUpdate h2 c2 p2) r2) -> h2 = h1.
Proof. by intros [= -> _ _ _]. Qed.

Abbreviation exSync := (syncTree inMemoryStorage listStore).
Definition exSyncTree : exSync := mkSyncTree exObjTree "space" None false false false [].

(** A peer announces both changes and sends one. *)
Definition exHeads : list string := rtc_Id <$> [exChange bob "hi"; exChange alice "hello"].
Definition exUpdate : bytes :=
  ser (syncFields (mkTreeSyncMessage
    (TSHeadUpdate exHeads [exChange bob "hi"] [rtc_Id exTreeRoot]) (Some exTreeRoot))).
Definition exHeard : exSync := (HandleHeadUpdate 10 (Ok "peer") "tree" exUpdate exSyncTree).1.
Definition exAsked : option Request :=
  match (HandleHeadUpdate 10 (Ok "peer") "tree" exUpdate exSyncTree).2 with Ok r => r | Err _ => None end.

(** The one that came is added and told to the others, the peer is asked for the rest. *)
Lemma sync_head_update_settles_witness :
  exists req, exAsked = Some req /\ rq_heads req = [rtc_Id (exChange bob "hi")] /\ rq_PeerId req = "peer" /\
    ~ exHeads ≡ₚ syncHeads exHeard.
Proof.
  destruct (sync_head_update_settles 10 "peer" "tree" exUpdate exSyncTree exHeard exAsked)
    as (heads & changes & path & root & Hmsg & Hreq).
  - vm_compute. reflexivity.
  - vm_compute. reflexivity.
  - assert (heads = exHeads) as ->.
    { assert (TreeSyncMessage_UnmarshalVT exUpdate = Ok (mkTreeSyncMessage
        (TSHeadUpdate exHeads [exChange bob "hi"] [rtc_Id exTreeRoot]) (Some exTreeRoot))) as Hm
        by (vm_compute; reflexivity). rewrite Hm in Hmsg. exact (announced_inj _ _ _ _ _ _ _ _ Hmsg). }
    destruct exAsked as [req|] eqn:Ha; [|exfalso; revert Ha; vm_compute; discriminate].
    destruct Hreq as (Hp & _ & Hh & _ & Hne). exists req. split; [reflexivity|].
    split; [rewrite Hh; vm_compute; reflexivity|]. split; [exact Hp|exact Hne].
Defined.

(** ** Serving *)

Definition exServing : exSync := mkSyncTree exAfter "space" None false false false [].
Definition exTheirHeads : list string := [rtc_Id (exChange bob "hi")].
Definition exRequest : Request := mkRequest "peer" "space" "tree" exTheirHeads [rtc_Id exTreeRoot] None false.
Definition exRequestBytes : bytes :=
  ser (syncFields (mkTreeSyncMessage (TSFullSyncRequest exTheirHeads [rtc_Id exTreeRoot] false) None)).

Definition exRow (i : nat) : StorageChange := default exRootRow (tst_log (ot_storage exAfter) !! i).

Lemma exAfter_log : tst_log (ot_storage exAfter) = [exRow 0; exRow 1; exRow 2].
Proof. vm_compute. reflexivity. Qed.

Lemma sorted_three {A} (R : A -> A -> Prop) a b c : R a b -> R a c -> R b c -> StronglySorted R [a; b; c].
Proof. intros Hab Hac Hbc. repeat constructor; done. Qed.
Lemma Forall_three {A} (P : A -> Prop) a b c : P a -> P b -> P c -> Forall P [a; b; c].
Proof. intros Ha Hb Hc. repeat constructor; done. Qed.

Lemma exAfter_wf : tst_wf (ot_storage exAfter).
Proof.
  change (tlog_ok (tst_log (ot_storage exAfter))). split; [apply (bool_decide_unpack _); vm_compute; exact I|].
  rewrite exAfter_log. apply sorted_three; vm_compute; first [exact I|reflexivity].
Qed.

Lemma exAfter_decodable :
  decodable (ot_changeBuilder exAfter) (fromOrder (sc_OrderId (exRow 0)) (tst_log (ot_storage exAfter))).
Proof.
  assert (fromOrder (sc_OrderId (exRow 0)) (tst_log (ot_storage exAfter)) = [exRow 0; exRow 1; exRow 2]) as ->
    by (vm_compute; reflexivity).
  apply Forall_three; eexists; vm_compute; reflexivity.
Qed.

Lemma sync_stream_serves_witness :
  exists s' req responses sent,
    HandleStreamRequest 10 exRequest exRequestBytes (fun _ => Ok tt) exServing = (s', Ok (req, Ok tt)) /\
    sy_events s' = concat (sentEvents <$> responses) /\
    concat (rsp_Changes <$> responses) = sc_Raw <$> sent /\ sent `sublist_of` tst_log (ot_storage exAfter) /\
    req <> None.
Proof.
  destruct (sync_stream_serves (fun _ => Ok tt) (fun _ => eq_refl) toyMarshal
    10 exRequest exRequestBytes exServing (SnapshotPath 10 exAfter).1 [rtc_Id exTreeRoot] exTheirHeads
    [rtc_Id exTreeRoot] None (exRow 0)) as (s' & req & responses & sent & Hrun & Hev & _ & Hsub & Hcat & _ & _ & Hreq & _).
  - vm_compute. reflexivity.
  - vm_compute. reflexivity.
  - discriminate.
  - vm_compute. reflexivity.
  - exact exAfter_wf.
  - apply (bool_decide_unpack _). vm_compute. exact I.
  - change (exRow 0 ∈ tst_log (ot_storage exAfter)). rewrite exAfter_log. apply list_elem_of_here.
  - exact exAfter_decodable.
  - apply (bool_decide_unpack _). vm_compute. exact I.
  - vm_compute. repeat constructor.
  - exists s', req, responses, sent. split; [exact Hrun|]. split; [exact Hev|]. split; [exact Hcat|].
    split; [|intros Hn; apply Hreq in Hn; discriminate].
    etrans; [exact Hsub|]. apply sublist_filter.
Defined.

(** The peer is sent the one change it lacks. *)
Definition exSent : list (list string) :=
  omap (fun e => match e with EvSent r => Some (rtc_Id <$> rsp_Changes r) | _ => None end)
    (sy_events (HandleStreamRequest 10 exRequest exRequestBytes (fun _ => Ok tt) exServing).1).
Example exServedChange : exSent = [[rtc_Id (exChange alice "hello")]].
Proof. vm_compute. reflexivity. Qed.
