(* ===== verification/SyncQueues.v ===== *)
(** The queues of syncing (src/util/syncqueues: guard.go, limit.go, replaceablequeue.go,
    actionpool.go): the guard against parallel work on an object, the limit of requests a
    peer may have open, and the queue in which a newer request replaces an older one.

    The guard and the limit run under their lock: their methods are functions on their
    state.  The replaceable queue is used by many goroutines at once: each is a thread that
    takes one atomic step at a time, and a run is any interleaving.  Its bounded batch of
    ids is a library, the class [MessageBatch]. *)

From Stdlib Require Import ZArith Lia String.
From stdpp Require Import base option list gmap strings sorting.
From S2P Require Import Prelude.

Local Open Scope Z_scope.

(** ** Guard *)

Abbreviation Guard := (gset string) (only parsing).

Definition NewGuard : Guard := ∅.
Definition TryTake (id : string) (g : Guard) : Guard * bool :=
  if decide (id ∈ g) then (g, false) else ({[id]} ∪ g, true).
Definition Guard_Release (id : string) (g : Guard) : Guard := g ∖ {[id]}.

(** ** Limit *)

Record Limit := mkLimit {
  l_peerStep : list Z;
  l_totalStep : list Z;
  l_excludeIds : list string;
  l_excludedLimit : Z;
  l_excludedTotal : Z;
  l_counter : nat;
  l_total : Z;
  l_tokens : gmap string Z;
}.

Definition notBelow (a b : Z) : Prop := b <= a.
#[global] Instance notBelow_dec : RelDecision notBelow := fun a b => Z.le_dec b a.
Definition descending (l : list Z) : list Z := merge_sort notBelow l.
Definition ascending (l : list Z) : list Z := merge_sort Z.le l.

(** The last total step counts twice: there is a peer step more. *)
Definition NewLimit (peerStep totalStep : list Z) (excludeIds : list string) (excludedLimit : Z) : res Limit :=
  if bool_decide (length peerStep = 0%nat) || bool_decide (length totalStep = 0%nat) ||
     negb (bool_decide (length peerStep = length totalStep + 1)%nat)
  then Err (GoPanic "incorrect limit configuration")
  else
    let totalStep := ascending totalStep in
    Ok (mkLimit (descending peerStep) (totalStep ++ [default 0 (last totalStep)]) excludeIds excludedLimit 0 0 0 ∅).

Definition indexPanic : error := GoPanic "index out of range".
Definition tokensOf (l : Limit) (id : string) : Z := default 0 (l_tokens l !! id).
Definition isExcluded (l : Limit) (id : string) : bool := bool_decide (id ∈ l_excludeIds l).

Definition set_tokens (id : string) (n excludedTotal total : Z) (counter : nat) (l : Limit) : Limit :=
  mkLimit (l_peerStep l) (l_totalStep l) (l_excludeIds l) (l_excludedLimit l) excludedTotal counter total
    (<[id := n]> (l_tokens l)).

Definition Take (id : string) : ST Limit bool := fun l =>
  let n := tokensOf l id in
  if isExcluded l id then
    if l_excludedLimit l <=? n then (l, Ok false)
    else (set_tokens id (n + 1) (l_excludedTotal l + 1) (l_total l) (l_counter l) l, Ok true)
  else
    match l_peerStep l !! l_counter l with
    | None => (l, Err indexPanic)
    | Some step =>
        if step <=? n then (l, Ok false)
        else
          let total := l_total l + 1 in
          match l_totalStep l !! l_counter l with
          | None => (set_tokens id (n + 1) (l_excludedTotal l) total (l_counter l) l, Err indexPanic)
          | Some tstep =>
              let counter := if (tstep <=? total) && (l_counter l <? length (l_totalStep l) - 1)%nat
                             then S (l_counter l) else l_counter l in
              (set_tokens id (n + 1) (l_excludedTotal l) total counter l, Ok true)
          end
    end.

(** One step down, and one more from the last. *)
Definition counterDown (l : Limit) : nat :=
  let c := if bool_decide (l_counter l = length (l_totalStep l) - 1)%nat then (l_counter l - 1)%nat else l_counter l in
  (c - 1)%nat.

Definition Release (id : string) : ST Limit unit := fun l =>
  let n := tokensOf l id in
  if 0 <? n then
    if isExcluded l id then
      (set_tokens id (n - 1) (l_excludedTotal l - 1) (l_total l) (l_counter l) l, Ok tt)
    else
      let total := l_total l - 1 in
      match l_totalStep l !! l_counter l with
      | None => (set_tokens id (n - 1) (l_excludedTotal l) total (l_counter l) l, Err indexPanic)
      | Some tstep =>
          let counter := if total <? tstep then counterDown l else l_counter l in
          (set_tokens id (n - 1) (l_excludedTotal l) total counter l, Ok tt)
      end
  else (l, Ok tt).

(** ** The replaceable queue *)

(** [mb.MB[string]]: [None] is an overflow or a closed batch for [mb_TryAdd], and nothing to
    take yet for [mb_WaitOne]. *)
Class MessageBatch (Q : Type) := {
  mb_New : nat -> Q;
  mb_TryAdd : string -> Q -> option Q;
  mb_WaitOne : Q -> option (string * Q);
}.

Class MessageBatchLaws (Q : Type) `{MessageBatch Q} := {
  mb_items : Q -> list string;
  mb_size : Q -> nat;
  mb_New_law n : mb_items (mb_New n) = [] /\ mb_size (mb_New n) = n;
  mb_TryAdd_law x q q' : mb_TryAdd x q = Some q' -> mb_items q' ≡ₚ x :: mb_items q /\ mb_size q' = mb_size q;
  mb_TryAdd_room x q : (length (mb_items q) < mb_size q)%nat -> is_Some (mb_TryAdd x q);
  mb_WaitOne_law x q q' : mb_WaitOne q = Some (x, q') -> mb_items q ≡ₚ x :: mb_items q' /\ mb_size q' = mb_size q;
  mb_WaitOne_empty q : mb_WaitOne q = None -> mb_items q = [];
}.

(** [call] and [onRemove] come from one call of [Replace], the token names it. *)
Record entry := mkEntry { en_tok : nat; en_cnt : Z }.

(** Where a goroutine is. *)
Inductive thread :=
| RStart (id : string) (tok : nat)
| RLoaded (id : string) (tok : nat) (curCnt : Z)
| RCounted (id : string) (tok : nat) (curCnt : Z)
| RReplaced (id : string) (prev : nat)
| RInserted (id : string) (tok : nat) (curCnt : Z)
| RFailed (id : string) (tok : nat) (curCnt : Z)
| RDropped (id : string) (tok : nat)
| RDone (id : string)
| WWait
| WGot (id : string)
| WCall (tok : nat)
| WRemove (tok : nat).

Inductive queueEvent :=
| Called (tok : nat)
| Removed (tok : nat).

Section queue.
Context {Q : Type} `{MessageBatch Q}.

Record replaceableQueue := mkQueue {
  q_entries : gmap string entry;
  q_batch : Q;
  q_cnt : Z;
  q_threads : list thread;
  q_log : list queueEvent;
}.
Implicit Types (q : replaceableQueue).

Definition goes (i : nat) (t : thread) q : replaceableQueue :=
  mkQueue (q_entries q) (q_batch q) (q_cnt q) (<[i := t]> (q_threads q)) (q_log q).
Definition with_entries m q : replaceableQueue :=
  mkQueue m (q_batch q) (q_cnt q) (q_threads q) (q_log q).
Definition with_batch b q : replaceableQueue :=
  mkQueue (q_entries q) b (q_cnt q) (q_threads q) (q_log q).
Definition counts q : replaceableQueue :=
  mkQueue (q_entries q) (q_batch q) ((q_cnt q + 1) mod 2 ^ 64) (q_threads q) (q_log q).
Definition logs (e : queueEvent) q : replaceableQueue :=
  mkQueue (q_entries q) (q_batch q) (q_cnt q) (q_threads q) (q_log q ++ [e]).

(** One atomic step of [Replace]. *)
Definition replaceStep (i : nat) (t : thread) q : option replaceableQueue :=
  match t with
  | RStart id tok => Some (goes i (RLoaded id tok (q_cnt q)) q)
  | RLoaded id tok curCnt => Some (goes i (RCounted id tok curCnt) (counts q))
  | RCounted id tok curCnt =>
      let q' := with_entries (<[id := mkEntry tok curCnt]> (q_entries q)) q in
      match q_entries q !! id with
      | Some prev => Some (goes i (RReplaced id (en_tok prev)) q')
      | None => Some (goes i (RInserted id tok curCnt) q')
      end
  | RReplaced id prev => Some (goes i (RDone id) (logs (Removed prev) q))
  | RInserted id tok curCnt =>
      match mb_TryAdd id (q_batch q) with
      | Some b => Some (goes i (RDone id) (with_batch b q))
      | None => Some (goes i (RFailed id tok curCnt) q)
      end
  | RFailed id tok curCnt =>
      (* the entry of an absent id is the zero value *)
      let cnt := default 0 (en_cnt <$> q_entries q !! id) in
      Some (goes i (RDropped id tok)
              (if decide (cnt = curCnt) then with_entries (delete id (q_entries q)) q else q))
  | RDropped id tok => Some (goes i (RDone id) (logs (Removed tok) q))
  | _ => None
  end.

(** One atomic step of a worker in [callLoop]. *)
Definition callStep (i : nat) (t : thread) q : option replaceableQueue :=
  match t with
  | WWait =>
      match mb_WaitOne (q_batch q) with
      | Some (id, b) => Some (goes i (WGot id) (with_batch b q))
      | None => None
      end
  | WGot id =>
      match q_entries q !! id with
      | Some e => Some (goes i (WCall (en_tok e)) (with_entries (delete id (q_entries q)) q))
      | None => Some (goes i WWait q)
      end
  | WCall tok => Some (goes i (WRemove tok) (logs (Called tok) q))
  | WRemove tok => Some (goes i WWait (logs (Removed tok) q))
  | _ => None
  end.

Definition qstep (i : nat) q : option replaceableQueue :=
  t ← q_threads q !! i;
  match t with
  | WWait | WGot _ | WCall _ | WRemove _ => callStep i t q
  | _ => replaceStep i t q
  end.

(** [newReplaceableQueue] and [Run], with the calls of [Replace] that will be made. *)
Definition newReplaceableQueue (workers maxSize : nat) (requests : list (string * nat)) : replaceableQueue :=
  mkQueue ∅ (mb_New maxSize) 0
    (replicate workers WWait ++ ((fun r => RStart r.1 r.2) <$> requests)) [].

(** A run of [n] steps. *)
Inductive qruns : nat -> replaceableQueue -> replaceableQueue -> Prop :=
| qruns_nil q : qruns 0 q q
| qruns_step n q q1 q2 i : qruns n q q1 -> qstep i q1 = Some q2 -> qruns (S n) q q2.

(** The steps of a schedule, for evaluation. *)
Fixpoint schedule (l : list nat) q : option replaceableQueue :=
  match l with
  | [] => Some q
  | i :: l => q' ← qstep i q; schedule l q'
  end.
End queue.

Arguments replaceableQueue Q : clear implicits.
