(* ===== verification/SyncQueuesMain.v ===== *)
(** The runs of the replaceable queue: counting tokens and ids, the invariant of a step and
    the measure that ends every run. *)

From Stdlib Require Import ZArith Lia String.
From stdpp Require Import base option list gmap strings sorting.
From S2P Require Import Prelude SyncQueues.

Local Open Scope nat_scope.

(** ** Counting *)

Section occ.
Context {A : Type} `{EqDecision A}.

Definition occ (x : A) (l : list A) : nat := length (filter (fun y => y = x) l).

Lemma occ_nil x : occ x [] = 0.
Proof. done. Qed.
Lemma occ_app x (l1 l2 : list A) : occ x (l1 ++ l2) = occ x l1 + occ x l2.
Proof. unfold occ. by rewrite filter_app, length_app. Qed.
Lemma occ_cons x (a : A) l : occ x (a :: l) = occ x [a] + occ x l.
Proof. exact (occ_app x [a] l). Qed.
Lemma occ_perm x (l1 l2 : list A) : l1 ≡ₚ l2 -> occ x l1 = occ x l2.
Proof. unfold occ. by intros ->. Qed.
Lemma occ_positive x (l : list A) : x ∈ l <-> 0 < occ x l.
Proof.
  unfold occ. split.
  - intros (l1 & l2 & ->)%list_elem_of_split. rewrite filter_app, filter_cons_True, length_app by done. simpl. lia.
  - destruct (filter _ l) as [|y l'] eqn:Hf; simpl; [lia|]. intros _.
    assert (y ∈ filter (fun y => y = x) l) as [<- ?]%list_elem_of_filter by (rewrite Hf; by left). done.
Qed.
Lemma occ_self x : occ x [x] = 1.
Proof. unfold occ. by rewrite filter_cons_True. Qed.
Lemma occ_NoDup (l : list A) : NoDup l <-> forall x, occ x l <= 1.
Proof.
  induction l as [|a l IH].
  { split; [intros _ x; rewrite occ_nil; lia|constructor]. }
  rewrite NoDup_cons, IH, occ_positive. split.
  - intros [Hn Hl] x. rewrite occ_cons. specialize (Hl x). destruct (decide (a = x)) as [->|Hne]; [rewrite occ_self; lia|].
    assert (occ x [a] = 0) as -> by (unfold occ; by rewrite filter_cons_False). lia.
  - intros Hl. split; [|intros x; specialize (Hl x); rewrite occ_cons in Hl; lia].
    specialize (Hl a). rewrite occ_cons, occ_self in Hl. lia.
Qed.
Lemma occ_ext (l1 l2 : list A) : (forall x, occ x l1 = occ x l2) -> l1 ≡ₚ l2.
Proof.
  revert l2. induction l1 as [|a l1 IH]; intros l2 Hl.
  { destruct l2 as [|b l2]; [done|]. specialize (Hl b). rewrite occ_cons, occ_self in Hl. done. }
  assert (a ∈ l2) as (l2' & Hp)%elem_of_Permutation.
  { rewrite occ_positive, <- Hl, occ_cons, occ_self. lia. }
  rewrite Hp. constructor. apply IH. intros x. specialize (Hl x).
  rewrite (occ_perm _ _ _ Hp), (occ_cons _ a l1), (occ_cons _ a l2') in Hl. lia.
Qed.
End occ.

Section occ_map.
Context {A : Type} `{EqDecision A} {V : Type} (f : string * V -> A).
Implicit Types (m : gmap string V).

Definition ents m : list A := f <$> map_to_list m.

Lemma occ_ents_new x m id e : m !! id = None -> occ x (ents (<[id := e]> m)) = occ x [f (id, e)] + occ x (ents m).
Proof.
  intros Hid. unfold ents. rewrite <- occ_cons. apply occ_perm. by rewrite map_to_list_insert.
Qed.
Lemma occ_ents_delete x m id e : m !! id = Some e -> occ x (ents (delete id m)) + occ x [f (id, e)] = occ x (ents m).
Proof.
  intros Hid. rewrite <- (insert_delete_id m id e Hid) at 2. rewrite occ_ents_new by apply lookup_delete_eq. lia.
Qed.
Lemma occ_ents_replace x m id e e' :
  m !! id = Some e -> occ x (ents (<[id := e']> m)) + occ x [f (id, e)] = occ x [f (id, e')] + occ x (ents m).
Proof.
  intros Hid. rewrite <- insert_delete_eq, occ_ents_new by apply lookup_delete_eq.
  rewrite <- (occ_ents_delete _ _ _ _ Hid). lia.
Qed.
End occ_map.

(** ** Threads *)

Section runs.
Context {Q : Type} `{MessageBatchLaws Q}.
Implicit Types (q : replaceableQueue Q) (t : thread).

(** The tokens a thread will remove, those it may still call, and the id it moves between
    the entries and the batch. *)
Definition held t : list nat :=
  match t with
  | RStart _ tok | RLoaded _ tok _ | RCounted _ tok _ => [tok]
  | RReplaced _ tok | RDropped _ tok | WCall tok | WRemove tok => [tok]
  | _ => []
  end.
Definition uncalled t : list nat :=
  match t with
  | RStart _ tok | RLoaded _ tok _ | RCounted _ tok _ | WCall tok => [tok]
  | _ => []
  end.
Definition ticket t : list string :=
  match t with RInserted id _ _ | WGot id => [id] | _ => [] end.

Definition calledIn (log : list queueEvent) : list nat :=
  omap (fun e => match e with Called tok => Some tok | _ => None end) log.
Definition removedIn (log : list queueEvent) : list nat :=
  omap (fun e => match e with Removed tok => Some tok | _ => None end) log.

Lemma thread_split (l : list thread) i t :
  l !! i = Some t -> exists rest, l ≡ₚ t :: rest /\ forall t', <[i := t']> l ≡ₚ t' :: rest.
Proof.
  intros Hi. pose proof (lookup_lt_Some _ _ _ Hi) as Hlt. exists (take i l ++ drop (S i) l). split.
  - rewrite <- (take_drop_middle _ _ _ Hi) at 1. by rewrite Permutation_middle.
  - intros t'. rewrite insert_take_drop by done. by rewrite Permutation_middle.
Qed.

Lemma occ_goes {A} `{EqDecision A} (f : thread -> list A) x l i t t' :
  l !! i = Some t -> occ x (<[i := t']> l ≫= f) + occ x (f t) = occ x (l ≫= f) + occ x (f t').
Proof.
  intros (rest & Hl & Hl')%thread_split. specialize (Hl' t').
  assert (<[i := t']> l ≫= f ≡ₚ (t' :: rest) ≫= f) as H1 by by rewrite Hl'.
  assert (l ≫= f ≡ₚ (t :: rest) ≫= f) as H2 by by rewrite Hl.
  rewrite (occ_perm _ _ _ H1), (occ_perm _ _ _ H2). simpl. rewrite !occ_app. lia.
Qed.

(** ** Every run ends *)

Definition weight t : nat :=
  match t with
  | RStart _ _ => 9 | RLoaded _ _ _ => 8 | RCounted _ _ _ => 7 | RReplaced _ _ => 1
  | RInserted _ _ _ => 6 | RFailed _ _ _ => 5 | RDropped _ _ => 1 | RDone _ => 0
  | WWait => 0 | WGot _ => 3 | WCall _ => 2 | WRemove _ => 1
  end.
Definition measure q : nat := sum_list_with weight (q_threads q) + 4 * length (mb_items (q_batch q)).

Lemma weight_goes l i t t' : l !! i = Some t ->
  sum_list_with weight (<[i := t']> l) + weight t = sum_list_with weight l + weight t'.
Proof.
  revert i. induction l as [|a l IH]; intros [|i] Hi; simpl in *; try done; [injection Hi as ->; lia|].
  specialize (IH _ Hi). lia.
Qed.

Lemma qstep_measure i q q' : qstep i q = Some q' -> measure q' < measure q.
Proof.
  unfold qstep. destruct (q_threads q !! i) as [t|] eqn:Hi; [|done]. simpl. unfold measure.
  assert (forall t' q1, q_threads q1 = q_threads q -> length (mb_items (q_batch q1)) = length (mb_items (q_batch q)) ->
    weight t' < weight t -> measure (goes i t' q1) < measure q) as Hgo.
  { intros t' q1 Ht Hb Hw. unfold measure. simpl. rewrite Ht, Hb. pose proof (weight_goes _ _ _ t' Hi). lia. }
  unfold measure in Hgo. destruct t; simpl; intros Hs; try done.
  3: destruct (q_entries q !! id).
  6: destruct (mb_TryAdd id (q_batch q)) as [b|] eqn:Hb.
  8: case_decide.
  11: destruct (mb_WaitOne (q_batch q)) as [[id b]|] eqn:Hb; [|done].
  12: destruct (q_entries q !! id).
  all: injection Hs as <-; try (apply Hgo; simpl; lia || done).
  - simpl. apply mb_TryAdd_law in Hb as [Hb _]. rewrite (Permutation_length Hb). simpl.
    pose proof (weight_goes _ _ _ (RDone id) Hi). simpl in *. lia.
  - simpl. apply mb_WaitOne_law in Hb as [Hb _]. rewrite (Permutation_length Hb). simpl.
    pose proof (weight_goes _ _ _ (WGot id) Hi). simpl in *. lia.
Qed.

Lemma qruns_measure n q q' : qruns n q q' -> n + measure q' <= measure q.
Proof.
  induction 1 as [|n q q1 q2 i _ IH Hs]; [lia|]. apply qstep_measure in Hs. lia.
Qed.

(** ** The invariant *)

Definition entryToks : gmap string entry -> list nat := ents (fun p => en_tok p.2).
Definition entryIds : gmap string entry -> list string := ents fst.

(** The id of a call of [Replace], and of one that is past its critical section. *)
Definition threadId t : option string :=
  match t with
  | RStart id _ | RLoaded id _ _ | RCounted id _ _ | RReplaced id _ | RInserted id _ _ | RFailed id _ _
  | RDropped id _ | RDone id => Some id
  | _ => None
  end.
Definition passed t : option string :=
  match t with RReplaced id _ | RInserted id _ _ | RDone id => Some id | _ => None end.

Section invariant.
Variables (requests : list (string * nat)) (maxSize : nat).

Record qinv q : Prop := mkQinv {
  qi_tokens x : occ x (q_threads q ≫= held) + occ x (entryToks (q_entries q)) + occ x (removedIn (q_log q)) =
    occ x requests.*2;
  qi_called x : occ x (calledIn (q_log q)) + occ x (q_threads q ≫= uncalled) + occ x (entryToks (q_entries q)) <=
    occ x requests.*2;
  qi_tickets id : occ id (mb_items (q_batch q)) + occ id (q_threads q ≫= ticket) = occ id (entryIds (q_entries q));
  qi_entry id e : q_entries q !! id = Some e -> (id, en_tok e) ∈ requests;
  qi_requested t : t ∈ q_threads q ->
    match t with
    | RStart id tok | RLoaded id tok _ | RCounted id tok _ => (id, tok) ∈ requests
    | RFailed _ _ _ | RDropped _ _ => False
    | _ => True
    end;
  qi_threads id : id ∈ requests.*1 -> exists t, t ∈ q_threads q /\ threadId t = Some id;
  qi_passed t id : t ∈ q_threads q -> passed t = Some id ->
    is_Some (q_entries q !! id) \/
    exists tok, (id, tok) ∈ requests /\ (tok ∈ calledIn (q_log q) \/ WCall tok ∈ q_threads q);
  qi_size : mb_size (q_batch q) = maxSize;
}.

Hypothesis Hroom : size (list_to_set requests.*1 : gset string) <= maxSize.

Lemma elem_of_goes (l : list thread) (i : nat) t t' x : l !! i = Some t -> x ∈ <[i := t']> l -> x = t' \/ x ∈ l.
Proof.
  intros _ Hx. apply list_elem_of_lookup in Hx as [j Hj]. destruct (decide (i = j)) as [->|Hne].
  - left. apply list_lookup_insert_Some in Hj. naive_solver.
  - right. rewrite list_lookup_insert_ne in Hj by done. by apply list_elem_of_lookup_2 in Hj.
Qed.

Lemma elem_of_goes_2 (l : list thread) (i : nat) t t' x : l !! i = Some t -> x ∈ l -> x = t \/ x ∈ <[i := t']> l.
Proof.
  intros (rest & Hl & Hl')%thread_split. rewrite (Hl' t'), !elem_of_cons, Hl, elem_of_cons. tauto.
Qed.
Lemma elem_of_goes_new (l : list thread) (i : nat) t t' : l !! i = Some t -> t' ∈ <[i := t']> l.
Proof. intros (rest & _ & Hl')%thread_split. rewrite (Hl' t'). by left. Qed.

(** The batch has room for a thread that has inserted its id. *)
Lemma qinv_room q i id tok c :
  qinv q -> q_threads q !! i = Some (RInserted id tok c) -> is_Some (mb_TryAdd id (q_batch q)).
Proof.
  intros [_ _ Htick Hent _ _ _ Hsz] Hi. apply mb_TryAdd_room. rewrite Hsz.
  assert (mb_items (q_batch q) ++ (q_threads q ≫= ticket) ≡ₚ entryIds (q_entries q)) as Hp.
  { apply occ_ext. intros x. rewrite occ_app. apply Htick. }
  apply Permutation_length in Hp. rewrite length_app in Hp.
  assert (0 < length (q_threads q ≫= ticket)) as Hpos.
  { destruct (q_threads q ≫= ticket) eqn:Ht; [|simpl; lia]. exfalso.
    assert (id ∈ q_threads q ≫= ticket) as Hin; [|rewrite Ht in Hin; by apply not_elem_of_nil in Hin].
    apply list_elem_of_bind. eexists. split; [|by eapply list_elem_of_lookup_2]. by left. }
  assert (length (entryIds (q_entries q)) <= maxSize); [|lia]. etrans; [|exact Hroom].
  unfold entryIds, ents. rewrite length_fmap, length_map_to_list, <- (size_dom (D:=gset string)). apply subseteq_size. intros x [e He]%elem_of_dom.
  apply elem_of_list_to_set, list_elem_of_fmap. exists (x, en_tok e). auto.
Qed.

(** A step of one thread keeps the invariant if it balances. *)
Lemma qinv_goes q q1 i t t' :
  qinv q -> q_threads q !! i = Some t -> q_threads q1 = q_threads q ->
  (forall x, occ x (held t') + occ x (entryToks (q_entries q1)) + occ x (removedIn (q_log q1)) =
             occ x (held t) + occ x (entryToks (q_entries q)) + occ x (removedIn (q_log q))) ->
  (forall x, occ x (calledIn (q_log q1)) + occ x (uncalled t') + occ x (entryToks (q_entries q1)) <=
             occ x (calledIn (q_log q)) + occ x (uncalled t) + occ x (entryToks (q_entries q))) ->
  (forall id, occ id (mb_items (q_batch q1)) + occ id (ticket t') + occ id (entryIds (q_entries q)) =
              occ id (mb_items (q_batch q)) + occ id (ticket t) + occ id (entryIds (q_entries q1))) ->
  (forall id e, q_entries q1 !! id = Some e -> (id, en_tok e) ∈ requests) ->
  match t' with
  | RStart id tok | RLoaded id tok _ | RCounted id tok _ => (id, tok) ∈ requests
  | RFailed _ _ _ | RDropped _ _ => False
  | _ => True
  end ->
  threadId t' = threadId t ->
  (forall id, is_Some (q_entries q !! id) -> is_Some (q_entries q1 !! id) \/
     exists tok, (id, tok) ∈ requests /\ t' = WCall tok) ->
  (forall id, passed t' = Some id -> passed t = Some id \/ is_Some (q_entries q1 !! id)) ->
  (forall x, x ∈ calledIn (q_log q) -> x ∈ calledIn (q_log q1)) ->
  (forall tok, t = WCall tok -> tok ∈ calledIn (q_log q1)) ->
  mb_size (q_batch q1) = mb_size (q_batch q) ->
  qinv (goes i t' q1).
Proof.
  intros [I1 I2 I3 I4 I5 I6 I7 I8] Hi Ht B1 B2 B3 He Hreq Hid Hkeep Hpass Hcalled Hcall Hsz.
  split; simpl; rewrite ?Ht; try done.
  - intros x. specialize (I1 x). specialize (B1 x). pose proof (occ_goes held x _ _ _ t' Hi). lia.
  - intros x. specialize (I2 x). specialize (B2 x). pose proof (occ_goes uncalled x _ _ _ t' Hi). lia.
  - intros x. specialize (I3 x). specialize (B3 x). pose proof (occ_goes ticket x _ _ _ t' Hi). lia.
  - intros u Hu. destruct (elem_of_goes _ _ _ _ _ Hi Hu) as [->|Hu']; [done|by apply I5].
  - intros id (u & Hu & Huid)%I6. destruct (elem_of_goes_2 _ _ _ t' _ Hi Hu) as [->|Hu']; [|by exists u].
    exists t'. split; [by eapply elem_of_goes_new|congruence].
  - assert (forall id u, u ∈ q_threads q -> passed u = Some id -> is_Some (q_entries q1 !! id) \/
      exists tok, (id, tok) ∈ requests /\ (tok ∈ calledIn (q_log q1) \/ WCall tok ∈ <[i := t']> (q_threads q))) as Hold.
    { intros id u Hu Hup. destruct (I7 u id Hu Hup) as [[e Hent]|(tok & Hr & [Hc|Hw])].
      - destruct (Hkeep id) as [?|(tok & Hr & ->)]; [by eexists|by left|]. right. exists tok. split; [done|].
        right. by eapply elem_of_goes_new.
      - right. exists tok. auto.
      - right. exists tok. split; [done|]. destruct (elem_of_goes_2 _ _ _ t' _ Hi Hw) as [Heq|]; [|by right].
        left. by apply Hcall. }
    intros u id Hu Hup. destruct (elem_of_goes _ _ _ _ _ Hi Hu) as [->|Hu']; [|by eapply Hold].
    destruct (Hpass id Hup) as [Hp|?]; [|by left]. eapply Hold; [|exact Hp]. by eapply list_elem_of_lookup_2.
  - congruence.
Qed.

Lemma qinv_start workers :
  qinv (newReplaceableQueue (Q:=Q) workers maxSize requests).
Proof.
  unfold newReplaceableQueue. destruct (mb_New_law (Q:=Q) maxSize) as [Hi Hs].
  assert (forall A (f : thread -> list A), f WWait = [] ->
    (replicate workers WWait ++ ((fun r => RStart r.1 r.2) <$> requests)) ≫= f =
    ((fun r => RStart r.1 r.2) <$> requests) ≫= f) as Hw.
  { intros A f Hf. rewrite bind_app. assert (replicate workers WWait ≫= f = []) as ->; [|done].
    induction workers as [|n IH]; [done|]. cbn. rewrite Hf. exact IH. }
  assert (forall x, occ x (((fun r => RStart r.1 r.2) <$> requests) ≫= held) = occ x requests.*2 /\
    occ x (((fun r => RStart r.1 r.2) <$> requests) ≫= uncalled) = occ x requests.*2) as Hh.
  { intros x. clear. induction requests as [|[id tok] l IH]; [done|]. destruct IH as [IH1 IH2].
    split; [etrans; [exact (occ_cons x tok _)|]|etrans; [exact (occ_cons x tok _)|]];
      (etrans; [|symmetry; exact (occ_cons x tok _)]); f_equal; [exact IH1|exact IH2]. }
  split; simpl.
  - intros x. rewrite Hw by done. destruct (Hh x) as [-> _]. unfold entryToks, ents. rewrite map_to_list_empty.
    simpl. rewrite occ_nil. lia.
  - intros x. rewrite Hw by done. destruct (Hh x) as [_ ->]. unfold entryToks, ents. rewrite map_to_list_empty. simpl. rewrite !occ_nil. lia.
  - intros id. rewrite Hi, Hw by done. unfold entryIds, ents. rewrite map_to_list_empty. simpl. rewrite !occ_nil.
    assert (((fun r : string * nat => RStart r.1 r.2) <$> requests) ≫= ticket = []) as ->; [|done].
    clear. induction requests as [|r l IH]; simpl; [done|]. exact IH.
  - intros id e. by rewrite lookup_empty.
  - intros t [->%elem_of_replicate_inv|((id & tok) & -> & Hr)%list_elem_of_fmap]%elem_of_app; done.
  - intros id ((id' & tok) & -> & Hr)%list_elem_of_fmap. exists (RStart id' tok). split; [|done].
    apply elem_of_app. right. apply list_elem_of_fmap. by exists (id', tok).
  - intros t id [->%elem_of_replicate_inv|((id' & tok) & -> & Hr)%list_elem_of_fmap]%elem_of_app; done.
  - done.
Qed.

Lemma removedIn_snoc log e :
  removedIn (log ++ [e]) = removedIn log ++ match e with Removed x => [x] | _ => [] end.
Proof. unfold removedIn. rewrite omap_app. by destruct e. Qed.
Lemma calledIn_snoc log e :
  calledIn (log ++ [e]) = calledIn log ++ match e with Called x => [x] | _ => [] end.
Proof. unfold calledIn. rewrite omap_app. by destruct e. Qed.

Ltac balance L e He :=
  intros x; pose proof (L x _ _ _ e He); rewrite ?occ_nil; simpl in *; lia.

Lemma qinv_step q q' i : qinv q -> qstep i q = Some q' -> qinv q'.
Proof.
  intros Hq. unfold qstep. destruct (q_threads q !! i) as [t|] eqn:Hi; [|done]. simpl.
  pose proof (qi_requested q Hq t (list_elem_of_lookup_2 _ _ _ Hi)) as Hreq.
  pose proof (qi_entry q Hq) as Hent.
  assert (forall id tok c id' e, (id, tok) ∈ requests ->
    <[id := mkEntry tok c]> (q_entries q) !! id' = Some e -> (id', en_tok e) ∈ requests) as Hins.
  { intros id tok c id' e Hr. rewrite lookup_insert. case_decide as Heq; [|apply Hent]. intros [= <-]. by subst. }
  destruct t; simpl; intros Hs; try done.
  3: destruct (q_entries q !! id) as [prev|] eqn:He.
  6: destruct (qinv_room q i _ _ _ Hq Hi) as [b Hb]; rewrite Hb in Hs; apply mb_TryAdd_law in Hb as [Hb Hbs].
  7: destruct (mb_WaitOne (q_batch q)) as [[id b]|] eqn:Hb; [|done]; apply mb_WaitOne_law in Hb as [Hb Hbs].
  8: destruct (q_entries q !! id) as [e|] eqn:He.
  all: injection Hs as <-.
  all: eapply qinv_goes; [exact Hq|exact Hi|..]; simpl; try done; try (by intros; left);
    try (intros x; rewrite ?removedIn_snoc, ?calledIn_snoc, ?occ_app, ?occ_nil; lia);
    try (intros x; rewrite calledIn_snoc, elem_of_app; by left).
  all: unfold entryToks, entryIds in *.
  all: try (by intros id0 e0; apply Hins).
  all: try (intros id0 [e0 He0]; left; rewrite lookup_insert; case_decide; by eexists).
  all: try (intros id0 [= <-]; right; rewrite lookup_insert_eq; by eexists).
  (* the entry is replaced, inserted, in the batch, deleted *)
  all: try (balance (occ_ents_replace (fun p => en_tok p.2)) (mkEntry tok curCnt) He).
  all: try (balance (occ_ents_replace (V:=entry) fst) (mkEntry tok curCnt) He).
  all: try (intros x; pose proof (occ_ents_new (fun p => en_tok p.2) x _ _ (mkEntry tok curCnt) He);
    rewrite ?occ_nil; simpl in *; lia).
  all: try (intros x; pose proof (occ_ents_new (V:=entry) fst x _ _ (mkEntry tok curCnt) He);
    rewrite ?occ_nil; simpl in *; lia).
  all: try (intros x; rewrite (occ_perm x _ _ Hb), occ_cons, ?occ_nil; lia).
  all: try (intros x; pose proof (occ_ents_delete (fun p => en_tok p.2) x _ _ _ He);
    rewrite ?occ_nil; simpl in *; lia).
  all: try (intros x; pose proof (occ_ents_delete (V:=entry) fst x _ _ _ He); rewrite ?occ_nil; simpl in *; lia).
  - intros x. rewrite (occ_perm x _ _ Hb), (occ_cons x id (mb_items b)), occ_nil. lia.
  - intros id0 e0 [_ Hl]%lookup_delete_Some. by apply Hent.
  - intros id0 [e0 He0]. destruct (decide (id = id0)) as [<-|Hne].
    + right. exists (en_tok e). split; [by apply Hent|done].
    + left. rewrite lookup_delete_ne by done. by eexists.
  - exfalso. pose proof (qi_tickets q Hq id) as Ht.
    assert (id ∈ entryIds (q_entries q)) as ((id' & e) & -> & Hin%elem_of_map_to_list)%list_elem_of_fmap.
    { apply occ_positive. rewrite <- Ht. assert (0 < occ id (q_threads q ≫= ticket)); [|lia]. apply occ_positive.
      apply list_elem_of_bind. eexists. split; [|by eapply list_elem_of_lookup_2]. by left. }
    simpl in He. congruence.
  - intros tok0 [= <-]. rewrite calledIn_snoc, elem_of_app. right. by left.
Qed.
End invariant.

Lemma qruns_inv requests maxSize workers n q :
  size (list_to_set requests.*1 : gset string) <= maxSize ->
  qruns n (newReplaceableQueue workers maxSize requests) q -> qinv requests maxSize q.
Proof.
  intros Hroom Hrun. remember (newReplaceableQueue _ _ _) as q0 eqn:Hq0.
  induction Hrun as [|n q0 q1 q2 i _ IH Hs]; [subst; by apply qinv_start|]. exact (qinv_step _ _ Hroom _ _ _ (IH Hq0) Hs).
Qed.

(** Workers stay workers. *)
Lemma qstep_ids i q q' : qstep i q = Some q' -> threadId <$> q_threads q' = threadId <$> q_threads q.
Proof.
  unfold qstep. destruct (q_threads q !! i) as [t|] eqn:Hi; [|done]. simpl.
  assert (forall t' q1, q_threads q1 = q_threads q -> threadId t' = threadId t ->
    threadId <$> q_threads (goes i t' q1) = threadId <$> q_threads q) as Hgo.
  { intros t' q1 Ht Hid. simpl. rewrite Ht, list_fmap_insert, Hid. apply list_insert_id.
    by rewrite list_lookup_fmap, Hi. }
  destruct t; simpl; intros Hs; try done; repeat case_match; simplify_eq; by apply Hgo.
Qed.

Lemma qruns_ids n q q' : qruns n q q' -> threadId <$> q_threads q' = threadId <$> q_threads q.
Proof. induction 1 as [|n q q1 q2 i _ IH Hs]; [done|]. by rewrite (qstep_ids _ _ _ Hs). Qed.

(** Where nothing can go on. *)
Lemma stuck_threads q t :
  (forall i, qstep i q = None) -> t ∈ q_threads q -> (exists id, t = RDone id) \/ t = WWait /\ mb_items (q_batch q) = [].
Proof.
  intros Hst [i Hi]%list_elem_of_lookup. specialize (Hst i). unfold qstep in Hst. rewrite Hi in Hst. simpl in Hst.
  destruct t; simpl in Hst; try done; try (by repeat case_match); [by left; eexists|].
  right. split; [done|]. apply mb_WaitOne_empty. by destruct (mb_WaitOne (q_batch q)) as [[? ?]|].
Qed.
End runs.

(** * The limit counts what is open and never runs out of its steps; the replaceable queue
    serves every request exactly once, in every interleaving in which its batch has room;
    without room requests are lost.  Examples at the end. *)

Local Open Scope Z_scope.

(** ** Limit *)

Section sums.
Context (P : string -> bool).

Definition sumOf (m : gmap string Z) : Z := map_fold (fun id n acc => if P id then n + acc else acc) 0 m.

Lemma sumOf_fresh id n m : m !! id = None -> sumOf (<[id := n]> m) = (if P id then n else 0) + sumOf m.
Proof.
  intros Hid. unfold sumOf. rewrite map_fold_insert_L; [by destruct (P id)| |done].
  intros j1 j2 z1 z2 y _ _ _. destruct (P j1), (P j2); lia.
Qed.

Lemma sumOf_insert id n m :
  sumOf (<[id := n]> m) = sumOf m + (if P id then n - default 0 (m !! id) else 0).
Proof.
  destruct (m !! id) as [n0|] eqn:Hid; simpl.
  - rewrite <- (insert_delete_id m id n0 Hid) at 2. rewrite <- insert_delete_eq.
    rewrite !sumOf_fresh by apply lookup_delete_eq. destruct (P id); lia.
  - rewrite sumOf_fresh by done. destruct (P id); lia.
Qed.
End sums.

Lemma StronglySorted_lookup {A} (R : A -> A -> Prop) l i j a b :
  StronglySorted R l -> (i < j)%nat -> l !! i = Some a -> l !! j = Some b -> R a b.
Proof.
  intros Hs. revert i j. induction Hs as [|x l Hs IH Hall]; intros i j Hij Ha Hb; [done|].
  destruct j as [|j]; [lia|]. destruct i as [|i]; simpl in *; [|eapply (IH i j); [lia|done..]].
  injection Ha as ->. rewrite Forall_forall in Hall. eapply Hall, list_elem_of_lookup_2. exact Hb.
Qed.

(** What a peer may hold at most. *)
Definition allowance (l : Limit) (id : string) : Z :=
  if isExcluded l id then l_excludedLimit l else default 0 (head (l_peerStep l)).

Record limit_ok (l : Limit) : Prop := mkLimitOk {
  lk_len : length (l_peerStep l) = length (l_totalStep l);
  lk_counter : (l_counter l < length (l_totalStep l))%nat;
  lk_peers i s : l_peerStep l !! i = Some s -> s <= default 0 (head (l_peerStep l));
  lk_sorted i j a b : (i <= j)%nat -> l_totalStep l !! i = Some a -> l_totalStep l !! j = Some b -> a <= b;
  lk_strict i a b : l_totalStep l !! i = Some a -> l_totalStep l !! S i = Some b ->
    (S (S i) < length (l_totalStep l))%nat -> a < b;
  lk_tokens id : 0 <= tokensOf l id <= Z.max 0 (allowance l id);
  lk_total : l_total l = sumOf (fun id => negb (isExcluded l id)) (l_tokens l);
  lk_excluded : l_excludedTotal l = sumOf (isExcluded l) (l_tokens l);
  lk_reached i s : (i < l_counter l)%nat -> l_totalStep l !! i = Some s -> s <= l_total l;
}.

Lemma tokensOf_set id n et t c l id' :
  tokensOf (set_tokens id n et t c l) id' = if decide (id = id') then n else tokensOf l id'.
Proof.
  unfold tokensOf, set_tokens. simpl. rewrite lookup_insert. by case_decide.
Qed.

(** Only the number of one peer changes, with the sums. *)
Lemma limit_ok_set id n et t c l :
  limit_ok l -> 0 <= n <= Z.max 0 (allowance l id) ->
  et = l_excludedTotal l + (if isExcluded l id then n - tokensOf l id else 0) ->
  t = l_total l + (if isExcluded l id then 0 else n - tokensOf l id) ->
  (c < length (l_totalStep l))%nat ->
  (forall i s, (i < c)%nat -> l_totalStep l !! i = Some s -> s <= t) ->
  limit_ok (set_tokens id n et t c l).
Proof.
  intros [H1 H2 H3 H4 H5 H6 H7 H8 H9] Hn -> -> Hc Hr. split; simpl; try done.
  - intros id'. rewrite tokensOf_set. unfold allowance, isExcluded in *. simpl in *.
    destruct (decide (id = id')) as [<-|]; [exact Hn|apply H6].
  - unfold isExcluded in *. simpl. rewrite sumOf_insert, H7. fold (tokensOf l id). by destruct (bool_decide _).
  - unfold isExcluded in *. simpl. rewrite sumOf_insert, H8. fold (tokensOf l id). by destruct (bool_decide _).
Qed.

Lemma NewLimit_ok ps ts ex el l : NewLimit ps ts ex el = Ok l -> NoDup ts -> limit_ok l.
Proof.
  unfold NewLimit. destruct (_ || _) eqn:Hg; [done|]. intros [= <-] Hnd.
  apply orb_false_iff in Hg as [[_ Hne%bool_decide_eq_false]%orb_false_iff Hlen].
  apply negb_false_iff, bool_decide_eq_true in Hlen.
  assert (length (ascending ts) = length ts) as Hla by (apply Permutation_length, merge_sort_Permutation).
  assert (length (descending ps) = length ps) as Hlp by (apply Permutation_length, merge_sort_Permutation).
  assert (StronglySorted Z.le (ascending ts)) as Hs by (apply StronglySorted_merge_sort; apply _).
  assert (StronglySorted notBelow (descending ps)) as Hp.
  { apply StronglySorted_merge_sort; unfold notBelow; [intros a b c ? ?; lia|intros a b; lia]. }
  assert (NoDup (ascending ts)) as Hna by (unfold ascending; by rewrite merge_sort_Permutation).
  destruct (last (ascending ts)) as [z|] eqn:Hz; cycle 1.
  { apply last_None in Hz. rewrite Hz in Hla. simpl in Hla. congruence. }
  assert (forall i j a b, (i < j)%nat -> ascending ts !! i = Some a -> ascending ts !! j = Some b -> a < b) as Hlt.
  { intros i j a b Hij Ha Hb.
    assert (a <= b) as Hab by (by eapply (StronglySorted_lookup Z.le)).
    assert (a <> b); [|lia]. intros ->. pose proof (NoDup_lookup _ _ _ _ Hna Ha Hb). lia. }
  rewrite last_lookup in Hz. simpl.
  assert (forall i a, (ascending ts ++ [z]) !! i = Some a -> exists i', (i' <= i)%nat /\ ascending ts !! i' = Some a /\
    (i' = i \/ i' = pred (length (ascending ts)) /\ i = length (ascending ts))) as Hat.
  { intros i a Ha. apply lookup_app_Some in Ha as [Ha|[Hi Ha]]; [by exists i; auto|].
    apply list_lookup_singleton_Some in Ha as [Hi0 ->]. eexists. split; [|split; [exact Hz|]]; lia. }
  split; simpl.
  - rewrite length_app, Hlp, Hla. simpl. lia.
  - rewrite length_app. simpl. lia.
  - intros i s Hi. destruct (descending ps) as [|p0 ps'] eqn:Hd; [done|]. simpl.
    apply StronglySorted_inv in Hp as [_ Hp]. rewrite Forall_forall in Hp.
    destruct i; [by injection Hi as ->|]. by apply Hp, (list_elem_of_lookup_2 _ i).
  - intros i j a b Hij Ha Hb. destruct (Hat _ _ Ha) as (i' & ? & Ha' & Hi'). destruct (Hat _ _ Hb) as (j' & ? & Hb' & Hj').
    destruct (decide (i' < j')%nat) as [Hl|Hl]; [pose proof (Hlt _ _ _ _ Hl Ha' Hb'); lia|].
    assert (i' = j') as ->; [|rewrite Ha' in Hb'; injection Hb' as ->; lia].
    apply lookup_lt_Some in Ha', Hb'. lia.
  - rewrite length_app. simpl. intros i a b Ha Hb Hi. rewrite lookup_app_l in Ha by lia. rewrite lookup_app_l in Hb by lia.
    eapply Hlt; [|done..]; lia.
  - intros id. unfold tokensOf. simpl. rewrite lookup_empty. simpl. lia.
  - done.
  - done.
  - lia.
Qed.

Lemma lookup_below {A} (l : list A) i : (i < length l)%nat -> exists x, l !! i = Some x.
Proof. intros [x Hx]%lookup_lt_is_Some_2. by exists x. Qed.

Lemma Take_ok id l : limit_ok l -> exists b, (Take id l).2 = Ok b /\ limit_ok (Take id l).1.
Proof.
  intros Hok. pose proof Hok as [Hlen Hc Hp Hs Hst Htok Ht He Hr]. specialize (Htok id) as Hid. unfold Take.
  unfold allowance in Hid. destruct (isExcluded l id) eqn:Hex.
  { destruct (Z.leb_spec (l_excludedLimit l) (tokensOf l id)); [by eexists|]. eexists. split; [done|].
    apply limit_ok_set; [done|unfold allowance; rewrite Hex; lia|rewrite Hex; lia|rewrite Hex; lia|done|done]. }
  destruct (lookup_below (l_peerStep l) (l_counter l)) as [step Hstep]; [lia|]. rewrite Hstep.
  destruct (Z.leb_spec step (tokensOf l id)); [by eexists|].
  destruct (lookup_below (l_totalStep l) (l_counter l)) as [tstep Htstep]; [lia|]. rewrite Htstep.
  eexists. split; [done|]. pose proof (Hp _ _ Hstep).
  apply limit_ok_set; try done; rewrite ?Hex; try lia; [unfold allowance; rewrite Hex; lia| |].
  - destruct (_ && _) eqn:Hup; [|done]. apply andb_true_iff in Hup as [_ Hup%Nat.ltb_lt]. lia.
  - intros i s Hi Hlook. destruct (_ && _) eqn:Hup; [|pose proof (Hr i s Hi Hlook); lia].
    apply andb_true_iff in Hup as [Hup%Z.leb_le _]. etrans; [|exact Hup].
    eapply (Hs i (l_counter l)); [lia|done..].
Qed.

Lemma Release_ok id l : limit_ok l -> (Release id l).2 = Ok tt /\ limit_ok (Release id l).1.
Proof.
  intros Hok. pose proof Hok as [Hlen Hc Hp Hs Hst Htok Ht He Hr]. specialize (Htok id) as Hid. unfold Release.
  destruct (Z.ltb_spec 0 (tokensOf l id)); [|done]. destruct (isExcluded l id) eqn:Hex.
  { split; [done|]. apply limit_ok_set; rewrite ?Hex; try done; lia. }
  destruct (lookup_below (l_totalStep l) (l_counter l)) as [tstep Htstep]; [lia|]. rewrite Htstep.
  split; [done|]. apply limit_ok_set; rewrite ?Hex; try done; try lia.
  - destruct (_ <? _); [|done]. unfold counterDown. case_bool_decide; lia.
  - intros i s Hi Hlook. destruct (Z.ltb_spec (l_total l - 1) tstep) as [Hd|Hd].
    + assert (S i < l_counter l)%nat as Hi' by (revert Hi; unfold counterDown; case_bool_decide; lia).
      destruct (lookup_below (l_totalStep l) (S i)) as [s' Hs']; [lia|].
      pose proof (Hr _ _ Hi' Hs'). pose proof (Hst i s s' Hlook Hs' ltac:(lia)). lia.
    + transitivity tstep; [|done]. eapply (Hs i (l_counter l)); [lia|done..].
Qed.

(** Any sequence of calls. *)
Inductive limit_reach (l0 : Limit) : Limit -> Prop :=
| lr_start : limit_reach l0 l0
| lr_take l id : limit_reach l0 l -> limit_reach l0 (Take id l).1
| lr_release l id : limit_reach l0 l -> limit_reach l0 (Release id l).1.

(** The limit of open requests.  After any sequence of calls on a limit with distinct
    total steps, neither call panics; no peer holds a negative number of tokens, nor more
    than the first peer step, or the limit of excluded peers; the two totals are the sums
    of the tokens of the other and of the excluded peers; and the steps of a peer are
    lowered only as far as the total has really come. *)
Theorem limit_respected ps ts ex el l0 l :
  NewLimit ps ts ex el = Ok l0 -> NoDup ts -> limit_reach l0 l ->
  (forall id, exists b, (Take id l).2 = Ok b) /\ (forall id, (Release id l).2 = Ok tt) /\
  (forall id, 0 <= tokensOf l id <= Z.max 0 (allowance l id)) /\
  l_total l = sumOf (fun id => negb (isExcluded l id)) (l_tokens l) /\
  l_excludedTotal l = sumOf (isExcluded l) (l_tokens l) /\
  (forall i s, (i < l_counter l)%nat -> l_totalStep l !! i = Some s -> s <= l_total l).
Proof.
  intros Hnew Hnd Hreach. assert (limit_ok l) as Hok.
  { induction Hreach as [|l id _ IH|l id _ IH]; [by eapply NewLimit_ok| |].
    - by destruct (Take_ok id l IH) as (b & _ & ?).
    - by destruct (Release_ok id l IH). }
  split_and!; [|intros id; by apply Release_ok|apply lk_tokens|apply lk_total|apply lk_excluded|apply lk_reached]; try done.
  intros id. destruct (Take_ok id l Hok) as (b & Hb & _). by exists b.
Qed.

(** ** The replaceable queue *)

Section queue.
Context {Q : Type} `{MessageBatchLaws Q}.
Implicit Types (q : replaceableQueue Q).

Lemma bind_nil {A B} (f : A -> list B) l : (forall x, x ∈ l -> f x = []) -> l ≫= f = [].
Proof.
  induction l as [|a l IH]; intros Hf; [done|]. cbn. rewrite (Hf a) by left. apply IH. intros x Hx. apply Hf. by right.
Qed.

(** C36: a queue with room serves everything, in every interleaving.  Take any number of
    workers and of concurrent calls of [Replace], each with its own action, on no more
    objects than the queue has places.  Every run ends, after at most nine steps per call;
    no action is ever run twice, and none is released twice; and where a run ends, no entry
    is left, every call has been released exactly once, and for every object the action of
    one of its calls has been run. *)
Theorem queue_serves_all workers maxSize requests n q :
  (0 < workers)%nat -> NoDup requests.*2 -> (size (list_to_set requests.*1 : gset string) <= maxSize)%nat ->
  qruns n (newReplaceableQueue workers maxSize requests) q ->
  (n <= 9 * length requests)%nat /\ NoDup (calledIn (q_log q)) /\ NoDup (removedIn (q_log q)) /\
  ((forall i, qstep i q = None) ->
     q_entries q = ∅ /\ removedIn (q_log q) ≡ₚ requests.*2 /\
     forall id, id ∈ requests.*1 -> exists tok, (id, tok) ∈ requests /\ tok ∈ calledIn (q_log q)).
Proof.
  intros Hw Hnd Hroom Hrun. pose proof (qruns_inv _ _ _ _ _ Hroom Hrun) as Hq.
  rewrite occ_NoDup in Hnd. split_and!.
  - apply qruns_measure in Hrun. etrans; [|etrans; [exact Hrun|]]; [lia|]. unfold measure, newReplaceableQueue. simpl.
    rewrite (proj1 (mb_New_law maxSize)), sum_list_with_app. simpl.
    assert (sum_list_with weight (replicate workers WWait) = 0)%nat as -> by (clear; induction workers; done).
    assert (sum_list_with weight ((fun r : string * nat => RStart r.1 r.2) <$> requests) = 9 * length requests)%nat as ->;
      [|lia]. clear. induction requests as [|r l IH]; [done|]. csimpl. rewrite IH. lia.
  - apply occ_NoDup. intros x. pose proof (qi_called _ _ _ Hq x). specialize (Hnd x). lia.
  - apply occ_NoDup. intros x. pose proof (qi_tokens _ _ _ Hq x). specialize (Hnd x). lia.
  - intros Hst.
    assert (exists t, t ∈ q_threads q /\ threadId t = None) as (t & Ht & Hnone).
    { apply qruns_ids in Hrun. assert (None ∈ threadId <$> q_threads q) as (t & ? & ?)%list_elem_of_fmap; [|by exists t].
      rewrite Hrun. simpl. rewrite fmap_app, elem_of_app. left. destruct workers; [lia|]. by left. }
    assert (mb_items (q_batch q) = []) as Hempty.
    { destruct (stuck_threads _ _ Hst Ht) as [[id ->]|[_ ?]]; done. }
    assert (forall A (f : thread -> list A), f WWait = [] -> (forall id, f (RDone id) = []) -> q_threads q ≫= f = []) as Hnil.
    { intros A f HfW HfD. apply bind_nil. intros u Hu. by destruct (stuck_threads _ _ Hst Hu) as [[id ->]|[-> _]]. }
    assert (q_entries q = ∅) as He.
    { apply map_empty. intros id. apply eq_None_not_Some. intros [e Hent].
      assert (0 < occ id (entryIds (q_entries q)))%nat as Hpos.
      { apply occ_positive, list_elem_of_fmap. exists (id, e). split; [done|]. by apply elem_of_map_to_list. }
      rewrite <- (qi_tickets _ _ _ Hq id), Hempty, Hnil in Hpos by done. rewrite !occ_nil in Hpos. lia. }
    split_and!; [done| |].
    + apply occ_ext. intros x. rewrite <- (qi_tokens _ _ _ Hq x), Hnil, He by done.
      unfold entryToks, ents. rewrite map_to_list_empty. change (occ x (removedIn (q_log q)) = 0 + 0 + occ x (removedIn (q_log q)))%nat. lia.
    + intros id Hid. destruct (qi_threads _ _ _ Hq id Hid) as (u & Hu & Huid).
      destruct (stuck_threads _ _ Hst Hu) as [[id' ->]|[-> _]]; [|done]. injection Huid as ->.
      destruct (qi_passed _ _ _ Hq _ id Hu eq_refl) as [[e Hent]|(tok & Hr & [Hc|Hwc])].
      * by rewrite He, lookup_empty in Hent.
      * by exists tok.
      * by destruct (stuck_threads _ _ Hst Hwc) as [[? ?]|[? _]].
Qed.
End queue.

(** * Limits and queues evaluated: the theorems at concrete values, and two runs in which the
    code does not do what it means to. *)

Local Open Scope string_scope.

(** ** Limit *)

(** The steps of the comment in [NewLimit]. *)
Definition exLimit : Limit :=
  match NewLimit [1; 3; 2] [6; 3] ["node"] 10 with Ok l => l | Err _ => mkLimit [] [] [] 0 0 0 0 ∅ end.

(** Run [Take] ([true]) and [Release] ([false]). *)
Fixpoint limitRun (ops : list (bool * string)) (l : Limit) : Limit :=
  match ops with
  | [] => l
  | (true, id) :: ops => limitRun ops (Take id l).1
  | (false, id) :: ops => limitRun ops (Release id l).1
  end.

Lemma limitRun_reach ops l0 l : limit_reach l0 l -> limit_reach l0 (limitRun ops l).
Proof. revert l. induction ops as [|[[] id] ops IH]; intros l Hl; simpl; [done|apply IH; by constructor..]. Qed.

Definition exTaken : Limit :=
  limitRun [(true, "a"); (true, "b"); (true, "node"); (true, "c"); (true, "d"); (true, "d"); (false, "b")] exLimit.

Lemma limit_respected_witness :
  tokensOf exTaken "d" = 2 /\ l_total exTaken = 4 /\ l_excludedTotal exTaken = 1 /\
  l_total exTaken = sumOf (fun id => negb (isExcluded exTaken id)) (l_tokens exTaken) /\
  forall id, 0 <= tokensOf exTaken id <= Z.max 0 (allowance exTaken id).
Proof.
  destruct (limit_respected [1; 3; 2] [6; 3] ["node"] 10 exLimit exTaken) as (_ & _ & Htok & Htot & _).
  - vm_compute. reflexivity.
  - apply (bool_decide_unpack _). vm_compute. exact I.
  - apply limitRun_reach. constructor.
  - split; [vm_compute; reflexivity|]. split; [vm_compute; reflexivity|]. split; [vm_compute; reflexivity|].
    split; [exact Htot|exact Htok].
Defined.

(** From the sixth open request on, a peer may have one.  One release takes the limit back
    to its first step although five requests are open, and then a seventh request is the
    second of its peer. *)
Definition exFull : Limit :=
  limitRun [(true, "a"); (true, "b"); (true, "c"); (true, "d"); (true, "e"); (true, "f")] exLimit.
Definition exLoose : Limit := limitRun [(false, "f"); (true, "g"); (true, "a")] exFull.

Lemma limit_steps_too_far :
  l_counter exFull = 2%nat /\ (Take "a" exFull).2 = Ok false /\
  l_total (Release "f" exFull).1 = 5 /\ l_counter (Release "f" exFull).1 = 0%nat /\
  l_total exLoose = 7 /\ tokensOf exLoose "a" = 2.
Proof. vm_compute. repeat split; reflexivity. Qed.

(** ** Queue *)

(** A batch as a list of bounded length. *)
#[local] Instance listBatch : MessageBatch (list string * nat) := {|
  mb_New := fun n => ([], n);
  mb_TryAdd := fun x q => if (length q.1 <? q.2)%nat then Some ((q.1 ++ [x])%list, q.2) else None;
  mb_WaitOne := fun q => match q.1 with [] => None | x :: l => Some (x, (l, q.2)) end;
|}.

#[local] Program Instance listBatchLaws : MessageBatchLaws (list string * nat) := {|
  mb_items := fst;
  mb_size := snd;
|}.
Next Obligation. done. Qed.
Next Obligation.
  intros x [l n] q'. simpl. destruct (_ <? _)%nat; [|done]. intros [= <-]. simpl. split; [|done].
  by rewrite Permutation_app_comm.
Qed.
Next Obligation. intros x [l n] Hl. simpl in *. apply Nat.ltb_lt in Hl. rewrite Hl. by eexists. Qed.
Next Obligation. intros x [[|y l] n] q'; simpl; [done|]. by intros [= -> <-]. Qed.
Next Obligation. by intros [[|y l] n]. Qed.

Abbreviation exQueue := (replaceableQueue (list string * nat)).

Lemma schedule_qruns l (q0 q1 q2 : exQueue) n :
  qruns n q0 q1 -> schedule l q1 = Some q2 -> qruns (length l + n) q0 q2.
Proof.
  revert q1 n. induction l as [|i l IH]; intros q1 n Hr; simpl; [by intros [= <-]|].
  destruct (qstep i q1) as [q|] eqn:Hs; [|done]. simpl. intros Hl.
  replace (S (length l + n)) with (length l + S n)%nat by lia. eapply IH; [|exact Hl]. by econstructor.
Qed.

(** A worker, two requests for one object and one for another: the second replaces the
    first. *)
Definition exRequests : list (string * nat) := [("x", 1%nat); ("x", 2%nat); ("y", 3%nat)].
Definition exServe : list nat :=
  ([1; 1; 1; 1] ++ [2; 2; 2; 2] ++ [3; 3; 3; 3] ++ [0; 0; 0; 0] ++ [0; 0; 0; 0])%list%nat.
Definition exEmptyQueue : exQueue := newReplaceableQueue 1 2 exRequests.
Definition exServedQueue : exQueue := default exEmptyQueue (schedule exServe exEmptyQueue).

Lemma exServed_stuck i : qstep i exServedQueue = None.
Proof. do 4 (destruct i as [|i]; [vm_compute; reflexivity|]). vm_compute. reflexivity. Qed.

Lemma queue_serves_all_witness :
  q_log exServedQueue = [Removed 1; Called 2; Removed 2; Called 3; Removed 3] /\
  removedIn (q_log exServedQueue) ≡ₚ exRequests.*2 /\ q_entries exServedQueue = ∅ /\
  forall id, id ∈ exRequests.*1 -> exists tok, (id, tok) ∈ exRequests /\ tok ∈ calledIn (q_log exServedQueue).
Proof.
  destruct (queue_serves_all 1 2 exRequests 20 exServedQueue) as (_ & _ & _ & Hend).
  - lia.
  - apply (bool_decide_unpack _). vm_compute. exact I.
  - vm_compute. lia.
  - apply (schedule_qruns exServe exEmptyQueue exEmptyQueue exServedQueue 0); [constructor|vm_compute; reflexivity].
  - destruct (Hend exServed_stuck) as (He & Hr & Hc).
    split; [vm_compute; reflexivity|]. split; [exact Hr|]. split; [exact He|exact Hc].
Defined.

(** The queue has one place and it is taken.  A request for [y] finds no place, and before
    it takes its entry back, a second one has replaced that entry: the first is released
    twice, the second stays in the map without a place in the batch, and is neither run
    nor released; and every later request for [y] meets the same entry. *)
Definition exRace : list (string * nat) := [("x", 1%nat); ("y", 2%nat); ("y", 3%nat); ("y", 4%nat)].
Definition exRaceRun : list nat :=
  ([1; 1; 1; 1] ++ [2; 2; 2; 2] ++ [3; 3; 3; 3] ++ [2; 2] ++ [0; 0; 0; 0] ++ [4; 4; 4; 4])%list%nat.
Definition exRaced : exQueue :=
  default (newReplaceableQueue 1 1 []) (schedule exRaceRun (newReplaceableQueue 1 1 exRace)).

Lemma queue_full_loses_request :
  q_log exRaced = [Removed 2; Removed 2; Called 1; Removed 1; Removed 3] /\
  en_tok <$> q_entries exRaced !! "y" = Some 4%nat /\ mb_items (q_batch exRaced) = [] /\
  forall i, qstep i exRaced = None.
Proof.
  do 3 (split; [vm_compute; reflexivity|]). intros i.
  do 5 (destruct i as [|i]; [vm_compute; reflexivity|]). vm_compute. reflexivity.
Qed.
