(* ===== verification/HeadStorage.v ===== *)
(** The head storage (src/commonspace/headsync/headstorage/headstorage.go) and the deletion
    state over it (src/commonspace/deletionstate/deletionstate.go), with the deleter
    (src/commonspace/deletionmanager/deleter.go).

    The collection of the database is the class [HeadsDb]: documents by id, changed one at a
    time.  A document has each field or not; the entry reads an absent one as zero.  The
    observer of the storage is the updater of the diff syncer: what it is told waits in a
    queue. *)

From Stdlib Require Import ZArith Lia String.
From stdpp Require Import base option list gmap strings.
From S2P Require Import Prelude.

Local Open Scope Z_scope.

(** ** Entries and documents *)

Definition DeletedStatusNotDeleted : Z := 0.
Definition DeletedStatusQueued : Z := 1.
Definition DeletedStatusDeleted : Z := 2.

Record HeadsEntry := mkHeadsEntry {
  he_Id : string;
  he_Heads : list string;
  he_CommonSnapshot : string;
  he_DeletedStatus : Z;
  he_IsDerived : bool;
  he_ParentId : string;
  he_LastAddSeq : Z;
}.

(** Nil fields, which an update leaves alone, are [None]. *)
Record HeadsUpdate := mkHeadsUpdate {
  hup_Id : string;
  hup_Heads : option (list string);
  hup_CommonSnapshot : option string;
  hup_DeletedStatus : option Z;
  hup_IsDerived : option bool;
  hup_ParentId : option string;
  hup_LastAddSeq : option Z;
}.

(** The fields h, s, d, r, p and q. *)
Record HeadsDoc := mkHeadsDoc {
  hdoc_h : option (list string);
  hdoc_s : option string;
  hdoc_d : option Z;
  hdoc_r : option bool;
  hdoc_p : option string;
  hdoc_q : option Z;
}.
Definition emptyDoc : HeadsDoc := mkHeadsDoc None None None None None None.

#[global] Instance HeadsEntry_eq_dec : EqDecision HeadsEntry.
Proof. solve_decision. Defined.
#[global] Instance HeadsDoc_eq_dec : EqDecision HeadsDoc.
Proof. solve_decision. Defined.

Definition entryFromVal (id : string) (doc : HeadsDoc) : HeadsEntry :=
  mkHeadsEntry id (default [] (hdoc_h doc)) (default "" (hdoc_s doc)) (default 0 (hdoc_d doc))
    (default false (hdoc_r doc)) (default "" (hdoc_p doc)) (default 0 (hdoc_q doc)).

(** [storeutil.ModifyKey]: the value and whether it is another one. *)
Definition ModifyKey {A} `{EqDecision A} (new old : option A) : option A * bool :=
  match new with
  | None => (old, false)
  | Some v => if decide (old = Some v) then (old, false) else (Some v, true)
  end.

(** The modifier of [UpdateEntry]. *)
Definition modifyHeads (u : HeadsUpdate) (doc : HeadsDoc) : HeadsDoc * bool :=
  let '(d, m1) := ModifyKey (hup_DeletedStatus u) (hdoc_d doc) in
  let '(s, m2) := ModifyKey (hup_CommonSnapshot u) (hdoc_s doc) in
  let '(h, m3) := ModifyKey (hup_Heads u) (hdoc_h doc) in
  let '(r, m4) := ModifyKey (hup_IsDerived u) (hdoc_r doc) in
  let '(p, m5) := ModifyKey (hup_ParentId u) (hdoc_p doc) in
  let '(q, m6) := ModifyKey (hup_LastAddSeq u) (hdoc_q doc) in
  (mkHeadsDoc h s d r p q, m1 || m2 || m3 || m4 || m5 || m6).

(** ** The database *)

Definition ErrDocNotFound := GoError "document not found".

Inductive SortKey := SortById | SortByLastAddSeq | SortByLastAddSeqDown | SortNot.

(** [UpsertId] makes a missing document and says what a changed document has become. *)
Class HeadsDb (D : Type) := {
  hdb_FindId : string -> D -> res HeadsDoc;
  hdb_UpsertId : string -> (HeadsDoc -> HeadsDoc * bool) -> ST D (option HeadsDoc);
  hdb_Find : (HeadsDoc -> bool) -> SortKey -> D -> res (list (string * HeadsDoc));
  hdb_DeleteId : string -> ST D unit;
}.

Class HeadsDbLaws (D : Type) `{HeadsDb D} := {
  hdb_docs : D -> gmap string HeadsDoc;
  hdb_FindId_law id db doc : hdb_FindId id db = Ok doc -> hdb_docs db !! id = Some doc;
  hdb_UpsertId_law id f db db' r : hdb_UpsertId id f db = (db', r) ->
    match r with
    | Ok (Some doc) => f (default emptyDoc (hdb_docs db !! id)) = (doc, true) /\ hdb_docs db' = <[id := doc]> (hdb_docs db)
    | Ok None => (f (default emptyDoc (hdb_docs db !! id))).2 = false /\
        (forall id', hdb_docs db' !! id' = hdb_docs db !! id' \/
           id' = id /\ hdb_docs db !! id = None /\ hdb_docs db' !! id = Some (f emptyDoc).1)
    | Err _ => hdb_docs db' = hdb_docs db
    end;
  hdb_Find_law p k db l : hdb_Find p k db = Ok l ->
    NoDup l.*1 /\ forall id doc, (id, doc) ∈ l <-> hdb_docs db !! id = Some doc /\ p doc = true;
}.

Section head_storage.
Context {D : Type} `{HeadsDb D}.

(** The storage with what its observer has been told. *)
Record headStorage := mkHeadStorage {
  hs_db : D;
  hs_updates : list HeadsEntry;
}.
Implicit Types (st : headStorage).

(** The observers are told when the update was stored; when it is part of an enclosing
    transaction they hear of it before that commits, and a commit that then fails is not
    modelled. *)
Definition UpdateEntry (u : HeadsUpdate) : ST headStorage unit := fun st =>
  let '(db, r) := hdb_UpsertId (hup_Id u) (modifyHeads u) (hs_db st) in
  match r with
  | Err e => (mkHeadStorage db (hs_updates st), Err e)
  | Ok None => (mkHeadStorage db (hs_updates st), Ok tt)
  | Ok (Some doc) => (mkHeadStorage db (hs_updates st ++ [entryFromVal (hup_Id u) doc]), Ok tt)
  end.

Definition GetEntry st (id : string) : res HeadsEntry :=
  doc ← hdb_FindId id (hs_db st); Ok (entryFromVal id doc).

Definition entriesOf (l : list (string * HeadsDoc)) : list HeadsEntry := (fun p => entryFromVal p.1 p.2) <$> l.

(** The deleted entries, or those without a status; from an add sequence on. *)
Definition iterFilter (deleted : bool) (minLastAddSeq : Z) (doc : HeadsDoc) : bool :=
  (if deleted then match hdoc_d doc with Some d => DeletedStatusQueued <=? d | None => false end
   else bool_decide (hdoc_d doc = None)) &&
  (if 0 <? minLastAddSeq then match hdoc_q doc with Some q => minLastAddSeq <? q | None => false end else true).
(** The error of an iteration that goes on is dropped. *)
Fixpoint iterLoop {S} (iter : HeadsEntry -> ST S bool) (l : list HeadsEntry) : ST S unit :=
  match l with
  | [] => mret tt
  | e :: l => fun s => match iter e s with
                       | (s, Ok true) => iterLoop iter l s
                       | (s, Ok false) => (s, Ok tt)
                       | (s, Err err) => (s, Err err)
                       end
  end.
Definition IterateEntries {S} (deleted : bool) (minLastAddSeq : Z) (iter : HeadsEntry -> ST S bool) st : ST S unit :=
  match hdb_Find (iterFilter deleted minLastAddSeq)
          (if 0 <? minLastAddSeq then SortByLastAddSeq else SortById) (hs_db st) with
  | Err e => lifts (Err e)
  | Ok l => iterLoop iter (entriesOf l)
  end.

Definition GetEntriesByParentId st (parentId : string) : res (list HeadsEntry) :=
  l ← hdb_Find (fun doc => bool_decide (hdoc_p doc = Some parentId)) SortNot (hs_db st); Ok (entriesOf l).

Definition MaxLastAddSeq st : res Z :=
  l ← hdb_Find (fun _ => true) SortByLastAddSeqDown (hs_db st);
  Ok (match l with [] => 0 | (_, doc) :: _ => default 0 (hdoc_q doc) end).

Definition DeleteEntry (id : string) : ST headStorage unit := fun st =>
  let '(db, r) := hdb_DeleteId id (hs_db st) in (mkHeadStorage db (hs_updates st), r).

(** ** The deletion state *)

Record objectDeletionState := mkObjectDeletionState {
  ds_queued : gset string;
  ds_deleted : gset string;
  ds_storage : headStorage;
  (** what the observers were told *)
  ds_told : list (list string);
}.
Implicit Types (s : objectDeletionState).

Definition NewDeletionState st : objectDeletionState := mkObjectDeletionState ∅ ∅ st [].
Definition set_queued q s := mkObjectDeletionState q (ds_deleted s) (ds_storage s) (ds_told s).
Definition set_deleted d s := mkObjectDeletionState (ds_queued s) d (ds_storage s) (ds_told s).
Definition onStorage {A} (m : ST headStorage A) : ST objectDeletionState A := fun s =>
  let '(st, r) := m (ds_storage s) in (mkObjectDeletionState (ds_queued s) (ds_deleted s) st (ds_told s), r).

Definition updateStatus (id : string) (status : Z) : ST objectDeletionState unit :=
  onStorage (UpdateEntry (mkHeadsUpdate id None None (Some status) None None None)).

(** [exists] *)
Definition isDeleted s (id : string) : bool :=
  bool_decide (id ∈ ds_deleted s) || bool_decide (id ∈ ds_queued s).
Definition FilterIds s (ids : list string) : list string := List.filter (fun id => negb (isDeleted s id)) ids.
(** The ids of a set, in the order its map is ranged over. *)
Definition idsOf `{MapRange} (m : gset string) : list string := fst <$> map_range (gset_to_gmap tt m).
Definition GetQueued `{MapRange} s : list string := idsOf (ds_queued s).

(** A status that cannot be written is logged, the id is passed over. *)
Definition enqueue (id : string) : ST objectDeletionState bool := fun s =>
  match updateStatus id DeletedStatusQueued s with
  | (s, Ok _) => (set_queued ({[id]} ∪ ds_queued s) s, Ok true)
  | (s, Err (GoPanic m)) => (s, Err (GoPanic m))
  | (s, Err _) => (s, Ok false)
  end.

Fixpoint addLoop (ids added : list string) : ST objectDeletionState (list string) :=
  match ids with
  | [] => mret added
  | id :: ids =>
      known ← reads (fun s => isDeleted s id);
      if (known : bool) then addLoop ids added
      else
        ok ← enqueue id;
        addLoop ids (if (ok : bool) then added ++ [id] else added)
  end.

(** [Add] *)
Definition deletion_Add `{MapRange} (ids : gset string) : ST objectDeletionState unit :=
  added ← addLoop (idsOf ids) [];
  assigns (fun s => mkObjectDeletionState (ds_queued s) (ds_deleted s) (ds_storage s) (ds_told s ++ [added])).

Definition deletion_Delete (id : string) : ST objectDeletionState unit :=
  assigns (fun s => set_deleted ({[id]} ∪ ds_deleted s) (set_queued (ds_queued s ∖ {[id]}) s)) ;;
  updateStatus id DeletedStatusDeleted.

(** *** [Run]: load the statuses, then queue the children of deleted parents *)

Definition loadStatus (e : HeadsEntry) : ST objectDeletionState bool :=
  (if decide (he_DeletedStatus e = DeletedStatusQueued)
   then assigns (fun s => set_queued ({[he_Id e]} ∪ ds_queued s) s)
   else if decide (he_DeletedStatus e = DeletedStatusDeleted)
   then assigns (fun s => set_deleted ({[he_Id e]} ∪ ds_deleted s) s)
   else mret tt) ;;
  mret true.

Fixpoint queueChildren (children : list HeadsEntry) : ST objectDeletionState unit :=
  match children with
  | [] => mret tt
  | child :: children =>
      (if decide (he_DeletedStatus child = DeletedStatusNotDeleted) then enqueue (he_Id child) ;; mret tt
       else mret tt) ;;
      queueChildren children
  end.

Definition deletion_Run `{MapRange} : ST objectDeletionState unit :=
  (fun s => IterateEntries true 0 loadStatus (ds_storage s) s) ;;
  deleted ← reads ds_deleted;
  st_each (fun parentId =>
    children ← reads (fun s => GetEntriesByParentId (ds_storage s) parentId);
    match children with
    | Err (GoPanic m) => lifts (Err (GoPanic m))
    | Err _ => mret tt
    | Ok children => queueChildren children
    end) (idsOf deleted).

(** ** The deleter *)

Definition ErrUnknownTree := GoError "tree does not exist".
Definition ErrAlreadyDeletedStorage := GoError "tree storage already deleted".
Definition ErrAlreadyDeletedTree := GoError "sync tree is deleted".

(** The tree manager, by the answers it gives. *)
Record TreeManager := mkTreeManager {
  tm_TreeStorage : string -> res unit;
  tm_DeleteTree : string -> res unit;
  tm_MarkTreeDeleted : string -> res unit;
}.

Definition tryMarkDeleted (tm : TreeManager) (treeId : string) : bool * res unit :=
  match tm_TreeStorage tm treeId with
  | Ok _ => (true, Ok tt)
  | Err e => if decide (e = ErrUnknownTree) then (false, tm_MarkTreeDeleted tm treeId) else (false, Err e)
  end.

(** One tree: whether it is gone. *)
Definition deleteOne (tm : TreeManager) (id : string) : bool :=
  match tryMarkDeleted tm id with
  | (false, Err _) => false
  | (false, Ok _) => true
  | (true, _) =>
      match tm_DeleteTree tm id with
      | Ok _ => true
      | Err e => bool_decide (e = ErrAlreadyDeletedStorage) || bool_decide (e = ErrAlreadyDeletedTree)
      end
  end.

(** The error of [state.Delete] is logged. *)
Definition markGone (id : string) : ST objectDeletionState unit := fun s =>
  match deletion_Delete id s with
  | (s, Err (GoPanic m)) => (s, Err (GoPanic m))
  | (s, _) => (s, Ok tt)
  end.

Definition deleteBoundChildren (tm : TreeManager) (parentId : string) : ST objectDeletionState unit :=
  children ← reads (fun s => GetEntriesByParentId (ds_storage s) parentId);
  match children with
  | Err _ => mret tt
  | Ok children =>
      st_each (fun child =>
        if DeletedStatusDeleted <=? he_DeletedStatus child then mret tt
        else if deleteOne tm (he_Id child) then markGone (he_Id child) else mret tt) children
  end.

(** [Delete], with a context that is not cancelled. *)
Definition deleter_Delete `{MapRange} (tm : TreeManager) : ST objectDeletionState unit :=
  allQueued ← reads GetQueued;
  st_each (fun id =>
    if deleteOne tm id then markGone id ;; deleteBoundChildren tm id else mret tt) allQueued.
End head_storage.

Arguments headStorage D : clear implicits.
Arguments objectDeletionState D : clear implicits.
