(* ===== verification/HeadSync.v ===== *)
(** Head sync (src/commonspace/headsync: diffmanager.go, diffsyncer.go, headupdater.go,
    remotediff.go, util.go): the diff of a space, kept beside the head storage, and the
    round in which it is compared with the diff of a peer.

    The head storage tells the updater about every change; the updater applies the changes
    to the diff one after the other, in a goroutine of its own: a step of the storage and a
    step of the updater may come in any order.  The state storage, which keeps the hash of
    the space, is a variable and the answer [setHash] it gives.  What the round asks the
    other components for is a log of events. *)

From Stdlib Require Import ZArith Lia String.
From stdpp Require Import base option list gmap strings.
From S2P Require Import Prelude Ldiff LdiffRanges LdiffExchange LdiffMain HeadDiff HeadStorage.

Local Open Scope Z_scope.

(** [concatStrings] *)
Definition concatStrings (strs : list string) : string :=
  match strs with
  | [s] => s
  | _ => foldr String.append EmptyString strs
  end.

Inductive SyncCall :=
| SyncAcl
| SyncKeyValue
| SyncAll (existingIds missingIds : list string)
| SpacePush.

Section head_sync.
Context `{SkipList} `{DiffHashes} `{MapRange} {D : Type} `{HeadsDb D}.
(** [hex.EncodeToString] of a hash *)
Variable hex_Encode : bytes -> string.
Variable setHash : string -> res unit.

(** [Hasher.HashId] *)
Definition HashId (id : string) : string := hex_Encode (blake3_Sum id).

(** The deletion state with its head storage and the updates that wait; the diff; the hash
    of the state storage. *)
Record spaceHeads := mkSpaceHeads {
  sh_deletion : objectDeletionState D;
  sh_diff : diff;
  sh_hash : string;
}.
Implicit Types (s : spaceHeads).

Abbreviation HM := (ST spaceHeads).

Definition onDeletion {A} (m : ST (objectDeletionState D) A) : HM A := fun s =>
  let '(ds, r) := m (sh_deletion s) in (mkSpaceHeads ds (sh_diff s) (sh_hash s), r).
Definition onDiff {A} (m : ST diff A) : HM A := fun s =>
  let '(d, r) := m (sh_diff s) in (mkSpaceHeads (sh_deletion s) d (sh_hash s), r).

Definition SetHash : HM unit :=
  hash ← calls (fun s => Hash (sh_diff s));
  lifts (setHash (hex_Encode hash)) ;;
  assigns (fun s => mkSpaceHeads (sh_deletion s) (sh_diff s) (hex_Encode hash)).

(** An error is logged, a panic is not caught. *)
Definition logged {A} (m : HM A) : HM unit := fun s =>
  match m s with
  | (s, Err (GoPanic msg)) => (s, Err (GoPanic msg))
  | (s, _) => (s, Ok tt)
  end.

(** ** DiffManager *)

Definition skipEntry (e : HeadsEntry) : bool :=
  match he_Heads e with
  | h :: _ => bool_decide (h = he_Id e) && (he_IsDerived e || negb (bool_decide (he_CommonSnapshot e = "")))
  | [] => false
  end.
Definition elementOf (e : HeadsEntry) : Element := mkElement (he_Id e) (HashId (concatStrings (he_Heads e))).

Definition FillDiff : HM unit :=
  els ← calls (fun s => runs (IterateEntries false 0 (fun entry =>
          (if skipEntry entry then mret tt else assigns (fun els => els ++ [elementOf entry])) ;; mret true)
        (ds_storage (sh_deletion s))) []);
  (match els with [] => mret tt | _ => onDiff (Set_ els) end) ;;
  SetHash.

Definition UpdateHeads (update : HeadsEntry) : HM unit :=
  known ← reads (fun s => isDeleted (sh_deletion s) (he_Id update));
  if decide (he_DeletedStatus update <> DeletedStatusNotDeleted) then
    logged (onDiff (RemoveId (he_Id update))) ;; logged SetHash
  else if (known : bool) then mret tt
  else if decide (he_Heads update = [he_Id update]) then mret tt
  else onDiff (Set_ [elementOf update]) ;; logged SetHash.

(** One step of the updater's goroutine: the next update, if there is one. *)
Definition processOne : HM unit :=
  st ← reads (fun s => ds_storage (sh_deletion s));
  match hs_updates st with
  | [] => mret tt
  | u :: us =>
      onDeletion (onStorage (assigns (fun st => mkHeadStorage (hs_db st) us))) ;;
      UpdateHeads u
  end.

(** ** The diff over the wire *)

Inductive DiffType := DiffType_Initial | DiffType_V1 | DiffType_V2 | DiffType_V3.
#[global] Instance DiffType_eq_dec : EqDecision DiffType.
Proof. solve_decision. Defined.

Definition ErrUnexpected := GoError "unexpected error".
Definition ErrSpaceMissing := GoError "space missing".

(** Limits and counts are 32 bits on the wire. *)
Definition wire32 (x : Z) : Z := x mod 2 ^ 32.

Record HeadSyncRequest := mkHeadSyncRequest {
  hsq_SpaceId : string;
  hsq_Ranges : list Range;
  hsq_DiffType : DiffType;
}.
Record HeadSyncResponse := mkHeadSyncResponse {
  hsp_Results : list RangeResult;
  hsp_DiffType : DiffType;
}.
Abbreviation HeadSyncClient := (HeadSyncRequest -> res HeadSyncResponse).

Definition remote_Ranges (client : HeadSyncClient) (spaceId : string) : Remote := fun ranges =>
  let pbRanges := List.map (fun rg => mkRange (r_From rg) (r_To rg) (r_Elements rg) (wire32 (r_Limit rg))) ranges in
  resp ← client (mkHeadSyncRequest spaceId pbRanges DiffType_V3);
  Ok (hsp_Results resp).

(** Whether the hash of the peer is another one; hashes are compared as bytes. *)
Definition DiffTypeCheck (client : HeadSyncClient) (spaceId : string) (d : diff) : res bool :=
  resp ← client (mkHeadSyncRequest spaceId [mkRange 0 MaxUint64 false 0] DiffType_V3);
  fail_if (negb (bool_decide (hsp_DiffType resp = DiffType_V3))) ErrUnexpected ;;
  hash ← Hash d;
  Ok (match hsp_Results resp with
      | rr :: _ => negb (bool_decide (hash = rr_Hash rr))
      | [] => true
      end).

Definition diff_HandleRangeRequest (d : diff) (req : HeadSyncRequest) : res HeadSyncResponse :=
  results ← Ranges d (hsq_Ranges req);
  Ok (mkHeadSyncResponse
    (List.map (fun rr => mkRangeResult (rr_Hash rr) (rr_Elements rr) (wire32 (rr_Count rr))) results) DiffType_V3).

Definition manager_HandleRangeRequest (d : diff) (req : HeadSyncRequest) : res HeadSyncResponse :=
  fail_if (negb (bool_decide (hsq_DiffType req = DiffType_V3))) ErrUnexpected ;;
  diff_HandleRangeRequest d req.

Definition TryDiff (fuel : nat) (ctxErr : nat -> option error) (d : diff) (client : HeadSyncClient) (spaceId : string)
    : res (list string * list string * list string) :=
  needsSync ← DiffTypeCheck client spaceId d;
  if (needsSync : bool) then Diff fuel ctxErr d (remote_Ranges client spaceId)
  else Ok ([], [], []).

(** ** The round of the diff syncer *)

(** The ids of the two objects with syncers of their own. *)
Record SyncIds := mkSyncIds { si_acl : string; si_keyValue : string }.

(** The ids for the tree syncer: those both sides may have, and those only the peer has;
    and whether the ACL and the key-value store differ. *)
Definition splitIds (ds : objectDeletionState D) (ids : SyncIds) (newIds changedIds removedIds : list string)
    : list string * list string * bool * bool :=
  let missingIds := FilterIds ds newIds in
  let existing := (FilterIds ds removedIds ++ FilterIds ds changedIds)%list in
  let special id := bool_decide (id = si_keyValue ids) || bool_decide (id = si_acl ids) in
  (List.filter (fun id => negb (special id)) existing, missingIds,
   existsb (fun id => negb (bool_decide (id = si_keyValue ids)) && bool_decide (id = si_acl ids)) existing,
   existsb (fun id => bool_decide (id = si_keyValue ids)) existing).

(** [applyDiff]: the calls it makes and the answer of the tree syncer. *)
Definition applyDiff (ds : objectDeletionState D) (ids : SyncIds) (syncAll : list string -> list string -> res unit)
    (newIds changedIds removedIds : list string) : list SyncCall * res unit :=
  let '(existingIds, missingIds, isAcl, isStorage) := splitIds ds ids newIds changedIds removedIds in
  (((if isAcl then [SyncAcl] else []) ++ (if isStorage then [SyncKeyValue] else []) ++
    [SyncAll existingIds missingIds])%list,
   syncAll existingIds missingIds).

(** [onDiffError]: a peer without the space is sent it and asked once more, as the client
    [pushed]; an error then is left to the next round. *)
Definition onDiffError (fuel : nat) (ctxErr : nat -> option error) (push : res unit) (pushed : HeadSyncClient)
    (spaceId : string) (ids : SyncIds) (syncAll : list string -> list string -> res unit) s (e : error)
    : list SyncCall * res unit :=
  if decide (e = ErrSpaceMissing) then
    match push with
    | Err e => ([SpacePush], Err e)
    | Ok _ =>
        match TryDiff fuel ctxErr (sh_diff s) pushed spaceId with
        | Err (GoPanic m) => ([SpacePush], Err (GoPanic m))
        | Err _ => ([SpacePush], Ok tt)
        | Ok (newIds, changedIds, removedIds) =>
            let '(calls, r) := applyDiff (sh_deletion s) ids syncAll newIds changedIds removedIds in
            (SpacePush :: calls, r)
        end
    end
  else ([], Err e).

(** [syncWithPeer] *)
Definition headSyncWithPeer (fuel : nat) (ctxErr : nat -> option error) (shouldSync : bool) (conn push : res unit)
    (client pushed : HeadSyncClient) (spaceId : string) (ids : SyncIds)
    (syncAll : list string -> list string -> res unit) s : list SyncCall * res unit :=
  if negb shouldSync then ([], Ok tt)
  else match conn with
  | Err e => ([], Err e)
  | Ok _ =>
      match TryDiff fuel ctxErr (sh_diff s) client spaceId with
      | Ok (newIds, changedIds, removedIds) => applyDiff (sh_deletion s) ids syncAll newIds changedIds removedIds
      | Err e => onDiffError fuel ctxErr push pushed spaceId ids syncAll s e
      end
  end.

(** ** Ids *)

(** [ExternalIds]: without the objects of the space itself. *)
Definition ExternalIds s (ids : SyncIds) (settingsId : string) (allIds : list string) : list string :=
  List.filter (fun id => negb (bool_decide (id = settingsId) || bool_decide (id = si_acl ids) ||
                               bool_decide (id = si_keyValue ids))) allIds.
End head_sync.

Arguments spaceHeads D : clear implicits.
