(* ===== verification/HeadSyncMain.v ===== *)
(** The diff of a space follows its head storage: the invariant of the updates that wait,
    in every order of storage steps and updater steps; and a round with a peer finds the objects that
    differ. *)

From Stdlib Require Import ZArith Lia String.
From stdpp Require Import base option list gmap strings.
From S2P Require Import Prelude Ldiff LdiffRanges LdiffExchange LdiffMain HeadDiff KeyValuePull HeadStorage.
From S2P Require Import HeadSync.

Local Open Scope Z_scope.

Lemma ModifyKey_spec {A} `{EqDecision A} (new old : option A) :
  (ModifyKey new old).1 = match new with Some v => Some v | None => old end /\
  ((ModifyKey new old).2 = false -> (ModifyKey new old).1 = old).
Proof. destruct new as [v|]; simpl; [|done]. by case_decide. Qed.

Section heads.
Context `{SkipListLaws} `{DiffHashes} `{MapRange} {D : Type} `{HeadsDbLaws D}.
Context (hex_Encode : bytes -> string) (setHash : string -> res unit).
#[local] Existing Instances ldiff_HeadDiff ldiff_HeadDiffLaws.
Implicit Types (s : spaceHeads D) (ds : objectDeletionState D) (st : headStorage D).

Abbreviation docsOf st := (hdb_docs (hs_db st)).

(** ** Storage steps *)

(** A document whose status is only ever set to queued or deleted, and whose root is a head
    only alone. *)
Definition doc_ok (id : string) (doc : HeadsDoc) : Prop :=
  storable id /\ hdoc_d doc <> Some DeletedStatusNotDeleted /\
  (head (default [] (hdoc_h doc)) = Some id -> default [] (hdoc_h doc) = [id]).

(** An update that keeps documents so, and sets at least one field. *)
Definition update_ok (u : HeadsUpdate) : Prop :=
  storable (hup_Id u) /\ hup_DeletedStatus u <> Some DeletedStatusNotDeleted /\
  (forall hs, hup_Heads u = Some hs -> head hs = Some (hup_Id u) -> hs = [hup_Id u]) /\
  (is_Some (hup_Heads u) \/ is_Some (hup_CommonSnapshot u) \/ is_Some (hup_DeletedStatus u) \/
   is_Some (hup_IsDerived u) \/ is_Some (hup_ParentId u) \/ is_Some (hup_LastAddSeq u)).

(** The last update of an id that waits. *)
Definition lastUpdate (us : list HeadsEntry) (id : string) : option HeadsEntry :=
  last (filter (fun u => he_Id u = id) us).

(** The documents are well-formed, and the updates that wait end with the documents. *)
Record storage_ok st : Prop := mkStorageOk {
  so_docs id doc : docsOf st !! id = Some doc -> doc_ok id doc;
  so_updates u : u ∈ hs_updates st -> storable (he_Id u);
  so_last id u : lastUpdate (hs_updates st) id = Some u ->
    exists doc, docsOf st !! id = Some doc /\ u = entryFromVal id doc;
}.

Lemma lastUpdate_snoc us u id :
  lastUpdate (us ++ [u]) id = if decide (he_Id u = id) then Some u else lastUpdate us id.
Proof.
  unfold lastUpdate. rewrite filter_app. case_decide as Hid.
  - rewrite filter_cons_True, filter_nil by done. by rewrite last_snoc.
  - rewrite filter_cons_False, filter_nil by done. by rewrite app_nil_r.
Qed.

Lemma modifyHeads_changes u : update_ok u -> (modifyHeads u emptyDoc).2 = true.
Proof.
  intros (_ & _ & _ & Hs). unfold modifyHeads, ModifyKey. simpl.
  destruct Hs as [[v ->]|[[v ->]|[[v ->]|[[v ->]|[[v ->]|[v ->]]]]]]; simpl; repeat case_match; simpl;
    rewrite ?orb_true_r; done.
Qed.

Lemma modifyHeads_ok u doc : update_ok u -> doc_ok (hup_Id u) doc -> doc_ok (hup_Id u) (modifyHeads u doc).1.
Proof.
  intros (Hst & Hd & Hh & _) (_ & Hd' & Hh'). unfold modifyHeads.
  destruct (ModifyKey_spec (hup_DeletedStatus u) (hdoc_d doc)) as [E1 _].
  destruct (ModifyKey_spec (hup_Heads u) (hdoc_h doc)) as [E3 _].
  destruct (ModifyKey (hup_DeletedStatus u) _), (ModifyKey (hup_CommonSnapshot u) _), (ModifyKey (hup_Heads u) _),
    (ModifyKey (hup_IsDerived u) _), (ModifyKey (hup_ParentId u) _), (ModifyKey (hup_LastAddSeq u) _).
  simpl in *. split_and!; [done| |]; simpl.
  - subst. by destruct (hup_DeletedStatus u).
  - subst. destruct (hup_Heads u) as [hs|] eqn:Hu; simpl; [by apply Hh|done].
Qed.

(** What a storage step may do: documents change only with a waiting update. *)
Record stores st st' : Prop := mkStores {
  sto_ok : storage_ok st -> storage_ok st';
  sto_none id : lastUpdate (hs_updates st') id = None ->
    lastUpdate (hs_updates st) id = None /\ docsOf st' !! id = docsOf st !! id;
}.

#[export] Instance stores_preorder : PreOrder stores.
Proof.
  split; [by intros st|]. intros s1 s2 s3 [O1 N1] [O2 N2]. split; [auto|].
  intros id [Hu2 Hd2]%N2. apply N1 in Hu2 as [Hu1 Hd1]. split; congruence.
Qed.

Lemma UpdateEntry_stores u : update_ok u -> frames stores (UpdateEntry (D:=D) u).
Proof.
  intros Hu st. unfold UpdateEntry. destruct (hdb_UpsertId _ _ _) as [db r] eqn:Hup.
  apply hdb_UpsertId_law in Hup. destruct r as [[doc|]|e]; simpl.
  - destruct Hup as [Hf Hdocs]. split; simpl.
    + intros [Ok1 Ok2 Ok3].
      assert (doc_ok (hup_Id u) doc) as Hdoc.
      { replace doc with (modifyHeads u (default emptyDoc (docsOf st !! hup_Id u))).1 by (by rewrite Hf).
        apply modifyHeads_ok; [done|]. destruct (docsOf st !! hup_Id u) as [d0|] eqn:Hl; [by apply Ok1|].
        split_and!; [apply Hu|done|done]. }
      split; simpl.
      * intros id d. rewrite Hdocs, lookup_insert. case_decide as Hid; [|apply Ok1]. intros [= <-]. by subst.
      * intros e [He|He%list_elem_of_singleton]%elem_of_app; [by apply Ok2|subst; apply Hu].
      * intros id e. rewrite lastUpdate_snoc. simpl. rewrite Hdocs. case_decide as Hid.
        -- intros [= <-]. subst. exists doc. by rewrite lookup_insert_eq.
        -- intros He. rewrite lookup_insert_ne by done. by apply Ok3.
    + intros id. rewrite lastUpdate_snoc. simpl. case_decide as Hid; [done|]. intros Hl. split; [done|].
      by rewrite Hdocs, lookup_insert_ne.
  - assert (hdb_docs db = docsOf st) as Hd.
    { apply map_eq. intros id. destruct Hup as [Hf Hup]. destruct (Hup id) as [?|(-> & Hn & _)]; [done|].
      rewrite Hn in Hf. simpl in Hf. by rewrite modifyHeads_changes in Hf. }
    split; simpl; [|by rewrite Hd]. intros [Ok1 Ok2 Ok3]. split; simpl; rewrite ?Hd; done.
  - split; simpl; [|by rewrite Hup]. intros [Ok1 Ok2 Ok3]. split; simpl; rewrite ?Hup; done.
Qed.

(** ** The deletion state *)

(** Ids only become deleted, and the storage takes storage steps. *)
Definition marks ds ds' : Prop :=
  stores (ds_storage ds) (ds_storage ds') /\ forall id, isDeleted ds id = true -> isDeleted ds' id = true.

#[export] Instance marks_preorder : PreOrder marks.
Proof.
  split; [by intros ds|]. intros d1 d2 d3 [S1 M1] [S2 M2]. split; [by etrans|auto].
Qed.

Lemma status_ok id status : storable id -> status <> DeletedStatusNotDeleted ->
  update_ok (mkHeadsUpdate id None None (Some status) None None None).
Proof. intros Hid Hs. split_and!; simpl; [done|congruence|done|]. do 2 right. left. by eexists. Qed.

Lemma updateStatus_marks id status :
  storable id -> status <> DeletedStatusNotDeleted -> frames marks (updateStatus (D:=D) id status).
Proof.
  intros Hid Hs ds. unfold updateStatus, onStorage. pose proof (UpdateEntry_stores _ (status_ok id status Hid Hs) (ds_storage ds)).
  by destruct (UpdateEntry _ _) as [st r].
Qed.

Lemma isDeleted_mono ds q d :
  ds_queued ds ⊆ q -> ds_deleted ds ⊆ d -> forall id, isDeleted ds id = true ->
  isDeleted (mkObjectDeletionState q d (ds_storage ds) (ds_told ds)) id = true.
Proof.
  intros Hq Hd id. unfold isDeleted. simpl. rewrite !orb_true_iff, !bool_decide_eq_true. set_solver.
Qed.

Lemma enqueue_marks id : storable id -> frames marks (enqueue (D:=D) id).
Proof.
  intros Hid ds. unfold enqueue.
  pose proof (updateStatus_marks id DeletedStatusQueued Hid ltac:(done) ds) as Hm.
  destruct (updateStatus _ _ ds) as [ds1 [u|[m|m]]]; simpl in *; [|done|done].
  etrans; [exact Hm|]. split; [done|]. apply isDeleted_mono; set_solver.
Qed.

Lemma addLoop_marks ids added : (forall id, id ∈ ids -> storable id) -> frames marks (addLoop (D:=D) ids added).
Proof.
  revert added. induction ids as [|id ids IH]; intros added Hst; simpl; frame.
  - apply IH. intros x Hx. apply Hst. by right.
  - apply enqueue_marks, Hst. by left.
  - apply IH. intros x Hx. apply Hst. by right.
Qed.

Lemma idsOf_elem (m : gset string) id : id ∈ idsOf m <-> id ∈ m.
Proof.
  unfold idsOf. rewrite map_range_perm, list_elem_of_fmap. split.
  - intros ([id' u] & -> & Hin%elem_of_map_to_list). by apply lookup_gset_to_gmap_Some in Hin as [? _].
  - intros Hin. exists (id, tt). split; [done|]. by apply elem_of_map_to_list, lookup_gset_to_gmap_Some.
Qed.

Lemma deletion_Add_marks ids : (forall id, id ∈ ids -> storable id) -> frames marks (deletion_Add (D:=D) ids).
Proof.
  intros Hst. unfold deletion_Add. frame; [|by split].
  apply addLoop_marks. intros id Hid. by apply Hst, idsOf_elem.
Qed.

Lemma deletion_Delete_marks id : storable id -> frames marks (deletion_Delete (D:=D) id).
Proof.
  intros Hst. unfold deletion_Delete. frame; [|by apply updateStatus_marks].
  split; [done|]. intros x. unfold isDeleted. simpl. rewrite !orb_true_iff, !bool_decide_eq_true.
  destruct (decide (x = id)); set_solver.
Qed.

(** ** The diff *)

Abbreviation updatesOf s := (hs_updates (ds_storage (sh_deletion s))).
Abbreviation docsIn s := (docsOf (ds_storage (sh_deletion s))).

(** The element of a document in the diff: none of a deleted one, and the hash of the heads
    of a live one.  Nothing is said of an empty root, nor of a document that is deleted only
    in memory, because its status could not be written. *)
Definition agreesAt s (id : string) : Prop :=
  match docsIn s !! id with
  | None => contents (sh_diff s) !! id = None
  | Some doc =>
      let e := entryFromVal id doc in
      if decide (he_DeletedStatus e <> DeletedStatusNotDeleted) then contents (sh_diff s) !! id = None
      else isDeleted (sh_deletion s) id = true \/ he_Heads e = [id] \/
           contents (sh_diff s) !! id = Some (HashId hex_Encode (concatStrings (he_Heads e)))
  end.

Record heads_ok s : Prop := mkHeadsOk {
  ho_storage : storage_ok (ds_storage (sh_deletion s));
  ho_diff : sl_ok (d_sl (sh_diff s));
  ho_agrees id : lastUpdate (updatesOf s) id = None -> agreesAt s id;
}.

Lemma onDeletion_ok {A} (m : ST (objectDeletionState D) A) s s' r :
  frames marks m -> onDeletion m s = (s', r) -> heads_ok s -> heads_ok s'.
Proof.
  intros Hm Hrun [Ho Hd Ha]. unfold onDeletion in Hrun. specialize (Hm (sh_deletion s)).
  destruct (m (sh_deletion s)) as [ds r0]. injection Hrun as <- <-. destruct Hm as [[So Sn] Hk]. simpl in *.
  split; simpl; [auto|done|]. intros id [Hn Hdoc]%Sn. specialize (Ha id Hn). unfold agreesAt in *. cbn [sh_deletion sh_diff]. rewrite Hdoc.
  destruct (docsIn s !! id); [|done]. cbv zeta in *. case_decide; [exact Ha|]. destruct Ha as [?|[?|?]]; auto.
Qed.

(** The hash is written beside. *)
Lemma SetHash_same s s' r : SetHash hex_Encode setHash s = (s', r) -> sh_deletion s' = sh_deletion s /\ sh_diff s' = sh_diff s.
Proof.
  unfold SetHash. intros [(e & [= <- _] & _)%(fun x => x)|(s1 & h & [= <- _] & Hr)]%st_bind_cases; [done|].
  apply st_bind_cases in Hr as [(e & [= <- _] & _)|(s2 & u & [= <- _] & Hr)]; [done|]. by injection Hr as <- _.
Qed.

Lemma logged_SetHash s s' r : logged (SetHash hex_Encode setHash) s = (s', r) ->
  sh_deletion s' = sh_deletion s /\ sh_diff s' = sh_diff s.
Proof.
  unfold logged. destruct (SetHash _ _ s) as [s1 r1] eqn:Hs. apply SetHash_same in Hs.
  destruct r1 as [u|[m|m]]; by intros [= <- _].
Qed.

(** One update: the diff changes at its id alone, and there as the update says. *)
Lemma UpdateHeads_Ok u s s' :
  sl_ok (d_sl (sh_diff s)) -> storable (he_Id u) -> UpdateHeads hex_Encode setHash u s = (s', Ok tt) ->
  sh_deletion s' = sh_deletion s /\ sl_ok (d_sl (sh_diff s')) /\
  (forall id, id <> he_Id u -> contents (sh_diff s') !! id = contents (sh_diff s) !! id) /\
  (if decide (he_DeletedStatus u <> DeletedStatusNotDeleted) then contents (sh_diff s') !! he_Id u = None
   else isDeleted (sh_deletion s) (he_Id u) = true \/ he_Heads u = [he_Id u] \/
        contents (sh_diff s') !! he_Id u = Some (HashId hex_Encode (concatStrings (he_Heads u)))).
Proof.
  intros Hok Hst. unfold UpdateHeads. erewrite st_bind_run by reflexivity. case_decide as Hdel.
  - intros (s1 & [] & Hrem & Hh)%st_bind_Ok. apply logged_SetHash in Hh as [-> ->].
    unfold logged, onDiff in Hrem. destruct (RemoveId (he_Id u) (sh_diff s)) as [d r] eqn:Hr.
    pose proof (hd_RemoveId_law (D:=diff) (he_Id u) (sh_diff s) d r Hok Hr) as Hlaw.
    destruct r as [[]|[m|m]]; simpl in Hrem; try done; injection Hrem as <-; simpl.
    + destruct Hlaw as (Hok' & _ & Hc). change (contents d = delete (he_Id u) (contents (sh_diff s))) in Hc.
      split_and!; [done|done| |].
      * intros id Hne. rewrite Hc. by rewrite lookup_delete_ne.
      * rewrite Hc. apply lookup_delete_eq.
    + destruct Hlaw as [-> Hn]. by split_and!.
  - destruct (isDeleted _ _) eqn:Hd; [intros [-> _]%ret_Ok; split_and!; auto|].
    case_decide as Hroot; [intros [-> _]%ret_Ok; split_and!; auto|].
    intros (s1 & [] & Hset & Hh)%st_bind_Ok. apply logged_SetHash in Hh as [-> ->]. unfold onDiff in Hset.
    destruct (Set_ _ (sh_diff s)) as [d r] eqn:Hs. injection Hset as <- ->. simpl.
    destruct (Set_contents [elementOf hex_Encode u] (sh_diff s) d Hok) as [Hok' Hc]; [by constructor|done|].
    change (contents d = <[he_Id u := HashId hex_Encode (concatStrings (he_Heads u))]> (contents (sh_diff s))) in Hc.
    split_and!; [done|done| |].
    + intros id Hne. rewrite Hc. by rewrite lookup_insert_ne.
    + right. right. rewrite Hc. apply lookup_insert_eq.
Qed.

Lemma lastUpdate_cons u us id :
  lastUpdate (u :: us) id = match lastUpdate us id with
                            | Some v => Some v
                            | None => if decide (he_Id u = id) then Some u else None
                            end.
Proof.
  unfold lastUpdate. rewrite filter_cons. case_decide as Hid; [|by destruct (last _)].
  rewrite last_cons. by destruct (last _).
Qed.

Lemma processOne_ok s s' : processOne hex_Encode setHash s = (s', Ok tt) -> heads_ok s -> heads_ok s'.
Proof.
  intros Hrun [[So1 So2 So3] Hd Ha]. unfold processOne in Hrun. erewrite st_bind_run in Hrun by reflexivity.
  destruct (updatesOf s) as [|u us] eqn:Hus; [apply ret_Ok in Hrun as [-> _]; split; [split|..]; rewrite ?Hus; done|].
  erewrite st_bind_run in Hrun by reflexivity. apply UpdateHeads_Ok in Hrun as (Hdel & Hok' & Hother & Hat).
  2: done. 2: apply So2; by left. simpl in Hdel, Hother, Hat.
  assert (docsIn s' = docsIn s) as Hdocs by (by rewrite Hdel).
  assert (updatesOf s' = us) as Hus' by (by rewrite Hdel).
  assert (forall id, isDeleted (sh_deletion s') id = isDeleted (sh_deletion s) id) as Hisd by (by rewrite Hdel).
  split; [split|done|].
  - rewrite Hdocs. done.
  - rewrite Hus'. intros v Hv. apply So2. by right.
  - rewrite Hus', Hdocs. intros id v Hv. apply So3. rewrite lastUpdate_cons, Hv. done.
  - rewrite Hus'. intros id Hn. unfold agreesAt. rewrite Hdocs, Hisd.
    destruct (decide (he_Id u = id)) as [<-|Hne].
    + destruct (So3 (he_Id u) u) as (doc & Hdoc & Hu); [rewrite lastUpdate_cons, Hn; by rewrite decide_True|].
      rewrite Hdoc. cbv zeta. rewrite <- Hu. exact Hat.
    + rewrite Hother by done. specialize (Ha id). unfold agreesAt in Ha. apply Ha. rewrite lastUpdate_cons, Hn.
      by rewrite decide_False.
Qed.

(** ** Filling *)

Abbreviation elOf := (elementOf hex_Encode).

Lemma fill_loop (l : list HeadsEntry) (els : list Element) :
  iterLoop (fun entry => (if skipEntry entry then mret tt else assigns (fun els => els ++ [elOf entry])) ;; mret true) l els =
  ((els ++ (elOf <$> List.filter (fun e => negb (skipEntry e)) l))%list, Ok tt).
Proof.
  revert els. induction l as [|e l IH]; intros els; cbn [iterLoop]; [by rewrite app_nil_r|].
  unfold mbind, st_bind. cbn [List.filter]. destruct (skipEntry e); simpl.
  - apply IH.
  - rewrite IH. by rewrite <- app_assoc.
Qed.

Lemma filter_bool_sublist {A} (f : A -> bool) (l : list A) : List.filter f l `sublist_of` l.
Proof.
  induction l as [|x l IH]; [constructor|]. simpl. destruct (f x); [by apply sublist_skip|by apply sublist_cons].
Qed.

Lemma find_entries st l e :
  hdb_Find (iterFilter false 0) SortById (hs_db st) = Ok l ->
  e ∈ entriesOf l <-> exists doc, docsOf st !! he_Id e = Some doc /\ hdoc_d doc = None /\ e = entryFromVal (he_Id e) doc.
Proof.
  intros [_ Hl]%hdb_Find_law. unfold entriesOf. rewrite list_elem_of_fmap. split.
  - intros ([id doc] & -> & [Hd Hf]%Hl). exists doc. split_and!; [done| |done].
    unfold iterFilter in Hf. rewrite andb_true_r in Hf. by apply bool_decide_eq_true in Hf.
  - intros (doc & Hd & Hn & He). exists (he_Id e, doc). split; [done|]. apply Hl. split; [done|].
    unfold iterFilter. rewrite andb_true_r. by apply bool_decide_eq_true.
Qed.

(** The elements a fill puts into the diff. *)
Definition filled st (els : list Element) : Prop :=
  NoDup (el_Id <$> els) /\
  forall id h, mkElement id h ∈ els <-> exists doc, docsOf st !! id = Some doc /\ hdoc_d doc = None /\
    skipEntry (entryFromVal id doc) = false /\ h = HashId hex_Encode (concatStrings (he_Heads (entryFromVal id doc))).

Lemma FillDiff_Ok s s' :
  FillDiff hex_Encode setHash s = (s', Ok tt) ->
  exists els, filled (ds_storage (sh_deletion s)) els /\ sh_deletion s' = sh_deletion s /\
    (els = [] /\ sh_diff s' = sh_diff s \/ Set_ els (sh_diff s) = (sh_diff s', Ok tt)).
Proof.
  unfold FillDiff. intros (s0 & els & [-> Hels]%calls_Ok & Hr)%st_bind_Ok.
  apply st_bind_Ok in Hr as (s1 & [] & Hset & Hh). apply SetHash_same in Hh as [-> ->]. exists els.
  unfold IterateEntries in Hels. simpl in Hels.
  destruct (hdb_Find (iterFilter false 0) SortById _) as [l|e] eqn:Hl; [|done].
  unfold runs in Hels. rewrite fill_loop in Hels. injection Hels as <-. cbn [app] in *. split.
  - split.
    + apply hdb_Find_law in Hl as [Hnd _]. rewrite <- list_fmap_compose. eapply sublist_NoDup; [exact Hnd|].
      transitivity (he_Id <$> entriesOf l); cycle 1.
      { unfold entriesOf. rewrite <- list_fmap_compose. reflexivity. }
      apply (fmap_sublist he_Id), filter_bool_sublist.
    + intros id h. rewrite list_elem_of_fmap. split.
      * intros (e & He & [Hin Hskip]%list_elem_of_In%filter_In). apply list_elem_of_In, (find_entries _ _ _ Hl) in Hin.
        destruct Hin as (doc & Hd & Hn & Heq). injection He as -> ->. exists doc. rewrite <- Heq. split_and!; [done|done| |done].
        by apply negb_true_iff.
      * intros (doc & Hd & Hn & Hskip & ->). exists (entryFromVal id doc). split; [done|].
        apply list_elem_of_In, filter_In. split; [|by rewrite Hskip]. apply list_elem_of_In, (find_entries _ _ _ Hl). by exists doc.
  - destruct (elOf <$> _) as [|e els]; [apply ret_Ok in Hset as [-> _]; by split; [|left]|].
    unfold onDiff in Hset. destruct (Set_ _ _) as [d r]. injection Hset as <- ->. split; [done|by right].
Qed.

Lemma FillDiff_heads s s' :
  storage_ok (ds_storage (sh_deletion s)) -> sl_ok (d_sl (sh_diff s)) -> contents (sh_diff s) = ∅ ->
  FillDiff hex_Encode setHash s = (s', Ok tt) -> heads_ok s'.
Proof.
  intros Hso Hok Hempty (els & [Hnd Hels] & Hdel & Hset)%FillDiff_Ok.
  assert (sl_ok (d_sl (sh_diff s')) /\ contents (sh_diff s') = toMap els) as [Hok' Hc].
  { destruct Hset as [[-> ->]|Hset]; [by rewrite Hempty|]. apply Set_contents in Hset as [? Hc]; [|done|].
    - split; [done|]. by rewrite Hc, Hempty.
    - apply Forall_forall. intros [id h] (doc & Hd & _)%Hels. by apply (so_docs _ Hso id doc). }
  split; [by rewrite Hdel|done|]. intros id _. unfold agreesAt. rewrite Hc, Hdel.
  assert (forall h, toMap els !! id = Some h <-> mkElement id h ∈ els) as Hmap by (intros; by apply toMap_Some).
  destruct (docsIn s !! id) as [doc|] eqn:Hdoc; cycle 1.
  { apply eq_None_not_Some. intros [h (doc & Hd & _)%Hmap%Hels]. congruence. }
  destruct (so_docs _ Hso _ _ Hdoc) as (_ & Hd0 & Hroot). cbv zeta. case_decide as Hst.
  - apply eq_None_not_Some. intros [h (doc' & Hd & Hn & _)%Hmap%Hels]. apply Hst. rewrite Hdoc in Hd. injection Hd as <-.
    simpl. by rewrite Hn.
  - assert (hdoc_d doc = None) as Hn.
    { simpl in Hst. destruct (hdoc_d doc) as [d|]; [|done]. simpl in Hst. by subst. }
    right. destruct (skipEntry (entryFromVal id doc)) eqn:Hskip.
    + left. unfold skipEntry in Hskip. simpl in *. apply Hroot. destruct (default [] (hdoc_h doc)) as [|h hs]; [done|].
      apply andb_true_iff in Hskip as [->%bool_decide_eq_true _]. done.
    + right. apply Hmap, Hels. by exists doc.
Qed.

(** ** Every run *)

(** A step of the storage: an update of an entry, ids to delete, an id that is deleted. *)
Inductive storageStep : spaceHeads D -> spaceHeads D -> Prop :=
| ss_update u s : update_ok u -> storageStep s (onDeletion (onStorage (UpdateEntry u)) s).1
| ss_add ids s : (forall id, id ∈ ids -> storable id) -> storageStep s (onDeletion (deletion_Add ids) s).1
| ss_delete id s : storable id -> storageStep s (onDeletion (deletion_Delete id) s).1.

(** Updates may come before the diff is filled; the updater runs after. *)
Inductive headRun : bool -> spaceHeads D -> Prop :=
| hr_init s : storage_ok (ds_storage (sh_deletion s)) -> sl_ok (d_sl (sh_diff s)) -> contents (sh_diff s) = ∅ ->
    headRun false s
| hr_store b s s' : headRun b s -> storageStep s s' -> headRun b s'
| hr_fill s s' : headRun false s -> FillDiff hex_Encode setHash s = (s', Ok tt) -> headRun true s'
| hr_process s s' : headRun true s -> processOne hex_Encode setHash s = (s', Ok tt) -> headRun true s'.

Lemma onStorage_marks {A} (m : ST (headStorage D) A) : frames stores m -> frames marks (onStorage m).
Proof. intros Hm ds. unfold onStorage. specialize (Hm (ds_storage ds)). by destruct (m (ds_storage ds)). Qed.

Lemma storageStep_runs s s' : storageStep s s' ->
  exists A (m : ST (objectDeletionState D) A) r, frames marks m /\ onDeletion m s = (s', r).
Proof.
  intros [u s0 Hu|ids s0 Hids|id s0 Hid]; eexists _, _, _; (split; [|apply surjective_pairing]).
  - by apply onStorage_marks, UpdateEntry_stores.
  - by apply deletion_Add_marks.
  - by apply deletion_Delete_marks.
Qed.

Lemma headRun_ok b s : headRun b s ->
  storage_ok (ds_storage (sh_deletion s)) /\ sl_ok (d_sl (sh_diff s)) /\
  (if b then heads_ok s else contents (sh_diff s) = ∅).
Proof.
  induction 1 as [s Hso Hsl He|b s s' _ (Hso & Hsl & IH) (A & m & r & Hm & Hrun)%storageStep_runs
    |s s' _ (Hso & Hsl & IH) Hf|s s' _ (Hso & Hsl & IH) Hp].
  - done.
  - assert (storage_ok (ds_storage (sh_deletion s')) /\ sh_diff s' = sh_diff s) as [Hso' Hd].
    { unfold onDeletion in Hrun. specialize (Hm (sh_deletion s)). destruct (m (sh_deletion s)) as [ds r0].
      injection Hrun as <- _. destruct Hm as [[So _] _]. simpl in *. auto. }
    rewrite Hd. split_and!; [done|done|]. destruct b; [|done]. by eapply onDeletion_ok.
  - pose proof (FillDiff_heads _ _ Hso Hsl IH Hf) as Hok. split_and!; [apply Hok|apply Hok|done].
  - pose proof (processOne_ok _ _ Hp IH) as Hok. split_and!; [apply Hok|apply Hok|done].
Qed.

(** C37: the diff of a space follows its head storage.  Whatever updates of entries, requests
    to delete and deletions come before and after the diff is filled, and whenever the
    updater gets to run: once no update waits, the diff has no element of an object that is
    deleted, or is not stored; and of every other object whose heads are not just its root
    it has the hash of the heads that are stored, unless the object is deleted in memory. *)
Theorem head_sync_tracks s :
  headRun true s -> updatesOf s = [] ->
  forall id, match docsIn s !! id with
             | None => contents (sh_diff s) !! id = None
             | Some doc =>
                 (is_Some (hdoc_d doc) -> contents (sh_diff s) !! id = None) /\
                 (hdoc_d doc = None -> isDeleted (sh_deletion s) id = false -> default [] (hdoc_h doc) <> [id] ->
                    contents (sh_diff s) !! id =
                      Some (HashId hex_Encode (concatStrings (default [] (hdoc_h doc)))))
             end.
Proof.
  intros Hrun Hnone id. destruct (headRun_ok _ _ Hrun) as (Hso & _ & Hok).
  pose proof (ho_agrees _ Hok id) as Ha. rewrite Hnone in Ha. specialize (Ha eq_refl). unfold agreesAt in Ha.
  destruct (docsIn s !! id) as [doc|] eqn:Hdoc; [|done]. cbv zeta in Ha. simpl in Ha.
  destruct (so_docs _ Hso _ _ Hdoc) as (_ & Hd0 & _). split.
  - intros [d Hd]. rewrite decide_True in Ha; [done|]. rewrite Hd in Hd0 |- *. simpl. congruence.
  - intros Hd Hisd Hne. rewrite decide_False in Ha; [|rewrite Hd; simpl; tauto]. destruct Ha as [?|[?|?]]; congruence.
Qed.
End heads.

(** * A round of head sync with a peer finds the objects that differ. *)

Section round.
Context `{SkipListLaws} `{DiffHashes} `{MapRange} {D : Type} `{HeadsDbLaws D}.
Context (hex_Encode : bytes -> string) (setHash : string -> res unit).
Implicit Types (s : spaceHeads D) (d : diff).

(** ** The exchange over the wire *)

Lemma remote_served d spaceId rs :
  container_ok d -> counts_fit d ->
  remote_Ranges (manager_HandleRangeRequest d) spaceId rs = Ok (getRange d <$> rs).
Proof.
  intros Hok Hlen. unfold remote_Ranges, manager_HandleRangeRequest, diff_HandleRangeRequest. simpl. f_equal.
  induction rs as [|r rs IH]; [done|]. simpl. f_equal; [|exact IH].
  pose proof (getRange_count d r Hok Hlen) as Hc.
  change (getRange d (mkRange (r_From r) (r_To r) (r_Elements r) (wire32 (r_Limit r)))) with (getRange d r).
  destruct (getRange d r) as [h els n]. simpl in *. unfold wire32. by rewrite Z.mod_small by lia.
Qed.

Lemma Diff_remote fuel ctx d (dl dl' : Remote) :
  (forall rs, dl rs = dl' rs) -> Diff fuel ctx d dl = Diff fuel ctx d dl'.
Proof.
  intros Heq. unfold Diff. assert (forall rs c, diffLoop fuel ctx d dl compareElementsEqual rs c =
    diffLoop fuel ctx d dl' compareElementsEqual rs c) as ->; [|done].
  induction fuel as [|fuel IH]; intros [|r rs] c; simpl; try done. destruct (ctx fuel); [done|]. rewrite Heq.
  destruct (dl' (r :: rs)); [|done]. simpl. destruct (fail_if _ _); [|done]. apply IH.
Qed.

Lemma contents_covered d id : container_ok d -> is_Some (contents d !! id) -> covers wholeRange id.
Proof.
  intros Hok [h Hh]. unfold contents, Elements in Hh.
  apply toMap_Some in Hh; [|rewrite fmap_ids; by apply sl_ok_ids, Hok].
  apply list_elem_of_fmap in Hh as (e & He & Hin). destruct (co_sl _ Hok) as [_ Hk].
  rewrite Forall_forall in Hk. destruct (Hk e Hin) as (Hx & _ & Hb). rewrite Hx, <- He in Hb. exact Hb.
Qed.

(** Containers with the same hash are the same. *)
Lemma same_hash_contents d1 d2 h :
  container_ok d1 -> container_ok d2 -> no_collision d1 d2 -> Hash d1 = Ok h -> Hash d2 = Ok h ->
  contents d1 = contents d2.
Proof.
  intros Hok1 Hok2 Hcol H1' H2'. destruct (co_top _ Hok1) as [r1 Hr1]. destruct (co_top _ Hok2) as [r2 Hr2].
  unfold Hash in H1', H2'. rewrite Hr1 in H1'. rewrite Hr2 in H2'. injection H1' as H1'. injection H2' as H2'.
  pose proof (Hcol _ _ Hr1) as Hc. simpl in Hc. change (0, MaxUint64) with topTuple in Hc. rewrite Hr2 in Hc.
  specialize (Hc ltac:(congruence)).
  assert (within (contents d1) wholeRange = within (contents d2) wholeRange) as Hw.
  { rewrite <- !rangeElements_within by (apply Hok1 || apply Hok2). by f_equal. }
  apply map_eq. intros id.
  destruct (contents d1 !! id) as [h1|] eqn:E1; destruct (contents d2 !! id) as [h2|] eqn:E2; [| | |done].
  all: assert (covers wholeRange id) as Hcov
    by (first [by apply (contents_covered d1); [|eexists]|by apply (contents_covered d2); [|eexists]]).
  all: rewrite <- (within_lookup (contents d1) _ _ Hcov) in E1; rewrite <- (within_lookup (contents d2) _ _ Hcov) in E2;
    congruence.
Qed.

Section pair.
Variables (d1 d2 : diff) (spaceId : string).
Hypothesis Hok1 : container_ok d1.
Hypothesis Hok2 : container_ok d2.
Hypothesis Hcol : no_collision d1 d2.
Hypothesis Hfactor : d_divideFactor d2 = d_divideFactor d1.
Hypothesis Hthreshold : d_compareThreshold d2 = d_compareThreshold d1.
Hypothesis Hlen : counts_fit d2.

Lemma TryDiff_finds :
  exists news changed removed,
    TryDiff 66 (fun _ => None) d1 (manager_HandleRangeRequest d2) spaceId = Ok (news, changed, removed) /\
    (forall id, id ∈ news <-> only_in (contents d2) (contents d1) id) /\
    (forall id, id ∈ changed <-> changed_in (contents d1) (contents d2) id) /\
    (forall id, id ∈ removed -> only_in (contents d1) (contents d2) id).
Proof.
  destruct (co_top _ Hok1) as [r1 Hr1]. destruct (co_top _ Hok2) as [r2 Hr2].
  unfold TryDiff, DiffTypeCheck.
  change (manager_HandleRangeRequest d2 (mkHeadSyncRequest spaceId [mkRange 0 MaxUint64 false 0] DiffType_V3))
    with (Ok (mkHeadSyncResponse (List.map (fun rr => mkRangeResult (rr_Hash rr) (rr_Elements rr) (wire32 (rr_Count rr)))
      [getRange d2 wholeRange]) DiffType_V3)). cbn [mbind res_bind hsp_DiffType hsp_Results List.map rr_Hash].
  rewrite bool_decide_true by done. cbn [negb fail_if].
  assert (Hash d1 = Ok (hr_hash r1)) as Hh1 by (unfold Hash; by rewrite Hr1). rewrite Hh1. cbn [mbind res_bind].
  assert (rr_Hash (getRange d2 wholeRange) = hr_hash r2) as ->.
  { unfold getRange. simpl. change (0, MaxUint64) with topTuple. by rewrite Hr2. }
  destruct (decide (hr_hash r1 = hr_hash r2)) as [Heq|Hne].
  - rewrite bool_decide_true by done. exists [], [], []. split; [done|].
    assert (contents d1 = contents d2) as Hc.
    { eapply same_hash_contents; [done..|]. unfold Hash. rewrite Hr2. simpl. by rewrite Heq. }
    rewrite Hc. split_and!; intros id; rewrite elem_of_nil; [| |done]; (split; [done|]).
    + intros [[h Hh] Hn]. congruence.
    + intros (h & h' & Hh & Hh' & Hn). congruence.
  - rewrite bool_decide_false by done. cbn [negb].
    rewrite (Diff_remote _ _ _ _ (Ranges d2)) by (intros rs; by apply remote_served).
    exact (Diff_ok d1 (getRange d2) (contents d1) (contents d2) (exchange_containers d1 d2 Hok1 Hok2 Hcol Hfactor Hthreshold)).
Qed.
End pair.

(** ** The round *)

(** An object that is stored with more than its root, and not deleted. *)
Definition live s (id : string) (heads : list string) : Prop :=
  exists doc, hdb_docs (hs_db (ds_storage (sh_deletion s))) !! id = Some doc /\ hdoc_d doc = None /\
    default [] (hdoc_h doc) = heads /\ heads <> [id] /\ isDeleted (sh_deletion s) id = false.

(** A space whose updates have all been applied. *)
Definition drained s : Prop :=
  headRun hex_Encode setHash true s /\ hs_updates (ds_storage (sh_deletion s)) = [].

Lemma live_contents s id heads : drained s -> live s id heads ->
  contents (sh_diff s) !! id = Some (HashId hex_Encode (concatStrings heads)).
Proof.
  intros [Hrun Hnone] (doc & Hdoc & Hd & Hh & Hne & Hdel). subst heads.
  destruct (headRun_ok _ _ _ _ Hrun) as (Hso & _ & Hok). pose proof (ho_agrees _ _ Hok id) as Ha. rewrite Hnone in Ha.
  specialize (Ha eq_refl). unfold agreesAt in Ha. rewrite Hdoc in Ha. cbv zeta in Ha. simpl in Ha.
  rewrite decide_False in Ha by (rewrite Hd; simpl; tauto). destruct Ha as [?|[?|?]]; congruence.
Qed.

Lemma unstored_contents s id : drained s -> hdb_docs (hs_db (ds_storage (sh_deletion s))) !! id = None ->
  contents (sh_diff s) !! id = None.
Proof.
  intros [Hrun Hnone] Hdoc. destruct (headRun_ok _ _ _ _ Hrun) as (_ & _ & Hok).
  pose proof (ho_agrees _ _ Hok id) as Ha. rewrite Hnone in Ha. specialize (Ha eq_refl). unfold agreesAt in Ha.
  by rewrite Hdoc in Ha.
Qed.

Lemma FilterIds_elem (ds : objectDeletionState D) l id : id ∈ FilterIds ds l <-> id ∈ l /\ isDeleted ds id = false.
Proof. unfold FilterIds. rewrite !list_elem_of_In, filter_In. by rewrite negb_true_iff. Qed.

(** C18: a round of head sync finds what differs.  Let all updates of two spaces have been
    applied, and let their diffs have the same parameters, no hash collisions, counts of
    less than 32 bits, and trees of ranges that are up to date: a range that holds elements
    has a hash and counts them all, and a range that counts more than the threshold is cut.
    (Setting heads keeps a tree so, of objects that are new and of objects that are there,
    by [grown_container]; a removal can leave stale ranges behind, by
    [ldiff_stale_range_hides_change], and a diff with such ranges is not covered.)
    The round of the one with the other as its peer succeeds as far as the tree syncer does;
    that syncer is asked for every object that is live at the peer and neither stored nor
    deleted here, as missing, and for every object that is live at both and has heads with
    another hash, as existing, except the ACL and the key-value store, which are synced by
    their own syncers; and it is never asked for an object that is deleted here. *)
Theorem head_sync_finds s1 s2 spaceId ids push pushed syncAll :
  drained s1 -> drained s2 -> container_ok (sh_diff s1) -> container_ok (sh_diff s2) ->
  no_collision (sh_diff s1) (sh_diff s2) ->
  d_divideFactor (sh_diff s2) = d_divideFactor (sh_diff s1) ->
  d_compareThreshold (sh_diff s2) = d_compareThreshold (sh_diff s1) ->
  counts_fit (sh_diff s2) ->
  exists calls existing missing,
    headSyncWithPeer 66 (fun _ => None) true (Ok tt) push (manager_HandleRangeRequest (sh_diff s2)) pushed spaceId ids
      syncAll s1 = ((calls ++ [SyncAll existing missing])%list, syncAll existing missing) /\
    (forall id heads, live s2 id heads -> hdb_docs (hs_db (ds_storage (sh_deletion s1))) !! id = None ->
       isDeleted (sh_deletion s1) id = false -> id ∈ missing) /\
    (forall id heads heads', live s1 id heads -> live s2 id heads' ->
       HashId hex_Encode (concatStrings heads) <> HashId hex_Encode (concatStrings heads') ->
       if decide (id = si_keyValue ids) then SyncKeyValue ∈ calls
       else if decide (id = si_acl ids) then SyncAcl ∈ calls
       else id ∈ existing) /\
    (forall id, id ∈ existing \/ id ∈ missing -> isDeleted (sh_deletion s1) id = false).
Proof.
  intros Hd1 Hd2 Hok1 Hok2 Hcol Hf Ht Hlen.
  destruct (TryDiff_finds _ _ spaceId Hok1 Hok2 Hcol Hf Ht Hlen) as (news & changed & removed & Htry & Hn & Hc & Hr).
  unfold headSyncWithPeer. cbn [negb]. rewrite Htry. unfold applyDiff.
  destruct (splitIds _ _ _ _ _) as [[[existing missing] isAcl] isStorage] eqn:Hsplit.
  eexists (_ ++ _)%list, existing, missing. rewrite <- app_assoc. split; [reflexivity|].
  unfold splitIds in Hsplit. injection Hsplit as <- <- <- <-. split_and!.
  - intros id heads Hl Hdoc Hdel. apply FilterIds_elem. split; [|done]. apply Hn. split.
    + rewrite (live_contents _ _ _ Hd2 Hl). by eexists.
    + by apply unstored_contents.
  - intros id heads heads' Hl1 Hl2 Hne.
    assert (id ∈ (FilterIds (sh_deletion s1) removed ++ FilterIds (sh_deletion s1) changed)%list) as Hin.
    { apply elem_of_app. right. apply FilterIds_elem. split; [|by destruct Hl1 as (? & ? & ? & ? & ? & ?)].
      apply Hc. eexists _, _. split_and!; [by apply live_contents|by apply live_contents|done]. }
    set (l := (_ ++ _)%list) in *. rewrite list_elem_of_In in Hin. case_decide as Hkv.
    + apply elem_of_app. right. assert (existsb (fun id => bool_decide (id = si_keyValue ids)) l = true) as ->; [|by left].
      apply existsb_exists. exists id. split; [done|]. by apply bool_decide_eq_true.
    + case_decide as Hacl.
      * apply elem_of_app. left.
        assert (existsb (fun id => negb (bool_decide (id = si_keyValue ids)) && bool_decide (id = si_acl ids)) l = true)
          as ->; [|by left].
        apply existsb_exists. exists id. split; [done|]. by rewrite bool_decide_false, bool_decide_true.
      * apply list_elem_of_In, filter_In. split; [done|]. by rewrite !bool_decide_false.
  - intros id [Hin|Hin]; [|by apply FilterIds_elem in Hin as [_ ?]].
    apply list_elem_of_In, filter_In in Hin as [Hin _]. rewrite <- list_elem_of_In, elem_of_app, !FilterIds_elem in Hin.
    by destruct Hin as [[_ ?]|[_ ?]].
Qed.
End round.
