(* ===== verification/HeadSyncExample.v ===== *)
(** Two spaces evaluated: one hears of objects and of deletions, and finds in a round of
    head sync what the other has. *)

From Stdlib Require Import ZArith Lia String.
From stdpp Require Import base option list gmap strings.
From S2P Require Import Prelude Ldiff LdiffRanges LdiffExchange LdiffMain HeadDiff HeadStorage HeadSync HeadSyncMain.


Local Open Scope Z_scope.
Local Open Scope string_scope.

(** ** A database *)

#[local] Instance mapDb : HeadsDb (gmap string HeadsDoc) := {|
  hdb_FindId := fun id m => opt_or (m !! id) ErrDocNotFound;
  hdb_UpsertId := fun id f m =>
    let '(doc, modified) := f (default emptyDoc (m !! id)) in
    if modified then (<[id := doc]> m, Ok (Some doc)) else (m, Ok None);
  hdb_Find := fun p _ m => Ok (List.filter (fun x => p x.2) (map_to_list m));
  hdb_DeleteId := fun id m => (delete id m, Ok tt);
|}.

#[local] Program Instance mapDbLaws : HeadsDbLaws (gmap string HeadsDoc) := {| hdb_docs := fun m => m |}.
Next Obligation. intros id db doc Hf. by apply opt_or_Ok in Hf. Qed.
Next Obligation.
  intros id f db db' r. simpl. destruct (f _) as [doc [|]] eqn:Hf; intros [= <- <-].
  - done.
  - split; [done|]. intros id'. by left.
Qed.
Next Obligation.
  intros p k db l [= <-]. split.
  - eapply sublist_NoDup; [exact (NoDup_fst_map_to_list db)|]. apply fmap_sublist, filter_bool_sublist.
  - intros id doc. rewrite list_elem_of_In, filter_In, <- list_elem_of_In, elem_of_map_to_list. done.
Qed.

(** ** Runs *)

Abbreviation exSpace := (spaceHeads (gmap string HeadsDoc)).
Definition hexId (b : bytes) : string := b.
Definition hashKept (_ : string) : res unit := Ok tt.

Inductive headOp := OpUpdate (id : string) (heads : list string) | OpAdd (ids : gset string) | OpProcess.
Definition headsUpdate (id : string) (heads : list string) : HeadsUpdate :=
  mkHeadsUpdate id (Some heads) None None None None None.

Definition runOp (op : headOp) (s : exSpace) : exSpace :=
  match op with
  | OpUpdate id heads => (onDeletion (onStorage (UpdateEntry (headsUpdate id heads))) s).1
  | OpAdd ids => (onDeletion (deletion_Add ids) s).1
  | OpProcess => (processOne hexId hashKept s).1
  end.
Definition op_ok (op : headOp) : Prop :=
  match op with
  | OpUpdate id heads => storable id /\ head heads <> Some id
  | OpAdd ids => Forall storable (elements ids)
  | OpProcess => True
  end.

(** Every step of the updater on the way returns. *)
Fixpoint processes (ops : list headOp) (s : exSpace) : bool :=
  match ops with
  | [] => true
  | op :: ops =>
      match op with
      | OpProcess => bool_decide ((processOne hexId hashKept s).2 = Ok tt)
      | _ => true
      end && processes ops (runOp op s)
  end.

Lemma runOps_headRun ops s :
  Forall op_ok ops -> processes ops s = true -> headRun hexId hashKept true s ->
  headRun hexId hashKept true (foldl (fun s op => runOp op s) s ops).
Proof.
  intros Hok. revert s. induction Hok as [|op ops Hop _ IH]; intros s Hp Hs; [done|]. simpl in *.
  apply andb_true_iff in Hp as [Hp1 Hp2]. apply IH; [done|]. destruct op as [id heads|ids|]; simpl in *.
  - eapply hr_store; [exact Hs|]. constructor. destruct Hop as [Hid Hh]. split_and!; [done|done| |left; by eexists].
    intros hs [= <-] Hhd. done.
  - eapply hr_store; [exact Hs|]. constructor. intros id Hid. rewrite Forall_forall in Hop. apply Hop.
    by apply elem_of_elements.
  - apply bool_decide_eq_true in Hp1. eapply hr_process; [exact Hs|]. rewrite <- Hp1. apply surjective_pairing.
Qed.

Definition exNewSpace : exSpace :=
  mkSpaceHeads (NewDeletionState (mkHeadStorage ∅ [])) emptyDiff "".
Definition exFilled : exSpace := (FillDiff hexId hashKept exNewSpace).1.

Lemma exFilled_run : headRun hexId hashKept true exFilled.
Proof.
  apply (hr_fill hexId hashKept exNewSpace exFilled); [|vm_compute; reflexivity]. apply hr_init.
  - split; [intros id doc Hd; exfalso; exact (lookup_empty_Some id doc Hd)|by intros u ?%not_elem_of_nil|done].
  - exact emptyDiff_ok.
  - vm_compute. reflexivity.
Qed.

(** Ours has [b], and heard of [a] before it was deleted; theirs has [a], [b] and [e], and
    heard of [b] twice. *)
Definition exOurOps : list headOp :=
  [OpUpdate "a" ["a1"]; OpUpdate "b" ["b1"]; OpProcess; OpAdd {["a"]}; OpProcess; OpProcess].
Definition exTheirOps : list headOp :=
  [OpUpdate "a" ["a1"]; OpProcess; OpUpdate "b" ["b1"]; OpProcess; OpUpdate "b" ["b2"]; OpUpdate "e" ["e1"];
   OpProcess; OpProcess].
Definition exOurSpace : exSpace := foldl (fun s op => runOp op s) exFilled exOurOps.
Definition exTheirSpace : exSpace := foldl (fun s op => runOp op s) exFilled exTheirOps.

#[local] Existing Instances no_collision_dec key_ok_dec.
Ltac ops_ok := repeat constructor; try (vm_compute; congruence).

Lemma exOurs_run : headRun hexId hashKept true exOurSpace.
Proof. apply runOps_headRun; [ops_ok|vm_compute; reflexivity|exact exFilled_run]. Qed.
Lemma exTheirs_run : headRun hexId hashKept true exTheirSpace.
Proof. apply runOps_headRun; [ops_ok|vm_compute; reflexivity|exact exFilled_run]. Qed.

Lemma head_sync_tracks_witness :
  contents (sh_diff exOurSpace) !! "a" = None /\ contents (sh_diff exOurSpace) !! "b" = Some (HashId hexId "b1").
Proof.
  pose proof (head_sync_tracks hexId hashKept exOurSpace exOurs_run ltac:(vm_compute; reflexivity)) as Ht.
  split.
  - assert (hdb_docs (hs_db (ds_storage (sh_deletion exOurSpace))) !! "a" =
      Some (mkHeadsDoc (Some ["a1"]) None (Some 1) None None None)) as Hd by (vm_compute; reflexivity).
    specialize (Ht "a"). rewrite Hd in Ht. apply Ht. simpl. eexists. reflexivity.
  - assert (hdb_docs (hs_db (ds_storage (sh_deletion exOurSpace))) !! "b" =
      Some (mkHeadsDoc (Some ["b1"]) None None None None None)) as Hd by (vm_compute; reflexivity).
    specialize (Ht "b"). rewrite Hd in Ht. apply Ht; [reflexivity|vm_compute; reflexivity|discriminate].
Defined.

Lemma head_sync_finds_witness :
  exists calls existing missing,
    headSyncWithPeer 66 (fun _ => None) true (Ok tt) (Ok tt) (manager_HandleRangeRequest (sh_diff exTheirSpace))
      (manager_HandleRangeRequest (sh_diff exTheirSpace)) "space" (mkSyncIds "acl" "kv") (fun _ _ => Ok tt) exOurSpace =
      ((calls ++ [SyncAll existing missing])%list, Ok tt) /\
    "e" ∈ missing /\ "b" ∈ existing /\ ~ "a" ∈ missing.
Proof.
  destruct (head_sync_finds hexId hashKept exOurSpace exTheirSpace "space" (mkSyncIds "acl" "kv") (Ok tt)
    (manager_HandleRangeRequest (sh_diff exTheirSpace)) (fun _ _ => Ok tt))
    as (calls & existing & missing & Hrun & Hmiss & Hex & Hdel).
  - split; [exact exOurs_run|vm_compute; reflexivity].
  - split; [exact exTheirs_run|vm_compute; reflexivity].
  - container_solve.
  - container_solve.
  - apply (bool_decide_unpack _). vm_compute. exact I.
  - vm_compute. reflexivity.
  - vm_compute. reflexivity.
  - counts_solve.
  - exists calls, existing, missing. split; [exact Hrun|].
    assert (live exTheirSpace "e" ["e1"]) as Hle by (eexists; vm_compute; repeat split; congruence).
    assert (live exTheirSpace "b" ["b2"]) as Hlb by (eexists; vm_compute; repeat split; congruence).
    assert (live exOurSpace "b" ["b1"]) as Hlo by (eexists; vm_compute; repeat split; congruence).
    split; [apply (Hmiss "e" ["e1"] Hle); vm_compute; reflexivity|].
    split; [apply (Hex "b" ["b1"] ["b2"] Hlo Hlb); vm_compute; discriminate|].
    intros Ha. specialize (Hdel "a" (or_intror Ha)). revert Hdel. vm_compute. discriminate.
Defined.
