(* ===== verification/Topics.v ===== *)
(** Topics, patterns and the trie of patterns (src/commonspace/pubsub: topic.go, trie.go).

    A topic is a path of segments; a pattern may have wildcards: one segment, or the whole
    tail.  The trie counts the subscribers of every pattern.  What it promises is the map
    from patterns to counts, [counted]: adding and removing change one count, matching lists
    the patterns that match by the plain definition [covers]. *)

From Stdlib Require Import ZArith Lia String Ascii.
From stdpp Require Import base option list gmap strings.
From S2P Require Import Prelude.

Local Open Scope string_scope.
Local Open Scope list_scope.

(** ** Topics *)

Definition maxTopicLen : nat := 256.
Definition maxSegments : nat := 16.
Definition wildcardOne : string := "*".
Definition wildcardTail : string := ">".
Definition accNamespace : string := "acc".

Definition ErrInvalidTopic := GoError "invalid topic".

(** [strings.IndexByte] *)
Fixpoint IndexByte (s : string) (c : ascii) : option nat :=
  match s with
  | EmptyString => None
  | String x s => if decide (x = c) then Some 0 else S <$> IndexByte s c
  end.
(** [strings.ContainsAny] *)
Fixpoint ContainsAny (s chars : string) : bool :=
  match s with
  | EmptyString => false
  | String x s => bool_decide (is_Some (IndexByte chars x)) || ContainsAny s chars
  end.

(** Cut off one segment after the other; what is left after [n] is one more. *)
Fixpoint splitLoop (n : nat) (rest : string) : list string :=
  match n with
  | O => [rest]
  | S n =>
      match IndexByte rest "/" with
      | None => [rest]
      | Some idx => substring 0 idx rest :: splitLoop n (substring (S idx) (String.length rest - S idx) rest)
      end
  end.
Definition splitTopic (topic : string) : list string := splitLoop maxSegments topic.

Definition validateSegments (topic : string) (segs : list string) : res unit :=
  fail_if (bool_decide (String.length topic = 0) || (maxTopicLen <? String.length topic)%nat) ErrInvalidTopic ;;
  fail_if (maxSegments <? length segs)%nat ErrInvalidTopic ;;
  res_each (fun s => fail_if (bool_decide (s = "")) ErrInvalidTopic) segs.

Definition ValidateTopic (topic : string) : res unit :=
  let segs := splitTopic topic in
  validateSegments topic segs ;;
  res_each (fun s => fail_if (ContainsAny s "*>") ErrInvalidTopic) segs.

Definition ValidatePattern (pattern : string) : res unit :=
  let segs := splitTopic pattern in
  validateSegments pattern segs ;;
  res_each (fun '(i, s) =>
    if decide (s = wildcardOne) then Ok tt
    else if decide (s = wildcardTail) then fail_if (negb (bool_decide (i = length segs - 1))) ErrInvalidTopic
    else fail_if (ContainsAny s "*>") ErrInvalidTopic) (imap pair segs).

Definition validateSpaceId (spaceId : string) : res unit :=
  fail_if (bool_decide (spaceId = "") || bool_decide (is_Some (IndexByte spaceId "/"))) ErrInvalidTopic.

(** The account that alone may publish to the topic, or none. *)
Definition TopicOwner (topic : string) : string :=
  let segs := splitTopic topic in
  match segs with
  | s0 :: _ :: _ => if decide (s0 = accNamespace) then List.last segs "" else ""
  | _ => ""
  end.

(** ** The trie *)

(** A node without [next] ends its patterns; [pattern] is set when [refs] is not zero. *)
Inductive trieLevel :=
| mkLevel (nodes : gmap string trieNode) (pwc fwc : option trieNode)
with trieNode :=
| mkNode (next : option trieLevel) (pattern : string) (refs : nat).

Definition lv_nodes (l : trieLevel) := let '(mkLevel nodes _ _) := l in nodes.
Definition lv_pwc (l : trieLevel) := let '(mkLevel _ pwc _) := l in pwc.
Definition lv_fwc (l : trieLevel) := let '(mkLevel _ _ fwc) := l in fwc.
Definition nd_next (n : trieNode) := let '(mkNode next _ _) := n in next.
Definition nd_pattern (n : trieNode) := let '(mkNode _ pattern _) := n in pattern.
Definition nd_refs (n : trieNode) := let '(mkNode _ _ refs) := n in refs.

Definition emptyLevel : trieLevel := mkLevel ∅ None None.

Record patternTrie := mkPatternTrie {
  pt_root : trieLevel;
  pt_size : Z;
}.
Definition newPatternTrie : patternTrie := mkPatternTrie emptyLevel 0.
Definition Len (t : patternTrie) : Z := pt_size t.

Definition child (l : trieLevel) (seg : string) : option trieNode :=
  if decide (seg = wildcardOne) then lv_pwc l
  else if decide (seg = wildcardTail) then lv_fwc l
  else lv_nodes l !! seg.
Definition literal (l : trieLevel) (seg : string) : option trieNode := lv_nodes l !! seg.
Definition setChild (seg : string) (n : trieNode) (l : trieLevel) : trieLevel :=
  if decide (seg = wildcardOne) then mkLevel (lv_nodes l) (Some n) (lv_fwc l)
  else if decide (seg = wildcardTail) then mkLevel (lv_nodes l) (lv_pwc l) (Some n)
  else mkLevel (<[seg := n]> (lv_nodes l)) (lv_pwc l) (lv_fwc l).
Definition deleteChild (seg : string) (l : trieLevel) : trieLevel :=
  if decide (seg = wildcardOne) then mkLevel (lv_nodes l) None (lv_fwc l)
  else if decide (seg = wildcardTail) then mkLevel (lv_nodes l) (lv_pwc l) None
  else mkLevel (delete seg (lv_nodes l)) (lv_pwc l) (lv_fwc l).
Definition level_empty (l : trieLevel) : bool :=
  bool_decide (size (lv_nodes l) = 0) && bool_decide (lv_pwc l = None) && bool_decide (lv_fwc l = None).

(** The walk of [Add], which makes the missing nodes: the level, and the count of the node
    at the end. *)
Fixpoint addPath (pattern : string) (segs : list string) (level : trieLevel) : trieLevel * nat :=
  match segs with
  | [] => (level, 0)
  | seg :: rest =>
      let node := default (mkNode None "" 0) (child level seg) in
      let next := default emptyLevel (nd_next node) in
      match rest with
      | [] => (setChild seg (mkNode (Some next) pattern (S (nd_refs node))) level, S (nd_refs node))
      | _ =>
          let '(next, refs) := addPath pattern rest next in
          (setChild seg (mkNode (Some next) (nd_pattern node) (nd_refs node)) level, refs)
      end
  end.

Definition trie_Add (pattern : string) (t : patternTrie) : patternTrie * bool :=
  let '(root, refs) := addPath pattern (splitTopic pattern) (pt_root t) in
  if decide (refs = 1) then (mkPatternTrie root (pt_size t + 1), true)
  else (mkPatternTrie root (pt_size t), false).

(** [remove]: the level, and whether the pattern is gone with it. *)
Fixpoint removePath (segs : list string) (level : trieLevel) : trieLevel * bool :=
  match segs with
  | [] => (level, false)
  | seg :: rest =>
      match child level seg with
      | None => (level, false)
      | Some node =>
          (* a node without nodes below it goes when nobody refers to it *)
          let settle node removed :=
            (if bool_decide (nd_refs node = 0) &&
                match nd_next node with None => true | Some next => level_empty next end
             then deleteChild seg level else setChild seg node level, removed) in
          match rest with
          | [] =>
              match nd_refs node with
              | O => (level, false)
              | S (S _ as refs) => (setChild seg (mkNode (nd_next node) (nd_pattern node) refs) level, false)
              | S O => settle (mkNode (nd_next node) "" 0) true
              end
          | _ =>
              match nd_next node with
              | None => (level, false)
              | Some next =>
                  let '(next, removed) := removePath rest next in
                  settle (mkNode (Some next) (nd_pattern node) (nd_refs node)) removed
              end
          end
      end
  end.

Definition trie_Remove (pattern : string) (t : patternTrie) : patternTrie * bool :=
  let '(root, removed) := removePath (splitTopic pattern) (pt_root t) in
  (mkPatternTrie root (if (removed : bool) then pt_size t - 1 else pt_size t), removed).

(** [matchLevel], with [matchNode] at the two places that call it. *)
Fixpoint matchLevel (level : trieLevel) (segs : list string) (dst : list string) : list string :=
  match segs with
  | [] => dst
  | seg :: rest =>
      let matchNode node dst :=
        match rest with
        | [] => if decide (nd_refs node = 0) then dst else dst ++ [nd_pattern node]
        | _ => match nd_next node with None => dst | Some next => matchLevel next rest dst end
        end in
      let dst := match lv_fwc level with
                 | Some n => if decide (nd_refs n = 0) then dst else dst ++ [nd_pattern n]
                 | None => dst
                 end in
      let dst := match lv_pwc level with Some n => matchNode n dst | None => dst end in
      match literal level seg with Some n => matchNode n dst | None => dst end
  end.
Definition Match (t : patternTrie) (topic : string) (dst : list string) : list string :=
  matchLevel (pt_root t) (splitTopic topic) dst.

(** ** Splitting *)

Lemma cut_join s idx :
  IndexByte s "/" = Some idx ->
  s = (substring 0 idx s ++ "/" ++ substring (S idx) (String.length s - S idx) s)%string.
Proof.
  revert idx. induction s as [|x s IH]; intros idx; simpl; [done|].
  destruct (decide (x = "/"%char)) as [->|Hx].
  - intros [= <-]. rewrite Nat.sub_0_r. simpl. f_equal.
    by rewrite substring_all.
  - destruct (IndexByte s "/") as [i|] eqn:Hi; [|done]. intros [= <-]. apply (f_equal (String x)). by apply IH.
Qed.

Lemma splitLoop_cons n s : exists x l, splitLoop n s = x :: l.
Proof. destruct n; simpl; [eauto|]. destruct (IndexByte s "/"); eauto. Qed.

(** The segments with their separators are the topic again. *)
Lemma split_join topic : String.concat "/" (splitTopic topic) = topic.
Proof.
  unfold splitTopic. generalize maxSegments as n. intros n. revert topic.
  induction n as [|n IH]; intros topic; simpl; [done|].
  destruct (IndexByte topic "/") as [idx|] eqn:Hi; [|done].
  specialize (IH (substring (S idx) (String.length topic - S idx) topic)).
  destruct (splitLoop_cons n (substring (S idx) (String.length topic - S idx) topic)) as (x & l & Hl).
  rewrite Hl in IH |- *. change (substring 0 idx topic ++ "/" ++ String.concat "/" (x :: l) = topic)%string.
  rewrite IH. by rewrite <- cut_join.
Qed.

#[global] Instance splitTopic_inj : Inj (=) (=) splitTopic.
Proof. intros p q H. by rewrite <- (split_join p), <- (split_join q), H. Qed.

(** What a pattern means. *)
Fixpoint covers (pattern topic : list string) : bool :=
  match pattern, topic with
  | [], [] => true
  | p :: pattern, t :: topic =>
      if decide (p = wildcardTail) then bool_decide (pattern = [])
      else (bool_decide (p = wildcardOne) || bool_decide (p = t)) && covers pattern topic
  | _, _ => false
  end.

(** A segment of a topic is no wildcard. *)
Definition plain (seg : string) : Prop := seg <> wildcardOne /\ seg <> wildcardTail.

Lemma ValidateTopic_plain topic : ValidateTopic topic = Ok tt -> Forall plain (splitTopic topic).
Proof.
  unfold ValidateTopic. destruct (validateSegments _ _); [|done]. intros H%res_each_Ok.
  eapply Forall_impl; [exact H|]. simpl. intros s Hs. destruct (ContainsAny s "*>") eqn:Hc; [done|].
  split; intros ->; by vm_compute in Hc.
Qed.

(** ** The patterns at the paths of a trie *)

(** The pattern and the count of the node at a path that somebody refers to. *)
Fixpoint live (q : list string) (l : trieLevel) : option (string * nat) :=
  match q with
  | [] => None
  | s :: q =>
      n ← child l s;
      match q with
      | [] => if decide (nd_refs n = 0) then None else Some (nd_pattern n, nd_refs n)
      | _ => next ← nd_next n; live q next
      end
  end.
(** Below a node. *)
Definition liveNode (q : list string) (n : trieNode) : option (string * nat) :=
  match q with
  | [] => if decide (nd_refs n = 0) then None else Some (nd_pattern n, nd_refs n)
  | _ => next ← nd_next n; live q next
  end.

Lemma live_cons s q l : live (s :: q) l = child l s ≫= liveNode q.
Proof. done. Qed.

Lemma child_setChild s n l s' : child (setChild s n l) s' = if decide (s' = s) then Some n else child l s'.
Proof.
  unfold setChild, child. destruct l as [nodes pwc fwc].
  repeat (case_decide; simplify_eq/=; try done); by rewrite ?lookup_insert_eq, ?lookup_insert_ne.
Qed.
Lemma child_deleteChild s l s' : child (deleteChild s l) s' = if decide (s' = s) then None else child l s'.
Proof.
  unfold deleteChild, child. destruct l as [nodes pwc fwc].
  repeat (case_decide; simplify_eq/=; try done); by rewrite ?lookup_delete_eq, ?lookup_delete_ne.
Qed.

Lemma live_setChild s n l s' q :
  live (s' :: q) (setChild s n l) = if decide (s' = s) then liveNode q n else live (s' :: q) l.
Proof. rewrite !live_cons, child_setChild. by case_decide. Qed.
Lemma live_deleteChild s l s' q :
  live (s' :: q) (deleteChild s l) = if decide (s' = s) then None else live (s' :: q) l.
Proof. rewrite !live_cons, child_deleteChild. by case_decide. Qed.

Lemma live_empty q l : level_empty l = true -> live q l = None.
Proof.
  unfold level_empty. rewrite !andb_true_iff, !bool_decide_eq_true. intros [[Hn Hp] Hf].
  destruct q as [|s q]; [done|]. rewrite live_cons. unfold child. rewrite Hp, Hf.
  apply map_size_empty_inv in Hn. rewrite Hn. by repeat case_decide; rewrite ?lookup_empty.
Qed.
Lemma live_emptyLevel q : live q emptyLevel = None.
Proof. by apply live_empty. Qed.

Definition livesRefs (o : option (string * nat)) : nat := from_option snd 0 o.

(** Adding changes what is at its path, and there only. *)
Lemma addPath_live pattern segs l : segs <> [] ->
  (addPath pattern segs l).2 = S (livesRefs (live segs l)) /\
  forall q, live q (addPath pattern segs l).1 =
    if decide (q = segs) then Some (pattern, S (livesRefs (live segs l))) else live q l.
Proof.
  revert l. induction segs as [|s segs IH]; intros l Hsegs; [done|]. simpl addPath.
  set (node := default (mkNode None "" 0) (child l s)).
  assert (forall q', liveNode q' node = child l s ≫= liveNode q') as Hnode.
  { intros q'. unfold node. destruct (child l s); [done|]. by destruct q'. }
  destruct segs as [|s2 segs].
  - simpl. assert (livesRefs (live [s] l) = nd_refs node) as Hr.
    { rewrite live_cons, <- Hnode. simpl. by case_decide. }
    simpl live in Hr. rewrite Hr. split; [done|]. intros [|s' q]; [done|]. rewrite live_setChild.
    destruct (decide (s' = s)) as [->|Hs]; [|rewrite decide_False by congruence; done].
    destruct q as [|s2 q]; [by rewrite decide_True|]. rewrite decide_False by done.
    rewrite live_cons, <- Hnode. simpl. destruct (nd_next node); [done|]. exact (live_emptyLevel (s2 :: q)).
  - destruct (IH (default emptyLevel (nd_next node)) ltac:(done)) as [Hr Hl].
    destruct (addPath pattern (s2 :: segs) (default emptyLevel (nd_next node))) as [next refs] eqn:Ha.
    cbn [fst snd] in Hr, Hl |- *.
    assert (forall q', q' <> [] -> live q' (default emptyLevel (nd_next node)) = live (s :: q') l) as Hbelow.
    { intros q' Hq'. rewrite live_cons, <- Hnode. destruct q' as [|x q']; [done|]. simpl.
      destruct (nd_next node); [done|]. exact (live_emptyLevel (x :: q')). }
    rewrite Hbelow in Hr by done. split; [exact Hr|]. intros [|s' q]; [done|]. rewrite live_setChild.
    destruct (decide (s' = s)) as [->|Hs]; [|rewrite decide_False by congruence; done].
    destruct q as [|s3 q]; [rewrite decide_False by done; rewrite live_cons, <- Hnode; done|].
    change (live (s3 :: q) next = if decide (s :: s3 :: q = s :: s2 :: segs) then
      Some (pattern, S (livesRefs (live (s :: s2 :: segs) l))) else live (s :: s3 :: q) l).
    rewrite Hl, !Hbelow by done.
    destruct (decide (s3 :: q = s2 :: segs)) as [Heq|Hne];
      [rewrite decide_True by congruence; done|rewrite decide_False by congruence; done].
Qed.

(** One subscriber less. *)
Definition drops (o : option (string * nat)) : option (string * nat) :=
  match o with
  | Some (p, S (S k)) => Some (p, S k)
  | _ => None
  end.

(** The node goes back into its level, or out of it when nothing is left of it. *)
Lemma settle_live s node l s' q :
  live (s' :: q) (if bool_decide (nd_refs node = 0) &&
                    match nd_next node with None => true | Some next => level_empty next end
                  then deleteChild s l else setChild s node l) =
  if decide (s' = s) then liveNode q node else live (s' :: q) l.
Proof.
  destruct (_ && _) eqn:He; [|apply live_setChild]. rewrite live_deleteChild.
  destruct (decide (s' = s)); [|done].
  apply andb_true_iff in He as [Hr He]. rewrite bool_decide_eq_true in Hr. destruct q as [|x q]; simpl.
  - by rewrite decide_True.
  - destruct (nd_next node) as [next|]; [|done]. symmetry. by apply (live_empty (x :: q)).
Qed.

Lemma removePath_live segs l : segs <> [] ->
  (removePath segs l).2 = bool_decide (livesRefs (live segs l) = 1) /\
  forall q, live q (removePath segs l).1 = if decide (q = segs) then drops (live segs l) else live q l.
Proof.
  revert l. induction segs as [|s segs IH]; intros l Hsegs; [done|]. clear Hsegs. simpl removePath.
  destruct (child l s) as [node|] eqn:Hc; cycle 1.
  { assert (live (s :: segs) l = None) as Hn by (rewrite live_cons, Hc; done). rewrite Hn. split; [done|].
    intros q. cbn [fst]. by case_decide as Hq; [subst; rewrite Hn|]. }
  assert (forall q', live (s :: q') l = liveNode q' node) as Hnode by (intros; rewrite live_cons, Hc; done).
  destruct segs as [|s2 segs].
  - rewrite Hnode. destruct node as [next pattern [|[|refs]]]; simpl liveNode; cbn [nd_refs nd_next nd_pattern fst snd].
    + split; [done|]. intros q. case_decide as Hq; [|done]. subst. by rewrite Hnode.
    + split; [done|]. intros [|s' q]; [done|]. rewrite (settle_live s (mkNode next "" 0)).
      destruct (decide (s' = s)) as [->|]; [|by rewrite decide_False by congruence]. rewrite Hnode.
      destruct q; [by rewrite decide_True|by rewrite decide_False].
    + split; [done|]. intros [|s' q]; [done|]. rewrite live_setChild.
      destruct (decide (s' = s)) as [->|]; [|by rewrite decide_False by congruence]. rewrite Hnode.
      destruct q; [by rewrite decide_True|by rewrite decide_False].
  - destruct (nd_next node) as [next|] eqn:Hnext; cycle 1.
    { assert (live (s :: s2 :: segs) l = None) as Hn by (rewrite Hnode; simpl; rewrite Hnext; done).
      rewrite Hn. split; [done|]. intros q. cbn [fst]. by case_decide as Hq; [subst; rewrite Hn|]. }
    assert (forall q', q' <> [] -> live (s :: q') l = live q' next) as Hbelow.
    { intros [|x q'] Hq'; [done|]. rewrite Hnode. unfold liveNode. by rewrite Hnext. }
    rewrite Hbelow by done. destruct (IH next ltac:(done)) as [Hr Hl].
    destruct (removePath (s2 :: segs) next) as [next' removed]. cbn [fst snd] in Hr, Hl |- *. split; [exact Hr|].
    intros [|s' q]; [done|]. rewrite (settle_live s (mkNode (Some next') (nd_pattern node) (nd_refs node))).
    destruct (decide (s' = s)) as [->|]; [|by rewrite decide_False by congruence].
    destruct q as [|s3 q]; [rewrite decide_False by done; by rewrite Hnode|].
    change (live (s3 :: q) next' = if decide (s :: s3 :: q = s :: s2 :: segs) then drops (live (s2 :: segs) next)
      else live (s :: s3 :: q) l).
    rewrite Hl, Hbelow by done.
    destruct (decide (s3 :: q = s2 :: segs));
      [rewrite decide_True by congruence; done|rewrite decide_False by congruence; done].
Qed.

(** ** Matching *)

(** What the node that took a segment has for the rest of the topic. *)
Definition nodeMatch (n : trieNode) (rest dst : list string) : list string :=
  match rest with
  | [] => if decide (nd_refs n = 0) then dst else dst ++ [nd_pattern n]
  | _ => match nd_next n with None => dst | Some next => matchLevel next rest dst end
  end.
Definition tailMatch (l : trieLevel) (dst : list string) : list string :=
  match lv_fwc l with
  | Some n => if decide (nd_refs n = 0) then dst else dst ++ [nd_pattern n]
  | None => dst
  end.
Lemma matchLevel_cons l t ts dst :
  matchLevel l (t :: ts) dst =
    from_option (fun n => nodeMatch n ts)  (fun d => d) (literal l t)
      (from_option (fun n => nodeMatch n ts) (fun d => d) (lv_pwc l) (tailMatch l dst)).
Proof. simpl. unfold tailMatch, nodeMatch. by destruct (literal l t), (lv_pwc l). Qed.

#[local] Arguments matchLevel : simpl never.

Lemma tailMatch_app l dst : tailMatch l dst = dst ++ tailMatch l [].
Proof. unfold tailMatch. destruct (lv_fwc l); [case_decide|]; by rewrite ?app_nil_r. Qed.
Lemma matchLevel_app l ts dst : matchLevel l ts dst = dst ++ matchLevel l ts [].
Proof.
  revert l dst. induction ts as [|t ts IH]; intros l dst; [by rewrite app_nil_r|]. rewrite !matchLevel_cons.
  assert (forall n d, nodeMatch n ts d = d ++ nodeMatch n ts []) as Hn.
  { intros n d. destruct ts as [|t2 ts]; simpl; [case_decide; by rewrite ?app_nil_r|].
    destruct (nd_next n); [|by rewrite app_nil_r]. apply IH. }
  assert (forall o d, from_option (fun n => nodeMatch n ts) (fun d => d) o d =
    d ++ from_option (fun n => nodeMatch n ts) (fun d => d) o []) as Ho.
  { intros [n|] d; simpl; [apply Hn|by rewrite app_nil_r]. }
  rewrite Ho, (Ho (lv_pwc l)), tailMatch_app. rewrite (Ho (literal l t) (_ (tailMatch l []))), (Ho (lv_pwc l) (tailMatch l [])).
  by rewrite !app_assoc.
Qed.

Lemma nodeMatch_app n ts dst : nodeMatch n ts dst = dst ++ nodeMatch n ts [].
Proof.
  destruct ts; simpl; [case_decide; by rewrite ?app_nil_r|]. destruct (nd_next n); [apply matchLevel_app|by rewrite app_nil_r].
Qed.
Lemma matchLevel_parts l t ts :
  matchLevel l (t :: ts) [] =
    tailMatch l [] ++ from_option (fun n => nodeMatch n ts []) [] (lv_pwc l) ++
    from_option (fun n => nodeMatch n ts []) [] (literal l t).
Proof.
  rewrite matchLevel_cons. destruct (literal l t) as [n|], (lv_pwc l) as [n'|]; simpl; rewrite ?app_nil_r.
  - by rewrite nodeMatch_app, (nodeMatch_app n'), app_assoc.
  - by rewrite nodeMatch_app.
  - by rewrite nodeMatch_app.
  - done.
Qed.

(** The patterns found are those at the paths that cover the topic. *)
Definition found (p : string) (o : list string -> option (string * nat)) (ts : list string) : Prop :=
  exists q k, o q = Some (p, k) /\ covers q ts = true.

Lemma nodeMatch_elem n ts p :
  (forall l, p ∈ matchLevel l ts [] <-> found p (fun q => live q l) ts) ->
  p ∈ nodeMatch n ts [] <-> found p (fun q => liveNode q n) ts.
Proof.
  intros IH. destruct ts as [|t ts].
  - simpl. split.
    + case_decide as Hr; [intros []%not_elem_of_nil|]. intros ->%list_elem_of_singleton.
      exists [], (nd_refs n). simpl. by rewrite decide_False.
    + intros ([|] & k & Hq & Hc); [|done]. simpl in Hq. case_decide; [done|]. simplify_eq. by apply list_elem_of_singleton.
  - simpl. destruct (nd_next n) as [next|] eqn:Hnext.
    + rewrite IH. split; intros ([|x q] & k & Hq & Hc); [done| |done|]; exists (x :: q), k; (split; [|done]);
        unfold liveNode in *; rewrite Hnext in *; done.
    + split; [intros []%not_elem_of_nil|]. intros ([|x q] & k & Hq & Hc); [done|]. unfold liveNode in Hq. by rewrite Hnext in Hq.
Qed.

Lemma tailMatch_elem l p : p ∈ tailMatch l [] <-> exists k, live [wildcardTail] l = Some (p, k).
Proof.
  unfold tailMatch. simpl. unfold child. rewrite decide_False, decide_True by done.
  destruct (lv_fwc l) as [n|]; simpl; [|split; [intros []%not_elem_of_nil|by intros [? ?]]].
  case_decide; [split; [intros []%not_elem_of_nil|by intros [? ?]]|]. rewrite list_elem_of_singleton. naive_solver.
Qed.

(** A path that covers a topic: the tail, any segment, or the segment itself first. *)
Lemma covers_cons s q t ts : plain t ->
  covers (s :: q) (t :: ts) = true <->
  s = wildcardTail /\ q = [] \/ s = wildcardOne /\ covers q ts = true \/ s = t /\ covers q ts = true.
Proof.
  intros [Ht1 Ht2]. simpl. case_decide as Hs; [subst|].
  - rewrite bool_decide_eq_true. split; [auto|]. intros [[_ ?]|[[? _]|[? _]]]; [done|done|congruence].
  - rewrite andb_true_iff, orb_true_iff, !bool_decide_eq_true. naive_solver.
Qed.

Lemma matchLevel_elem ts p : Forall plain ts -> forall l, p ∈ matchLevel l ts [] <-> found p (fun q => live q l) ts.
Proof.
  induction 1 as [|t ts Ht Hts IH]; intros l.
  { split; [intros []%not_elem_of_nil|]. intros ([|] & k & Hl & Hc); done. }
  rewrite matchLevel_parts, !elem_of_app, tailMatch_elem.
  assert (forall s, s <> wildcardTail -> forall o, child l s = o ->
    p ∈ from_option (fun n => nodeMatch n ts []) [] o <-> found p (fun q => live (s :: q) l) ts) as Hn.
  { intros s Hs o Ho. unfold found. setoid_rewrite live_cons. rewrite Ho.
    destruct o as [n|]; simpl; [by apply nodeMatch_elem|]. split; [intros []%not_elem_of_nil|naive_solver]. }
  assert (child l wildcardOne = lv_pwc l /\ child l t = literal l t) as [H1 H2].
  { unfold child. destruct Ht. by rewrite decide_True, !decide_False. }
  rewrite (Hn wildcardOne ltac:(done) _ H1), (Hn t (proj2 Ht) _ H2). unfold found. split.
  - intros [(k & Hk)|[(q & k & Hk & Hc)|(q & k & Hk & Hc)]]; eexists (_ :: _), k; (split; [exact Hk|]);
      apply (covers_cons _ _ _ _ Ht); auto.
  - intros ([|s q] & k & Hk & Hc); [done|].
    apply (covers_cons _ _ _ _ Ht) in Hc as [[-> ->]|[[-> Hc]|[-> Hc]]]; eauto 10.
Qed.

(** No pattern is found twice. *)
Definition distinct (o : list string -> option (string * nat)) : Prop :=
  forall q1 q2 p k1 k2, o q1 = Some (p, k1) -> o q2 = Some (p, k2) -> q1 = q2.

Lemma distinct_next n next : distinct (fun q => liveNode q n) -> nd_next n = Some next -> distinct (fun q => live q next).
Proof.
  intros Hd Hn [|x1 q1] [|x2 q2] p k1 k2; try done. intros H1 H2.
  eapply (Hd (x1 :: q1) (x2 :: q2)); unfold liveNode; rewrite Hn; done.
Qed.

Lemma matchLevel_NoDup ts : Forall plain ts -> forall l, distinct (fun q => live q l) -> NoDup (matchLevel l ts []).
Proof.
  induction 1 as [|t ts Ht Hts IH]; intros l Hd; [constructor|].
  assert (forall s n, child l s = Some n -> distinct (fun q => liveNode q n)) as Hchild.
  { intros s n Hs q1 q2 p k1 k2 H1 H2. assert (s :: q1 = s :: q2) as [= ?]; [|done].
    eapply Hd; rewrite live_cons, Hs; done. }
  assert (forall s o, child l s = o -> NoDup (from_option (fun n => nodeMatch n ts []) [] o)) as Hnode.
  { intros s [n|] Hs; [|constructor]. specialize (Hchild _ _ Hs). simpl. destruct ts; simpl.
    - case_decide; repeat constructor. by intros []%not_elem_of_nil.
    - destruct (nd_next n) eqn:Hn; [|constructor]. apply IH. by eapply distinct_next. }
  assert (child l wildcardOne = lv_pwc l /\ child l t = literal l t) as [H1 H2].
  { unfold child. destruct Ht. by rewrite decide_True, !decide_False. }
  assert (forall s o p, child l s = o -> p ∈ from_option (fun n => nodeMatch n ts []) [] o ->
    exists q k, live (s :: q) l = Some (p, k)) as Hin.
  { intros s [n|] p Hs Hp; [|by apply not_elem_of_nil in Hp]. simpl in Hp.
    apply nodeMatch_elem in Hp as (q & k & Hq & _); [|intros; by apply matchLevel_elem].
    exists q, k. by rewrite live_cons, Hs. }
  rewrite matchLevel_parts, !NoDup_app. split_and!; [| |by eapply Hnode| |by eapply Hnode].
  - unfold tailMatch. destruct (lv_fwc l); [case_decide|]; repeat constructor. by intros []%not_elem_of_nil.
  - intros p [k Hk]%tailMatch_elem. rewrite not_elem_of_app. split.
    + intros (q & k' & Hq)%(Hin wildcardOne _ _ H1). by assert ([wildcardTail] = wildcardOne :: q) by (by eapply Hd).
    + intros (q & k' & Hq)%(Hin t _ _ H2). destruct Ht as [_ Ht]. assert ([wildcardTail] = t :: q) by (by eapply Hd). congruence.
  - intros p (q & k & Hq)%(Hin wildcardOne _ _ H1) (q' & k' & Hq')%(Hin t _ _ H2). destruct Ht as [Ht _].
    assert (wildcardOne :: q = t :: q') by (by eapply Hd). congruence.
Qed.

(** ** What the trie promises *)

(** The patterns with somebody who refers to them, and how many do. *)
Record counted (t : patternTrie) (m : gmap string nat) : Prop := mkCounted {
  ct_live q p k : live q (pt_root t) = Some (p, k) <-> q = splitTopic p /\ m !! p = Some k;
  ct_size : pt_size t = Z.of_nat (size m);
}.

Definition bump (p : string) (m : gmap string nat) : gmap string nat := <[p := S (default 0 (m !! p))]> m.
Definition lower (p : string) (m : gmap string nat) : gmap string nat :=
  match m !! p with
  | Some (S (S k)) => <[p := S k]> m
  | _ => delete p m
  end.

Lemma live_pos q l p k : live q l = Some (p, k) -> k <> 0.
Proof.
  revert l. induction q as [|s q IH]; intros l; [done|]. rewrite live_cons. destruct (child l s) as [n|]; [|done]. simpl.
  destruct q as [|s2 q]; simpl; [case_decide; naive_solver|]. destruct (nd_next n); [|done]. apply IH.
Qed.

Lemma splitTopic_cons p : splitTopic p <> [].
Proof. destruct (splitLoop_cons maxSegments p) as (x & l & Hl). unfold splitTopic. by rewrite Hl. Qed.

Section counted.
Context (t : patternTrie) (m : gmap string nat) (Hc : counted t m).

Lemma counted_live p : live (splitTopic p) (pt_root t) = (fun k => (p, k)) <$> m !! p.
Proof.
  destruct (live (splitTopic p) (pt_root t)) as [[p' k]|] eqn:Hl.
  - apply (ct_live _ _ Hc) in Hl as [->%(inj splitTopic) ->]. done.
  - destruct (m !! p) as [k|] eqn:Hm; [|done]. simpl.
    by rewrite (proj2 (ct_live _ _ Hc (splitTopic p) p k)) in Hl.
Qed.
Lemma counted_pos p k : m !! p = Some k -> k <> 0.
Proof. intros Hm. eapply live_pos. by apply (ct_live _ _ Hc (splitTopic p)). Qed.

Lemma counted_Add p :
  counted (trie_Add p t).1 (bump p m) /\ (trie_Add p t).2 = bool_decide (m !! p = None).
Proof.
  unfold trie_Add. destruct (addPath_live p (splitTopic p) (pt_root t) (splitTopic_cons p)) as [Hr Hl].
  destruct (addPath p (splitTopic p) (pt_root t)) as [root refs]. cbn [fst snd] in Hr, Hl.
  rewrite counted_live in Hr, Hl.
  assert (livesRefs ((fun k => (p, k)) <$> m !! p) = default 0 (m !! p)) as Hd by (by destruct (m !! p)).
  rewrite Hd in Hr, Hl.
  assert (forall q p' k, live q root = Some (p', k) <-> q = splitTopic p' /\ bump p m !! p' = Some k) as Hlive.
  { intros q p' k. rewrite Hl. unfold bump. destruct (decide (q = splitTopic p)) as [->|Hq].
    - split; [by intros [= <- <-]; rewrite lookup_insert_eq|].
      intros [->%(inj splitTopic) Hk]. rewrite lookup_insert_eq in Hk. by injection Hk as <-.
    - rewrite (ct_live _ _ Hc). split; intros [-> Hk]; (split; [done|]); [|revert Hk]; by rewrite lookup_insert_ne by congruence. }
  destruct (m !! p) as [k|] eqn:Hm.
  - pose proof (counted_pos _ _ Hm). simpl in Hr. rewrite decide_False, bool_decide_eq_false_2 by lia || done.
    split; [|done]. split; [exact Hlive|]. simpl. rewrite (ct_size _ _ Hc). unfold bump.
    by rewrite map_size_insert_Some by eauto.
  - simpl in Hr. rewrite decide_True, bool_decide_eq_true_2 by done. split; [|done]. split; [exact Hlive|]. simpl.
    rewrite (ct_size _ _ Hc). unfold bump. rewrite map_size_insert_None by done. lia.
Qed.

Lemma counted_Remove p :
  counted (trie_Remove p t).1 (lower p m) /\ (trie_Remove p t).2 = bool_decide (m !! p = Some 1).
Proof.
  unfold trie_Remove. destruct (removePath_live (splitTopic p) (pt_root t) (splitTopic_cons p)) as [Hr Hl].
  destruct (removePath (splitTopic p) (pt_root t)) as [root removed]. cbn [fst snd] in Hr, Hl.
  rewrite counted_live in Hr, Hl.
  assert (forall p' k, lower p m !! p' = Some k <->
    if decide (p' = p) then drops ((fun k => (p, k)) <$> m !! p) = Some (p, k) else m !! p' = Some k) as Hlow.
  { intros p' k. unfold lower. destruct (decide (p' = p)) as [->|Hp].
    - destruct (m !! p) as [[|[|n]]|]; simpl; rewrite ?lookup_delete_eq, ?lookup_insert_eq; naive_solver.
    - destruct (m !! p) as [[|[|n]]|]; by rewrite ?lookup_delete_ne, ?lookup_insert_ne by done. }
  assert (forall q p' k, live q root = Some (p', k) <-> q = splitTopic p' /\ lower p m !! p' = Some k) as Hlive.
  { intros q p' k. rewrite Hl, Hlow. destruct (decide (q = splitTopic p)) as [->|Hq].
    - split.
      + intros Hd. assert (p' = p) as ->; [|by rewrite decide_True]. by destruct (m !! p) as [[|[|n]]|]; simplify_eq/=.
      + intros [->%(inj splitTopic) Hk]. by rewrite decide_True in Hk.
    - rewrite (ct_live _ _ Hc). split; intros [-> Hk]; (split; [done|]); [|revert Hk]; by rewrite decide_False by congruence. }
  assert (removed = bool_decide (m !! p = Some 1)) as ->.
  { rewrite Hr. apply bool_decide_ext. destruct (m !! p); naive_solver. }
  split; [|done]. split; [exact Hlive|]. simpl. rewrite (ct_size _ _ Hc). unfold lower.
  destruct (m !! p) as [[|[|n]]|] eqn:Hm; simpl.
  - by destruct (counted_pos _ _ Hm).
  - rewrite map_size_delete_Some by eauto. assert (size m <> 0); [|lia].
    intros Hz%map_size_empty_inv. by rewrite Hz, lookup_empty in Hm.
  - by rewrite map_size_insert_Some by eauto.
  - by rewrite map_size_delete_None.
Qed.

Lemma counted_Match topic : ValidateTopic topic = Ok tt ->
  NoDup (Match t topic []) /\
  forall p, p ∈ Match t topic [] <-> is_Some (m !! p) /\ covers (splitTopic p) (splitTopic topic) = true.
Proof.
  intros Hv%ValidateTopic_plain. unfold Match. split.
  - apply matchLevel_NoDup; [done|]. intros q1 q2 p k1 k2 [-> _]%(ct_live _ _ Hc) [-> _]%(ct_live _ _ Hc). done.
  - intros p. rewrite matchLevel_elem by done. split.
    + intros (q & k & [-> Hk]%(ct_live _ _ Hc) & Hq). eauto.
    + intros [[k Hk] Hq]. exists (splitTopic p), k. by rewrite (ct_live _ _ Hc).
Qed.
End counted.

Lemma counted_new : counted newPatternTrie ∅.
Proof.
  split; [|done]. intros q p k. unfold newPatternTrie. cbn [pt_root]. rewrite live_emptyLevel, lookup_empty. naive_solver.
Qed.

(** *** Runs *)

Inductive trieOp := TAdd (p : string) | TRemove (p : string).
Definition trieStep (t : patternTrie) (o : trieOp) : patternTrie :=
  match o with TAdd p => (trie_Add p t).1 | TRemove p => (trie_Remove p t).1 end.
(** Subscriptions less withdrawals; withdrawing what is not there is nothing. *)
Definition balanceStep (m : gmap string nat) (o : trieOp) : gmap string nat :=
  match o with TAdd p => bump p m | TRemove p => lower p m end.

Lemma counted_run ops t m : counted t m -> counted (foldl trieStep t ops) (foldl balanceStep m ops).
Proof.
  revert t m. induction ops as [|[p|p] ops IH]; intros t m Hc; [done|..]; apply IH;
    [by apply counted_Add|by apply counted_Remove].
Qed.

(** C32: However subscribers came and went, the trie lists exactly the patterns that some
    subscriber still holds and that cover the topic by the plain meaning of the wildcards,
    each once, and its size is the number of patterns held. *)
Theorem trie_matches (ops : list trieOp) (topic : string) :
  ValidateTopic topic = Ok tt ->
  let t := foldl trieStep newPatternTrie ops in
  let held := foldl balanceStep ∅ ops in
  NoDup (Match t topic []) /\ Len t = Z.of_nat (size held) /\
  forall p, p ∈ Match t topic [] <-> is_Some (held !! p) /\ covers (splitTopic p) (splitTopic topic) = true.
Proof.
  intros Hv t held. pose proof (counted_run ops _ _ counted_new) as Hc.
  destruct (counted_Match _ _ Hc topic Hv) as [Hn He]. split_and!; [exact Hn|exact (ct_size _ _ Hc)|exact He].
Qed.

Lemma trie_matches_witness :
  let t := foldl trieStep newPatternTrie [TAdd "a/*"; TAdd "a/>"; TAdd "a/*"; TAdd "a/b/c"; TRemove "a/*"; TRemove "a/>"] in
  Match t "a/b" [] = ["a/*"] /\ NoDup (Match t "a/b" []).
Proof.
  intros t. split; [vm_compute; reflexivity|].
  refine (proj1 (trie_matches [TAdd "a/*"; TAdd "a/>"; TAdd "a/*"; TAdd "a/b/c"; TRemove "a/*"; TRemove "a/>"] "a/b" _)).
  vm_compute. reflexivity.
Defined.
