(* ===== verification/StreamPool.v ===== *)
(** The stream pool (src/net/streampool: streampool.go, stream.go): open streams with the
    messages that wait to be written, found by peer and by tag.

    The queue of a stream is the library mb, the class [MsgQueue].  A stream that closes
    leaves the pool; the flag [closed] of the code, which makes closing happen once, is that
    it has left.  The goroutines that dial are run to their end where they are started. *)

From Stdlib Require Import ZArith Lia String.
From stdpp Require Import base option list gmap strings.
From S2P Require Import Prelude.

Local Open Scope Z_scope.

(** [mb.MB]: a message is refused by a queue that is full or closed, and there is none to
    take from an empty one (where the code waits). *)
Class MsgQueue (M Q : Type) := {
  mq_New : Z -> Q;
  mq_TryAdd : M -> Q -> option Q;
  mq_WaitOne : Q -> option (M * Q);
}.
(** What waits in a queue and how many may; a closed queue has no place left. *)
Class MsgQueueLaws (M Q : Type) `{MsgQueue M Q} := {
  mq_items : Q -> list M;
  mq_size : Q -> Z;
  mq_New_law n : 0 < n -> mq_items (mq_New n) = [] /\ mq_size (mq_New n) = n;
  mq_TryAdd_law x q :
    if Z.of_nat (length (mq_items q)) <? mq_size q
    then exists q', mq_TryAdd x q = Some q' /\ mq_items q' = mq_items q ++ [x] /\ mq_size q' = mq_size q
    else mq_TryAdd x q = None;
  mq_WaitOne_law q : match mq_items q with
                     | [] => mq_WaitOne q = None
                     | x :: l => exists q', mq_WaitOne q = Some (x, q') /\ mq_items q' = l /\ mq_size q' = mq_size q
                     end;
}.

(** What a successful [TryAdd] does. *)
Lemma mq_TryAdd_Some {M Q} `{MsgQueueLaws M Q} (x : M) (q q' : Q) :
  mq_TryAdd x q = Some q' -> mq_items q' = mq_items q ++ [x].
Proof. intros Hq. pose proof (mq_TryAdd_law x q) as Hl. destruct (_ <? _); naive_solver congruence. Qed.

(** [peerMessage]: messages that are told the peer they go to; others stay as they are. *)
Class PeerMessage (M : Type) := { addressed : string -> M -> M }.

Definition fatal {A} : res A := Err (GoPanic "removeStream: streamId does not exist").
Definition ErrNoStreamId := GoError "context without streamId".
Definition ErrNoStream := GoError "stream not found".
Definition ErrUnableToConnect := GoError "unable to connect".
Definition nilStream := GoPanic "nil stream".

Section pool.
Context {M Q : Type} `{MsgQueue M Q} `{PeerMessage M}.

Record stream := mkStream {
  sm_peerId : string;
  sm_queue : Q;
  sm_tags : list string;
}.

Record streamPool := mkStreamPool {
  sp_byPeer : gmap string (list Z);
  sp_byTag : gmap string (list Z);
  sp_streams : gmap Z stream;
  sp_lastStreamId : Z;
}.
Implicit Types (p : streamPool).

Definition NewStreamPool : streamPool := mkStreamPool ∅ ∅ ∅ 0.

Abbreviation SP := (ST streamPool).

Definition set_byPeer v p := mkStreamPool v (sp_byTag p) (sp_streams p) (sp_lastStreamId p).
Definition set_byTag v p := mkStreamPool (sp_byPeer p) v (sp_streams p) (sp_lastStreamId p).
Definition set_streams v p := mkStreamPool (sp_byPeer p) (sp_byTag p) v (sp_lastStreamId p).

(** [m[key] = append(m[key], streamId)] *)
Definition appendId (key : string) (id : Z) (m : gmap string (list Z)) : gmap string (list Z) :=
  <[key := (default [] (m !! key) ++ [id])%list]> m.

(** The identifiers are 32 bits wide. *)
Definition addStream (peerId : res string) (queueSize : Z) (tags : list string) : SP Z :=
  peerId ← lifts peerId;
  last ← reads sp_lastStreamId;
  let id := (last + 1) mod 2 ^ 32 in
  let queueSize := if queueSize <=? 0 then 100 else queueSize in
  assigns (fun p => mkStreamPool (appendId peerId id (sp_byPeer p))
    (foldl (fun m tag => appendId tag id m) (sp_byTag p) tags)
    (<[id := mkStream peerId (mq_New queueSize) tags]> (sp_streams p)) id) ;;
  mret id.

(** [slices.Delete] at [slices.Index]; a key without streams goes. *)
Fixpoint removeId (id : Z) (ids : list Z) : list Z :=
  match ids with
  | [] => []
  | x :: ids => if decide (x = id) then ids else x :: removeId id ids
  end.
Definition removeFrom (key : string) (id : Z) (m : gmap string (list Z)) : res (gmap string (list Z)) :=
  let ids := default [] (m !! key) in
  if decide (id ∈ ids) then
    match removeId id ids with
    | [] => Ok (delete key m)
    | ids => Ok (<[key := ids]> m)
    end
  else fatal.
Definition removeTagId (id : Z) (tag : string) : SP unit :=
  m ← calls (fun p => removeFrom tag id (sp_byTag p)); assigns (set_byTag m).

(** [write] to the stream that was found: whether the queue took the message. *)
Definition write (id : Z) (msg : M) : SP bool :=
  st ← calls (fun p => opt_or (sp_streams p !! id) nilStream);
  match mq_TryAdd (addressed (sm_peerId st) msg) (sm_queue st) with
  | None => mret false
  | Some q =>
      assigns (fun p => set_streams (<[id := mkStream (sm_peerId st) q (sm_tags st)]> (sp_streams p)) p) ;;
      mret true
  end.

(** Write until one queue takes the message. *)
Fixpoint writeFirst (ids : list Z) (msg : M) : SP bool :=
  match ids with
  | [] => mret false
  | id :: ids => ok ← write id msg; if (ok : bool) then mret true else writeFirst ids msg
  end.

Definition idsOfPeer p (peerId : string) : list Z := default [] (sp_byPeer p !! peerId).
Definition idsOfTag p (tag : string) : list Z := default [] (sp_byTag p !! tag).

(** [SendById]: the first write that succeeds ends it. *)
Definition SendById (msg : M) (peerIds : list string) : SP unit :=
  ids ← reads (fun p => peerIds ≫= idsOfPeer p);
  writeFirst ids msg ;;
  lifts (fail_if (bool_decide (ids = [])) ErrUnableToConnect).

(** Skip the ids that were seen. *)
Fixpoint unseen (seen : gset Z) (ids : list Z) : list Z :=
  match ids with
  | [] => []
  | id :: ids => if decide (id ∈ seen) then unseen seen ids else id :: unseen ({[id]} ∪ seen) ids
  end.
Definition Broadcast (msg : M) (tags : list string) : SP unit :=
  ids ← reads (fun p => tags ≫= idsOfTag p);
  st_each (fun id => write id msg ;; mret tt) (if (1 <? length tags)%nat then unseen ∅ ids else ids).

(** *** Tags *)

Definition streamOfCtx (streamId : option Z) : SP (Z * stream) :=
  id ← lifts (opt_or streamId ErrNoStreamId);
  st ← calls (fun p => opt_or (sp_streams p !! id) ErrNoStream);
  mret (id, st).

(** The tags a stream does not have yet, one after the other. *)
Fixpoint newTags (have tags : list string) : list string :=
  match tags with
  | [] => []
  | t :: tags => if decide (t ∈ have) then newTags have tags else t :: newTags (have ++ [t])%list tags
  end.
Definition AddTagsCtx (streamId : option Z) (tags : list string) : SP unit :=
  '(id, st) ← streamOfCtx streamId;
  let new := newTags (sm_tags st) tags in
  assigns (fun p => mkStreamPool (sp_byPeer p) (foldl (fun m tag => appendId tag id m) (sp_byTag p) new)
    (<[id := mkStream (sm_peerId st) (sm_queue st) (sm_tags st ++ new)%list]> (sp_streams p)) (sp_lastStreamId p)).

Definition removeTags (id : Z) (st : stream) (tags : list string) : SP unit :=
  assigns (fun p => set_streams
    (<[id := mkStream (sm_peerId st) (sm_queue st) (List.filter (fun t => negb (bool_decide (t ∈ tags))) (sm_tags st))]>
       (sp_streams p)) p) ;;
  st_each (removeTagId id) (List.filter (fun t => bool_decide (t ∈ tags)) (sm_tags st)).
Definition RemoveTagsCtx (streamId : option Z) (tags : list string) : SP unit :=
  '(id, st) ← streamOfCtx streamId;
  removeTags id st tags.
Definition RemoveTagsById (streamId : Z) (tags : list string) : SP unit :=
  st ← reads (fun p => sp_streams p !! streamId);
  match st with None => mret tt | Some st => removeTags streamId st tags end.

(** *** Closing: the stream that was removed, for the hook *)

Definition removeStream (streamId : Z) : SP stream :=
  st ← calls (fun p => opt_or (sp_streams p !! streamId) (GoPanic "removeStream: stream does not exist"));
  m ← calls (fun p => removeFrom (sm_peerId st) streamId (sp_byPeer p));
  assigns (set_byPeer m) ;;
  st_each (removeTagId streamId) (sm_tags st) ;;
  assigns (fun p => set_streams (delete streamId (sp_streams p)) p) ;;
  mret st.

(** [streamClose]: only the first caller removes the stream. *)
Definition streamClose (streamId : Z) : SP (option stream) :=
  st ← reads (fun p => sp_streams p !! streamId);
  match st with
  | None => mret None
  | Some _ => st ← removeStream streamId; mret (Some st)
  end.

(** One round of [writeLoop]: the message that goes out, if one waits. *)
Definition writeOne (id : Z) : SP (option M) :=
  st ← calls (fun p => opt_or (sp_streams p !! id) nilStream);
  match mq_WaitOne (sm_queue st) with
  | None => mret None
  | Some (msg, q) =>
      assigns (fun p => set_streams (<[id := mkStream (sm_peerId st) q (sm_tags st)]> (sp_streams p)) p) ;;
      mret (Some msg)
  end.

(** *** Sending to peers, which opens streams *)

(** What [OpenStream] of the handler answers for a peer: the peer id in the context of the
    stream, its tags and its queue size. *)
Definition Opener := string -> res (res string * list string * Z).

(** The error of [AddStream] is not kept: the caller tries again. *)
Definition addQuietly (x : res string * list string * Z) : SP unit := fun p =>
  let '(ctxPeer, tags, queueSize) := x in
  match addStream ctxPeer queueSize tags p with
  | (p, Err (GoPanic m)) => (p, Err (GoPanic m))
  | (p, _) => (p, Ok tt)
  end.
Definition openStream (open : Opener) (peerId : string) : SP unit := x ← lifts (open peerId); addQuietly x.

(** [None]: not done within the fuel. *)
Fixpoint getStreams (fuel : nat) (open : Opener) (peerId : string) : SP (option (list Z)) :=
  match fuel with
  | O => mret None
  | S fuel =>
      ids ← reads (fun p => idsOfPeer p peerId);
      match ids with
      | [] => openStream open peerId ;; getStreams fuel open peerId
      | _ => mret (Some ids)
      end
  end.

Definition sendOne (fuel : nat) (open : Opener) (peerId : string) (msg : M) : SP (option bool) :=
  streams ← getStreams fuel open peerId;
  match streams with
  | None => mret None
  | Some ids => ok ← writeFirst ids msg; mret (Some ok)
  end.

(** The task [Send] gives to the dial pool: errors are logged. *)
Fixpoint sendTask (fuel : nat) (open : Opener) (msg : M) (peers : list string) : SP unit :=
  match peers with
  | [] => mret tt
  | peer :: peers => fun p =>
      match sendOne fuel open peer msg p with
      | (p, Err (GoPanic m)) => (p, Err (GoPanic m))
      | (p, _) => sendTask fuel open msg peers p
      end
  end.
End pool.

Arguments stream Q : clear implicits.
Arguments streamPool Q : clear implicits.

(** ** Indexes *)

(** [m] lists the ids of every key by [R], each once. *)
Record index_of (m : gmap string (list Z)) (R : string -> Z -> Prop) : Prop := mkIndexOf {
  ix_elem k id : id ∈ default [] (m !! k) <-> R k id;
  ix_nodup k : NoDup (default [] (m !! k));
  ix_nonempty k : m !! k <> Some [];
}.

Lemma index_of_ext m R R' : index_of m R -> (forall k id, R k id <-> R' k id) -> index_of m R'.
Proof. intros [He Hn Hne] HR. split; [|done..]. intros k id. by rewrite He, HR. Qed.

Lemma index_of_empty R : (forall k id, ~ R k id) -> index_of ∅ R.
Proof.
  intros HR. split; intros k; rewrite lookup_empty; simpl; [|constructor|done].
  intros id. split; [by intros ?%not_elem_of_nil|by intros ?%HR].
Qed.

Lemma appendId_ok m R k id : index_of m R -> ~ R k id ->
  index_of (appendId k id m) (fun k' i => R k' i \/ k' = k /\ i = id).
Proof.
  intros [He Hn Hne] HR. unfold appendId. split; intros k'; destruct (decide (k' = k)) as [->|Hk];
    rewrite ?lookup_insert_eq, ?lookup_insert_ne by done; simpl.
  - intros i. rewrite elem_of_app, list_elem_of_singleton, He. naive_solver.
  - intros i. rewrite He. naive_solver.
  - apply NoDup_app. split_and!; [done| |apply NoDup_singleton]. intros i Hi ->%list_elem_of_singleton. by apply He in Hi.
  - done.
  - intros [= Happ]. by apply app_nil in Happ as [_ ?].
  - done.
Qed.

Lemma appendIds_ok tags id : NoDup tags -> forall m R, index_of m R -> (forall t, t ∈ tags -> ~ R t id) ->
  index_of (foldl (fun m tag => appendId tag id m) m tags) (fun k i => R k i \/ k ∈ tags /\ i = id).
Proof.
  induction 1 as [|t tags Ht Hn IH]; intros m R Hm HR; simpl.
  - eapply index_of_ext; [done|]. set_solver.
  - eapply index_of_ext; [apply IH; [apply appendId_ok; [done|]|]|].
    + apply HR. set_solver.
    + intros t' Ht' [HR'|[-> _]]; [|done]. eapply HR; [|done]. set_solver.
    + set_solver.
Qed.

Lemma removeId_elem id ids i : NoDup ids -> i ∈ removeId id ids <-> i ∈ ids /\ i <> id.
Proof.
  induction 1 as [|x ids Hx Hn IH]; simpl; [set_solver|]. case_decide as Hd; [subst|]; [|set_solver].
  split; [|set_solver]. intros Hi. split; [set_solver|]. by intros ->.
Qed.
Lemma removeId_NoDup id ids : NoDup ids -> NoDup (removeId id ids).
Proof.
  induction 1 as [|x ids Hx Hn IH]; simpl; [constructor|]. case_decide; [done|]. constructor; [|done].
  rewrite removeId_elem by done. naive_solver.
Qed.

Lemma removeFrom_ok m R k id : index_of m R -> R k id ->
  exists m', removeFrom k id m = Ok m' /\ index_of m' (fun k' i => R k' i /\ ~ (k' = k /\ i = id)).
Proof.
  intros [He Hn Hne] HR. unfold removeFrom. rewrite decide_True by (by apply He).
  assert (forall ids, removeId id (default [] (m !! k)) = ids ->
    (forall i, i ∈ ids <-> R k i /\ i <> id) /\ NoDup ids) as Hids.
  { intros ids <-. split; [|by apply removeId_NoDup]. intros i. by rewrite removeId_elem, He. }
  destruct (removeId id _) as [|x ids] eqn:Hr; destruct (Hids _ eq_refl) as [Hi Hnd]; eexists; (split; [done|]);
    split; intros k'; destruct (decide (k' = k)) as [->|Hk];
    rewrite ?lookup_delete_eq, ?lookup_insert_eq, ?lookup_delete_ne, ?lookup_insert_ne by done; simpl; try done.
  all: try constructor.
  all: try intros i; rewrite ?Hi, ?He; try naive_solver.
Qed.

(** ** The pool is consistent *)

Section pool_ok.
Context {M Q : Type} `{MsgQueueLaws M Q} `{PeerMessage M}.
Implicit Types (p : streamPool Q) (st : stream Q).

Definition hasPeer (streams : gmap Z (stream Q)) (peerId : string) (id : Z) : Prop :=
  exists st, streams !! id = Some st /\ sm_peerId st = peerId.
Definition hasTag (streams : gmap Z (stream Q)) (tag : string) (id : Z) : Prop :=
  exists st, streams !! id = Some st /\ tag ∈ sm_tags st.

Record pool_ok p : Prop := mkPoolOk {
  po_peer : index_of (sp_byPeer p) (hasPeer (sp_streams p));
  po_tag : index_of (sp_byTag p) (hasTag (sp_streams p));
  po_tags id st : sp_streams p !! id = Some st -> NoDup (sm_tags st);
}.

Lemma pool_ok_new : pool_ok NewStreamPool.
Proof.
  split; simpl; [| |intros id st; by rewrite lookup_empty];
    apply index_of_empty; intros k id (st & Hst & _); by rewrite lookup_empty in Hst.
Qed.

(** The id of the next stream. *)
Definition nextId p : Z := (sp_lastStreamId p + 1) mod 2 ^ 32.

Lemma addStream_run p peerId queueSize tags : pool_ok p -> sp_streams p !! nextId p = None -> NoDup tags ->
  exists p' q, addStream (Ok peerId) queueSize tags p = (p', Ok (nextId p)) /\ pool_ok p' /\ mq_items q = [] /\
    sp_streams p' = <[nextId p := mkStream peerId q tags]> (sp_streams p).
Proof.
  intros [Hp Ht Hn] Hfresh Htags. eexists _, _. split; [unfold addStream, mbind, st_bind; cbn; reflexivity|].
  split; [|split; [refine (proj1 (mq_New_law (if queueSize <=? 0 then 100 else queueSize) _)); destruct (Z.leb_spec queueSize 0); lia|reflexivity]]. fold (nextId p). split; simpl.
  - eapply index_of_ext; [apply appendId_ok; [exact Hp|]|].
    + intros (st & Hst & _). congruence.
    + intros k i. unfold hasPeer. destruct (decide (i = nextId p)) as [->|Hi].
      * rewrite lookup_insert_eq, Hfresh. naive_solver.
      * rewrite lookup_insert_ne by done. naive_solver.
  - eapply index_of_ext; [apply appendIds_ok; [done|exact Ht|]|].
    + intros t _ (st & Hst & _). congruence.
    + intros k i. unfold hasTag. destruct (decide (i = nextId p)) as [->|Hi].
      * rewrite lookup_insert_eq, Hfresh. naive_solver.
      * rewrite lookup_insert_ne by done. naive_solver.
  - intros id st. rewrite lookup_insert_Some. intros [[_ <-]|[_ Hst]]; [done|eauto].
Qed.

(** Streams with the same peers and tags. *)
Definition sameStream st st' : Prop := sm_peerId st' = sm_peerId st /\ sm_tags st' = sm_tags st.

Lemma pool_ok_same p streams : pool_ok p ->
  (forall id, option_Forall2 sameStream (sp_streams p !! id) (streams !! id)) -> pool_ok (set_streams streams p).
Proof.
  intros [Hp Ht Hn] Hs. split; simpl.
  - eapply index_of_ext; [exact Hp|]. intros k id. unfold hasPeer. specialize (Hs id).
    inversion Hs as [st st' [Heq _] Hx1 Hx2|]; naive_solver congruence.
  - eapply index_of_ext; [exact Ht|]. intros k id. unfold hasTag. specialize (Hs id).
    inversion Hs as [st st' [_ Heq] Hx1 Hx2|]; rewrite ?Heq in *; naive_solver congruence.
  - intros id st Hst. specialize (Hs id). rewrite Hst in Hs. inversion Hs as [st0 st' [_ Heq] Hx1 Hx2|]; subst.
    rewrite Heq. eauto.
Qed.

(** *** Writing *)

(** The stream with the message, if its queue takes it. *)
Definition pushed (msg : M) st : stream Q :=
  match mq_TryAdd (addressed (sm_peerId st) msg) (sm_queue st) with
  | Some q => mkStream (sm_peerId st) q (sm_tags st)
  | None => st
  end.
Lemma pushed_same msg st : sameStream st (pushed msg st).
Proof. unfold pushed. destruct (mq_TryAdd _ _); done. Qed.

Lemma write_run p id st msg : sp_streams p !! id = Some st ->
  exists b, write id msg p = (set_streams (<[id := pushed msg st]> (sp_streams p)) p, Ok b).
Proof.
  intros Hst. unfold write, pushed, calls, mbind, st_bind. rewrite Hst. simpl. destruct (mq_TryAdd _ _); [by eexists|].
  exists false. rewrite insert_id by done. by destruct p.
Qed.

Lemma writes_run l msg : NoDup l -> forall p, (forall id, id ∈ l -> is_Some (sp_streams p !! id)) ->
  exists streams, st_each (fun id => write id msg ;; mret tt) l p = (set_streams streams p, Ok tt) /\
    forall id, streams !! id = (if decide (id ∈ l) then pushed msg else fun st => st) <$> sp_streams p !! id.
Proof.
  induction 1 as [|x l Hx Hn IH]; intros p Hl; simpl.
  - exists (sp_streams p). split; [by destruct p|]. intros id.
    by destruct (_ !! id).
  - destruct (Hl x ltac:(by left)) as [st Hst]. destruct (write_run p x st msg Hst) as [b Hw].
    destruct (IH (set_streams (<[x := pushed msg st]> (sp_streams p)) p)) as (streams & Hr & Hs).
    { intros id Hid. simpl. apply lookup_insert_is_Some'. right. apply Hl. by right. }
    exists streams. split.
    + unfold mbind, st_bind. rewrite Hw. exact Hr.
    + intros id. rewrite Hs. simpl. destruct (decide (id = x)) as [->|Hid].
      * rewrite lookup_insert_eq, Hst. destruct (decide (x ∈ l)), (decide (x ∈ x :: l)) as [|Hin]; try done.
        destruct Hin. by left.
      * rewrite lookup_insert_ne by done. destruct (decide (id ∈ l)), (decide (id ∈ x :: l)) as [Hin|Hin]; try done.
        -- destruct Hin. by right.
        -- by apply elem_of_cons in Hin as [|].
Qed.

Lemma unseen_spec ids seen : NoDup (unseen seen ids) /\ forall id, id ∈ unseen seen ids <-> id ∈ ids /\ id ∉ seen.
Proof.
  revert seen. induction ids as [|x ids IH]; intros seen; simpl.
  - split; [constructor|]. intros id. split; [by intros ?%not_elem_of_nil|by intros [?%not_elem_of_nil _]].
  - destruct (IH seen) as [Hn1 He1], (IH ({[x]} ∪ seen)) as [Hn2 He2]. case_decide as Hd.
    + split; [done|]. intros id. rewrite He1, elem_of_cons. naive_solver.
    + split; [constructor; [rewrite He2; set_solver|done]|]. intros id. rewrite !elem_of_cons, He2. 
      destruct (decide (id = x)); set_solver.
Qed.

(** What a broadcast makes of a stream. *)
Definition broadcasted (msg : M) (tags : list string) st : stream Q :=
  if decide (Exists (fun t => t ∈ sm_tags st) tags) then pushed msg st else st.

(** A broadcast gives every stream with one of the tags the message, once. *)
Lemma Broadcast_run p msg tags : pool_ok p ->
  Broadcast msg tags p = (set_streams (broadcasted msg tags <$> sp_streams p) p, Ok tt).
Proof.
  intros Hok. unfold Broadcast. rewrite (st_bind_run _ _ p p (tags ≫= idsOfTag p)) by done.
  set (l := if (1 <? length tags)%nat then unseen ∅ (tags ≫= idsOfTag p) else tags ≫= idsOfTag p).
  assert (NoDup l /\ forall id, id ∈ l <-> exists t, t ∈ tags /\ hasTag (sp_streams p) t id) as [Hn Hl].
  { assert (forall id, id ∈ tags ≫= idsOfTag p <-> exists t, t ∈ tags /\ hasTag (sp_streams p) t id) as He.
    { intros id. rewrite list_elem_of_bind. setoid_rewrite <- (ix_elem _ _ (po_tag _ Hok)). naive_solver. }
    unfold l. destruct (Nat.ltb_spec 1 (length tags)) as [Hlen|Hlen].
    - destruct (unseen_spec (tags ≫= idsOfTag p) ∅) as [Hn Hu]. split; [done|]. intros id. rewrite Hu, He. set_solver.
    - split; [|done]. destruct tags as [|t [|]]; simpl in *; [constructor| |lia]. rewrite app_nil_r.
      apply (ix_nodup _ _ (po_tag _ Hok)). }
  destruct (writes_run l msg Hn p) as (streams & Hr & Hs).
  { intros id (t & _ & st & Hst & _)%Hl. eauto. }
  rewrite Hr. do 2 f_equal. apply map_eq. intros id. rewrite Hs, lookup_fmap.
  destruct (sp_streams p !! id) as [st|] eqn:Hst; [|done]. simpl. f_equal. unfold broadcasted.
  case_decide as Ha; case_decide as Hb; try done.
  - exfalso. apply Hb, Exists_exists. apply Hl in Ha as (t & Ht & st' & Hst' & Hin). exists t. naive_solver congruence.
  - exfalso. apply Ha, Hl. apply Exists_exists in Hb as (t & Ht & Hin). exists t. split; [done|]. by exists st.
Qed.

Lemma Broadcast_ok p msg tags : pool_ok p -> pool_ok (Broadcast msg tags p).1.
Proof.
  intros Hok. rewrite Broadcast_run by done. apply pool_ok_same; [done|]. intros id. rewrite lookup_fmap.
  destruct (sp_streams p !! id); simpl; constructor. unfold broadcasted. case_decide; [apply pushed_same|done].
Qed.

(** *** Tags *)

Lemma newTags_spec tags have : NoDup (newTags have tags) /\ forall t, t ∈ newTags have tags <-> t ∈ tags /\ t ∉ have.
Proof.
  revert have. induction tags as [|x tags IH]; intros have; simpl; [split; [constructor|set_solver]|].
  destruct (IH have) as [Hn He], (IH (have ++ [x])%list) as [Hn' He']. case_decide; [set_solver|].
  split; [constructor; [rewrite He'; set_solver|done]|]. intros t. rewrite elem_of_cons, He'.
  destruct (decide (t = x)); set_solver.
Qed.

(** Tags are all a stream differs in. *)
Definition retagged (tags : list string) st : stream Q := mkStream (sm_peerId st) (sm_queue st) tags.

Lemma retag_ok p id st m tags :
  pool_ok p -> sp_streams p !! id = Some st -> NoDup tags ->
  index_of m (fun k i => hasTag (sp_streams p) k i /\ i <> id \/ k ∈ tags /\ i = id) ->
  pool_ok (mkStreamPool (sp_byPeer p) m (<[id := retagged tags st]> (sp_streams p)) (sp_lastStreamId p)).
Proof.
  intros [Hp Ht Hn] Hst Htags Hm. split; simpl.
  - eapply index_of_ext; [exact Hp|]. intros k i. unfold hasPeer. destruct (decide (i = id)) as [->|Hi].
    + rewrite lookup_insert_eq, Hst. naive_solver.
    + by rewrite lookup_insert_ne.
  - eapply index_of_ext; [exact Hm|]. intros k i. unfold hasTag. destruct (decide (i = id)) as [->|Hi].
    + rewrite lookup_insert_eq. naive_solver.
    + rewrite lookup_insert_ne by done. naive_solver.
  - intros i st'. rewrite lookup_insert_Some. intros [[_ <-]|[_ ?]]; [done|eauto].
Qed.

Lemma AddTagsCtx_run p id st tags : pool_ok p -> sp_streams p !! id = Some st ->
  exists p' all, AddTagsCtx (Some id) tags p = (p', Ok tt) /\ pool_ok p' /\
    sp_streams p' = <[id := retagged all st]> (sp_streams p) /\ sp_lastStreamId p' = sp_lastStreamId p /\
    forall t, t ∈ all <-> t ∈ sm_tags st \/ t ∈ tags.
Proof.
  intros Hok Hst. destruct (newTags_spec tags (sm_tags st)) as [Hn He].
  set (new := newTags (sm_tags st) tags) in *.
  exists (mkStreamPool (sp_byPeer p) (foldl (fun m tag => appendId tag id m) (sp_byTag p) new)
    (<[id := retagged (sm_tags st ++ new)%list st]> (sp_streams p)) (sp_lastStreamId p)), (sm_tags st ++ new)%list.
  split; [|split; [|split; [done|split; [done|]]]].
  - unfold AddTagsCtx, streamOfCtx, lifts, calls, assigns, mbind, st_bind. cbn. rewrite Hst. reflexivity.
  - apply retag_ok; [done..| |].
    + apply NoDup_app. split_and!; [by eapply po_tags| |done]. intros t Ht Hnew. by apply He in Hnew as [_ ?].
    + eapply index_of_ext; [apply appendIds_ok; [done|exact (po_tag _ Hok)|]|].
      * intros t [_ Hnot]%He (st' & Hst' & Hin). naive_solver congruence.
      * intros k i. rewrite elem_of_app. unfold hasTag. destruct (decide (i = id)) as [->|]; naive_solver congruence.
  - intros t. rewrite elem_of_app, He. destruct (decide (t ∈ sm_tags st)); naive_solver.
Qed.

Lemma AddTagsCtx_missing p id tags : sp_streams p !! id = None ->
  AddTagsCtx (Some id) tags p = (p, Err ErrNoStream).
Proof. intros Hst. unfold AddTagsCtx, streamOfCtx, lifts, calls, mbind, st_bind. cbn. by rewrite Hst. Qed.

Lemma removeTagIds_run id l : NoDup l -> forall p R, index_of (sp_byTag p) R -> (forall t, t ∈ l -> R t id) ->
  exists m, st_each (removeTagId id) l p = (set_byTag m p, Ok tt) /\
    index_of m (fun k i => R k i /\ ~ (k ∈ l /\ i = id)).
Proof.
  induction 1 as [|t l Ht Hn IH]; intros p R HR Hin; simpl.
  - exists (sp_byTag p). split; [by destruct p|]. eapply index_of_ext; [exact HR|]. set_solver.
  - destruct (removeFrom_ok _ _ t id HR (Hin t ltac:(by left))) as (m & Hm & Hix).
    destruct (IH (set_byTag m p) _ Hix) as (m' & Hr & Hix').
    { intros t' Ht'. split; [apply Hin; by right|]. by intros [-> _]. }
    exists m'. split.
    + unfold mbind at 1, st_bind at 1. unfold removeTagId at 1, calls at 1, mbind at 1, st_bind at 1. rewrite Hm. exact Hr.
    + eapply index_of_ext; [exact Hix'|]. intros k i. set_solver.
Qed.

Lemma filter_In_elem (f : string -> bool) l t : t ∈ List.filter f l <-> t ∈ l /\ f t = true.
Proof. rewrite !list_elem_of_In. apply filter_In. Qed.

Lemma removeTags_run p id st tags : pool_ok p -> sp_streams p !! id = Some st ->
  exists p' left, removeTags id st tags p = (p', Ok tt) /\ pool_ok p' /\
    sp_streams p' = <[id := retagged left st]> (sp_streams p) /\ sp_lastStreamId p' = sp_lastStreamId p /\
    forall t, t ∈ left <-> t ∈ sm_tags st /\ t ∉ tags.
Proof.
  intros Hok Hst. set (left := List.filter (fun t => negb (bool_decide (t ∈ tags))) (sm_tags st)).
  set (gone := List.filter (fun t => bool_decide (t ∈ tags)) (sm_tags st)).
  assert (forall t, t ∈ left <-> t ∈ sm_tags st /\ t ∉ tags) as Hleft.
  { intros t. unfold left. by rewrite filter_In_elem, negb_true_iff, bool_decide_eq_false. }
  assert (forall t, t ∈ gone <-> t ∈ sm_tags st /\ t ∈ tags) as Hgone.
  { intros t. unfold gone. by rewrite filter_In_elem, bool_decide_eq_true. }
  pose proof (po_tags _ Hok _ _ Hst) as Hnd.
  destruct (removeTagIds_run id gone ltac:(by apply NoDup_ListNoDup, List.NoDup_filter, NoDup_ListNoDup)
    (set_streams (<[id := retagged left st]> (sp_streams p)) p) (hasTag (sp_streams p)) (po_tag _ Hok)) as (m & Hr & Hix).
  { intros t [Ht _]%Hgone. by exists st. }
  eexists _, left. split; [exact Hr|]. split; [|split; [done|split; [done|done]]].
  apply (retag_ok p id st m left); [done|done|by apply NoDup_ListNoDup, List.NoDup_filter, NoDup_ListNoDup|].
  eapply index_of_ext; [exact Hix|]. intros k i. simpl. rewrite Hgone, Hleft. unfold hasTag.
  destruct (decide (i = id)) as [->|Hi]; [|naive_solver].
  destruct (decide (k ∈ tags)); naive_solver congruence.
Qed.

Lemma RemoveTagsById_run p id tags : pool_ok p ->
  exists p', RemoveTagsById id tags p = (p', Ok tt) /\ pool_ok p' /\ sp_lastStreamId p' = sp_lastStreamId p /\
    match sp_streams p !! id with
    | None => p' = p
    | Some st => exists left, sp_streams p' = <[id := retagged left st]> (sp_streams p) /\
        forall t, t ∈ left <-> t ∈ sm_tags st /\ t ∉ tags
    end.
Proof.
  intros Hok. unfold RemoveTagsById. rewrite (st_bind_run _ _ p p (sp_streams p !! id)) by done.
  destruct (sp_streams p !! id) as [st|] eqn:Hst; [|by exists p].
  destruct (removeTags_run p id st tags Hok Hst) as (p' & left & Hr & Hok' & Hs & Hl & Ht). exists p'. eauto 6.
Qed.

Lemma RemoveTagsCtx_run p id tags : pool_ok p -> is_Some (sp_streams p !! id) ->
  RemoveTagsCtx (Some id) tags p = RemoveTagsById id tags p.
Proof.
  intros Hok [st Hst]. unfold RemoveTagsCtx, RemoveTagsById, streamOfCtx, lifts, calls, reads, mbind, st_bind. cbn.
  by rewrite Hst.
Qed.

(** *** Closing *)

(** A stream that closes leaves nothing behind, and no other stream notices. *)
Lemma removeStream_run p id st : pool_ok p -> sp_streams p !! id = Some st ->
  exists p', removeStream id p = (p', Ok st) /\ pool_ok p' /\ sp_lastStreamId p' = sp_lastStreamId p /\
    sp_streams p' = delete id (sp_streams p).
Proof.
  intros Hok Hst.
  destruct (removeFrom_ok _ _ (sm_peerId st) id (po_peer _ Hok)) as (m & Hm & Hix); [by exists st|].
  destruct (removeTagIds_run id (sm_tags st) (po_tags _ Hok _ _ Hst) (set_byPeer m p) _ (po_tag _ Hok)) as (m' & Hr & Hix').
  { intros t Ht. by exists st. }
  eexists. split.
  - unfold removeStream, calls, assigns, mbind, st_bind. cbn. rewrite Hst. cbn. rewrite Hm. cbn.
    change (mkStreamPool m (sp_byTag p) (sp_streams p) (sp_lastStreamId p)) with (set_byPeer m p). rewrite Hr. reflexivity.
  - split; [|done]. split; simpl.
    + eapply index_of_ext; [exact Hix|]. intros k i. unfold hasPeer. destruct (decide (i = id)) as [->|Hi].
      * rewrite lookup_delete_eq. naive_solver congruence.
      * rewrite lookup_delete_ne by done. naive_solver.
    + eapply index_of_ext; [exact Hix'|]. intros k i. unfold hasTag. destruct (decide (i = id)) as [->|Hi].
      * rewrite lookup_delete_eq. naive_solver congruence.
      * rewrite lookup_delete_ne by done. naive_solver.
    + intros i st'. rewrite lookup_delete_Some. intros [_ ?]. by eapply po_tags.
Qed.

(** *** Dialing *)

(** A stream whose context names the peer it was opened for is found at the second look. *)
Lemma getStreams_opens p open peerId tags queueSize :
  pool_ok p -> sp_streams p !! nextId p = None -> NoDup tags ->
  open peerId = Ok (Ok peerId, tags, queueSize) ->
  exists p' ids, getStreams 2 open peerId p = (p', Ok (Some ids)) /\ pool_ok p' /\ ids <> [] /\
    forall id, id ∈ ids <-> hasPeer (sp_streams p') peerId id.
Proof.
  intros Hok Hfresh Htags Hopen.
  assert (forall p1, pool_ok p1 -> forall id, id ∈ idsOfPeer p1 peerId <-> hasPeer (sp_streams p1) peerId id) as Hids.
  { intros p1 Hok1 id. apply (ix_elem _ _ (po_peer _ Hok1)). }
  cbn [getStreams]. rewrite (st_bind_run _ _ p p (idsOfPeer p peerId)) by done.
  destruct (idsOfPeer p peerId) as [|x ids] eqn:Hi.
  - destruct (addStream_run p peerId queueSize tags Hok Hfresh Htags) as (p' & q & Ha & Hok' & _ & Hs).
    erewrite (st_bind_run _ _ p p' tt); cycle 1.
    { unfold openStream, lifts, mbind, st_bind. rewrite Hopen. unfold addQuietly. by rewrite Ha. }
    rewrite (st_bind_run _ _ p' p' (idsOfPeer p' peerId)) by done. pose proof (Hids p' Hok') as Hids'.
    assert (nextId p ∈ idsOfPeer p' peerId) as Hin.
    { apply Hids'. eexists. by rewrite Hs, lookup_insert_eq. }
    destruct (idsOfPeer p' peerId) as [|y ids] eqn:Hy; [by apply not_elem_of_nil in Hin|]. exists p', (y :: ids). eauto.
  - exists p, (x :: ids). split_and!; [done..|]. rewrite <- Hi. by apply Hids.
Qed.

(** A stream without a peer id in its context is never added, its error forgotten: dialing
    goes on forever. *)
Lemma pool_dial_hangs p open peerId e tags queueSize : 
  idsOfPeer p peerId = [] -> open peerId = Ok (Err (GoError e), tags, queueSize) ->
  forall fuel, getStreams fuel open peerId p = (p, Ok None).
Proof.
  intros Hids Hopen. induction fuel as [|fuel IH]; [done|]. cbn [getStreams].
  rewrite (st_bind_run _ _ p p []) by (unfold reads; by rewrite Hids).
  rewrite (st_bind_run _ _ p p tt); [exact IH|]. unfold openStream, lifts, mbind, st_bind. by rewrite Hopen.
Qed.
End pool_ok.
