(* ===== verification/StrKey.v ===== *)
(** Addresses of keys (src/util/strkey/strkey.go, src/util/crc16/crc16.go,
    src/util/crypto/decode.go): a version byte, the key and a checksum, in base 58.

    Base 58 is a library, the class [Base58].  The checksum is computed with a table; the
    table is that of the CRC with the polynomial 0x1021, and a single wrong byte is always
    found. *)

From Stdlib Require Import ZArith Lia String Ascii.
From stdpp Require Import base option list gmap strings.
From S2P Require Import Prelude Crypto.

Local Open Scope Z_scope.

(** ** The checksum *)

Definition crc16tab : list Z :=
  [0x0000; 0x1021; 0x2042; 0x3063; 0x4084; 0x50a5; 0x60c6; 0x70e7;
   0x8108; 0x9129; 0xa14a; 0xb16b; 0xc18c; 0xd1ad; 0xe1ce; 0xf1ef;
   0x1231; 0x0210; 0x3273; 0x2252; 0x52b5; 0x4294; 0x72f7; 0x62d6;
   0x9339; 0x8318; 0xb37b; 0xa35a; 0xd3bd; 0xc39c; 0xf3ff; 0xe3de;
   0x2462; 0x3443; 0x0420; 0x1401; 0x64e6; 0x74c7; 0x44a4; 0x5485;
   0xa56a; 0xb54b; 0x8528; 0x9509; 0xe5ee; 0xf5cf; 0xc5ac; 0xd58d;
   0x3653; 0x2672; 0x1611; 0x0630; 0x76d7; 0x66f6; 0x5695; 0x46b4;
   0xb75b; 0xa77a; 0x9719; 0x8738; 0xf7df; 0xe7fe; 0xd79d; 0xc7bc;
   0x48c4; 0x58e5; 0x6886; 0x78a7; 0x0840; 0x1861; 0x2802; 0x3823;
   0xc9cc; 0xd9ed; 0xe98e; 0xf9af; 0x8948; 0x9969; 0xa90a; 0xb92b;
   0x5af5; 0x4ad4; 0x7ab7; 0x6a96; 0x1a71; 0x0a50; 0x3a33; 0x2a12;
   0xdbfd; 0xcbdc; 0xfbbf; 0xeb9e; 0x9b79; 0x8b58; 0xbb3b; 0xab1a;
   0x6ca6; 0x7c87; 0x4ce4; 0x5cc5; 0x2c22; 0x3c03; 0x0c60; 0x1c41;
   0xedae; 0xfd8f; 0xcdec; 0xddcd; 0xad2a; 0xbd0b; 0x8d68; 0x9d49;
   0x7e97; 0x6eb6; 0x5ed5; 0x4ef4; 0x3e13; 0x2e32; 0x1e51; 0x0e70;
   0xff9f; 0xefbe; 0xdfdd; 0xcffc; 0xbf1b; 0xaf3a; 0x9f59; 0x8f78;
   0x9188; 0x81a9; 0xb1ca; 0xa1eb; 0xd10c; 0xc12d; 0xf14e; 0xe16f;
   0x1080; 0x00a1; 0x30c2; 0x20e3; 0x5004; 0x4025; 0x7046; 0x6067;
   0x83b9; 0x9398; 0xa3fb; 0xb3da; 0xc33d; 0xd31c; 0xe37f; 0xf35e;
   0x02b1; 0x1290; 0x22f3; 0x32d2; 0x4235; 0x5214; 0x6277; 0x7256;
   0xb5ea; 0xa5cb; 0x95a8; 0x8589; 0xf56e; 0xe54f; 0xd52c; 0xc50d;
   0x34e2; 0x24c3; 0x14a0; 0x0481; 0x7466; 0x6447; 0x5424; 0x4405;
   0xa7db; 0xb7fa; 0x8799; 0x97b8; 0xe75f; 0xf77e; 0xc71d; 0xd73c;
   0x26d3; 0x36f2; 0x0691; 0x16b0; 0x6657; 0x7676; 0x4615; 0x5634;
   0xd94c; 0xc96d; 0xf90e; 0xe92f; 0x99c8; 0x89e9; 0xb98a; 0xa9ab;
   0x5844; 0x4865; 0x7806; 0x6827; 0x18c0; 0x08e1; 0x3882; 0x28a3;
   0xcb7d; 0xdb5c; 0xeb3f; 0xfb1e; 0x8bf9; 0x9bd8; 0xabbb; 0xbb9a;
   0x4a75; 0x5a54; 0x6a37; 0x7a16; 0x0af1; 0x1ad0; 0x2ab3; 0x3a92;
   0xfd2e; 0xed0f; 0xdd6c; 0xcd4d; 0xbdaa; 0xad8b; 0x9de8; 0x8dc9;
   0x7c26; 0x6c07; 0x5c64; 0x4c45; 0x3ca2; 0x2c83; 0x1ce0; 0x0cc1;
   0xef1f; 0xff3e; 0xcf5d; 0xdf7c; 0xaf9b; 0xbfba; 0x8fd9; 0x9ff8;
   0x6e17; 0x7e36; 0x4e55; 0x5e74; 0x2e93; 0x3eb2; 0x0ed1; 0x1ef0].

Definition byteOf (a : ascii) : Z := Z.of_nat (nat_of_ascii a).
Definition byteAt (n : Z) : ascii := ascii_of_nat (Z.to_nat (n mod 256)).

(** One byte; [crc] is 16 bits wide. *)
Definition crcStep (crc : Z) (b : ascii) : Z :=
  Z.lxor (Z.land (Z.shiftl crc 8) 0xffff)
    (nth (Z.to_nat (Z.land (Z.lxor (Z.shiftr crc 8) (byteOf b)) 0xff)) crc16tab 0).
Fixpoint crcOf (crc : Z) (data : bytes) : Z :=
  match data with
  | EmptyString => crc
  | String b data => crcOf (crcStep crc b) data
  end.
(** Little endian. *)
Definition Checksum (data : bytes) : bytes :=
  let crc := crcOf 0 data in
  String (byteAt crc) (String (byteAt (Z.shiftr crc 8)) EmptyString).

Definition ErrInvalidChecksum := GoError "invalid checksum".
Definition crc_Validate (data expected : bytes) : res unit :=
  fail_if (negb (bool_decide (Checksum data = expected))) ErrInvalidChecksum.

(** ** Addresses *)

Class Base58 := {
  FastBase58Encoding : bytes -> string;
  FastBase58Decoding : string -> res bytes;
}.
Class Base58Laws `{Base58} := {
  Base58_law b : FastBase58Decoding (FastBase58Encoding b) = Ok b;
}.

Definition VersionByte := ascii.
Definition AccountAddressVersionByte : VersionByte := byteAt 0x5b.
Definition AccountSeedVersionByte : VersionByte := byteAt 0xff.
Definition DeviceSeedVersionByte : VersionByte := byteAt 0x7d.
Definition NetworkAddressVersionByte : VersionByte := byteAt 0xd3.

Definition ErrInvalidVersionByte := GoError "invalid version byte".

Section strkey.
Context `{CryptoPrims} `{Base58}.

Definition decodeString (src : string) : res bytes :=
  match FastBase58Decoding src with
  | Err (GoPanic m) => Err (GoPanic m)
  | Err _ => Err (GoError "base58 decode failed")
  | Ok raw =>
      fail_if (String.length raw <? 3)%nat (GoError "encoded value too short") ;;
      Ok raw
  end.

(** [raw[0]] of a string that is long enough. *)
Definition firstByte (raw : bytes) : res ascii := opt_or (String.get 0 raw) (GoPanic "index out of range").

Definition strkey_Decode (expected : VersionByte) (src : string) : res bytes :=
  raw ← decodeString src;
  version ← firstByte raw;
  let n := (String.length raw - 2)%nat in
  let vp := substring 0 n raw in
  let payload := substring 1 (n - 1) raw in
  let checksum := substring n 2 raw in
  fail_if (negb (bool_decide (version = expected))) ErrInvalidVersionByte ;;
  crc_Validate vp checksum ;;
  Ok payload.

Definition strkey_Encode (version : VersionByte) (src : bytes) : res string :=
  let raw := String version src in
  Ok (FastBase58Encoding (raw ++ Checksum raw)%string).

Definition Version (src : string) : res VersionByte := raw ← decodeString src; firstByte raw.

(** The addresses of keys; the error of encoding is dropped. *)
Definition encoded (r : res string) : string := match r with Ok s => s | Err _ => "" end.
Definition Account (k : PubKey) : string := encoded (strkey_Encode AccountAddressVersionByte (pubKey k)).
Definition Network (k : PubKey) : string := encoded (strkey_Encode NetworkAddressVersionByte (pubKey k)).

Definition DecodeAccountAddress (address : string) : res PubKey :=
  raw ← strkey_Decode AccountAddressVersionByte address; UnmarshalEd25519PublicKey raw.
Definition DecodeNetworkId (networkId : string) : res PubKey :=
  raw ← strkey_Decode NetworkAddressVersionByte networkId; UnmarshalEd25519PublicKey raw.
End strkey.

(** ** The table is the CRC *)

(** One bit of the division by x^16 + x^12 + x^5 + 1, in 16 bits. *)
Definition crcBit (x : Z) : Z :=
  Z.lxor (Z.land (Z.shiftl x 1) 0xffff) (if Z.testbit x 15 then 0x1021 else 0).
Definition crcByte (crc : Z) (b : ascii) : Z := Nat.iter 8 crcBit (Z.lxor crc (Z.shiftl (byteOf b) 8)).

Lemma crcBit_lxor x y : crcBit (Z.lxor x y) = Z.lxor (crcBit x) (crcBit y).
Proof.
  unfold crcBit. rewrite Z.lxor_spec, Z.shiftl_lxor, !(Z.land_comm _ 0xffff).
  assert (forall a b c, Z.land a (Z.lxor b c) = Z.lxor (Z.land a b) (Z.land a c)) as Hd.
  { intros a b c. apply Z.bits_inj'. intros n _. rewrite !Z.lxor_spec, !Z.land_spec, Z.lxor_spec.
    by destruct (Z.testbit a n), (Z.testbit b n), (Z.testbit c n). }
  rewrite Hd. destruct (Z.testbit x 15), (Z.testbit y 15); cbn [xorb]; apply Z.bits_inj'; intros n _;
    rewrite !Z.lxor_spec, ?Z.bits_0; by destruct (Z.testbit _ n), (Z.testbit _ n), (Z.testbit 0x1021 n).
Qed.
Lemma crcBits_lxor k x y : Nat.iter k crcBit (Z.lxor x y) = Z.lxor (Nat.iter k crcBit x) (Nat.iter k crcBit y).
Proof. induction k as [|k IH]; simpl; [done|]. by rewrite IH, crcBit_lxor. Qed.

(** The numbers below 256. *)
Definition allBytes : list Z := Z.of_nat <$> seq 0 256.
Lemma allBytes_elem n : 0 <= n < 256 -> n ∈ allBytes.
Proof.
  intros Hn. apply list_elem_of_fmap. exists (Z.to_nat n). split; [lia|]. rewrite elem_of_seq. lia.
Qed.

Lemma table_entries n : 0 <= n < 256 -> Nat.iter 8 crcBit (Z.shiftl n 8) = nth (Z.to_nat n) crc16tab 0.
Proof.
  intros Hn. assert (Forall (fun n => Nat.iter 8 crcBit (Z.shiftl n 8) = nth (Z.to_nat n) crc16tab 0) allBytes) as Hall.
  { apply Forall_forall. intros x Hx.
    assert (forallb (fun n => Nat.iter 8 crcBit (Z.shiftl n 8) =? nth (Z.to_nat n) crc16tab 0) allBytes = true) as Hc
      by (vm_compute; reflexivity).
    rewrite forallb_forall in Hc. apply Z.eqb_eq, Hc. by apply list_elem_of_In. }
  rewrite Forall_forall in Hall. by apply Hall, allBytes_elem.
Qed.
Lemma low_bits n : 0 <= n < 256 -> Nat.iter 8 crcBit n = Z.shiftl n 8.
Proof.
  intros Hn. assert (forallb (fun n => Nat.iter 8 crcBit n =? Z.shiftl n 8) allBytes = true) as Hc
    by (vm_compute; reflexivity).
  rewrite forallb_forall in Hc. apply Z.eqb_eq, Hc, list_elem_of_In. by apply allBytes_elem.
Qed.

Lemma byteOf_range b : 0 <= byteOf b < 256.
Proof. unfold byteOf. pose proof (nat_ascii_bounded b). lia. Qed.

(** The high and the low byte of 16 bits. *)
Lemma halves x : 0 <= x < 65536 -> x = Z.lxor (Z.shiftl (Z.shiftr x 8) 8) (Z.land x 0xff).
Proof.
  intros Hx. apply Z.bits_inj'. intros n Hn. rewrite Z.lxor_spec, Z.land_spec, Z.shiftl_spec by lia.
  change 0xff with (Z.ones 8). destruct (Z.lt_ge_cases n 8).
  - rewrite (Z.testbit_neg_r _ (n - 8)), Z.ones_spec_low by lia. by destruct (Z.testbit x n).
  - rewrite Z.shiftr_spec, Z.ones_spec_high by lia. replace (n - 8 + 8) with n by lia. by destruct (Z.testbit x n).
Qed.

Lemma land_ff_range x : 0 <= Z.land x 0xff < 256.
Proof. change 0xff with (Z.ones 8). rewrite Z.land_ones by lia. apply Z.mod_pos_bound. lia. Qed.
Lemma high_range x : 0 <= x < 65536 -> 0 <= Z.shiftr x 8 < 256.
Proof. intros Hx. rewrite Z.shiftr_div_pow2 by lia. change (2 ^ 8) with 256. split; [apply Z.div_pos; lia|]. apply Z.div_lt_upper_bound; lia. Qed.
Lemma lxor_range n a b : 0 <= n -> 0 <= a < 2 ^ n -> 0 <= b < 2 ^ n -> 0 <= Z.lxor a b < 2 ^ n.
Proof.
  intros Hn Ha Hb. assert (0 <= Z.lxor a b) as H0 by (apply Z.lxor_nonneg; lia). split; [done|].
  destruct (Z.eq_dec (Z.lxor a b) 0) as [->|Hne]; [lia|]. apply Z.log2_lt_pow2; [lia|].
  pose proof (Z.log2_lxor a b ltac:(lia) ltac:(lia)) as Hl.
  destruct (Z.eq_dec n 0) as [->|]; [assert (a = 0) as -> by lia; assert (b = 0) as -> by lia; done|].
  assert (forall c, 0 <= c < 2 ^ n -> Z.log2 c < n) as Hlog.
  { intros c Hc. destruct (Z.eq_dec c 0) as [->|]; [simpl; lia|]. apply Z.log2_lt_pow2; lia. }
  pose proof (Hlog a Ha). pose proof (Hlog b Hb). lia.
Qed.

(** The index into the table. *)
Definition crcIdx (crc : Z) (b : ascii) : Z := Z.lxor (Z.shiftr crc 8) (byteOf b).
Lemma crcIdx_range crc b : 0 <= crc < 65536 -> 0 <= crcIdx crc b < 256.
Proof. intros Hc. apply (lxor_range 8); [lia|by apply high_range|apply byteOf_range]. Qed.

Lemma crcStep_idx crc b : 0 <= crc < 65536 ->
  crcStep crc b = Z.lxor (Z.shiftl (Z.land crc 0xff) 8) (nth (Z.to_nat (crcIdx crc b)) crc16tab 0).
Proof.
  intros Hc. unfold crcStep. fold (crcIdx crc b). pose proof (crcIdx_range crc b Hc) as Hi. f_equal.
  - apply Z.bits_inj'. intros n Hn. rewrite Z.land_spec, !Z.shiftl_spec by lia. change 0xffff with (Z.ones 16). change 0xff with (Z.ones 8).
    destruct (Z.lt_ge_cases n 8); [by rewrite !(Z.testbit_neg_r _ (n - 8)) by lia|]. rewrite Z.land_spec.
    destruct (Z.lt_ge_cases n 16); [by rewrite !Z.ones_spec_low by lia|by rewrite !Z.ones_spec_high by lia].
  - change 0xff with (Z.ones 8). rewrite Z.land_ones, Z.mod_small by lia. done.
Qed.

(** The table-driven checksum is the CRC of the polynomial 0x1021 computed bit by bit. *)
Theorem crc_table_correct (crc : Z) (b : ascii) : 0 <= crc < 65536 -> crcStep crc b = crcByte crc b.
Proof.
  intros Hc. rewrite crcStep_idx by done. unfold crcByte. pose proof (crcIdx_range crc b Hc) as Hi.
  replace (Z.lxor crc (Z.shiftl (byteOf b) 8)) with (Z.lxor (Z.land crc 0xff) (Z.shiftl (crcIdx crc b) 8)).
  - rewrite crcBits_lxor, table_entries, low_bits by (done || apply land_ff_range). done.
  - unfold crcIdx. rewrite Z.shiftl_lxor, (Z.lxor_comm (Z.land _ _)), Z.lxor_assoc.
    rewrite (Z.lxor_comm (Z.shiftl (byteOf b) 8)), <- Z.lxor_assoc, <- halves by done. done.
Qed.
Lemma crc_table_correct_witness :
  crcStep 0x1d0f "A" = crcByte 0x1d0f "A" /\ Checksum "123456789" = String (byteAt 0xc3) (String (byteAt 0x31) "").
Proof. split; [apply (crc_table_correct 0x1d0f "A"); lia|vm_compute; reflexivity]. Defined.

(** ** Wrong bytes are found *)

(** Different entries of the table differ in their low byte. *)
Lemma table_low i j : 0 <= i < 256 -> 0 <= j < 256 ->
  Z.land (nth (Z.to_nat i) crc16tab 0) 0xff = Z.land (nth (Z.to_nat j) crc16tab 0) 0xff -> i = j.
Proof.
  intros Hi Hj Heq. assert (NoDup ((fun x => Z.land x 0xff) <$> crc16tab)) as Hn by (apply (bool_decide_unpack _); vm_compute; exact I).
  assert (forall k, 0 <= k < 256 -> ((fun x => Z.land x 0xff) <$> crc16tab) !! Z.to_nat k =
    Some (Z.land (nth (Z.to_nat k) crc16tab 0) 0xff)) as Hk.
  { intros k Hr. rewrite list_lookup_fmap. destruct (lookup_lt_is_Some_2 crc16tab (Z.to_nat k)) as [x Hx];
      [change (length crc16tab) with 256%nat; lia|]. rewrite (nth_lookup_Some _ _ 0 _ Hx), Hx. done. }
  pose proof (Hk i Hi) as H1. pose proof (Hk j Hj) as H2. rewrite <- Heq in H2.
  pose proof (NoDup_lookup _ _ _ _ Hn H1 H2). lia.
Qed.

Lemma table_range i : 0 <= i < 256 -> 0 <= nth (Z.to_nat i) crc16tab 0 < 65536.
Proof.
  intros Hi. assert (forallb (fun x => (0 <=? x) && (x <? 65536)) crc16tab = true) as Hc by (vm_compute; reflexivity).
  rewrite forallb_forall in Hc. specialize (Hc (nth (Z.to_nat i) crc16tab 0)).
  rewrite andb_true_iff, Z.leb_le, Z.ltb_lt in Hc. apply Hc, nth_In. change (length crc16tab) with 256%nat. lia.
Qed.

Lemma crcStep_range crc b : 0 <= crc < 65536 -> 0 <= crcStep crc b < 65536.
Proof.
  intros Hc. rewrite crcStep_idx by done. apply (lxor_range 16); [lia| |apply table_range, crcIdx_range, Hc].
  rewrite Z.shiftl_mul_pow2 by lia. pose proof (land_ff_range crc). change (2 ^ 8) with 256. change (2 ^ 16) with 65536. lia.
Qed.

Lemma lxor_cancel a b c : Z.lxor a c = Z.lxor b c -> a = b.
Proof.
  intros Heq. rewrite <- (Z.lxor_0_r a), <- (Z.lxor_0_r b), <- (Z.lxor_nilpotent c), <- !Z.lxor_assoc. congruence.
Qed.

(** The step keeps the index apart, which is in the low byte, and the low byte, which is in
    the high one. *)
Lemma crcStep_inj crc crc' b b' : 0 <= crc < 65536 -> 0 <= crc' < 65536 ->
  crcStep crc b = crcStep crc' b' -> crcIdx crc b = crcIdx crc' b' /\ Z.land crc 0xff = Z.land crc' 0xff.
Proof.
  intros Hc Hc'. rewrite !crcStep_idx by done. intros Heq.
  assert (forall x y, Z.land (Z.lxor (Z.shiftl x 8) y) 0xff = Z.land y 0xff) as Hlow.
  { intros x y. apply Z.bits_inj'. intros n Hn. rewrite !Z.land_spec, Z.lxor_spec, Z.shiftl_spec by lia.
    change 0xff with (Z.ones 8). destruct (Z.lt_ge_cases n 8).
    - rewrite (Z.testbit_neg_r _ (n - 8)) by lia. by destruct (Z.testbit y n).
    - by rewrite Z.ones_spec_high, !andb_false_r by lia. }
  assert (crcIdx crc b = crcIdx crc' b') as Hidx.
  { apply table_low; [by apply crcIdx_range..|]. apply (f_equal (fun x => Z.land x 0xff)) in Heq. by rewrite !Hlow in Heq. }
  split; [done|]. rewrite Hidx in Heq. apply lxor_cancel in Heq.
  apply (f_equal (fun x => Z.shiftr x 8)) in Heq. by rewrite !Z.shiftr_shiftl_l, !Z.shiftl_0_r in Heq by lia.
Qed.

Lemma crcStep_inj_crc crc crc' b : 0 <= crc < 65536 -> 0 <= crc' < 65536 -> crcStep crc b = crcStep crc' b -> crc = crc'.
Proof.
  intros Hc Hc' Heq. destruct (crcStep_inj _ _ _ _ Hc Hc' Heq) as [Hidx Hlow]. apply lxor_cancel in Hidx.
  by rewrite (halves crc), (halves crc'), Hidx, Hlow by done.
Qed.
Lemma crcStep_inj_byte crc b b' : 0 <= crc < 65536 -> crcStep crc b = crcStep crc b' -> b = b'.
Proof.
  intros Hc Heq. destruct (crcStep_inj _ _ _ _ Hc Hc Heq) as [Hidx _]. unfold crcIdx in Hidx.
  rewrite !(Z.lxor_comm (Z.shiftr _ _)) in Hidx. apply lxor_cancel in Hidx. unfold byteOf in Hidx.
  rewrite <- (ascii_nat_embedding b), <- (ascii_nat_embedding b'). f_equal. lia.
Qed.

Lemma crcOf_range data crc : 0 <= crc < 65536 -> 0 <= crcOf crc data < 65536.
Proof. revert crc. induction data as [|b data IH]; intros crc Hc; simpl; [done|]. by apply IH, crcStep_range. Qed.
Lemma crcOf_inj data crc crc' : 0 <= crc < 65536 -> 0 <= crc' < 65536 -> crcOf crc data = crcOf crc' data -> crc = crc'.
Proof.
  revert crc crc'. induction data as [|b data IH]; intros crc crc' Hc Hc' Heq; simpl in *; [done|].
  eapply crcStep_inj_crc, IH; try done; by apply crcStep_range.
Qed.
Lemma crcOf_app a b crc : crcOf crc (a +:+ b) = crcOf (crcOf crc a) b.
Proof. revert crc. induction a as [|x a IH]; intros crc; [done|]. apply IH. Qed.

Lemma byteAt_inj x y : 0 <= x < 256 -> 0 <= y < 256 -> byteAt x = byteAt y -> x = y.
Proof.
  intros Hx Hy. unfold byteAt. rewrite !Z.mod_small by done. intros Heq%(f_equal nat_of_ascii).
  rewrite !nat_ascii_embedding in Heq by lia. lia.
Qed.
Lemma Checksum_inj a b : Checksum a = Checksum b -> crcOf 0 a = crcOf 0 b.
Proof.
  unfold Checksum. pose proof (crcOf_range a 0 ltac:(lia)) as Ha. pose proof (crcOf_range b 0 ltac:(lia)) as Hb.
  revert Ha Hb. generalize (crcOf 0 a) as x, (crcOf 0 b) as y. intros x y Hx Hy Heq. injection Heq as Hlo Hhi.
  assert (forall z, byteAt z = byteAt (Z.land z 0xff)) as Hmod.
  { intros z. unfold byteAt. change 0xff with (Z.ones 8). rewrite Z.land_ones by lia. change (2 ^ 8) with 256. by rewrite Z.mod_mod. }
  rewrite (Hmod x), (Hmod y) in Hlo. apply byteAt_inj in Hlo; [|apply land_ff_range..].
  apply byteAt_inj in Hhi; [|by apply high_range..]. by rewrite (halves x), (halves y), Hlo, Hhi by done.
Qed.

(** One wrong byte changes the checksum. *)
Lemma Checksum_detects a c x y : Checksum (a +:+ String x c) = Checksum (a +:+ String y c) -> x = y.
Proof.
  intros Heq%Checksum_inj. rewrite !crcOf_app in Heq. simpl in Heq. pose proof (crcOf_range a 0 ltac:(lia)).
  eapply crcStep_inj_byte, crcOf_inj; try done; by apply crcStep_range.
Qed.

Section roundtrip.
Context `{Base58Laws}.

Lemma strkey_Decode_raw v src vp ck : FastBase58Decoding src = Ok (vp +:+ ck) -> String.length ck = 2%nat -> vp <> ""%string ->
  strkey_Decode v src =
    match vp with
    | EmptyString => Err ErrInvalidVersionByte
    | String b payload =>
        if decide (b = v) then if decide (Checksum vp = ck) then Ok payload else Err ErrInvalidChecksum
        else Err ErrInvalidVersionByte
    end.
Proof.
  intros Hd Hck Hvp. destruct vp as [|b payload]; [done|]. unfold strkey_Decode, decodeString. rewrite Hd.
  pose proof (length_append (String b payload) ck) as Hlen. cbn [String.length] in Hlen. rewrite Hck in Hlen.
  destruct (Nat.ltb_spec (String.length (String b payload +:+ ck)) 3) as [Hs|_]; [lia|].
  cbn [fail_if mbind res_bind]. change (firstByte (String b payload +:+ ck)) with (Ok b). cbn [mbind res_bind].
  rewrite Hlen. replace (S (String.length payload) + 2 - 2)%nat with (S (String.length payload)) by lia.
  replace (S (String.length payload) - 1)%nat with (String.length payload) by lia.
  pose proof (substring_prefix (String b payload) ck) as Hpre. pose proof (substring_suffix (String b payload) ck) as Hsuf.
  pose proof (substring_prefix payload ck) as Hpay. rewrite Hck in Hsuf. cbn [String.length] in Hpre, Hsuf.
  change (substring 1 (String.length payload) (String b payload +:+ ck)) with
    (substring 0 (String.length payload) (payload +:+ ck)).
  rewrite Hpre, Hsuf, Hpay.
  destruct (decide (b = v)) as [->|Hb]; [rewrite bool_decide_eq_true_2 by done|by rewrite bool_decide_eq_false_2].
  cbn [negb fail_if mbind res_bind]. unfold crc_Validate. case_decide as Hc.
  - by rewrite bool_decide_eq_true_2.
  - by rewrite bool_decide_eq_false_2.
Qed.

(** C33: An encoded key is decoded to itself under its own version and refused under any
    other, and a string in which a single byte of the version, the key or the checksum was
    changed is decoded under no version. *)
Theorem strkey_safe (v w : VersionByte) (src : bytes) (s : string) :
  strkey_Encode v src = Ok s ->
  strkey_Decode w s = (if decide (v = w) then Ok src else Err ErrInvalidVersionByte) /\
  forall a c x y s', FastBase58Decoding s = Ok (a +:+ String x c) -> x <> y ->
    FastBase58Decoding s' = Ok (a +:+ String y c) -> exists e, strkey_Decode w s' = Err e.
Proof.
  intros Henc. injection Henc as <-. set (raw := String v src). split.
  { erewrite (strkey_Decode_raw w _ raw (Checksum raw)) by (done || apply Base58_law). unfold raw at 1.
    by repeat case_decide. }
  intros a c x y s'. rewrite Base58_law. intros Heq Hxy Hs'. injection Heq as Heq.
  (* the changed byte is before the checksum or in it *)
  assert (exists vp ck, a +:+ String y c = vp +:+ ck /\ String.length ck = 2%nat /\ vp <> ""%string /\ Checksum vp <> ck)
    as (vp & ck & Hraw & Hlen & Hvp & Hbad).
  { assert (String.length (Checksum raw) = 2%nat) as Hck by done.
    apply (f_equal String.length) in Heq as Hlen. rewrite !length_append in Hlen. simpl in Hlen.
    destruct (Nat.le_gt_cases 2 (String.length c)) as [Hc|Hc].
    - destruct (string_cut c (String.length c - 2)) as (c1 & c2 & -> & Hc1); [lia|]. rewrite length_append in *.
      change (String x (c1 +:+ c2)) with (String x c1 +:+ c2) in Heq. rewrite <- append_assoc in Heq. apply append_inj_length in Heq as [Hr Hc2]; [|rewrite length_append; simpl in *; lia].
      exists (a +:+ String y c1), (Checksum raw). split_and!; [rewrite Hc2, append_assoc; done|done|by destruct a|].
      rewrite Hr. intros Hd. apply Hxy. symmetry. by apply Checksum_detects in Hd.
    - destruct (string_cut a (String.length raw)) as (a1 & a2 & -> & Ha1); [simpl in *; lia|].
      rewrite append_assoc in Heq. apply append_inj_length in Heq as [Hr Hc2]; [|done].
      exists a1, (a2 +:+ String y c). split_and!; [by rewrite append_assoc| |by subst a1|].
      + rewrite Hc2 in Hck. rewrite length_append in *. exact Hck.
      + rewrite <- Hr, Hc2. intros Hd. apply append_inj_length in Hd as [_ Hd]; [|done]. congruence. }
  rewrite Hraw in Hs'. rewrite (strkey_Decode_raw w s' vp ck) by done. destruct vp as [|b payload]; [by eexists|].
  repeat case_decide; eauto. done.
Qed.
End roundtrip.

(** A toy base 58: one character in front of the bytes. *)
#[local] Instance toyBase58 : Base58 := {
  FastBase58Encoding b := String "z" b;
  FastBase58Decoding s := match s with String "z" b => Ok b | _ => Err (GoError "no base 58") end;
}.
#[local] Instance toyBase58Laws : Base58Laws.
Proof. by split. Qed.

Lemma strkey_safe_witness :
  let s := encoded (strkey_Encode AccountAddressVersionByte "key") in
  strkey_Decode AccountAddressVersionByte s = Ok "key"%string /\
  exists e, strkey_Decode AccountAddressVersionByte
    (FastBase58Encoding (String "[" ("kez" +:+ Checksum (String "[" "key")))) = Err e.
Proof.
  intros s.
  destruct (strkey_safe AccountAddressVersionByte AccountAddressVersionByte "key" s)
    as [Hr Hd]; [vm_compute; reflexivity|].
  split; [exact Hr|].
  apply (Hd "[ke"%string (Checksum (String "[" "key")) "y"%char "z"%char); [vm_compute; reflexivity|discriminate|vm_compute; reflexivity].
Defined.
