(* ===== verification/PubSub.v ===== *)
(** Publish/subscribe (src/commonspace/pubsub: dedup.go, ratelimit.go, sign.go, service.go).

    A service serves the subscriptions of the streams of its peers, keeps those of its own
    handlers, relays messages as a node and receives them as a client.  The rate limiter of
    one peer is a library, the class [Limiter]; the queues are those of [StreamPool].  What
    the host plugs in is the record [Deps].  A task that [Send] hands to the dial pool waits
    in its queue with the peers it is for; a handler is a number, and the calls of handlers
    and of the status observer are a log.  A handler of the service is one step; the pool
    removes a stream before the service is told ([onStreamClose]), and these are two. *)

From Stdlib Require Import ZArith Lia String Ascii.
From stdpp Require Import base option list gmap strings.
From S2P Require Import Prelude Crypto AclModels AclState AclValidator AclApply AclStorage AclKeep AclList.
From S2P Require Import TreeModels ChangeBuilder StrKey Topics StreamPool.

Local Open Scope Z_scope.

(** ** Duplicates *)

Definition msgIdLen : nat := 16.

Record msgIdDedup := mkMsgIdDedup {
  dd_set : gset string;
  dd_ring : list string;
  dd_pos : nat;
  dd_full : bool;
}.
(** The ring is made of zero bytes. *)
Fixpoint zeros (n : nat) : string := match n with O => EmptyString | S n => String zero (zeros n) end.
Definition newMsgIdDedup (size : nat) : msgIdDedup := mkMsgIdDedup ∅ (replicate size (zeros msgIdLen)) 0 false.

Definition seen (id : bytes) : ST msgIdDedup bool := fun d =>
  if decide (String.length id <> msgIdLen) then (d, Ok false)
  else if decide (id ∈ dd_set d) then (d, Ok true)
  else match dd_ring d !! dd_pos d with
       | None => (d, Err (GoPanic "index out of range"))
       | Some oldest =>
           let set := if dd_full d then dd_set d ∖ {[oldest]} else dd_set d in
           let pos := S (dd_pos d) in
           let ring := <[dd_pos d := id]> (dd_ring d) in
           if decide (pos = length ring) then (mkMsgIdDedup ({[id]} ∪ set) ring 0 true, Ok false)
           else (mkMsgIdDedup ({[id]} ∪ set) ring pos (dd_full d), Ok false)
       end.

(** ** Rates *)

(** [rate.Limiter]: a bucket and whether it gives a token at a time. *)
Class Limiter (L : Type) := {
  NewLimiter : Z -> Z -> L;
  lim_Allow : Z -> L -> L * bool;
}.

Definition rateLimiterIdleTimeout : Z := 60 * 1000.

Section rate.
Context {L : Type} `{Limiter L}.

Record peerRateLimiter := mkPeerRateLimiter {
  rl_peers : gmap string (L * Z);
  rl_rps : Z;
  rl_burst : Z;
  rl_lastGC : Z;
}.
Definition newPeerRateLimiter (now rps burst : Z) : peerRateLimiter := mkPeerRateLimiter ∅ rps burst now.

(** [allow] at a time: peers that were idle are forgotten first. *)
Definition allow (now : Z) (peerId : string) (r : peerRateLimiter) : peerRateLimiter * bool :=
  let '(peers, lastGC) :=
    if rateLimiterIdleTimeout <? now - rl_lastGC r
    then (filter (fun x => now - x.2.2 <= rateLimiterIdleTimeout) (rl_peers r), now)
    else (rl_peers r, rl_lastGC r) in
  let limiter := match peers !! peerId with Some (l, _) => l | None => NewLimiter (rl_rps r) (rl_burst r) end in
  let '(limiter, ok) := lim_Allow now limiter in
  (mkPeerRateLimiter (<[peerId := (limiter, now)]> peers) (rl_rps r) (rl_burst r) lastGC, ok).
End rate.
Arguments peerRateLimiter L : clear implicits.

(** ** Messages and signatures *)

Record Publish := mkPublish {
  pb_SpaceId : string;
  pb_Topic : string;
  pb_MsgId : bytes;
  pb_KeyId : string;
  pb_Payload : bytes;
  pb_Identity : bytes;
  pb_Signature : bytes;
  pb_TimestampMilli : Z;
  pb_Relayed : bool;
}.

Inductive ErrCode :=
| Unexpected | NotAMember | NotResponsible | RateLimited | TooManyTopics | InvalidMessage | TopicNotOwned | InvalidTopic.

Record Status := mkStatus {
  ss_SpaceId : string;
  ss_Topics : list string;
  ss_Code : ErrCode;
  ss_MsgId : bytes;
}.

Inductive PubSubMessage :=
| MSubscribe (spaceId : string) (topics : list string)
| MUnsubscribe (spaceId : string) (topics : list string)
| MPublish (p : Publish)
| MStatus (s : Status)
| MNone.

(** Messages of this service are not told their peer. *)
#[global] Instance PubSubMessage_PeerMessage : PeerMessage PubSubMessage := { addressed _ m := m }.

Definition ErrInvalidMessage := GoError "invalid message".
Definition ErrTopicNotOwned := GoError "topic not owned".
Definition ErrTooManyTopics := GoError "too many topics".

(** [binary.LittleEndian]: [n] bytes of a number. *)
Fixpoint littleEndian (n : nat) (v : Z) : bytes :=
  match n with
  | O => EmptyString
  | S n => String (byteAt v) (littleEndian n (Z.shiftr v 8))
  end.

Definition signPrefix : string := "anysync:pubsub:v1".

(** A field with its length in front, as a 32-bit number. *)
Definition signField (f : bytes) : bytes := littleEndian 4 (Z.of_nat (String.length f)) +:+ f.
Definition publishSignData (p : Publish) : bytes :=
  signPrefix +:+ signField (pb_SpaceId p) +:+ signField (pb_Topic p) +:+ signField (pb_MsgId p) +:+
  signField (pb_KeyId p) +:+ littleEndian 8 (pb_TimestampMilli p) +:+ pb_Payload p.

Section sign.
Context `{CryptoPrims} `{SealPrims}.

Definition signPublish (key : PrivKey) (p : Publish) : res Publish :=
  identity ← PubKey_Marshall (GetPublic key);
  signature ← PrivKey_Sign key (publishSignData p);
  Ok (mkPublish (pb_SpaceId p) (pb_Topic p) (pb_MsgId p) (pb_KeyId p) (pb_Payload p) identity signature
        (pb_TimestampMilli p) (pb_Relayed p)).

Definition identityOf (p : Publish) : res PubKey := UnmarshalEd25519PublicKeyProto (pb_Identity p).
Definition pub_verifySignature (k : PubKey) (p : Publish) : res unit :=
  ok ← PubKey_Verify k (publishSignData p) (pb_Signature p);
  fail_if (negb ok) ErrInvalidMessage.
Definition verifyPublish (p : Publish) : res PubKey :=
  k ← identityOf p;
  pub_verifySignature k p ;;
  Ok k.
End sign.

(** ** The service *)

Record Config := mkConfig {
  cf_MaxPayloadSize : Z;
  cf_MaxPatternsPerStream : Z;
  cf_MaxPatternsPerSpace : Z;
  cf_PublishRps : Z;
  cf_PublishBurst : Z;
  cf_WriteQueueSize : Z;
  cf_DispatchQueueSize : Z;
  cf_DedupSize : Z;
  cf_MaxTimestampSkew : Z;
  cf_DialQueueSize : Z;
}.
Definition orDefault (v d : Z) : Z := if v <=? 0 then d else v.
(** Times are in milliseconds; the rate, a float in the code, is a whole number. *)
Definition withDefaults (c : Config) : Config := mkConfig
  (orDefault (cf_MaxPayloadSize c) (64 * 1024))
  (orDefault (cf_MaxPatternsPerStream c) 1000)
  (orDefault (cf_MaxPatternsPerSpace c) 100)
  (orDefault (cf_PublishRps c) 30)
  (orDefault (cf_PublishBurst c) 60)
  (orDefault (cf_WriteQueueSize c) 100)
  (orDefault (cf_DispatchQueueSize c) 100)
  (orDefault (cf_DedupSize c) 4096)
  (orDefault (cf_MaxTimestampSkew c) (5 * 60 * 1000))
  (orDefault (cf_DialQueueSize c) 100).

(** [Membership], [Crypto], [Peers] and [Relay]; nil is [None]. *)
Record PubCrypto := mkPubCrypto {
  pc_Encrypt : string -> bytes -> res (string * bytes);
  pc_Decrypt : string -> string -> bytes -> res bytes;
}.
Record Relay := mkRelay {
  ry_IsResponsible : string -> bool;
  ry_IsResponsibleNode : string -> string -> bool;
}.
Record Deps := mkDeps {
  dp_Membership : option (string -> PubKey -> bool);
  dp_Crypto : option PubCrypto;
  dp_Peers : bool;
  dp_Relay : option Relay;
  dp_OnStatus : bool;
}.

(** What a message comes with: its stream, the identity of the handshake, the time. *)
Record Ctx := mkCtx {
  cx_streamId : option Z;
  cx_identity : option bytes;
  cx_now : Z;
}.
Definition ErrIdentityNotFoundInContext := GoError "identity not found in context".
Definition CtxIdentity (c : Ctx) : res bytes := opt_or (cx_identity c) ErrIdentityNotFoundInContext.
Definition CtxPubKey `{CryptoPrims} (c : Ctx) : res PubKey :=
  identity ← CtxIdentity c; UnmarshalEd25519PublicKeyProto identity.

Record streamInterest := mkStreamInterest {
  si_account : string;
  si_bySpace : gmap string (gset string);
  si_total : Z;
}.

Record localSub := mkLocalSub { ls_id : Z; ls_h : nat }.

Record dispatchItem := mkDispatchItem {
  di_patterns : list string;
  di_spaceId : string;
  di_topic : string;
  di_identity : PubKey;
  di_payload : bytes;
}.

(** The peers a task is for. *)
Inductive Target := SpacePeers (spaceId : string) | OtherResponsiblePeers (spaceId : string).

Inductive PubEvent :=
| EvHandler (h : nat) (spaceId topic : string) (identity : PubKey) (payload : bytes)
| EvStatus (peerId : string) (s : Status).

Definition interestTag (spaceId pattern : string) : string := spaceId +:+ "/" +:+ pattern.

(** The members of a set, in the order its map is ranged over. *)
Definition setRange `{MapRange} (m : gset string) : list string := fst <$> map_range (gset_to_gmap tt m).

Section service.
Context `{CryptoPrims} `{SealPrims} `{Base58} `{MapRange} {L : Type} `{Limiter L}
  {Q DQ TQ : Type} `{MsgQueue PubSubMessage Q} `{MsgQueue dispatchItem DQ}
  `{MsgQueue (PubSubMessage * Target) TQ}.

Record service := mkService {
  sv_deps : Deps;
  sv_cfg : Config;
  sv_key : PrivKey;
  sv_pool : streamPool Q;
  sv_dial : TQ;
  (** serving side *)
  sv_remote : gmap string patternTrie;
  sv_streams : gmap Z streamInterest;
  (** client side *)
  sv_localTrie : gmap string patternTrie;
  sv_localSubs : gmap string (gmap string (list localSub));
  sv_nextSubId : Z;
  sv_localTopic : gmap string Z;
  sv_dedup : msgIdDedup;
  sv_rate : peerRateLimiter L;
  sv_dispatch : DQ;
  sv_resync : bool;
  sv_events : list PubEvent;
}.
Implicit Types (s : service).

Abbreviation SV := (ST service).

(** [Init] *)
Definition newService (deps : Deps) (config : Config) (key : PrivKey) (now : Z) : service :=
  let cfg := withDefaults config in
  mkService deps cfg key NewStreamPool (mq_New (cf_DialQueueSize cfg)) ∅ ∅ ∅ ∅ 0 ∅
    (newMsgIdDedup (Z.to_nat (cf_DedupSize cfg)))
    (newPeerRateLimiter now (cf_PublishRps cfg) (cf_PublishBurst cfg))
    (mq_New (cf_DispatchQueueSize cfg)) false [].

Definition set_pool v s := mkService (sv_deps s) (sv_cfg s) (sv_key s) v (sv_dial s) (sv_remote s) (sv_streams s)
  (sv_localTrie s) (sv_localSubs s) (sv_nextSubId s) (sv_localTopic s) (sv_dedup s) (sv_rate s) (sv_dispatch s)
  (sv_resync s) (sv_events s).
Definition set_dial v s := mkService (sv_deps s) (sv_cfg s) (sv_key s) (sv_pool s) v (sv_remote s) (sv_streams s)
  (sv_localTrie s) (sv_localSubs s) (sv_nextSubId s) (sv_localTopic s) (sv_dedup s) (sv_rate s) (sv_dispatch s)
  (sv_resync s) (sv_events s).
Definition set_serving remote streams s := mkService (sv_deps s) (sv_cfg s) (sv_key s) (sv_pool s) (sv_dial s) remote
  streams (sv_localTrie s) (sv_localSubs s) (sv_nextSubId s) (sv_localTopic s) (sv_dedup s) (sv_rate s)
  (sv_dispatch s) (sv_resync s) (sv_events s).
Definition set_local trie subs next topic s := mkService (sv_deps s) (sv_cfg s) (sv_key s) (sv_pool s) (sv_dial s)
  (sv_remote s) (sv_streams s) trie subs next topic (sv_dedup s) (sv_rate s) (sv_dispatch s) (sv_resync s) (sv_events s).
Definition set_dedup v s := mkService (sv_deps s) (sv_cfg s) (sv_key s) (sv_pool s) (sv_dial s) (sv_remote s)
  (sv_streams s) (sv_localTrie s) (sv_localSubs s) (sv_nextSubId s) (sv_localTopic s) v (sv_rate s) (sv_dispatch s)
  (sv_resync s) (sv_events s).
Definition set_rate v s := mkService (sv_deps s) (sv_cfg s) (sv_key s) (sv_pool s) (sv_dial s) (sv_remote s)
  (sv_streams s) (sv_localTrie s) (sv_localSubs s) (sv_nextSubId s) (sv_localTopic s) (sv_dedup s) v (sv_dispatch s)
  (sv_resync s) (sv_events s).
Definition set_dispatch v s := mkService (sv_deps s) (sv_cfg s) (sv_key s) (sv_pool s) (sv_dial s) (sv_remote s)
  (sv_streams s) (sv_localTrie s) (sv_localSubs s) (sv_nextSubId s) (sv_localTopic s) (sv_dedup s) (sv_rate s) v
  (sv_resync s) (sv_events s).
Definition set_resync v s := mkService (sv_deps s) (sv_cfg s) (sv_key s) (sv_pool s) (sv_dial s) (sv_remote s)
  (sv_streams s) (sv_localTrie s) (sv_localSubs s) (sv_nextSubId s) (sv_localTopic s) (sv_dedup s) (sv_rate s)
  (sv_dispatch s) v (sv_events s).
Definition set_pubEvents v s := mkService (sv_deps s) (sv_cfg s) (sv_key s) (sv_pool s) (sv_dial s) (sv_remote s)
  (sv_streams s) (sv_localTrie s) (sv_localSubs s) (sv_nextSubId s) (sv_localTopic s) (sv_dedup s) (sv_rate s)
  (sv_dispatch s) (sv_resync s) v.

(** *** The pool *)

(** Run a method of the pool; its error is a value, a panic is one. *)
Definition onPool {A} (m : ST (streamPool Q) A) : SV (res A) := fun s =>
  match m (sv_pool s) with
  | (p, Err (GoPanic e)) => (set_pool p s, Err (GoPanic e))
  | (p, r) => (set_pool p s, Ok r)
  end.

Definition ErrOverflowed := GoError "queue is full".
(** [pool.Send]: a task for the dial pool. *)
Definition pool_Send (msg : PubSubMessage) (target : Target) : SV (res unit) := fun s =>
  match mq_TryAdd (msg, target) (sv_dial s) with
  | Some q => (set_dial q s, Ok (Ok tt))
  | None => (s, Ok (Err ErrOverflowed))
  end.

Definition sendStatusMsg (peerId : string) (st : Status) : SV unit :=
  onPool (SendById (MStatus st) [peerId]) ;; mret tt.
Definition sendStatus (peerId spaceId : string) (topics : list string) (code : ErrCode) : SV unit :=
  sendStatusMsg peerId (mkStatus spaceId topics code "").
Definition sendPubStatus (peerId : string) (p : Publish) (code : ErrCode) : SV unit :=
  sendStatusMsg peerId (mkStatus (pb_SpaceId p) [pb_Topic p] code (pb_MsgId p)).

Definition sendInterest (spaceId : string) (patterns : list string) (subscribe : bool) : SV unit :=
  deps ← reads sv_deps;
  if dp_Peers deps then
    pool_Send (if subscribe then MSubscribe spaceId patterns else MUnsubscribe spaceId patterns) (SpacePeers spaceId) ;;
    mret tt
  else mret tt.

(** *** Dispatch *)

Definition enqueueLocalMatched (patterns : list string) (spaceId topic : string) (identity : PubKey) (payload : bytes)
    : SV unit := assigns (fun s =>
  match mq_TryAdd (mkDispatchItem patterns spaceId topic identity payload) (sv_dispatch s) with
  | Some q => set_dispatch q s
  | None => s
  end).
Definition localPatterns s (spaceId topic : string) : list string :=
  match sv_localTrie s !! spaceId with Some trie => Match trie topic [] | None => [] end.
Definition enqueueLocal (spaceId topic : string) (identity : PubKey) (payload : bytes) : SV unit :=
  patterns ← reads (fun s => localPatterns s spaceId topic);
  match patterns with
  | [] => mret tt
  | _ => enqueueLocalMatched patterns spaceId topic identity payload
  end.

Definition subsOf s (spaceId pattern : string) : list localSub :=
  default [] (default ∅ (sv_localSubs s !! spaceId) !! pattern).
(** One round of [dispatchLoop], if there is an item. *)
Definition dispatchOne : SV unit := fun s =>
  match mq_WaitOne (sv_dispatch s) with
  | None => (s, Ok tt)
  | Some (item, q) =>
      let handlers := di_patterns item ≫= (fun pattern => ls_h <$> subsOf s (di_spaceId item) pattern) in
      (set_pubEvents (sv_events s ++ ((fun h =>
         EvHandler h (di_spaceId item) (di_topic item) (di_identity item) (di_payload item)) <$> handlers))%list
         (set_dispatch q s), Ok tt)
  end.

(** *** Client side *)

Definition seenId (id : bytes) : SV bool := fun s =>
  let '(d, r) := seen id (sv_dedup s) in (set_dedup d s, r).

(** [Publish] with the random bytes it draws. *)
Definition Publish_ (now : Z) (msgId : bytes) (spaceId topic : string) (payload : bytes) : SV unit :=
  lifts (ValidateTopic topic) ;;
  cfg ← reads sv_cfg;
  key ← reads sv_key;
  deps ← reads sv_deps;
  lifts (fail_if (cf_MaxPayloadSize cfg <? Z.of_nat (String.length payload)) ErrInvalidMessage) ;;
  let owner := TopicOwner topic in
  lifts (fail_if (negb (bool_decide (owner = "")) && negb (bool_decide (owner = Account (GetPublic key)))) ErrTopicNotOwned) ;;
  '(keyId, enc) ← lifts (match dp_Crypto deps with
                         | Some c => pc_Encrypt c spaceId payload
                         | None => Ok ("", payload)
                         end);
  p ← lifts (signPublish key (mkPublish spaceId topic msgId keyId enc "" "" now false));
  seenId (pb_MsgId p) ;;
  enqueueLocal spaceId topic (GetPublic key) payload ;;
  if dp_Peers deps then r ← pool_Send (MPublish p) (SpacePeers spaceId); lifts r else mret tt.

Definition topicCount s (spaceId : string) : Z := default 0 (sv_localTopic s !! spaceId).

(** The number of the subscription, for the function that ends it. *)
Definition Subscribe_ (spaceId pattern : string) (h : nat) : SV Z :=
  lifts (ValidatePattern pattern) ;;
  cfg ← reads sv_cfg;
  count ← reads (fun s => topicCount s spaceId);
  lifts (fail_if (cf_MaxPatternsPerSpace cfg <=? count) ErrTooManyTopics) ;;
  first ← reads (fun s => bool_decide (subsOf s spaceId pattern = []));
  id ← reads (fun s => (sv_nextSubId s + 1) mod 2 ^ 64);
  assigns (fun s =>
    let trie := default newPatternTrie (sv_localTrie s !! spaceId) in
    let subs := default ∅ (sv_localSubs s !! spaceId) in
    set_local (<[spaceId := if (first : bool) then (trie_Add pattern trie).1 else trie]> (sv_localTrie s))
      (<[spaceId := <[pattern := (subsOf s spaceId pattern ++ [mkLocalSub id h])%list]> subs]> (sv_localSubs s))
      id
      (if (first : bool) then <[spaceId := count + 1]> (sv_localTopic s) else sv_localTopic s) s) ;;
  (if (first : bool) then sendInterest spaceId [pattern] true else mret tt) ;;
  mret id.

(** Without the subscription of that number. *)
Fixpoint dropSub (id : Z) (subs : list localSub) : list localSub :=
  match subs with
  | [] => []
  | sub :: subs => if decide (ls_id sub = id) then subs else sub :: dropSub id subs
  end.
Definition unsubscribe (spaceId pattern : string) (id : Z) : SV unit :=
  subs ← reads (fun s => dropSub id (subsOf s spaceId pattern));
  match subs with
  | [] =>
      assigns (fun s =>
        (* deleting from a nil map does nothing *)
        let localSubs := match sv_localSubs s !! spaceId with
                         | Some m => <[spaceId := delete pattern m]> (sv_localSubs s)
                         | None => sv_localSubs s
                         end in
        match sv_localTrie s !! spaceId with
        | None => set_local (sv_localTrie s) localSubs (sv_nextSubId s) (sv_localTopic s) s
        | Some trie =>
            let trie := (trie_Remove pattern trie).1 in
            if Len trie =? 0 then
              set_local (delete spaceId (sv_localTrie s)) (delete spaceId localSubs) (sv_nextSubId s)
                (delete spaceId (sv_localTopic s)) s
            else
              set_local (<[spaceId := trie]> (sv_localTrie s)) localSubs (sv_nextSubId s)
                (<[spaceId := topicCount s spaceId - 1]> (sv_localTopic s)) s
        end) ;;
      sendInterest spaceId [pattern] false
  | _ =>
      assigns (fun s => set_local (sv_localTrie s)
        (<[spaceId := <[pattern := subs]> (default ∅ (sv_localSubs s !! spaceId))]> (sv_localSubs s))
        (sv_nextSubId s) (sv_localTopic s) s)
  end.

Definition patternsOf s (spaceId : string) : list string :=
  fst <$> map_range (default ∅ (sv_localSubs s !! spaceId)).
Definition SyncInterest (spaceId : string) : SV unit :=
  patterns ← reads (fun s => patternsOf s spaceId);
  deps ← reads sv_deps;
  if bool_decide (patterns = []) || negb (dp_Peers deps) then mret tt
  else r ← pool_Send (MSubscribe spaceId patterns) (SpacePeers spaceId); lifts r.
(** One round of [resyncLoop]: errors are logged. *)
Definition resyncOne : SV unit := fun s =>
  st_each (fun x : string * gmap string (list localSub) => fun s =>
    match SyncInterest x.1 s with
    | (s, Err (GoPanic m)) => (s, Err (GoPanic m))
    | (s, _) => (s, Ok tt)
    end) (map_range (sv_localSubs s)) (set_resync false s).

(** *** Serving side *)

Definition bySpaceOf (strm : streamInterest) (spaceId : string) : gset string := default ∅ (si_bySpace strm !! spaceId).

(** Subscribe to one pattern after the other until a cap is hit. *)
Fixpoint acceptLoop (cfg : Config) (topics : list string) (patterns : gset string) (total : Z) (trie : patternTrie)
    : gset string * Z * patternTrie * list string * list string :=
  match topics with
  | [] => (patterns, total, trie, [], [])
  | pattern :: topics' =>
      if decide (pattern ∈ patterns) then acceptLoop cfg topics' patterns total trie
      else if (cf_MaxPatternsPerSpace cfg <=? Z.of_nat (size patterns)) || (cf_MaxPatternsPerStream cfg <=? total)
      then (patterns, total, trie, [], topics)
      else
        let '(patterns, total, trie, accepted, rejected) :=
          acceptLoop cfg topics' ({[pattern]} ∪ patterns) (total + 1) (trie_Add pattern trie).1 in
        (patterns, total, trie, pattern :: accepted, rejected)
  end.

(** [removeStreamPattern] on the two records: whether it was there. *)
Definition removeStreamPattern (spaceId pattern : string) (x : streamInterest * patternTrie)
    : streamInterest * patternTrie * bool :=
  let '(strm, trie) := x in
  let patterns := bySpaceOf strm spaceId in
  if decide (pattern ∈ patterns) then
    let patterns := patterns ∖ {[pattern]} in
    (mkStreamInterest (si_account strm)
       (if decide (patterns = ∅) then delete spaceId (si_bySpace strm) else <[spaceId := patterns]> (si_bySpace strm))
       (si_total strm - 1), (trie_Remove pattern trie).1, true)
  else (strm, trie, false).
Fixpoint removePatterns (spaceId : string) (patterns : list string) (x : streamInterest * patternTrie)
    : streamInterest * patternTrie * list string :=
  match patterns with
  | [] => (x, [])
  | pattern :: patterns =>
      let '(x, was) := removeStreamPattern spaceId pattern x in
      let '(x, removed) := removePatterns spaceId patterns x in
      (x, if (was : bool) then pattern :: removed else removed)
  end.

(** The records go back, and out when they are empty. *)
Definition pruneStream (streamId : Z) (strm : streamInterest) (m : gmap Z streamInterest) : gmap Z streamInterest :=
  if si_total strm =? 0 then delete streamId m else <[streamId := strm]> m.
Definition pruneSpace (spaceId : string) (trie : patternTrie) (m : gmap string patternTrie) : gmap string patternTrie :=
  if Len trie =? 0 then delete spaceId m else <[spaceId := trie]> m.

(** The guards of [handleSubscribe]: the stream and the identity, or the code to answer. *)
Definition checkSubscribe s (ctx : Ctx) (spaceId : string) (topics : list string) : (Z * PubKey) + ErrCode :=
  match cx_streamId ctx, CtxPubKey ctx with
  | None, _ | Some _, Err _ => inr InvalidMessage
  | Some streamId, Ok identity =>
      match validateSpaceId spaceId with
      | Err _ => inr InvalidTopic
      | Ok _ =>
          if match dp_Relay (sv_deps s) with Some r => negb (ry_IsResponsible r spaceId) | None => false end
          then inr NotResponsible
          else match res_each ValidatePattern topics with
               | Err _ => inr InvalidTopic
               | Ok _ =>
                   if match dp_Membership (sv_deps s) with Some check => negb (check spaceId identity) | None => false end
                   then inr NotAMember
                   else inl (streamId, identity)
               end
      end
  end.

(** Under the lock: record the interest, tag the stream, or take the interest back. *)
Definition acceptSubscribe (streamId : Z) (account : string) (spaceId : string) (topics : list string) : SV (list string) :=
  cfg ← reads sv_cfg;
  trie ← reads (fun s => default newPatternTrie (sv_remote s !! spaceId));
  strm ← reads (fun s => default (mkStreamInterest account ∅ 0) (sv_streams s !! streamId));
  let '(patterns, total, trie, accepted, rejected) :=
    acceptLoop cfg topics (bySpaceOf strm spaceId) (si_total strm) trie in
  let strm := mkStreamInterest (si_account strm) (<[spaceId := patterns]> (si_bySpace strm)) total in
  assigns (fun s => set_serving (<[spaceId := trie]> (sv_remote s)) (<[streamId := strm]> (sv_streams s)) s) ;;
  (match accepted with
   | [] => mret tt
   | _ =>
       r ← onPool (AddTagsCtx (Some streamId) (interestTag spaceId <$> accepted));
       match r with
       | Ok _ => mret tt
       | Err _ =>
           let '(strm, trie, _) := removePatterns spaceId accepted (strm, trie) in
           assigns (fun s => set_serving (pruneSpace spaceId trie (sv_remote s))
             (pruneStream streamId strm (sv_streams s)) s)
       end
   end) ;;
  mret rejected.

Definition handleSubscribe (ctx : Ctx) (peerId spaceId : string) (topics : list string) : SV unit :=
  checked ← reads (fun s => checkSubscribe s ctx spaceId topics);
  match checked with
  | inr code => sendStatus peerId spaceId topics code
  | inl (streamId, identity) =>
      rejected ← acceptSubscribe streamId (Account identity) spaceId topics;
      match rejected with
      | [] => mret tt
      | _ => sendStatus peerId spaceId rejected TooManyTopics
      end
  end.

(** [handleUnsubscribe] under the lock: the tags that are to go. *)
Definition dropInterest (streamId : option Z) (spaceId : string) (topics : list string) : SV (list string) :=
  match streamId with
  | None => mret []
  | Some streamId =>
      found ← reads (fun s => (sv_streams s !! streamId, sv_remote s !! spaceId));
      match found with
      | (Some strm, Some trie) =>
          let patterns := match topics with [] => setRange (bySpaceOf strm spaceId) | _ => topics end in
          let '(strm, trie, removed) := removePatterns spaceId patterns (strm, trie) in
          assigns (fun s => set_serving (pruneSpace spaceId trie (sv_remote s))
            (pruneStream streamId strm (sv_streams s)) s) ;;
          mret (interestTag spaceId <$> removed)
      | _ => mret []
      end
  end.
(** The lock is released before the tags go. *)
Definition dropTags (streamId : option Z) (tags : list string) : SV unit :=
  match tags with
  | [] => mret tt
  | _ => onPool (RemoveTagsCtx streamId tags) ;; mret tt
  end.
Definition handleUnsubscribe (ctx : Ctx) (spaceId : string) (topics : list string) : SV unit :=
  tags ← dropInterest (cx_streamId ctx) spaceId topics;
  dropTags (cx_streamId ctx) tags.

(** *** Leaving *)

(** Take the interest in a space from a stream that is to go, and its patterns from the
    trie, if there is one. *)
Definition evictStream (spaceId : string) (evict : streamInterest -> bool) (x : Z * streamInterest) : SV unit :=
  let '(streamId, strm) := x in
  let patterns := bySpaceOf strm spaceId in
  if decide (patterns = ∅) then mret tt
  else if evict strm then
    let strm := mkStreamInterest (si_account strm) (delete spaceId (si_bySpace strm))
                  (si_total strm - Z.of_nat (size patterns)) in
    assigns (fun s => set_serving
      (match sv_remote s !! spaceId with
       | Some trie => <[spaceId := foldl (fun trie p => (trie_Remove p trie).1) trie (setRange patterns)]> (sv_remote s)
       | None => sv_remote s
       end) (pruneStream streamId strm (sv_streams s)) s) ;;
    onPool (RemoveTagsById streamId (interestTag spaceId <$> setRange patterns)) ;;
    mret tt
  else mret tt.

Definition evictSpaceStreams (spaceId : string) (evict : streamInterest -> bool) : SV unit :=
  streams ← reads sv_streams;
  st_each (evictStream spaceId evict) (map_range streams) ;;
  assigns (fun s =>
    match sv_remote s !! spaceId with
    | Some trie => set_serving (pruneSpace spaceId trie (sv_remote s)) (sv_streams s) s
    | None => s
    end).
Definition EvictMember (spaceId : string) (identity : PubKey) : SV unit :=
  evictSpaceStreams spaceId (fun strm => bool_decide (si_account strm = Account identity)).
Definition RevalidateMembers (spaceId : string) (isMember : string -> bool) : SV unit :=
  evictSpaceStreams spaceId (fun strm => negb (isMember (si_account strm))).

Definition CloseSpace (spaceId : string) : SV unit :=
  patterns ← reads (fun s => patternsOf s spaceId);
  assigns (fun s => set_local (delete spaceId (sv_localTrie s)) (delete spaceId (sv_localSubs s)) (sv_nextSubId s)
    (delete spaceId (sv_localTopic s)) s) ;;
  (if decide (patterns = []) then mret tt else sendInterest spaceId patterns false) ;;
  assigns (fun s => set_serving (delete spaceId (sv_remote s)) (sv_streams s) s) ;;
  streams ← reads sv_streams;
  st_each (evictStream spaceId (fun _ => true)) (map_range streams).

(** The hook of the pool. *)
Definition withdrawSpace (remote : gmap string patternTrie) (x : string * gset string) : gmap string patternTrie :=
  match remote !! x.1 with
  | None => remote
  | Some trie => pruneSpace x.1 (foldl (fun trie p => (trie_Remove p trie).1) trie (setRange x.2)) remote
  end.
Definition onStreamClose (streamId : Z) : SV unit :=
  deps ← reads sv_deps;
  (if dp_Peers deps then assigns (set_resync true) else mret tt) ;;
  strm ← reads (fun s => sv_streams s !! streamId);
  match strm with
  | None => mret tt
  | Some strm => assigns (fun s => set_serving (foldl withdrawSpace (sv_remote s) (map_range (si_bySpace strm)))
                                     (delete streamId (sv_streams s)) s)
  end.

(** *** Publishing *)

(** [fanout] under the lock: the patterns that match. *)
Definition matchRemote (p : Publish) s : list string :=
  match sv_remote s !! pb_SpaceId p with
  | Some trie => Match trie (pb_Topic p) []
  | None => []
  end.
(** The lock is released before the streams are written to. *)
Definition spread (p : Publish) (patterns : list string) : SV unit :=
  match patterns with
  | [] => mret tt
  | _ => onPool (Broadcast (MPublish p) (interestTag (pb_SpaceId p) <$> patterns)) ;; mret tt
  end.
Definition fanout (p : Publish) : SV unit :=
  patterns ← reads (matchRemote p);
  spread p patterns.

(** The guards of [relayPublish] for a message of a client, except the rate. *)
Definition checkRelay s (ctx : Ctx) (p : Publish) : option ErrCode :=
  let identityOk := match CtxIdentity ctx with
                    | Ok id => negb (bool_decide (id = "")) && negb (bool_decide (pb_Identity p = "")) &&
                               bool_decide (id = pb_Identity p)
                    | Err _ => false
                    end in
  if negb identityOk then Some InvalidMessage
  else if match dp_Membership (sv_deps s) with
          | Some check => match CtxPubKey ctx with Ok k => negb (check (pb_SpaceId p) k) | Err _ => true end
          | None => false
          end then Some NotAMember
  else if bool_decide (TopicOwner (pb_Topic p) = "") then None
  else match CtxPubKey ctx with
       | Ok k => if decide (Account k = TopicOwner (pb_Topic p)) then None else Some TopicNotOwned
       | Err _ => Some TopicNotOwned
       end.

Definition relayedCopy (p : Publish) : Publish :=
  mkPublish (pb_SpaceId p) (pb_Topic p) (pb_MsgId p) (pb_KeyId p) (pb_Payload p) (pb_Identity p) (pb_Signature p)
    (pb_TimestampMilli p) true.

Definition relayPublish (relay : Relay) (ctx : Ctx) (peerId : string) (p : Publish) : SV unit :=
  if negb (ry_IsResponsible relay (pb_SpaceId p)) then sendPubStatus peerId p NotResponsible
  else if pb_Relayed p then
    if ry_IsResponsibleNode relay (pb_SpaceId p) peerId then fanout p else mret tt
  else
    checked ← reads (fun s => checkRelay s ctx p);
    match checked with
    | Some code => sendPubStatus peerId p code
    | None =>
        allowed ← (fun s => let '(r, ok) := allow (cx_now ctx) peerId (sv_rate s) in (set_rate r s, Ok ok));
        if (allowed : bool) then
          fanout p ;;
          pool_Send (MPublish (relayedCopy p)) (OtherResponsiblePeers (pb_SpaceId p)) ;;
          mret tt
        else sendPubStatus peerId p RateLimited
    end.

(** The difference of two 64-bit times wraps around. *)
Definition int64 (z : Z) : Z := (z + 2 ^ 63) mod 2 ^ 64 - 2 ^ 63.
Definition isStale s (now timestampMilli : Z) : bool :=
  if timestampMilli =? 0 then false
  else
    let skew := cf_MaxTimestampSkew (sv_cfg s) in
    let delta := int64 (now - timestampMilli) in
    (skew <? delta) || (delta <? - skew).

(** The cheap filters of [receivePublish] and the signature: who sent it. *)
Definition checkReceive s (ctx : Ctx) (p : Publish) : res PubKey :=
  identity ← identityOf p;
  fail_if (match dp_Membership (sv_deps s) with Some check => negb (check (pb_SpaceId p) identity) | None => false end)
    (GoError "not a member") ;;
  let owner := TopicOwner (pb_Topic p) in
  fail_if (negb (bool_decide (owner = "")) && negb (bool_decide (Account identity = owner))) ErrTopicNotOwned ;;
  fail_if (isStale s (cx_now ctx) (pb_TimestampMilli p)) (GoError "stale") ;;
  pub_verifySignature identity p ;;
  Ok identity.

Definition openPayload s (p : Publish) : res bytes :=
  if decide (pb_KeyId p = "") then Ok (pb_Payload p)
  else match dp_Crypto (sv_deps s) with
       | None => Err (GoError "no crypto")
       | Some c => pc_Decrypt c (pb_SpaceId p) (pb_KeyId p) (pb_Payload p)
       end.

Definition receivePublish (ctx : Ctx) (p : Publish) : SV unit :=
  patterns ← reads (fun s => localPatterns s (pb_SpaceId p) (pb_Topic p));
  match patterns with
  | [] => mret tt
  | _ =>
      checked ← reads (fun s => checkReceive s ctx p);
      match checked with
      | Err (GoPanic m) => lifts (Err (GoPanic m))
      | Err _ => mret tt
      | Ok identity =>
          dup ← seenId (pb_MsgId p);
          if (dup : bool) then mret tt
          else
            payload ← reads (fun s => openPayload s p);
            match payload with
            | Err (GoPanic m) => lifts (Err (GoPanic m))
            | Err _ => mret tt
            | Ok payload => enqueueLocalMatched patterns (pb_SpaceId p) (pb_Topic p) identity payload
            end
      end
  end.

Definition handlePublish (ctx : Ctx) (peerId : string) (p : Publish) : SV unit :=
  cfg ← reads sv_cfg;
  deps ← reads sv_deps;
  if negb (bool_decide (String.length (pb_MsgId p) = msgIdLen)) ||
     (cf_MaxPayloadSize cfg <? Z.of_nat (String.length (pb_Payload p)))
  then sendPubStatus peerId p InvalidMessage
  else match ValidateTopic (pb_Topic p) with
       | Err _ => sendPubStatus peerId p InvalidTopic
       | Ok _ =>
           match dp_Relay deps with
           | Some relay => relayPublish relay ctx peerId p
           | None => receivePublish ctx p
           end
       end.

Definition HandleMessage (ctx : Ctx) (peerId : string) (msg : PubSubMessage) : SV unit :=
  match msg with
  | MSubscribe spaceId topics => handleSubscribe ctx peerId spaceId topics
  | MUnsubscribe spaceId topics => handleUnsubscribe ctx spaceId topics
  | MPublish p => handlePublish ctx peerId p
  | MStatus st =>
      deps ← reads sv_deps;
      if dp_OnStatus deps then assigns (fun s => set_pubEvents (sv_events s ++ [EvStatus peerId st])%list s) else mret tt
  | MNone => mret tt
  end.

(** *** Streams *)

(** [HandleStream] and [OpenStream]: a stream joins the pool without tags. *)
Definition joinStream (peerId : res string) : SV (res Z) :=
  cfg ← reads sv_cfg;
  onPool (addStream peerId (cf_WriteQueueSize cfg) []).
(** The pool drops a stream; the hook comes later. *)
Definition leaveStream (streamId : Z) : SV unit := onPool (streamClose streamId) ;; mret tt.
(** A message that waits for a stream is sent. *)
Definition sendWaiting (streamId : Z) : SV unit := onPool (writeOne streamId) ;; mret tt.
(** A worker of the dial pool takes a task, and writes it to a stream of each peer that it
    found; streams it opens join the pool. *)
Definition takeDial : SV unit := fun s =>
  match mq_WaitOne (sv_dial s) with
  | None => (s, Ok tt)
  | Some (_, q) => (set_dial q s, Ok tt)
  end.
Definition sendDialed (msg : PubSubMessage) (ids : list Z) : SV unit := onPool (writeFirst ids msg) ;; mret tt.
End service.

Arguments service L Q DQ TQ : clear implicits.
