(* ===== verification/PubSubMain.v ===== *)
(** The serving side of publish/subscribe: the tries count the streams that hold a pattern,
    and the tags of a stream are its patterns. *)

From Stdlib Require Import ZArith Lia String Ascii.
From stdpp Require Import base option list gmap strings.
From S2P Require Import Prelude Crypto AclModels AclState AclValidator AclApply AclStorage AclKeep AclList.
From S2P Require Import TreeModels ChangeBuilder Topics StreamPool StrKey PubSub.

Local Open Scope Z_scope.

(** ** Tags *)

Lemma validateSpaceId_Ok sp : validateSpaceId sp = Ok tt <-> sp <> ""%string /\ IndexByte sp "/" = None.
Proof.
  unfold validateSpaceId. rewrite fail_if_Ok, orb_false_iff, !bool_decide_eq_false, <- eq_None_not_Some. done.
Qed.

(** A tag says which pattern of which space it is for. *)
Lemma interestTag_inj sp1 sp2 p1 p2 : validateSpaceId sp1 = Ok tt -> validateSpaceId sp2 = Ok tt ->
  interestTag sp1 p1 = interestTag sp2 p2 -> sp1 = sp2 /\ p1 = p2.
Proof.
  rewrite !validateSpaceId_Ok. intros [_ H1] [_ H2]. unfold interestTag. revert sp2 H1 H2.
  induction sp1 as [|x sp1 IH]; intros [|y sp2] H1 H2 Heq.
  - by injection Heq.
  - injection Heq as <- _. by simpl in H2.
  - injection Heq as -> _. by simpl in H1.
  - injection Heq as <- Heq. simpl in H1, H2. case_decide; [done|].
    destruct (IH sp2) as [-> ->]; [|by destruct (IndexByte sp2 "/")|done..]. by destruct (IndexByte sp1 "/").
Qed.

(** ** Counting *)

(** How many patterns a record holds. *)
Definition sumSizes (m : gmap string (gset string)) : nat := map_fold (fun _ ps n => (size ps + n)%nat) 0%nat m.

Lemma sumSizes_insert_None m sp ps : m !! sp = None -> sumSizes (<[sp := ps]> m) = (size ps + sumSizes m)%nat.
Proof. intros Hm. unfold sumSizes. rewrite map_fold_insert_L; [done|intros; lia|done]. Qed.
Lemma sumSizes_delete m sp : sumSizes m = (size (default ∅ (m !! sp)) + sumSizes (delete sp m))%nat.
Proof.
  destruct (m !! sp) as [ps|] eqn:Hm; simpl.
  - rewrite <- (sumSizes_insert_None (delete sp m) sp ps) by apply lookup_delete_eq. by rewrite insert_delete_id.
  - by rewrite delete_id.
Qed.
Lemma sumSizes_insert m sp ps :
  (sumSizes (<[sp := ps]> m) + size (default ∅ (m !! sp)) = size ps + sumSizes m)%nat.
Proof.
  rewrite (sumSizes_delete m sp), <- insert_delete_eq, sumSizes_insert_None by apply lookup_delete_eq. lia.
Qed.
Lemma sumSizes_zero m sp : sumSizes m = 0%nat -> default ∅ (m !! sp) = ∅.
Proof.
  rewrite (sumSizes_delete m sp). intros Hs. assert (size (default ∅ (m !! sp)) = 0%nat) as Hz by lia.
  by apply size_empty_inv, leibniz_equiv in Hz.
Qed.

Definition record_ok (strm : streamInterest) : Prop := si_total strm = Z.of_nat (sumSizes (si_bySpace strm)).

(** How many records hold a pattern of a space. *)
Definition holders (sp p : string) (streams : gmap Z streamInterest) : nat :=
  size (filter (fun x => p ∈ bySpaceOf x.2 sp) streams).

Definition one (b : bool) : nat := if b then 1%nat else 0%nat.

Lemma holders_insert_None sp p id strm streams : streams !! id = None ->
  holders sp p (<[id := strm]> streams) = (one (bool_decide (p ∈ bySpaceOf strm sp)) + holders sp p streams)%nat.
Proof.
  intros Hid. unfold holders. case_bool_decide as Hp; simpl.
  - rewrite map_filter_insert_True, map_size_insert_None; [done| |done]. by apply map_lookup_filter_None_2; left.
  - rewrite map_filter_insert_not'; [done|done|]. intros y Hy. congruence.
Qed.
Lemma holders_delete sp p id streams :
  holders sp p streams =
    (one (bool_decide (p ∈ from_option (fun strm => bySpaceOf strm sp) ∅ (streams !! id))) +
     holders sp p (delete id streams))%nat.
Proof.
  destruct (streams !! id) as [strm|] eqn:Hid; simpl.
  - rewrite <- (holders_insert_None sp p id strm (delete id streams)) by apply lookup_delete_eq. by rewrite insert_delete_id.
  - rewrite bool_decide_eq_false_2 by set_solver. by rewrite delete_id.
Qed.
Lemma holders_insert sp p id strm streams :
  (holders sp p (<[id := strm]> streams) +
     one (bool_decide (p ∈ from_option (fun strm => bySpaceOf strm sp) ∅ (streams !! id))) =
   one (bool_decide (p ∈ bySpaceOf strm sp)) + holders sp p streams)%nat.
Proof.
  rewrite (holders_delete sp p id streams), <- insert_delete_eq, holders_insert_None by apply lookup_delete_eq. lia.
Qed.
Lemma holders_pos sp p id strm streams : streams !! id = Some strm -> p ∈ bySpaceOf strm sp -> (0 < holders sp p streams)%nat.
Proof. intros Hid Hp. rewrite (holders_delete sp p id), Hid. simpl. rewrite bool_decide_eq_true_2 by done. simpl. lia. Qed.

(** ** The tries follow the records *)

Definition tracksSpace (sp : string) (o : option patternTrie) (streams : gmap Z streamInterest) : Prop :=
  match o with
  | Some trie => exists m, counted trie m /\ forall p, default 0%nat (m !! p) = holders sp p streams
  | None => forall p, holders sp p streams = 0%nat
  end.
Definition tracks (remote : gmap string patternTrie) (streams : gmap Z streamInterest) : Prop :=
  forall sp, tracksSpace sp (remote !! sp) streams.

Lemma tracksSpace_same sp o streams streams' :
  (forall p, holders sp p streams' = holders sp p streams) -> tracksSpace sp o streams -> tracksSpace sp o streams'.
Proof.
  intros Heq. destruct o as [trie|]; simpl.
  - intros (m & Hc & Hm). exists m. split; [done|]. intros p. by rewrite Heq.
  - intros Hz p. by rewrite Heq.
Qed.

(** A trie without patterns is as good as none. *)
Lemma tracks_prune sp trie remote streams :
  tracks (<[sp := trie]> remote) streams -> tracks (pruneSpace sp trie remote) streams.
Proof.
  intros Ht. unfold pruneSpace. destruct (Z.eqb_spec (Len trie) 0) as [Hz|]; [|done]. intros sp'. specialize (Ht sp').
  destruct (decide (sp' = sp)) as [->|]; [|by rewrite lookup_delete_ne; rewrite lookup_insert_ne in Ht].
  rewrite lookup_insert_eq in Ht. rewrite lookup_delete_eq. destruct Ht as (m & Hc & Hm). simpl. intros p.
  rewrite <- Hm. pose proof (ct_size _ _ Hc) as Hs. unfold Len in Hz. rewrite Hz in Hs.
  assert (m = ∅) as -> by (apply map_size_empty_inv; lia). by rewrite lookup_empty.
Qed.
(** A record without patterns too. *)
Lemma holders_prune sp p id strm streams : record_ok strm ->
  holders sp p (pruneStream id strm streams) = holders sp p (<[id := strm]> streams).
Proof.
  intros Hok. unfold pruneStream. destruct (Z.eqb_spec (si_total strm) 0) as [Hz|]; [|done].
  rewrite (holders_delete sp p id (<[id := strm]> streams)), lookup_insert_eq, delete_insert_eq. simpl.
  rewrite Hok in Hz. unfold bySpaceOf. rewrite sumSizes_zero by lia. by rewrite bool_decide_eq_false_2 by set_solver.
Qed.
Lemma tracks_pruneStream remote id strm streams : record_ok strm ->
  tracks remote (<[id := strm]> streams) -> tracks remote (pruneStream id strm streams).
Proof. intros Hok Ht sp. eapply tracksSpace_same; [|apply Ht]. intros p. by apply holders_prune. Qed.

(** One record and one trie change together. *)
Lemma tracks_update remote streams sp id strm trie m m' :
  tracks remote streams -> counted (default newPatternTrie (remote !! sp)) m -> counted trie m' ->
  (forall sp', sp' <> sp -> bySpaceOf strm sp' = from_option (fun strm => bySpaceOf strm sp') ∅ (streams !! id)) ->
  (forall p, (default 0 (m' !! p) + one (bool_decide (p ∈ from_option (fun strm => bySpaceOf strm sp) ∅ (streams !! id))) =
     default 0 (m !! p) + one (bool_decide (p ∈ bySpaceOf strm sp)))%nat) ->
  tracks (<[sp := trie]> remote) (<[id := strm]> streams).
Proof.
  intros Ht Hc Hc' Hother Hm sp'. destruct (decide (sp' = sp)) as [->|Hne].
  - rewrite lookup_insert_eq. exists m'. split; [done|]. intros p. pose proof (holders_insert sp p id strm streams) as Hh.
    specialize (Hm p). assert (default 0%nat (m !! p) = holders sp p streams); [|lia].
    specialize (Ht sp). destruct (remote !! sp) as [t0|]; simpl in *.
    + destruct Ht as (m0 & Hc0 & Hm0). rewrite <- Hm0. f_equal.
      pose proof (counted_live _ _ Hc p) as H1. rewrite (counted_live _ _ Hc0 p) in H1. destruct (m !! p), (m0 !! p); naive_solver.
    + rewrite Ht. pose proof (counted_live _ _ Hc p) as H1. unfold newPatternTrie in H1. cbn [pt_root] in H1.
      rewrite live_emptyLevel in H1. by destruct (m !! p).
  - rewrite lookup_insert_ne by done. eapply tracksSpace_same; [|apply Ht]. intros p.
    pose proof (holders_insert sp' p id strm streams) as Hh. rewrite Hother in Hh by done. lia.
Qed.

(** ** The loops *)

Lemma bump_lookup p m q : default 0%nat (bump p m !! q) = (default 0 (m !! q) + one (bool_decide (q = p)))%nat.
Proof.
  unfold bump. case_bool_decide as Hq; [subst|]; simpl.
  - rewrite lookup_insert_eq. simpl. lia.
  - rewrite lookup_insert_ne by done. lia.
Qed.
Lemma lower_lookup p m q :
  default 0%nat (lower p m !! q) = (default 0 (m !! q) - one (bool_decide (q = p)))%nat.
Proof.
  unfold lower. case_bool_decide as Hq; [subst|]; simpl.
  - destruct (m !! p) as [[|[|k]]|]; rewrite ?lookup_insert_eq, ?lookup_delete_eq; simpl; lia.
  - destruct (m !! p) as [[|[|k]]|]; rewrite ?lookup_insert_ne, ?lookup_delete_ne by done; lia.
Qed.

Lemma acceptLoop_spec cfg topics A total trie m : counted trie m ->
  forall B total' trie' acc rej, acceptLoop cfg topics A total trie = (B, total', trie', acc, rej) ->
  B = A ∪ list_to_set acc /\ NoDup acc /\ (forall p, p ∈ acc -> p ∉ A /\ p ∈ topics) /\
  total' = total + Z.of_nat (length acc) /\ size B = (size A + length acc)%nat /\
  (Z.of_nat (size A) <= cf_MaxPatternsPerSpace cfg -> Z.of_nat (size B) <= cf_MaxPatternsPerSpace cfg) /\
  (total <= cf_MaxPatternsPerStream cfg -> total' <= cf_MaxPatternsPerStream cfg) /\
  exists m', counted trie' m' /\
    forall p, default 0%nat (m' !! p) = (default 0 (m !! p) + one (bool_decide (p ∈ acc)))%nat.
Proof.
  revert A total trie m. induction topics as [|t topics IH]; intros A total trie m Hc B total' trie' acc rej Hl; simpl in Hl.
  - simplify_eq. simpl. split_and!; [set_solver|constructor|set_solver|lia|lia|done|done|]. exists m. split; [done|].
    intros p. simpl. lia.
  - case_decide as Ht.
    { destruct (IH _ _ _ _ Hc _ _ _ _ _ Hl) as (H1 & H2 & H3 & H4 & H5 & H6 & H7 & H8).
      clear IH. split_and!; [done|done|clear -H3; set_solver|done..]. }
    destruct (_ || _) eqn:Hcap.
    { clear IH. simplify_eq. simpl. split_and!; [set_solver|constructor|set_solver|lia|lia|done|done|]. exists m. split; [done|].
      intros p. simpl. lia. }
    destruct (acceptLoop cfg topics _ _ _) as [[[[B0 total0] trie0] acc0] rej0] eqn:Hrec. simplify_eq.
    destruct (counted_Add _ _ Hc t) as [Hc1 _].
    destruct (IH _ _ _ _ Hc1 _ _ _ _ _ Hrec) as (-> & Hn & Hin & -> & Hsz & Hcap1 & Hcap2 & m' & Hc' & Hm').
    clear IH Hrec.
    apply orb_false_iff in Hcap as [Hs1%Z.leb_gt Hs2%Z.leb_gt].
    assert (size ({[t]} ∪ A) = S (size A)) as HsA by (rewrite size_union, size_singleton by (clear -Ht; set_solver); lia).
    split_and!; simpl.
    + clear. set_solver.
    + constructor; [|done]. intros Hx. apply Hin in Hx as [Hx _]. clear -Hx. set_solver.
    + intros p [->|Hp]%elem_of_cons; [clear -Ht; set_solver|]. apply Hin in Hp. clear -Hp. set_solver.
    + lia.
    + rewrite Hsz, HsA. lia.
    + intros _. apply Hcap1. rewrite HsA. lia.
    + intros _. rewrite <- Z.add_assoc in Hcap2. lia.
    + exists m'. split; [done|]. intros p. rewrite Hm', bump_lookup. destruct (decide (p = t)) as [->|Hp].
      * rewrite bool_decide_eq_true_2 by done. rewrite (bool_decide_eq_false_2 (t ∈ acc0)), bool_decide_eq_true_2;
          [simpl; lia|by left|]. intros Hx. apply Hin in Hx as [Hx _]. clear -Hx. set_solver.
      * rewrite bool_decide_eq_false_2 by done. simpl. rewrite Nat.add_0_r. f_equal. f_equal. apply bool_decide_ext.
        rewrite elem_of_cons. clear -Hp. naive_solver.
Qed.

(** Removing patterns from a record and its trie. *)
Lemma removePatterns_spec sp patterns strm trie m : counted trie m -> record_ok strm ->
  (forall p, p ∈ bySpaceOf strm sp -> (0 < default 0 (m !! p))%nat) ->
  forall strm' trie' removed, removePatterns sp patterns (strm, trie) = (strm', trie', removed) ->
  record_ok strm' /\ si_account strm' = si_account strm /\
  bySpaceOf strm' sp = bySpaceOf strm sp ∖ list_to_set patterns /\
  (forall sp', sp' <> sp -> bySpaceOf strm' sp' = bySpaceOf strm sp') /\
  (si_total strm' <= si_total strm) /\
  (forall p, p ∈ removed <-> p ∈ patterns /\ p ∈ bySpaceOf strm sp) /\
  exists m', counted trie' m' /\
    forall p, (default 0 (m' !! p) + one (bool_decide (p ∈ bySpaceOf strm sp)) =
               default 0 (m !! p) + one (bool_decide (p ∈ bySpaceOf strm' sp)))%nat.
Proof.
  revert strm trie m. induction patterns as [|t patterns IH]; intros strm trie m Hc Hok Hpos strm' trie' removed Hr; simpl in Hr.
  - simplify_eq. split_and!; [done|done|set_solver|done|lia|set_solver|]. exists m. done.
  - case_decide as Ht; cycle 1.
    { destruct (removePatterns sp patterns (strm, trie)) as [[strm1 trie1] removed1] eqn:Hrec. simplify_eq.
      destruct (IH _ _ _ Hc Hok Hpos _ _ _ Hrec) as (H1 & H2 & H3 & H4 & H5 & H6 & H7).
      clear IH. split_and!; [done|done|clear -H3 Ht; set_solver|done|done|clear -H6 Ht; set_solver|done]. }
    set (strm1 := mkStreamInterest (si_account strm) _ _) in Hr.
    destruct (removePatterns sp patterns (strm1, (trie_Remove t trie).1)) as [[strm2 trie2] removed2] eqn:Hrec. simplify_eq.
    assert (bySpaceOf strm1 sp = bySpaceOf strm sp ∖ {[t]}) as Hb1.
    { unfold bySpaceOf at 1, strm1. simpl. case_decide as He; [by rewrite lookup_delete_eq|by rewrite lookup_insert_eq]. }
    assert (forall sp', sp' <> sp -> bySpaceOf strm1 sp' = bySpaceOf strm sp') as Ho1.
    { intros sp' Hne. unfold bySpaceOf, strm1. simpl. case_decide; by rewrite ?lookup_delete_ne, ?lookup_insert_ne by done. }
    assert (size (bySpaceOf strm sp) = S (size (bySpaceOf strm sp ∖ {[t]}))) as Hsz.
    { clear -Ht. rewrite size_difference, size_singleton by set_solver. assert (size (bySpaceOf strm sp) <> 0%nat); [|lia].
      intros Hz%size_empty_inv. set_solver. }
    assert (record_ok strm1) as Hok1.
    { unfold record_ok, strm1. simpl. rewrite Hok. case_decide as He.
      - pose proof (sumSizes_delete (si_bySpace strm) sp) as Hd. unfold bySpaceOf in *. rewrite He, size_empty in Hsz. lia.
      - pose proof (sumSizes_insert (si_bySpace strm) sp (bySpaceOf strm sp ∖ {[t]})) as Hd. unfold bySpaceOf in *. lia. }
    destruct (counted_Remove _ _ Hc t) as [Hc1 _].
    destruct (IH _ _ _ Hc1 Hok1) with (strm' := strm') (trie' := trie') (removed := removed2)
      as (H1 & H2 & H3 & H4 & H5 & H6 & m' & H7 & H8); [|done|].
    { intros p. rewrite Hb1, elem_of_difference, elem_of_singleton. intros [Hp Hne]. rewrite lower_lookup.
      rewrite bool_decide_eq_false_2 by done. specialize (Hpos p Hp). simpl. lia. }
    clear IH Hrec. split_and!; [done|by rewrite H2|rewrite H3, Hb1; clear; set_solver|intros; by rewrite H4, Ho1| | |].
    + unfold strm1 in H5. simpl in H5. lia.
    + intros p. rewrite elem_of_cons, H6, Hb1. clear -Ht. destruct (decide (p = t)); set_solver.
    + exists m'. split; [done|]. intros p. specialize (H8 p). rewrite lower_lookup, Hb1 in H8.
      destruct (decide (p = t)) as [->|Hne].
      * specialize (Hpos t Ht). rewrite (bool_decide_eq_true_2 (t = t)), (bool_decide_eq_false_2 (t ∈ _ ∖ _)) in H8 by (clear; set_solver).
        rewrite (bool_decide_eq_true_2 (t ∈ bySpaceOf strm sp)) by done. simpl in *. lia.
      * rewrite (bool_decide_eq_false_2 (p = t)) in H8 by done.
        rewrite (bool_decide_ext (p ∈ bySpaceOf strm sp) (p ∈ bySpaceOf strm sp ∖ {[t]})) by (clear -Hne; set_solver). simpl in H8. lia.
Qed.

(** All patterns of a record at once. *)
Lemma removeAll_spec l trie m : counted trie m -> NoDup l -> (forall p, p ∈ l -> (0 < default 0 (m !! p))%nat) ->
  exists m', counted (foldl (fun trie p => (trie_Remove p trie).1) trie l) m' /\
    forall p, (default 0 (m' !! p) + one (bool_decide (p ∈ l)) = default 0 (m !! p))%nat.
Proof.
  intros Hc Hn. revert trie m Hc. induction Hn as [|t l Ht Hn IH]; intros trie m Hc Hpos; simpl.
  - exists m. split; [done|]. intros p. simpl. lia.
  - destruct (counted_Remove _ _ Hc t) as [Hc1 _]. destruct (IH _ _ Hc1) as (m' & Hc' & Hm').
    { intros p Hp. rewrite lower_lookup, bool_decide_eq_false_2 by (by intros ->). simpl.
      specialize (Hpos p ltac:(by right)). lia. }
    exists m'. split; [done|]. intros p. specialize (Hm' p). rewrite lower_lookup in Hm'.
    destruct (decide (p = t)) as [->|Hne].
    + specialize (Hpos t ltac:(by left)). rewrite (bool_decide_eq_true_2 (t ∈ t :: l)) by (by left).
      rewrite (bool_decide_eq_true_2 (t = t)), (bool_decide_eq_false_2 (t ∈ l)) in Hm' by done. simpl in *. lia.
    + rewrite (bool_decide_eq_false_2 (p = t)) in Hm' by done.
      rewrite (bool_decide_ext (p ∈ t :: l) (p ∈ l)) by (rewrite elem_of_cons; naive_solver). simpl in Hm'. lia.
Qed.

Lemma setRange_spec `{MapRange} (m : gset string) : NoDup (setRange m) /\ forall p, p ∈ setRange m <-> p ∈ m.
Proof.
  unfold setRange. pose proof (map_range_perm (gset_to_gmap tt m)) as Hp. split.
  - rewrite Hp. apply NoDup_fst_map_to_list.
  - intros p. rewrite Hp, list_elem_of_fmap. split.
    + intros ([q []] & -> & Hq%elem_of_map_to_list). simpl. by apply lookup_gset_to_gmap_Some in Hq as [? _].
    + intros Hm. exists (p, tt). split; [done|]. apply elem_of_map_to_list, lookup_gset_to_gmap_Some. done.
Qed.

(** ** The invariant *)

Section serving.
Context {Q : Type} `{MsgQueueLaws PubSubMessage Q}.
(** The tags of streams that have given up the interest and are still to lose the tag. *)
Context {late : gset (Z * string)}.
Implicit Types (pool : streamPool Q) (remote : gmap string patternTrie) (streams : gmap Z streamInterest).

(** What a stream subscribed to in a space. *)
Definition interestIn streams (id : Z) (sp : string) : gset string :=
  from_option (fun strm => bySpaceOf strm sp) ∅ (streams !! id).

Definition capped (cfg : Config) (strm : streamInterest) : Prop :=
  record_ok strm /\ si_total strm <= cf_MaxPatternsPerStream cfg /\
  forall sp, Z.of_nat (size (bySpaceOf strm sp)) <= cf_MaxPatternsPerSpace cfg.

(** The tags for an interest. *)
Definition tagsOf (interest : string -> gset string) (t : string) : Prop :=
  exists sp p, t = interestTag sp p /\ p ∈ interest sp.

(** [pending]: the streams that left the pool and whose hook has not run. *)
Record serving (pending : gset Z) (cfg : Config) pool remote streams : Prop := mkServing {
  so_pool : pool_ok pool;
  so_tracks : tracks remote streams;
  so_cfg : 0 <= cf_MaxPatternsPerStream cfg /\ 0 <= cf_MaxPatternsPerSpace cfg;
  so_record id strm : streams !! id = Some strm -> capped cfg strm;
  so_valid id sp p : p ∈ interestIn streams id sp -> validateSpaceId sp = Ok tt;
  so_tags id st t : sp_streams pool !! id = Some st ->
    t ∈ sm_tags st <-> tagsOf (interestIn streams id) t \/ (id, t) ∈ late;
  so_late id t : (id, t) ∈ late -> ~ tagsOf (interestIn streams id) t;
  so_live id sp p : p ∈ interestIn streams id sp -> is_Some (sp_streams pool !! id) \/ id ∈ pending;
}.

(** The same streams, with more or fewer messages. *)
Definition samePool pool pool' : Prop :=
  exists ss, pool' = set_streams ss pool /\ forall id, option_Forall2 sameStream (sp_streams pool !! id) (ss !! id).

#[export] Instance samePool_preorder : PreOrder samePool.
Proof.
  split.
  - intros pool. exists (sp_streams pool). split; [by destruct pool|]. intros id. destruct (_ !! id); by constructor.
  - intros p1 p2 p3 (ss & -> & Hs) (ss' & -> & Hs'). exists ss'. split; [done|]. intros id. specialize (Hs id). specialize (Hs' id).
    simpl in Hs'. destruct Hs as [st1 st2 [E1 E2]|]; inversion Hs' as [? st3 [E3 E4]|]; constructor. split; congruence.
Qed.

Lemma samePool_write id msg : frames samePool (write (Q:=Q) id msg).
Proof.
  intros pool. destruct (sp_streams pool !! id) as [st|] eqn:Hst.
  - destruct (write_run pool id st msg Hst) as [b ->]. simpl. eexists. split; [done|]. intros i.
    destruct (decide (i = id)) as [->|]; [rewrite lookup_insert_eq, Hst; constructor; apply pushed_same|].
    rewrite lookup_insert_ne by done. destruct (_ !! i); by constructor.
  - unfold write, calls, mbind, st_bind. rewrite Hst. simpl. reflexivity.
Qed.
Lemma samePool_writeFirst ids msg : frames samePool (writeFirst (Q:=Q) ids msg).
Proof. induction ids as [|id ids IH]; simpl; frame; [apply samePool_write|exact IH]. Qed.
Lemma samePool_SendById msg peers : frames samePool (SendById (Q:=Q) msg peers).
Proof. unfold SendById. frame. apply samePool_writeFirst. Qed.
Lemma samePool_Broadcast msg tags : frames samePool (Broadcast (Q:=Q) msg tags).
Proof. unfold Broadcast. frame; apply samePool_write. Qed.

Lemma serving_samePool P cfg pool pool' remote streams :
  samePool pool pool' -> serving P cfg pool remote streams -> serving P cfg pool' remote streams.
Proof.
  intros (ss & -> & Hs) [Hp Ht Hc Hr Hv Hg Hd Hl]. split; [by apply pool_ok_same|done..| |done|].
  - intros id st t Hst. simpl in Hst. specialize (Hs id). rewrite Hst in Hs. inversion Hs as [st0 ? [_ Heq] Hst0|]. subst.
    rewrite Heq. by apply Hg.
  - intros id sp p Hin. destruct (Hl id sp p Hin) as [[st Hst]|]; [left|by right]. simpl. specialize (Hs id).
    rewrite Hst in Hs. inversion Hs. eauto.
Qed.

(** One stream changes its interest. *)
Lemma serving_update P cfg pool pool' remote remote' streams streams' id :
  serving P cfg pool remote streams -> pool_ok pool' -> tracks remote' streams' ->
  (forall id' strm, streams' !! id' = Some strm -> capped cfg strm) ->
  (forall id' sp, id' <> id -> interestIn streams' id' sp = interestIn streams id' sp) ->
  (forall sp p, p ∈ interestIn streams' id sp -> validateSpaceId sp = Ok tt /\ (is_Some (sp_streams pool' !! id) \/ id ∈ P)) ->
  (forall id', id' <> id -> sp_streams pool' !! id' = sp_streams pool !! id') ->
  (forall st t, sp_streams pool' !! id = Some st -> t ∈ sm_tags st <-> tagsOf (interestIn streams' id) t \/ (id, t) ∈ late) ->
  (forall t, (id, t) ∈ late -> ~ tagsOf (interestIn streams' id) t) ->
  serving P cfg pool' remote' streams'.
Proof.
  intros [Hp Ht Hc Hr Hv Hg Hd Hl] Hpool Htr Hrec Hoth Hval Hps Htags Hlate. split; [done|done|done|done| | | |].
  - intros id' sp p. destruct (decide (id' = id)) as [->|Hne]; [by intros [? _]%Hval|]. rewrite Hoth by done. apply Hv.
  - intros id' st t. destruct (decide (id' = id)) as [->|Hne]; [apply Htags|]. rewrite Hps by done. intros Hst.
    unfold tagsOf. setoid_rewrite Hoth; [|done]. by apply Hg.
  - intros id' t. destruct (decide (id' = id)) as [->|Hne]; [apply Hlate|]. unfold tagsOf. setoid_rewrite Hoth; [|done]. apply Hd.
  - intros id' sp p. destruct (decide (id' = id)) as [->|Hne]; [by intros [_ ?]%Hval|]. rewrite Hoth, Hps by done. apply Hl.
Qed.

Lemma interestIn_insert streams id strm id' sp :
  interestIn (<[id := strm]> streams) id' sp = if decide (id' = id) then bySpaceOf strm sp else interestIn streams id' sp.
Proof.
  unfold interestIn. case_decide as Hd; [subst; by rewrite lookup_insert_eq|]. by rewrite lookup_insert_ne.
Qed.
Lemma interestIn_prune streams id strm id' sp : record_ok strm ->
  interestIn (pruneStream id strm streams) id' sp = interestIn (<[id := strm]> streams) id' sp.
Proof.
  intros Hok. unfold pruneStream. destruct (Z.eqb_spec (si_total strm) 0) as [Hz|]; [|done].
  rewrite interestIn_insert. unfold interestIn. case_decide as Hd; [subst; rewrite lookup_delete_eq|by rewrite lookup_delete_ne].
  rewrite Hok in Hz. unfold bySpaceOf. rewrite sumSizes_zero by lia. done.
Qed.
Lemma prune_records cfg streams id strm :
  (forall id' s, streams !! id' = Some s -> capped cfg s) -> capped cfg strm ->
  forall id' s, pruneStream id strm streams !! id' = Some s -> capped cfg s.
Proof.
  intros Hr Hc id' s. unfold pruneStream. destruct (_ =? _).
  - rewrite lookup_delete_Some. intros [_ ?]. eauto.
  - rewrite lookup_insert_Some. intros [[_ <-]|[_ ?]]; [done|eauto].
Qed.

(** *** Subscribing *)

Section subscribe.
Context (P : gset Z) (cfg : Config) (pool : streamPool Q) (remote : gmap string patternTrie)
  (streams : gmap Z streamInterest) (Hs : serving P cfg pool remote streams).
Context (id : Z) (sp : string).

Lemma trie_counted : exists m, counted (default newPatternTrie (remote !! sp)) m /\
  forall p, default 0%nat (m !! p) = holders sp p streams.
Proof.
  pose proof (so_tracks _ _ _ _ _ Hs sp) as Ht. destruct (remote !! sp) as [trie|]; simpl in *; [done|].
  exists ∅. split; [apply counted_new|]. intros p. by rewrite lookup_empty, Ht.
Qed.

Context (account : string) (topics : list string).
Let strm := default (mkStreamInterest account ∅ 0) (streams !! id).
Let A := bySpaceOf strm sp.
Context (B : gset string) (total : Z) (trie : patternTrie) (acc rej : list string).
Context (Hl : acceptLoop cfg topics A (si_total strm) (default newPatternTrie (remote !! sp)) = (B, total, trie, acc, rej)).
Let strm1 := mkStreamInterest (si_account strm) (<[sp := B]> (si_bySpace strm)) total.

Lemma accept_strm : from_option (fun x => bySpaceOf x sp) ∅ (streams !! id) = A /\ capped cfg strm /\
  forall sp', interestIn streams id sp' = bySpaceOf strm sp'.
Proof.
  unfold A, strm, interestIn. destruct (streams !! id) as [st|] eqn:Hst; simpl.
  - split; [done|]. split; [by eapply so_record|done].
  - assert (forall sp', bySpaceOf (mkStreamInterest account ∅ 0) sp' = ∅) as He
      by (intros sp'; unfold bySpaceOf; simpl; by rewrite lookup_empty).
    rewrite He. split; [done|]. destruct (so_cfg _ _ _ _ _ Hs). split; [|done].
    split_and!; [done|done|]. intros sp'. rewrite He, size_empty. lia.
Qed.

Lemma accept_bySpace sp' : bySpaceOf strm1 sp' = if decide (sp' = sp) then A ∪ list_to_set acc else bySpaceOf strm sp'.
Proof.
  destruct trie_counted as (m & Hc & _). destruct (acceptLoop_spec _ _ _ _ _ _ Hc _ _ _ _ _ Hl) as (-> & _).
  unfold bySpaceOf, strm1. simpl. case_decide as Hd; [subst; by rewrite lookup_insert_eq|by rewrite lookup_insert_ne].
Qed.

Lemma accept_tracks : tracks (<[sp := trie]> remote) (<[id := strm1]> streams) /\ capped cfg strm1.
Proof.
  destruct trie_counted as (m & Hc & _).
  destruct (acceptLoop_spec _ _ _ _ _ _ Hc _ _ _ _ _ Hl) as (HB & Hn & Hin & Htot & Hsz & Hc1 & Hc2 & m' & Hc' & Hm').
  destruct accept_strm as (HA & (Hrec & Hst & Hss) & Hint). split.
  - eapply tracks_update; [by eapply so_tracks|exact Hc|exact Hc'| |].
    + intros sp' Hne. rewrite accept_bySpace, decide_False by done. symmetry. apply Hint.
    + intros p. rewrite HA, accept_bySpace, decide_True, Hm' by done.
      destruct (decide (p ∈ acc)) as [Hp|Hp].
      * destruct (Hin p Hp) as [HpA _]. rewrite (bool_decide_eq_true_2 (p ∈ acc)), (bool_decide_eq_false_2 (p ∈ A)) by done.
        rewrite bool_decide_eq_true_2 by (apply elem_of_union_r, elem_of_list_to_set, Hp). simpl. lia.
      * rewrite (bool_decide_eq_false_2 (p ∈ acc)) by done.
        rewrite (bool_decide_ext (p ∈ A ∪ list_to_set acc) (p ∈ A)) by (clear -Hp; set_solver). simpl. lia.
  - split_and!.
    + unfold record_ok, strm1. simpl. rewrite Htot, Hrec. pose proof (sumSizes_insert (si_bySpace strm) sp B) as Hi.
      unfold A, bySpaceOf in *. lia.
    + exact (Hc2 Hst).
    + intros sp'. rewrite accept_bySpace. case_decide; [|apply Hss]. rewrite <- HB. apply Hc1, Hss.
Qed.

Lemma accept_interest id' sp' : interestIn (<[id := strm1]> streams) id' sp' =
  if decide (id' = id /\ sp' = sp) then A ∪ list_to_set acc else interestIn streams id' sp'.
Proof.
  rewrite interestIn_insert. destruct accept_strm as (_ & _ & Hint).
  destruct (decide (id' = id)) as [->|]; [|by rewrite decide_False by naive_solver]. rewrite accept_bySpace, Hint.
  destruct (decide (sp' = sp)); [by rewrite decide_True|by rewrite decide_False by naive_solver].
Qed.

Lemma accept_records id' s : <[id := strm1]> streams !! id' = Some s -> capped cfg s.
Proof.
  rewrite lookup_insert_Some. intros [[_ <-]|[_ ?]]; [apply accept_tracks|by eapply so_record].
Qed.

(** Nothing was accepted. *)
Lemma serving_accept_none : acc = [] -> serving P cfg pool (<[sp := trie]> remote) (<[id := strm1]> streams).
Proof.
  intros Hacc. assert (forall id' sp', interestIn (<[id := strm1]> streams) id' sp' = interestIn streams id' sp') as Hint.
  { intros id' sp'. rewrite accept_interest. case_decide as Hd; [|done]. destruct Hd as [-> ->]. rewrite Hacc. simpl.
    destruct accept_strm as (HA & _ & _). unfold interestIn. rewrite HA. apply union_empty_r_L. }
  destruct Hs as [Hp Ht Hc Hr Hv Hg Hd Hlv]. split; [done|apply accept_tracks|done|apply accept_records| | | |].
  - intros id' sp' p. rewrite Hint. apply Hv.
  - intros id' st t Hst. unfold tagsOf. setoid_rewrite Hint. by apply Hg.
  - intros id' t. unfold tagsOf. setoid_rewrite Hint. apply Hd.
  - intros id' sp' p. rewrite Hint. apply Hlv.
Qed.

(** The stream is tagged. *)
Lemma serving_accept st pool' : (forall t, (id, t) ∉ late) -> validateSpaceId sp = Ok tt -> sp_streams pool !! id = Some st ->
  AddTagsCtx (Some id) (interestTag sp <$> acc) pool = (pool', Ok tt) ->
  serving P cfg pool' (<[sp := trie]> remote) (<[id := strm1]> streams).
Proof.
  intros Hidle Hv Hst Hadd. destruct (AddTagsCtx_run pool id st (interestTag sp <$> acc) (so_pool _ _ _ _ _ Hs) Hst)
    as (p' & all & Hr & Hok & Hss & _ & Hall).
  assert (pool' = p') as -> by congruence.
  eapply (serving_update P cfg pool p' remote); [exact Hs|done|apply accept_tracks|apply accept_records| | | | |by intros t ?%Hidle].
  - intros id' sp' Hne. rewrite accept_interest, decide_False by naive_solver. done.
  - intros sp' p. rewrite accept_interest, Hss, lookup_insert_eq. case_decide as Hd.
    + destruct Hd as [_ ->]. eauto.
    + intros Hp. split; [by eapply so_valid|eauto].
  - intros id' Hne. by rewrite Hss, lookup_insert_ne.
  - intros st' t. rewrite Hss, lookup_insert_eq. intros [= <-]. simpl. rewrite Hall, (so_tags _ _ _ _ _ Hs id st t Hst).
    assert (forall P Q, (P <-> Q) -> (P <-> Q \/ (id, t) ∈ late)) as Hno by (intros ? ? ?; specialize (Hidle t); tauto).
    apply Hno. unfold tagsOf. setoid_rewrite accept_interest. destruct accept_strm as (HA & _ & Hint). split.
    + intros [[(sp' & p & -> & Hp)|Ht]|Ht]; [|by apply Hidle in Ht|].
      * exists sp', p. split; [done|]. case_decide as Hd; [|done]. destruct Hd as [_ ->]. rewrite Hint in Hp. by apply elem_of_union_l.
      * apply list_elem_of_fmap in Ht as (p & -> & Hp). exists sp, p. split; [done|]. rewrite decide_True by done. by apply elem_of_union_r, elem_of_list_to_set.
    + intros (sp' & p & -> & Hp). case_decide as Hd; [|eauto 7]. destruct Hd as [_ ->].
      apply elem_of_union in Hp as [Hp|Hp]; [do 2 left; exists sp, p; by rewrite Hint|right]. apply list_elem_of_fmap. exists p. split; [done|]. by apply elem_of_list_to_set in Hp.
Qed.

(** The stream was gone: the interest is taken back. *)
Lemma serving_rollback strm2 trie2 removed : sp_streams pool !! id = None ->
  removePatterns sp acc (strm1, trie) = (strm2, trie2, removed) ->
  serving P cfg pool (pruneSpace sp trie2 (<[sp := trie]> remote)) (pruneStream id strm2 (<[id := strm1]> streams)).
Proof.
  intros Hst Hrem. destruct accept_tracks as [Htr Hcap]. destruct accept_strm as (HA & _ & Hint).
  pose proof (Htr sp) as Hsp. rewrite lookup_insert_eq in Hsp. destruct Hsp as (m & Hc & Hm).
  assert (forall p, p ∈ bySpaceOf strm1 sp -> (0 < default 0 (m !! p))%nat) as Hpos.
  { intros p Hp. rewrite Hm. eapply holders_pos; [apply lookup_insert_eq|done]. }
  destruct (removePatterns_spec sp acc strm1 trie m Hc (proj1 Hcap) Hpos _ _ _ Hrem)
    as (Hrec2 & Hacc2 & Hb2 & Ho2 & Htot2 & _ & m2 & Hc2 & Hm2).
  assert (forall p, p ∈ acc -> p ∉ A) as Hdisj.
  { destruct trie_counted as (m0 & Hc0 & _). destruct (acceptLoop_spec _ _ _ _ _ _ Hc0 _ _ _ _ _ Hl) as (_ & _ & Hin & _).
    intros p Hp HpA. by destruct (Hin p Hp). }
  assert (forall sp', bySpaceOf strm2 sp' = bySpaceOf strm sp') as Hb.
  { intros sp'. destruct (decide (sp' = sp)) as [->|Hne].
    - rewrite Hb2, accept_bySpace, decide_True by done. unfold A in *. clear -Hdisj.
      apply set_eq. intros p. rewrite elem_of_difference, elem_of_union, elem_of_list_to_set. specialize (Hdisj p). tauto.
    - rewrite Ho2, accept_bySpace, decide_False by done. done. }
  assert (capped cfg strm2) as Hcap2.
  { destruct Hcap as (_ & Ht1 & Hs1). split_and!; [done|lia|]. intros sp'. rewrite Hb.
    pose proof (Hs1 sp') as Hx. rewrite accept_bySpace in Hx. case_decide; [|done]. subst. etrans; [|exact Hx].
    apply inj_le, subseteq_size. unfold A. clear. set_solver. }
  eapply (serving_update P cfg pool pool remote _ streams _ id); [exact Hs|by eapply so_pool| | | | |done|intros st t Hx; congruence|].
  - apply tracks_prune, tracks_pruneStream; [done|].
    eapply (tracks_update (<[sp := trie]> remote) (<[id := strm1]> streams) sp id strm2 trie2 m m2); [done| |done| |].
    + by rewrite lookup_insert_eq.
    + intros sp' Hne. rewrite lookup_insert_eq. simpl. by apply Ho2.
    + intros p. rewrite lookup_insert_eq. simpl. apply Hm2.
  - eapply prune_records; [apply accept_records|done].
  - intros id' sp' Hne. rewrite interestIn_prune, interestIn_insert, decide_False by done.
    rewrite accept_interest, decide_False by naive_solver. done.
  - intros sp' p. rewrite interestIn_prune, interestIn_insert, decide_True, Hb, <- Hint by done. intros Hp.
    split; [by eapply so_valid|]. by eapply so_live.
  - intros t Ht (sp' & p & -> & Hp). rewrite interestIn_prune, interestIn_insert, decide_True, Hb, <- Hint in Hp by done.
    apply (so_late _ _ _ _ _ Hs id _ Ht). by exists sp', p.
Qed.
End subscribe.

(** *** Losing interest *)

(** The stream loses tags, no other stream changes. *)
Definition untags (id : Z) (tags : list string) pool pool' : Prop :=
  pool_ok pool' /\ (forall id', id' <> id -> sp_streams pool' !! id' = sp_streams pool !! id') /\
  match sp_streams pool !! id with
  | None => sp_streams pool' !! id = None
  | Some st => exists st', sp_streams pool' !! id = Some st' /\ forall t, t ∈ sm_tags st' <-> t ∈ sm_tags st /\ t ∉ tags
  end.

Lemma untags_nil id pool : pool_ok pool -> untags id [] pool pool.
Proof. intros Hok. split_and!; [done|done|]. destruct (_ !! id) as [st|]; [|done]. exists st. set_solver. Qed.
Lemma untags_ById id tags pool : pool_ok pool ->
  exists pool', RemoveTagsById id tags pool = (pool', Ok tt) /\ untags id tags pool pool'.
Proof.
  intros Hok. destruct (RemoveTagsById_run pool id tags Hok) as (pool' & Hr & Hok' & _ & Hst). exists pool'. split; [done|].
  split; [done|]. destruct (sp_streams pool !! id) as [st|] eqn:Hs.
  - destruct Hst as (left & Hss & Hl). split.
    + intros id' Hne. by rewrite Hss, lookup_insert_ne.
    + exists (retagged left st). by rewrite Hss, lookup_insert_eq.
  - subst. done.
Qed.

Lemma serving_less P cfg pool pool' remote remote' streams id sp strm strm2 removed :
  serving P cfg pool remote streams -> streams !! id = Some strm -> capped cfg strm2 ->
  (forall sp', sp' <> sp -> bySpaceOf strm2 sp' = bySpaceOf strm sp') ->
  (forall p, p ∈ bySpaceOf strm2 sp <-> p ∈ bySpaceOf strm sp /\ p ∉ removed) ->
  (forall p, p ∈ removed -> p ∈ bySpaceOf strm sp) ->
  tracks remote' (<[id := strm2]> streams) -> untags id (interestTag sp <$> removed) pool pool' ->
  serving P cfg pool' remote' (pruneStream id strm2 streams).
Proof.
  intros Hs Hid Hcap Hother Hsp Hrem Htr (Hok' & Hsame & Htags).
  assert (forall sp', interestIn streams id sp' = bySpaceOf strm sp') as Hint by (intros; unfold interestIn; by rewrite Hid).
  assert (forall sp', interestIn (pruneStream id strm2 streams) id sp' = bySpaceOf strm2 sp') as Hint2.
  { intros sp'. by rewrite interestIn_prune, interestIn_insert, decide_True by (done || apply Hcap). }
  assert (forall sp' p, p ∈ bySpaceOf strm2 sp' -> p ∈ interestIn streams id sp') as Hsub.
  { intros sp' p. rewrite Hint. destruct (decide (sp' = sp)) as [->|]; [by intros [? _]%Hsp|by rewrite Hother]. }
  eapply (serving_update P cfg pool pool' remote remote' streams _ id); [done|done| | | | |done| |].
  - apply tracks_pruneStream; [apply Hcap|done].
  - eapply prune_records; [by intros; eapply so_record|done].
  - intros id' sp' Hne. by rewrite interestIn_prune, interestIn_insert, decide_False by (done || apply Hcap).
  - intros sp' p. rewrite Hint2. intros Hp%Hsub. split; [by eapply so_valid|].
    destruct (so_live _ _ _ _ _ Hs _ _ _ Hp) as [[st Hst]|]; [left|by right]. rewrite Hst in Htags.
    destruct Htags as (st' & ? & _). eauto.
  - intros st' t Hst'. destruct (sp_streams pool !! id) as [st|] eqn:Hst; [|congruence].
    destruct Htags as (st0 & Hst0 & Ht). assert (st0 = st') as -> by congruence.
    rewrite Ht, (so_tags _ _ _ _ _ Hs id st t Hst). unfold tagsOf. split.
    + intros ([(sp' & p & -> & Hp)|Hp] & Hnot); [left|by right]. exists sp', p. split; [done|]. rewrite Hint2. rewrite Hint in Hp.
      destruct (decide (sp' = sp)) as [->|Hne]; [|by rewrite Hother]. apply Hsp. split; [done|]. intros Hr. apply Hnot.
      apply list_elem_of_fmap. eauto.
    + intros [(sp' & p & -> & Hp)|Hp].
      * rewrite Hint2 in Hp. pose proof (Hsub _ _ Hp) as Hp0. split; [eauto|].
        intros (q & Heq & Hq)%list_elem_of_fmap. pose proof (Hrem q Hq) as HqA. rewrite <- Hint in HqA.
        apply interestTag_inj in Heq as [-> ->]; [by apply Hsp in Hp as [_ ?]|by eapply so_valid..].
      * split; [by right|]. intros (q & -> & Hq)%list_elem_of_fmap. apply (so_late _ _ _ _ _ Hs _ _ Hp).
        exists sp, q. split; [done|]. rewrite Hint. by apply Hrem.
  - intros t Ht' (sp' & p & -> & Hp). rewrite Hint2 in Hp. apply (so_late _ _ _ _ _ Hs _ _ Ht'). exists sp', p. eauto.
Qed.

Lemma serving_unsubscribe P cfg pool pool' remote streams id sp strm trie patterns strm2 trie2 removed :
  serving P cfg pool remote streams -> streams !! id = Some strm -> remote !! sp = Some trie ->
  removePatterns sp patterns (strm, trie) = (strm2, trie2, removed) ->
  untags id (interestTag sp <$> removed) pool pool' ->
  serving P cfg pool' (pruneSpace sp trie2 remote) (pruneStream id strm2 streams).
Proof.
  intros Hs Hid Hsp Hr Hun. pose proof (so_tracks _ _ _ _ _ Hs sp) as Ht. rewrite Hsp in Ht. destruct Ht as (m & Hc & Hm).
  pose proof (so_record _ _ _ _ _ Hs _ _ Hid) as (Hrec & Htot & Hsz).
  assert (forall p, p ∈ bySpaceOf strm sp -> (0 < default 0 (m !! p))%nat) as Hpos
    by (intros p Hp; rewrite Hm; by eapply holders_pos).
  destruct (removePatterns_spec sp patterns strm trie m Hc Hrec Hpos _ _ _ Hr)
    as (Hrec2 & _ & Hb2 & Ho2 & Htot2 & Hin & m2 & Hc2 & Hm2).
  eapply serving_less; [done|done| |done| | | |exact Hun].
  - split_and!; [done|lia|]. intros sp'. destruct (decide (sp' = sp)) as [->|]; [|by rewrite Ho2]. rewrite Hb2.
    etrans; [|apply (Hsz sp)]. apply inj_le, subseteq_size. clear. set_solver.
  - intros p. rewrite Hb2, elem_of_difference, elem_of_list_to_set, Hin. clear. destruct (decide (p ∈ patterns)); tauto.
  - intros p. rewrite Hin. tauto.
  - apply tracks_prune. eapply (tracks_update remote streams sp id strm2 trie2 m m2); [by eapply so_tracks| |done| |].
    + by rewrite Hsp.
    + intros sp' Hne. rewrite Hid. simpl. by apply Ho2.
    + intros p. rewrite Hid. simpl. apply Hm2.
Qed.

(** A stream without its interest in a space. *)
Definition without (sp : string) (strm : streamInterest) : streamInterest :=
  mkStreamInterest (si_account strm) (delete sp (si_bySpace strm))
    (si_total strm - Z.of_nat (size (bySpaceOf strm sp))).

Lemma without_bySpace sp strm sp' : bySpaceOf (without sp strm) sp' = if decide (sp' = sp) then ∅ else bySpaceOf strm sp'.
Proof.
  unfold bySpaceOf, without. simpl. case_decide as Hd; [subst; by rewrite lookup_delete_eq|by rewrite lookup_delete_ne].
Qed.
Lemma without_capped cfg sp strm : capped cfg strm -> capped cfg (without sp strm).
Proof.
  intros (Hrec & Htot & Hsz). split_and!.
  - unfold record_ok, without in *. simpl. rewrite Hrec, (sumSizes_delete _ sp). unfold bySpaceOf. lia.
  - simpl. lia.
  - intros sp'. rewrite without_bySpace. specialize (Hsz sp'). case_decide; [rewrite size_empty; lia|done].
Qed.

Lemma without_tracks `{MapRange} remote streams id strm sp trie :
  tracks remote streams -> streams !! id = Some strm -> remote !! sp = Some trie ->
  tracks (<[sp := foldl (fun trie p => (trie_Remove p trie).1) trie (setRange (bySpaceOf strm sp))]> remote)
    (<[id := without sp strm]> streams).
Proof.
  intros Ht Hid Hsp. pose proof (Ht sp) as Htsp. rewrite Hsp in Htsp. destruct Htsp as (m & Hc & Hm).
  destruct (setRange_spec (bySpaceOf strm sp)) as [Hn Hin].
  destruct (removeAll_spec _ _ _ Hc Hn) as (m' & Hc' & Hm').
  { intros p Hp%Hin. rewrite Hm. by eapply holders_pos. }
  eapply (tracks_update _ _ _ _ _ _ m m'); [done| |done| |].
  - by rewrite Hsp.
  - intros sp' Hne. by rewrite without_bySpace, decide_False, Hid by done.
  - intros p. rewrite Hid, without_bySpace, decide_True by done. simpl. specialize (Hm' p).
    rewrite (bool_decide_ext (p ∈ bySpaceOf strm sp) (p ∈ setRange (bySpaceOf strm sp))) by (by rewrite Hin).
    rewrite (bool_decide_eq_false_2 (p ∈ ∅)) by (apply not_elem_of_empty). simpl. lia.
Qed.

Lemma serving_evict `{MapRange} P cfg pool pool' remote streams id strm sp trie :
  serving P cfg pool remote streams -> streams !! id = Some strm -> remote !! sp = Some trie ->
  untags id (interestTag sp <$> setRange (bySpaceOf strm sp)) pool pool' ->
  serving P cfg pool'
    (<[sp := foldl (fun trie p => (trie_Remove p trie).1) trie (setRange (bySpaceOf strm sp))]> remote)
    (pruneStream id (without sp strm) streams).
Proof.
  intros Hs Hid Hsp Hun. destruct (setRange_spec (bySpaceOf strm sp)) as [_ Hin].
  eapply serving_less; [done|done| | | | | |exact Hun].
  - apply without_capped. by eapply so_record.
  - intros sp' Hne. by rewrite without_bySpace, decide_False.
  - intros p. rewrite without_bySpace, decide_True, Hin by done. split; [by intros ?%not_elem_of_empty|tauto].
  - intros p. by rewrite Hin.
  - apply without_tracks; [by eapply so_tracks|done|done].
Qed.

(** An interest in a space that nobody has any more. *)
Lemma serving_drop P cfg pool remote streams sp :
  serving P cfg pool remote streams -> (forall id, interestIn streams id sp = ∅) ->
  serving P cfg pool (delete sp remote) streams.
Proof.
  intros [Hp Ht Hc Hr Hv Hg Hd Hl] Hnone. split; try done. intros sp'. destruct (decide (sp' = sp)) as [->|Hne].
  - rewrite lookup_delete_eq. intros p. unfold holders. apply map_size_empty_iff, map_empty. intros id.
    apply map_lookup_filter_None. right. intros strm Hst. simpl. specialize (Hnone id). unfold interestIn in Hnone.
    rewrite Hst in Hnone. simpl in Hnone. rewrite Hnone. apply not_elem_of_empty.
  - rewrite lookup_delete_ne by done. apply Ht.
Qed.

(** *** Streams come and go *)

Lemma withdrawSpace_tracks `{MapRange} remote streams id strm sp :
  tracks remote (<[id := strm]> streams) ->
  tracks (withdrawSpace remote (sp, bySpaceOf strm sp)) (<[id := without sp strm]> streams).
Proof.
  intros Ht. unfold withdrawSpace. simpl. destruct (remote !! sp) as [trie|] eqn:Hsp.
  - apply tracks_prune. rewrite <- (insert_insert_eq streams id (without sp strm) strm).
    apply without_tracks; [done|apply lookup_insert_eq|done].
  - intros sp'. eapply tracksSpace_same; [|apply Ht]. intros p.
    pose proof (holders_insert sp' p id strm streams) as Hh1. pose proof (holders_insert sp' p id (without sp strm) streams) as Hh2.
    rewrite without_bySpace in Hh2. case_decide as Hd; [|lia]. subst sp'. specialize (Ht sp). rewrite Hsp in Ht.
    specialize (Ht p). rewrite (bool_decide_eq_false_2 (p ∈ ∅)) in Hh2 by apply not_elem_of_empty. simpl in *. lia.
Qed.

Lemma withdraw_tracks `{MapRange} (l : list (string * gset string)) : NoDup l.*1 -> forall remote streams id strm,
  tracks remote (<[id := strm]> streams) -> (forall sp ps, (sp, ps) ∈ l -> bySpaceOf strm sp = ps) ->
  exists strm', tracks (foldl withdrawSpace remote l) (<[id := strm']> streams) /\
    forall sp, bySpaceOf strm' sp = if decide (sp ∈ l.*1) then ∅ else bySpaceOf strm sp.
Proof.
  induction l as [|[sp ps] l IH]; intros Hn remote streams id strm Ht Hl; simpl.
  - exists strm. split; [done|]. intros sp. done.
  - apply NoDup_cons in Hn as [Hnot Hn]. pose proof (Hl sp ps ltac:(by left)) as Hps. subst ps.
    destruct (IH Hn _ _ _ _ (withdrawSpace_tracks _ _ _ _ sp Ht)) as (strm' & Ht' & Hb').
    { intros sp' ps' Hin. rewrite without_bySpace, decide_False; [apply Hl; by right|].
      intros ->. apply Hnot. apply list_elem_of_fmap. by exists (sp, ps'). }
    exists strm'. split; [done|]. intros sp'. rewrite Hb', without_bySpace. simpl.
    repeat case_decide; try done; exfalso; rewrite elem_of_cons in *; intuition congruence.
Qed.

Lemma serving_close `{MapRange} P cfg pool remote streams id strm :
  serving P cfg pool remote streams -> streams !! id = Some strm -> sp_streams pool !! id = None ->
  serving (P ∖ {[id]}) cfg pool (foldl withdrawSpace remote (map_range (si_bySpace strm))) (delete id streams).
Proof.
  intros Hs Hid Hpool. pose proof (so_tracks _ _ _ _ _ Hs) as Ht. rewrite <- (insert_id streams id strm Hid) in Ht.
  assert (NoDup (map_range (si_bySpace strm)).*1) as Hn by (rewrite map_range_perm; apply NoDup_fst_map_to_list).
  destruct (withdraw_tracks _ Hn _ _ _ _ Ht) as (strm' & Ht' & Hb').
  { intros sp ps. rewrite map_range_perm, elem_of_map_to_list. intros Hps. unfold bySpaceOf. by rewrite Hps. }
  assert (forall sp, bySpaceOf strm' sp = ∅) as Hnone.
  { intros sp. rewrite Hb'. case_decide as Hd; [done|]. unfold bySpaceOf. destruct (si_bySpace strm !! sp) as [ps|] eqn:Hps; [|done].
    exfalso. apply Hd, list_elem_of_fmap. exists (sp, ps). split; [done|]. by rewrite map_range_perm, elem_of_map_to_list. }
  assert (forall id' sp, interestIn (delete id streams) id' sp = if decide (id' = id) then ∅ else interestIn streams id' sp) as Hint.
  { intros id' sp. unfold interestIn. case_decide as Hd; [subst; by rewrite lookup_delete_eq|by rewrite lookup_delete_ne]. }
  destruct Hs as [Hp _ Hc Hr Hv Hg Hd Hl]. split; [done| |done| | | | |].
  - intros sp. eapply tracksSpace_same; [|apply Ht']. intros p.
    rewrite (holders_delete sp p id (<[id := strm']> streams)), lookup_insert_eq, delete_insert_eq. simpl.
    rewrite Hnone. by rewrite (bool_decide_eq_false_2 (p ∈ ∅)) by apply not_elem_of_empty.
  - intros id' s. rewrite lookup_delete_Some. intros [_ ?]. eauto.
  - intros id' sp p. rewrite Hint. case_decide; [by intros ?%not_elem_of_empty|apply Hv].
  - intros id' st t Hst. assert (id' <> id) as Hne by congruence.
    assert (forall sp, interestIn (delete id streams) id' sp = interestIn streams id' sp) as Hi by (intros; by rewrite Hint, decide_False).
    unfold tagsOf. setoid_rewrite Hi. by apply Hg.
  - intros id' t Ht1 (sp & p & -> & Hp'). rewrite Hint in Hp'. case_decide; [by apply not_elem_of_empty in Hp'|].
    apply (Hd _ _ Ht1). by exists sp, p.
  - intros id' sp p. rewrite Hint. case_decide; [by intros ?%not_elem_of_empty|]. intros Hp'.
    destruct (Hl _ _ _ Hp') as [|Hin]; [by left|right]. apply elem_of_difference. by rewrite elem_of_singleton.
Qed.

(** A hook without a record has nothing to do. *)
Lemma serving_close_none P cfg pool remote streams id :
  serving P cfg pool remote streams -> streams !! id = None -> serving (P ∖ {[id]}) cfg pool remote streams.
Proof.
  intros [Hp Ht Hc Hr Hv Hg Hd Hl] Hid. split; [done..|]. intros id' sp p Hin. destruct (Hl _ _ _ Hin) as [|Hin']; [by left|right].
  apply elem_of_difference. rewrite elem_of_singleton. split; [done|]. intros ->. unfold interestIn in Hin. rewrite Hid in Hin.
  by apply not_elem_of_empty in Hin.
Qed.

Lemma serving_leave P cfg pool pool' remote streams id st :
  serving P cfg pool remote streams -> removeStream id pool = (pool', Ok st) -> sp_streams pool !! id = Some st ->
  serving ({[id]} ∪ P) cfg pool' remote streams.
Proof.
  intros [Hp Ht Hc Hr Hv Hg Hd Hl] Hrm Hst. destruct (removeStream_run pool id st Hp Hst) as (p' & Hrun & Hok & _ & Hss).
  assert (pool' = p') as -> by congruence. split; [done..| |done|].
  - intros id' st' t. rewrite Hss, lookup_delete_Some. intros [_ Hst']. by apply Hg.
  - intros id' sp p Hin. destruct (decide (id' = id)) as [->|Hne].
    + right. apply elem_of_union_l. by apply elem_of_singleton.
    + rewrite Hss, lookup_delete_ne by done. destruct (Hl _ _ _ Hin); [by left|right]. by apply elem_of_union_r.
Qed.

Lemma serving_join P cfg pool pool' remote streams peerId queueSize id :
  serving P cfg pool remote streams -> addStream (Ok peerId) queueSize [] pool = (pool', Ok id) ->
  sp_streams pool !! nextId pool = None -> nextId pool ∉ P -> (forall t, (nextId pool, t) ∉ late) ->
  serving P cfg pool' remote streams.
Proof.
  intros [Hp Ht Hc Hr Hv Hg Hd Hl] Hadd Hfresh HP Hidle.
  destruct (addStream_run pool peerId queueSize [] Hp Hfresh (NoDup_nil_2)) as (p' & q & Hrun & Hok & _ & Hss).
  assert (pool' = p') as -> by congruence. split; [done..| |done|].
  - intros id' st t. rewrite Hss, lookup_insert_Some. intros [[<- <-]|[_ Hst]]; [|by apply Hg]. simpl.
    split; [by intros ?%not_elem_of_nil|]. intros [(sp & p & -> & Hin)|Hin]; [|by apply Hidle in Hin].
    destruct (Hl _ _ _ Hin) as [[st Hst]|]; [congruence|done].
  - intros id' sp p Hin. rewrite Hss. destruct (decide (id' = nextId pool)) as [->|Hne]; [left; rewrite lookup_insert_eq; eauto|].
    rewrite lookup_insert_ne by done. eauto.
Qed.
End serving.

(** ** Unsubscribing, in two steps *)

Section two_steps.
Context {Q : Type} `{MsgQueueLaws PubSubMessage Q}.
Implicit Types (pool : streamPool Q) (late : gset (Z * string)) (tags : list string).

Definition lateTags (id : Z) tags : gset (Z * string) := list_to_set (pair id <$> tags).
Lemma elem_lateTags id tags id' t : (id', t) ∈ lateTags id tags <-> id' = id /\ t ∈ tags.
Proof. unfold lateTags. rewrite elem_of_list_to_set, list_elem_of_fmap. naive_solver. Qed.

(** With the tags still on the stream. *)
Lemma serving_tags_stay late P cfg pool pool' remote streams id tags :
  serving (late:=late) P cfg pool' remote streams -> untags id tags pool pool' -> pool_ok pool ->
  (forall st t, sp_streams pool !! id = Some st -> t ∈ tags -> t ∈ sm_tags st) ->
  (forall t, t ∈ tags -> ~ tagsOf (interestIn streams id) t) ->
  serving (late:=late ∪ lateTags id tags) P cfg pool remote streams.
Proof.
  intros [Hp Ht Hc Hr Hv Hg Hd Hl] (_ & Hsame & Htags) Hok Hin Hnot. split; try done.
  - intros id' st t Hst. rewrite elem_of_union, elem_lateTags. destruct (decide (id' = id)) as [->|Hne].
    + rewrite Hst in Htags. destruct Htags as (st' & Hst' & Ht'). specialize (Hg id st' t Hst'). rewrite Ht' in Hg.
      specialize (Hin st t Hst). destruct (decide (t ∈ tags)); tauto.
    + rewrite <- Hsame in Hst by done. rewrite (Hg id' st t Hst). tauto.
  - intros id' t. rewrite elem_of_union, elem_lateTags. intros [?|[-> ?]]; eauto.
  - intros id' sp p Hp'. destruct (Hl _ _ _ Hp') as [[st Hst]|]; [left|by right].
    destruct (decide (id' = id)) as [->|Hne]; [|rewrite <- Hsame by done; eauto].
    destruct (sp_streams pool !! id); [eauto|congruence].
Qed.

(** The tags go. *)
Lemma serving_tags_go late late' P cfg pool pool' remote streams id tags :
  serving (late:=late) P cfg pool remote streams -> untags id tags pool pool' ->
  (forall t, t ∈ tags <-> (id, t) ∈ late) ->
  (forall id' t, (id', t) ∈ late' <-> (id', t) ∈ late /\ id' <> id) ->
  serving (late:=late') P cfg pool' remote streams.
Proof.
  intros [Hp Ht Hc Hr Hv Hg Hd Hl] (Hok & Hsame & Htags) Hall Hlate'. split; try done.
  - intros id' st t Hst. rewrite Hlate'. destruct (decide (id' = id)) as [->|Hne].
    + destruct (sp_streams pool !! id) as [st0|] eqn:Hst0; [|congruence]. destruct Htags as (st' & Hst' & Ht').
      assert (st' = st) as -> by congruence. rewrite Ht', (Hg id st0 t Hst0), Hall. specialize (Hd id t). tauto.
    + rewrite Hsame in Hst by done. rewrite (Hg id' st t Hst). tauto.
  - intros id' t. rewrite Hlate'. intros [? _]; eauto.
  - intros id' sp p Hp'. destruct (Hl _ _ _ Hp') as [[st Hst]|]; [left|by right].
    destruct (decide (id' = id)) as [->|Hne]; [|rewrite Hsame by done; eauto].
    rewrite Hst in Htags. destruct Htags as (st' & ? & _). eauto.
Qed.

(** The interest goes, the tags stay. *)
Lemma serving_dropInterest late P cfg pool remote streams id sp strm trie patterns strm2 trie2 removed :
  serving (late:=late) P cfg pool remote streams -> streams !! id = Some strm -> remote !! sp = Some trie ->
  removePatterns sp patterns (strm, trie) = (strm2, trie2, removed) ->
  serving (late:=late ∪ lateTags id (interestTag sp <$> removed)) P cfg pool
    (pruneSpace sp trie2 remote) (pruneStream id strm2 streams).
Proof.
  intros Hs Hid Hsp Hr. pose proof (so_pool _ _ _ _ _ Hs) as Hok.
  destruct (untags_ById id (interestTag sp <$> removed) pool Hok) as (pool' & _ & Hun).
  pose proof (serving_unsubscribe _ _ _ _ _ _ _ _ _ _ _ _ _ _ Hs Hid Hsp Hr Hun) as Hs'.
  pose proof (so_tracks _ _ _ _ _ Hs sp) as Ht. rewrite Hsp in Ht. destruct Ht as (m & Hc & Hm).
  pose proof (so_record _ _ _ _ _ Hs _ _ Hid) as (Hrec & _).
  assert (forall p, p ∈ bySpaceOf strm sp -> (0 < default 0 (m !! p))%nat) as Hpos
    by (intros p Hp; rewrite Hm; by eapply holders_pos).
  destruct (removePatterns_spec sp patterns strm trie m Hc Hrec Hpos _ _ _ Hr) as (Hrec2 & _ & Hb2 & Ho2 & _ & Hin & _).
  assert (forall sp', interestIn streams id sp' = bySpaceOf strm sp') as Hint by (intros; unfold interestIn; by rewrite Hid).
  apply (serving_tags_stay late P cfg pool pool' _ _ id); [exact Hs'|exact Hun|exact Hok| |].
  - intros st t Hst (p & -> & [_ Hp]%Hin)%list_elem_of_fmap. apply (so_tags _ _ _ _ _ Hs id st _ Hst). left.
    exists sp, p. by rewrite Hint.
  - intros t (p & -> & [Hp1 Hp2]%Hin)%list_elem_of_fmap (sp' & p' & Heq & Hp').
    rewrite interestIn_prune, interestIn_insert, decide_True in Hp' by done.
    assert (p' ∈ bySpaceOf strm sp') as Hp0.
    { destruct (decide (sp' = sp)) as [->|]; [rewrite Hb2 in Hp'; set_solver|by rewrite Ho2 in Hp']. }
    apply interestTag_inj in Heq as [<- <-]; [|eapply (so_valid _ _ _ _ _ Hs id); rewrite Hint; eassumption..].
    rewrite Hb2, elem_of_difference, elem_of_list_to_set in Hp'. tauto.
Qed.
End two_steps.

(** * Publish/subscribe: the serving side stays consistent in every run, a message reaches
    exactly the streams that subscribed to it, members that left are cut off, what a client
    delivers is authentic, duplicates are suppressed, and signed bytes are unambiguous. *)

Section main.
Context `{CryptoPrims} `{SealPrims} `{Base58} `{MapRange} {L : Type} `{Limiter L}
  {Q DQ TQ : Type} `{MsgQueueLaws PubSubMessage Q} `{MsgQueueLaws dispatchItem DQ}
  `{MsgQueue (PubSubMessage * Target) TQ}.
Abbreviation svc := (service L Q DQ TQ).
Implicit Types (s : svc).

Section same_late.
Context {late : gset (Z * string)}.

Definition serves (P : gset Z) s : Prop := serving (late:=late) P (sv_cfg s) (sv_pool s) (sv_remote s) (sv_streams s).

(** ** What leaves the serving side alone *)

(** Messages are written, nothing else of the serving side changes. *)
Definition quiet s s' : Prop :=
  samePool (sv_pool s) (sv_pool s') /\ sv_cfg s' = sv_cfg s /\ sv_deps s' = sv_deps s /\
  sv_remote s' = sv_remote s /\ sv_streams s' = sv_streams s.

#[local] Instance quiet_preorder : PreOrder quiet.
Proof.
  split; [by intros s|]. intros s1 s2 s3 (Hp & ? & ? & ? & ?) (Hp' & ? & ? & ? & ?).
  split_and!; [by etrans|congruence..].
Qed.

Lemma serves_quiet P s s' : quiet s s' -> serves P s -> serves P s'.
Proof. intros (Hp & Hc & _ & Hr & Hs) Hok. unfold serves. rewrite Hc, Hr, Hs. by eapply serving_samePool. Qed.

(** Fields that do not matter. *)
Lemma quiet_same s s' : sv_pool s' = sv_pool s -> sv_cfg s' = sv_cfg s -> sv_deps s' = sv_deps s ->
  sv_remote s' = sv_remote s -> sv_streams s' = sv_streams s -> quiet s s'.
Proof. unfold quiet. intros -> -> -> -> ->. by split_and!. Qed.

Lemma quiet_onPool {A} (m : ST (streamPool Q) A) : frames samePool m -> frames quiet (onPool (L:=L) (DQ:=DQ) (TQ:=TQ) m).
Proof.
  intros Hm s. unfold onPool. specialize (Hm (sv_pool s)). destruct (m (sv_pool s)) as [p [a|[e|e]]]; by split_and!.
Qed.
Lemma quiet_pool_Send msg t : frames quiet (pool_Send (L:=L) (Q:=Q) (DQ:=DQ) (TQ:=TQ) msg t).
Proof. intros s. unfold pool_Send. destruct (mq_TryAdd _ _); by apply quiet_same. Qed.
Lemma quiet_seenId id : frames quiet (seenId (L:=L) (Q:=Q) (DQ:=DQ) (TQ:=TQ) id).
Proof. intros s. unfold seenId. destruct (seen id _). by apply quiet_same. Qed.
Lemma quiet_enqueue ps sp t k b : frames quiet (enqueueLocalMatched (L:=L) (Q:=Q) (DQ:=DQ) (TQ:=TQ) ps sp t k b).
Proof. apply frames_assigns. intros s. destruct (mq_TryAdd _ _); by apply quiet_same. Qed.

Ltac quietly :=
  frame; try (first [apply quiet_pool_Send | apply quiet_seenId | apply quiet_enqueue
    | apply quiet_onPool; apply samePool_SendById | apply quiet_onPool; apply samePool_Broadcast
    | by apply quiet_same]).

Lemma quiet_sendStatusMsg peer st : frames quiet (sendStatusMsg (L:=L) (Q:=Q) (DQ:=DQ) (TQ:=TQ) peer st).
Proof. unfold sendStatusMsg. quietly. Qed.
Lemma quiet_sendInterest sp ps b : frames quiet (sendInterest (L:=L) (Q:=Q) (DQ:=DQ) (TQ:=TQ) sp ps b).
Proof. unfold sendInterest. quietly. Qed.
Lemma quiet_fanout p : frames quiet (fanout (L:=L) (Q:=Q) (DQ:=DQ) (TQ:=TQ) p).
Proof. unfold fanout, spread. quietly. Qed.
Lemma quiet_enqueueLocal sp t k b : frames quiet (enqueueLocal (L:=L) (Q:=Q) (DQ:=DQ) (TQ:=TQ) sp t k b).
Proof. unfold enqueueLocal. quietly. Qed.
Lemma quiet_receive ctx p : frames quiet (receivePublish (L:=L) (Q:=Q) (DQ:=DQ) (TQ:=TQ) ctx p).
Proof. unfold receivePublish. quietly. Qed.
Lemma quiet_relay r ctx peer p : frames quiet (relayPublish (L:=L) (Q:=Q) (DQ:=DQ) (TQ:=TQ) r ctx peer p).
Proof.
  unfold relayPublish, sendPubStatus. quietly; try apply quiet_sendStatusMsg; try apply quiet_fanout.
  intros s. destruct (allow _ _ _). by apply quiet_same.
Qed.
Lemma quiet_handlePublish ctx peer p : frames quiet (handlePublish (L:=L) (Q:=Q) (DQ:=DQ) (TQ:=TQ) ctx peer p).
Proof.
  unfold handlePublish, sendPubStatus. quietly; try apply quiet_sendStatusMsg; [apply quiet_relay|apply quiet_receive].
Qed.
Lemma quiet_Publish now mid sp t b : frames quiet (Publish_ (L:=L) (Q:=Q) (DQ:=DQ) (TQ:=TQ) now mid sp t b).
Proof. unfold Publish_. quietly. apply quiet_enqueueLocal. Qed.
Lemma quiet_Subscribe sp pat h : frames quiet (Subscribe_ (L:=L) (Q:=Q) (DQ:=DQ) (TQ:=TQ) sp pat h).
Proof. unfold Subscribe_. quietly. apply quiet_sendInterest. Qed.
Lemma quiet_unsubscribe sp pat id : frames quiet (unsubscribe (L:=L) (Q:=Q) (DQ:=DQ) (TQ:=TQ) sp pat id).
Proof.
  unfold unsubscribe. quietly; [|apply quiet_sendInterest]. destruct (sv_localTrie _ !! sp); [|by apply quiet_same].
  destruct (_ =? _); by apply quiet_same.
Qed.
Lemma quiet_SyncInterest sp : frames quiet (SyncInterest (L:=L) (Q:=Q) (DQ:=DQ) (TQ:=TQ) sp).
Proof. unfold SyncInterest. quietly. Qed.
Lemma quiet_dispatchOne : frames quiet (dispatchOne (L:=L) (Q:=Q) (DQ:=DQ) (TQ:=TQ)).
Proof. intros s. unfold dispatchOne. destruct (mq_WaitOne _) as [[item q]|]; by apply quiet_same. Qed.
Lemma quiet_resyncOne : frames quiet (resyncOne (L:=L) (Q:=Q) (DQ:=DQ) (TQ:=TQ)).
Proof.
  intros s. unfold resyncOne. etrans; [by apply (quiet_same s (set_resync false s))|]. revert s.
  assert (forall l, frames quiet (st_each (fun (x : string * gmap string (list localSub)) (s : svc) =>
    match SyncInterest x.1 s with
    | (s0, Err (GoPanic m)) => (s0, Err (GoPanic m))
    | (s0, _) => (s0, Ok tt)
    end) l)) as Hl; [|intros s; apply Hl].
  intros l. apply frames_each; [exact _|]. intros x _ s. pose proof (quiet_SyncInterest x.1 s) as Hq.
  by destruct (SyncInterest x.1 s) as [s' [u|[e|e]]].
Qed.

(** ** Subscribing and unsubscribing *)

Lemma serves_acceptSubscribe P s id account sp topics :
  serves P s -> (forall t, (id, t) ∉ late) -> validateSpaceId sp = Ok tt ->
  serves P (acceptSubscribe (L:=L) (Q:=Q) (DQ:=DQ) (TQ:=TQ) id account sp topics s).1.
Proof.
  intros Hs Hidle Hv. unfold acceptSubscribe, reads. unfold mbind, st_bind.
  destruct (acceptLoop _ _ _ _ _) as [[[[B total] trie] acc] rej] eqn:Hl. unfold assigns at 1.
  set (strm1 := mkStreamInterest _ _ total). destruct acc as [|a acc'] eqn:Hacc.
  { simpl. by eapply serving_accept_none. }
  rewrite <- Hacc in *. clear Hacc a acc'. unfold onPool. cbn [sv_pool set_serving].
  destruct (sp_streams (sv_pool s) !! id) as [st|] eqn:Hst.
  - destruct (AddTagsCtx_run (sv_pool s) id st (interestTag sp <$> acc) (so_pool _ _ _ _ _ Hs) Hst) as (p' & all & Hr & _).
    rewrite Hr. cbn. by eapply serving_accept.
  - rewrite AddTagsCtx_missing by done. cbn [ErrNoStream].
    destruct (removePatterns sp acc (strm1, trie)) as [[strm2 trie2] removed] eqn:Hrem. cbn.
    replace (set_pool (sv_pool s) (set_serving (<[sp:=trie]> (sv_remote s)) (<[id:=strm1]> (sv_streams s)) s)) with
      (set_serving (<[sp:=trie]> (sv_remote s)) (<[id:=strm1]> (sv_streams s)) s) by done.
    cbn. by eapply serving_rollback.
Qed.

Lemma checkSubscribe_inl s ctx sp topics id k : checkSubscribe s ctx sp topics = inl (id, k) ->
  cx_streamId ctx = Some id /\ CtxPubKey ctx = Ok k /\ validateSpaceId sp = Ok tt /\
  res_each ValidatePattern topics = Ok tt /\
  (forall check, dp_Membership (sv_deps s) = Some check -> check sp k = true).
Proof.
  unfold checkSubscribe. destruct (cx_streamId ctx) as [i|]; [|done]. destruct (CtxPubKey ctx) as [k'|]; [|done].
  destruct (validateSpaceId sp) as [[]|]; [|done]. destruct (match dp_Relay _ with Some _ => _ | None => _ end); [done|].
  destruct (res_each _ _) as [[]|]; [|done]. destruct (dp_Membership _) as [check|]; [destruct (check sp k') eqn:Hc|]; [|done|];
    intros [= <- <-]; split_and!; naive_solver.
Qed.

Lemma serves_handleSubscribe P s ctx peer sp topics :
  serves P s -> (forall id t, cx_streamId ctx = Some id -> (id, t) ∉ late) -> serves P (handleSubscribe (L:=L) (Q:=Q) (DQ:=DQ) (TQ:=TQ) ctx peer sp topics s).1.
Proof.
  intros Hs Hidle. unfold handleSubscribe. rewrite (st_bind_run _ _ s s (checkSubscribe s ctx sp topics)) by done.
  destruct (checkSubscribe s ctx sp topics) as [[id k]|code] eqn:Hck.
  - apply checkSubscribe_inl in Hck as (Hctx & _ & Hv & _).
    pose proof (serves_acceptSubscribe P s id (Account k) sp topics Hs (fun t => Hidle id t Hctx) Hv) as Hacc.
    unfold mbind, st_bind. destruct (acceptSubscribe id (Account k) sp topics s) as [s' [rej|e]]; [|done].
    destruct rej; [done|]. eapply serves_quiet; [apply quiet_sendStatusMsg|done].
  - eapply serves_quiet; [apply quiet_sendStatusMsg|done].
Qed.

(** ** Evicting *)

(** The tries may lack the space that is being closed. *)
Definition closing (P : gset Z) (sp : string) s : Prop :=
  exists rg, serving (late:=late) P (sv_cfg s) (sv_pool s) rg (sv_streams s) /\
    (sv_remote s = rg \/ sv_remote s = delete sp rg).

Definition evicted (evict : streamInterest -> bool) s (id : Z) : bool := from_option evict false (sv_streams s !! id).
(** What the clients and the host see is the same. *)
Definition sameHost s s' : Prop := sv_cfg s' = sv_cfg s /\ sv_deps s' = sv_deps s.

Lemma evictStream_run P sp evict s id strm : closing P sp s -> sv_streams s !! id = Some strm ->
  exists s', evictStream (L:=L) (Q:=Q) (DQ:=DQ) (TQ:=TQ) sp evict (id, strm) s = (s', Ok tt) /\
    closing P sp s' /\ sameHost s s' /\ (is_Some (sv_remote s' !! sp) <-> is_Some (sv_remote s !! sp)) /\
    (forall id', id' <> id -> sv_streams s' !! id' = sv_streams s !! id') /\
    forall id' sp', interestIn (sv_streams s') id' sp' =
      if decide (sp' = sp /\ id' = id /\ evict strm = true) then ∅ else interestIn (sv_streams s) id' sp'.
Proof.
  intros (rg & Hs & Hrg) Hid.
  assert (forall sp', interestIn (sv_streams s) id sp' = bySpaceOf strm sp') as Hint by (intros; unfold interestIn; by rewrite Hid).
  unfold evictStream. destruct (decide (bySpaceOf strm sp = ∅)) as [He|Hne].
  { exists s. split_and!; [done|by exists rg|done|done|done|]. intros id' sp'. case_decide as Hd; [|done].
    destruct Hd as (-> & -> & _). by rewrite Hint. }
  destruct (evict strm) eqn:Hev; cycle 1.
  { exists s. split_and!; [done|by exists rg|done|done|done|]. intros id' sp'. case_decide as Hd; [|done]. naive_solver. }
  assert (exists trie, rg !! sp = Some trie) as [trie Htrie].
  { destruct (rg !! sp) as [trie|] eqn:Hsp; [eauto|]. apply set_choose_L in Hne as [p Hp].
    pose proof (so_tracks _ _ _ _ _ Hs sp) as Ht. rewrite Hsp in Ht. specialize (Ht p).
    pose proof (holders_pos sp p id strm _ Hid Hp). lia. }
  destruct (untags_ById id (interestTag sp <$> setRange (bySpaceOf strm sp)) (sv_pool s) (so_pool _ _ _ _ _ Hs)) as (p' & Hrun & Hun).
  pose proof (serving_evict _ _ _ _ _ _ _ _ _ _ Hs Hid Htrie Hun) as Hs'.
  eexists. split.
  - unfold assigns, mbind, st_bind. unfold onPool. cbn [sv_pool set_serving]. rewrite Hrun. reflexivity.
  - assert (record_ok (without sp strm)) as Hrec by (eapply proj1, (without_capped (sv_cfg s)), (so_record _ _ _ _ _ Hs); done).
    split_and!.
    + eexists. split; [exact Hs'|]. cbn. destruct Hrg as [-> | ->].
      * left. by rewrite Htrie.
      * right. rewrite lookup_delete_eq. by rewrite delete_insert_eq.
    + done.
    + cbn. destruct (sv_remote s !! sp) eqn:Hx; [|by rewrite Hx]. rewrite lookup_insert_eq. split; eauto.
    + intros id' Hne'. cbn. unfold pruneStream. destruct (_ =? _); by rewrite ?lookup_delete_ne, ?lookup_insert_ne by done.
    + intros id' sp'. cbn. change (mkStreamInterest (si_account strm) _ _) with (without sp strm).
      rewrite interestIn_prune, interestIn_insert by done. destruct (decide (id' = id)) as [->|Hne'].
      * rewrite without_bySpace, Hint. destruct (decide (sp' = sp)); [by rewrite decide_True|by rewrite decide_False by naive_solver].
      * by rewrite decide_False by naive_solver.
Qed.

Lemma evictAll_run P sp evict (l : list (Z * streamInterest)) : NoDup l.*1 -> forall s, closing P sp s ->
  (forall id strm, (id, strm) ∈ l -> sv_streams s !! id = Some strm) ->
  exists s', st_each (evictStream (L:=L) (Q:=Q) (DQ:=DQ) (TQ:=TQ) sp evict) l s = (s', Ok tt) /\
    closing P sp s' /\ sameHost s s' /\ (is_Some (sv_remote s' !! sp) <-> is_Some (sv_remote s !! sp)) /\
    forall id sp', interestIn (sv_streams s') id sp' =
      if decide (sp' = sp /\ id ∈ l.*1 /\ evicted evict s id = true) then ∅ else interestIn (sv_streams s) id sp'.
Proof.
  induction l as [|[id strm] l IH]; intros Hn s Hc Hl; cbn [st_each].
  { exists s. split_and!; [done..|]. intros id sp'. rewrite decide_False; [done|]. intros (_ & ?%not_elem_of_nil & _). done. }
  apply NoDup_cons in Hn as [Hnot Hn]. pose proof (Hl id strm ltac:(by left)) as Hid.
  destruct (evictStream_run P sp evict s id strm Hc Hid) as (s1 & Hr1 & Hc1 & [Hh1 Hd1] & Hsp1 & Hsame1 & Hint1).
  destruct (IH Hn s1 Hc1) as (s2 & Hr2 & Hc2 & [Hh2 Hd2] & Hsp2 & Hint2).
  { intros id' strm' Hin. rewrite Hsame1; [apply Hl; by right|]. intros ->. apply Hnot, list_elem_of_fmap. by exists (id, strm'). }
  exists s2. split_and!; [unfold mbind, st_bind; by rewrite Hr1|done|split; congruence|by rewrite Hsp2|].
  intros id' sp'. rewrite Hint2, Hint1. simpl. unfold evicted.
  assert (evict strm = from_option evict false (sv_streams s !! id)) as Hev by (by rewrite Hid).
  destruct (decide (id' = id)) as [->|Hne].
  - rewrite (decide_False (P := sp' = sp /\ id ∈ l.*1 /\ _)) by (intros (_ & ? & _); done).
    rewrite <- Hev. repeat case_decide; try done; exfalso; rewrite elem_of_cons in *; tauto.
  - rewrite (decide_False (P := sp' = sp /\ id' = id /\ _)) by tauto. rewrite Hsame1 by done.
    repeat case_decide; try done; exfalso; rewrite elem_of_cons in *; tauto.
Qed.

Lemma range_lookup (m : gmap Z streamInterest) : NoDup (map_range m).*1 /\
  (forall id strm, (id, strm) ∈ map_range m <-> m !! id = Some strm) /\ forall id, id ∈ (map_range m).*1 <-> is_Some (m !! id).
Proof.
  assert (forall id strm, (id, strm) ∈ map_range m <-> m !! id = Some strm) as Hl
    by (intros; by rewrite map_range_perm, elem_of_map_to_list).
  split_and!; [rewrite map_range_perm; apply NoDup_fst_map_to_list|done|]. intros id. rewrite list_elem_of_fmap. split.
  - intros ([id' strm] & -> & Hin%Hl). eauto.
  - intros [strm Hst%Hl]. by exists (id, strm).
Qed.

(** Streams that are evicted lose their interest in the space; nothing else changes. *)
Lemma evictSpaceStreams_run P sp evict s : serves P s ->
  exists s', evictSpaceStreams (L:=L) (Q:=Q) (DQ:=DQ) (TQ:=TQ) sp evict s = (s', Ok tt) /\ serves P s' /\ sameHost s s' /\
    forall id sp', interestIn (sv_streams s') id sp' =
      if decide (sp' = sp /\ evicted evict s id = true) then ∅ else interestIn (sv_streams s) id sp'.
Proof.
  intros Hs. destruct (range_lookup (sv_streams s)) as (Hn & Hl & Hk).
  destruct (evictAll_run P sp evict (map_range (sv_streams s)) Hn s) as (s1 & Hr & (rg & Hs1 & Hrg) & Hh & Hsp & Hint).
  { exists (sv_remote s). split; [exact Hs|by left]. }
  { intros id strm. apply Hl. }
  unfold evictSpaceStreams. rewrite (st_bind_run _ _ s s (sv_streams s)) by done.
  rewrite (st_bind_run _ _ s s1 tt) by done. unfold assigns.
  assert (forall id sp', interestIn (sv_streams s1) id sp' =
    if decide (sp' = sp /\ evicted evict s id = true) then ∅ else interestIn (sv_streams s) id sp') as Hint'.
  { intros id sp'. rewrite Hint. unfold evicted. repeat case_decide; try done; exfalso.
    - tauto.
    - rewrite Hk in *. destruct (sv_streams s !! id); simpl in *; naive_solver. }
  assert (serves P s1) as Hok.
  { destruct Hrg as [Hrg|Hrg]; [unfold serves; by rewrite Hrg|].
    unfold serves. rewrite Hrg. destruct (sv_remote s !! sp) as [trie|] eqn:Htrie.
    - exfalso. rewrite Hrg, lookup_delete_eq in Hsp. destruct (proj2 Hsp) as [? ?]; [eauto|done].
    - apply serving_drop; [done|]. intros id. rewrite Hint'. case_decide; [done|].
      pose proof (so_tracks _ _ _ _ _ Hs sp) as Ht. rewrite Htrie in Ht. unfold interestIn.
      destruct (sv_streams s !! id) as [strm|] eqn:Hst; [|done]. simpl.
      destruct (decide (bySpaceOf strm sp = ∅)) as [|Hne]; [done|]. apply set_choose_L in Hne as [p Hp].
      specialize (Ht p). pose proof (holders_pos sp p id strm _ Hst Hp). lia. }
  destruct (sv_remote s1 !! sp) as [trie|] eqn:Htrie; [|exists s1; by split_and!].
  eexists. split_and!; [done| |done|exact Hint'].
  unfold serves. cbn. destruct Hok as [Hp Ht Hc Hrec Hv Hg Hlv]. split; try done. apply tracks_prune. by rewrite insert_id.
Qed.

(** ** Closing *)

Lemma serves_CloseSpace P sp s : serves P s ->
  exists s', CloseSpace (L:=L) (Q:=Q) (DQ:=DQ) (TQ:=TQ) sp s = (s', Ok tt) /\ serves P s' /\
    forall id sp', interestIn (sv_streams s') id sp' = if decide (sp' = sp) then ∅ else interestIn (sv_streams s) id sp'.
Proof.
  intros Hs. unfold CloseSpace. rewrite (st_bind_run _ _ s s (patternsOf s sp)) by done.
  set (s1 := set_local (delete sp (sv_localTrie s)) (delete sp (sv_localSubs s)) (sv_nextSubId s) (delete sp (sv_localTopic s)) s).
  rewrite (st_bind_run _ _ s s1 tt) by done.
  assert (exists s2, (if decide (patternsOf s sp = []) then mret tt else sendInterest sp (patternsOf s sp) false) s1 = (s2, Ok tt) /\
    quiet s1 s2) as (s2 & Hr2 & Hq).
  { case_decide; [by exists s1|]. pose proof (quiet_sendInterest sp (patternsOf s sp) false s1) as Hq.
    destruct (sendInterest sp (patternsOf s sp) false s1) as [s2 r] eqn:Hsi. exists s2. split; [|done].
    unfold sendInterest in Hsi. rewrite (st_bind_run _ _ s1 s1 (sv_deps s1)) in Hsi by done.
    destruct (dp_Peers (sv_deps s1)); [|by injection Hsi as <- <-]. unfold mbind, st_bind, pool_Send in Hsi.
    by destruct (mq_TryAdd _ _); injection Hsi as <- <-. }
  rewrite (st_bind_run _ _ s1 s2 tt) by done.
  assert (serves P s2) as Hs2 by (eapply serves_quiet; [done|exact Hs]).
  assert (sv_streams s2 = sv_streams s) as Hss by (destruct Hq as (_ & _ & _ & _ & ->); done).
  set (s3 := set_serving (delete sp (sv_remote s2)) (sv_streams s2) s2).
  rewrite (st_bind_run _ _ s2 s3 tt), (st_bind_run _ _ s3 s3 (sv_streams s3)) by done.
  destruct (range_lookup (sv_streams s3)) as (Hn & Hl & Hk).
  destruct (evictAll_run P sp (fun _ => true) (map_range (sv_streams s3)) Hn s3) as (s4 & Hr & (rg & Hs4 & Hrg) & Hh & Hsp & Hint).
  { exists (sv_remote s2). split; [exact Hs2|by right]. }
  { intros id strm. apply Hl. }
  exists s4. split; [exact Hr|].
  assert (forall id sp', interestIn (sv_streams s4) id sp' = if decide (sp' = sp) then ∅ else interestIn (sv_streams s) id sp') as Hint'.
  { intros id sp'. rewrite Hint. specialize (Hk id). unfold evicted, interestIn.
    change (sv_streams s3) with (sv_streams s2) in *. rewrite Hss in *.
    destruct (decide (sp' = sp)) as [->|Hne]; [|by rewrite decide_False by tauto].
    destruct (decide (sp = sp /\ _)) as [|Hd]; [done|]. destruct (sv_streams s !! id) as [strm|] eqn:Hst; [|done].
    destruct Hd. split_and!; [done|by apply Hk|done]. }
  split; [|done]. unfold serves. destruct Hrg as [-> | ->]; [|apply serving_drop; [done|]; intros id; by rewrite Hint', decide_True].
  exact Hs4.
Qed.

(** ** Runs *)

Lemma serves_onStreamClose P id s : serves P s -> sp_streams (sv_pool s) !! id = None ->
  serves (P ∖ {[id]}) (onStreamClose (L:=L) (Q:=Q) (DQ:=DQ) (TQ:=TQ) id s).1.
Proof.
  intros Hs Hpool. unfold onStreamClose. rewrite (st_bind_run _ _ s s (sv_deps s)) by done.
  set (s1 := if dp_Peers (sv_deps s) then set_resync true s else s).
  rewrite (st_bind_run _ _ s s1 tt) by (unfold s1; by destruct (dp_Peers _)).
  rewrite (st_bind_run _ _ s1 s1 (sv_streams s !! id)) by (unfold s1; by destruct (dp_Peers _)).
  assert (serves P s1 /\ sv_streams s1 = sv_streams s /\ sv_pool s1 = sv_pool s) as (Hs1 & Hss & Hp)
    by (unfold s1; by destruct (dp_Peers _)).
  rewrite <- Hp in Hpool. rewrite <- Hss. destruct (sv_streams s1 !! id) as [strm|] eqn:Hst; simpl.
  - by eapply serving_close.
  - by apply serving_close_none.
Qed.

End same_late.
#[local] Existing Instance quiet_preorder.

(** *** Unsubscribing *)

Lemma serves_dropInterest late P s s' id sp topics tags :
  serves (late:=late) P s -> dropInterest (Some id) sp topics s = (s', Ok tags) ->
  serves (late:=late ∪ lateTags id tags) P s' /\ sv_pool s' = sv_pool s.
Proof.
  intros Hs Hr. unfold dropInterest in Hr.
  rewrite (st_bind_run _ _ s s (sv_streams s !! id, sv_remote s !! sp)) in Hr by done.
  assert (s' = s /\ tags = [] -> serves (late:=late ∪ lateTags id tags) P s' /\ sv_pool s' = sv_pool s) as Hnone.
  { intros [-> ->]. split; [|done]. unfold lateTags. simpl. by rewrite union_empty_r_L. }
  destruct (sv_streams s !! id) as [strm|] eqn:Hid; [|apply ret_Ok in Hr as [-> ->]; by apply Hnone].
  destruct (sv_remote s !! sp) as [trie|] eqn:Hsp; [|apply ret_Ok in Hr as [-> ->]; by apply Hnone].
  destruct (removePatterns _ _ _) as [[strm2 trie2] removed] eqn:Hrem.
  rewrite (st_bind_run _ _ s (set_serving (pruneSpace sp trie2 (sv_remote s)) (pruneStream id strm2 (sv_streams s)) s) tt) in Hr by done.
  apply ret_Ok in Hr as [-> ->]. split; [|done]. unfold serves. cbn. by eapply serving_dropInterest.
Qed.

Lemma serves_dropTags late late' P s id tags :
  serves (late:=late) P s -> (forall t, t ∈ tags <-> (id, t) ∈ late) ->
  (forall id' t, (id', t) ∈ late' <-> (id', t) ∈ late /\ id' <> id) ->
  exists s', dropTags (Some id) tags s = (s', Ok tt) /\ serves (late:=late') P s'.
Proof.
  intros Hs Hall Hlate'. pose proof (so_pool _ _ _ _ _ Hs) as Hpool. unfold dropTags. destruct tags as [|a tags'] eqn:Htags.
  { exists s. split; [done|]. eapply serving_tags_go; [exact Hs|by apply (untags_nil id)|exact Hall|exact Hlate']. }
  rewrite <- Htags in *. clear Htags a tags'. destruct (sp_streams (sv_pool s) !! id) as [st|] eqn:Hst.
  - destruct (untags_ById id tags (sv_pool s) Hpool) as (p' & Hrun & Hun). eexists. split.
    { unfold onPool, mbind, st_bind. rewrite RemoveTagsCtx_run, Hrun by eauto. reflexivity. }
    unfold serves. cbn. by eapply serving_tags_go.
  - eexists. split.
    { unfold onPool, RemoveTagsCtx, streamOfCtx, lifts, calls, mbind, st_bind. cbn. rewrite Hst. reflexivity. }
    unfold serves. cbn. eapply serving_tags_go; [exact Hs| |exact Hall|exact Hlate'].
    split_and!; [done|done|by rewrite Hst].
Qed.

(** Both steps at once. *)
Lemma serves_handleUnsubscribe late P s ctx sp topics :
  serves (late:=late) P s -> (forall id t, cx_streamId ctx = Some id -> (id, t) ∉ late) ->
  serves (late:=late) P (handleUnsubscribe (L:=L) (Q:=Q) (DQ:=DQ) (TQ:=TQ) ctx sp topics s).1.
Proof.
  intros Hs Hidle. unfold handleUnsubscribe. destruct (cx_streamId ctx) as [id|] eqn:Hctx; [|done].
  destruct (dropInterest (Some id) sp topics s) as [s1 [tags|e]] eqn:Hr; cycle 1.
  { unfold dropInterest in Hr. exfalso. revert Hr. unfold mbind, st_bind, reads, assigns. cbn.
    repeat case_match; done. }
  rewrite (st_bind_run _ _ s s1 tags) by done. destruct (serves_dropInterest _ _ _ _ _ _ _ _ Hs Hr) as [Hs1 _].
  assert (forall t, (id, t) ∉ late) as Hno by eauto.
  destruct (serves_dropTags _ late P s1 id tags Hs1) as (s2 & -> & Hs2); [..|exact Hs2].
  - intros t. rewrite elem_of_union, elem_lateTags. specialize (Hno t). tauto.
  - intros id' t. rewrite elem_of_union, elem_lateTags. destruct (decide (id' = id)) as [->|]; [specialize (Hno t)|]; tauto.
Qed.

(** *** Steps *)

(** The state, the streams whose hook is still to run, and the tags that are still to go. *)
Definition pubState : Type := svc * gset Z * gset (Z * string).

(** No unsubscription of the stream is under way: a stream handles one message after the
    other. *)
Definition idle (ctx : Ctx) (U : gset (Z * string)) : Prop :=
  forall id t, cx_streamId ctx = Some id -> (id, t) ∉ U.

(** A step of the service: a stream joins (it came in or was dialed) or leaves, a hook runs,
    a message is handled, an unsubscription is begun and ended, messages wait for streams
    (of the dial pool, or of a publication that looked up its patterns earlier) and are
    sent, or the host calls. *)
Inductive pubStep : pubState -> pubState -> Prop :=
| step_join s s' P U peerId id :
    joinStream (Ok peerId) s = (s', Ok (Ok id)) -> sp_streams (sv_pool s) !! nextId (sv_pool s) = None ->
    nextId (sv_pool s) ∉ P -> (forall t, (nextId (sv_pool s), t) ∉ U) -> pubStep (s, P, U) (s', P, U)
| step_leave s s' P U id : is_Some (sp_streams (sv_pool s) !! id) ->
    leaveStream id s = (s', Ok tt) -> pubStep (s, P, U) (s', {[id]} ∪ P, U)
| step_hook s s' P U id r : id ∈ P -> sp_streams (sv_pool s) !! id = None ->
    onStreamClose id s = (s', r) -> pubStep (s, P, U) (s', P ∖ {[id]}, U)
| step_message s s' P U ctx peerId msg r : idle ctx U ->
    HandleMessage ctx peerId msg s = (s', r) -> pubStep (s, P, U) (s', P, U)
| step_drop_interest s s' P U ctx id sp topics tags : idle ctx U -> cx_streamId ctx = Some id ->
    dropInterest (Some id) sp topics s = (s', Ok tags) -> pubStep (s, P, U) (s', P, U ∪ lateTags id tags)
| step_drop_tags s s' P U id tags r : (forall t, t ∈ tags <-> (id, t) ∈ U) ->
    dropTags (Some id) tags s = (s', r) -> pubStep (s, P, U) (s', P, U ∖ lateTags id tags)
| step_spread s s' P U p patterns r : spread p patterns s = (s', r) -> pubStep (s, P, U) (s', P, U)
| step_send s s' P U id r : sendWaiting id s = (s', r) -> pubStep (s, P, U) (s', P, U)
| step_take_dial s s' P U r : takeDial s = (s', r) -> pubStep (s, P, U) (s', P, U)
| step_send_dialed s s' P U msg ids r : sendDialed msg ids s = (s', r) -> pubStep (s, P, U) (s', P, U)
| step_evict s s' P U sp k r : EvictMember sp k s = (s', r) -> pubStep (s, P, U) (s', P, U)
| step_revalidate s s' P U sp isMember r : RevalidateMembers sp isMember s = (s', r) -> pubStep (s, P, U) (s', P, U)
| step_close_space s s' P U sp r : CloseSpace sp s = (s', r) -> pubStep (s, P, U) (s', P, U)
| step_publish s s' P U now mid sp t b r : Publish_ now mid sp t b s = (s', r) -> pubStep (s, P, U) (s', P, U)
| step_subscribe s s' P U sp pat h r : Subscribe_ sp pat h s = (s', r) -> pubStep (s, P, U) (s', P, U)
| step_unsubscribe s s' P U sp pat id r : unsubscribe sp pat id s = (s', r) -> pubStep (s, P, U) (s', P, U)
| step_sync s s' P U sp r : SyncInterest sp s = (s', r) -> pubStep (s, P, U) (s', P, U)
| step_resync s s' P U r : resyncOne s = (s', r) -> pubStep (s, P, U) (s', P, U)
| step_dispatch s s' P U r : dispatchOne s = (s', r) -> pubStep (s, P, U) (s', P, U).

Lemma serves_HandleMessage late P s ctx peer msg : serves (late:=late) P s -> idle ctx late ->
  serves (late:=late) P (HandleMessage (L:=L) (Q:=Q) (DQ:=DQ) (TQ:=TQ) ctx peer msg s).1.
Proof.
  intros Hs Hidle. destruct msg; simpl.
  - by apply serves_handleSubscribe.
  - by apply serves_handleUnsubscribe.
  - eapply serves_quiet; [apply quiet_handlePublish|done].
  - eapply serves_quiet; [|done].
    unfold mbind, st_bind, reads. destruct (dp_OnStatus _); [|done]. by apply quiet_same.
  - done.
Qed.

Lemma samePool_writeOne id : frames samePool (writeOne (Q:=Q) id).
Proof.
  intros pool. unfold writeOne, calls, mbind, st_bind. destruct (sp_streams pool !! id) as [st|] eqn:Hst; simpl; [|done].
  destruct (mq_WaitOne (sm_queue st)) as [[msg q]|]; simpl; [|done]. eexists. split; [done|]. intros i.
  destruct (decide (i = id)) as [->|]; [rewrite lookup_insert_eq, Hst; by constructor|].
  rewrite lookup_insert_ne by done. destruct (_ !! i); by constructor.
Qed.

(** Steps that only move messages. *)
Lemma quiet_spread p patterns : frames quiet (spread (L:=L) (Q:=Q) (DQ:=DQ) (TQ:=TQ) p patterns).
Proof. unfold spread. destruct patterns; frame. apply quiet_onPool, samePool_Broadcast. Qed.
Lemma quiet_sendWaiting id : frames quiet (sendWaiting (L:=L) (Q:=Q) (DQ:=DQ) (TQ:=TQ) id).
Proof. unfold sendWaiting. frame. apply quiet_onPool, samePool_writeOne. Qed.
Lemma quiet_takeDial : frames quiet (takeDial (L:=L) (Q:=Q) (DQ:=DQ) (TQ:=TQ)).
Proof. intros s. unfold takeDial. destruct (mq_WaitOne _) as [[? ?]|]; by apply quiet_same. Qed.
Lemma quiet_sendDialed msg ids : frames quiet (sendDialed (L:=L) (Q:=Q) (DQ:=DQ) (TQ:=TQ) msg ids).
Proof. unfold sendDialed. frame. apply quiet_onPool, samePool_writeFirst. Qed.

Lemma serves_run {A} late P (m : ST svc A) s s' r : frames quiet m -> m s = (s', r) -> serves (late:=late) P s -> serves (late:=late) P s'.
Proof. intros Hq Hr. apply serves_quiet. by eapply (frames_run quiet). Qed.

Definition servesAt (x : pubState) : Prop := serves (late:=x.2) x.1.2 x.1.1.

Lemma serves_step x y : pubStep x y -> servesAt x -> servesAt y.
Proof.
  intros Hstep Hs. unfold servesAt in *. destruct Hstep as [s s' P U peerId id Hr Hf HP HU|s s' P U id Hid Hr|s s' P U id r HP Hf Hr|s s' P U ctx peerId msg r Hi Hr
    |s s' P U ctx id sp topics tags Hi Hid Hr|s s' P U id tags r Hall Hr|s s' P U p ps r Hr|s s' P U id r Hr|s s' P U r Hr|s s' P U msg ids r Hr
    |s s' P U sp k r Hr|s s' P U sp im r Hr|s s' P U sp r Hr|s s' P U now mid sp t b r Hr|s s' P U sp pat h r Hr|s s' P U sp pat id r Hr
    |s s' P U sp r Hr|s s' P U r Hr|s s' P U r Hr]; simpl in *.
  - unfold joinStream in Hr. rewrite (st_bind_run _ _ s s (sv_cfg s)) in Hr by done. unfold onPool in Hr.
    destruct (addStream (Ok peerId) (cf_WriteQueueSize (sv_cfg s)) [] (sv_pool s)) as [p' [a|[e|e]]] eqn:Ha; simplify_eq.
    unfold serves. cbn. by eapply serving_join.
  - destruct Hid as [st Hst]. unfold leaveStream, streamClose, onPool in Hr.
    destruct (removeStream_run (sv_pool s) id st (so_pool _ _ _ _ _ Hs) Hst) as (p' & Hrun & _).
    unfold mbind, st_bind, reads in Hr. rewrite Hst, Hrun in Hr. cbn in Hr. apply ret_Ok in Hr as [-> _].
    unfold serves. cbn. eapply (serving_leave P _ (sv_pool s)); [exact Hs|exact Hrun|exact Hst].
  - pose proof (serves_onStreamClose P id s Hs Hf) as Hc. by rewrite Hr in Hc.
  - pose proof (serves_HandleMessage U P s ctx peerId msg Hs Hi) as Hc. by rewrite Hr in Hc.
  - by destruct (serves_dropInterest _ _ _ _ _ _ _ _ Hs Hr).
  - destruct (serves_dropTags U (U ∖ lateTags id tags) P s id tags Hs Hall) as (s1 & Hr1 & Hs1); [|rewrite Hr1 in Hr; by simplify_eq].
    intros id' t. rewrite elem_of_difference, elem_lateTags, Hall. destruct (decide (id' = id)) as [->|]; tauto.
  - eapply serves_run; [apply quiet_spread|exact Hr|done].
  - eapply serves_run; [apply quiet_sendWaiting|exact Hr|done].
  - eapply serves_run; [apply quiet_takeDial|exact Hr|done].
  - eapply serves_run; [apply quiet_sendDialed|exact Hr|done].
  - destruct (evictSpaceStreams_run P sp (fun strm => bool_decide (si_account strm = Account k)) s Hs) as (s1 & Hr1 & Hs1 & _).
    unfold EvictMember in Hr. rewrite Hr1 in Hr. by simplify_eq.
  - destruct (evictSpaceStreams_run P sp (fun strm => negb (im (si_account strm))) s Hs) as (s1 & Hr1 & Hs1 & _).
    unfold RevalidateMembers in Hr. rewrite Hr1 in Hr. by simplify_eq.
  - destruct (serves_CloseSpace P sp s Hs) as (s1 & Hr1 & Hs1 & _). rewrite Hr1 in Hr. by simplify_eq.
  - eapply serves_run; [apply quiet_Publish|exact Hr|done].
  - eapply serves_run; [apply quiet_Subscribe|exact Hr|done].
  - eapply serves_run; [apply quiet_unsubscribe|exact Hr|done].
  - eapply serves_run; [apply quiet_SyncInterest|exact Hr|done].
  - eapply serves_run; [apply quiet_resyncOne|exact Hr|done].
  - eapply serves_run; [apply quiet_dispatchOne|exact Hr|done].
Qed.

Lemma servesAt_steps x y : rtc pubStep x y -> servesAt x -> servesAt y.
Proof. induction 1 as [|x y z Hxy _ IH]; [done|]. intros Hx. apply IH. by eapply serves_step. Qed.

Lemma serves_new deps config key now : servesAt (newService deps config key now : svc, ∅, ∅).
Proof.
  assert (forall id sp, interestIn ∅ id sp = ∅) as Hint by (intros; unfold interestIn; by rewrite lookup_empty).
  split; cbn.
  - apply pool_ok_new.
  - intros sp. rewrite lookup_empty. intros p. done.
  - unfold orDefault. split; case_match; lia.
  - intros id strm. by rewrite lookup_empty.
  - intros id sp p. rewrite Hint. by intros ?%not_elem_of_empty.
  - intros id st t. by rewrite lookup_empty.
  - intros id t. by intros ?%not_elem_of_empty.
  - intros id sp p. rewrite Hint. by intros ?%not_elem_of_empty.
Qed.

(** The states the service can come to: all of them, and those with no unsubscription under
    way, with the hooks that wait. *)
Definition comesTo (deps : Deps) (config : Config) (key : PrivKey) (now : Z) (x : pubState) : Prop :=
  rtc pubStep (newService deps config key now, ∅, ∅) x.
Definition reachable (deps : Deps) (config : Config) (key : PrivKey) (now : Z) (s : svc) (P : gset Z) : Prop :=
  comesTo deps config key now (s, P, ∅).

Lemma comesTo_serves deps config key now x : comesTo deps config key now x -> servesAt x.
Proof. intros Hr. apply (servesAt_steps _ _ Hr), serves_new. Qed.
Lemma serves_reachable deps config key now s P : reachable deps config key now s P -> serves (late:=∅) P s.
Proof. apply comesTo_serves. Qed.

(** ** What the runs show *)

(** The message waits at the end of the queue if there was room, else it is dropped. *)
Definition offered (p : Publish) (st st' : stream Q) : Prop :=
  sameStream st st' /\ mq_items (sm_queue st') =
    if Z.of_nat (length (mq_items (sm_queue st))) <? mq_size (sm_queue st)
    then mq_items (sm_queue st) ++ [MPublish p] else mq_items (sm_queue st).
Lemma pushed_offered p st : offered p st (pushed (MPublish p) st).
Proof.
  split; [apply pushed_same|]. unfold pushed. pose proof (mq_TryAdd_law (MPublish p) (sm_queue st)) as Hl.
  cbn [addressed]. destruct (_ <? _).
  - destruct Hl as (q & Hq & Hi & _). change (addressed (sm_peerId st) (MPublish p)) with (MPublish p). by rewrite Hq.
  - change (addressed (sm_peerId st) (MPublish p)) with (MPublish p). by rewrite Hl.
Qed.

(** The patterns that match are those somebody holds and that cover the topic. *)
Lemma matchRemote_spec late P s p pat : serves (late:=late) P s -> ValidateTopic (pb_Topic p) = Ok tt ->
  pat ∈ matchRemote p s <-> covers (splitTopic pat) (splitTopic (pb_Topic p)) = true /\
    exists id, pat ∈ interestIn (sv_streams s) id (pb_SpaceId p).
Proof.
  intros Hs Hv.
  assert ((exists id, pat ∈ interestIn (sv_streams s) id (pb_SpaceId p)) <-> (0 < holders (pb_SpaceId p) pat (sv_streams s))%nat) as ->.
  { split.
    - intros [id Hin]. unfold interestIn in Hin.
      destruct (sv_streams s !! id) as [strm|] eqn:Hid; [by eapply holders_pos|by apply not_elem_of_empty in Hin].
    - unfold holders. intros Hh. destruct (map_choose (filter (fun x => pat ∈ bySpaceOf x.2 (pb_SpaceId p)) (sv_streams s)))
        as (id0 & strm0 & Hx); [intros Hz; rewrite Hz, map_size_empty in Hh; lia|].
      apply map_lookup_filter_Some in Hx as [Hx1 Hx2]. exists id0. unfold interestIn. by rewrite Hx1. }
  unfold matchRemote. pose proof (so_tracks _ _ _ _ _ Hs (pb_SpaceId p)) as Ht.
  destruct (sv_remote s !! pb_SpaceId p) as [trie|]; simpl in Ht.
  - destruct Ht as (m & Hc & Hm). destruct (counted_Match _ _ Hc _ Hv) as [_ Hin]. rewrite Hin, <- Hm.
    destruct (m !! pat) as [k|] eqn:Hk; simpl.
    + pose proof (counted_pos _ _ Hc _ _ Hk). split; intros [? ?]; split; eauto; lia.
    + split; [intros [Hx ?]; by destruct Hx|intros [? ?]; lia].
  - rewrite Ht. split; [by intros ?%not_elem_of_nil|lia].
Qed.

(** Writing to the streams with the tags of the patterns. *)
Lemma spread_run late P s p patterns : serves (late:=late) P s ->
  exists s', spread p patterns s = (s', Ok tt) /\ quiet s s' /\
    forall id, sp_streams (sv_pool s') !! id =
      broadcasted (MPublish p) (interestTag (pb_SpaceId p) <$> patterns) <$> sp_streams (sv_pool s) !! id.
Proof.
  intros Hs. pose proof (quiet_spread p patterns s) as Hq. unfold spread in *. destruct patterns as [|a ps] eqn:Heq.
  - exists s. split_and!; [done|done|]. intros id. destruct (sp_streams (sv_pool s) !! id) as [st|]; [|done]. simpl.
    by f_equal.
  - rewrite <- Heq in *. clear Heq a ps.
    pose proof (Broadcast_run (sv_pool s) (MPublish p) (interestTag (pb_SpaceId p) <$> patterns) (so_pool _ _ _ _ _ Hs)) as Hrun.
    unfold onPool, mbind, st_bind in *. rewrite Hrun in *. eexists. split_and!; [reflexivity|exact Hq|].
    intros id. cbn. by rewrite lookup_fmap.
Qed.

(** A stream is to get the message [p] in the state [s2] of a service, when its patterns were
    looked up in [s]: it subscribes to, or is unsubscribing from, one of them. *)
Definition wants (p : Publish) s s2 (U2 : gset (Z * string)) (id : Z) : Prop :=
  exists pat, covers (splitTopic pat) (splitTopic (pb_Topic p)) = true /\
    (pat ∈ interestIn (sv_streams s2) id (pb_SpaceId p) \/ (id, interestTag (pb_SpaceId p) pat) ∈ U2) /\
    exists id0, pat ∈ interestIn (sv_streams s) id0 (pb_SpaceId p).

(** C25: a message reaches the subscribers.  Let a service come to a state in any way
    (streams joining and leaving, hooks running late, subscriptions, evictions, queues that
    fill and drain, and unsubscriptions interrupted after the interest went and before the
    tags did), let a publication with a valid topic look up the patterns there, and let
    anything happen before it writes to the streams.  The write goes through and offers the
    message, once, to exactly those streams that then subscribe in the space to a pattern
    which covers the topic and which somebody subscribed to when the patterns were looked
    up, or that are in the middle of unsubscribing from such a pattern: it is put at the end
    of their queue when there is room and dropped when there is none.  No other stream,
    subscription or pattern changes. *)
Theorem pubsub_fanout deps config key now s P U s2 P2 U2 p :
  comesTo deps config key now (s, P, U) -> rtc pubStep (s, P, U) (s2, P2, U2) -> ValidateTopic (pb_Topic p) = Ok tt ->
  exists s', spread p (matchRemote p s) s2 = (s', Ok tt) /\ sv_remote s' = sv_remote s2 /\ sv_streams s' = sv_streams s2 /\
    forall id, option_Forall2 (fun st st' => (wants p s s2 U2 id -> offered p st st') /\ (~ wants p s s2 U2 id -> st' = st))
      (sp_streams (sv_pool s2) !! id) (sp_streams (sv_pool s') !! id).
Proof.
  intros Hr Hrs Hv. apply comesTo_serves in Hr as Hs. pose proof (servesAt_steps _ _ Hrs Hs) as Hs2. unfold servesAt in *. simpl in Hs, Hs2.
  destruct (spread_run U2 P2 s2 p (matchRemote p s) Hs2) as (s' & Hrun & (_ & _ & _ & Hrem & Hst) & Hpool).
  exists s'. split_and!; [done|done|done|]. intros id. rewrite Hpool.
  destruct (sp_streams (sv_pool s2) !! id) as [st|] eqn:Hid; constructor. unfold broadcasted.
  assert (Exists (fun t => t ∈ sm_tags st) (interestTag (pb_SpaceId p) <$> matchRemote p s) <-> wants p s s2 U2 id) as Htag.
  { rewrite Exists_exists. split.
    - intros (t & (pat & -> & Hin)%list_elem_of_fmap & Ht). apply (matchRemote_spec _ _ _ _ _ Hs Hv) in Hin as [Hcov [id0 Hin]].
      exists pat. split_and!; [done| |by exists id0].
      apply (so_tags _ _ _ _ _ Hs2 id st _ Hid) in Ht as [(sp' & pat' & Heq & Hin')|]; [left|by right].
      apply interestTag_inj in Heq as [<- <-]; [done|by eapply (so_valid _ _ _ _ _ Hs)|by eapply (so_valid _ _ _ _ _ Hs2)].
    - intros (pat & Hcov & Hin & id0 & Hin0). exists (interestTag (pb_SpaceId p) pat). split.
      + apply list_elem_of_fmap. exists pat. split; [done|]. apply (matchRemote_spec _ _ _ _ _ Hs Hv). eauto.
      + apply (so_tags _ _ _ _ _ Hs2 id st _ Hid). destruct Hin as [Hin|]; [left|by right]. by exists (pb_SpaceId p), pat. }
  rewrite <- Htag. case_decide; [split; [intros _; apply pushed_offered|tauto]|tauto].
Qed.

(** C27: In every state a service can come to, also with unsubscriptions half done, no stream
    holds more patterns than the limits per space and per stream; a stream that has left and
    whose hook has run holds none; and a space whose last subscription is gone has no
    pattern in its trie. *)
Theorem pubsub_interest_bounded deps config key now s P U :
  comesTo deps config key now (s, P, U) ->
  (forall id sp, Z.of_nat (size (interestIn (sv_streams s) id sp)) <= cf_MaxPatternsPerSpace (sv_cfg s)) /\
  (forall id strm, sv_streams s !! id = Some strm ->
     Z.of_nat (sumSizes (si_bySpace strm)) <= cf_MaxPatternsPerStream (sv_cfg s)) /\
  (forall id sp, sp_streams (sv_pool s) !! id = None -> id ∉ P -> interestIn (sv_streams s) id sp = ∅) /\
  (forall sp trie, sv_remote s !! sp = Some trie -> (forall id, interestIn (sv_streams s) id sp = ∅) -> Len trie = 0).
Proof.
  intros Hr. apply comesTo_serves in Hr. unfold servesAt, serves in Hr. simpl in Hr.
  destruct Hr as [Hp Ht [Hc1 Hc2] Hrec Hv Hg _ Hl]. split_and!.
  - intros id sp. unfold interestIn. destruct (sv_streams s !! id) as [strm|] eqn:Hid; simpl; [|exact Hc2].
    apply (Hrec _ _ Hid).
  - intros id strm Hid. destruct (Hrec _ _ Hid) as (Hok & Htot & _). by rewrite <- Hok.
  - intros id sp Hpool HP. destruct (decide (interestIn (sv_streams s) id sp = ∅)) as [|Hne]; [done|].
    apply set_choose_L in Hne as [p Hin]. destruct (Hl _ _ _ Hin) as [[? ?]|]; [congruence|done].
  - intros sp trie Hsp Hnone. specialize (Ht sp). rewrite Hsp in Ht. destruct Ht as (m & Hc & Hm). unfold Len. rewrite (ct_size _ _ Hc).
    assert (m = ∅) as ->; [|done]. apply map_empty. intros p. destruct (m !! p) as [k|] eqn:Hk; [|done].
    pose proof (counted_pos _ _ Hc _ _ Hk) as Hpos. specialize (Hm p). rewrite Hk in Hm. simpl in Hm. unfold holders in Hm.
    destruct (map_choose (filter (fun x => p ∈ bySpaceOf x.2 sp) (sv_streams s))) as (id & strm & Hx).
    { intros Hz. rewrite Hz, map_size_empty in Hm. lia. }
    apply map_lookup_filter_Some in Hx as [Hx1 Hx2]. specialize (Hnone id). unfold interestIn in Hnone. rewrite Hx1 in Hnone.
    simpl in *. set_solver.
Qed.

(** C26: When the members of a space are checked again, in any state a service can come to
    with no unsubscription half done, every stream whose account is no longer a member loses
    its subscriptions in that space and every routing tag for it, so that no message of the
    space reaches it; the subscriptions of members and of other spaces stay. *)
Theorem pubsub_revalidate deps config key now s P sp isMember :
  reachable deps config key now s P ->
  exists s', RevalidateMembers sp isMember s = (s', Ok tt) /\
    (forall id strm, sv_streams s !! id = Some strm -> isMember (si_account strm) = false ->
       interestIn (sv_streams s') id sp = ∅ /\
       forall st pat, sp_streams (sv_pool s') !! id = Some st -> validateSpaceId sp = Ok tt -> interestTag sp pat ∉ sm_tags st) /\
    (forall id sp', (sp' <> sp \/ exists strm, sv_streams s !! id = Some strm /\ isMember (si_account strm) = true) ->
       interestIn (sv_streams s') id sp' = interestIn (sv_streams s) id sp').
Proof.
  intros Hr. apply serves_reachable in Hr.
  destruct (evictSpaceStreams_run P sp (fun strm => negb (isMember (si_account strm))) s Hr) as (s' & Hrun & Hs' & _ & Hint).
  exists s'. split_and!; [exact Hrun| |].
  - intros id strm Hid Hm. assert (interestIn (sv_streams s') id sp = ∅) as He.
    { rewrite Hint, decide_True; [done|]. split; [done|]. unfold evicted. rewrite Hid. simpl. by rewrite Hm. }
    split; [done|]. intros st pat Hst Hv Ht. apply (so_tags _ _ _ _ _ Hs' id st _ Hst) in Ht as [(sp' & pat' & Heq & Hin)|?%not_elem_of_empty]; [|done].
    apply interestTag_inj in Heq as [<- <-]; [|done|by eapply so_valid]. rewrite He in Hin. by apply not_elem_of_empty in Hin.
  - intros id sp' Hor. rewrite Hint, decide_False; [done|]. intros [-> Hev]. destruct Hor as [|(strm & Hid & Hm)]; [done|].
    unfold evicted in Hev. rewrite Hid in Hev. simpl in Hev. by rewrite Hm in Hev.
Qed.

(** ** Who may publish *)

(** A message may be relayed: by a responsible node for another, or by a member for itself,
    into a topic that is not somebody else's. *)
Definition authorised s (relay : Relay) (ctx : Ctx) (peerId : string) (p : Publish) : Prop :=
  ry_IsResponsible relay (pb_SpaceId p) = true /\
  (pb_Relayed p = true /\ ry_IsResponsibleNode relay (pb_SpaceId p) peerId = true \/
   pb_Relayed p = false /\ pb_Identity p <> ""%string /\ cx_identity ctx = Some (pb_Identity p) /\
   (forall check, dp_Membership (sv_deps s) = Some check -> exists k, CtxPubKey ctx = Ok k /\ check (pb_SpaceId p) k = true) /\
   (TopicOwner (pb_Topic p) <> ""%string -> exists k, CtxPubKey ctx = Ok k /\ Account k = TopicOwner (pb_Topic p))).

Lemma checkRelay_None s ctx p : checkRelay s ctx p = None ->
  pb_Identity p <> ""%string /\ cx_identity ctx = Some (pb_Identity p) /\
  (forall check, dp_Membership (sv_deps s) = Some check -> exists k, CtxPubKey ctx = Ok k /\ check (pb_SpaceId p) k = true) /\
  (TopicOwner (pb_Topic p) <> ""%string -> exists k, CtxPubKey ctx = Ok k /\ Account k = TopicOwner (pb_Topic p)).
Proof.
  unfold checkRelay, CtxIdentity. destruct (cx_identity ctx) as [i|]; simpl; [|done].
  destruct (_ && _ && _) eqn:Hi; simpl; [|done].
  apply andb_true_iff in Hi as [[Hi1 Hi2]%andb_true_iff Hi3]. rewrite negb_true_iff, bool_decide_eq_false in Hi2.
  rewrite bool_decide_eq_true in Hi3. subst i. intros Hrest. split_and!; [done|done| |].
  - intros check Hc. rewrite Hc in Hrest. destruct (CtxPubKey ctx) as [k|]; [|done]. exists k. split; [done|].
    by destruct (check (pb_SpaceId p) k).
  - intros Hown. destruct (match dp_Membership _ with Some _ => _ | None => _ end); [done|].
    rewrite bool_decide_eq_false_2 in Hrest by done. destruct (CtxPubKey ctx) as [k|]; [|done]. exists k. split; [done|].
    by case_decide.
Qed.

(** No stream is given the message: its queue grows by other messages only. *)
Definition poolUnpublished (p : Publish) (q q' : streamPool Q) : Prop :=
  forall id st', sp_streams q' !! id = Some st' -> exists st l, sp_streams q !! id = Some st /\
    mq_items (sm_queue st') = mq_items (sm_queue st) ++ l /\ MPublish p ∉ l.
Definition unpublished (p : Publish) s s' : Prop := poolUnpublished p (sv_pool s) (sv_pool s').
#[local] Instance poolUnpublished_preorder p : PreOrder (poolUnpublished p).
Proof.
  split.
  - intros q id st Hst. exists st, []. rewrite app_nil_r. split_and!; [done|done|]. by intros ?%not_elem_of_nil.
  - intros q1 q2 q3 H12 H23 id st Hst. destruct (H23 id st Hst) as (st2 & l2 & Hst2 & Hl2 & Hn2).
    destruct (H12 id st2 Hst2) as (st1 & l1 & Hst1 & Hl1 & Hn1). exists st1, (l1 ++ l2). rewrite Hl2, Hl1, app_assoc.
    split_and!; [done|done|]. by intros [|]%elem_of_app.
Qed.

Lemma status_unpublished p st peer s : unpublished p s (sendStatusMsg peer st s).1.
Proof.
  unfold unpublished, sendStatusMsg, mbind, st_bind, onPool.
  assert (frames (poolUnpublished p) (SendById (Q:=Q) (MStatus st) [peer])) as Hf.
  { assert (forall id, frames (poolUnpublished p) (write (Q:=Q) id (MStatus st))) as Hw.
    { intros id q. destruct (sp_streams q !! id) as [s0|] eqn:Hs0.
      - destruct (write_run q id s0 (MStatus st) Hs0) as [b Hb]. rewrite Hb. intros i st' Hst'. simpl in Hst'.
        apply lookup_insert_Some in Hst' as [[<- <-]|[_ Hst']]; [|by apply (reflexivity (R:=poolUnpublished p) q)].
        exists s0. unfold pushed. destruct (mq_TryAdd _ _) as [q'|] eqn:Hq.
        + exists [addressed (sm_peerId s0) (MStatus st)]. simpl. rewrite (mq_TryAdd_Some _ _ _ Hq).
          split_and!; [done|done|]. by intros ?%list_elem_of_singleton.
        + exists []. rewrite app_nil_r. split_and!; [done|done|]. by intros ?%not_elem_of_nil.
      - unfold write, calls, mbind, st_bind. rewrite Hs0. simpl. reflexivity. }
    assert (forall ids, frames (poolUnpublished p) (writeFirst (Q:=Q) ids (MStatus st))) as Hwf
      by (induction ids as [|id ids IH]; simpl; frame; auto).
    unfold SendById. frame. apply Hwf. }
  specialize (Hf (sv_pool s)). destruct (SendById (MStatus st) [peer] (sv_pool s)) as [q [u|[e|e]]]; exact Hf.
Qed.

(** C28: A node passes a message on only when it may: it is responsible for the space, and
    the message comes either from a responsible node that relays it, or from the connected
    member whose key the message names, into a topic that nobody else owns.  Otherwise no
    stream is given the message and nothing is forwarded. *)
Theorem pubsub_relay_guarded s s' relay ctx peerId p r :
  relayPublish relay ctx peerId p s = (s', r) ->
  authorised s relay ctx peerId p \/ unpublished p s s' /\ sv_dial s' = sv_dial s.
Proof.
  intros Hr.
  assert (forall st, unpublished p s (sendStatusMsg peerId st s).1 /\ sv_dial (sendStatusMsg peerId st s).1 = sv_dial s) as Hstat.
  { intros st. split; [apply status_unpublished|]. unfold sendStatusMsg, mbind, st_bind, onPool.
    by destruct (SendById _ _ _) as [q [u|[e|e]]]. }
  unfold relayPublish in Hr. destruct (ry_IsResponsible relay (pb_SpaceId p)) eqn:Hresp; simpl in Hr.
  2: { right. specialize (Hstat (mkStatus (pb_SpaceId p) [pb_Topic p] NotResponsible (pb_MsgId p))). unfold sendPubStatus in Hr.
       by rewrite Hr in Hstat. }
  destruct (pb_Relayed p) eqn:Hrel.
  { destruct (ry_IsResponsibleNode relay (pb_SpaceId p) peerId) eqn:Hnode; [left; split; [done|by left]|].
    right. apply ret_Ok in Hr || (injection Hr as <- _). by split; [apply (reflexivity (R:=poolUnpublished p))|]. }
  rewrite (st_bind_run _ _ s s (checkRelay s ctx p)) in Hr by done. destruct (checkRelay s ctx p) as [code|] eqn:Hck.
  { right. specialize (Hstat (mkStatus (pb_SpaceId p) [pb_Topic p] code (pb_MsgId p))). unfold sendPubStatus in Hr.
    by rewrite Hr in Hstat. }
  left. split; [done|]. right. split; [done|]. by apply checkRelay_None.
Qed.

(** ** What a client delivers *)

Lemma int64_small z : - 2 ^ 63 <= z < 2 ^ 63 -> int64 z = z.
Proof. intros Hz. unfold int64. rewrite Z.mod_small; lia. Qed.
(** The wrap-around does not bring a far time near. *)
Lemma isStale_exact s now t : 0 <= now < 2 ^ 62 -> - 2 ^ 63 <= t < 2 ^ 63 -> 0 <= cf_MaxTimestampSkew (sv_cfg s) < 2 ^ 62 ->
  t <> 0 -> isStale s now t = negb (bool_decide (Z.abs (now - t) <= cf_MaxTimestampSkew (sv_cfg s))).
Proof.
  intros Hn Ht Hk Hne. unfold isStale. destruct (Z.eqb_spec t 0); [done|].
  assert (int64 (now - t) = now - t \/ int64 (now - t) = now - t - 2 ^ 64 /\ 2 ^ 63 <= now - t) as Hi.
  { destruct (Z.lt_ge_cases (now - t) (2 ^ 63)); [left; apply int64_small; lia|right]. split; [|done]. unfold int64.
    rewrite <- (Z_mod_plus_full (now - t + 2 ^ 63) (-1) (2 ^ 64)), Z.mod_small; lia. }
  case_bool_decide as Hb; simpl.
  - rewrite orb_false_iff, !Z.ltb_ge. lia.
  - rewrite orb_true_iff, !Z.ltb_lt. lia.
Qed.

(** The times are in range: a clock below 2^62 milliseconds, a time of 64 bits, a skew below
    2^62 milliseconds. *)
Definition times_ok s (ctx : Ctx) (p : Publish) : Prop :=
  0 <= cx_now ctx < 2 ^ 62 /\ - 2 ^ 63 <= pb_TimestampMilli p < 2 ^ 63 /\ 0 <= cf_MaxTimestampSkew (sv_cfg s) < 2 ^ 62.

(** C29: a client hands a received message to its handlers only when it subscribed to the
    topic, the sender named in the message is a member, owns the topic if somebody does, and
    signed exactly these bytes, the time in the message is zero (which stands for none and
    is always accepted) or, with the times in the range of the machine, no farther from the
    clock than the allowed skew, and the id of the message is not in the cache of ids; it is
    then handed over once, opened. *)
Theorem pubsub_receive_authentic s s' ctx p r :
  times_ok s ctx p -> receivePublish ctx p s = (s', r) ->
  sv_dispatch s' = sv_dispatch s \/
  exists k payload, 
    mq_items (sv_dispatch s') = mq_items (sv_dispatch s) ++
      [mkDispatchItem (localPatterns s (pb_SpaceId p) (pb_Topic p)) (pb_SpaceId p) (pb_Topic p) k payload] /\
    localPatterns s (pb_SpaceId p) (pb_Topic p) <> [] /\
    identityOf p = Ok k /\ ed25519_Verify (pubKey k) (publishSignData p) (pb_Signature p) = true /\
    (forall check, dp_Membership (sv_deps s) = Some check -> check (pb_SpaceId p) k = true) /\
    (TopicOwner (pb_Topic p) = ""%string \/ Account k = TopicOwner (pb_Topic p)) /\
    (pb_TimestampMilli p = 0 \/ Z.abs (cx_now ctx - pb_TimestampMilli p) <= cf_MaxTimestampSkew (sv_cfg s)) /\
    (String.length (pb_MsgId p) = msgIdLen -> pb_MsgId p ∉ dd_set (sv_dedup s)) /\ openPayload s p = Ok payload.
Proof.
  intros (Hnow & Htime & Hskew) Hr. unfold receivePublish in Hr.
  rewrite (st_bind_run _ _ s s (localPatterns s (pb_SpaceId p) (pb_Topic p))) in Hr by done.
  destruct (localPatterns s _ _) as [|a ps] eqn:Hpat; [injection Hr as <- _; by left|].
  rewrite (st_bind_run _ _ s s (checkReceive s ctx p)) in Hr by done.
  destruct (checkReceive s ctx p) as [k|[e|e]] eqn:Hck; [|injection Hr as <- _; by left..].
  unfold checkReceive in Hck. destruct (identityOf p) as [k'|] eqn:Hid; [|done]. simpl in Hck.
  destruct (match dp_Membership _ with Some _ => _ | None => _ end) eqn:Hmem; [done|]. simpl in Hck.
  destruct (negb _ && negb _) eqn:Hown; [done|]. simpl in Hck. destruct (isStale s _ _) eqn:Hstale; [done|]. simpl in Hck.
  unfold pub_verifySignature, PubKey_Verify in Hck. simpl in Hck.
  destruct (ed25519_Verify _ _ _) eqn:Hver; [|done]. injection Hck as <-.
  unfold mbind at 1, st_bind at 1 in Hr. destruct (seenId (pb_MsgId p) s) as [s1 [dup|e]] eqn:Hseen; cycle 1.
  { injection Hr as <- _. left. unfold seenId in Hseen. destruct (seen _ _). by injection Hseen as <- _. }
  assert (exists d, s1 = set_dedup d s /\ (dup = false -> pb_MsgId p ∉ dd_set (sv_dedup s) \/ String.length (pb_MsgId p) <> msgIdLen)) as (d & -> & Hdup).
  { unfold seenId in Hseen. destruct (seen (pb_MsgId p) (sv_dedup s)) as [d r1] eqn:Hs1. injection Hseen as <- ->. exists d. split; [done|].
    unfold seen in Hs1. case_decide; [by right|]. case_decide; [injection Hs1 as _ <-; done|by left]. }
  destruct dup; [injection Hr as <- _; by left|].
  rewrite (st_bind_run _ _ (set_dedup d s) (set_dedup d s) (openPayload s p)) in Hr by done.
  destruct (openPayload s p) as [payload|[e|e]]; [|injection Hr as <- _; by left..].
  injection Hr as <- _. cbn [sv_dispatch set_dedup]. destruct (mq_TryAdd _ _) as [q|] eqn:Hq; [|by left]. right.
  exists k', payload. cbn. rewrite (mq_TryAdd_Some _ _ _ Hq). split_and!; try done.
  - intros check Hc. rewrite Hc in Hmem. by destruct (check _ _).
  - rewrite andb_false_iff, !negb_false_iff, !bool_decide_eq_true in Hown. tauto.
  - destruct (decide (pb_TimestampMilli p = 0)) as [|Hne]; [by left|right].
    rewrite isStale_exact in Hstale by done. by rewrite negb_false_iff, bool_decide_eq_true in Hstale.
  - intros Hlen. by destruct (Hdup eq_refl).
Qed.
End main.

(** ** Signed bytes *)

Lemma littleEndian_length n v : String.length (littleEndian n v) = n.
Proof. revert v. induction n as [|n IH]; intros v; simpl; [done|]. by rewrite IH. Qed.

Lemma littleEndian_inj n v w : littleEndian n v = littleEndian n w -> v mod 256 ^ Z.of_nat n = w mod 256 ^ Z.of_nat n.
Proof.
  revert v w. induction n as [|n IH]; intros v w Heq; [by rewrite !Z.mod_1_r|]. simpl in Heq. injection Heq as Hb Hr.
  apply IH in Hr. assert (v mod 256 = w mod 256) as Hlow.
  { apply (byteAt_inj (v mod 256) (w mod 256)); [apply Z.mod_pos_bound; lia..|]. unfold byteAt in *. by rewrite !Z.mod_mod. }
  rewrite Nat2Z.inj_succ, Z.pow_succ_r, (Z.mul_comm 256) by lia. rewrite !Z.shiftr_div_pow2 in Hr by lia. change (2 ^ 8) with 256 in Hr.
  assert (forall z, z mod (256 ^ Z.of_nat n * 256) = 256 * ((z / 256) mod 256 ^ Z.of_nat n) + z mod 256) as Hsplit.
  { intros z. rewrite (Z.mul_comm _ 256), Z.rem_mul_r by lia. lia. }
  rewrite !Hsplit, Hr, Hlow. done.
Qed.

Lemma signField_inj f f' rest rest' : Z.of_nat (String.length f) < 2 ^ 32 -> Z.of_nat (String.length f') < 2 ^ 32 ->
  signField f +:+ rest = signField f' +:+ rest' -> f = f' /\ rest = rest'.
Proof.
  intros Hl Hl' Heq. unfold signField in Heq. rewrite !append_assoc in Heq.
  apply append_inj_length in Heq as [Hlen Heq]; [|by rewrite !littleEndian_length].
  apply littleEndian_inj in Hlen. rewrite !Z.mod_small in Hlen by (change (256 ^ Z.of_nat 4) with (2 ^ 32); lia).
  apply append_inj_length in Heq as [-> ->]; [done|lia].
Qed.

(** The fields of a message are as long as a length can say, the time is a 64-bit number. *)
Definition signable (p : Publish) : Prop :=
  Z.of_nat (String.length (pb_SpaceId p)) < 2 ^ 32 /\ Z.of_nat (String.length (pb_Topic p)) < 2 ^ 32 /\
  Z.of_nat (String.length (pb_MsgId p)) < 2 ^ 32 /\ Z.of_nat (String.length (pb_KeyId p)) < 2 ^ 32 /\
  - 2 ^ 63 <= pb_TimestampMilli p < 2 ^ 63.

(** C30: The bytes a publisher signs say everything about the message that is signed: two
    messages with the same signed bytes have the same space, topic, id, key, time and
    payload, so no field can be moved into another under a valid signature. *)
Theorem pubsub_sign_unambiguous (p p' : Publish) : signable p -> signable p' ->
  publishSignData p = publishSignData p' ->
  pb_SpaceId p = pb_SpaceId p' /\ pb_Topic p = pb_Topic p' /\ pb_MsgId p = pb_MsgId p' /\ pb_KeyId p = pb_KeyId p' /\
  pb_TimestampMilli p = pb_TimestampMilli p' /\ pb_Payload p = pb_Payload p'.
Proof.
  intros (H1 & H2 & H3 & H4 & H5) (H1' & H2' & H3' & H4' & H5') Heq. unfold publishSignData in Heq.
  apply append_inj_length in Heq as [_ Heq]; [|done].
  apply signField_inj in Heq as [-> Heq]; [|done..]. apply signField_inj in Heq as [-> Heq]; [|done..].
  apply signField_inj in Heq as [-> Heq]; [|done..]. apply signField_inj in Heq as [-> Heq]; [|done..].
  apply append_inj_length in Heq as [Ht ->]; [|by rewrite !littleEndian_length]. split_and!; try done.
  apply littleEndian_inj in Ht. change (256 ^ Z.of_nat 8) with (2 ^ 64) in Ht.
  rewrite (Z.mod_eq _ (2 ^ 64)), (Z.mod_eq (pb_TimestampMilli p') (2 ^ 64)) in Ht by lia. lia.
Qed.

(** ** Duplicates *)

(** The ids that were recorded, the last first; the cache knows the newest [size]. *)
Definition refSeen (size : nat) (id : bytes) (recent : list bytes) : list bytes * bool :=
  if decide (String.length id <> msgIdLen) then (recent, false)
  else if decide (id ∈ take size recent) then (recent, true)
  else (id :: recent, false).

Record dedup_ok (size : nat) (d : msgIdDedup) (recent : list bytes) : Prop := mkDedupOk {
  do_size : (0 < size)%nat;
  do_ring : length (dd_ring d) = size;
  do_nodup : NoDup (take size recent);
  do_set : dd_set d = list_to_set (take size recent);
  do_pos : dd_pos d = (length recent mod size)%nat;
  do_full : dd_full d = bool_decide (size <= length recent)%nat;
  do_entries i : (i < size)%nat -> (i < length recent)%nat ->
    dd_ring d !! ((length recent - 1 - i) mod size)%nat = recent !! i;
}.

Lemma dedup_new size : (0 < size)%nat -> dedup_ok size (newMsgIdDedup size) [].
Proof.
  intros Hs. split; simpl; [done|by rewrite length_replicate|by rewrite take_nil; constructor|by rewrite take_nil| | |lia].
  - by rewrite Nat.Div0.mod_0_l.
  - rewrite bool_decide_eq_false_2; [done|lia].
Qed.

Lemma take_cons_pred {A} (x : A) l n : (0 < n)%nat -> take n (x :: l) = x :: take (n - 1) l.
Proof. intros Hn. destruct n as [|n]; [lia|]. simpl. by rewrite Nat.sub_0_r. Qed.

Lemma take_pred_prefix {A} (l : list A) n : (0 < n)%nat -> take (n - 1) l `prefix_of` take n l.
Proof. intros Hn. exists (take 1 (drop (n - 1) l)). rewrite take_take_drop. f_equal. lia. Qed.

Lemma mod_pred_ne n k size : (0 < k < size)%nat -> (k <= n)%nat -> ((n - k) mod size <> n mod size)%nat.
Proof.
  intros Hk Hn Heq. pose proof (Nat.div_mod_eq n size) as H1. pose proof (Nat.div_mod_eq (n - k) size) as H2.
  rewrite Heq in H2. destruct (Nat.le_gt_cases (n / size) ((n - k) / size)) as [Hq|Hq]; nia.
Qed.

Lemma seen_refines size d recent id : dedup_ok size d recent ->
  exists d', seen id d = (d', Ok (refSeen size id recent).2) /\ dedup_ok size d' (refSeen size id recent).1.
Proof.
  intros [Hs Hring Hnd Hset Hpos Hfull Hent]. unfold seen, refSeen.
  destruct (decide (String.length id <> msgIdLen)) as [|_]; [by exists d|].
  rewrite Hset. destruct (decide (id ∈ take size recent)) as [Hin|Hnot].
  { rewrite decide_True by (by apply elem_of_list_to_set). by exists d. }
  rewrite decide_False by (by rewrite elem_of_list_to_set). set (n := length recent) in *.
  assert (n mod size < size)%nat as Hlt by (apply Nat.mod_upper_bound; lia).
  destruct (lookup_lt_is_Some_2 (dd_ring d) (dd_pos d)) as [oldest Hold]; [by rewrite Hpos, Hring|]. rewrite Hold.
  assert ((if dd_full d then list_to_set (take size recent) ∖ {[oldest]} else list_to_set (take size recent)) =
    (list_to_set (take (size - 1) recent) : gset string)) as Hset'.
  { rewrite Hfull. case_bool_decide as Hf.
    - assert (recent !! (size - 1)%nat = Some oldest) as Hlast.
      { rewrite <- (Hent (size - 1)%nat), <- Hold, Hpos by lia. f_equal.
        replace (n - 1 - (size - 1))%nat with (n - size)%nat by lia.
        replace n with ((n - size) + 1 * size)%nat at 2 by lia. by rewrite Nat.Div0.mod_add. }
      assert (take size recent = take (size - 1) recent ++ [oldest]) as Htake.
      { replace size with (S (size - 1)) at 1 by lia. by apply take_S_r. }
      rewrite Htake in Hnd |- *. apply NoDup_app in Hnd as (_ & Hx & _). apply set_eq. intros y.
      rewrite elem_of_difference, !elem_of_list_to_set, elem_of_app, elem_of_singleton, list_elem_of_singleton.
      specialize (Hx y). rewrite list_elem_of_singleton in Hx. tauto.
    - rewrite !take_ge by lia. done. }
  cbv zeta. rewrite Hset', length_insert, Hring.
  assert (forall d', dd_set d' = {[id]} ∪ list_to_set (take (size - 1) recent) -> dd_ring d' = <[dd_pos d := id]> (dd_ring d) ->
    dd_pos d' = (S n mod size)%nat -> dd_full d' = bool_decide (size <= S n)%nat -> dedup_ok size d' (id :: recent)) as Hok.
  { intros d' E1 E2 E3 E4. split; [done|by rewrite E2, length_insert| |by rewrite E1, take_cons_pred|done|done|].
    - rewrite take_cons_pred by done. constructor.
      + intros Hin. apply Hnot. by eapply elem_of_prefix, take_pred_prefix.
      + destruct (take_pred_prefix recent size Hs) as [k Hk]. rewrite Hk in Hnd. by apply NoDup_app in Hnd as [? _].
    - intros i Hi Hil. rewrite E2. simpl length in *. fold n. rewrite Hpos. destruct i as [|i].
      + replace (S n - 1 - 0)%nat with n by lia. rewrite list_lookup_insert_eq by (by rewrite Hring). done.
      + rewrite list_lookup_insert_ne.
        * simpl. rewrite <- Hent by lia. f_equal. f_equal. lia.
        * replace (S n - 1 - S i)%nat with (n - S i)%nat by lia. apply not_eq_sym, mod_pred_ne; lia. }
  pose proof (Nat.div_mod_eq n size) as Hdm. rewrite Hpos. destruct (decide (S (n mod size) = size)) as [Hw|Hw].
  - eexists. split; [done|]. apply Hok; [done|by rewrite Hpos| |]; simpl.
    + replace (S n) with (0 + S (n / size) * size)%nat by nia. by rewrite Nat.Div0.mod_add, Nat.Div0.mod_0_l.
    + rewrite bool_decide_eq_true_2; [done|]. nia.
  - eexists. split; [done|]. apply Hok; [done|by rewrite Hpos| |]; simpl.
    + apply Nat.mod_unique with (n / size)%nat; lia.
    + rewrite Hfull. apply bool_decide_ext. split; [lia|]. intros Hle. destruct (Nat.eq_dec size (S n)) as [->|]; [|lia].
      exfalso. apply Hw. rewrite Nat.mod_small; lia.
Qed.

(** The answers of a cache to one id after the other. *)
Fixpoint seenRun (d : msgIdDedup) (ids : list bytes) : res (list bool) :=
  match ids with
  | [] => Ok []
  | id :: ids =>
      match seen id d with
      | (d, Ok b) => bs ← seenRun d ids; Ok (b :: bs)
      | (_, Err e) => Err e
      end
  end.
Fixpoint refRun (size : nat) (recent : list bytes) (ids : list bytes) : list bool :=
  match ids with
  | [] => []
  | id :: ids => (refSeen size id recent).2 :: refRun size (refSeen size id recent).1 ids
  end.

(** C31: The ring of message ids answers every sequence of ids, without ever running out of
    its ring, like a list of all ids that were recorded: an id is a duplicate exactly when
    it is among the last ones that fit the cache, and ids of another length never are. *)
Theorem pubsub_dedup_refines (size : nat) (ids : list bytes) : (0 < size)%nat ->
  seenRun (newMsgIdDedup size) ids = Ok (refRun size [] ids).
Proof.
  intros Hs. assert (forall d recent, dedup_ok size d recent -> seenRun d ids = Ok (refRun size recent ids)) as Hrun;
    [|by apply Hrun, dedup_new].
  induction ids as [|id ids IH]; intros d recent Hok; simpl; [done|].
  destruct (seen_refines size d recent id Hok) as (d' & -> & Hok'). by rewrite (IH _ _ Hok').
Qed.
