(* ===== verification/PubSubExample.v ===== *)
(** Concrete publish/subscribe services: bounded queues, a limiter that counts, the toy
    signatures; the theorems of [PubSubMain] applied to runs of them. *)

From Stdlib Require Import ZArith Lia String Ascii.
From stdpp Require Import base option list gmap strings relations.
From S2P Require Import Prelude Crypto AclModels AclState AclValidator AclApply AclExample AclStorage AclKeep AclList.
From S2P Require Import TreeModels ChangeBuilder ToyCodec StrKey Topics StreamPool PubSub PubSubMain.

Local Open Scope Z_scope.

(** ** Instances *)

(** A queue with room for a number of messages. *)
Record boundedQueue (M : Type) := mkBoundedQueue { bq_room : Z; bq_items : list M }.
Arguments mkBoundedQueue {M}.
Arguments bq_room {M}.
Arguments bq_items {M}.

#[local] Instance bounded_MsgQueue M : MsgQueue M (boundedQueue M) := {
  mq_New n := mkBoundedQueue n [];
  mq_TryAdd x q := if bq_room q <=? Z.of_nat (length (bq_items q)) then None
                   else Some (mkBoundedQueue (bq_room q) (bq_items q ++ [x]));
  mq_WaitOne q := match bq_items q with [] => None | x :: xs => Some (x, mkBoundedQueue (bq_room q) xs) end;
}.
#[local] Program Instance bounded_MsgQueueLaws M : MsgQueueLaws M (boundedQueue M) :=
  { mq_items := bq_items; mq_size := bq_room }.
Next Obligation. done. Qed.
Next Obligation.
  intros M x q. simpl. destruct (Z.ltb_spec (Z.of_nat (length (bq_items q))) (bq_room q)) as [Hr|Hr].
  - destruct (Z.leb_spec (bq_room q) (Z.of_nat (length (bq_items q)))); [lia|]. by eexists.
  - destruct (Z.leb_spec (bq_room q) (Z.of_nat (length (bq_items q)))); [done|lia].
Qed.
Next Obligation. intros M q. simpl. destruct (bq_items q); [done|]. by eexists. Qed.
(** A bucket that is not filled again. *)
#[local] Instance counting_Limiter : Limiter Z := {
  NewLimiter _ burst := burst;
  lim_Allow _ n := if 0 <? n then (n - 1, true) else (n, false);
}.
#[local] Instance hexBase58 : Base58 := {
  FastBase58Encoding b := String "z" b;
  FastBase58Decoding s := match s with String "z" b => Ok b | _ => Err (GoError "no base 58") end;
}.

Abbreviation exSvc := (service Z (boundedQueue PubSubMessage) (boundedQueue dispatchItem) (boundedQueue (PubSubMessage * Target))).

(** ** A node *)

Definition exRelay : Relay := mkRelay (fun sp => bool_decide (sp = "s"%string)) (fun _ peer => bool_decide (peer = "node"%string)).
Definition exDeps : Deps := mkDeps (Some (fun _ k => bool_decide (k <> pubOf "E"))) None true (Some exRelay) false.
Definition exConfig : Config := mkConfig 0 0 2 0 0 0 0 0 0 0.
Definition exNew : exSvc := newService exDeps exConfig (privOf "N") 0.

Definition exCtx (id : Z) (who : string) : Ctx := mkCtx (Some id) (Some (idOf who)) 0.
Definition exId : bytes := "0123456789abcdef".
Definition exPub : Publish := mkPublish "s" "chat/7" exId "" "hi" (idOf alice) "" 0 false.

(** alice and bob join and subscribe, alice to one pattern more than she may. *)
Definition run1 {A} (m : ST exSvc A) (s : exSvc) : exSvc := (m s).1.
Definition exJoin1 : exSvc := run1 (joinStream (Ok "alice"%string)) exNew.
Definition exJoin2 : exSvc := run1 (joinStream (Ok "bob"%string)) exJoin1.
Definition exSub1 : exSvc :=
  run1 (HandleMessage (exCtx 1 alice) "alice" (MSubscribe "s" ["chat/*"; "docs/>"; "more"]%string)) exJoin2.
Definition exSub2 : exSvc := run1 (HandleMessage (exCtx 2 bob) "bob" (MSubscribe "s" ["docs/a"]%string)) exSub1.

Lemma exIdle ctx : idle ctx ∅.
Proof. intros id t _. by intros ?%not_elem_of_empty. Qed.

Lemma exSub2_reachable : reachable exDeps exConfig (privOf "N") 0 exSub2 ∅.
Proof.
  unfold reachable, comesTo. eapply rtc_l.
  { apply (step_join _ exJoin1 _ _ "alice" 1); [vm_compute; reflexivity..|vm_compute; discriminate|].
    intros t. by intros ?%not_elem_of_empty. }
  eapply rtc_l.
  { apply (step_join _ exJoin2 _ _ "bob" 2); [vm_compute; reflexivity..|vm_compute; discriminate|].
    intros t. by intros ?%not_elem_of_empty. }
  eapply rtc_l; [eapply (step_message _ exSub1); [apply exIdle|by apply surjective_pairing]|].
  eapply rtc_l; [eapply (step_message _ exSub2); [apply exIdle|by apply surjective_pairing]|]. apply rtc_refl.
Qed.

(** What waits for a stream. *)
Definition waiting (s : exSvc) (id : Z) : list PubSubMessage :=
  default [] (st ← sp_streams (sv_pool s) !! id; Some (bq_items (sm_queue st))).

(** A message looks up its patterns; before it is written, what waits for alice goes out,
    bob subscribes to her pattern, and alice begins to unsubscribe from it. *)
Definition exDrained : exSvc := run1 (sendWaiting 1) exSub2.
Definition exSub3 : exSvc := run1 (HandleMessage (exCtx 2 bob) "bob" (MSubscribe "s" ["chat/*"]%string)) exDrained.
Definition exDropping : exSvc := run1 (dropInterest (Some 1) "s" ["chat/*"]%string) exSub3.

Lemma exDropping_steps : rtc pubStep (exSub2, ∅, ∅) (exDropping, ∅, ∅ ∪ lateTags 1 ["s/chat/*"%string]).
Proof.
  eapply rtc_l; [eapply (step_send _ exDrained), surjective_pairing|].
  eapply rtc_l; [eapply (step_message _ exSub3); [apply exIdle|by apply surjective_pairing]|].
  eapply rtc_l; [|apply rtc_refl]. apply (step_drop_interest _ exDropping _ _ (exCtx 1 alice) 1 "s" ["chat/*"%string]);
    [apply exIdle|reflexivity|vm_compute; reflexivity].
Qed.

(** Both get it, alice because she is not done. *)
Lemma pubsub_fanout_witness :
  waiting exSub2 1 <> [] /\ waiting exDropping 1 = [] /\ interestIn (sv_streams exDropping) 1 "s" = {["docs/>"%string]} /\
  exists s', spread exPub (matchRemote exPub exSub2) exDropping = (s', Ok tt) /\ sv_streams s' = sv_streams exDropping /\
    waiting s' 1 = [MPublish exPub] /\ waiting s' 2 = [MPublish exPub].
Proof.
  split; [vm_compute; discriminate|]. split; [vm_compute; reflexivity|]. split; [vm_compute; reflexivity|].
  destruct (pubsub_fanout exDeps exConfig (privOf "N") 0 exSub2 ∅ ∅ exDropping ∅ _ exPub exSub2_reachable exDropping_steps)
    as (s' & Hr & _ & Hst & _); [vm_compute; reflexivity|].
  exists s'. split; [exact Hr|]. split; [exact Hst|].
  assert (s' = run1 (spread exPub (matchRemote exPub exSub2)) exDropping) as -> by (unfold run1; by rewrite Hr).
  split; vm_compute; reflexivity.
Defined.

Lemma pubsub_interest_bounded_witness :
  size (interestIn (sv_streams exSub2) 1 "s") = 2%nat /\
  Z.of_nat (size (interestIn (sv_streams exSub2) 1 "s")) <= cf_MaxPatternsPerSpace (sv_cfg exSub2).
Proof.
  split; [vm_compute; reflexivity|].
  exact (proj1 (pubsub_interest_bounded exDeps exConfig (privOf "N") 0 exSub2 ∅ ∅ exSub2_reachable) 1 "s"%string).
Defined.

Lemma pubsub_revalidate_witness :
  exists s', RevalidateMembers "s" (fun a => bool_decide (a <> Account (pubOf alice))) exSub2 = (s', Ok tt) /\
    interestIn (sv_streams s') 1 "s" = ∅ /\ interestIn (sv_streams s') 2 "s" = {["docs/a"%string]}.
Proof.
  destruct (pubsub_revalidate exDeps exConfig (privOf "N") 0 exSub2 ∅ "s"
    (fun a => bool_decide (a <> Account (pubOf alice))) exSub2_reachable) as (s' & Hr & Hout & Hin).
  exists s'. split; [exact Hr|]. split.
  - destruct (sv_streams exSub2 !! 1) as [strm|] eqn:Hs; [|vm_compute in Hs; discriminate].
    apply (Hout 1 strm Hs). vm_compute in Hs. injection Hs as <-. vm_compute. reflexivity.
  - rewrite (Hin 2 "s"%string); [vm_compute; reflexivity|]. right. destruct (sv_streams exSub2 !! 2) as [strm|] eqn:Hs;
      [|vm_compute in Hs; discriminate].
    exists strm. split; [reflexivity|]. vm_compute in Hs. injection Hs as <-. vm_compute. reflexivity.
Defined.

(** A stranger's message goes nowhere, and alice's is relayed. *)
Lemma pubsub_relay_guarded_witness :
  let bad := mkPublish "s" "chat/7" exId "" "hi" (idOf "E") "" 0 false in
  sv_dial (run1 (relayPublish exRelay (exCtx 2 "E") "bob" bad) exSub2) = sv_dial exSub2 /\
  authorised exSub2 exRelay (exCtx 1 alice) "alice" exPub.
Proof.
  intros bad. split.
  - destruct (pubsub_relay_guarded exSub2 (run1 (relayPublish exRelay (exCtx 2 "E") "bob" bad) exSub2) exRelay (exCtx 2 "E") "bob" bad
      (relayPublish exRelay (exCtx 2 "E") "bob" bad exSub2).2 (surjective_pairing _)) as [Ha|[_ Hd]]; [|exact Hd].
    vm_compute. reflexivity.
  - destruct (pubsub_relay_guarded exSub2 (run1 (relayPublish exRelay (exCtx 1 alice) "alice" exPub) exSub2) exRelay
      (exCtx 1 alice) "alice" exPub _ (surjective_pairing _)) as [Ha|[_ Hd]]; [exact Ha|].
    vm_compute in Hd. discriminate.
Defined.

(** ** A client *)

Definition exClient : exSvc :=
  run1 (Subscribe_ "s" "docs/a" 9) (run1 (Subscribe_ "s" "chat/*" 7)
    (newService (mkDeps None None true None false) exConfig (privOf "C") 0)).
Definition exSigned : Publish :=
  match signPublish (privOf alice) (mkPublish "s" "chat/7" exId "" "hi" (idOf alice) "" 1000000 false) with
  | Ok p => p
  | Err _ => exPub
  end.
Definition exNow (now : Z) : Ctx := mkCtx (Some 1) (Some (idOf "N")) now.

(** alice's message is taken two minutes later, not again, and not ten minutes later. *)
Lemma pubsub_receive_authentic_witness :
  let s' := run1 (receivePublish (exNow 1120000) exSigned) exClient in
  sv_events (run1 dispatchOne s') = [EvHandler 7 "s" "chat/7" (pubOf alice) "hi"] /\
  ed25519_Verify (pubKey (pubOf alice)) (publishSignData exSigned) (pb_Signature exSigned) = true /\
  Z.abs (1120000 - pb_TimestampMilli exSigned) <= cf_MaxTimestampSkew (sv_cfg exClient) /\
  sv_dispatch (run1 (receivePublish (exNow 1120000) exSigned) s') = sv_dispatch s' /\
  sv_dispatch (run1 (receivePublish (exNow 1600000) exSigned) exClient) = sv_dispatch exClient.
Proof.
  intros s'. split; [vm_compute; reflexivity|].
  assert (times_ok exClient (exNow 1120000) exSigned) as Ht.
  { split; [|split]; (split; [vm_compute; discriminate|vm_compute; reflexivity]). }
  destruct (pubsub_receive_authentic exClient s' (exNow 1120000) exSigned _ Ht (surjective_pairing _))
    as [Hd|(k & b & _ & _ & Hk & Hv & _ & _ & Htime & _)]; [vm_compute in Hd; discriminate|].
  assert (k = pubOf alice) as <- by (vm_compute in Hk; injection Hk as <-; reflexivity). split; [exact Hv|].
  split; [|split; vm_compute; reflexivity]. destruct Htime as [Hz|Hz]; [vm_compute in Hz; discriminate|exact Hz].
Defined.

(** The same letters, cut elsewhere. *)
Definition exShifted : Publish := mkPublish "sc" "hat/7" exId "" "hi" (idOf alice) "" 0 false.
Lemma exPub_signable : signable exPub.
Proof. unfold signable, exPub; simpl; lia. Qed.
Lemma exShifted_signable : signable exShifted.
Proof. unfold signable, exShifted; simpl; lia. Qed.

Lemma pubsub_sign_unambiguous_witness :
  signable exPub /\ signable exShifted /\ publishSignData exPub <> publishSignData exShifted.
Proof.
  split; [exact exPub_signable|]. split; [exact exShifted_signable|]. intros Heq.
  destruct (pubsub_sign_unambiguous exPub exShifted exPub_signable exShifted_signable Heq) as [Hs _]. discriminate Hs.
Defined.

Lemma pubsub_dedup_refines_witness :
  let a := "aaaaaaaaaaaaaaaa"%string in let b := "bbbbbbbbbbbbbbbb"%string in let c := "cccccccccccccccc"%string in
  seenRun (newMsgIdDedup 2) [a; a; b; c; a; "short"; "short"; c]%string = Ok [false; true; false; false; false; false; false; true].
Proof. intros a b c. rewrite pubsub_dedup_refines by lia. vm_compute. reflexivity. Defined.

(** The function that ends a subscription, called twice, makes the count of the patterns of
    the space too low, so that more patterns than allowed can be subscribed to. *)
Lemma pubsub_double_unsubscribe :
  let s := run1 (unsubscribe "s" "x" 1) (run1 (unsubscribe "s" "x" 1)
    (run1 (Subscribe_ "s" "y" 2) (run1 (Subscribe_ "s" "x" 1)
        (newService (mkDeps None None true None false) exConfig (privOf "C") 0)))) in
  topicCount s "s" = 0 /\ length (patternsOf s "s") = 1%nat /\
  let s' := run1 (Subscribe_ "s" "w" 4) (run1 (Subscribe_ "s" "z" 3) s) in
  Z.of_nat (length (patternsOf s' "s")) = cf_MaxPatternsPerSpace (sv_cfg s') + 1.
Proof. split_and!; vm_compute; reflexivity. Qed.
