(* ===== verification/Settings.v ===== *)
(** The settings of a space (src/commonspace/settings: settingsobject.go,
    settingstreevalidator.go, settingsstate): a tree whose changes say which objects of the
    space are deleted, and the state that is read from it.

    The settings object keeps a sync tree, the models its iteration has left on the changes,
    the state of the last iteration and the deletion state it feeds, which has the head
    storage.  The storages of the other trees are an argument, as are the clock, the nonce
    and the number [DoSnapshot] draws.  The listener calls of the sync tree are [Update] and
    [Rebuild]. *)

From Stdlib Require Import ZArith Lia String.
From stdpp Require Import base option list gmap strings sorting.
From S2P Require Import Prelude Crypto AclModels AclState AclValidator AclApply AclStorage AclKeep AclList.
From S2P Require Import TreeModels Tree ChangeBuilder TreeStorage TreeSnapshots TreeLoad TreeBuild ObjectTree.
From S2P Require Import ObjectTreeContent ObjectTreeRead SyncTree HeadStorage.

Local Open Scope Z_scope.

(** ** Changes *)

Inductive SpaceSettingsContent :=
| ObjectDelete (id : string)
| SpaceDelete (deleterPeerId : string)
| NoSettings.

(** A nil snapshot is [None]. *)
Record SettingsData := mkSettingsData {
  sd_Content : list SpaceSettingsContent;
  sd_Snapshot : option (list string);
}.

Class SettingsCodec := {
  SettingsData_MarshalVT : SettingsData -> res bytes;
  SettingsData_UnmarshalVT : bytes -> res SettingsData;
}.
(** An empty list of ids inside a message that is there is read back as it was. *)
Class SettingsCodecLaws `{SettingsCodec} := {
  SettingsData_law m b : SettingsData_MarshalVT m = Ok b -> SettingsData_UnmarshalVT b = Ok m;
}.

(** ** The state *)

Record State := mkState {
  stt_DeletedIds : gset string;
  stt_LastIteratedId : string;
}.
Definition NewState : State := mkState ∅ "".
(** [snapshot.DeletedIds] of a nil snapshot panics. *)
Definition NewStateFromSnapshot (snapshot : option (list string)) (lastIteratedId : string) : res State :=
  ids ← opt_or snapshot (GoPanic "nil SpaceSettingsSnapshot");
  Ok (mkState (list_to_set ids) lastIteratedId).
Definition Exists (s : State) (id : string) : bool := bool_decide (id ∈ stt_DeletedIds s).

Definition addDeleted (ids : gset string) (cnt : SpaceSettingsContent) : gset string :=
  match cnt with ObjectDelete id => {[id]} ∪ ids | _ => ids end.

Definition processChange (change : Change) (model : option SettingsData) (rootId : string) (state : State) : res State :=
  if decide (ch_PreviousIds change = []) then Ok state
  else if decide (stt_LastIteratedId state = ch_Id change) then Ok state
  else
    deleteChange ← opt_or model (GoPanic "interface conversion: interface is nil");
    if decide (ch_Id change = rootId) then NewStateFromSnapshot (sd_Snapshot deleteChange) rootId
    else Ok (mkState (foldl addDeleted (stt_DeletedIds state) (sd_Content deleteChange)) (stt_LastIteratedId state)).

Section state_builder.
Context `{CryptoPrims} `{AclCodec} `{SharedKeyPrims} `{MapRange} `{ProtoWire} `{ListCodec}
  {TA : Type} `{AclStorage TA} `{SealPrims} `{TreeCodec} `{HmacPrims} `{LexId} `{SortFunc}
  {T : Type} `{TreeStorage T} `{SettingsCodec}.

(** The closures of [Build]; a panic ends the iteration. *)
Definition settings_convert (ch : Change) (decrypted : option bytes) : res (option SettingsData) :=
  d ← SettingsData_UnmarshalVT (default "" decrypted); Ok (Some d).
Definition settings_process (rootId : string) (change : Change) (model : option SettingsData) (v : res State)
    : res State * bool :=
  match v with
  | Err e => (Err e, false)
  | Ok state =>
      match processChange change model rootId state with
      | Ok state => (Ok (mkState (stt_DeletedIds state) (ch_Id change)), true)
      | Err e => (Err e, false)
      end
  end.

(** A tree with the models on its changes. *)
Abbreviation modelTree := (objectTree TA T * gmap string SettingsData)%type.

Definition startOf (rootId : string) (oldState : option State) : string :=
  match oldState with
  | None => rootId
  | Some st => if decide (stt_LastIteratedId st = "") then rootId else stt_LastIteratedId st
  end.

(** [Build]: the state is returned with the error, if there is one. *)
Definition settings_Build (oldState : option State) : ST modelTree (State * res unit) := fun x =>
  match t_root (ot_tree x.1) with
  | None => (x, Err nilChange)
  | Some rootId =>
      let '(r, e) := IterateFrom (Some settings_convert) (settings_process rootId) (startOf rootId oldState)
        (mkReading x.1 x.2 (Ok (default NewState oldState))) in
      ((rd_tree r, rd_models r),
       match e, rd_state r with
       | Err (GoPanic m), _ => Err (GoPanic m)
       | _, Err p => Err p
       | e, Ok state => Ok (state, e)
       end)
  end.
End state_builder.

(** ** Making changes *)

Section change_factory.
Context `{SettingsCodec} `{MapRange}.

Definition makeSnapshot (state : State) (objectIds : list string) : list string :=
  objectIds ++ idsOf (stt_DeletedIds state).
Definition CreateObjectDeleteChange (ids : list string) (state : State) (isSnapshot : bool) : res bytes :=
  SettingsData_MarshalVT (mkSettingsData (ObjectDelete <$> ids)
    (if isSnapshot then Some (makeSnapshot state ids) else None)).
End change_factory.

(** Of the number that was drawn below twice the middle. *)
Definition DoSnapshot (val treeLen : Z) : bool :=
  if treeLen <=? 100 then false
  else
    let delta := Z.quot treeLen 50 + 1 in
    (1000 - delta <=? val) && (val <=? 1000 + delta).

(** ** The settings object *)

Definition ErrDeleteSelf := GoError "cannot delete self".
Definition ErrAlreadyDeleted := GoError "the object is already deleted".
Definition ErrCantDeleteDerivedObject := GoError "can't delete derived object".

Section settings.
Context `{CryptoPrims} `{AclCodec} `{SharedKeyPrims} `{MapRange} `{ProtoWire} `{ListCodec}
  {TA : Type} `{AclStorage TA} `{SealPrims} `{TreeCodec} `{HmacPrims} `{LexId} `{SortFunc}
  {T : Type} `{TreeStorage T} `{SyncCodec} `{SettingsCodec} {D : Type} `{HeadsDb D}.

(** *** Who wrote an object *)

Definition objectAuthor (store : headStorage D) (trees : string -> res T) (objectId : string) : res PubKey :=
  entry ← GetEntry store objectId;
  let targetId := if decide (he_ParentId entry = "") then objectId else he_ParentId entry in
  treeStorage ← trees targetId;
  rootChange ← tst_Root treeStorage;
  root ← cb_UnmarshallRoot (mkRawTreeChangeWithId (sc_RawChange rootChange) (sc_Id rootChange));
  (PubKeyFromProto (rc_Identity root) NewKeyStorage).2.

(** The ids a change deletes. *)
Definition deleteIdsOf (data : SettingsData) : list string :=
  omap (fun cnt => match cnt with ObjectDelete id => Some id | _ => None end) (sd_Content data).

Definition checkAuthor (getAuthor : string -> res PubKey) (identity : PubKey) (objId : string) : res unit :=
  match getAuthor objId with
  | Err (GoPanic m) => Err (GoPanic m)
  | Err _ => Err ErrInsufficientPermissions
  | Ok author => fail_if (negb (PubKey_Equals author identity)) ErrInsufficientPermissions
  end.

Definition newSettingsContentValidator (getAuthor : string -> res PubKey) (c : Change) (acl : aclList TA) : res unit :=
  match ci_Data (ch_Info c) with
  | None => Ok tt
  | Some data =>
      if decide (ch_PreviousIds c = []) then Ok tt
      else match SettingsData_UnmarshalVT data with
           | Err _ => Ok tt
           | Ok settingsData =>
               let deleteIds := deleteIdsOf settingsData in
               if decide (deleteIds = []) then Ok tt
               else match OptionsAtRecord (al_indexes acl) (al_aclState acl) (ci_AclHeadId (ch_Info c)) with
                    | Some true =>
                        identity ← opt_or (ci_Identity (ch_Info c)) (GoPanic "nil PubKey");
                        perms ← PermissionsAtRecord (al_indexes acl) (al_aclState acl) (ci_AclHeadId (ch_Info c)) identity;
                        if CanManageAccounts perms then Ok tt
                        else res_each (checkAuthor getAuthor identity) deleteIds
                    | _ => Ok tt
                    end
           end
  end.

(** *** Its state *)

Record settingsObject := mkSettingsObject {
  so_tree : syncTree TA T;
  so_models : gmap string SettingsData;
  so_account : PrivKey;
  so_state : option State;
  so_deletion : objectDeletionState D;
}.
Implicit Types (s : settingsObject).
Abbreviation SO := (ST settingsObject).

Definition so_object s : objectTree TA T := sy_tree (so_tree s).
Definition set_so_tree t models s := mkSettingsObject t models (so_account s) (so_state s) (so_deletion s).
Definition set_so_state st s := mkSettingsObject (so_tree s) (so_models s) (so_account s) st (so_deletion s).
Definition onDeletion {A} (m : ST (objectDeletionState D) A) : SO A := fun s =>
  let '(d, r) := m (so_deletion s) in (mkSettingsObject (so_tree s) (so_models s) (so_account s) (so_state s) d, r).
Definition onSyncTree {A} (m : ST (syncTree TA T) A) : SO A := fun s =>
  let '(t, r) := m (so_tree s) in (set_so_tree t (so_models s) s, r).

(** Build the state from the tree of the object. *)
Definition buildState : SO (res unit) := fun s =>
  match settings_Build (so_state s) (so_object s, so_models s) with
  | ((ot, models), Ok (state, e)) =>
      (set_so_state (Some state) (set_so_tree (set_syncTree ot (so_tree s)) models s), Ok e)
  | ((ot, models), Err p) => (set_so_tree (set_syncTree ot (so_tree s)) models s, Err p)
  end.

(** The deletion manager hands the ids to the deletion state. *)
Definition UpdateState (state : State) : SO unit := onDeletion (deletion_Add (stt_DeletedIds state)).

Definition currentState s : res State := opt_or (so_state s) (GoPanic "nil State").

(** Errors are logged. *)
Definition updateIds : SO unit :=
  e ← buildState;
  match e with
  | Err _ => mret tt
  | Ok _ => state ← calls currentState; UpdateState state
  end.
Definition settings_Update : SO unit := updateIds.
Definition settings_Rebuild : SO unit := assigns (set_so_state None) ;; updateIds.

(** Compare with the state of the whole history. *)
Definition checkHistoryState (fuel : nat) : SO unit :=
  historyTree ← calls (fun s =>
    BuildHistoryTree fuel (ot_storage (so_object s)) (ot_aclList (so_object s)) [] false false);
  '(fullState, e) ← lifts (settings_Build None (historyTree, ∅)).2;
  lifts e ;;
  state ← calls currentState;
  if decide (size (stt_DeletedIds fullState) = size (stt_DeletedIds state)) then mret tt
  else assigns (set_so_state (Some fullState)) ;; UpdateState fullState.

(** [Init], once the tree is there. *)
Definition settings_Init (fuel : nat) : SO unit := settings_Rebuild ;; checkHistoryState fuel.

(** *** Deleting *)

Definition settings_addContent (fuel : nat) (nonce : bytes) (now : Z) (data : bytes) (isSnapshot : bool) : SO unit :=
  key ← reads so_account;
  res ← onSyncTree (sync_AddContentWithValidator fuel nonce now
    (mkSignableChangeContent data key isSnapshot false 0 "") None);
  match ar_Mode res with
  | Rebuild => settings_Rebuild
  | _ => settings_Update
  end.

(** The object and its children that are not deleted. *)
Definition idsToDelete (id : string) (children : list HeadsEntry) : list string :=
  id :: (he_Id <$> List.filter (fun child => he_DeletedStatus child <? DeletedStatusQueued) children).

(** Whether the author of the object is to be checked. *)
Definition needsAuthorCheck s : bool :=
  match CurrentOptions (al_aclState (ot_aclList (so_object s))) with
  | Some true => negb (CanManageAccounts (Permissions (al_aclState (ot_aclList (so_object s))) (GetPublic (so_account s))))
  | _ => false
  end.

Definition checkDelete (trees : string -> res T) s (id : string) : res (list string) :=
  fail_if (bool_decide (syncId (so_tree s) = id)) ErrDeleteSelf ;;
  state ← currentState s;
  fail_if (Exists state id) ErrAlreadyDeleted ;;
  let store := ds_storage (so_deletion s) in
  entry ← GetEntry store id;
  fail_if (he_IsDerived entry) ErrCantDeleteDerivedObject ;;
  children ← GetEntriesByParentId store id;
  (if needsAuthorCheck s then checkAuthor (objectAuthor store trees) (GetPublic (so_account s)) id else Ok tt) ;;
  Ok (idsToDelete id children).

Definition DeleteObject (trees : string -> res T) (fuel : nat) (nonce : bytes) (now val : Z) (id : string) : SO unit :=
  ids ← calls (fun s => checkDelete trees s id);
  isSnapshot ← reads (fun s => DoSnapshot val (Z.of_nat (size (t_attached (ot_tree (so_object s))))));
  data ← calls (fun s => state ← currentState s; CreateObjectDeleteChange ids state isSnapshot);
  settings_addContent fuel nonce now data isSnapshot.

(** *** The change that deletes a space *)

Definition verifyDeleteContent (data : bytes) (peerId : string) : res unit :=
  content ← SettingsData_UnmarshalVT data;
  match sd_Content content with
  | [SpaceDelete deleter] =>
      fail_if ((bool_decide (peerId = "") && bool_decide (deleter = "")) ||
               (negb (bool_decide (peerId = "")) && negb (bool_decide (deleter = peerId))))
        (GoError "incorrect delete change payload")
  | _ => Err (GoError "incorrect delete change payload")
  end.
Definition VerifyDeleteChange (raw : RawTreeChangeWithId) (identity : PubKey) (peerId : string) : res unit :=
  res ← cb_Unmarshall (NewChangeBuilder None) raw true;
  author ← opt_or (ci_Identity (ch_Info res)) (GoPanic "nil PubKey");
  fail_if (negb (PubKey_Equals author identity)) (GoError "incorrect identity") ;;
  verifyDeleteContent (default "" (ci_Data (ch_Info res))) peerId.
End settings.

Arguments settingsObject TA T D : clear implicits.
