(* ===== verification/SettingsMain.v ===== *)
(** The settings of a space read from its tree: the state is what the changes say, whether
    it is built anew or goes on from where it was, and deleting an object adds exactly the
    object and its children. *)

From Stdlib Require Import ZArith Lia String.
From stdpp Require Import base option list gmap strings sorting.
From S2P Require Import Prelude Crypto AclModels AclState AclValidator AclApply AclExample AclStorage AclKeep.
From S2P Require Import AclList TreeModels Tree TreeOrder TreeAdd TreeStable TreeHeads TreeCalls TreeMerged.
From S2P Require Import TreeMain ChangeBuilder ToyCodec ChangeMain TreeStorage TreeSnapshots TreeLoad TreeBuild.
From S2P Require Import ObjectTree ObjectTreeContent ObjectTreeAgree ObjectTreeRead ObjectTreeExample SyncTree.
From S2P Require Import SyncTreeMain HeadStorage TreeExample HeadSyncExample Settings.

Local Open Scope Z_scope.
#[local] Arguments iterOrder : simpl never.

(** ** Lists *)

Lemma skipTo_app x l1 l2 : x ∉ l1 -> skipTo x (l1 ++ x :: l2) = x :: l2.
Proof.
  intros Hx. induction l1 as [|y l1 IH]; simpl; [by rewrite decide_True|].
  rewrite decide_False by (intros ->; apply Hx; by left). apply IH. intros Hin. apply Hx. by right.
Qed.

Lemma foldl_addDeleted l ids :
  foldl addDeleted ids l = ids ∪ list_to_set (omap (fun cnt => match cnt with ObjectDelete id => Some id | _ => None end) l).
Proof.
  revert ids. induction l as [|[id| |] l IH]; intros ids; simpl; [set_solver| |apply IH..].
  rewrite IH. set_solver.
Qed.

Lemma deleteIds_all l sn : deleteIdsOf (mkSettingsData (ObjectDelete <$> l) sn) = l.
Proof. unfold deleteIdsOf. cbn [sd_Content]. induction l as [|i l IH]; [done|]. exact (f_equal (cons i) IH). Qed.

(** ** Changes of the information of a change *)

(** [f] changes nothing that the order depends on. *)
Definition infoOnly (f : Change -> Change) : Prop :=
  forall c, ch_Id (f c) = ch_Id c /\ ch_PreviousIds (f c) = ch_PreviousIds c /\ ch_Next (f c) = ch_Next c /\
    ch_OrderId (f c) = ch_OrderId c.

Section info.
Context `{LexIdLaws}.
Variables (f : Change -> Change) (x : string).
Hypothesis Hf : infoOnly f.

Lemma alter_lookup_info (m : changes) y c' : alter f x m !! y = Some c' ->
  exists c, m !! y = Some c /\ ch_Id c' = ch_Id c /\ ch_PreviousIds c' = ch_PreviousIds c /\ ch_OrderId c' = ch_OrderId c.
Proof.
  intros Hy. rewrite lookup_alter in Hy. case_decide; [|by exists c'].
  destruct (m !! x) as [c|] eqn:Hc; [|done]. simplify_eq. simpl in Hy. simplify_eq. exists c.
  destruct (Hf c) as (? & ? & _ & ?). done.
Qed.
Lemma nextOf_info (m : changes) y : nextOf (alter f x m) y = nextOf m y.
Proof. rewrite nextOf_alter. case_decide; [|done]. unfold nextOf. destruct (m !! y) as [c|]; [|done]. apply Hf. Qed.
Lemma is_Some_info (m : changes) y : is_Some (alter f x m !! y) <-> is_Some (m !! y).
Proof. rewrite lookup_alter. case_decide; [|done]. subst. by destruct (m !! y); split; intros [? ?]; simplify_eq. Qed.
Lemma orderOf_info (m : changes) y : orderOf (alter f x m) y = orderOf m y.
Proof.
  unfold orderOf. rewrite lookup_alter. case_decide; [|done]. subst. destruct (m !! y) as [c|]; [|done]. apply Hf.
Qed.
Lemma linked_info r (m : changes) : linked r m -> linked r (alter f x m).
Proof.
  intros [Hr Hids Hp Hn Hs [rank Hrank]]. split.
  - by apply is_Some_info.
  - intros y c' (c & Hc & -> & _)%alter_lookup_info. by apply Hids.
  - intros y c' p (c & Hc & _ & -> & _)%alter_lookup_info Hy Hin. apply is_Some_info. by eapply Hp.
  - intros y z. rewrite nextOf_info, Hn. unfold links. rewrite lookup_alter. destruct (decide (x = z)); [|done]. subst.
    destruct (m !! z) as [c|]; [|done]. simpl. by destruct (Hf c) as (_ & -> & _).
  - intros y. rewrite nextOf_info. apply Hs.
  - exists rank. intros y c' p (c & Hc & _ & -> & _)%alter_lookup_info. by apply Hrank.
Qed.

Lemma tree_ok_info r t : tree_ok r t -> tree_ok r (set_attached (alter f x (t_attached t)) t).
Proof.
  intros [Hr Hl Hc Hi H1 Ho Hh Hlast]. assert (forall s, iterOrder (alter f x (t_attached t)) s = iterOrder (t_attached t) s) as Hord
    by (intros s; apply iterOrder_alter; intros c; apply Hf).
  split; simpl; try done.
  - by apply linked_info.
  - intros y c' (c & Hy & _ & -> & _)%alter_lookup_info. by apply (Hc y c).
  - by rewrite orderOf_info.
  - rewrite orderOf_info, Hord. erewrite list_fmap_ext; [exact Ho|]. intros i y _. apply orderOf_info.
  - rewrite Hord, Hh. f_equal. apply list_filter_iff. intros y. unfold isHead. by rewrite nextOf_info.
  - by rewrite Hord.
Qed.
End info.

(** ** What the changes say *)

Section build.
Context `{CryptoPrims} `{AclCodec} `{SharedKeyPrims} `{MapRange} `{ProtoWire} `{ListCodec}
  {TA : Type} `{AclStorage TA} `{SealPrims} `{TreeCodec} `{HmacPrims} `{LexIdLaws} `{SortFunc}
  {T : Type} `{TreeStorage T} `{SettingsCodec}.
Abbreviation modelTree := (objectTree TA T * gmap string SettingsData)%type.
Implicit Types (x : modelTree) (id : string).

Abbreviation attOf x := (t_attached (ot_tree x.1)).
Definition orderIds x : list string := iterOrder (attOf x) (t_root (ot_tree x.1)).

(** The model the iteration comes to: the saved one, or what the data says. *)
Definition contentAt x id (c : Change) : res (option SettingsData) :=
  match x.2 !! id with
  | Some m => Ok (Some m)
  | None => if decide (id = ot_id x.1) then Ok None
            else d ← decryptChange x.1 c; settings_convert c d
  end.
Definition dataAt x id : option SettingsData :=
  c ← attOf x !! id; match contentAt x id c with Ok m => m | Err _ => None end.

(** The ids a change deletes; the ids a tree starts with, if its root is a snapshot. *)
Definition deletedAt x id : gset string := from_option (fun d => list_to_set (deleteIdsOf d)) ∅ (dataAt x id).
Definition firstIds x id : gset string :=
  from_option (fun c => if decide (ch_PreviousIds c = []) then ∅
                        else list_to_set (default [] (dataAt x id ≫= sd_Snapshot))) ∅ (attOf x !! id).
Definition deletedIn x (ids : list string) : gset string :=
  match ids with [] => ∅ | r :: rest => firstIds x r ∪ ⋃ (deletedAt x <$> rest) end.
(** The state that reading the changes in a list leaves. *)
Definition stateOfIds x (ids : list string) : State := mkState (deletedIn x ids) (default "" (last ids)).

(** The changes that are read before the first one that cannot be decrypted or decoded, and
    its error. *)
Definition contentOf x id : res (option SettingsData) :=
  match attOf x !! id with Some c => contentAt x id c | None => Ok None end.
Fixpoint readPart x (ids : list string) : list string * res unit :=
  match ids with
  | [] => ([], Ok tt)
  | id :: ids =>
      match contentOf x id with
      | Err e => ([], Err e)
      | Ok _ => let '(l, e) := readPart x ids in (id :: l, e)
      end
  end.

(** A settings tree that is not deleted and has no change with an empty id: the first root of
    the tree, which is not decoded, is the only change without a model, and a snapshot that
    is the root and can be decoded carries a list of ids. *)
Record settings_tree x (r : string) : Prop := mkSettingsTree {
  stg_alive : ot_isDeleted x.1 = false;
  stg_named : attOf x !! "" = None;
  stg_model id c : attOf x !! id = Some c -> ch_PreviousIds c <> [] -> contentAt x id c <> Ok None;
  stg_snapshot c d : attOf x !! r = Some c -> ch_PreviousIds c <> [] -> contentAt x r c = Ok (Some d) -> is_Some (sd_Snapshot d);
}.

(** Every change can be read, and a root that is a snapshot has one. *)
Record readable x (r : string) : Prop := mkReadable {
  rdb_alive : ot_isDeleted x.1 = false;
  rdb_named : attOf x !! "" = None;
  rdb_content id c : attOf x !! id = Some c -> exists m, contentAt x id c = Ok m;
  rdb_model id c : attOf x !! id = Some c -> ch_PreviousIds c <> [] -> is_Some (dataAt x id);
  rdb_snapshot c d : attOf x !! r = Some c -> ch_PreviousIds c <> [] -> dataAt x r = Some d -> is_Some (sd_Snapshot d);
}.

(** Reading leaves everything but the place of the models. *)
Record sameSettings x y : Prop := mkSameSettings {
  sse_id : ot_id y.1 = ot_id x.1;
  sse_deleted : ot_isDeleted y.1 = ot_isDeleted x.1;
  sse_storage : ot_storage y.1 = ot_storage x.1;
  sse_rest : t_root (ot_tree y.1) = t_root (ot_tree x.1) /\ ot_keys y.1 = ot_keys x.1 /\ ot_aclList y.1 = ot_aclList x.1;
  sse_order s : iterOrder (attOf y) s = iterOrder (attOf x) s;
  sse_ok r : tree_ok r (ot_tree x.1) -> tree_ok r (ot_tree y.1);
  sse_att id : is_Some (attOf y !! id) <-> is_Some (attOf x !! id);
  sse_change id c c' : attOf x !! id = Some c -> attOf y !! id = Some c' ->
    ch_PreviousIds c' = ch_PreviousIds c /\ contentAt y id c' = contentAt x id c;
  sse_models id : is_Some (y.2 !! id) -> is_Some (x.2 !! id) \/ is_Some (attOf x !! id);
}.

#[local] Instance sameSettings_preorder : PreOrder sameSettings.
Proof.
  split.
  - intros x. split; try done; intros; simplify_eq; auto.
  - intros x y z [A1 A2 A3 (A4 & A5 & A6) A7 A8 A9 A10 A11] [B1 B2 B3 (B4 & B5 & B6) B7 B8 B9 B10 B11]. split; try congruence.
    + split_and!; congruence.
    + auto.
    + intros id. by rewrite B9.
    + intros id c c2 Hc Hc2. destruct (proj2 (A9 id) ltac:(eauto)) as [c1 Hc1].
      destruct (A10 _ _ _ Hc Hc1) as [E1 M1], (B10 _ _ _ Hc1 Hc2) as [E2 M2]. split; congruence.
    + intros id [Hy|Hy]%B11; [auto|]. right. by apply A9.
Qed.

Lemma same_content x y id : sameSettings x y -> contentOf y id = contentOf x id.
Proof.
  intros Hs. unfold contentOf. destruct (attOf x !! id) as [c|] eqn:Hc.
  - destruct (proj2 (sse_att _ _ Hs id) ltac:(eauto)) as [c' Hc']. rewrite Hc'.
    by destruct (sse_change _ _ Hs _ _ _ Hc Hc') as [_ ->].
  - destruct (attOf y !! id) as [c'|] eqn:Hc'; [|done].
    destruct (proj1 (sse_att _ _ Hs id) ltac:(eauto)) as [? ?]. congruence.
Qed.
Lemma same_data x y id : sameSettings x y -> dataAt y id = dataAt x id.
Proof.
  intros Hs. pose proof (same_content x y id Hs) as Hc. unfold contentOf in Hc. unfold dataAt.
  destruct (attOf x !! id) as [c|] eqn:Hx.
  - destruct (proj2 (sse_att _ _ Hs id) ltac:(eauto)) as [c' Hc']. rewrite Hc' in Hc |- *. cbn. by rewrite Hc.
  - destruct (attOf y !! id) as [c'|] eqn:Hc'; [|done].
    destruct (proj1 (sse_att _ _ Hs id) ltac:(eauto)) as [? ?]. congruence.
Qed.
Lemma same_deletedIn x y ids : sameSettings x y -> deletedIn y ids = deletedIn x ids.
Proof.
  intros Hs. assert (forall id, deletedAt y id = deletedAt x id) as Hd by (intros id; unfold deletedAt; by erewrite same_data).
  destruct ids as [|i ids]; [done|]. simpl. f_equal.
  - unfold firstIds. erewrite same_data by done. destruct (attOf x !! i) as [c|] eqn:Hc.
    + destruct (proj2 (sse_att _ _ Hs i) ltac:(eauto)) as [c' Hc']. rewrite Hc'. simpl.
      by destruct (sse_change _ _ Hs _ _ _ Hc Hc') as [-> _].
    + destruct (attOf y !! i) as [c'|] eqn:Hc'; [|done].
      destruct (proj1 (sse_att _ _ Hs i) ltac:(eauto)) as [? ?]. congruence.
  - f_equal. apply list_fmap_ext. intros. apply Hd.
Qed.
Lemma same_readPart x y ids : sameSettings x y -> readPart y ids = readPart x ids.
Proof. intros Hs. induction ids as [|id ids IH]; [done|]. cbn. by rewrite (same_content _ _ _ Hs), IH. Qed.

(** Both kinds of trees stay what they are. *)
Lemma same_back x y id c' : sameSettings x y -> attOf y !! id = Some c' ->
  exists c, attOf x !! id = Some c /\ ch_PreviousIds c' = ch_PreviousIds c /\ contentAt y id c' = contentAt x id c.
Proof.
  intros Hs Hc'. destruct (proj1 (sse_att _ _ Hs id) ltac:(eauto)) as [c Hc]. exists c.
  by destruct (sse_change _ _ Hs _ _ _ Hc Hc').
Qed.
Lemma same_readable x y r : sameSettings x y -> readable x r -> readable y r.
Proof.
  intros Hs Hr. split.
  - rewrite (sse_deleted _ _ Hs). apply Hr.
  - destruct (attOf y !! "") as [c'|] eqn:Hc'; [|done]. destruct (same_back _ _ _ _ Hs Hc') as (c & Hc & _). by rewrite (rdb_named _ _ Hr) in Hc.
  - intros id c' (c & Hc & _ & ->)%(same_back _ _ _ _ Hs). by eapply rdb_content.
  - intros id c' (c & Hc & -> & _)%(same_back _ _ _ _ Hs) Hp. erewrite same_data by done. by eapply rdb_model.
  - intros c' d (c & Hc & -> & _)%(same_back _ _ _ _ Hs) Hp. erewrite same_data by done. by eapply rdb_snapshot.
Qed.
Lemma same_settings_tree x y r : sameSettings x y -> settings_tree x r -> settings_tree y r.
Proof.
  intros Hs Hr. split.
  - rewrite (sse_deleted _ _ Hs). apply Hr.
  - destruct (attOf y !! "") as [c'|] eqn:Hc'; [|done]. destruct (same_back _ _ _ _ Hs Hc') as (c & Hc & _). by rewrite (stg_named _ _ Hr) in Hc.
  - intros id c' (c & Hc & -> & ->)%(same_back _ _ _ _ Hs) Hp. by eapply stg_model.
  - intros c' d (c & Hc & -> & ->)%(same_back _ _ _ _ Hs) Hp. by eapply stg_snapshot.
Qed.
Lemma readable_tree x r : readable x r -> settings_tree x r.
Proof.
  intros [Ha Hn Hc Hm Hsn]. split; [done|done| |].
  - intros id c Hid Hp He. destruct (Hm _ _ Hid Hp) as [d Hd]. unfold dataAt in Hd. rewrite Hid in Hd. cbn in Hd. by rewrite He in Hd.
  - intros c d Hid Hp He. apply (Hsn c d Hid Hp). unfold dataAt. rewrite Hid. cbn. by rewrite He.
Qed.
Lemma readable_all x r ids : readable x r -> Forall (fun id => is_Some (attOf x !! id)) ids -> readPart x ids = (ids, Ok tt).
Proof.
  intros Hr. induction 1 as [|id ids [c Hc] _ IH]; [done|]. cbn. unfold contentOf. rewrite Hc.
  destruct (rdb_content _ _ Hr _ _ Hc) as [m ->]. by rewrite IH.
Qed.

(** ** Reading *)

Lemma insert_as_alter (f : Change -> Change) id (m : changes) c : m !! id = Some c -> <[id := f c]> m = alter f id m.
Proof.
  intros Hc. apply map_eq. intros y. rewrite lookup_insert, lookup_alter. case_decide; [|done]. subst. by rewrite Hc.
Qed.

Lemma same_setModel x id c m : attOf x !! id = Some c -> contentAt x id c = Ok (Some m) -> id <> ot_id x.1 ->
  sameSettings x (set_tree (set_attached (<[id := with_Info (with_Data None (ch_Info c)) c]> (attOf x)) (ot_tree x.1)) x.1,
    <[id := m]> x.2).
Proof.
  intros Hc Hm Hid. pose (f := fun c => with_Info (with_Data None (ch_Info c)) c).
  assert (infoOnly f) as Hf by (intros d; done).
  change (with_Info (with_Data None (ch_Info c)) c) with (f c). rewrite (insert_as_alter f id _ _ Hc). split; cbn; try done.
  - intros s. apply iterOrder_alter. intros d. apply Hf.
  - intros r. by apply tree_ok_info.
  - intros y. by apply is_Some_info.
  - intros y d d' Hd Hd'. destruct (alter_lookup_info f id Hf _ _ _ Hd') as (d1 & Hd1 & _ & Hp & _). simplify_eq.
    split; [done|]. destruct (decide (id = y)) as [Hy|Hy].
    + subst y. simplify_eq. rewrite Hm. unfold contentAt. cbn. by rewrite lookup_insert_eq.
    + rewrite lookup_alter_ne in Hd' by done. simplify_eq. unfold contentAt. cbn. by rewrite lookup_insert_ne.
  - intros y Hy. rewrite lookup_insert in Hy. case_decide; [subst; right; eauto|by left].
Qed.

Abbreviation visits rootId := (visitChange (settings_process rootId) settings_convert).

(** A visit hands the content to the closure. *)
Lemma visit_run x rootId id c m v : attOf x !! id = Some c -> ch_Id c = id -> contentAt x id c = Ok m ->
  exists y c', visits rootId id (mkReading x.1 x.2 v) =
      (mkReading y.1 y.2 (settings_process rootId c' m v).1, Ok (settings_process rootId c' m v).2) /\
    ch_Id c' = id /\ ch_PreviousIds c' = ch_PreviousIds c /\ sameSettings x y.
Proof.
  intros Hc Hcid Hm. unfold visitChange, calls, reads, lifts, mbind, st_bind, deliver. cbn. rewrite Hc. cbn.
  pose proof Hm as Hm'. unfold contentAt in Hm. destruct (x.2 !! id) as [m0|] eqn:Hs.
  { injection Hm as <-. exists x, c. cbn. destruct (settings_process rootId c (Some m0) v).
    split_and!; [done|done|done|reflexivity]. }
  destruct (decide (id = ot_id x.1)) as [Hr|Hr].
  { injection Hm as <-. rewrite bool_decide_eq_true_2 by done. exists x, c. cbn. destruct (settings_process rootId c None v). split_and!; [done|done|done|reflexivity]. }
  rewrite bool_decide_eq_false_2 by done. destruct (decryptChange x.1 c) as [d|e] eqn:Hdec; [|done]. cbn in Hm.
  unfold settings_convert in *. destruct (SettingsData_UnmarshalVT _) as [sd|e] eqn:Hun; [|done]. cbn in Hm. injection Hm as <-.
  exists (set_tree (set_attached (<[id := with_Info (with_Data None (ch_Info c)) c]> (attOf x)) (ot_tree x.1)) x.1, <[id := sd]> x.2),
    (with_Info (with_Data None (ch_Info c)) c).
  split; [|split_and!; [done|done|by apply same_setModel]]. unfold setModel, assigns. cbn. rewrite Hcid, Hdec, Hun.
  cbn. by destruct (settings_process rootId (with_Info (with_Data None (ch_Info c)) c) (Some sd) v).
Qed.

(** A visit of a change that cannot be read ends the iteration. *)
Lemma visit_fails x rootId id c e v : attOf x !! id = Some c -> contentAt x id c = Err e ->
  visits rootId id (mkReading x.1 x.2 v) = (mkReading x.1 x.2 v, Err e).
Proof.
  intros Hc He. unfold visitChange, calls, reads, lifts, mbind, st_bind, deliver. cbn. rewrite Hc. cbn.
  unfold contentAt in He. destruct (x.2 !! id); [done|]. destruct (decide (id = ot_id x.1)) as [|Hr]; [done|].
  rewrite bool_decide_eq_false_2 by done. destruct (decryptChange x.1 c) as [d|e'] eqn:Hd; cbn in He; unfold settings_convert in *; cbn; rewrite Hd; cbn.
  - destruct (SettingsData_UnmarshalVT _); [done|]. cbn in *. by injection He as ->.
  - by injection He as ->.
Qed.

(** The changes after the first add what they delete. *)
Lemma visits_run r ids x st : settings_tree x r -> tree_ok r (ot_tree x.1) ->
  NoDup ids -> r ∉ ids -> stt_LastIteratedId st ∉ ids -> Forall (fun id => is_Some (attOf x !! id)) ids ->
  exists y, visitWhile (visits r) ids (mkReading x.1 x.2 (Ok st)) =
      (mkReading y.1 y.2 (Ok (mkState (stt_DeletedIds st ∪ ⋃ (deletedAt x <$> (readPart x ids).1))
         (default (stt_LastIteratedId st) (last (readPart x ids).1)))), (readPart x ids).2) /\
    sameSettings x y.
Proof.
  revert x st. induction ids as [|id ids IH]; intros x st Hrd Hok Hnd Hr Hl Hall.
  { exists x. split; [|done]. cbn. destruct st; cbn. by rewrite union_empty_r_L. }
  apply NoDup_cons in Hnd as [Hid Hnd]. apply Forall_cons in Hall as [[c Hc] Hall].
  apply not_elem_of_cons in Hr as [Hr1 Hr2], Hl as [Hl1 Hl2].
  pose proof (lk_ids _ _ (tk_linked _ _ Hok) _ _ Hc) as Hcid.
  assert (ch_PreviousIds c <> []) as Hp by (by eapply (tk_conn _ _ Hok)).
  cbn [readPart]. unfold contentOf at 1 2 3. rewrite Hc. cbn [visitWhile]. unfold mbind, st_bind.
  destruct (contentAt x id c) as [[d|]|e] eqn:Hm; [| by destruct (stg_model _ _ Hrd _ _ Hc Hp)|].
  2: { rewrite (visit_fails _ _ _ _ _ _ Hc Hm). exists x. split; [|done]. cbn. destruct st; cbn. by rewrite union_empty_r_L. }
  destruct (visit_run x r id c (Some d) (Ok st) Hc Hcid Hm) as (y & c' & Hv & Hc' & Hp' & Hs). rewrite Hv.
  assert (settings_process r c' (Some d) (Ok st) = (Ok (mkState (stt_DeletedIds st ∪ list_to_set (deleteIdsOf d)) id), true)) as ->.
  { unfold settings_process, processChange. rewrite decide_False by (by rewrite Hp'). rewrite decide_False by (by rewrite Hc').
    cbn. rewrite decide_False by (by rewrite Hc'). cbn. rewrite foldl_addDeleted, Hc'. done. }
  cbn [fst snd]. destruct (IH y (mkState (stt_DeletedIds st ∪ list_to_set (deleteIdsOf d)) id)) as (z & Hz & Hsz).
  - by eapply same_settings_tree.
  - by eapply sse_ok.
  - done.
  - done.
  - done.
  - eapply Forall_impl; [exact Hall|]. intros a. cbn. by rewrite (sse_att _ _ Hs).
  - exists z. split; [|by etrans]. rewrite Hz, (same_readPart _ _ _ Hs). destruct (readPart x ids) as [l e]. cbn [fst snd]. do 3 f_equal.
    assert (deletedAt y <$> l = deletedAt x <$> l) as ->.
    { apply list_fmap_ext. intros. unfold deletedAt. by erewrite same_data. }
    f_equal.
    + cbn. rewrite union_assoc_L. do 2 f_equal. unfold deletedAt at 1, dataAt. rewrite Hc. cbn. by rewrite Hm.
    + cbn [stt_LastIteratedId]. rewrite last_cons. by destruct (last l).
Qed.

(** The root, read first. *)
Lemma root_process x r c c' m : settings_tree x r -> attOf x !! r = Some c -> contentAt x r c = Ok m ->
  ch_Id c' = r -> ch_PreviousIds c' = ch_PreviousIds c ->
  settings_process r c' m (Ok NewState) = (Ok (mkState (firstIds x r) r), true).
Proof.
  intros Hrd Hc Hm Hid Hp. unfold settings_process, processChange, firstIds, dataAt. rewrite Hc. cbn [from_option]. rewrite Hp.
  destruct (decide (ch_PreviousIds c = [])) as [He|He]; [cbn; by rewrite Hid|]. rewrite Hid.
  assert (r <> "") as Hr by (intros ->; by rewrite (stg_named _ _ Hrd) in Hc). cbn [stt_LastIteratedId NewState].
  rewrite decide_False by congruence. destruct m as [d|]; [|by destruct (stg_model _ _ Hrd _ _ Hc He)]. cbn.
  rewrite decide_True by done. destruct (stg_snapshot _ _ Hrd _ _ Hc He Hm) as [l Hsn]. rewrite Hm. cbn. rewrite Hsn. done.
Qed.

Lemma deletedIn_app x seen rest : seen <> [] -> deletedIn x (seen ++ rest) = deletedIn x seen ∪ ⋃ (deletedAt x <$> rest).
Proof. destruct seen as [|a seen]; [done|]. intros _. cbn. rewrite fmap_app, union_list_app_L, union_assoc_L. done. Qed.

Lemma readPart_prefix x ids : exists rest, ids = (readPart x ids).1 ++ rest.
Proof.
  induction ids as [|id ids [rest IH]]; [by exists []|]. cbn. destruct (contentOf x id); [|by exists (id :: ids)].
  destruct (readPart x ids) as [l e]. cbn in *. exists rest. by rewrite IH at 1.
Qed.
Lemma readPart_app x seen rest l : (readPart x (seen ++ rest)).1 = seen ++ l ->
  readPart x (seen ++ rest) = (seen ++ (readPart x rest).1, (readPart x rest).2) /\
  forall id, id ∈ seen -> exists m, contentOf x id = Ok m.
Proof.
  induction seen as [|id seen IH]; cbn.
  { intros _. split; [by destruct (readPart x rest)|]. by intros id ?%not_elem_of_nil. }
  destruct (contentOf x id) as [m|e] eqn:Hm; [|done]. destruct (readPart x (seen ++ rest)) as [l' e'] eqn:He. cbn.
  intros [= Hl]. destruct (IH Hl) as [[= -> ->] Hall]. split; [done|]. intros id' [->|Hin]%elem_of_cons; eauto.
Qed.

(** From the last change that was read on. *)
Lemma resume_run x r seen k rest st m : settings_tree x r -> tree_ok r (ot_tree x.1) -> orderIds x = (seen ++ [k]) ++ rest ->
  contentOf x k = Ok m ->
  (forall c c' m, attOf x !! k = Some c -> contentAt x k c = Ok m -> ch_Id c' = k -> ch_PreviousIds c' = ch_PreviousIds c ->
     settings_process r c' m (Ok st) = (Ok (stateOfIds x (seen ++ [k])), true)) ->
  exists y, IterateFrom (Some settings_convert) (settings_process r) k (mkReading x.1 x.2 (Ok st)) =
      (mkReading y.1 y.2 (Ok (stateOfIds x ((seen ++ [k]) ++ (readPart x rest).1))), (readPart x rest).2) /\ sameSettings x y.
Proof.
  intros Hrd Hok Hord Hm Hfirst.
  assert (orderIds x = iterOrder (attOf x) (Some r)) as Hroot by (unfold orderIds; by rewrite (tk_root _ _ Hok)).
  destruct (order_spec r _ (tk_linked _ _ Hok) (tk_conn _ _ Hok)) as (Hnd & Hin & _).
  destruct (order_root r _ (tk_linked _ _ Hok) (tk_conn _ _ Hok)) as [tl Htl]. rewrite <- Hroot in Hnd, Hin, Htl.
  assert (is_Some (attOf x !! k)) as [c Hc] by (apply Hin; rewrite Hord; set_solver).
  pose proof (lk_ids _ _ (tk_linked _ _ Hok) _ _ Hc) as Hcid. unfold contentOf in Hm. rewrite Hc in Hm.
  rewrite Hord in Hnd. pose proof Hnd as Hnd'. apply NoDup_app in Hnd as ((_ & Hk & _)%NoDup_app & Hdis & Hndr).
  unfold IterateFrom, calls, reads, mbind, st_bind. cbn. rewrite (stg_alive _ _ Hrd). cbn. unfold IterateSkip.
  rewrite decide_True by eauto. change (iterOrder (t_attached (ot_tree x.1)) (t_root (ot_tree x.1))) with (orderIds x).
  rewrite Hord. replace (skipTo k ((seen ++ [k]) ++ rest)) with (k :: rest)
    by (rewrite <- app_assoc; symmetry; apply skipTo_app; intros Hs; apply (Hk k Hs); by left).
  cbn [visitWhile].
  destruct (visit_run x r k c m (Ok st) Hc Hcid Hm) as (y & c' & Hv & Hc' & Hp' & Hs).
  unfold mbind, st_bind. rewrite Hv, (Hfirst c c' m) by done. cbn [fst snd].
  destruct (visits_run r rest y (stateOfIds x (seen ++ [k]))) as (z & Hz & Hsz).
  - by eapply same_settings_tree.
  - by eapply sse_ok.
  - done.
  - intros Hr. apply (Hdis r); [|done]. rewrite Hord in Htl. destruct seen as [|a seen]; simpl in Htl; injection Htl as <- _; by left.
  - cbn. rewrite last_snoc. cbn. apply Hdis. set_solver.
  - apply Forall_forall. intros a Ha. apply (sse_att _ _ Hs), Hin. rewrite Hord. set_solver.
  - exists z. split; [|by etrans]. rewrite Hz, (same_readPart _ _ _ Hs). destruct (readPart x rest) as [l e]. cbn [fst snd].
    do 3 f_equal. unfold stateOfIds. cbn [stt_DeletedIds stt_LastIteratedId].
    rewrite (deletedIn_app x (seen ++ [k]) l) by (by intros [_ ?]%app_nil). f_equal.
    + do 2 f_equal. apply list_fmap_ext. intros. unfold deletedAt. by erewrite same_data.
    + rewrite (last_app (seen ++ [k]) l), last_snoc. by destruct (last l).
Qed.

(** What a build returns: a panic of the decoder is one of the build. *)
Definition builtOf (part : State * res unit) : res (State * res unit) :=
  match part.2 with Err (GoPanic m) => Err (GoPanic m) | _ => Ok part end.

(** The state of the changes that are read. *)
Definition builtState x : State * res unit :=
  (stateOfIds x (readPart x (orderIds x)).1, (readPart x (orderIds x)).2).

Lemma build_run x r old : settings_tree x r -> tree_ok r (ot_tree x.1) ->
  (old = None \/ exists seen rest, (readPart x (orderIds x)).1 = seen ++ rest /\ seen <> [] /\ old = Some (stateOfIds x seen)) ->
  exists y, settings_Build old x = (y, builtOf (builtState x)) /\ sameSettings x y.
Proof.
  intros Hrd Hok Hold. unfold settings_Build. rewrite (tk_root _ _ Hok).
  assert (exists y, IterateFrom (Some settings_convert) (settings_process r) (startOf r old)
    (mkReading x.1 x.2 (Ok (default NewState old))) =
    (mkReading y.1 y.2 (Ok (builtState x).1), (builtState x).2) /\ sameSettings x y)
    as (y & Hrun & Hs).
  - assert (orderIds x = iterOrder (attOf x) (Some r)) as Hroot by (unfold orderIds; by rewrite (tk_root _ _ Hok)).
    destruct (order_spec r _ (tk_linked _ _ Hok) (tk_conn _ _ Hok)) as (_ & Hin & _).
    destruct (order_root r _ (tk_linked _ _ Hok) (tk_conn _ _ Hok)) as [tl Htl]. rewrite <- Hroot in Hin, Htl.
    assert (is_Some (attOf x !! r)) as [rc Hrc] by (apply Hin; rewrite Htl; by left).
    unfold builtState. destruct Hold as [->|(seen & rest & Hpart & Hne & ->)]; simpl.
    + destruct (contentOf x r) as [m|e] eqn:Hm.
      * destruct (resume_run x r [] r tl NewState m Hrd Hok) as (y & Hy & Hs); [done|done| |].
        { intros c c' m' Hc Hm' Hid Hp. etrans; [exact (root_process x r c c' m' Hrd Hc Hm' Hid Hp)|].
          unfold stateOfIds. simpl. by rewrite union_empty_r_L. }
        exists y. split; [|done]. rewrite Hy, Htl. cbn [readPart]. rewrite Hm. by destruct (readPart x tl).
      * exists x. split; [|done]. unfold IterateFrom, calls, reads, mbind, st_bind. cbn. rewrite (stg_alive _ _ Hrd). cbn.
        unfold IterateSkip. rewrite decide_True by eauto.
        change (iterOrder (t_attached (ot_tree x.1)) (t_root (ot_tree x.1))) with (orderIds x). rewrite Htl. cbn [skipTo].
        rewrite decide_True by done. cbn [visitWhile readPart]. rewrite Hm. unfold contentOf in Hm. rewrite Hrc in Hm.
        unfold mbind, st_bind. rewrite (visit_fails _ _ _ _ _ _ Hrc Hm). done.
    + destruct (readPart_prefix x (orderIds x)) as [un Hun]. rewrite Hpart in Hun.
      destruct (readPart_app x seen (rest ++ un) rest) as [Hall Hok'].
      { by rewrite app_assoc, <- Hun. }
      rewrite app_assoc, <- Hun in Hall.
      destruct (exists_last Hne) as (pre & k & ->). rewrite last_snoc. simpl.
      assert (k ∈ orderIds x) as Hk by (rewrite Hun; set_solver).
      destruct (Hok' k) as [m Hm]; [set_solver|].
      assert (is_Some (attOf x !! k)) as [c Hc] by (by apply Hin).
      rewrite decide_False by (intros ->; by rewrite (stg_named _ _ Hrd) in Hc).
      destruct (resume_run x r pre k (rest ++ un) (stateOfIds x (pre ++ [k])) m Hrd Hok) as (y & Hy & Hs);
        [by rewrite app_assoc, <- Hun|done| |].
      { intros d c' m' Hd Hm' Hid Hp.
        assert (processChange c' m' r (stateOfIds x (pre ++ [k])) = Ok (stateOfIds x (pre ++ [k]))) as Hpr.
        { unfold processChange. case_decide; [done|]. rewrite decide_True; [done|]. cbn. by rewrite last_snoc, Hid. }
        unfold settings_process. rewrite Hpr, Hid. unfold stateOfIds. cbn. by rewrite last_snoc. }
      exists y. split; [|done]. by rewrite Hy, Hall.
  - exists y. rewrite Hrun. split; [|done]. unfold builtOf. destruct y, (builtState x) as [st [u|[m|m]]]; done.
Qed.

(** With every change readable, all of them are. *)
Lemma build_all x r old : readable x r -> tree_ok r (ot_tree x.1) ->
  (old = None \/ exists seen rest, orderIds x = seen ++ rest /\ seen <> [] /\ old = Some (stateOfIds x seen)) ->
  exists y, settings_Build old x = (y, Ok (stateOfIds x (orderIds x), Ok tt)) /\ sameSettings x y.
Proof.
  intros Hrd Hok Hold.
  assert (readPart x (orderIds x) = (orderIds x, Ok tt)) as Hall.
  { apply (readable_all x r); [done|]. apply Forall_forall. intros id Hid. unfold orderIds in Hid. rewrite (tk_root _ _ Hok) in Hid.
    by apply (order_spec r _ (tk_linked _ _ Hok) (tk_conn _ _ Hok)) in Hid. }
  destruct (build_run x r old (readable_tree _ _ Hrd) Hok) as (y & Hy & Hs); [by rewrite Hall|].
  exists y. split; [|done]. rewrite Hy. unfold builtState, builtOf. by rewrite Hall.
Qed.

(** C34: the settings state is what the changes of the settings tree say.  Reading a tree that
    is not deleted (whose changes have ids, whose first root alone has no content, and whose
    root, when it is a snapshot, carries its ids) goes through the iteration of the tree up
    to the first change that cannot be decrypted or decoded, if there is one, and returns
    its error: the state has the ids of the snapshot the tree starts with and every id that
    one of the later changes before that point deletes, and the last of them as the mark;
    what comes after a change that cannot be read is never read.  Building the state anew
    and going on from the state of any part that was read before give the same, and neither
    changes what a later build reads. *)
Theorem settings_build_exact x r old : settings_tree x r -> tree_ok r (ot_tree x.1) ->
  (old = None \/ exists seen rest, (readPart x (orderIds x)).1 = seen ++ rest /\ seen <> [] /\ old = Some (stateOfIds x seen)) ->
  exists y, settings_Build old x = (y, builtOf (builtState x)) /\
    settings_tree y r /\ tree_ok r (ot_tree y.1) /\ orderIds y = orderIds x /\ builtState y = builtState x.
Proof.
  intros Hrd Hok Hold. destruct (build_run x r old Hrd Hok Hold) as (y & Hrun & Hs). exists y.
  assert (orderIds y = orderIds x) as Ho.
  { unfold orderIds. destruct (sse_rest _ _ Hs) as (-> & _). apply (sse_order _ _ Hs). }
  split_and!; [done|by eapply same_settings_tree|by eapply sse_ok|done|]. unfold builtState. rewrite Ho, (same_readPart _ _ _ Hs).
  unfold stateOfIds. by erewrite same_deletedIn.
Qed.
End build.

(** ** Deleting *)

Section delete.
Context `{CryptoPrims} `{AclCodec} `{SharedKeyPrims} `{MapRange} `{ProtoWire} `{ListCodec}
  {TA : Type} `{AclStorage TA} `{SealPrims} `{TreeCodec} `{HmacPrims} `{LexIdLaws} `{SortFunc}
  {T : Type} `{TreeStorageLaws T} `{SyncCodec} `{SettingsCodecLaws} {D : Type} `{HeadsDb D}.
Abbreviation modelTree := (objectTree TA T * gmap string SettingsData)%type.
Implicit Types (x : modelTree) (ot : objectTree TA T) (s : settingsObject TA T D).

(** Keys are only added. *)
Definition keysGrow ot ot' : Prop := ot_keys ot ⊆ ot_keys ot'.
#[local] Instance keysGrow_preorder : PreOrder keysGrow.
Proof. split; unfold keysGrow; [by intros ot|by intros a b c; etrans]. Qed.

Lemma deriveMissing_grow d kv : frames keysGrow (deriveMissing (TA:=TA) (T:=T) d kv).
Proof.
  intros ot. destruct kv as [key ks]. unfold deriveMissing, reads, lifts, assigns, mbind, st_bind.
  destruct (ot_keys ot !! key) eqn:Hk; simpl; [done|]. destruct (ReadKey ks); simpl; [|done].
  destruct (DeriveKey _ _); simpl; [|done]. by apply insert_subseteq.
Qed.
Lemma readKeys_grow state : frames keysGrow (readKeysFromAclState (TA:=TA) (T:=T) state).
Proof. unfold readKeysFromAclState. frame; try done; try apply deriveMissing_grow; by unfold keysGrow. Qed.
Lemma readContent_grow nonce now content v : frames keysGrow (readContent (TA:=TA) (T:=T) nonce now content v).
Proof.
  unfold readContent, notDeleted, prepareBuilderContent, validateTree, placeNew. frame; try done; try apply readKeys_grow; by unfold keysGrow.
Qed.

Lemma decrypt_grow ot ot' c d : ot_keys ot ⊆ ot_keys ot' -> decryptChange ot c = Ok d -> decryptChange ot' c = Ok d.
Proof.
  intros Hs. unfold decryptChange. case_decide; [done|]. destruct (ot_keys ot !! _) as [k|] eqn:Hk; [|done].
  by rewrite (lookup_weaken _ _ _ _ Hk Hs).
Qed.

(** Plain content is in the change as it is. *)
Lemma readContent_plain nonce now content v ot ot' old ch common sc :
  scc_ShouldBeEncrypted content = false -> readContent nonce now content v ot = (ot', Ok (old, ch, common, sc)) ->
  ci_ReadKeyId (ch_Info ch) = ""%string /\ ci_Data (ch_Info ch) = Some (scc_Data content) /\
  exists b, NewCidFromBytes b = Ok (ch_Id ch).
Proof.
  intros Henc Hr. unfold readContent in Hr. go_step Hr. apply calls_Ok in Hr0 as [-> _]. go_step Hr. rename Hr0 into Hp.
  assert (bc_ReadKeyId a0 = ""%string /\ bc_Unencrypted a0 = true /\ bc_Content a0 = scc_Data content) as (Hid & Hun & Hcont).
  { unfold prepareBuilderContent in Hp. rewrite Henc in Hp. go_step Hp. go_step Hp. go_step Hp. destruct a3 as [rk rid].
    apply ret_Ok in Hp2 as [-> [= -> ->]]. go_step Hp. by apply reads_Ok in Hp as [-> ->]. }
  go_step Hr. go_step Hr. apply lifts_Ok in Hr1 as [-> Hb]. destruct a2 as [ch0 raw]. go_step Hr. go_step Hr.
  destruct a3 as [ch1 cm]. go_step Hr. apply ret_Ok in Hr as [-> [= -> -> -> ->]].
  assert (ch_Info ch1 = ch_Info ch0 /\ ch_Id ch1 = ch_Id ch0) as [-> ->].
  { unfold placeNew in Hr2. go_inv. destruct (scc_IsSnapshot content); by injection Hr2 as <- _. }
  unfold Build_, wrapSigned in Hb. rewrite Hun in Hb. simpl in Hb. go_inv.
  repeat match goal with y : (bytes * string * bytes)%type |- _ => destruct y as [[? ?] ?] end. go_inv. simpl.
  split_and!; [done|by rewrite Hcont|eauto].
Qed.

Lemma storeContent_inv content old ch common sc ot ot' ar :
  storeContent content (old, ch, common, sc) ot = (ot', Ok ar) ->
  exists st' t', tst_AddAll [sc] [ch_Id ch] common (ot_storage ot) = (st', Ok tt) /\
    AddMergedHead ch (if scc_IsSnapshot content then emptyTree else ot_tree ot) = (t', Ok tt) /\
    ot' = set_tree t' (set_storage st' ot) /\ ar_Mode ar = (if scc_IsSnapshot content then Rebuild else Append).
Proof.
  intros Hst. unfold storeContent in Hst. unfold mbind at 1, st_bind at 1, onStore at 1 in Hst.
  destruct (tst_AddAll _ _ _ (ot_storage ot)) as [st' [[]|e]]; [|done]. exists st'.
  destruct (scc_IsSnapshot content); unfold assigns, onTree, mbind, st_bind, mret, st_ret in Hst; cbn in Hst;
    (destruct (AddMergedHead ch _) as [t' [[]|e]] eqn:Hm; [|done]); injection Hst as <- <-; by exists t'.
Qed.

(** A settings tree that can be read and whose changes are stored. *)
Record tree_settings r x : Prop := mkTreeSettings {
  tse_read : readable x r;
  tse_tree : tree_ok r (ot_tree x.1);
  tse_wf : tst_wf (ot_storage x.1);
  tse_kept id : is_Some (t_attached (ot_tree x.1) !! id) \/ is_Some (x.2 !! id) \/ id = ot_id x.1 ->
    id ∈ sc_Id <$> tst_log (ot_storage x.1);
}.

Lemma core_fields c d : core d = core c -> ch_PreviousIds d = ch_PreviousIds c /\ ch_Info d = ch_Info c.
Proof. unfold core. destruct c, d. simpl. by intros [=]; subst. Qed.

(** A change that stays has the content it had. *)
Lemma kept_content x ot' id c c' m : ot_id ot' = ot_id x.1 -> ot_keys x.1 ⊆ ot_keys ot' -> core c' = core c ->
  contentAt x id c = Ok m -> contentAt (ot', x.2) id c' = Ok m.
Proof.
  intros Hid Hk [Hp Hi]%core_fields. unfold contentAt. simpl. rewrite Hid. destruct (x.2 !! id); [done|]. case_decide; [done|].
  destruct (decryptChange x.1 c) as [d|e] eqn:Hd; [|done]. apply (decrypt_grow _ ot') in Hd; [|done].
  assert (decryptChange ot' c' = Ok d) as -> by (rewrite <- Hd; unfold decryptChange; by rewrite Hi). done.
Qed.

(** The change that was added says what was written. *)
Lemma new_content ot' (models : gmap string SettingsData) id c data sd : models !! id = None -> id <> ot_id ot' ->
  ci_ReadKeyId (ch_Info c) = ""%string -> ci_Data (ch_Info c) = Some data -> SettingsData_UnmarshalVT data = Ok sd ->
  contentAt (ot', models) id c = Ok (Some sd).
Proof.
  intros Hm Hid Hk Hd Hun. unfold contentAt. simpl. rewrite Hm, decide_False by done. unfold decryptChange.
  rewrite decide_True by done. simpl. unfold settings_convert. rewrite Hd. simpl. by rewrite Hun.
Qed.

(** What adding plain content does, piece by piece. *)
Record contentAdded (snap : bool) (data : bytes) r ot ot' (ch : Change) : Prop := mkContentAdded {
  cad_prev : ch_PreviousIds ch = t_headIds (ot_tree ot);
  cad_link : ch_SnapshotId ch = r /\ ch_Next ch = [] /\
    ch_OrderId ch = lexId_Next (orderOf (t_attached (ot_tree ot)) (t_lastIteratedHeadId (ot_tree ot)));
  cad_plain : ci_ReadKeyId (ch_Info ch) = ""%string /\ ci_Data (ch_Info ch) = Some data;
  cad_named : exists b, NewCidFromBytes b = Ok (ch_Id ch);
  cad_new : ch_Id ch ∉ sc_Id <$> tst_log (ot_storage ot);
  cad_log id : id ∈ sc_Id <$> tst_log (ot_storage ot') <-> id ∈ sc_Id <$> tst_log (ot_storage ot) \/ id = ch_Id ch;
  cad_wf : tst_wf (ot_storage ot');
  cad_tree : AddMergedHead ch (if snap then emptyTree else ot_tree ot) = (ot_tree ot', Ok tt);
  cad_same : ot_id ot' = ot_id ot /\ ot_isDeleted ot' = ot_isDeleted ot /\ ot_keys ot ⊆ ot_keys ot';
}.

Lemma content_added r nonce now content ot ot' ar :
  tree_ok r (ot_tree ot) -> tst_wf (ot_storage ot) -> scc_ShouldBeEncrypted content = false ->
  AddContentWithValidator nonce now content None ot = (ot', Ok ar) ->
  ar_Mode ar = (if scc_IsSnapshot content then Rebuild else Append) /\
  exists ch, contentAdded (scc_IsSnapshot content) (scc_Data content) r ot ot' ch.
Proof.
  intros Hok Hwf Henc Hadd. unfold AddContentWithValidator in Hadd.
  apply st_bind_cases in Hadd as [(e & _ & ?)|(ot1 & [[[old ch] common] sc] & Hr & Hst)]; [done|].
  destruct (readContent_Ok r _ _ _ _ _ _ _ _ _ _ Hok Hr) as (_ & Hp & Hs & Hn & Ho & _ & raw & ->).
  destruct (readContent_plain _ _ _ _ _ _ _ _ _ _ Henc Hr) as (Hkey & Hdata & Hcid).
  pose proof (frames_run _ _ _ _ _ (readContent_grow _ _ _ _) Hr) as Hgrow.
  pose proof (frames_run _ _ _ _ _ (readContent_frame _ _ _ _) Hr) as Hkeys.
  assert (ot_id ot1 = ot_id ot /\ ot_isDeleted ot1 = ot_isDeleted ot) as [Hid Hdel] by (by destruct Hkeys as (ks & k & ->)).
  apply keysOnly_same in Hkeys as (Ht & Hsto & _).
  destruct (storeContent_inv _ _ _ _ _ _ _ _ Hst) as (st' & t' & Hall & Hm & -> & Hmode). split; [done|].
  rewrite Hsto in Hall. apply tst_AddAll_Ok in Hall as (Hwf' & _ & _ & _ & seq & Hlog); [|done].
  exists ch. rewrite Ht in Hm. split; cbn; try done.
  - apply tst_log_ok in Hwf' as [Hnd _]. rewrite Hlog, fmap_app, NoDup_app in Hnd. destruct Hnd as (_ & Hdis & _).
    intros Hin. apply (Hdis _ Hin). simpl. by left.
  - intros id. rewrite Hlog, fmap_app, elem_of_app. simpl. by rewrite list_elem_of_singleton.
Qed.

Lemma headIds_nonempty r t : tree_ok r t -> t_headIds t <> [].
Proof. intros Hok He. pose proof (last_head r t Hok) as Hl. rewrite He in Hl. by apply not_elem_of_nil in Hl. Qed.

Hypothesis cid_nonempty : forall b, NewCidFromBytes b <> Ok ""%string.

Lemma contentAdded_facts snap data r x ot' ch : tree_settings r x -> contentAdded snap data r x.1 ot' ch ->
  ch_Id ch <> ""%string /\ ch_Id ch <> ot_id ot' /\ x.2 !! ch_Id ch = None /\ t_attached (ot_tree x.1) !! ch_Id ch = None.
Proof.
  intros Hts Hca. pose proof (cad_new _ _ _ _ _ _ Hca) as Hnew. destruct (cad_same _ _ _ _ _ _ Hca) as (Hid & _).
  split_and!.
  - intros He. destruct (cad_named _ _ _ _ _ _ Hca) as [b Hb]. rewrite He in Hb. by eapply cid_nonempty.
  - intros He. apply Hnew, (tse_kept _ _ Hts). right; right. congruence.
  - apply eq_None_not_Some. intros Hs. apply Hnew, (tse_kept _ _ Hts). auto.
  - apply eq_None_not_Some. intros Hs. apply Hnew, (tse_kept _ _ Hts). auto.
Qed.

(** A snapshot starts the tree anew with the ids it has. *)
Lemma snapshot_added data r x ot' ch sd ids : tree_settings r x -> contentAdded true data r x.1 ot' ch ->
  SettingsData_UnmarshalVT data = Ok sd -> sd_Snapshot sd = Some ids ->
  tree_settings (ch_Id ch) (ot', x.2) /\ orderIds (ot', x.2) = [ch_Id ch] /\
  deletedIn (ot', x.2) [ch_Id ch] = list_to_set ids.
Proof.
  intros Hts Hca Hun Hsn. destruct (contentAdded_facts _ _ _ _ _ _ Hts Hca) as (Hne & Hroot & Hmod & Hatt).
  destruct (cad_link _ _ _ _ _ _ Hca) as (Hs & Hn & Ho). destruct (cad_plain _ _ _ _ _ _ Hca) as [Hk Hd].
  destruct (cad_same _ _ _ _ _ _ Hca) as (Hid & Hdel & _).
  assert (lexid (ch_OrderId ch)) as Hlex by (rewrite Ho; by eapply next_lexid, tse_tree).
  destruct (merged_root ch Hn Hlex) as (t' & Hrun & Hok' & Hh & Ha).
  pose proof (cad_tree _ _ _ _ _ _ Hca) as Hrun'. simpl in Hrun'. rewrite Hrun' in Hrun. injection Hrun as <-.
  pose proof (new_content ot' x.2 (ch_Id ch) ch data sd Hmod Hroot Hk Hd Hun) as Hcont.
  assert (dataAt (ot', x.2) (ch_Id ch) = Some sd) as Hdata.
  { unfold dataAt. simpl. rewrite Ha, lookup_singleton_eq. simpl. by rewrite Hcont. }
  assert (ch_PreviousIds ch <> []) as Hp by (rewrite (cad_prev _ _ _ _ _ _ Hca); by eapply headIds_nonempty, tse_tree).
  assert (forall id c, t_attached (ot_tree ot') !! id = Some c -> id = ch_Id ch /\ c = ch) as Hone.
  { intros id c. rewrite Ha. intros [<- <-]%lookup_singleton_Some. done. }
  split_and!.
  - split; simpl; [split; simpl|done|apply Hca|].
    + rewrite Hdel. apply Hts.
    + rewrite Ha. by apply lookup_singleton_ne.
    + intros id c [-> ->]%Hone. eauto.
    + intros id c [-> ->]%Hone _. rewrite Hdata. eauto.
    + intros c d _ _. rewrite Hdata. intros [= <-]. rewrite Hsn. eauto.
    + intros id Hor. apply (cad_log _ _ _ _ _ _ Hca). destruct Hor as [[c [-> _]%Hone]|[Hm|Hi]]; [by right|left|left];
        apply (tse_kept _ _ Hts); [by auto|]. right; right. congruence.
  - unfold orderIds. simpl. rewrite (tk_root _ _ Hok'), Ha. by apply root_order.
  - simpl. unfold firstIds. rewrite union_empty_r_L. simpl. rewrite Ha, lookup_singleton_eq. simpl.
    rewrite decide_False, Hdata by done. simpl. by rewrite Hsn.
Qed.

(** A change on top of the others adds the ids it deletes. *)
Lemma append_added data r x ot' ch sd : tree_settings r x -> contentAdded false data r x.1 ot' ch ->
  SettingsData_UnmarshalVT data = Ok sd ->
  tree_settings r (ot', x.2) /\ orderIds (ot', x.2) = orderIds x ++ [ch_Id ch] /\
  deletedIn (ot', x.2) (orderIds x) = deletedIn x (orderIds x) /\ deletedAt (ot', x.2) (ch_Id ch) = list_to_set (deleteIdsOf sd).
Proof.
  intros Hts Hca Hun. destruct (contentAdded_facts _ _ _ _ _ _ Hts Hca) as (Hne & Hroot & Hmod & Hatt).
  pose proof (tse_read _ _ Hts) as Hrd. pose proof (tse_tree _ _ Hts) as Hok.
  destruct (cad_link _ _ _ _ _ _ Hca) as (Hs & Hn & Ho). destruct (cad_plain _ _ _ _ _ _ Hca) as [Hk Hd].
  destruct (cad_same _ _ _ _ _ _ Hca) as (Hid & Hdel & Hgrow).
  destruct (AddMergedHead_spec r (ot_tree x.1) ch) as (t' & Hrun & Hok' & _ & _ & Hord & (c' & Hc' & _ & _ & Hi') & Hold & Hdom); try done.
  { apply Hca. }
  { rewrite Hs. apply (lk_root _ _ (tk_linked _ _ Hok)). }
  pose proof (cad_tree _ _ _ _ _ _ Hca) as Hrun'. simpl in Hrun'. rewrite Hrun' in Hrun. injection Hrun as <-.
  assert (contentAt (ot', x.2) (ch_Id ch) c' = Ok (Some sd)) as Hcont by (eapply new_content; by rewrite ?Hi').
  assert (dataAt (ot', x.2) (ch_Id ch) = Some sd) as Hdata by (unfold dataAt; simpl; rewrite Hc'; simpl; by rewrite Hcont).
  (* the changes that were there *)
  assert (forall id c, t_attached (ot_tree x.1) !! id = Some c -> exists d, t_attached (ot_tree ot') !! id = Some d /\
    ch_PreviousIds d = ch_PreviousIds c /\ dataAt (ot', x.2) id = dataAt x id /\ exists m, contentAt (ot', x.2) id d = Ok m) as Hkeep.
  { intros id c Hc. destruct (Hold _ _ Hc) as (d & Hdd & Hcore). exists d. destruct (core_fields _ _ Hcore) as [Hp _].
    destruct (rdb_content _ _ Hrd _ _ Hc) as [m Hm]. pose proof (kept_content x ot' id c d m Hid Hgrow Hcore Hm) as Hm'.
    split_and!; [done|done| |eauto]. unfold dataAt. simpl. rewrite Hdd, Hc. simpl. by rewrite Hm, Hm'. }
  assert (forall id d, t_attached (ot_tree ot') !! id = Some d -> (id = ch_Id ch /\ d = c') \/
    exists c, t_attached (ot_tree x.1) !! id = Some c /\ ch_PreviousIds d = ch_PreviousIds c /\
      dataAt (ot', x.2) id = dataAt x id /\ exists m, contentAt (ot', x.2) id d = Ok m) as Hback.
  { intros id d Hdd. destruct (proj1 (Hdom id) ltac:(eauto)) as [[c Hc]|He]; [right|left; split; congruence].
    exists c. destruct (Hkeep _ _ Hc) as (d' & Hd' & ?). rewrite Hdd in Hd'. injection Hd' as <-. done. }
  destruct (lk_root _ _ (tk_linked _ _ Hok)) as [rc Hrc]. destruct (Hkeep _ _ Hrc) as (rd & Hrd' & Hrp & Hrdata & _).
  assert (orderIds x = iterOrder (t_attached (ot_tree x.1)) (Some r)) as Hox by (unfold orderIds; by rewrite (tk_root _ _ Hok)).
  destruct (order_spec r _ (tk_linked _ _ Hok) (tk_conn _ _ Hok)) as (_ & Hin & _).
  destruct (order_root r _ (tk_linked _ _ Hok) (tk_conn _ _ Hok)) as [tl Htl].
  split_and!.
  - split; simpl; [split; simpl|done|apply Hca|].
    + rewrite Hdel. apply Hrd.
    + destruct (_ !! ""%string) as [d|] eqn:He; [|done]. destruct (Hback _ _ He) as [[He' _]|(c & Hc & _)]; [congruence|].
      by rewrite (rdb_named _ _ Hrd) in Hc.
    + intros id d Hdd. destruct (Hback _ _ Hdd) as [[-> ->]|(c & _ & _ & _ & Hm)]; [eauto|exact Hm].
    + intros id d Hdd Hp. destruct (Hback _ _ Hdd) as [[-> ->]|(c & Hc & Hp' & -> & _)]; [rewrite Hdata; eauto|].
      rewrite Hp' in Hp. by eapply rdb_model.
    + intros d sd' Hdd Hp. assert (d = rd) as -> by congruence. rewrite Hrdata, Hrp in *. by eapply rdb_snapshot.
    + intros id Hor. apply (cad_log _ _ _ _ _ _ Hca). rewrite Hdom, Hid in Hor.
      destruct Hor as [[?|?]|?]; [left|by right|left]; apply (tse_kept _ _ Hts); tauto.
  - unfold orderIds at 1. simpl. rewrite (tk_root _ _ Hok'), Hord, Hox. done.
  - assert (forall id, id ∈ orderIds x -> dataAt (ot', x.2) id = dataAt x id) as Hall.
    { intros id Hi. rewrite Hox, Hin in Hi. destruct Hi as [c Hc]. by destruct (Hkeep _ _ Hc) as (? & _ & _ & ? & _). }
    rewrite Hox, Htl in *. simpl. f_equal; [unfold firstIds; simpl; by rewrite Hrd', Hrc, Hrdata; simpl; rewrite Hrp|].
    f_equal. apply list_fmap_ext. intros i id Hi. unfold deletedAt. rewrite Hall; [done|]. right. by eapply list_elem_of_lookup_2.
  - unfold deletedAt. by rewrite Hdata.
Qed.

(** *** The settings object *)

Abbreviation readTree s := (so_object s, so_models s).
(** The state is that of the tree. *)
Definition settings_ok r s : Prop :=
  tree_settings r (readTree s) /\ so_state s = Some (stateOfIds (readTree s) (orderIds (readTree s))).
(** The ids that are deleted. *)
Definition deletedOf s : gset string := from_option stt_DeletedIds ∅ (so_state s).

Lemma same_tree_settings r x y : sameSettings x y -> tree_settings r x -> tree_settings r y.
Proof.
  intros Hs [Hrd Hok Hwf Hk]. split; [by eapply same_readable|by eapply sse_ok|by rewrite (sse_storage _ _ Hs)|].
  intros id. rewrite (sse_storage _ _ Hs), (sse_att _ _ Hs), (sse_id _ _ Hs). intros [?|[?|?]]; apply Hk; auto.
  destruct (sse_models _ _ Hs id) as [?|?]; auto.
Qed.

(** Building brings the state up to date, whatever the deletion state makes of the ids. *)
Lemma updateIds_ok r s s' res : tree_settings r (readTree s) ->
  (so_state s = None \/ exists seen rest, orderIds (readTree s) = seen ++ rest /\ seen <> [] /\
     so_state s = Some (stateOfIds (readTree s) seen)) ->
  updateIds s = (s', res) -> settings_ok r s' /\ so_state s' = Some (stateOfIds (readTree s) (orderIds (readTree s))).
Proof.
  intros Hts Hold Hrun. destruct (build_all (readTree s) r (so_state s) (tse_read _ _ Hts) (tse_tree _ _ Hts) Hold) as ([ot m] & Hb & Hs).
  pose proof (same_tree_settings _ _ _ Hs Hts) as Hts'.
  assert (stateOfIds (ot, m) (orderIds (ot, m)) = stateOfIds (readTree s) (orderIds (readTree s))) as Hst.
  { assert (orderIds (ot, m) = orderIds (readTree s)) as ->
      by (unfold orderIds; destruct (sse_rest _ _ Hs) as (-> & _); apply (sse_order _ _ Hs)).
    unfold stateOfIds. by erewrite same_deletedIn by (exact Hs || apply Hts). }
  unfold updateIds, buildState, UpdateState, onDeletion, currentState, calls, mbind, st_bind in Hrun. rewrite Hb in Hrun. cbn in Hrun.
  destruct (deletion_Add _ _) as [d r'] in Hrun. injection Hrun as <- _. split; [|done]. split; [exact Hts'|]. cbn.
  unfold so_object. cbn. by rewrite Hst.
Qed.

Lemma sync_content_inv fuel nonce now content (t t' : syncTree TA T) ar :
  sync_AddContentWithValidator fuel nonce now content None t = (t', Ok ar) ->
  exists ot', AddContentWithValidator nonce now content None (sy_tree t) = (ot', Ok ar) /\
    (sy_tree t' = ot' \/ exists p, sy_tree t' = set_snapshotPath p ot').
Proof.
  intros Hr. unfold sync_AddContentWithValidator in Hr. go_step Hr. apply calls_Ok in Hr0 as [-> _]. go_step Hr. rename Hr0 into Hadd.
  unfold onObject in Hadd. destruct (AddContentWithValidator nonce now content None (sy_tree t)) as [ot' [ar'|e]]; [|done].
  injection Hadd as <- ->. exists ot'. go_step Hr. apply reads_Ok in Hr0 as [-> ->]. go_step Hr. apply assigns_Ok in Hr0 as ->.
  go_step Hr. rename Hr0 into Hh. go_step Hr. apply assigns_Ok in Hr0 as ->. apply ret_Ok in Hr as [-> <-]. split; [done|]. cbn.
  unfold CreateHeadUpdate in Hh. go_step Hh. rename Hh0 into Hp. go_step Hh. apply reads_Ok in Hh0 as [-> ->].
  go_step Hh. apply reads_Ok in Hh0 as [-> ->]. go_step Hh. apply lifts_Ok in Hh0 as [-> _]. go_step Hh. apply lifts_Ok in Hh0 as [-> _].
  apply reads_Ok in Hh as [-> _]. unfold onObject in Hp. cbn in Hp. destruct (SnapshotPath fuel ot') as [ot2 r2] eqn:Hsp.
  injection Hp as <- _. cbn. by apply SnapshotPath_keeps in Hsp.
Qed.

Lemma contentAdded_path snap data r ot ot' p ch : contentAdded snap data r ot ot' ch ->
  contentAdded snap data r ot (set_snapshotPath p ot') ch.
Proof. by intros [? ? ? ? ? ? ? ? ?]. Qed.

Lemma recordIds_elem (m : gset string) : list_to_set (idsOf m) = m.
Proof.
  apply set_eq. intros y. rewrite elem_of_list_to_set. unfold idsOf. rewrite map_range_perm.
  rewrite list_elem_of_fmap. split.
  - intros ([k []] & -> & Hk%elem_of_map_to_list). by apply lookup_gset_to_gmap_Some in Hk as [? _].
  - intros Hy. exists (y, tt). split; [done|]. apply elem_of_map_to_list. by apply lookup_gset_to_gmap_Some.
Qed.

(** A change of one's own is in the state afterwards. *)
Lemma addContent_ok r s s' fuel nonce now data snap sd ids : settings_ok r s ->
  settings_addContent fuel nonce now data snap s = (s', Ok tt) -> SettingsData_UnmarshalVT data = Ok sd ->
  (snap = true -> sd_Snapshot sd = Some ids) ->
  exists r', settings_ok r' s' /\
    deletedOf s' = if snap then list_to_set ids else deletedOf s ∪ list_to_set (deleteIdsOf sd).
Proof.
  intros [Hts Hst] Hrun Hun Hsn. unfold settings_addContent in Hrun. go_step Hrun. apply reads_Ok in Hrun0 as [-> ->].
  go_step Hrun. rename Hrun0 into Hadd. unfold onSyncTree in Hadd.
  destruct (sync_AddContentWithValidator _ _ _ _ _ (so_tree s)) as [t1 [ar|e]] eqn:Hsync; [|done]. injection Hadd as <- ->.
  apply sync_content_inv in Hsync as (ot' & Hobj & Hpath).
  eapply (content_added r) in Hobj as (Hmode & ch & Hca); [|apply Hts|apply Hts|done].
  cbn in Hmode, Hca. rewrite Hmode in Hrun. assert (contentAdded snap data r (so_object s) (sy_tree t1) ch) as Hca'
    by (destruct Hpath as [->|[p ->]]; [done|by apply contentAdded_path]). clear Hca Hpath.
  destruct snap.
  - destruct (snapshot_added _ _ (readTree s) _ _ _ _ Hts Hca' Hun (Hsn eq_refl)) as (Hts' & Ho & Hdel).
    unfold settings_Rebuild in Hrun. go_step Hrun. apply assigns_Ok in Hrun0 as ->.
    eapply (updateIds_ok (ch_Id ch)) in Hrun as [Hok Hs']; [|exact Hts'|by left]. exists (ch_Id ch). split; [exact Hok|].
    unfold deletedOf. rewrite Hs'. cbn [from_option stt_DeletedIds stateOfIds].
    change (deletedIn (sy_tree t1, so_models s) (orderIds (sy_tree t1, so_models s)) = list_to_set ids).
    cbn [snd] in Ho, Hdel. by rewrite Ho.
  - destruct (append_added _ _ (readTree s) _ _ _ Hts Hca' Hun) as (Hts' & Ho & Hdel & Hnew).
    eapply (updateIds_ok r) in Hrun as [Hok Hs']; [|exact Hts'|].
    + exists r. split; [exact Hok|]. unfold deletedOf. rewrite Hs', Hst. cbn [from_option stt_DeletedIds stateOfIds].
      change (deletedIn (sy_tree t1, so_models s) (orderIds (sy_tree t1, so_models s)) =
        deletedIn (readTree s) (orderIds (readTree s)) ∪ list_to_set (deleteIdsOf sd)).
      cbn [snd] in Ho, Hdel, Hnew. rewrite Ho, deletedIn_app, Hdel. { simpl. by rewrite Hnew, union_empty_r_L. }
      pose proof (tse_tree _ _ Hts) as Hok0. destruct (order_root r _ (tk_linked _ _ Hok0) (tk_conn _ _ Hok0)) as [tl Htl].
      unfold orderIds. by rewrite (tk_root _ _ Hok0), Htl.
    + right. exists (orderIds (readTree s)), [ch_Id ch]. split_and!; [exact Ho| |].
      * pose proof (tse_tree _ _ Hts) as Hok0. destruct (order_root r _ (tk_linked _ _ Hok0) (tk_conn _ _ Hok0)) as [tl Htl].
        unfold orderIds. by rewrite (tk_root _ _ Hok0), Htl.
      * etrans; [exact Hst|]. unfold stateOfIds. f_equal. f_equal. symmetry. exact Hdel.
Qed.

(** C35: Deleting an object, when it succeeds, makes exactly the object and those of its
    children that were not deleted yet deleted, besides what was, whether or not the change
    becomes a snapshot that starts the tree anew; the state is again that of the tree, and
    under a space that restricts deletions, an account that may not manage accounts is the
    author of the object. *)
Theorem settings_delete_exact r s s' trees fuel nonce now val id :
  settings_ok r s -> DeleteObject trees fuel nonce now val id s = (s', Ok tt) ->
  exists r' children, settings_ok r' s' /\
    GetEntriesByParentId (ds_storage (so_deletion s)) id = Ok children /\
    deletedOf s' = list_to_set (idsToDelete id children) ∪ deletedOf s /\ id ∉ deletedOf s /\
    (needsAuthorCheck s = true -> exists author, objectAuthor (ds_storage (so_deletion s)) trees id = Ok author /\
       PubKey_Equals author (GetPublic (so_account s)) = true).
Proof.
  intros [Hts Hst] Hrun. unfold DeleteObject in Hrun. go_step Hrun. apply calls_Ok in Hrun0 as [-> Hck].
  go_step Hrun. apply reads_Ok in Hrun0 as [-> ->]. set (snap := DoSnapshot _ _) in *.
  go_step Hrun. apply calls_Ok in Hrun0 as [-> Hdata]. unfold currentState in Hdata, Hck. rewrite Hst in Hdata. simpl in Hdata.
  set (st0 := stateOfIds (readTree s) (orderIds (readTree s))) in *.
  (* the checks *)
  unfold checkDelete, currentState in Hck. rewrite Hst in Hck. simpl in Hck. go_inv.
  rename Hck1 into Hnew, Hck4 into Hch, Hck5 into Hauth.
  unfold CreateObjectDeleteChange in Hdata. apply SettingsData_law in Hdata.
  destruct (addContent_ok r s s' fuel nonce now _ snap _ (makeSnapshot st0 (idsToDelete id a5)) (conj Hts Hst) Hrun Hdata)
    as (r' & Hok & Hdel); [by intros ->|]. exists r', a5.
  split_and!; [exact Hok|exact Hch| | |].
  - rewrite Hdel, deleteIds_all. unfold deletedOf. rewrite Hst. cbn [from_option]. destruct snap; [|by rewrite union_comm_L].
    unfold makeSnapshot. by rewrite list_to_set_app_L, recordIds_elem.
  - unfold deletedOf. rewrite Hst. unfold Exists in Hnew. by rewrite bool_decide_eq_false in Hnew.
  - intros Hneed. rewrite Hneed in Hauth. unfold checkAuthor in Hauth.
    destruct (objectAuthor _ _ _) as [author|[e|e]]; [|done..]. exists author. split; [done|]. go_inv.
    by destruct (PubKey_Equals _ _).
Qed.
End delete.

(** ** A snapshot without one *)

Section panics.
Context `{CryptoPrims} `{AclCodec} `{SharedKeyPrims} `{MapRange} `{ProtoWire} `{ListCodec}
  {TA : Type} `{AclStorage TA} `{SealPrims} `{TreeCodec} `{HmacPrims} `{LexIdLaws} `{SortFunc}
  {T : Type} `{TreeStorage T} `{SettingsCodec}.

(** A change that is marked as a snapshot, and became the root, but whose data has none
    panics whoever reads the settings. *)
Lemma settings_nil_snapshot_panics (x : objectTree TA T * gmap string SettingsData) r c d :
  tree_ok r (ot_tree x.1) -> ot_isDeleted x.1 = false -> r <> ""%string ->
  t_attached (ot_tree x.1) !! r = Some c -> ch_PreviousIds c <> [] -> contentAt x r c = Ok (Some d) -> sd_Snapshot d = None ->
  (settings_Build None x).2 = Err (GoPanic "nil SpaceSettingsSnapshot").
Proof.
  intros Hok Hdel Hr Hc Hp Hm Hsn. unfold settings_Build. rewrite (tk_root _ _ Hok). cbn [startOf default].
  unfold IterateFrom, calls, reads, mbind, st_bind. cbn [rd_tree]. rewrite Hdel. cbn. unfold IterateSkip. rewrite decide_True by eauto.
  destruct (order_root r _ (tk_linked _ _ Hok) (tk_conn _ _ Hok)) as [tl Htl]. rewrite (tk_root _ _ Hok), Htl.
  cbn [skipTo]. rewrite decide_True by done. cbn [visitWhile].
  destruct (visit_run x r r c (Some d) (Ok NewState) Hc (lk_ids _ _ (tk_linked _ _ Hok) _ _ Hc) Hm) as (y & c' & Hv & Hc' & Hp' & _).
  unfold mbind, st_bind. rewrite Hv.
  assert (settings_process r c' (Some d) (Ok NewState) = (Err (GoPanic "nil SpaceSettingsSnapshot"), false)) as ->; [|done].
  unfold settings_process, processChange. rewrite decide_False by (by rewrite Hp'). rewrite decide_False by (cbn; congruence).
  cbn. rewrite decide_True by done. by rewrite Hsn.
Qed.
End panics.

(** * Settings evaluated: alice deletes an object with a child in the tree of the object
    tree examples. *)

Local Open Scope string_scope.

#[local] Existing Instances cidListCodec toySyncCodec HeadSyncExample.mapDb.

(** A content is a tag with an id, a snapshot a list of ids. *)
Definition settingsFields (m : SettingsData) : list (nat * string) * option (list string) :=
  ((fun cnt => match cnt with ObjectDelete id => (0%nat, id) | SpaceDelete p => (1%nat, p) | NoSettings => (2%nat, "") end)
     <$> sd_Content m, sd_Snapshot m).
Definition settingsOf (f : list (nat * string) * option (list string)) : SettingsData :=
  mkSettingsData ((fun x : nat * string =>
    match x.1 with 0%nat => ObjectDelete x.2 | 1%nat => SpaceDelete x.2 | _ => NoSettings end) <$> f.1) f.2.
#[local] Instance toySettingsCodec : SettingsCodec := {|
  SettingsData_MarshalVT := fun m => Ok (ser (settingsFields m));
  SettingsData_UnmarshalVT := message settingsOf;
|}.
#[local] Instance toySettingsCodecLaws : SettingsCodecLaws.
Proof.
  split. intros m b [= <-]. change (message settingsOf (ser (settingsFields m)) = Ok m). rewrite message_law. f_equal. destruct m as [cnts sn]. unfold settingsOf, settingsFields. simpl. f_equal.
  rewrite <- list_fmap_compose. rewrite <- (list_fmap_id cnts) at 2. apply list_fmap_ext. by intros i [] _.
Qed.

Definition exDocs : gmap string HeadsDoc :=
  <["kid" := mkHeadsDoc (Some ["h2"]) None None None (Some "obj") None]>
  (<["gone" := mkHeadsDoc (Some ["h3"]) None (Some DeletedStatusDeleted) None (Some "obj") None]>
  {["obj" := mkHeadsDoc (Some ["h1"]) None None None None None]}).
Abbreviation exSettingsT := (settingsObject inMemoryStorage listStore (gmap string HeadsDoc)).
Definition exSettings : exSettingsT :=
  mkSettingsObject (mkSyncTree exObjTree "space" None false false false []) ∅ (privOf alice)
    (Some (mkState ∅ (rtc_Id exTreeRoot))) (NewDeletionState (mkHeadStorage exDocs [])).
Definition exDeleted : exSettingsT := (DeleteObject (fun _ => Err (GoError "no tree")) 10 "123456789012" 3 0 "obj" exSettings).1.

(** A tree with its first root alone can be read. *)
Lemma root_readable (ot : exTreeT) r c : ot_isDeleted ot = false -> r <> "" -> ot_id ot = r ->
  (forall x d, t_attached (ot_tree ot) !! x = Some d -> x = r /\ d = c) -> ch_PreviousIds c = [] -> readable (ot, ∅) r.
Proof.
  intros Hd Hr Hid Hone Hp. split; simpl.
  - exact Hd.
  - destruct (_ !! "") as [d|] eqn:He; [|done]. by destruct (Hone _ _ He) as [<- _].
  - intros x d [-> ->]%Hone. exists None. unfold contentAt. simpl. by rewrite decide_True.
  - intros x d [-> ->]%Hone. done.
  - intros d sd [_ ->]%Hone. done.
Qed.
Lemma root_settings (ot : exTreeT) r c acc d : readable (ot, ∅) r -> tree_ok r (ot_tree ot) -> tst_wf (ot_storage ot) ->
  ot_id ot = r -> (forall x d, t_attached (ot_tree ot) !! x = Some d -> x = r /\ d = c) -> ch_PreviousIds c = [] ->
  r ∈ sc_Id <$> tst_log (ot_storage ot) -> iterOrder (t_attached (ot_tree ot)) (Some r) = [r] -> is_Some (t_attached (ot_tree ot) !! r) ->
  settings_ok r (mkSettingsObject (mkSyncTree ot "space" None false false false []) ∅ acc (Some (mkState ∅ r)) d : exSettingsT).
Proof.
  intros Hrd Hok Hwf Hid Hone Hp Hin Hord [c' Hc]. split; [split; try done|]; cbn.
  - intros x [[e [-> _]%Hone]|[[e He]| -> ]]; [done|done|]. by rewrite Hid.
  - unfold orderIds, so_object. cbn. rewrite (tk_root _ _ Hok), Hord. unfold stateOfIds, deletedIn, firstIds. cbn. rewrite Hc. cbn.
    destruct (Hone _ _ Hc) as [_ ->]. rewrite decide_True by done. by rewrite union_empty_r_L.
Qed.

Lemma exSettings_readable : readable (exObjTree, ∅) (rtc_Id exTreeRoot).
Proof.
  apply (root_readable exObjTree (rtc_Id exTreeRoot) exRootChange); [vm_compute; reflexivity|vm_compute; discriminate
    |vm_compute; reflexivity|exact exObjTree_attached|vm_compute; reflexivity].
Qed.
Lemma exSettings_ok : settings_ok (rtc_Id exTreeRoot) exSettings.
Proof.
  apply (root_settings exObjTree (rtc_Id exTreeRoot) exRootChange).
  - exact exSettings_readable.
  - exact exObjTree_ok.
  - exact exTreeStorage_wf.
  - vm_compute. reflexivity.
  - exact exObjTree_attached.
  - vm_compute. reflexivity.
  - rewrite exTreeStorage_log. by left.
  - vm_compute. reflexivity.
  - apply (bool_decide_unpack _). vm_compute. exact I.
Qed.

Lemma toyCid_nonempty b : NewCidFromBytes b <> Ok "".
Proof. intros Hb. change (Ok ("cid" ++ pretty.pretty (checksum 7 b)) = Ok "") in Hb. discriminate Hb. Qed.

(** Three changes of alice in a row: she deletes an object, writes what is no settings data,
    and deletes another one. *)
Definition exSettingsChange (prev : string) (data : bytes) : Change :=
  match Build_ "123456789012" (mkBuilderContent [prev] "r3" (rtc_Id exTreeRoot) "" false true (privOf alice) None data 7 "") with
  | Ok (_, raw) => match cb_Unmarshall (ot_changeBuilder exObjTree) raw true with Ok c => c | Err _ => exRootChange end
  | Err _ => exRootChange
  end.
Definition deleteOf (id : string) : bytes :=
  match CreateObjectDeleteChange [id] NewState false with Ok b => b | Err _ => "" end.
Definition exDelete1 : Change := exSettingsChange (rtc_Id exTreeRoot) (deleteOf "obj").
Definition exJunk : Change := exSettingsChange (ch_Id exDelete1) "junk".
Definition exDelete2 : Change := exSettingsChange (ch_Id exJunk) (deleteOf "kid").
Definition exJunkTree : exTreeT := set_tree (Add [exDelete1; exJunk; exDelete2] (ot_tree exObjTree)).1 exObjTree.

Lemma exJunkTree_ok : tree_ok (rtc_Id exTreeRoot) (ot_tree exJunkTree).
Proof.
  destruct (Add_call (rtc_Id exTreeRoot) [exDelete1; exJunk; exDelete2] (ot_tree exObjTree) exObjTree_ok) as (t1 & mode & added & t2 & Hcall).
  - apply deliverableb_spec. vm_compute. reflexivity.
  - unfold exJunkTree. cbn [ot_tree set_tree]. rewrite (ca_run _ _ _ _ _ _ _ Hcall). apply Hcall.
Qed.

(** What [settings_tree] asks of a tree whose root is its first, checked change by change. *)
Definition settings_treeb (ot : exTreeT) (r : string) (kv : string * Change) : bool :=
  negb (bool_decide (kv.1 = "")) &&
  (bool_decide (ch_PreviousIds kv.2 = []) ||
   negb (bool_decide (kv.1 = r)) && match contentAt (ot, ∅) kv.1 kv.2 with Ok None => false | _ => true end).
Lemma settings_treeb_spec (ot : exTreeT) r : ot_isDeleted ot = false ->
  forallb (settings_treeb ot r) (map_to_list (t_attached (ot_tree ot))) = true -> settings_tree (ot, ∅) r.
Proof.
  intros Hd Hall. rewrite forallb_forall in Hall.
  assert (forall id c, t_attached (ot_tree ot) !! id = Some c -> id <> "" /\ (ch_PreviousIds c = [] \/ id <> r /\ contentAt (ot, ∅) id c <> Ok None)) as Hone.
  { intros id c Hc. specialize (Hall (id, c)). unfold settings_treeb in Hall. cbn [fst snd] in Hall.
    rewrite andb_true_iff, orb_true_iff, andb_true_iff, !negb_true_iff, !bool_decide_eq_true, !bool_decide_eq_false in Hall.
    destruct Hall as [Hne Hor]; [apply list_elem_of_In; by apply elem_of_map_to_list|]. split; [done|].
    destruct Hor as [|[Hr Hm]]; [by left|right]. split; [done|]. intros He. by rewrite He in Hm. }
  split; cbn [fst snd].
  - exact Hd.
  - destruct (t_attached (ot_tree ot) !! "") as [c|] eqn:Hc; [|done]. by destruct (Hone _ _ Hc).
  - intros id c Hc Hp. destruct (Hone _ _ Hc) as [_ [|[_ Hm]]]; done.
  - intros c d Hc Hp. destruct (Hone _ _ Hc) as [_ [|[? _]]]; done.
Qed.

(** The validator takes what cannot be decoded; a build that goes on from the root stops
    there, with the first deletion and without the second. *)
Lemma settings_build_exact_witness :
  newSettingsContentValidator (fun _ => Err (GoError "no tree")) exJunk exAcl = Ok tt /\
  orderIds (exJunkTree, ∅) = [rtc_Id exTreeRoot; ch_Id exDelete1; ch_Id exJunk; ch_Id exDelete2] /\
  exists y e, settings_Build (Some (mkState ∅ (rtc_Id exTreeRoot))) (exJunkTree, ∅) =
      (y, Ok (mkState {["obj"]} (ch_Id exDelete1), Err (GoError e))) /\ orderIds y = orderIds (exJunkTree, ∅).
Proof.
  split; [vm_compute; reflexivity|]. split; [vm_compute; reflexivity|].
  destruct (settings_build_exact (exJunkTree, ∅) (rtc_Id exTreeRoot) (Some (mkState ∅ (rtc_Id exTreeRoot)))) as (y & Hr & _ & _ & Ho & _).
  - apply settings_treeb_spec; vm_compute; reflexivity.
  - exact exJunkTree_ok.
  - right. exists [rtc_Id exTreeRoot], [ch_Id exDelete1]. split; [vm_compute; reflexivity|]. split; [discriminate|vm_compute; reflexivity].
  - assert (exists e, builtOf (builtState (exJunkTree, ∅)) = Ok (mkState {["obj"]} (ch_Id exDelete1), Err (GoError e)))
      as [e He] by (eexists; vm_compute; reflexivity).
    exists y, e. split; [|exact Ho]. rewrite Hr, He. reflexivity.
Defined.

Lemma settings_delete_exact_witness :
  deletedOf exDeleted = {["obj"; "kid"]} /\ exists r, settings_ok r exDeleted.
Proof.
  destruct (settings_delete_exact toyCid_nonempty (rtc_Id exTreeRoot) exSettings exDeleted
    (fun _ => Err (GoError "no tree")) 10 "123456789012" 3 0 "obj" exSettings_ok) as (r & children & Hok & Hch & Hdel & _).
  - vm_compute. reflexivity.
  - split; [|by exists r]. rewrite Hdel. vm_compute in Hch. injection Hch as <-. vm_compute. reflexivity.
Defined.
